(* ===== verification/_CoqProject ===== *)
-Q . S2P
Prelude.v
RustStr.v
Encoding.v
Breaker.v
ChangeSet.v
ChangeSetMem.v
ChangeSetRuns.v
ChangeSetPg.v
ChangeSetRefine.v
Facts.v
Authz.v
BreakGlass.v
DecisionCache.v
HashChain.v
Bridges.v
ChainVerify.v
Evidence.v
Json.v
SchemaHash.v
Interact.v
EmailRecipients.v
CountBounds.v
ToolSnapshot.v
ApprovalView.v
Validation.v
Continuation.v
InvocationTypes.v
Retained.v
AuditLog.v
Sweep.v
AuditHistory.v
AuditSteps.v
SweepSteps.v
AuditVerify.v
AuditSound.v
SweepPolicy.v
Cedar.v
CedarGate.v
Segment.v
Quota.v
Pipeline.v
PipelineLogic.v
InvocationGates.v
InvocationResponse.v
Invoke.v
InvokeSpec.v
InvokeOrder.v
Agent.v
AgentRuntime.v
ChatApprovals.v
Cimd.v
OauthStore.v
OauthFlow.v
OauthToken.v
OauthRuns.v
OauthTables.v
OauthSpec.v
OauthCredentials.v
OauthRotation.v
ExecutionTypes.v
ExecutionStore.v
ExecutionRuns.v
ExecutionHistory.v
ExecutionStarts.v
ExecutionBudgets.v
ExecutionAbandon.v
ExecutionQueries.v
ExecutionPaging.v
ApiKeys.v
ApiKeyCatalog.v
ApiKeyRuns.v
ApiKeyAuth.v
ApiKeyHistory.v
ApiKeyUsage.v
ApiKeyMint.v
ApiKeyCapacity.v
Rbac.v
RbacRuns.v
BearerAuth.v
BearerSpec.v
