(* ===== verification/Prelude.v ===== *)
(** * Waygate: a verification development

    Waygate (src/, a Rust workspace under src/crates) is a governed gateway for
    MCP tools and language models. A caller signs in through the gateway's
    authorization server; its request is turned into typed facts, decided by Cedar
    policies, limited by quotas, guarded by circuit breakers and, where policy asks
    for it, by human approval; it is dispatched to an upstream and recorded in a
    hash-chained audit log; an in-process agent drives the same surface. This
    library models the parts that make those decisions and proves what they promise.

    ** The parts and how they interact

    - Facts and principals (crates waygate-core, waygate-oidc, waygate-mcp) feed
      every decision: [Facts.v]; the recipients of a mail tool are facts too:
      [EmailRecipients.v].
    - A gate is an implementation of [AuthzGate] (waygate-mcp/src/authz.rs), modelled
      as a record of state-passing methods: [Authz.v]. The production gate is
      [CedarGate] (waygate-authz/src/gate.rs), which asks the Cedar engine, wrapped in
      [BreakGlassGate] (break_glass_gate.rs), which may override a denial by
      claiming a single-use token: [CedarGate.v], [Cedar.v], [DecisionCache.v],
      [BreakGlass.v]. The bundles the engine loads are edited by the segmenter
      (segment.rs): [Segment.v].
    - Quotas (waygate-quota) debit token buckets per call: [Quota.v].
    - Upstream calls pass a circuit breaker (waygate-upstream/src/breaker.rs):
      [Breaker.v].
    - Privileged changes are captured as change requests and executed after
      approval (waygate-changeset): [ChangeSet.v], [ChangeSetMem.v],
      [ChangeSetRuns.v], [ChangeSetPg.v], [ChangeSetRefine.v].
    - The audit log (waygate-storage, waygate-evidence): events and their encoding in
      [Encoding.v], [HashChain.v], [Evidence.v]; the transactional writer in
      [AuditLog.v]; the retention sweeper and its bridge markers in [Bridges.v],
      [Sweep.v], [SweepPolicy.v]; the verifier in [ChainVerify.v], [AuditVerify.v];
      histories of writes and sweeps in [AuditHistory.v], [AuditSteps.v],
      [SweepSteps.v], and what the verifier answers on them in [AuditSound.v].
    - A tool is called under an admitted contract (waygate-invocation and
      waygate-mcp/src/catalog.rs): canonical JSON and the binding hashes in
      [SchemaHash.v], count bounds in [CountBounds.v], snapshots, operations and
      argument normalization in [ToolSnapshot.v], what an approver sees of the
      arguments in [ApprovalView.v].
    - The invocation pipeline (waygate-mcp/src/invocation) composes all of the
      above for one call. [Interact.v] is the language of programs that call other
      components; [InvocationTypes.v] the requests and errors; [Validation.v],
      [Continuation.v] and [Retained.v] the pure parts; [Pipeline.v] the calls to
      collaborators; [InvocationGates.v], [InvocationResponse.v] and [Invoke.v] the
      stages before, during and after dispatch. [PipelineLogic.v] is the program
      logic, [InvokeSpec.v] and [InvokeOrder.v] the theorems, module [InvokeDemo]
      of [Invoke.v] a small deployment for the witnesses.
    - The agent loop (waygate-agent) talks to a model, a tool dispatch, an approval
      gate and an event sink: [Agent.v]; the production seams (waygate-agent-runtime)
      are [AgentRuntime.v] and [ChatApprovals.v].
    - The authorization server (waygate-as): client metadata and redirect URIs in
      [Cimd.v], the tables in [OauthStore.v], the authorize, callback and consent
      endpoints in [OauthFlow.v], the token endpoint in [OauthToken.v]. Concurrent
      requests over one database are histories, [OauthRuns.v]; [OauthTables.v] says
      where a row comes from, [OauthSpec.v], [OauthCredentials.v] and
      [OauthRotation.v] hold the theorems, module [OauthDemo] of
      [OauthRuns.v] a server to run.
    - Code-mode executions (waygate-codemode), the durable record of programs that
      run in the sandbox: rows, journal and constraints in [ExecutionTypes.v], every
      transaction of the store in [ExecutionStore.v], histories of calls and the
      changes they make in [ExecutionRuns.v], the theorems in [ExecutionHistory.v],
      [ExecutionStarts.v], [ExecutionBudgets.v] and [ExecutionAbandon.v]; the queries
      in [ExecutionQueries.v], the paged listing of the MCP surface
      (waygate-server/src/mcp_codemode.rs) in [ExecutionPaging.v]; a run to evaluate
      in module [ExecutionDemo] of [ExecutionRuns.v].
    - API keys (waygate-apikeys): tokens, profiles and the tables in [ApiKeys.v], the
      scope and group catalogues in [ApiKeyCatalog.v], histories of the tables in
      [ApiKeyRuns.v]; the header validator, a program over its cache, semaphore and
      stores, in [ApiKeyAuth.v], concurrent validations in [ApiKeyHistory.v], the
      bound on cold work in [ApiKeyCapacity.v], from mint to acceptance in
      [ApiKeyMint.v]; the usage counters and their writers in [ApiKeyUsage.v]; a key
      to evaluate in module [ApiKeyDemo] of [ApiKeys.v].
    - In front of every surface stands the bearer layer (waygate-oidc/src/middleware.rs):
      it asks a chain of validators, the key validator among them, and enriches the
      principal from the tenant registry (waygate-tenants), the SCIM tables
      (waygate-scim/src/enricher.rs) and the roles (waygate-rbac), each behind a cache.
      The tables and their transactions are [Rbac.v], their histories [RbacRuns.v];
      the middleware with its enrichers is one program, [BearerAuth.v], run on tables
      in its module [BearerDemo], with the theorems in [BearerSpec.v].

    ** Files

    - [Prelude.v] (this file): [Result] with [?], machine integers, the vector
      search-and-update idioms, reachability, tactics and the hint database.
    - [RustStr.v]: [str], [String] and [u8] operations on UTF-8 bytes, their order.
    - [Json.v]: [serde_json::Value] where its structure matters.
    - One file per component as listed above. In each file a definition carries the
      name of the function or type it translates; where a Rust name is taken
      already a prefix tells the component ([pg_try_claim] is
      [PgBreakGlassStore::try_claim], [tenant_validate] is [tenant::validate]).

    ** Modelling conventions

    - A method that holds a lock, or is one SQL statement or one row-locking
      transaction, is one atomic step; histories are lists of operations
      ([ChangeSetMem.exec], [BreakGlass.texec], [Quota.exec], [CedarGate.reg_exec])
      or runs of a step relation ([Breaker.step], [ChatApprovals.step],
      [OauthRuns.runs_to]). A call of the execution store is a transaction
      ([ExecutionStore.Tx]) that commits or changes nothing, a history
      ([ExecutionRuns.run]) the order in which they commit. The transactions of the
      key tables lock the catalogue rows they check, so each is one step
      ([ApiKeyRuns.exec]); the statements of the role store are single steps too
      ([RbacRuns.exec]). The one statement that reads a snapshot and then
      updates without the session lock, [revoke_chain], is two steps.
    - A trait that other code implements is a record of operations on an abstract
      world; theorems about its clients quantify over the implementation.
      Laws the clients need are classes ([Authz.PureGate],
      [BreakGlass.ReadOnlyLookup], [Quota.FloatOrder], [Cedar.TimeBlind]) with
      instances for the implementations.
    - A handler that awaits many collaborators is a program ([Interact.prog]): a tree
      of calls with a continuation on each answer. The answers are unconstrained
      unless a theorem says so; for the authorization server the calls of the store
      are answered by the tables, or fail, applied or not; for the key validator
      ([ApiKeyHistory.answers]) an entry of the cache may also be evicted at any time.
    - Integers are [Z] with saturation or wrap-around written out; a [Uuid] is its
      128-bit value; times are nanoseconds, a [timestamptz] column keeps
      microseconds. A table is a finite map or the list of its rows.

    ** What is assumed

    - The Cedar library is the record [Cedar.CedarApi] (values, entities, requests
      and the authorizer), its parser a function from text to policy ids
      ([parse_set] in [Segment.v]); nothing else is assumed of them. What the engine
      builds from the facts is modelled ([Cedar.pass]) and proved not to depend on
      the time of the call, which the cache key leaves out; the byte stream under the
      key's digest is proved injective, and the cache theorem excepts a collision of
      the digest on the questions asked. Two SCIM attribute values of these
      questions do not print alike.
    - SHA-256 gives 32 bytes; theorems that need it say "unless the digest
      collides" about the inputs at hand. The printing of JSON separates the
      values that are hashed.
    - [Postgres] conversions ([to_timestamptz], [to_jsonb], [jsonb_text]) are
      parameters of [ChangeSetPg.v]; the refinement asks that a stored value reads
      back as it was written. A retention marker reads back from its JSON.
    - The AEAD of continuations opens only what it sealed. JSON-schema validation,
      the portable projection of schemas, secret scanning, URL parsing, the PKCE
      digest, password hashing and JWT signing and verification are parameters.
    - Execution ids are fresh and, where a theorem says so ([ExecutionStarts.ticking],
      [RbacRuns.ticking]), the clock advances between the calls of a history; [jsonb] equality is
      symmetric and transitive; a printed [Uuid] parses back.
    - The validator's cache keeps an entry no longer than its time to live, reads one
      clock with the database, and a password hash verifies the secret it was made from.
    - Where random names must not repeat ([OauthCredentials.fresh]) the theorem says
      so.
    - Floating point: [Quota.v] is parametric in the operations; the range theorem
      uses only order laws, the rate, probe and retry theorems are about exact
      rationals.

    ** What the theorems show

    - Change requests: lifecycle, frozen intent, quorum, at-most-once transitions for
      any history of the in-memory store; the Postgres statements refine it, so the
      same holds of the deployed store; summaries agree.
    - Authorization: a verdict is explained by raw Cedar passes, an erroring forbid
      fails closed, caching is transparent unless two keys collide, the built-in overlay and the composed
      production gate allow only what they should, stale reloads are fenced.
    - Break-glass: a token is claimed at most once, every override is claimed and
      audited, probing consumes nothing and a settled probe predicts dispatch.
    - Segmenter: fragments tile the bundle, agree with the parser, edits are local and
      never split a character; one accepted edit that drops a neighbour is shown.
    - Quotas: all-or-nothing debits, the token-bucket rate bound, counters in range,
      a denying probe is final for a second, adequate retry hints, table invariant.
    - Breaker: state invariant under any interleaving, never wedged, trips exactly at
      the threshold, single-flight probing.
    - Audit: a write commits its row, head and outbox entry together or not at all;
      two bridge-free genesis chains that verify and end in one head hash hold the
      same rows (or the digest collides); honest
      histories of writes and retention sweeps verify; the admission of bridges is
      a least fixed point; every sweep transaction deletes only what the policy table
      in force when it runs has expired.
    - Contracts: a grant binds one behaviour and one set of arguments, a contract
      identity pins everything that was reviewed, call facts come from the review.
    - Invocation: a tool is dispatched only after every gate passed for exactly this
      call, with its arguments and files checked, a refusal is reported as it is and
      never reaches the upstream, stages run in order, continuations
      and recovered bodies belong to the call that made them.
    - Agent: bounded runs, hard token budget, no side effect without approval, complete
      transcripts, an agent principal that only narrows, unique tool names with gate
      and dispatch in agreement; approvals only by the owner, and no gate hangs.
    - Authorization server: a token goes back to a login, a validated client, a PKCE
      proof and, where required, an approval; every credential is spent once; refresh
      chains do not fork, a replay revokes exactly the chain, a revoked session comes
      back through an authorization code only (its live tokens unexpired when it was
      revoked); cross-app tokens are bounded and an assertion is redeemed once while it
      is valid. The races the tables leave open are shown as examples.
    - Code-mode executions: a superseded claim is fenced, a requested cancellation
      sticks, a finished run is final, equivalent starts converge on one unfinished
      run, the journal shows every change of status, an abandoned run is settled
      once; live source locators keep their digest and stay within budget, a
      detached slot has one holder; following the cursors lists every run once.
    - API keys: an accepted key has the secret of a row that was live less than the
      cache's time to live before, and the principal is that row's, and a revoked one is refused after it; live keys keep their profile and
      carry catalogued scopes; cold work is bounded and its permits come back; a
      minted token is accepted; requests are counted once. The races between a
      validation in flight and a revocation are shown as examples.
    - Bearer layer and roles: a handler runs only for a principal a validator vouched
      for, unblocked by the directory's active flag unless its lookup failed, and with a
      cleared tenant; a control-plane scope is never lent by
      a cache; a refusal is the chain's verdict and is recorded; a grant guarded by a
      role version grants the role that was reviewed, and assignments and mappings
      always refer to a role of their tenant.

    ** Fuel

    Loops over byte positions or candidates take fuel. [RustStr.strip_ws_fuel],
    [Segment.skip_trivia_stops], [Segment.find_statement_end_fuel] and
    [Segment.lex_from_stops] show that the fuel given is enough;
    [AgentRuntime.free_name_total] shows that one more candidate than taken names
    always finds a free one. [Agent.run_steps] recurses on the configured step
    count. The worklist of [Bridges.admit_retention_bridges] and the hops of the
    verifier are bounded by the number of bridges, which the fixed-point theorem
    covers; [OauthStore.read_chain] runs one round more than there are rows, and
    [OauthRotation.elem_of_read_chain] shows that this reaches every descendant;
    [OauthFlow.split_whitespace] consumes a byte per step;
    [ExecutionPaging.follow] is given one step more than the listing has rows, which
    [ExecutionPaging.cursors_enumerate_the_listing] shows to be enough. All other recursion is
    structural.

    ** What is not modelled

    Network and HTTP code, cryptography, process wiring, the admin interface, metrics
    and tracing, policy parsing and loading, the language-model translation
    surfaces, the inference path of the pipeline, and the later life of upstream
    tasks. A caller that drops the future of a key validation in flight is not
    modelled, nor the primary-key conflict of an outbox entry that is already there,
    nor the answers of the listing endpoint on a gateway without an execution store.
    The code-mode sandbox itself, the manifest store, the upstream pool and
    file transfer are the next parts to add. *)

From stdpp Require Export base gmap strings list sorting fin_maps.
From Stdlib Require Export ZArith Lia.

(** ** Notation and scopes *)

Declare Scope waygate_scope.
Delimit Scope waygate_scope with wg.

(** Rust's [Result<A, E>], the success type first as in the source. *)
Inductive result (A E : Type) : Type :=
  | Ok (a : A)
  | Err (e : E).
Arguments Ok {A E} a.
Arguments Err {A E} e.

(** Rust's [?] operator: continue with the value, return early on [Err]. *)
Notation "'let?' x ':=' e 'in' k" :=
  (match e with Ok x => k | Err err => Err err end)
  (at level 10, x pattern, e at level 100, k at level 200) : waygate_scope.

Global Open Scope waygate_scope.
Global Open Scope Z_scope.

Definition is_ok {A E} (r : result A E) : bool :=
  match r with Ok _ => true | Err _ => false end.

(** ** Shared carriers

    [OffsetDateTime] and [Instant] are counted in nanoseconds, [Duration] is a
    nonnegative count of nanoseconds. A [Uuid] is its 128-bit big-endian value,
    so the source's byte-wise order is the order of [N]. *)
Abbreviation time := Z (only parsing).
Abbreviation duration := Z (only parsing).
Abbreviation uuid := N (only parsing).

Definition nanos_per_sec : Z := 1000000000.

(** ** Machine integers *)

Definition u32_max : Z := 4294967295.
Definition u64_max : Z := 18446744073709551615.

Definition u32_saturating_add (a b : Z) : Z := Z.min u32_max (a + b).
Definition u64_saturating_add (a b : Z) : Z := Z.min u64_max (a + b).

(** ** [iter_mut().find(p)] followed by a mutation of the element found *)

Section UpdateFirst.
Context {A : Type}.

(** The updated element and the updated vector, [None] when nothing matches. *)
Fixpoint update_first (p : A → bool) (f : A → A) (l : list A) : option (A * list A) :=
  match l with
  | [] => None
  | x :: l' =>
      if p x then Some (f x, f x :: l')
      else match update_first p f l' with
           | Some (y, l'') => Some (y, x :: l'')
           | None => None
           end
  end.

(** [iter().find(p)] *)
Fixpoint find_first (p : A → bool) (l : list A) : option A :=
  match l with
  | [] => None
  | x :: l' => if p x then Some x else find_first p l'
  end.

Lemma update_first_Some p f l y l' :
  update_first p f l = Some (y, l') →
  ∃ l1 x l2, l = l1 ++ x :: l2 ∧ p x = true ∧ y = f x ∧ l' = l1 ++ f x :: l2
             ∧ Forall (λ z, p z = false) l1.
Proof.
  revert y l'. induction l as [|x l IH]; intros y l' H; simpl in H; [done|].
  destruct (p x) eqn:Hp.
  - simplify_eq. exists [], x, l. by repeat split.
  - destruct (update_first p f l) as [[y' l'']|] eqn:Hu; [|done]. simplify_eq.
    destruct (IH _ _ eq_refl) as (l1&z&l2&->&?&->&->&?).
    exists (x :: l1), z, l2. repeat split; auto.
Qed.

Lemma update_first_None p f l :
  update_first p f l = None ↔ Forall (λ z, p z = false) l.
Proof.
  induction l as [|x l IH]; simpl; [split; auto|].
  destruct (p x) eqn:Hp.
  - split; [done|]. inversion 1; congruence.
  - rewrite Forall_cons. destruct (update_first p f l) as [[??]|].
    + split; [done|]. intros [_ H]. by apply IH in H.
    + split; [intros _; split; [done|by apply IH]|done].
Qed.

Lemma find_first_Some p l x :
  find_first p l = Some x → x ∈ l ∧ p x = true.
Proof.
  induction l as [|y l IH]; simpl; [done|]. destruct (p y) eqn:Hp.
  - intros ?; simplify_eq. split; [left|done].
  - intros [??]%IH. split; [by right|done].
Qed.

Lemma find_first_None p l :
  find_first p l = None ↔ Forall (λ z, p z = false) l.
Proof.
  induction l as [|x l IH]; simpl; [split; auto|].
  rewrite Forall_cons. destruct (p x) eqn:Hp; [naive_solver|]. rewrite IH. naive_solver.
Qed.

(** With a predicate that can hold of one element only, [find] finds it. *)
Lemma find_first_unique p l x :
  x ∈ l → p x = true → (∀ y, y ∈ l → p y = true → y = x) →
  find_first p l = Some x.
Proof.
  intros Hin Hp Huniq. destruct (find_first p l) as [y|] eqn:Hf.
  - apply find_first_Some in Hf as [??]. f_equal. by apply Huniq.
  - apply find_first_None in Hf. rewrite Forall_forall in Hf.
    apply Hf in Hin. congruence.
Qed.
End UpdateFirst.

(** ** Reachability of a step relation *)

Inductive star {S : Type} (step : S → S → Prop) : S → S → Prop :=
  | star_refl s : star step s s
  | star_step s1 s2 s3 : step s1 s2 → star step s2 s3 → star step s1 s3.

Lemma star_one {S} (step : S → S → Prop) s1 s2 : step s1 s2 → star step s1 s2.
Proof. intros H. eapply star_step; [exact H|constructor]. Qed.

Lemma star_trans {S} (step : S → S → Prop) s1 s2 s3 :
  star step s1 s2 → star step s2 s3 → star step s1 s3.
Proof. induction 1; [done|]. intros ?. eapply star_step; eauto. Qed.

Lemma star_snoc {S} (step : S → S → Prop) s1 s2 s3 :
  star step s1 s2 → step s2 s3 → star step s1 s3.
Proof. intros ? ?. eapply star_trans; [eassumption|by apply star_one]. Qed.

(** An invariant preserved by every step holds of every reachable state. *)
Lemma star_invariant {S} (step : S → S → Prop) (I : S → Prop) s s' :
  (∀ a b, I a → step a b → I b) → I s → star step s s' → I s'.
Proof. intros Hstep HI Hstar. induction Hstar; eauto. Qed.

(** Filters. *)
Lemma filter_all {A} (P : A → Prop) `{!∀ x, Decision (P x)} (l : list A) :
  (∀ x, x ∈ l → P x) → filter P l = l.
Proof.
  induction l as [|x l IH]; intros HP; [done|]. rewrite filter_cons, decide_True by (apply HP; left).
  f_equal. apply IH. intros y Hy. apply HP. by right.
Qed.

Lemma filter_none {A} (P : A → Prop) `{!∀ x, Decision (P x)} (l : list A) :
  (∀ x, x ∈ l → ¬ P x) → filter P l = [].
Proof.
  induction l as [|x l IH]; intros HP; [done|]. rewrite filter_cons_False by (apply HP; left).
  apply IH. intros y Hy. apply HP. by right.
Qed.

Lemma sorted_filter {A} (R : relation A) (P : A → Prop) `{!∀ x, Decision (P x)} (l : list A) :
  StronglySorted R l → StronglySorted R (filter P l).
Proof.
  induction 1 as [|x l Hs IH HF]; [constructor|]. rewrite filter_cons.
  destruct (decide (P x)); [|done]. constructor; [done|]. rewrite Forall_forall in *.
  intros y [_ Hy]%list_elem_of_filter. auto.
Qed.

Create HintDb waygate discriminated.
#[export] Hint Resolve star_refl star_one star_snoc : waygate.
#[export] Hint Constructors star : waygate.

(** ** Tactics *)

(** Case on every boolean test and option scrutinised by the goal. *)
Ltac case_tests :=
  repeat match goal with
  | |- context [if ?b then _ else _] => destruct b eqn:?
  | |- context [match ?o with Some _ => _ | None => _ end] => destruct o eqn:?
  | H : context [if ?b then _ else _] |- _ => destruct b eqn:?
  end.

(** Turn the boolean comparisons in the context into propositions. *)
Ltac bool_to_prop :=
  repeat match goal with
  | H : (_ && _)%bool = true |- _ => apply andb_true_iff in H as [? ?]
  | H : (_ || _)%bool = false |- _ => apply orb_false_iff in H as [? ?]
  | H : negb _ = true |- _ => apply negb_true_iff in H
  | H : negb _ = false |- _ => apply negb_false_iff in H
  | H : bool_decide _ = true |- _ => apply bool_decide_eq_true in H
  | H : bool_decide _ = false |- _ => apply bool_decide_eq_false in H
  | H : (_ <=? _) = true |- _ => apply Z.leb_le in H
  | H : (_ <=? _) = false |- _ => apply Z.leb_gt in H
  | H : (_ <? _) = true |- _ => apply Z.ltb_lt in H
  | H : (_ <? _) = false |- _ => apply Z.ltb_ge in H
  | H : (_ =? _) = true |- _ => apply Z.eqb_eq in H
  | H : (_ =? _) = false |- _ => apply Z.eqb_neq in H
  end.
