(* ===== verification/RustStr.v ===== *)
(** * Rust string operations on UTF-8 byte strings

    A Rust [str] is modelled by its UTF-8 bytes, a [string] of the Standard
    Library. This file has the operations of [str], [String] and [u8] the
    modelled code calls, by their documented behaviour. *)

From S2P Require Import Prelude.
From Stdlib Require Import Ascii String.
From stdpp Require Export strings list.
Global Open Scope Z_scope.

Abbreviation bytes := (list ascii) (only parsing).

Definition as_bytes (s : string) : bytes := list_ascii_of_string s.
Definition of_bytes (l : bytes) : string := string_of_list_ascii l.

Lemma of_as_bytes s : of_bytes (as_bytes s) = s.
Proof. apply string_of_list_ascii_of_string. Qed.
Lemma as_of_bytes l : as_bytes (of_bytes l) = l.
Proof. apply list_ascii_of_string_of_list_ascii. Qed.

Lemma as_bytes_inj s1 s2 : as_bytes s1 = as_bytes s2 → s1 = s2.
Proof. intros H. by rewrite <- (of_as_bytes s1), <- (of_as_bytes s2), H. Qed.

Lemma as_bytes_app s1 s2 : as_bytes (s1 +:+ s2) = as_bytes s1 ++ as_bytes s2.
Proof. induction s1 as [|a s1 IH]; simpl; [done|]. f_equal. apply IH. Qed.

(** [str::len]: bytes, not characters. *)
Definition len (s : string) : nat := length (as_bytes s).
Definition is_empty (s : string) : bool := match s with EmptyString => true | _ => false end.

Definition byte_val (a : ascii) : N := N_of_ascii a.

(** ** Byte classes *)

Definition in_range (lo hi : N) (a : ascii) : bool :=
  ((lo <=? byte_val a) && (byte_val a <=? hi))%N.

Definition is_ascii_byte (a : ascii) : bool := (byte_val a <? 128)%N.
Definition is_ascii_digit : ascii → bool := in_range 48 57.
Definition is_ascii_lowercase : ascii → bool := in_range 97 122.
Definition is_ascii_uppercase : ascii → bool := in_range 65 90.
Definition is_ascii_alphanumeric (a : ascii) : bool :=
  is_ascii_digit a || is_ascii_lowercase a || is_ascii_uppercase a.

(** [u8::is_ascii_whitespace]: space, tab, line feed, form feed, carriage return. *)
Definition is_ascii_whitespace (a : ascii) : bool :=
  let v := byte_val a in ((v =? 32) || (v =? 9) || (v =? 10) || (v =? 12) || (v =? 13))%N.

Definition to_ascii_lowercase_byte (a : ascii) : ascii :=
  if is_ascii_uppercase a then ascii_of_N (byte_val a + 32) else a.
Definition to_ascii_lowercase (s : string) : string :=
  of_bytes (to_ascii_lowercase_byte <$> as_bytes s).

(** ** Characters *)

(** A byte that does not start a character. *)
Definition is_continuation : ascii → bool := in_range 128 191.

(** [chars().count()] *)
Definition char_count (l : bytes) : nat :=
  length (filter (λ a, is_continuation a = false) l).

(** [chars().take(n).collect()]: the bytes of the first [n] characters. *)
Fixpoint take_chars (n : nat) (l : bytes) : bytes :=
  match l with
  | [] => []
  | a :: l' =>
      if is_continuation a then a :: take_chars n l'
      else match n with O => [] | S n' => a :: take_chars n' l' end
  end.

Lemma char_count_take n l : (char_count (take_chars n l) ≤ n)%nat.
Proof.
  revert n. induction l as [|a l IH]; intros n; [unfold char_count; simpl; lia|].
  unfold char_count in *. cbn [take_chars]. destruct (is_continuation a) eqn:Ha.
  - rewrite filter_cons_False by congruence. apply IH.
  - destruct n; [simpl; lia|]. rewrite filter_cons_True by done. simpl. specialize (IH n). lia.
Qed.

Lemma char_count_app l1 l2 : char_count (l1 ++ l2) = (char_count l1 + char_count l2)%nat.
Proof. unfold char_count. by rewrite filter_app, length_app. Qed.

(** ** White space

    The byte length of the [White_Space] character a byte string starts with,
    0 when it does not start with one. *)
Definition ws_len (l : bytes) : nat :=
  match l with
  | a :: l1 =>
      let x := byte_val a in
      if (in_range 9 13 a || (x =? 32)%N)%bool then 1 else
      match l1 with
      | b :: l2 =>
          let y := byte_val b in
          if ((x =? 0xC2) && ((y =? 0x85) || (y =? 0xA0)))%N then 2 else
          match l2 with
          | c :: _ =>
              let z := byte_val c in
              if (((x =? 0xE1) && (y =? 0x9A) && (z =? 0x80)) ||
                  ((x =? 0xE2) && (y =? 0x80) &&
                   (((0x80 <=? z) && (z <=? 0x8A)) || (z =? 0xA8) || (z =? 0xA9) || (z =? 0xAF))) ||
                  ((x =? 0xE2) && (y =? 0x81) && (z =? 0x9F)) ||
                  ((x =? 0xE3) && (y =? 0x80) && (z =? 0x80)))%N%bool then 3 else 0
          | [] => 0
          end
      | [] => 0
      end
  | [] => 0
  end%nat.

(** The same read backwards, on a reversed byte string. *)
Definition ws_len_rev (l : bytes) : nat :=
  match l with
  | a :: b :: c :: _ =>
      if (ws_len [a] =? 1)%nat then 1
      else if (ws_len [b; a] =? 2)%nat then 2
      else if (ws_len [c; b; a] =? 3)%nat then 3 else 0
  | [a; b] =>
      if (ws_len [a] =? 1)%nat then 1
      else if (ws_len [b; a] =? 2)%nat then 2 else 0
  | [a] => ws_len [a]
  | [] => 0
  end%nat.

Fixpoint strip_ws (measure : bytes → nat) (fuel : nat) (l : bytes) : bytes :=
  match fuel with
  | O => l
  | S fuel' => match measure l with
               | O => l
               | k => strip_ws measure fuel' (drop k l)
               end
  end.

(** [str::trim_start], [str::trim_end], [str::trim]. A step removes at least one
    byte, so the length of the string is enough fuel. *)
Definition trim_start (s : string) : string :=
  let l := as_bytes s in of_bytes (strip_ws ws_len (length l) l).
Definition trim_end (s : string) : string :=
  let l := as_bytes s in of_bytes (rev (strip_ws ws_len_rev (length l) (rev l))).
Definition trim (s : string) : string := trim_end (trim_start s).

Example trim_example : trim "  a b	" = "a b".
Proof. reflexivity. Qed.

Lemma strip_ws_fuel measure n m l :
  (length l ≤ n)%nat → (length l ≤ m)%nat →
  measure [] = O → strip_ws measure n l = strip_ws measure m l.
Proof.
  revert m l. induction n as [|n IH]; intros m l Hn Hm Hnil.
  - destruct l; simpl in *; [|lia]. destruct m; simpl; [done|]. by rewrite Hnil.
  - destruct m as [|m].
    + destruct l; simpl in *; [|lia]. by rewrite Hnil.
    + simpl. destruct (measure l) eqn:He; [done|].
      destruct l as [|a l]; [by rewrite Hnil in He|].
      apply IH; [..|done]; rewrite length_drop; simpl in *; lia.
Qed.

(** ** Prefixes and suffixes *)

Fixpoint strip_prefix_bytes (p l : bytes) : option bytes :=
  match p, l with
  | [], _ => Some l
  | a :: p', b :: l' => if bool_decide (a = b) then strip_prefix_bytes p' l' else None
  | _ :: _, [] => None
  end.

Definition strip_prefix (p s : string) : option string :=
  of_bytes <$> strip_prefix_bytes (as_bytes p) (as_bytes s).
Definition strip_suffix (p s : string) : option string :=
  (λ l, of_bytes (rev l)) <$> strip_prefix_bytes (rev (as_bytes p)) (rev (as_bytes s)).
Definition starts_with (p s : string) : bool := bool_decide (is_Some (strip_prefix p s)).
Definition ends_with (p s : string) : bool := bool_decide (is_Some (strip_suffix p s)).

Lemma strip_prefix_bytes_Some p l r : strip_prefix_bytes p l = Some r ↔ l = p ++ r.
Proof.
  revert l. induction p as [|a p IH]; intros l; simpl; [naive_solver|].
  destruct l as [|b l]; [naive_solver|]. case_bool_decide; [subst; rewrite IH; naive_solver|naive_solver].
Qed.

Lemma strip_prefix_Some p s r : strip_prefix p s = Some r ↔ s = p +:+ r.
Proof.
  unfold strip_prefix. rewrite fmap_Some. split.
  - intros (l & Hl%strip_prefix_bytes_Some & ->). apply as_bytes_inj.
    by rewrite as_bytes_app, as_of_bytes.
  - intros ->. exists (as_bytes r). rewrite strip_prefix_bytes_Some, as_bytes_app, of_as_bytes.
    done.
Qed.

Lemma strip_suffix_Some p s r : strip_suffix p s = Some r ↔ s = r +:+ p.
Proof.
  unfold strip_suffix. rewrite fmap_Some. split.
  - intros (l & Hl%strip_prefix_bytes_Some & ->). apply as_bytes_inj.
    rewrite as_bytes_app, as_of_bytes. apply (f_equal (@rev _)) in Hl.
    by rewrite rev_involutive, rev_app_distr, rev_involutive in Hl.
  - intros ->. exists (rev (as_bytes r)).
    by rewrite strip_prefix_bytes_Some, as_bytes_app, rev_app_distr, rev_involutive, of_as_bytes.
Qed.

(** ** The order of [String]: byte-wise *)

Definition str_le (a b : string) : Prop := String.leb a b = true.

#[export] Instance str_le_dec a b : Decision (str_le a b).
Proof. unfold str_le. apply _. Defined.

#[export] Instance str_le_total : Total str_le.
Proof. intros a b. apply String.leb_total. Qed.

#[export] Instance str_le_trans : Transitive str_le.
Proof.
  intros a. unfold str_le, String.leb.
  induction a as [|x a IH]; intros [|y b] [|z c]; simpl; try done.
  unfold Ascii.compare. intros Hxy Hyz.
  destruct (N.compare_spec (N_of_ascii x) (N_of_ascii y)) as [Exy|Lxy|Gxy]; [| |done];
    destruct (N.compare_spec (N_of_ascii y) (N_of_ascii z)) as [Eyz|Lyz|Gyz]; try done;
    destruct (N.compare_spec (N_of_ascii x) (N_of_ascii z)) as [Exz|Lxz|Gxz]; try done; try lia.
  by apply (IH b c).
Qed.

#[export] Instance str_le_antisymm : AntiSymm (=) str_le.
Proof. intros a b Ha Hb. by apply String.leb_antisym. Qed.

(** ** Decimal digits *)

Definition digit (n : N) : ascii := ascii_of_N (48 + n).

(** [{n:02}] for [n < 100]. *)
Definition two_digits (n : N) : string :=
  String (digit (n / 10)) (String (digit (n mod 10)) EmptyString).

(** ** Searching and splitting on a byte *)

Fixpoint split_once_bytes (c : ascii) (l : bytes) : option (bytes * bytes) :=
  match l with
  | [] => None
  | a :: l' =>
      if bool_decide (a = c) then Some ([], l')
      else (λ '(x, y), (a :: x, y)) <$> split_once_bytes c l'
  end.

(** [str::split_once] with an ASCII character. *)
Definition split_once (c : ascii) (s : string) : option (string * string) :=
  (λ '(x, y), (of_bytes x, of_bytes y)) <$> split_once_bytes c (as_bytes s).

Fixpoint split_bytes (c : ascii) (l : bytes) : list bytes :=
  match l with
  | [] => [[]]
  | a :: l' =>
      match split_bytes c l' with
      | [] => [[a]]
      | w :: ws => if bool_decide (a = c) then [] :: w :: ws else (a :: w) :: ws
      end
  end.

(** [str::split] with an ASCII character. *)
Definition split (c : ascii) (s : string) : list string := of_bytes <$> split_bytes c (as_bytes s).

Fixpoint contains_bytes (p l : bytes) : bool :=
  bool_decide (is_Some (strip_prefix_bytes p l)) ||
  match l with [] => false | _ :: l' => contains_bytes p l' end.

(** [str::contains] with a string. *)
Definition contains (p s : string) : bool := contains_bytes (as_bytes p) (as_bytes s).

Lemma split_once_bytes_Some c l x y :
  split_once_bytes c l = Some (x, y) → l = x ++ c :: y ∧ c ∉ x.
Proof.
  revert x y. induction l as [|a l IH]; intros x y; simpl; [done|]. case_bool_decide.
  - intros [= <- <-]. subst. split; [done|apply not_elem_of_nil].
  - destruct (split_once_bytes c l) as [[u v]|]; simpl; [|done]. intros [= <- <-].
    destruct (IH u v) as [-> Hc]; [done|]. split; [done|]. by apply not_elem_of_cons.
Qed.

Lemma split_once_Some c s x y :
  split_once c s = Some (x, y) → as_bytes s = as_bytes x ++ c :: as_bytes y ∧ c ∉ as_bytes x.
Proof.
  unfold split_once. destruct (split_once_bytes c (as_bytes s)) as [[u v]|] eqn:E; [|done].
  intros [= <- <-]. rewrite !as_of_bytes. by apply split_once_bytes_Some.
Qed.
