(* ===== verification/Encoding.v ===== *)
(** * Self-delimiting byte encodings

    Little-endian integers, length-prefixed strings and vectors, and the property
    that makes them safe to concatenate: an encoder is [prefix_free] when two of
    its outputs can be told apart in front of any remainder. Shared by the
    decision key (DecisionCache) and the audit hash chain (HashChain). *)

From S2P Require Import Prelude RustStr.

Module Encoding.

Definition byte (n : N) : Ascii.ascii := Ascii.ascii_of_N n.

(** The [k] low bytes of [n], least significant first. *)
Fixpoint le_bytes (k : nat) (n : N) : bytes :=
  match k with
  | O => []
  | S k' => byte (n mod 256) :: le_bytes k' (n / 256)
  end.

(** Big-endian octets of an address or of a UUID. *)
Definition octets (k : nat) (n : N) : bytes := reverse (le_bytes k n).

(** [z.to_le_bytes()] of a signed integer of [k] bytes: two's complement. *)
Definition signed_le_bytes (k : nat) (z : Z) : bytes :=
  le_bytes k (Z.to_N (z mod 256 ^ Z.of_nat k)).

(** [(s.len() as u64).to_le_bytes()], then the bytes. *)
Definition len_prefixed (s : string) : bytes :=
  le_bytes 8 (N.of_nat (len s)) ++ as_bytes s.

(** ** Rust's bounds on the values

    Lengths are below 2^64. *)

Definition fits (n : nat) : Prop := (N.of_nat n < 256 ^ 8)%N.
Definition wf_str (s : string) : Prop := fits (len s).
Definition wf_strs (l : list string) : Prop := fits (length l) ∧ Forall wf_str l.
Definition wf_opt {A} (P : A → Prop) (o : option A) : Prop :=
  match o with Some x => P x | None => True end.

(** ** Prefix-freeness *)

Definition prefix_free {A B} (P : A → Prop) (view : A → B) (e : A → bytes) : Prop :=
  ∀ x y r s, P x → P y → e x ++ r = e y ++ s → view x = view y ∧ r = s.

Lemma byte_inj m n : (m < 256)%N → (n < 256)%N → byte m = byte n → m = n.
Proof.
  intros Hm Hn H. apply (f_equal Ascii.N_of_ascii) in H. unfold byte in H.
  by rewrite !Ascii.N_ascii_embedding in H.
Qed.

Lemma length_le_bytes k n : length (le_bytes k n) = k.
Proof. revert n. induction k as [|k IH]; intros n; simpl; [done|]. by rewrite IH. Qed.

Lemma le_bytes_inj k m n :
  (m < 256 ^ N.of_nat k)%N → (n < 256 ^ N.of_nat k)%N → le_bytes k m = le_bytes k n → m = n.
Proof.
  revert m n. induction k as [|k IH]; intros m n Hm Hn H; simpl in *; [lia|].
  injection H as Hb Hr. rewrite Nat2N.inj_succ, N.pow_succ_r' in Hm, Hn.
  apply byte_inj in Hb; [|apply N.mod_lt; lia..].
  apply IH in Hr; [|apply N.Div0.div_lt_upper_bound; lia..].
  rewrite (N.div_mod m 256), (N.div_mod n 256) by lia. by rewrite Hb, Hr.
Qed.

Lemma app_same_length {A} (a b r s : list A) :
  length a = length b → a ++ r = b ++ s → a = b ∧ r = s.
Proof. intros Hl H. by apply app_inj_1. Qed.

Lemma pf_le_bytes k :
  prefix_free (λ n, n < 256 ^ N.of_nat k)%N id (le_bytes k).
Proof.
  intros x y r s Hx Hy H. apply app_same_length in H as [H ->]; [|by rewrite !length_le_bytes].
  split; [|done]. by apply le_bytes_inj in H.
Qed.

Lemma pf_octets k : prefix_free (λ n, n < 256 ^ N.of_nat k)%N id (octets k).
Proof.
  intros x y r s Hx Hy H. unfold octets in H.
  apply app_same_length in H as [H ->]; [|by rewrite !length_reverse, !length_le_bytes].
  split; [|done]. apply (inj reverse) in H. by apply le_bytes_inj in H.
Qed.

(** A [k]-byte signed integer is [-2^(8k-1) ≤ z < 2^(8k-1)]. *)
Definition wf_signed (k : nat) (z : Z) : Prop :=
  - (256 ^ Z.of_nat k) ≤ 2 * z < 256 ^ Z.of_nat k.

Lemma pf_signed k : prefix_free (wf_signed k) id (signed_le_bytes k).
Proof.
  intros x y r s Hx Hy H. unfold signed_le_bytes, wf_signed in *.
  set (m := 256 ^ Z.of_nat k) in *. assert (0 < m) as Hm by (apply Z.pow_pos_nonneg; lia).
  assert (∀ z, (Z.to_N (z mod m) < 256 ^ N.of_nat k)%N) as Hb.
  { intros z. pose proof (Z.mod_pos_bound z m Hm) as Hz. apply N2Z.inj_lt.
    rewrite Z2N.id by lia. rewrite N2Z.inj_pow, nat_N_Z. apply Hz. }
  destruct (pf_le_bytes k _ _ _ _ (Hb x) (Hb y) H) as [Hv ->]. split; [|done]. unfold id in *.
  pose proof (Z.mod_pos_bound x m Hm). pose proof (Z.mod_pos_bound y m Hm).
  assert (x mod m = y mod m) as He by lia.
  pose proof (Z.div_mod x m ltac:(lia)) as Dx. pose proof (Z.div_mod y m ltac:(lia)) as Dy.
  assert (x - y = m * (x / m - y / m)) as Hd by (rewrite Z.mul_sub_distr_l; lia).
  assert (x / m - y / m = 0) as Hq by nia. rewrite Hq in Hd. lia.
Qed.

Lemma pf_len_prefixed : prefix_free wf_str id len_prefixed.
Proof.
  intros x y r s Hx Hy H. unfold len_prefixed in H. rewrite <- !app_assoc in H.
  destruct (pf_le_bytes 8 _ _ _ _ Hx Hy H) as [Hl H']. unfold id in Hl.
  apply app_same_length in H' as [H' ->]; [|unfold len in Hl; lia].
  split; [|done]. by apply as_bytes_inj.
Qed.

(** Elements one after the other, their number known. *)
Lemma pf_elements l1 l2 r s :
  length l1 = length l2 → Forall wf_str l1 → Forall wf_str l2 →
  concat (len_prefixed <$> l1) ++ r = concat (len_prefixed <$> l2) ++ s → l1 = l2 ∧ r = s.
Proof.
  intros Hl H1 H2. revert l2 Hl H2. induction H1 as [|x l1 Hx _ IH]; intros [|y l2] Hl H2 H;
    simpl in *; try done.
  inversion H2; subst. rewrite <- !app_assoc in H.
  destruct (pf_len_prefixed _ _ _ _ Hx ltac:(eassumption) H) as [Hxy H'].
  destruct (IH l2) as [-> ->]; auto. simpl in Hxy. by subst y.
Qed.

(** A block that is present behind its own tag byte, or absent without a trace:
    readable when what follows never starts with that tag. *)
Definition tagged {A} (c : N) (e : A → bytes) (o : option A) : bytes :=
  match o with None => [] | Some x => byte c :: e x end.

Definition starts_with (cs : list N) (l : bytes) : Prop :=
  match l with [] => True | a :: _ => ∃ c, c ∈ cs ∧ a = byte c end.

Lemma starts_tagged {A} c cs (e : A → bytes) o r :
  starts_with cs r → starts_with (c :: cs) (tagged c e o ++ r).
Proof.
  intros Hr. destruct o; simpl; [exists c; split; [left|done]|].
  destruct r; [done|]. destruct Hr as (d & ? & ?). exists d. split; [by right|done].
Qed.

Lemma pf_tagged {A B} (P : A → Prop) (view : A → B) c cs e x y r s :
  prefix_free P view e → wf_opt P x → wf_opt P y →
  (c < 256)%N → Forall (λ d, d < 256 ∧ d ≠ c)%N cs →
  starts_with cs r → starts_with cs s →
  tagged c e x ++ r = tagged c e y ++ s → view <$> x = view <$> y ∧ r = s.
Proof.
  intros He Hx Hy Hc Hcs Hr Hs H. rewrite Forall_forall in Hcs.
  destruct x as [x|], y as [y|]; simpl in *.
  - injection H as H. destruct (He _ _ _ _ Hx Hy H) as [-> ->]. done.
  - destruct s as [|a s]; [done|]. destruct Hs as (d & Hd & ->). injection H as Hcd _.
    apply Hcs in Hd as [? ?]. apply byte_inj in Hcd; [congruence|done..].
  - destruct r as [|a r]; [done|]. destruct Hr as (d & Hd & ->). injection H as Hcd _.
    apply Hcs in Hd as [? ?]. apply byte_inj in Hcd; [congruence|done..].
  - done.
Qed.

(** Peel the leading encoder of two equal streams with its lemma. *)
Ltac peel lem :=
  match goal with
  | H : ?e ?x ++ ?r = ?e ?y ++ ?s |- _ =>
      let Hv := fresh "Hv" in let Hr := fresh "Hr" in
      destruct (lem x y r s ltac:(first [exact I|eassumption]) ltac:(first [exact I|eassumption]) H)
        as [Hv Hr]; clear H; rename Hr into H; unfold id in Hv
  end.

(** Close a record lemma once every field is peeled. *)
Ltac by_fields x y :=
  split; [|assumption];
  repeat match goal with H : ?P |- _ => lazymatch P with _ = _ => fail | _ => clear H end end;
  destruct x, y; simpl in *; subst; reflexivity.

End Encoding.
