(* ===== verification/Breaker.v ===== *)
(** * The per-upstream circuit breaker

    Model of crates/waygate-upstream/src/breaker.rs: the three-state breaker
    behind a mutex, the permits callers hold across a call, and the system made
    of one breaker, its outstanding permits and the clock. Every method takes the
    mutex for its whole body, so a method is one atomic step of the system. *)

From S2P Require Import Prelude.

Module Breaker.

(** ** Data *)

Record BreakerConfig := {
  failure_threshold : Z;   (* u32 *)
  open_duration : duration;
}.

Definition default_config : BreakerConfig :=
  {| failure_threshold := 5; open_duration := 30 * nanos_per_sec |}.

Inductive BreakerState := Closed | Open | HalfOpen.
#[export] Instance BreakerState_eq_dec : EqDecision BreakerState.
Proof. solve_decision. Defined.

Definition as_str (s : BreakerState) : string :=
  match s with
  | Closed => "closed"
  | Open => "open"
  | HalfOpen => "half_open"
  end.

Inductive BreakerError := ErrOpen | ErrProbeInFlight.

Record State := {
  state : BreakerState;
  failures : Z;            (* u32 *)
  opened_at : option time;
  probe_running : bool;
}.

(** A permit: [was_probe] and whether an outcome was [reported]. *)
Record Permit := { was_probe : bool; reported : bool }.

(** ** Operations of the breaker *)

Definition new_inner : State :=
  {| state := Closed; failures := 0; opened_at := None; probe_running := false |}.

Definition permit_closed : Permit := {| was_probe := false; reported := false |}.
Definition permit_half_open : Permit := {| was_probe := true; reported := false |}.

(** [Instant::elapsed] saturates at zero. *)
Definition elapsed (now t : time) : duration := Z.max 0 (now - t).

Definition acquire (cfg : BreakerConfig) (now : time) (g : State)
  : result Permit BreakerError * State :=
  match state g with
  | Closed => (Ok permit_closed, g)
  | Open =>
      let e := match opened_at g with Some t => elapsed now t | None => 0 end in
      if open_duration cfg <=? e then
        (Ok permit_half_open,
         {| state := HalfOpen; failures := failures g; opened_at := opened_at g;
            probe_running := true |})
      else (Err ErrOpen, g)
  | HalfOpen =>
      if probe_running g then (Err ErrProbeInFlight, g)
      else (Ok permit_half_open,
            {| state := HalfOpen; failures := failures g; opened_at := opened_at g;
               probe_running := true |})
  end.

Definition reset (g : State) : State :=
  {| state := Closed; failures := 0; opened_at := None; probe_running := false |}.

(** Returns whether this report completed the half-open recovery. *)
Definition on_success (was_probe : bool) (g : State) : bool * State :=
  let recovered := was_probe && bool_decide (state g = HalfOpen) && probe_running g in
  (recovered,
   {| state := Closed; failures := 0; opened_at := None;
      probe_running := if was_probe then false else probe_running g |}).

Definition release_probe (g : State) : State :=
  {| state := state g; failures := failures g; opened_at := opened_at g;
     probe_running := false |}.

(** Returns whether waiters on the open notification are woken. *)
Definition on_failure (cfg : BreakerConfig) (now : time) (was_probe : bool) (g : State)
  : bool * State :=
  if was_probe then
    (true, {| state := Open; failures := failure_threshold cfg; opened_at := Some now;
              probe_running := false |})
  else
    let f := u32_saturating_add (failures g) 1 in
    if failure_threshold cfg <=? f then
      (bool_decide (state g ≠ Open),
       {| state := Open; failures := f; opened_at := Some now;
          probe_running := probe_running g |})
    else
      (false, {| state := state g; failures := f; opened_at := opened_at g;
                 probe_running := probe_running g |}).

(** ** Permits

    [Permit::drop] runs when the permit goes out of scope, which the consuming
    methods do after they set [reported]. *)
Definition drop (cfg : BreakerConfig) (now : time) (p : Permit) (g : State) : State :=
  if reported p then g else (on_failure cfg now (was_probe p) g).2.

Definition mark_reported (p : Permit) : Permit :=
  {| was_probe := was_probe p; reported := true |}.

Definition success (cfg : BreakerConfig) (now : time) (p : Permit) (g : State) : bool * State :=
  let '(recovered, g') := on_success (was_probe p) g in
  (recovered, drop cfg now (mark_reported p) g').

Definition failure (cfg : BreakerConfig) (now : time) (p : Permit) (g : State) : State :=
  drop cfg now (mark_reported p) (on_failure cfg now (was_probe p) g).2.

Definition neutral (cfg : BreakerConfig) (now : time) (p : Permit) (g : State) : State :=
  drop cfg now (mark_reported p) (if was_probe p then release_probe g else g).

(** ** The system: breaker, outstanding permits, clock *)

Inductive Outcome := Success | Failure | Neutral | Dropped.

Definition report (cfg : BreakerConfig) (now : time) (o : Outcome) (p : Permit) (g : State)
  : State :=
  match o with
  | Success => (success cfg now p g).2
  | Failure => failure cfg now p g
  | Neutral => neutral cfg now p g
  | Dropped => drop cfg now p g
  end.

Record sys := { breaker : State; permits : list Permit; clock : time }.

Definition sys_init (t : time) : sys := {| breaker := new_inner; permits := []; clock := t |}.

Inductive step (cfg : BreakerConfig) : sys → sys → Prop :=
  | step_acquire s p g' :
      acquire cfg (clock s) (breaker s) = (Ok p, g') →
      step cfg s {| breaker := g'; permits := p :: permits s; clock := clock s |}
  | step_refused s e g' :
      acquire cfg (clock s) (breaker s) = (Err e, g') →
      step cfg s {| breaker := g'; permits := permits s; clock := clock s |}
  | step_report s ps1 p ps2 o :
      permits s = ps1 ++ p :: ps2 →
      step cfg s {| breaker := report cfg (clock s) o p (breaker s);
                    permits := ps1 ++ ps2; clock := clock s |}
  | step_reset s :
      step cfg s {| breaker := reset (breaker s); permits := permits s; clock := clock s |}
  | step_tick s t :
      clock s ≤ t →
      step cfg s {| breaker := breaker s; permits := permits s; clock := t |}.

Definition reachable (cfg : BreakerConfig) (s : sys) : Prop :=
  ∃ t, star (step cfg) (sys_init t) s.

(** ** Invariants *)

(** The effective number of failures that trips the breaker. *)
Definition trip_count (cfg : BreakerConfig) : Z := Z.max 1 (failure_threshold cfg).

Definition state_wf (cfg : BreakerConfig) (now : time) (g : State) : Prop :=
  0 ≤ failures g ≤ u32_max ∧
  match state g with
  | Closed => failures g < trip_count cfg
  | Open => failure_threshold cfg ≤ failures g ∧ ∃ t, opened_at g = Some t ∧ t ≤ now
  | HalfOpen => failure_threshold cfg ≤ failures g ∧ ∃ t, opened_at g = Some t ∧ t ≤ now
  end.

Definition probe_outstanding (s : sys) : Prop :=
  Exists (λ p, was_probe p = true) (permits s).

Definition sys_wf (cfg : BreakerConfig) (s : sys) : Prop :=
  state_wf cfg (clock s) (breaker s) ∧
  Forall (λ p, reported p = false) (permits s) ∧
  (probe_running (breaker s) = true → probe_outstanding s).

Definition config_wf (cfg : BreakerConfig) : Prop := 0 ≤ failure_threshold cfg ≤ u32_max.

Lemma report_eq cfg now o p g :
  reported p = false →
  report cfg now o p g =
  match o with
  | Success => (on_success (was_probe p) g).2
  | Failure | Dropped => (on_failure cfg now (was_probe p) g).2
  | Neutral => if was_probe p then release_probe g else g
  end.
Proof. intros Hr. destruct o; try done. unfold report, drop. by rewrite Hr. Qed.

Lemma state_wf_mono cfg now now' g : state_wf cfg now g → now ≤ now' → state_wf cfg now' g.
Proof. unfold state_wf. destruct (state g); naive_solver lia. Qed.

Lemma on_success_wf cfg now b g : state_wf cfg now (on_success b g).2.
Proof. unfold state_wf, trip_count, u32_max; simpl; lia. Qed.

Lemma on_failure_wf cfg now b g :
  config_wf cfg → state_wf cfg now g → state_wf cfg now (on_failure cfg now b g).2.
Proof.
  unfold config_wf, state_wf, on_failure, u32_saturating_add, trip_count.
  intros ? [? Hs]. destruct b; simpl.
  { split; [lia|]. split; [lia|]. eexists. split; [done|lia]. }
  destruct (failure_threshold cfg <=? _) eqn:Hle; bool_to_prop; simpl.
  - split; [lia|]. split; [lia|]. eexists; split; [done|lia].
  - split; [lia|]. destruct (state g); [lia|naive_solver lia..].
Qed.

Lemma release_probe_wf cfg now g : state_wf cfg now g → state_wf cfg now (release_probe g).
Proof. done. Qed.

Lemma report_wf cfg now o p g :
  config_wf cfg → reported p = false → state_wf cfg now g →
  state_wf cfg now (report cfg now o p g).
Proof.
  intros. rewrite report_eq by done.
  destruct o; auto using on_success_wf, on_failure_wf.
  destruct (was_probe p); auto using release_probe_wf.
Qed.

(** A report that leaves the probe flag set was not made by a probe. *)
Lemma report_probe_running cfg now o p g :
  reported p = false → probe_running (report cfg now o p g) = true →
  was_probe p = false ∧ probe_running g = true.
Proof.
  intros Hr. rewrite report_eq by done. unfold on_failure.
  destruct o, (was_probe p); simpl; case_tests; simpl; naive_solver.
Qed.

Lemma acquire_wf cfg now g r g' :
  acquire cfg now g = (r, g') → state_wf cfg now g → state_wf cfg now g'.
Proof.
  unfold acquire, state_wf. intros H [? Hs].
  destruct (state g) eqn:Hg; case_tests; simplify_eq; simpl; rewrite ?Hg; naive_solver.
Qed.

Lemma acquire_Ok cfg now g p g' :
  acquire cfg now g = (Ok p, g') →
  reported p = false ∧
  (if was_probe p then probe_running g' = true else g' = g ∧ state g = Closed).
Proof. unfold acquire. destruct (state g) eqn:?; case_tests; intros; simplify_eq; naive_solver. Qed.

Lemma acquire_Err cfg now g e g' : acquire cfg now g = (Err e, g') → g' = g.
Proof. unfold acquire. destruct (state g); case_tests; intros; by simplify_eq. Qed.

Lemma step_wf cfg s s' : config_wf cfg → sys_wf cfg s → step cfg s s' → sys_wf cfg s'.
Proof.
  intros Hcfg (Hst & Hps & Hpr) Hstep. unfold sys_wf, probe_outstanding in *.
  inversion Hstep as [? p g' Ha|? e g' Ha|? ps1 p ps2 o Hp| |? t Ht]; subst; simpl in *.
  - destruct (acquire_Ok _ _ _ _ _ Ha) as [Hrep Hprobe].
    split; [eauto using acquire_wf|]. split; [by constructor|].
    intros. destruct (was_probe p) eqn:?; [by left|]. destruct Hprobe as [-> _]. right. auto.
  - rewrite (acquire_Err _ _ _ _ _ Ha). auto.
  - rewrite Hp, Forall_app, Forall_cons in Hps. destruct Hps as (? & Hr & ?).
    split; [auto using report_wf|]. split; [by apply Forall_app|].
    intros Hrun. destruct (report_probe_running _ _ _ _ _ Hr Hrun) as [Hw Hg].
    specialize (Hpr Hg). rewrite Hp in Hpr.
    rewrite Exists_app, Exists_cons in Hpr. rewrite Exists_app. naive_solver congruence.
  - split; [|done]. unfold state_wf, trip_count, u32_max; simpl; lia.
  - split; [|done]. eauto using state_wf_mono.
Qed.

Lemma reachable_wf cfg s : config_wf cfg → reachable cfg s → sys_wf cfg s.
Proof.
  intros ? [t Hstar]. revert Hstar. apply star_invariant.
  - eauto using step_wf.
  - split; [|split; [constructor|done]]. unfold state_wf, trip_count, u32_max; simpl; lia.
Qed.

(** ** Derived runs *)

(** One caller after another, each failing, at the given instants. *)
Definition fail_call (cfg : BreakerConfig) (g : State) (t : time) : State :=
  match acquire cfg t g with
  | (Ok p, g') => failure cfg t p g'
  | (Err _, g') => g'
  end.

Definition fail_run (cfg : BreakerConfig) (ts : list time) (g : State) : State :=
  foldl (fail_call cfg) g ts.

Lemma fail_run_tripped cfg ts g :
  config_wf cfg → state g = Open → failure_threshold cfg ≤ failures g →
  state (fail_run cfg ts g) = Open.
Proof.
  intros Hcfg. revert g. induction ts as [|t ts IH]; intros g Hg Hf; [done|]. simpl. apply IH;
    unfold fail_call, acquire, failure; rewrite Hg; destruct (_ <=? _); simpl; try done; lia.
Qed.

Lemma fail_run_closed cfg ts g :
  config_wf cfg → state g = Closed → 0 ≤ failures g < trip_count cfg →
  state (fail_run cfg ts g) =
  if failures g + Z.of_nat (length ts) <? trip_count cfg then Closed else Open.
Proof.
  intros Hcfg. revert g. induction ts as [|t ts IH]; intros g Hg Hf.
  { simpl. rewrite Hg. case_tests; bool_to_prop; [done|lia]. }
  unfold config_wf, trip_count in *.
  change (fail_run cfg (t :: ts) g) with (fail_run cfg ts (fail_call cfg g t)).
  unfold fail_call, acquire. rewrite Hg. simpl.
  unfold failure, drop, on_failure, u32_saturating_add. simpl.
  destruct (failure_threshold cfg <=? _) eqn:Hle; bool_to_prop; simpl.
  - rewrite fail_run_tripped by (simpl; done || lia).
    case_tests; bool_to_prop; [lia|done].
  - rewrite IH by (simpl; done || lia). simpl.
    case_tests; bool_to_prop; done || lia.
Qed.

(** Attempts and the passage of time, with no report and no reset. *)
Inductive quiet_step (cfg : BreakerConfig) : sys → sys → Prop :=
  | quiet_acquire s p g' :
      acquire cfg (clock s) (breaker s) = (Ok p, g') →
      quiet_step cfg s {| breaker := g'; permits := p :: permits s; clock := clock s |}
  | quiet_refused s e g' :
      acquire cfg (clock s) (breaker s) = (Err e, g') →
      quiet_step cfg s {| breaker := g'; permits := permits s; clock := clock s |}
  | quiet_tick s t :
      clock s ≤ t →
      quiet_step cfg s {| breaker := breaker s; permits := permits s; clock := t |}.

Definition probing (g : State) : Prop := state g = HalfOpen ∧ probe_running g = true.

Lemma quiet_step_probing cfg s s' :
  probing (breaker s) → quiet_step cfg s s' →
  breaker s' = breaker s ∧ permits s' = permits s.
Proof.
  intros [Hg Hp] Hstep. destruct Hstep as [s p g' Ha|s e g' Ha|s t Ht]; [..|done];
    unfold acquire in Ha; rewrite Hg, Hp in Ha; by simplify_eq.
Qed.

(** ** Properties *)

(** C35. Every state the breaker can reach, under any interleaving of callers,
    reports, resets and the clock, is well formed: the failure count stays in
    the range of a [u32]; it is below the trip count exactly while the breaker is
    closed; an open or half-open breaker has a trip instant in the past; and
    [probe_running] is set only while some probe permit is outstanding. *)
Theorem breaker_invariant cfg s :
  config_wf cfg → reachable cfg s → sys_wf cfg s.
Proof. apply reachable_wf. Qed.

(** The breaker cannot be wedged: once no probe permit is outstanding and
    the cooldown of the last trip has elapsed, the next call is admitted, in
    every reachable state. *)
Theorem never_wedged cfg s :
  config_wf cfg → reachable cfg s → ¬ probe_outstanding s →
  (∀ t, opened_at (breaker s) = Some t → t + open_duration cfg ≤ clock s) →
  ∃ p g', acquire cfg (clock s) (breaker s) = (Ok p, g').
Proof.
  intros Hcfg Hreach Hnone Hcool.
  destruct (reachable_wf _ _ Hcfg Hreach) as ([_ Hst] & _ & Hpr).
  unfold acquire. destruct (state (breaker s)); [eauto| |].
  - destruct Hst as (_ & t & Ht & _). rewrite Ht. specialize (Hcool t Ht).
    unfold elapsed. destruct (Z.leb_spec (open_duration cfg) (Z.max 0 (clock s - t)));
      [eauto|lia].
  - destruct (probe_running (breaker s)); [|eauto]. by destruct Hnone; apply Hpr.
Qed.

(** Consecutive failing calls trip a fresh breaker exactly at the
    configured threshold (a threshold of 0 acts as 1), whatever the instants of
    the calls, and further failures keep it open. *)
Theorem consecutive_failures_trip cfg ts :
  config_wf cfg →
  state (fail_run cfg ts new_inner) =
  if Z.of_nat (length ts) <? trip_count cfg then Closed else Open.
Proof.
  intros. rewrite fail_run_closed by (simpl; unfold trip_count; done || lia). done.
Qed.

(** While a half-open probe is running, no amount of attempts or waiting
    admits another call: the breaker and the set of outstanding permits stay
    exactly as they are until the probe reports (or the breaker is reset). *)
Theorem probe_is_single_flight cfg s s' :
  probing (breaker s) → star (quiet_step cfg) s s' →
  breaker s' = breaker s ∧ permits s' = permits s.
Proof.
  intros Hp Hstar. induction Hstar as [|s1 s2 s3 H1 _ IH]; [done|].
  destruct (quiet_step_probing _ _ _ Hp H1) as [Hb Hps].
  rewrite <- Hb, <- Hps. apply IH. by rewrite Hb.
Qed.

(** Two probes can nevertheless be in flight at once: a call admitted while
    the breaker was closed that fails during the probe re-trips the breaker, and
    after another cooldown a second probe is admitted while the first is still
    outstanding. *)
Theorem two_probes_in_flight :
  ∃ cfg s, config_wf cfg ∧ reachable cfg s ∧
    length (filter (λ p, was_probe p = true) (permits s)) = 2%nat.
Proof.
  set (cfg := {| failure_threshold := 1; open_duration := 10 |}).
  exists cfg. eexists. split; [vm_compute; split; discriminate|]. split.
  - exists 0.
    eapply star_step; [eapply step_acquire; reflexivity|].
    eapply star_step; [eapply step_acquire; reflexivity|].
    eapply star_step; [eapply (step_report _ _ [] _ [permit_closed] Failure); reflexivity|].
    eapply star_step; [eapply (step_tick _ _ 10); simpl; lia|].
    eapply star_step; [eapply step_acquire; reflexivity|].
    eapply star_step; [eapply (step_report _ _ [permit_half_open] _ [] Failure); reflexivity|].
    eapply star_step; [eapply (step_tick _ _ 20); simpl; lia|].
    eapply star_one, step_acquire; reflexivity.
  - reflexivity.
Qed.

(** ** Witnesses *)

Definition demo_cfg : BreakerConfig := {| failure_threshold := 1; open_duration := 10 |}.

(** A tripped breaker, its failing call gone and the cooldown elapsed. *)
Definition demo_sys : sys :=
  {| breaker := {| state := Open; failures := 1; opened_at := Some 0; probe_running := false |};
     permits := []; clock := 10 |}.

Lemma demo_sys_reachable : reachable demo_cfg demo_sys.
Proof.
  exists 0.
  eapply star_step; [eapply step_acquire; reflexivity|].
  eapply star_step; [eapply (step_report _ _ [] _ [] Failure); reflexivity|].
  eapply star_one. apply (step_tick demo_cfg {| breaker := _; permits := []; clock := 0 |} 10).
  simpl; lia.
Qed.

Lemma breaker_invariant_witness : sys_wf demo_cfg demo_sys.
Proof.
  apply breaker_invariant; [vm_compute; split; discriminate|apply demo_sys_reachable].
Defined.

Lemma never_wedged_witness :
  ∃ p g', acquire demo_cfg (clock demo_sys) (breaker demo_sys) = (Ok p, g').
Proof.
  apply never_wedged.
  - vm_compute; split; discriminate.
  - apply demo_sys_reachable.
  - intros H. inversion H.
  - simpl. intros t Ht. injection Ht as <-. lia.
Defined.

Lemma consecutive_failures_trip_witness :
  state (fail_run default_config [0; 1; 2; 3; 4] new_inner) = Open.
Proof.
  rewrite (consecutive_failures_trip default_config [0; 1; 2; 3; 4]);
    [reflexivity|vm_compute; split; discriminate].
Defined.

(** The probe admitted from [demo_sys] and two attempts during it. *)
Definition demo_probing : sys :=
  {| breaker := {| state := HalfOpen; failures := 1; opened_at := Some 0; probe_running := true |};
     permits := [permit_half_open]; clock := 10 |}.

Lemma probe_is_single_flight_witness :
  permits {| breaker := breaker demo_probing; permits := permits demo_probing; clock := 30 |}
  = [permit_half_open].
Proof.
  refine (proj2 (probe_is_single_flight demo_cfg demo_probing _ _ _)).
  - split; reflexivity.
  - eapply star_step; [eapply quiet_refused; reflexivity|].
    apply star_one. apply (quiet_tick demo_cfg demo_probing 30). simpl; lia.
Defined.
End Breaker.
