(* ===== verification/ChangeSet.v ===== *)
(** * The change-request primitive: data, validation, projections

    Model of the types and pure functions of crates/waygate-changeset/src/lib.rs.
    A captured change is a row that moves through a fixed lifecycle; the two
    stores (in memory and Postgres) are modelled in [ChangeSetMem] and
    [ChangeSetPg] over these rows.

    JSON values ([serde_json::Value]) belong to a third-party crate and are only
    stored, copied and printed here, so they are a type parameter [Value] with a
    parameter for the printed form where the code prints them. *)

From S2P Require Import Prelude RustStr.

Module ChangeSet.

(** ** Status, lifecycle bucket, approval factor *)

Inductive ChangeRequestStatus :=
  | Pending | Approved | Executing | Executed | Failed | Denied | Expired.
#[export] Instance ChangeRequestStatus_eq_dec : EqDecision ChangeRequestStatus.
Proof. solve_decision. Defined.

Definition as_db_str (s : ChangeRequestStatus) : string :=
  match s with
  | Pending => "pending"
  | Approved => "approved"
  | Executing => "executing"
  | Executed => "executed"
  | Failed => "failed"
  | Denied => "denied"
  | Expired => "expired"
  end.

Definition from_db_str (s : string) : option ChangeRequestStatus :=
  if bool_decide (s = "pending") then Some Pending
  else if bool_decide (s = "approved") then Some Approved
  else if bool_decide (s = "executing") then Some Executing
  else if bool_decide (s = "executed") then Some Executed
  else if bool_decide (s = "failed") then Some Failed
  else if bool_decide (s = "denied") then Some Denied
  else if bool_decide (s = "expired") then Some Expired
  else None.

Definition is_terminal (s : ChangeRequestStatus) : bool :=
  match s with
  | Executed | Failed | Denied | Expired => true
  | Pending | Approved | Executing => false
  end.

Inductive ChangeRequestLifecycle := LPending | LExpired | LDecided.

Definition as_sql_str (l : ChangeRequestLifecycle) : string :=
  match l with
  | LPending => "pending"
  | LExpired => "expired"
  | LDecided => "decided"
  end.

Inductive ApprovalFactor := Mfa | Passkey | BreakGlass.

Definition factor_as_db_str (f : ApprovalFactor) : string :=
  match f with
  | Mfa => "mfa"
  | Passkey => "passkey"
  | BreakGlass => "break_glass"
  end.

Definition factor_from_db_str (s : string) : option ApprovalFactor :=
  if bool_decide (s = "mfa") then Some Mfa
  else if bool_decide (s = "passkey") then Some Passkey
  else if bool_decide (s = "break_glass") then Some BreakGlass
  else None.

Lemma from_as_db_str s : from_db_str (as_db_str s) = Some s.
Proof. by destruct s. Qed.

Lemma from_db_str_Some x s : from_db_str x = Some s ↔ x = as_db_str s.
Proof.
  split; [|intros ->; apply from_as_db_str].
  unfold from_db_str. repeat case_bool_decide; intros; by simplify_eq.
Qed.

Lemma as_db_str_inj s1 s2 : as_db_str s1 = as_db_str s2 → s1 = s2.
Proof. intros H. apply (f_equal from_db_str) in H. rewrite !from_as_db_str in H. congruence. Qed.

(** ** Approval requirement *)

Record ApprovalRequirement := {
  required_approvals : Z;            (* i32 *)
  eligible_role : string;
  factors : list string;
  cooldown_seconds : option Z;       (* i32 *)
}.

Definition single (role : string) : ApprovalRequirement :=
  {| required_approvals := 1; eligible_role := role; factors := []; cooldown_seconds := None |}.

(** ** Binding code *)

Definition BINDING_ADJECTIVES : list string :=
  ["AMBER"; "AZURE"; "BRAVE"; "CRISP"; "DUSKY"; "EAGER"; "FROST"; "GOLD"; "HAZEL"; "IVORY";
   "JADE"; "LUNAR"; "MOSSY"; "NOBLE"; "OPAL"; "PRISM"].

Definition BINDING_NOUNS : list string :=
  ["OTTER"; "FALCON"; "HERON"; "LYNX"; "MARTEN"; "NEWT"; "ORCA"; "PUMA"; "QUAIL"; "RAVEN";
   "SABLE"; "TERN"; "URCHIN"; "VOLE"; "WREN"; "YAK"].

(** Byte [i] of a UUID, most significant first. *)
Definition uuid_byte (id : uuid) (i : N) : N := (N.shiftr id (8 * (15 - i)) mod 256)%N.

(** Indexing a word table modulo its length never goes out of range. *)
Definition word_at (table : list string) (b : N) : string :=
  default "" (table !! N.to_nat (b mod N.of_nat (length table))).

Definition binding_code_from_uuid (id : uuid) : string :=
  let adj := word_at BINDING_ADJECTIVES (uuid_byte id 10) in
  let noun := word_at BINDING_NOUNS (uuid_byte id 12) in
  let num := (uuid_byte id 14 mod 100)%N in
  adj +:+ "-" +:+ noun +:+ "-" +:+ two_digits num.

Example binding_code_nil : binding_code_from_uuid 0 = "AMBER-OTTER-00".
Proof. reflexivity. Qed.

(** ** Errors *)

(** What Postgres and sqlx can report to these stores. *)
Inductive sqlx_error := UniqueViolation | ForeignKeyViolation | ColumnDecode (col : string).

Inductive ChangeRequestError :=
  | Database (e : sqlx_error)
  | EmptyJustification
  | EmptyActionType
  | InvalidApprovalCount (n : Z)
  | EmptyEligibleRole
  | InvalidCooldown (n : Z)
  | UnknownFactor (s : string).

(** ** Rows *)

Section Rows.
Context {Value : Type}.

Record NewChangeRequest := {
  new_tenant_id : string;
  new_requested_by : string;
  new_client_id : option string;
  new_action_type : string;
  new_params : Value;
  new_preview : option Value;
  new_target_etag : option string;
  new_justification : string;
  new_requirement : ApprovalRequirement;
  new_expires_at : time;
}.

(** The first factor outside the vocabulary, [factors.iter().find(..)]. *)
Definition bad_factor (fs : list string) : option string :=
  find_first (λ f, match factor_from_db_str f with None => true | Some _ => false end) fs.

Definition validate (new : NewChangeRequest) : result unit ChangeRequestError :=
  let req := new_requirement new in
  if is_empty (trim (new_justification new)) then Err EmptyJustification
  else if is_empty (trim (new_action_type new)) then Err EmptyActionType
  else if required_approvals req <? 1 then Err (InvalidApprovalCount (required_approvals req))
  else if is_empty (trim (eligible_role req)) then Err EmptyEligibleRole
  else match cooldown_seconds req with
       | Some c => if c <? 0 then Err (InvalidCooldown c)
                   else match bad_factor (factors req) with
                        | Some bad => Err (UnknownFactor bad)
                        | None => Ok tt
                        end
       | None => match bad_factor (factors req) with
                 | Some bad => Err (UnknownFactor bad)
                 | None => Ok tt
                 end
       end.

(** A [change_requests] row. The status is typed in a decoded row and is the
    column's text in a physical row, hence the parameter. *)
Record Row (S : Type) := mkRow {
  cr_id : uuid;
  cr_tenant_id : string;
  cr_requested_by : string;
  cr_client_id : option string;
  cr_action_type : string;
  cr_params : Value;
  cr_preview : option Value;
  cr_target_etag : option string;
  cr_justification : string;
  cr_binding_code : string;
  cr_required_approvals : Z;
  cr_eligible_role : string;
  cr_required_factors : list string;
  cr_cooldown_seconds : option Z;
  cr_status : S;
  cr_approver_sub : option string;
  cr_denied_reason : option string;
  cr_execution_result : option Value;
  cr_error_message : option string;
  cr_created_at : time;
  cr_expires_at : time;
  cr_decided_at : option time;
  cr_executed_at : option time;
}.


(** The part of a row fixed when it is proposed. *)
Definition frozen {S} (r : Row S) :=
  (cr_id _ r, cr_tenant_id _ r, cr_requested_by _ r, cr_client_id _ r, cr_action_type _ r,
   cr_params _ r, cr_preview _ r, cr_target_etag _ r, cr_justification _ r, cr_binding_code _ r,
   (cr_required_approvals _ r, cr_eligible_role _ r, cr_required_factors _ r,
    cr_cooldown_seconds _ r, cr_created_at _ r, cr_expires_at _ r)).

(** Assignment of the columns the updates write: the status, the decision
    columns and the execution columns. *)
Definition assign {S T} (r : Row S) (status : T) (approver denied : option string)
    (outcome : option Value) (error : option string) (decided executed : option time) : Row T :=
  mkRow T (cr_id _ r) (cr_tenant_id _ r) (cr_requested_by _ r) (cr_client_id _ r)
    (cr_action_type _ r) (cr_params _ r) (cr_preview _ r) (cr_target_etag _ r)
    (cr_justification _ r) (cr_binding_code _ r) (cr_required_approvals _ r)
    (cr_eligible_role _ r) (cr_required_factors _ r) (cr_cooldown_seconds _ r)
    status approver denied outcome error (cr_created_at _ r) (cr_expires_at _ r)
    decided executed.

Definition set_approved {S} (approved : S) (sub : string) (now : time) (r : Row S) : Row S :=
  assign r approved (Some sub) (cr_denied_reason _ r) (cr_execution_result _ r)
    (cr_error_message _ r) (Some now) (cr_executed_at _ r).
Definition set_denied {S} (denied : S) (sub reason : string) (now : time) (r : Row S) : Row S :=
  assign r denied (Some sub) (Some reason) (cr_execution_result _ r)
    (cr_error_message _ r) (Some now) (cr_executed_at _ r).
Definition set_executing {S} (executing : S) (r : Row S) : Row S :=
  assign r executing (cr_approver_sub _ r) (cr_denied_reason _ r) (cr_execution_result _ r)
    (cr_error_message _ r) (cr_decided_at _ r) (cr_executed_at _ r).
Definition set_executed {S} (executed : S) (v : Value) (now : time) (r : Row S) : Row S :=
  assign r executed (cr_approver_sub _ r) (cr_denied_reason _ r) (Some v)
    (cr_error_message _ r) (cr_decided_at _ r) (Some now).
Definition set_failed {S} (failed : S) (e : string) (now : time) (r : Row S) : Row S :=
  assign r failed (cr_approver_sub _ r) (cr_denied_reason _ r) (cr_execution_result _ r)
    (Some e) (cr_decided_at _ r) (Some now).

(** The row [propose] creates. *)
Definition new_row {S} (pending : S) (id : uuid) (created_at : time) (new : NewChangeRequest)
  : Row S :=
  let req := new_requirement new in
  mkRow S id (new_tenant_id new) (new_requested_by new) (new_client_id new)
    (new_action_type new) (new_params new) (new_preview new) (new_target_etag new)
    (new_justification new) (binding_code_from_uuid id) (required_approvals req)
    (eligible_role req) (factors req) (cooldown_seconds req)
    pending None None None None created_at (new_expires_at new) None None.

Definition requirement (r : Row ChangeRequestStatus) : ApprovalRequirement :=
  {| required_approvals := cr_required_approvals _ r; eligible_role := cr_eligible_role _ r;
     factors := cr_required_factors _ r; cooldown_seconds := cr_cooldown_seconds _ r |}.

Definition effective_status (r : Row ChangeRequestStatus) (now : time) : ChangeRequestStatus :=
  if (bool_decide (cr_status _ r = Pending) && (cr_expires_at _ r <=? now))%bool
  then Expired else cr_status _ r.

Definition is_live_pending (r : Row ChangeRequestStatus) (tenant_id : string) (now : time) : bool :=
  bool_decide (cr_tenant_id _ r = tenant_id) && bool_decide (cr_status _ r = Pending)
  && (now <? cr_expires_at _ r).

(** The bucket predicate of the list calls. *)
Definition in_lifecycle (now : time) (lifecycle : option ChangeRequestLifecycle)
    (r : Row ChangeRequestStatus) : bool :=
  match lifecycle with
  | None => true
  | Some LPending => bool_decide (cr_status _ r = Pending) && (now <? cr_expires_at _ r)
  | Some LExpired => bool_decide (cr_status _ r = Pending) && (cr_expires_at _ r <=? now)
  | Some LDecided => bool_decide (cr_status _ r ≠ Pending)
  end.

(** [ORDER BY created_at DESC, id]. *)
Definition newest_first {S} (a b : Row S) : Prop :=
  cr_created_at _ b < cr_created_at _ a ∨
  (cr_created_at _ b = cr_created_at _ a ∧ (cr_id _ a ≤ cr_id _ b)%N).

#[export] Instance newest_first_dec {S} (a b : Row S) : Decision (newest_first a b).
Proof. unfold newest_first. apply _. Defined.
#[export] Instance newest_first_total {S} : Total (@newest_first S).
Proof. intros a b. unfold newest_first. lia. Qed.
#[export] Instance newest_first_trans {S} : Transitive (@newest_first S).
Proof. intros a b c. unfold newest_first. lia. Qed.

Lemma newest_first_antisymm {S} (a b : Row S) :
  newest_first a b → newest_first b a → cr_id _ a = cr_id _ b.
Proof. unfold newest_first. lia. Qed.

Definition MAX_LIST_LIMIT : Z := 500.

Definition page {A} (offset limit : Z) (l : list A) : list A :=
  take (Z.to_nat limit) (drop (Z.to_nat offset) l).

(** ** Bounded projections *)

Definition HISTORY_OUTCOME_PREVIEW_CHARS : nat := 200.
Definition HISTORY_OUTCOME_MAX_BYTES : nat := 16 * 1024.
Definition STATUS_LIST_OUTCOME_MAX_BYTES : nat := 16 * 1024.

Record ChangeRequestSummary := {
  sum_id : uuid;
  sum_requested_by : string;
  sum_action_type : string;
  sum_justification : string;
  sum_binding_code : string;
  sum_required_approvals : Z;
  sum_eligible_role : string;
  sum_required_factors : list string;
  sum_cooldown_seconds : option Z;
  sum_status : ChangeRequestStatus;
  sum_approver_sub : option string;
  sum_denied_reason : option string;
  sum_execution_result : option Value;
  sum_execution_result_preview : option string;
  sum_error_message : option string;
  sum_created_at : time;
  sum_expires_at : time;
}.

Record ChangeRequestStatusSummary := {
  st_id : uuid;
  st_requested_by : string;
  st_action_type : string;
  st_binding_code : string;
  st_status : ChangeRequestStatus;
  st_approver_sub : option string;
  st_denied_reason : option string;
  st_execution_result : option Value;
  st_error_message : option string;
  st_expires_at : time;
}.

Definition summary_effective_status (s : ChangeRequestStatusSummary) (now : time)
  : ChangeRequestStatus :=
  if (bool_decide (st_status s = Pending) && (st_expires_at s <=? now))%bool
  then Expired else st_status s.

(** [print] is the value's printed JSON. *)
Definition history_outcome_preview (print : Value → string) (v : Value) : string :=
  let serialized := as_bytes (print v) in
  if (char_count serialized <=? HISTORY_OUTCOME_PREVIEW_CHARS)%nat then print v
  else of_bytes (take_chars HISTORY_OUTCOME_PREVIEW_CHARS serialized) +:+ "…".

Definition bounded_status_result (print : Value → string) (v : Value) : option Value :=
  if (len (print v) <=? STATUS_LIST_OUTCOME_MAX_BYTES)%nat then Some v else None.

Definition bounded_history_result (print : Value → string) (v : Value) : option Value :=
  if (len (print v) <=? HISTORY_OUTCOME_MAX_BYTES)%nat then Some v else None.

Definition to_status_summary (print : Value → string) (r : Row ChangeRequestStatus)
  : ChangeRequestStatusSummary :=
  {| st_id := cr_id _ r; st_requested_by := cr_requested_by _ r;
     st_action_type := cr_action_type _ r; st_binding_code := cr_binding_code _ r;
     st_status := cr_status _ r; st_approver_sub := cr_approver_sub _ r;
     st_denied_reason := cr_denied_reason _ r;
     st_execution_result := cr_execution_result _ r ≫= bounded_status_result print;
     st_error_message := cr_error_message _ r; st_expires_at := cr_expires_at _ r |}.

Definition to_summary (print : Value → string) (r : Row ChangeRequestStatus) : ChangeRequestSummary :=
  {| sum_id := cr_id _ r; sum_requested_by := cr_requested_by _ r;
     sum_action_type := cr_action_type _ r; sum_justification := cr_justification _ r;
     sum_binding_code := cr_binding_code _ r;
     sum_required_approvals := cr_required_approvals _ r;
     sum_eligible_role := cr_eligible_role _ r; sum_required_factors := cr_required_factors _ r;
     sum_cooldown_seconds := cr_cooldown_seconds _ r; sum_status := cr_status _ r;
     sum_approver_sub := cr_approver_sub _ r; sum_denied_reason := cr_denied_reason _ r;
     sum_execution_result := cr_execution_result _ r ≫= bounded_history_result print;
     sum_execution_result_preview := history_outcome_preview print <$> cr_execution_result _ r;
     sum_error_message := cr_error_message _ r; sum_created_at := cr_created_at _ r;
     sum_expires_at := cr_expires_at _ r |}.

(** ** Answers of the store operations *)

Record ApprovalProgress := {
  collected : Z;           (* i64 *)
  required : Z;            (* i32 *)
  recorded : bool;
  counted : bool;
  approved : option (Row ChangeRequestStatus);
}.

Definition no_progress : ApprovalProgress :=
  {| collected := 0; required := 0; recorded := false; counted := false; approved := None |}.

End Rows.

Arguments Row Value S : clear implicits.
Abbreviation ChangeRequest V := (Row V ChangeRequestStatus).
Arguments NewChangeRequest Value : clear implicits.
Arguments ChangeRequestSummary Value : clear implicits.
Arguments ChangeRequestStatusSummary Value : clear implicits.
Arguments ApprovalProgress Value : clear implicits.
Arguments cr_id {Value S} _.
Arguments cr_tenant_id {Value S} _.
Arguments cr_requested_by {Value S} _.
Arguments cr_client_id {Value S} _.
Arguments cr_action_type {Value S} _.
Arguments cr_params {Value S} _.
Arguments cr_preview {Value S} _.
Arguments cr_target_etag {Value S} _.
Arguments cr_justification {Value S} _.
Arguments cr_binding_code {Value S} _.
Arguments cr_required_approvals {Value S} _.
Arguments cr_eligible_role {Value S} _.
Arguments cr_required_factors {Value S} _.
Arguments cr_cooldown_seconds {Value S} _.
Arguments cr_status {Value S} _.
Arguments cr_approver_sub {Value S} _.
Arguments cr_denied_reason {Value S} _.
Arguments cr_execution_result {Value S} _.
Arguments cr_error_message {Value S} _.
Arguments cr_created_at {Value S} _.
Arguments cr_expires_at {Value S} _.
Arguments cr_decided_at {Value S} _.
Arguments cr_executed_at {Value S} _.

Record StoredSecret := { ciphertext : bytes; key_id : string }.

End ChangeSet.
