(* ===== verification/ChangeSetMem.v ===== *)
(** * The in-memory change-request store

    Model of [InMemoryChangeRequestStore] of crates/waygate-changeset/src/lib.rs
    and the operations of the store trait as values; what holds of every history
    of them is proved in [ChangeSetRuns].

    Each method holds the locks it takes for its whole body, so a method is one
    atomic step; a concurrent history is a list of operations. *)

From S2P Require Import Prelude RustStr ChangeSet.

Module ChangeSetMem.
Export ChangeSet.

Section Store.
Context {Value : Type}.

Record InMemApproval := {
  ap_change_request_id : uuid;
  ap_tenant_id : string;
  ap_approver_sub : string;
}.

Record InMemSecret := {
  sec_tenant_id : string;
  sec_change_request_id : uuid;
  sec_ciphertext : bytes;
  sec_key_id : string;
  sec_retrieved : bool;
}.

Record Store := {
  rows : list (ChangeRequest Value);
  secrets : list InMemSecret;
  approvals : list InMemApproval;
}.

Definition empty : Store := {| rows := []; secrets := []; approvals := [] |}.

Definition with_rows (s : Store) (l : list (ChangeRequest Value)) : Store :=
  {| rows := l; secrets := secrets s; approvals := approvals s |}.
Definition with_secrets (s : Store) (l : list InMemSecret) : Store :=
  {| rows := rows s; secrets := l; approvals := approvals s |}.

(** ** Operations *)

(** [Uuid::now_v7()] and [now_utc()] are the arguments [id] and [now]. *)
Definition propose (now : time) (id : uuid) (new : NewChangeRequest Value) (s : Store)
  : result (ChangeRequest Value) ChangeRequestError * Store :=
  match validate new with
  | Err e => (Err e, s)
  | Ok _ =>
      let row := new_row Pending id now new in
      (Ok row, with_rows s (rows s ++ [row]))
  end.

Definition row_is (tenant_id : string) (id : uuid) (r : ChangeRequest Value) : bool :=
  bool_decide (cr_tenant_id r = tenant_id) && bool_decide (cr_id r = id).

Definition get (tenant_id : string) (id : uuid) (s : Store) : option (ChangeRequest Value) :=
  find_first (row_is tenant_id id) (rows s).

Definition list_rows (now : time) (tenant_id : string)
    (lifecycle : option ChangeRequestLifecycle) (limit offset : Z) (s : Store)
  : list (ChangeRequest Value) :=
  let matched := filter (λ r, cr_tenant_id r = tenant_id ∧ in_lifecycle now lifecycle r = true)
                   (rows s) in
  page offset (Z.min limit MAX_LIST_LIMIT) (merge_sort newest_first matched).

Definition count_pending_up_to (now : time) (tenant_id : string) (limit : Z) (s : Store) : Z :=
  Z.of_nat (length (take (Z.to_nat (Z.min limit MAX_LIST_LIMIT))
                      (filter (λ r, is_live_pending r tenant_id now = true) (rows s)))).

Definition list_summaries (print : Value → string) (now : time) (tenant_id : string)
    (lifecycle : option ChangeRequestLifecycle) (limit offset : Z) (s : Store)
  : list (ChangeRequestSummary Value) :=
  let matched := filter (λ r, cr_tenant_id r = tenant_id ∧ in_lifecycle now lifecycle r = true)
                   (rows s) in
  to_summary print <$> page offset (Z.min limit MAX_LIST_LIMIT) (merge_sort newest_first matched).

Definition list_for_requester (print : Value → string) (now : time)
    (tenant_id requested_by : string) (lifecycle : option ChangeRequestLifecycle)
    (limit offset : Z) (s : Store) : list (ChangeRequestStatusSummary Value) :=
  let matched := filter (λ r, (cr_tenant_id r = tenant_id ∧ cr_requested_by r = requested_by)
                              ∧ in_lifecycle now lifecycle r = true) (rows s) in
  to_status_summary print <$> page offset limit (merge_sort newest_first matched).

(** [if let Some(r) = rows.iter_mut().find(p) { *r = f(r); Some(r.clone()) } else { None }] *)
Definition update_row (p : ChangeRequest Value → bool)
    (f : ChangeRequest Value → ChangeRequest Value) (s : Store)
  : option (ChangeRequest Value) * Store :=
  match update_first p f (rows s) with
  | Some (r, l) => (Some r, with_rows s l)
  | None => (None, s)
  end.

Definition open_for_decision (now : time) (r : ChangeRequest Value) : bool :=
  bool_decide (cr_status r = Pending) && (now <? cr_expires_at r).

Definition try_approve (now : time) (tenant_id : string) (id : uuid) (approver_sub : string)
  : Store → option (ChangeRequest Value) * Store :=
  update_row (λ r, row_is tenant_id id r && open_for_decision now r
                   && (cr_required_approvals r =? 1))
    (set_approved Approved approver_sub now).

Definition approval_of (tenant_id : string) (id : uuid) (a : InMemApproval) : bool :=
  bool_decide (ap_change_request_id a = id) && bool_decide (ap_tenant_id a = tenant_id).

Definition record_approval (now : time) (tenant_id : string) (id : uuid) (approver_sub : string)
    (s : Store) : ApprovalProgress Value * Store :=
  match find_first (row_is tenant_id id) (rows s) with
  | None => (no_progress, s)
  | Some r =>
      let counted := open_for_decision now r in
      let recorded := counted && negb (existsb (λ a, approval_of tenant_id id a
                        && bool_decide (ap_approver_sub a = approver_sub)) (approvals s)) in
      let apps := if recorded
                  then approvals s ++ [{| ap_change_request_id := id; ap_tenant_id := tenant_id;
                                          ap_approver_sub := approver_sub |}]
                  else approvals s in
      let collected := Z.of_nat (length (filter (λ a, approval_of tenant_id id a = true) apps)) in
      let '(approved, s') :=
        update_row (λ r, row_is tenant_id id r && open_for_decision now r
                         && (cr_required_approvals r <=? collected))
          (set_approved Approved approver_sub now)
          {| rows := rows s; secrets := secrets s; approvals := apps |} in
      ({| collected := collected; required := cr_required_approvals r; recorded := recorded;
          counted := counted; approved := approved |}, s')
  end.

Definition list_approvers (tenant_id : string) (id : uuid) (s : Store) : list string :=
  ap_approver_sub <$> filter (λ a, approval_of tenant_id id a = true) (approvals s).

Definition try_deny (now : time) (tenant_id : string) (id : uuid) (approver_sub reason : string)
  : Store → option (ChangeRequest Value) * Store :=
  update_row (λ r, row_is tenant_id id r && open_for_decision now r)
    (set_denied Denied approver_sub reason now).

Definition try_begin_execution (tenant_id : string) (id : uuid)
  : Store → option (ChangeRequest Value) * Store :=
  update_row (λ r, row_is tenant_id id r && bool_decide (cr_status r = Approved))
    (set_executing Executing).

Definition mark_executed (now : time) (tenant_id : string) (id : uuid) (outcome : Value)
  : Store → option (ChangeRequest Value) * Store :=
  update_row (λ r, row_is tenant_id id r && bool_decide (cr_status r = Executing))
    (set_executed Executed outcome now).

Definition mark_failed (now : time) (tenant_id : string) (id : uuid) (error : string)
  : Store → option (ChangeRequest Value) * Store :=
  update_row (λ r, row_is tenant_id id r && bool_decide (cr_status r = Executing))
    (set_failed Failed error now).

Definition store_secret (tenant_id : string) (id : uuid) (ciphertext : bytes) (key : string)
    (s : Store) : Store :=
  with_secrets s (secrets s ++ [{| sec_tenant_id := tenant_id; sec_change_request_id := id;
                                   sec_ciphertext := ciphertext; sec_key_id := key;
                                   sec_retrieved := false |}]).

Definition secret_is (tenant_id : string) (id : uuid) (x : InMemSecret) : bool :=
  bool_decide (sec_tenant_id x = tenant_id) && bool_decide (sec_change_request_id x = id).

Definition stored (x : InMemSecret) : StoredSecret :=
  {| ciphertext := sec_ciphertext x; key_id := sec_key_id x |}.

Definition try_burn_secret (tenant_id : string) (id : uuid) (s : Store)
  : option StoredSecret * Store :=
  match update_first (λ x, secret_is tenant_id id x && negb (sec_retrieved x))
          (λ x, {| sec_tenant_id := sec_tenant_id x;
                   sec_change_request_id := sec_change_request_id x;
                   sec_ciphertext := sec_ciphertext x; sec_key_id := sec_key_id x;
                   sec_retrieved := true |}) (secrets s) with
  | Some (x, l) => (Some (stored x), with_secrets s l)
  | None => (None, s)
  end.

Definition get_secret (tenant_id : string) (id : uuid) (s : Store) : option StoredSecret :=
  stored <$> find_first (secret_is tenant_id id) (secrets s).

End Store.
Arguments Store Value : clear implicits.

(** ** Operations of the store as values *)

Section Ops.
Context {Value : Type}.

Inductive Op :=
  | Propose (id : uuid) (new : NewChangeRequest Value)
  | Get (tenant : string) (id : uuid)
  | List (tenant : string) (lifecycle : option ChangeRequestLifecycle) (limit offset : Z)
  | CountPending (tenant : string) (limit : Z)
  | TryApprove (tenant : string) (id : uuid) (sub : string)
  | RecordApproval (tenant : string) (id : uuid) (sub : string)
  | ListApprovers (tenant : string) (id : uuid)
  | TryDeny (tenant : string) (id : uuid) (sub reason : string)
  | BeginExecution (tenant : string) (id : uuid)
  | MarkExecuted (tenant : string) (id : uuid) (outcome : Value)
  | MarkFailed (tenant : string) (id : uuid) (error : string)
  | StoreSecret (tenant : string) (id : uuid) (c : bytes) (key : string)
  | BurnSecret (tenant : string) (id : uuid)
  | GetSecret (tenant : string) (id : uuid).

Inductive Answer :=
  | AProposed (r : result (ChangeRequest Value) ChangeRequestError)
  | ARow (o : option (ChangeRequest Value))
  | ARows (l : list (ChangeRequest Value))
  | ACount (n : Z)
  | AProgress (p : ApprovalProgress Value)
  | ASubs (l : list string)
  | AUnit (r : result unit ChangeRequestError)
  | ASecret (o : option StoredSecret).

Definition exec (now : time) (o : Op) (s : Store Value) : Answer * Store Value :=
  match o with
  | Propose id new => let '(r, s') := propose now id new s in (AProposed r, s')
  | Get t id => (ARow (get t id s), s)
  | List t l limit offset => (ARows (list_rows now t l limit offset s), s)
  | CountPending t limit => (ACount (count_pending_up_to now t limit s), s)
  | TryApprove t id sub => let '(r, s') := try_approve now t id sub s in (ARow r, s')
  | RecordApproval t id sub => let '(p, s') := record_approval now t id sub s in (AProgress p, s')
  | ListApprovers t id => (ASubs (list_approvers t id s), s)
  | TryDeny t id sub reason => let '(r, s') := try_deny now t id sub reason s in (ARow r, s')
  | BeginExecution t id => let '(r, s') := try_begin_execution t id s in (ARow r, s')
  | MarkExecuted t id v => let '(r, s') := mark_executed now t id v s in (ARow r, s')
  | MarkFailed t id e => let '(r, s') := mark_failed now t id e s in (ARow r, s')
  | StoreSecret t id c k => (AUnit (Ok tt), store_secret t id c k s)
  | BurnSecret t id => let '(r, s') := try_burn_secret t id s in (ASecret r, s')
  | GetSecret t id => (ASecret (get_secret t id s), s)
  end.

(** A history: operations with the instants they ran at, oldest first. *)
Fixpoint run (h : list (time * Op)) (s : Store Value) : list Answer * Store Value :=
  match h with
  | [] => ([], s)
  | (now, o) :: h' =>
      let '(a, s') := exec now o s in
      let '(l, s'') := run h' s' in (a :: l, s'')
  end.

(** The ids [Uuid::now_v7] handed out in a history. *)
Definition proposed_id (o : Op) : list uuid :=
  match o with Propose id _ => [id] | _ => [] end.
Definition proposed_ids (h : list (time * Op)) : list uuid :=
  flat_map (λ x, proposed_id x.2) h.

End Ops.
Arguments Op Value : clear implicits.
Arguments Answer Value : clear implicits.

End ChangeSetMem.
