(* ===== verification/ChangeSetRuns.v ===== *)
(** * Guarantees of every run of the change-request store

    Rule-by-rule lemmas about [ChangeSetMem.exec], the store invariant, and the
    properties of arbitrary histories: lifecycle discipline, frozen intent,
    at-most-once decisions and execution claims, approval quorum. *)

From S2P Require Import Prelude RustStr ChangeSet ChangeSetMem.

Module ChangeSetRuns.
Export ChangeSetMem.

Section Runs.
Context {Value : Type}.
Implicit Types (s : Store Value) (r : ChangeRequest Value) (o : Op Value).

(** ** How one operation changes the rows *)

(** The edges of the lifecycle. *)
Inductive edge : ChangeRequestStatus → ChangeRequestStatus → Prop :=
  | edge_approve : edge Pending Approved
  | edge_deny : edge Pending Denied
  | edge_begin : edge Approved Executing
  | edge_executed : edge Executing Executed
  | edge_failed : edge Executing Failed.

Definition row_step r r' : Prop :=
  r' = r ∨ (frozen r' = frozen r ∧ edge (cr_status r) (cr_status r')).

Lemma row_step_frozen r r' : row_step r r' → frozen r' = frozen r.
Proof. intros [->|[? _]]; done. Qed.

Lemma frozen_id r r' : frozen r' = frozen r → cr_id r' = cr_id r.
Proof. unfold frozen. congruence. Qed.
Lemma frozen_tenant r r' : frozen r' = frozen r → cr_tenant_id r' = cr_tenant_id r.
Proof. unfold frozen. congruence. Qed.
Lemma frozen_required r r' :
  frozen r' = frozen r → cr_required_approvals r' = cr_required_approvals r.
Proof. unfold frozen. congruence. Qed.

Lemma row_step_terminal r r' : row_step r r' → is_terminal (cr_status r) = true → r' = r.
Proof. intros [->|[_ He]]; [done|]. by inversion He. Qed.

Lemma update_first_Forall2 (R : ChangeRequest Value → ChangeRequest Value → Prop) p f l y l' :
  (∀ r, R r r) → (∀ r, p r = true → R r (f r)) →
  update_first p f l = Some (y, l') → Forall2 R l l'.
Proof.
  intros Hrefl Hstep (l1 & x & l2 & -> & Hp & -> & -> & _)%update_first_Some.
  apply Forall2_app; [|constructor; [by apply Hstep|]]; by apply Forall_Forall2_diag, Forall_true.
Qed.

Lemma update_row_Forall2 p f s a s' :
  (∀ r, p r = true → row_step r (f r)) → update_row p f s = (a, s') →
  Forall2 row_step (rows s) (rows s').
Proof.
  intros Hstep. unfold update_row.
  destruct (update_first p f (rows s)) as [[y l]|] eqn:Hu; intros; simplify_eq; simpl.
  - eapply update_first_Forall2; [by left|done|done].
  - by apply Forall_Forall2_diag, Forall_true; left.
Qed.

(** The updates the operations make follow the edges. *)
Lemma open_for_decision_Pending now r :
  open_for_decision now r = true → cr_status r = Pending ∧ now < cr_expires_at r.
Proof. unfold open_for_decision. intros. bool_to_prop. auto. Qed.

Lemma set_approved_step sub now r :
  cr_status r = Pending → row_step r (set_approved Approved sub now r).
Proof. intros H. right. split; [done|]. simpl. rewrite H. constructor. Qed.
Lemma set_denied_step sub reason now r :
  cr_status r = Pending → row_step r (set_denied Denied sub reason now r).
Proof. intros H. right. split; [done|]. simpl. rewrite H. constructor. Qed.
Lemma set_executing_step r :
  cr_status r = Approved → row_step r (set_executing Executing r).
Proof. intros H. right. split; [done|]. simpl. rewrite H. constructor. Qed.
Lemma set_executed_step v now r :
  cr_status r = Executing → row_step r (set_executed Executed v now r).
Proof. intros H. right. split; [done|]. simpl. rewrite H. constructor. Qed.
Lemma set_failed_step e now r :
  cr_status r = Executing → row_step r (set_failed Failed e now r).
Proof. intros H. right. split; [done|]. simpl. rewrite H. constructor. Qed.

Ltac guarded := let r := fresh in let Hp := fresh in intros r Hp; cbn beta in Hp; bool_to_prop;
  repeat match goal with H : open_for_decision _ _ = true |- _ =>
    apply open_for_decision_Pending in H as [? ?] end;
  auto using set_approved_step, set_denied_step, set_executing_step,
    set_executed_step, set_failed_step.

Definition same_rows s s' : Prop := Forall2 row_step (rows s) (rows s').

Lemma same_rows_refl s s' : rows s' = rows s → same_rows s s'.
Proof. intros H. unfold same_rows. rewrite H. by apply Forall_Forall2_diag, Forall_true; left. Qed.

(** Every operation but [propose] keeps the rows in place, each moving along at
    most one edge; [propose] appends one pending row or changes nothing. *)
Lemma exec_rows now o s a s' :
  exec now o s = (a, s') →
  same_rows s s' ∨
  ∃ id new, o = Propose id new ∧ validate new = Ok tt ∧
            rows s' = rows s ++ [new_row Pending id now new] ∧
            approvals s' = approvals s ∧ a = AProposed (Ok (new_row Pending id now new)).
Proof.
  destruct o; simpl; intros H.
  - unfold propose in H. destruct (validate new) as [[]|] eqn:?; simplify_eq; [|left; by apply same_rows_refl].
    right. eauto 10.
  - simplify_eq. left. by apply same_rows_refl.
  - simplify_eq. left. by apply same_rows_refl.
  - simplify_eq. left. by apply same_rows_refl.
  - destruct (try_approve _ _ _ _ _) eqn:Hu; simplify_eq. left.
    eapply update_row_Forall2; [|exact Hu]. guarded.
  - unfold record_approval in H. destruct (find_first _ _) as [r|]; [|simplify_eq; left; by apply same_rows_refl].
    destruct (update_row _ _ _) eqn:Hu; simplify_eq. left.
    eapply update_row_Forall2 in Hu; [exact Hu|]. guarded.
  - simplify_eq. left. by apply same_rows_refl.
  - destruct (try_deny _ _ _ _ _ _) eqn:Hu; simplify_eq. left.
    eapply update_row_Forall2; [|exact Hu]. guarded.
  - destruct (try_begin_execution _ _ _) eqn:Hu; simplify_eq. left.
    eapply update_row_Forall2; [|exact Hu]. guarded.
  - destruct (mark_executed _ _ _ _ _) eqn:Hu; simplify_eq. left.
    eapply update_row_Forall2; [|exact Hu]. guarded.
  - destruct (mark_failed _ _ _ _ _) eqn:Hu; simplify_eq. left.
    eapply update_row_Forall2; [|exact Hu]. guarded.
  - simplify_eq. left. by apply same_rows_refl.
  - unfold try_burn_secret in H. destruct (update_first _ _ _) as [[??]|]; simplify_eq;
      left; by apply same_rows_refl.
  - simplify_eq. left. by apply same_rows_refl.
Qed.

(** A row survives every operation, moving along at most one edge. *)
Lemma exec_row_survives now o s a s' r :
  exec now o s = (a, s') → r ∈ rows s → ∃ r', r' ∈ rows s' ∧ row_step r r'.
Proof.
  intros Hex Hr. destruct (exec_rows _ _ _ _ _ Hex) as [Hrows|(id & new & _ & _ & -> & _)].
  - apply list_elem_of_lookup in Hr as [i Hi].
    destruct (Forall2_lookup_l _ _ _ _ _ Hrows Hi) as (r' & Hi' & ?).
    exists r'. split; [by eapply list_elem_of_lookup_2|done].
  - exists r. split; [apply elem_of_app; by left|by left].
Qed.

(** Conversely a row after the operation was there before or is the new one. *)
Lemma exec_row_origin now o s a s' r' :
  exec now o s = (a, s') → r' ∈ rows s' →
  (∃ r, r ∈ rows s ∧ row_step r r') ∨
  (∃ id new, o = Propose id new ∧ validate new = Ok tt ∧ r' = new_row Pending id now new).
Proof.
  intros Hex Hr'. destruct (exec_rows _ _ _ _ _ Hex) as [Hrows|(id & new & -> & Hv & Heq & _)].
  - left. apply list_elem_of_lookup in Hr' as [i Hi].
    destruct (Forall2_lookup_r _ _ _ _ _ Hrows Hi) as (r & Hi' & ?).
    exists r. split; [by eapply list_elem_of_lookup_2|done].
  - rewrite Heq in Hr'. apply elem_of_app in Hr' as [?|?%list_elem_of_singleton]; [|by right; eauto].
    left. exists r'. split; [done|by left].
Qed.

(** ** Unique ids *)

Definition ids s : list uuid := cr_id <$> rows s.

Lemma same_rows_ids s s' : same_rows s s' → ids s' = ids s.
Proof.
  unfold same_rows, ids. induction 1 as [|r r' l l' Hr _ IH]; [done|]. simpl. f_equal; [|done].
  by apply frozen_id, row_step_frozen.
Qed.

Lemma exec_ids now o s a s' :
  exec now o s = (a, s') → ids s' = ids s ∨ ids s' = ids s ++ proposed_id o.
Proof.
  intros Hex. destruct (exec_rows _ _ _ _ _ Hex) as [H|(id & new & -> & _ & H & _)].
  - left. by apply same_rows_ids.
  - right. unfold ids. rewrite H, fmap_app. done.
Qed.

(** The ids still to be handed out are fresh: the documented behaviour of
    version 7 UUIDs within one store. *)
Definition fresh_for (h : list (time * Op Value)) s : Prop := NoDup (ids s ++ proposed_ids h).

Lemma fresh_for_cons now o h s a s' :
  fresh_for ((now, o) :: h) s → exec now o s = (a, s') → fresh_for h s'.
Proof.
  unfold fresh_for. simpl. intros Hnd Hex.
  destruct (exec_ids _ _ _ _ _ Hex) as [->| ->].
  - eapply sublist_NoDup; [exact Hnd|]. apply sublist_app; [done|]. by apply sublist_inserts_l.
  - by rewrite <- app_assoc.
Qed.

Lemma fresh_for_NoDup h s : fresh_for h s → NoDup (ids s).
Proof. intros (? & _ & _)%NoDup_app. done. Qed.

Lemma ids_unique s r1 r2 :
  NoDup (ids s) → r1 ∈ rows s → r2 ∈ rows s → cr_id r1 = cr_id r2 → r1 = r2.
Proof.
  unfold ids. intros Hnd [i Hi]%list_elem_of_lookup [j Hj]%list_elem_of_lookup Heq.
  assert (i = j) as ->; [|congruence].
  apply (NoDup_lookup (cr_id <$> rows s) i j (cr_id r2)); [done|..];
    rewrite list_lookup_fmap; [rewrite Hi|rewrite Hj]; simpl; congruence.
Qed.

(** ** Progress along the lifecycle *)

Definition rank (st : ChangeRequestStatus) : nat :=
  match st with
  | Pending => 0
  | Approved => 1
  | Executing => 2
  | Executed | Failed | Denied | Expired => 3
  end.

Lemma row_step_rank r r' : row_step r r' → (rank (cr_status r) ≤ rank (cr_status r'))%nat.
Proof. intros [->|[_ He]]; [lia|]. inversion He; simpl; lia. Qed.

(** Some row with this id has reached rank [k]. *)
Definition reached (k : nat) (id : uuid) s : Prop :=
  ∃ r, r ∈ rows s ∧ cr_id r = id ∧ (k ≤ rank (cr_status r))%nat.

Lemma reached_exec k id now o s a s' :
  reached k id s → exec now o s = (a, s') → reached k id s'.
Proof.
  intros (r & Hr & <- & Hk) Hex.
  destruct (exec_row_survives _ _ _ _ _ _ Hex Hr) as (r' & Hr' & Hstep).
  exists r'. split; [done|]. split; [by apply frozen_id, row_step_frozen|].
  apply row_step_rank in Hstep. lia.
Qed.

(** ** Events that happen at most once per request *)

Abbreviation event := (Op Value → Answer Value → bool).

(** The occurrences of an event in a run. *)
Fixpoint occurrences (ev : event) (h : list (time * Op Value)) s : nat :=
  match h with
  | [] => 0
  | (now, o) :: h' =>
      let '(a, s') := exec now o s in
      ((if ev o a then 1 else 0) + occurrences ev h' s')%nat
  end.

(** The event takes request [id] from a rank below [k] to rank [k] or above. *)
Definition crosses (k : nat) (id : uuid) (ev : event) : Prop :=
  ∀ now o s a s', NoDup (ids s) → exec now o s = (a, s') → ev o a = true →
    ¬ reached k id s ∧ reached k id s'.

Lemma occurrences_after k id ev h s :
  crosses k id ev → fresh_for h s → reached k id s → occurrences ev h s = O.
Proof.
  intros Hev. revert s. induction h as [|[now o] h IH]; intros s Hf Hr; simpl; [done|].
  destruct (exec now o s) as [a s'] eqn:Hex.
  rewrite (IH s'); [|by eapply fresh_for_cons|by eapply reached_exec].
  destruct (ev o a) eqn:He; [|done].
  destruct (Hev _ _ _ _ _ (fresh_for_NoDup _ _ Hf) Hex He) as [? _]. done.
Qed.

Lemma occurrences_at_most_once k id ev h s :
  crosses k id ev → fresh_for h s → (occurrences ev h s ≤ 1)%nat.
Proof.
  intros Hev. revert s. induction h as [|[now o] h IH]; intros s Hf; simpl; [lia|].
  destruct (exec now o s) as [a s'] eqn:Hex.
  assert (fresh_for h s') as Hf' by (by eapply fresh_for_cons).
  destruct (ev o a) eqn:He.
  - destruct (Hev _ _ _ _ _ (fresh_for_NoDup _ _ Hf) Hex He) as [_ Hr].
    rewrite (occurrences_after k id); auto.
  - specialize (IH s' Hf'). lia.
Qed.

(** An update of one row, seen through the ranks. *)
Lemma update_row_crosses k p f s r s' :
  NoDup (ids s) → update_row p f s = (Some r, s') →
  (∀ r, p r = true → (rank (cr_status r) < k ≤ rank (cr_status (f r)))%nat
                     ∧ cr_id (f r) = cr_id r) →
  ¬ reached k (cr_id r) s ∧ reached k (cr_id r) s'.
Proof.
  unfold update_row. intros Hnd Hu Hf.
  destruct (update_first p f (rows s)) as [[y l]|] eqn:Hup; simplify_eq.
  apply update_first_Some in Hup as (l1 & x & l2 & Hrows & Hp & -> & -> & _).
  destruct (Hf x Hp) as [[Hlt Hle] Hid]. rewrite Hid. split.
  - intros (r' & Hr' & Hid' & Hk).
    assert (r' = x) as ->; [|lia].
    eapply ids_unique; [exact Hnd|done| |done]. rewrite Hrows. apply elem_of_app. right. left.
  - exists (f x). split; [apply elem_of_app; right; left|done].
Qed.

Lemma row_is_spec t id r : row_is t id r = true → cr_tenant_id r = t ∧ cr_id r = id.
Proof. unfold row_is. intros. by bool_to_prop. Qed.

Lemma update_row_id p f s r s' t id :
  update_row p f s = (Some r, s') →
  (∀ r, p r = true → row_is t id r = true ∧ cr_id (f r) = cr_id r) → cr_id r = id.
Proof.
  unfold update_row. intros Hu Hp.
  destruct (update_first p f (rows s)) as [[y l]|] eqn:Hup; simplify_eq.
  apply update_first_Some in Hup as (l1 & x & l2 & _ & Hx & -> & _).
  destruct (Hp x Hx) as [[_ <-]%row_is_spec ->]. done.
Qed.

(** The execution claim on request [id]. *)
Definition begins (id : uuid) : event := λ o a,
  match o, a with
  | BeginExecution _ i, ARow (Some _) => bool_decide (i = id)
  | _, _ => false
  end.

(** A decision on request [id]: an approval that completed, or a denial. *)
Definition decides (id : uuid) : event := λ o a,
  match o, a with
  | TryApprove _ i _, ARow (Some _) => bool_decide (i = id)
  | TryDeny _ i _ _, ARow (Some _) => bool_decide (i = id)
  | RecordApproval _ i _, AProgress p =>
      bool_decide (i = id) && match approved p with Some _ => true | None => false end
  | _, _ => false
  end.

(** The recording of an execution outcome of request [id]. *)
Definition concludes (id : uuid) : event := λ o a,
  match o, a with
  | MarkExecuted _ i _, ARow (Some _) => bool_decide (i = id)
  | MarkFailed _ i _, ARow (Some _) => bool_decide (i = id)
  | _, _ => false
  end.

Ltac crosses_update Hu Hnd t id :=
  unfold try_approve, try_deny, try_begin_execution, mark_executed, mark_failed in Hu;
  match type of Hu with _ = (Some ?r, _) =>
    assert (cr_id r = id) as <-;
    [apply (update_row_id _ _ _ _ _ t id Hu); intros ? Hp; cbn beta in Hp; by bool_to_prop
    |apply (update_row_crosses _ _ _ _ _ _ Hnd Hu); intros ? Hp; cbn beta in Hp; bool_to_prop;
     repeat match goal with H : open_for_decision _ _ = true |- _ =>
       apply open_for_decision_Pending in H as [? ?] end;
     match goal with H : cr_status _ = _ |- _ => rewrite H end; simpl; split; [lia|done]]
  end.

Lemma begins_crosses id : crosses 2 id (begins id).
Proof.
  intros now o s a s' Hnd Hex Hev. destruct o; simpl in *; try done.
  destruct (try_begin_execution tenant id0 s) as [[r|] s1] eqn:Hu; simplify_eq; try done.
  bool_to_prop. subst. crosses_update Hu Hnd tenant id.
Qed.

Lemma concludes_crosses id : crosses 3 id (concludes id).
Proof.
  intros now o s a s' Hnd Hex Hev. destruct o; simpl in *; try done.
  - destruct (mark_executed now tenant id0 outcome s) as [[r|] s1] eqn:Hu; simplify_eq; try done.
    bool_to_prop. subst. crosses_update Hu Hnd tenant id.
  - destruct (mark_failed now tenant id0 error s) as [[r|] s1] eqn:Hu; simplify_eq; try done.
    bool_to_prop. subst. crosses_update Hu Hnd tenant id.
Qed.

Lemma decides_crosses id : crosses 1 id (decides id).
Proof.
  intros now o s a s' Hnd Hex Hev. destruct o; simpl in *; try done.
  - destruct (try_approve now tenant id0 sub s) as [[r|] s1] eqn:Hu; simplify_eq; try done.
    bool_to_prop. subst. crosses_update Hu Hnd tenant id.
  - unfold record_approval in Hex. destruct (find_first _ _) as [r0|]; simplify_eq;
      [|by destruct (bool_decide _)].
    destruct (update_row _ _ _) as [[r|] s1] eqn:Hu; simplify_eq; simpl in Hev;
      [|by destruct (bool_decide _)].
    bool_to_prop. subst. change (ids s) with (ids {| rows := rows s; secrets := secrets s;
      approvals := approvals s |}) in Hnd.
    match type of Hu with update_row _ _ ?s2 = _ => change (NoDup (ids s2)) in Hnd;
      change (¬ reached 1 id s) with (¬ reached 1 id s2) end.
    crosses_update Hu Hnd tenant id.
  - destruct (try_deny now tenant id0 sub reason s) as [[r|] s1] eqn:Hu; simplify_eq; try done.
    bool_to_prop. subst. crosses_update Hu Hnd tenant id.
Qed.

(** ** The approval quorum *)

Definition granted (st : ChangeRequestStatus) : bool :=
  match st with
  | Approved | Executing | Executed | Failed => true
  | Pending | Denied | Expired => false
  end.

(** Enough approvals: the one approver the row names where a single approval is demanded, or as many
    recorded approvers as the request demands. *)
Definition quorum s r : Prop :=
  (cr_required_approvals r = 1 ∧ is_Some (cr_approver_sub r)) ∨
  cr_required_approvals r ≤ Z.of_nat (length (list_approvers (cr_tenant_id r) (cr_id r) s)).

Definition wf s : Prop :=
  NoDup (approvals s) ∧ ∀ r, r ∈ rows s → granted (cr_status r) = true → quorum s r.

Lemma update_row_elem p f s a s' r' :
  update_row p f s = (a, s') → r' ∈ rows s' →
  r' ∈ rows s ∨ ∃ x, x ∈ rows s ∧ p x = true ∧ r' = f x.
Proof.
  unfold update_row. intros Hup Hr'.
  destruct (update_first p f (rows s)) as [[y l]|] eqn:Hu; simplify_eq; [|by left].
  apply update_first_Some in Hu as (l1 & x & l2 & Hrows & Hp & -> & -> & _). rewrite Hrows.
  simpl in Hr'. apply elem_of_app in Hr' as [?|[->|?]%elem_of_cons].
  - left. apply elem_of_app. by left.
  - right. exists x. split; [|done]. apply elem_of_app. right. left.
  - left. apply elem_of_app. right. by right.
Qed.

Lemma update_row_approvals p f s a s' : update_row p f s = (a, s') → approvals s' = approvals s.
Proof.
  unfold update_row. intros. destruct (update_first p f (rows s)) as [[??]|]; by simplify_eq.
Qed.

Lemma existsb_approval t id sub (l : list InMemApproval) :
  existsb (λ a, approval_of t id a && bool_decide (ap_approver_sub a = sub)) l = false →
  {| ap_change_request_id := id; ap_tenant_id := t; ap_approver_sub := sub |} ∉ l.
Proof.
  intros He Hin%list_elem_of_In.
  assert (existsb (λ a, approval_of t id a && bool_decide (ap_approver_sub a = sub)) l = true)
    as Ht; [|congruence].
  apply existsb_exists. eexists. split; [exact Hin|]. unfold approval_of. simpl.
  by rewrite !bool_decide_eq_true_2.
Qed.

(** The ledger grows by at most one approval, never one it already has. *)
Lemma exec_approvals now o s a s' :
  exec now o s = (a, s') →
  approvals s' = approvals s ∨ ∃ x, approvals s' = approvals s ++ [x] ∧ x ∉ approvals s.
Proof.
  destruct o; simpl; intros H; try (simplify_eq; by left);
    try (match type of H with (let '(_, _) := ?e in _) = _ => destruct e eqn:Hu end;
         simplify_eq; left; by eapply update_row_approvals).
  - unfold propose in H. destruct (validate new); simplify_eq; by left.
  - unfold record_approval in H. destruct (find_first _ _) as [r|]; [|simplify_eq; by left].
    destruct (update_row _ _ _) eqn:Hu; simplify_eq.
    apply update_row_approvals in Hu. simpl in Hu. rewrite Hu.
    destruct (_ && _)%bool eqn:Hrec; [|by left]. right.
    eexists. split; [done|]. bool_to_prop. by apply existsb_approval.
  - unfold try_burn_secret in H. destruct (update_first _ _ _) as [[??]|]; simplify_eq; by left.
Qed.

Lemma list_approvers_grow t id s s' x :
  approvals s' = approvals s ∨ approvals s' = approvals s ++ [x] →
  (length (list_approvers t id s) ≤ length (list_approvers t id s'))%nat.
Proof.
  unfold list_approvers. rewrite !length_fmap. intros [->| ->]; [lia|].
  rewrite filter_app, length_app. lia.
Qed.

Lemma quorum_exec now o s a s' r r' :
  exec now o s = (a, s') → quorum s r → frozen r' = frozen r → cr_approver_sub r' = cr_approver_sub r → quorum s' r'.
Proof.
  intros Hex Hq Hf Ha. unfold quorum.
  rewrite Ha, (frozen_required _ _ Hf), (frozen_tenant _ _ Hf), (frozen_id _ _ Hf).
  destruct Hq as [?|Hq]; [by left|]. right. etransitivity; [exact Hq|].
  apply inj_le. destruct (exec_approvals _ _ _ _ _ Hex) as [H|(x & H & _)].
  - by eapply (list_approvers_grow _ _ _ _
      {| ap_change_request_id := 0; ap_tenant_id := ""; ap_approver_sub := "" |}); left.
  - by eapply (list_approvers_grow _ _ _ _ x); right.
Qed.

Lemma exec_granted now o s a s' r' :
  exec now o s = (a, s') → r' ∈ rows s' → granted (cr_status r') = true →
  (∃ r, r ∈ rows s ∧ granted (cr_status r) = true ∧ frozen r' = frozen r ∧ cr_approver_sub r' = cr_approver_sub r) ∨ quorum s' r'.
Proof.
  destruct o; simpl; intros H Hr Hg; try (simplify_eq; eauto 10; done).
  - unfold propose in H. destruct (validate new); simplify_eq; simpl in *; [|eauto 10].
    apply elem_of_app in Hr as [?|Hx%list_elem_of_singleton]; [eauto 10|by subst].
  - destruct (try_approve _ _ _ _ _) as [? s1] eqn:Hu. simplify_eq.
    destruct (update_row_elem _ _ _ _ _ _ Hu Hr) as [?|(x & Hx & Hp & ->)]; [eauto 10|].
    cbn beta in Hp. bool_to_prop. right. left. split; [done|]. by eexists.
  - unfold record_approval in H. destruct (find_first _ _) as [r0|]; [|simplify_eq; eauto 10].
    destruct (update_row _ _ _) as [? s1] eqn:Hu. simplify_eq.
    destruct (update_row_elem _ _ _ _ _ _ Hu Hr) as [?|(x & Hx & Hp & ->)]; [by eauto 10|].
    cbn beta in Hp. bool_to_prop. right. right. apply update_row_approvals in Hu.
    simpl in Hu. unfold list_approvers. rewrite Hu, length_fmap. simpl.
    match goal with H : row_is _ _ _ = true |- _ => apply row_is_spec in H as [-> ->] end. done.
  - destruct (try_deny _ _ _ _ _ _) as [? s1] eqn:Hu. simplify_eq.
    destruct (update_row_elem _ _ _ _ _ _ Hu Hr) as [?|(x & Hx & Hp & ->)]; [eauto 10|done].
  - destruct (try_begin_execution _ _ _) as [? s1] eqn:Hu. simplify_eq.
    destruct (update_row_elem _ _ _ _ _ _ Hu Hr) as [?|(x & Hx & Hp & ->)]; [eauto 10|].
    cbn beta in Hp. bool_to_prop. left. exists x. by rewrite H0.
  - destruct (mark_executed _ _ _ _ _) as [? s1] eqn:Hu. simplify_eq.
    destruct (update_row_elem _ _ _ _ _ _ Hu Hr) as [?|(x & Hx & Hp & ->)]; [eauto 10|].
    cbn beta in Hp. bool_to_prop. left. exists x. by rewrite H0.
  - destruct (mark_failed _ _ _ _ _) as [? s1] eqn:Hu. simplify_eq.
    destruct (update_row_elem _ _ _ _ _ _ Hu Hr) as [?|(x & Hx & Hp & ->)]; [eauto 10|].
    cbn beta in Hp. bool_to_prop. left. exists x. by rewrite H0.
  - unfold try_burn_secret in H. destruct (update_first _ _ _) as [[??]|]; simplify_eq; eauto 10.
Qed.

Lemma exec_wf now o s a s' : wf s → exec now o s = (a, s') → wf s'.
Proof.
  intros [Hnd Hq] Hex. split.
  - destruct (exec_approvals _ _ _ _ _ Hex) as [->|(x & -> & Hx)]; [done|].
    apply NoDup_app. split; [done|]. split; [|apply NoDup_singleton].
    intros y Hy Hyx%list_elem_of_singleton. by subst.
  - intros r' Hr' Hg. destruct (exec_granted _ _ _ _ _ _ Hex Hr' Hg) as [(r & Hr & Hgr & Hf & Ha)|?];
      [|done]. eapply quorum_exec; eauto.
Qed.

Lemma run_wf h s : wf s → wf (run h s).2.
Proof.
  revert s. induction h as [|[now o] h IH]; intros s Hwf; simpl; [done|].
  destruct (exec now o s) as [a s'] eqn:Hex. specialize (IH s' (exec_wf _ _ _ _ _ Hwf Hex)).
  by destruct (run h s').
Qed.

Lemma empty_wf : wf empty.
Proof. split; [constructor|]. intros r Hr. inversion Hr. Qed.

Lemma list_approvers_NoDup t id s : NoDup (approvals s) → NoDup (list_approvers t id s).
Proof.
  intros Hnd. unfold list_approvers. apply NoDup_fmap_2_strong; [|by apply NoDup_filter].
  intros [i1 t1 s1] [i2 t2 s2] [H1 _]%list_elem_of_filter [H2 _]%list_elem_of_filter Heq.
  unfold approval_of in *. simpl in *. bool_to_prop. congruence.
Qed.

(** ** Rows over a whole run *)

Lemma run_row h s r :
  r ∈ rows s →
  ∃ r', r' ∈ rows (run h s).2 ∧ frozen r' = frozen r ∧
        star edge (cr_status r) (cr_status r') ∧
        (is_terminal (cr_status r) = true → r' = r).
Proof.
  revert s r. induction h as [|[now o] h IH]; intros s r Hr; simpl.
  { exists r. repeat split; auto with waygate. }
  destruct (exec now o s) as [a s'] eqn:Hex.
  destruct (exec_row_survives _ _ _ _ _ _ Hex Hr) as (r1 & Hr1 & Hstep).
  destruct (IH s' r1 Hr1) as (r2 & Hr2 & Hf2 & Hs2 & Ht2).
  exists r2. destruct (run h s') as [l s2] eqn:Hrun. simpl in *.
  split; [done|]. split; [by rewrite Hf2, (row_step_frozen _ _ Hstep)|]. split.
  - destruct Hstep as [->|[_ He]]; [done|]. by eapply star_step.
  - intros Ht. assert (r1 = r) as -> by (by eapply row_step_terminal). auto.
Qed.
End Runs.

(** ** A concrete history: a two-approver change taken to its end *)

Definition demo_new (n : Z) : NewChangeRequest string :=
  {| new_tenant_id := "acme"; new_requested_by := "mallory"; new_client_id := None;
     new_action_type := "upstream.create"; new_params := "{}"; new_preview := None;
     new_target_etag := None; new_justification := "rotate the key";
     new_requirement := {| required_approvals := n; eligible_role := "admin";
                           factors := ["mfa"]; cooldown_seconds := None |};
     new_expires_at := 1000 |}.

Definition demo_history : list (time * Op string) :=
  [(1, Propose 7 (demo_new 2)); (2, RecordApproval "acme" 7 "alice");
   (3, RecordApproval "acme" 7 "alice"); (4, RecordApproval "acme" 7 "bob");
   (5, BeginExecution "acme" 7); (6, BeginExecution "acme" 7);
   (7, MarkExecuted "acme" 7 "done"); (8, MarkFailed "acme" 7 "late")].

Definition demo_row (h : list (time * Op string)) : ChangeRequest string :=
  default (new_row Pending 0 0 (demo_new 1)) (head (rows (run h empty).2)).

Example demo_row_executed : cr_status (demo_row demo_history) = Executed.
Proof. reflexivity. Qed.

(** ** Properties *)

(** Lifecycle discipline and frozen intent: in any history of operations, a
    request that exists stays in the store with its captured intent, approval
    requirement and expiry unchanged; its status only moves along pending to
    approved or denied, approved to executing, executing to executed or failed;
    and a request in a terminal status never changes again in any field. *)
Theorem lifecycle_and_frozen_intent {Value} (h : list (time * Op Value)) s r :
  r ∈ rows s →
  ∃ r', r' ∈ rows (run h s).2 ∧ frozen r' = frozen r ∧
        star edge (cr_status r) (cr_status r') ∧
        (is_terminal (cr_status r) = true → r' = r).
Proof. apply run_row. Qed.

Lemma lifecycle_and_frozen_intent_witness :
  ∃ r', r' ∈ rows (run (drop 1 demo_history) (run (take 1 demo_history) empty).2).2
        ∧ frozen r' = frozen (demo_row (take 1 demo_history))
        ∧ star edge Pending (cr_status r').
Proof.
  destruct (lifecycle_and_frozen_intent (drop 1 demo_history)
    (run (take 1 demo_history) empty).2 (demo_row (take 1 demo_history)))
    as (r' & ? & ? & ? & _); [vm_compute; left|].
  exists r'. repeat split; assumption.
Defined.

(** C12. No request is granted below its quorum: after any history from the empty store, for a request
    that is approved, executing, executed or failed there are as many pairwise distinct approvers as it
    demands, each of them recorded in the approval ledger for this request or, on the single-approver
    path, named by the row as its approver. *)
Theorem quorum_enforced {Value} (h : list (time * Op Value)) r :
  let s := (run h empty).2 in
  r ∈ rows s → granted (cr_status r) = true →
  ∃ l, NoDup l ∧ cr_required_approvals r ≤ Z.of_nat (length l) ∧
    ∀ x, x ∈ l → x ∈ list_approvers (cr_tenant_id r) (cr_id r) s ∨ (cr_required_approvals r = 1 ∧ cr_approver_sub r = Some x).
Proof.
  intros s Hr Hg. destruct (run_wf h _ empty_wf) as [Hnd Hq]. destruct (Hq r Hr Hg) as [[H1 [x Hx]]|Hle].
  - exists [x]. rewrite H1. split_and!; [apply NoDup_singleton|done|]. intros y ->%list_elem_of_singleton. by right.
  - exists (list_approvers (cr_tenant_id r) (cr_id r) s). split_and!; [by apply list_approvers_NoDup|done|by left].
Qed.

Lemma quorum_enforced_witness :
  ∃ l, NoDup l ∧ 2 ≤ Z.of_nat (length l) ∧
    ∀ x, x ∈ l → x ∈ list_approvers "acme" 7 (run demo_history empty).2 ∨ (2 = 1 ∧ Some "bob" = Some x).
Proof.
  apply (quorum_enforced demo_history (demo_row demo_history)); [vm_compute; left|reflexivity].
Defined.

(** Single use: in any history whose new requests get fresh ids, each request
    is decided at most once (approved or denied, whichever call gets there
    first), claimed for execution at most once, and its execution outcome is
    recorded at most once. *)
Theorem single_use_transitions {Value} (h : list (time * Op Value)) id :
  NoDup (proposed_ids h) →
  (occurrences (decides id) h empty ≤ 1 ∧ occurrences (begins id) h empty ≤ 1
   ∧ occurrences (concludes id) h empty ≤ 1)%nat.
Proof.
  intros Hnd. assert (fresh_for h empty) by exact Hnd.
  split; [|split]; eapply occurrences_at_most_once;
    eauto using decides_crosses, begins_crosses, concludes_crosses.
Qed.

Lemma single_use_transitions_witness :
  (occurrences (decides 7) demo_history empty ≤ 1
   ∧ occurrences (begins 7) demo_history empty ≤ 1
   ∧ occurrences (concludes 7) demo_history empty ≤ 1)%nat
  ∧ occurrences (begins 7) demo_history empty = 1%nat.
Proof.
  split; [|reflexivity].
  apply (single_use_transitions demo_history 7). vm_compute. repeat constructor.
  intros H. inversion H.
Defined.

(** The maker of a request counts towards its own quorum: no operation
    compares the approver with [requested_by], so a two-approver request can be
    completed by its requester and one other principal. *)
Theorem maker_completes_quorum :
  (run [(1, Propose 7 (demo_new 2)); (2, RecordApproval "acme" 7 "mallory");
        (3, RecordApproval "acme" 7 "bob")] empty).1 !! 2%nat
  = Some (AProgress
      {| collected := 2; required := 2; recorded := true; counted := true;
         approved := Some (set_approved Approved "bob" 3 (new_row Pending 7 1 (demo_new 2))) |}).
Proof. reflexivity. Qed.

(** The in-memory store accepts a second secret for the same request, so
    two retrievals of that request's secret succeed. *)
Theorem memory_second_secret_burns_twice (c1 c2 : bytes) (k : string) :
  (run [(1, Propose 7 (demo_new 2)); (2, StoreSecret "acme" 7 c1 k);
        (3, StoreSecret "acme" 7 c2 k); (4, BurnSecret "acme" 7);
        (5, BurnSecret "acme" 7)] empty).1
  = [AProposed (Ok (new_row Pending 7 1 (demo_new 2))); AUnit (Ok tt); AUnit (Ok tt);
     ASecret (Some {| ciphertext := c1; key_id := k |});
     ASecret (Some {| ciphertext := c2; key_id := k |})].
Proof. reflexivity. Qed.

End ChangeSetRuns.
