(* ===== verification/ChangeSetPg.v ===== *)
(** * The Postgres change-request store

    Model of [PgChangeRequestStore] of crates/waygate-changeset/src/lib.rs over
    the tables of migrations 0039, 0044 and 0045. Statuses are the column's text
    here and are decoded by [from_row]; every statement is one atomic step on the
    tables, and [record_approval] is one step because it locks the request row
    for the whole of its transaction.

    Three conversions of the database are parameters: [to_timestamptz] (the
    timestamp a bound [OffsetDateTime] is stored as), [to_jsonb] (the document a
    bound JSON value is stored as) and [jsonb_text] (the [::text] cast). The
    surrogate key of the approvals table is read by nobody and left out. *)

From S2P Require Import Prelude RustStr ChangeSet ChangeSetMem.

Module ChangeSetPg.
Import ChangeSet.

Section Pg.
Context {Value : Type} (to_timestamptz : time → time) (to_jsonb : Value → Value).

Record SecretRow := {
  sr_tenant_id : string;
  sr_ciphertext : bytes;
  sr_key_id : string;
  sr_retrieved_at : option time;
}.

Record ApprovalRow := {
  ar_change_request_id : uuid;
  ar_tenant_id : string;
  ar_approver_sub : string;
  ar_created_at : time;
}.

(** The tables. [tenants] is the referenced key set of another component. *)
Record Db := {
  tenants : gset string;
  change_requests : gmap uuid (Row Value string);
  change_request_secrets : gmap uuid SecretRow;
  change_request_approvals : list ApprovalRow;
}.

Definition with_requests (db : Db) m : Db :=
  {| tenants := tenants db; change_requests := m;
     change_request_secrets := change_request_secrets db;
     change_request_approvals := change_request_approvals db |}.
Definition with_secret_rows (db : Db) m : Db :=
  {| tenants := tenants db; change_requests := change_requests db;
     change_request_secrets := m;
     change_request_approvals := change_request_approvals db |}.
Definition with_approvals (db : Db) l : Db :=
  {| tenants := tenants db; change_requests := change_requests db;
     change_request_secrets := change_request_secrets db; change_request_approvals := l |}.

Definition empty_db (ts : gset string) : Db :=
  {| tenants := ts; change_requests := ∅; change_request_secrets := ∅;
     change_request_approvals := [] |}.

(** ** Decoding rows *)

Definition status_from_row (status : string) : result ChangeRequestStatus ChangeRequestError :=
  match from_db_str status with
  | Some st => Ok st
  | None => Err (Database (ColumnDecode "status"))
  end.

Definition from_row (r : Row Value string) : result (ChangeRequest Value) ChangeRequestError :=
  let? st := status_from_row (cr_status r) in
  Ok (assign r st (cr_approver_sub r) (cr_denied_reason r) (cr_execution_result r)
        (cr_error_message r) (cr_decided_at r) (cr_executed_at r)).

(** [fetch_all]: the first row that does not decode fails the call. *)
Fixpoint decode_all {A B} (decode : A → result B ChangeRequestError) (l : list A)
  : result (list B) ChangeRequestError :=
  match l with
  | [] => Ok []
  | r :: l' => let? x := decode r in let? xs := decode_all decode l' in Ok (x :: xs)
  end.

(** The [CASE] expressions of the summary queries. *)
Definition sql_bounded (jsonb_text : Value → string) (max : nat) (v : option Value)
  : option Value :=
  match v with
  | None => None
  | Some x => if (len (jsonb_text x) <=? max)%nat then Some x else None
  end.

Definition sql_preview (jsonb_text : Value → string) (v : option Value) : option string :=
  match v with
  | None => None
  | Some x =>
      let text := as_bytes (jsonb_text x) in
      if (char_count text <=? HISTORY_OUTCOME_PREVIEW_CHARS)%nat then Some (jsonb_text x)
      else Some (of_bytes (take_chars HISTORY_OUTCOME_PREVIEW_CHARS text) +:+ "…")
  end.

Definition summary_from_row (jsonb_text : Value → string) (r : Row Value string)
  : result (ChangeRequestSummary Value) ChangeRequestError :=
  let? st := status_from_row (cr_status r) in
  Ok {| sum_id := cr_id r; sum_requested_by := cr_requested_by r;
        sum_action_type := cr_action_type r; sum_justification := cr_justification r;
        sum_binding_code := cr_binding_code r;
        sum_required_approvals := cr_required_approvals r;
        sum_eligible_role := cr_eligible_role r; sum_required_factors := cr_required_factors r;
        sum_cooldown_seconds := cr_cooldown_seconds r; sum_status := st;
        sum_approver_sub := cr_approver_sub r; sum_denied_reason := cr_denied_reason r;
        sum_execution_result :=
          sql_bounded jsonb_text HISTORY_OUTCOME_MAX_BYTES (cr_execution_result r);
        sum_execution_result_preview := sql_preview jsonb_text (cr_execution_result r);
        sum_error_message := cr_error_message r; sum_created_at := cr_created_at r;
        sum_expires_at := cr_expires_at r |}.

Definition status_summary_from_row (jsonb_text : Value → string) (r : Row Value string)
  : result (ChangeRequestStatusSummary Value) ChangeRequestError :=
  let? st := status_from_row (cr_status r) in
  Ok {| st_id := cr_id r; st_requested_by := cr_requested_by r;
        st_action_type := cr_action_type r; st_binding_code := cr_binding_code r;
        st_status := st; st_approver_sub := cr_approver_sub r;
        st_denied_reason := cr_denied_reason r;
        st_execution_result :=
          sql_bounded jsonb_text STATUS_LIST_OUTCOME_MAX_BYTES (cr_execution_result r);
        st_error_message := cr_error_message r; st_expires_at := cr_expires_at r |}.

(** ** Statements

    [now] is the database's [now()], [clock] the gateway's clock. *)

Definition propose (now : time) (id : uuid) (new : NewChangeRequest Value) (db : Db)
  : result (ChangeRequest Value) ChangeRequestError * Db :=
  match validate new with
  | Err e => (Err e, db)
  | Ok _ =>
      let new' := {| new_tenant_id := new_tenant_id new;
                     new_requested_by := new_requested_by new;
                     new_client_id := new_client_id new; new_action_type := new_action_type new;
                     new_params := to_jsonb (new_params new);
                     new_preview := to_jsonb <$> new_preview new;
                     new_target_etag := new_target_etag new;
                     new_justification := new_justification new;
                     new_requirement := new_requirement new;
                     new_expires_at := to_timestamptz (new_expires_at new) |} in
      let r := new_row "pending" id now new' in
      match change_requests db !! id with
      | Some _ => (Err (Database UniqueViolation), db)
      | None =>
          if bool_decide (new_tenant_id new ∈ tenants db)
          then (from_row r, with_requests db (<[id := r]> (change_requests db)))
          else (Err (Database ForeignKeyViolation), db)
      end
  end.

Definition row_where (tenant_id : string) (id : uuid) (db : Db) : option (Row Value string) :=
  match change_requests db !! id with
  | Some r => if bool_decide (cr_tenant_id r = tenant_id) then Some r else None
  | None => None
  end.

Definition get (tenant_id : string) (id : uuid) (db : Db)
  : result (option (ChangeRequest Value)) ChangeRequestError :=
  match row_where tenant_id id db with
  | None => Ok None
  | Some r => let? row := from_row r in Ok (Some row)
  end.

(** The [CASE] over the lifecycle bucket shared by the list queries. *)
Definition sql_lifecycle (now : time) (bucket : option string) (r : Row Value string) : bool :=
  match bucket with
  | None => true
  | Some b =>
      if bool_decide (b = "pending")
      then bool_decide (cr_status r = "pending") && (now <? cr_expires_at r)
      else if bool_decide (b = "expired")
      then bool_decide (cr_status r = "pending") && (cr_expires_at r <=? now)
      else if bool_decide (b = "decided") then bool_decide (cr_status r ≠ "pending")
      else true
  end.

Definition table_rows (db : Db) : list (Row Value string) := (map_to_list (change_requests db)).*2.

Definition select_page (p : Row Value string → bool) (limit offset : Z) (db : Db)
  : list (Row Value string) :=
  page offset limit (merge_sort newest_first (filter (λ r, p r = true) (table_rows db))).

Definition list_rows (now : time) (tenant_id : string)
    (lifecycle : option ChangeRequestLifecycle) (limit offset : Z) (db : Db)
  : result (list (ChangeRequest Value)) ChangeRequestError :=
  decode_all from_row
    (select_page (λ r, bool_decide (cr_tenant_id r = tenant_id)
                       && sql_lifecycle now (as_sql_str <$> lifecycle) r)
       (Z.min limit MAX_LIST_LIMIT) offset db).

Definition count_pending_up_to (now : time) (tenant_id : string) (limit : Z) (db : Db) : Z :=
  Z.of_nat (length (take (Z.to_nat (Z.min limit MAX_LIST_LIMIT))
    (filter (λ r, ((bool_decide (cr_tenant_id r = tenant_id)
                    && bool_decide (cr_status r = "pending"))
                   && (now <? cr_expires_at r))%bool = true) (table_rows db)))).

Definition list_summaries (jsonb_text : Value → string) (now : time) (tenant_id : string)
    (lifecycle : option ChangeRequestLifecycle) (limit offset : Z) (db : Db)
  : result (list (ChangeRequestSummary Value)) ChangeRequestError :=
  decode_all (summary_from_row jsonb_text)
    (select_page (λ r, bool_decide (cr_tenant_id r = tenant_id)
                       && sql_lifecycle now (as_sql_str <$> lifecycle) r)
       (Z.min limit MAX_LIST_LIMIT) offset db).

Definition list_for_requester (jsonb_text : Value → string) (now : time)
    (tenant_id requested_by : string) (lifecycle : option ChangeRequestLifecycle)
    (limit offset : Z) (db : Db)
  : result (list (ChangeRequestStatusSummary Value)) ChangeRequestError :=
  decode_all (status_summary_from_row jsonb_text)
    (select_page (λ r, (bool_decide (cr_tenant_id r = tenant_id)
                        && bool_decide (cr_requested_by r = requested_by))
                       && sql_lifecycle now (as_sql_str <$> lifecycle) r)
       limit offset db).

(** [UPDATE change_requests SET .. WHERE id = $1 AND tenant_id = $2 AND cond
    RETURNING ..] with [fetch_optional]. *)
Definition update_where (tenant_id : string) (id : uuid) (cond : Row Value string → bool)
    (f : Row Value string → Row Value string) (db : Db)
  : result (option (ChangeRequest Value)) ChangeRequestError * Db :=
  match row_where tenant_id id db with
  | None => (Ok None, db)
  | Some r =>
      if cond r
      then (let? row := from_row (f r) in Ok (Some row),
            with_requests db (<[id := f r]> (change_requests db)))
      else (Ok None, db)
  end.

(** [status = 'pending' AND expires_at > now()] *)
Definition sql_open (now : time) (r : Row Value string) : bool :=
  bool_decide (cr_status r = "pending") && (now <? cr_expires_at r).

Definition try_approve (now : time) (tenant_id : string) (id : uuid) (approver_sub : string) :=
  update_where tenant_id id (λ r, sql_open now r && (cr_required_approvals r =? 1))
    (set_approved "approved" approver_sub now).

Definition conflicts (id : uuid) (sub : string) (a : ApprovalRow) : bool :=
  bool_decide (ar_change_request_id a = id) && bool_decide (ar_approver_sub a = sub).

Definition record_approval (clock now : time) (tenant_id : string) (id : uuid)
    (approver_sub : string) (db : Db)
  : result (ApprovalProgress Value) ChangeRequestError * Db :=
  match row_where tenant_id id db with
  | None => (Ok no_progress, db)
  | Some gate =>
      let counted := bool_decide (cr_status gate = "pending") && (clock <? cr_expires_at gate) in
      let recorded := counted
                      && negb (existsb (conflicts id approver_sub) (change_request_approvals db)) in
      let db1 := if recorded
                 then with_approvals db (change_request_approvals db ++
                        [{| ar_change_request_id := id; ar_tenant_id := tenant_id;
                            ar_approver_sub := approver_sub; ar_created_at := now |}])
                 else db in
      let collected := Z.of_nat (length (filter (λ a, ar_change_request_id a = id)
                                           (change_request_approvals db1))) in
      match update_where tenant_id id
              (λ r, sql_open now r && (cr_required_approvals r <=? collected))
              (set_approved "approved" approver_sub now) db1 with
      | (Ok approved, db2) =>
          (Ok {| collected := collected; required := cr_required_approvals gate;
                 recorded := recorded; counted := counted; approved := approved |}, db2)
      | (Err e, _) => (Err e, db)   (* the transaction is rolled back *)
      end
  end.

Definition older_first (a b : ApprovalRow) : Prop := ar_created_at a ≤ ar_created_at b.
#[export] Instance older_first_dec a b : Decision (older_first a b).
Proof. unfold older_first. apply _. Defined.

Definition list_approvers (tenant_id : string) (id : uuid) (db : Db) : list string :=
  ar_approver_sub <$> merge_sort older_first
    (filter (λ a, ar_change_request_id a = id ∧ ar_tenant_id a = tenant_id)
       (change_request_approvals db)).

Definition try_deny (now : time) (tenant_id : string) (id : uuid) (approver_sub reason : string) :=
  update_where tenant_id id (sql_open now) (set_denied "denied" approver_sub reason now).

Definition try_begin_execution (tenant_id : string) (id : uuid) :=
  update_where tenant_id id (λ r, bool_decide (cr_status r = "approved"))
    (set_executing "executing").

Definition mark_executed (now : time) (tenant_id : string) (id : uuid) (outcome : Value) :=
  update_where tenant_id id (λ r, bool_decide (cr_status r = "executing"))
    (set_executed "executed" (to_jsonb outcome) now).

Definition mark_failed (now : time) (tenant_id : string) (id : uuid) (error : string) :=
  update_where tenant_id id (λ r, bool_decide (cr_status r = "executing"))
    (set_failed "failed" error now).

Definition store_secret (tenant_id : string) (id : uuid) (ciphertext : bytes) (key : string)
    (db : Db) : result unit ChangeRequestError * Db :=
  match change_request_secrets db !! id with
  | Some _ => (Err (Database UniqueViolation), db)
  | None =>
      match change_requests db !! id with
      | None => (Err (Database ForeignKeyViolation), db)
      | Some _ =>
          (Ok tt, with_secret_rows db (<[id := {| sr_tenant_id := tenant_id;
             sr_ciphertext := ciphertext; sr_key_id := key; sr_retrieved_at := None |}]>
             (change_request_secrets db)))
      end
  end.

Definition secret_of (x : SecretRow) : StoredSecret :=
  {| ciphertext := sr_ciphertext x; key_id := sr_key_id x |}.

Definition try_burn_secret (now : time) (tenant_id : string) (id : uuid) (db : Db)
  : option StoredSecret * Db :=
  match change_request_secrets db !! id with
  | Some x =>
      if (bool_decide (sr_tenant_id x = tenant_id) && bool_decide (sr_retrieved_at x = None))%bool
      then (Some (secret_of x),
            with_secret_rows db (<[id := {| sr_tenant_id := sr_tenant_id x;
              sr_ciphertext := sr_ciphertext x; sr_key_id := sr_key_id x;
              sr_retrieved_at := Some now |}]> (change_request_secrets db)))
      else (None, db)
  | None => (None, db)
  end.

Definition get_secret (tenant_id : string) (id : uuid) (db : Db) : option StoredSecret :=
  match change_request_secrets db !! id with
  | Some x => if bool_decide (sr_tenant_id x = tenant_id) then Some (secret_of x) else None
  | None => None
  end.

(** ** The operations as values, with the gateway's clock and the database's *)

Abbreviation Op := (ChangeSetMem.Op Value).
Abbreviation Answer := (ChangeSetMem.Answer Value).

Definition answer {A} (wrap : A → Answer) (x : result A ChangeRequestError * Db)
  : result Answer ChangeRequestError * Db :=
  (match x.1 with Ok a => Ok (wrap a) | Err e => Err e end, x.2).

Definition exec (clock now : time) (o : Op) (db : Db) : result Answer ChangeRequestError * Db :=
  match o with
  | ChangeSetMem.Propose id new => answer (λ r, ChangeSetMem.AProposed (Ok r)) (propose now id new db)
  | ChangeSetMem.Get t id => answer ChangeSetMem.ARow (get t id db, db)
  | ChangeSetMem.List t l limit offset =>
      answer ChangeSetMem.ARows (list_rows now t l limit offset db, db)
  | ChangeSetMem.CountPending t limit =>
      (Ok (ChangeSetMem.ACount (count_pending_up_to now t limit db)), db)
  | ChangeSetMem.TryApprove t id sub => answer ChangeSetMem.ARow (try_approve now t id sub db)
  | ChangeSetMem.RecordApproval t id sub =>
      answer ChangeSetMem.AProgress (record_approval clock now t id sub db)
  | ChangeSetMem.ListApprovers t id => (Ok (ChangeSetMem.ASubs (list_approvers t id db)), db)
  | ChangeSetMem.TryDeny t id sub reason => answer ChangeSetMem.ARow (try_deny now t id sub reason db)
  | ChangeSetMem.BeginExecution t id => answer ChangeSetMem.ARow (try_begin_execution t id db)
  | ChangeSetMem.MarkExecuted t id v => answer ChangeSetMem.ARow (mark_executed now t id v db)
  | ChangeSetMem.MarkFailed t id e => answer ChangeSetMem.ARow (mark_failed now t id e db)
  | ChangeSetMem.StoreSecret t id c k =>
      answer (λ x, ChangeSetMem.AUnit (Ok x)) (store_secret t id c k db)
  | ChangeSetMem.BurnSecret t id =>
      let '(r, db') := try_burn_secret now t id db in (Ok (ChangeSetMem.ASecret r), db')
  | ChangeSetMem.GetSecret t id => (Ok (ChangeSetMem.ASecret (get_secret t id db)), db)
  end.

(** A history of calls with both clocks' readings. *)
Fixpoint run (h : list (time * time * Op)) (db : Db)
  : list (result Answer ChangeRequestError) * Db :=
  match h with
  | [] => ([], db)
  | (clock, now, o) :: h' =>
      let '(a, db') := exec clock now o db in
      let '(l, db'') := run h' db' in (a :: l, db'')
  end.

End Pg.
Arguments Db Value : clear implicits.

End ChangeSetPg.
