(* ===== verification/ChangeSetRefine.v ===== *)
(** * The Postgres store refines the in-memory store

    The abstract specification of a change-request store is the in-memory one
    ([ChangeSetMem]). A relation between tables and in-memory state is preserved
    by every operation, every call that the database accepts gives the same
    answer, and a refused call changes nothing; so every property of histories
    proved for the specification holds of the Postgres store. *)

From S2P Require Import Prelude RustStr ChangeSet ChangeSetMem ChangeSetRuns ChangeSetPg.

Module ChangeSetRefine.
Import ChangeSetRuns.
Module Pg := ChangeSetPg.

Section Refine.
Context {Value : Type} (to_timestamptz : time → time) (to_jsonb : Value → Value).
Implicit Types (db : Pg.Db Value) (s : Store Value) (r : ChangeRequest Value).

(** ** The relation *)

Definition encode r : Row Value string :=
  assign r (as_db_str (cr_status r)) (cr_approver_sub r) (cr_denied_reason r)
    (cr_execution_result r) (cr_error_message r) (cr_decided_at r) (cr_executed_at r).

Definition forget_time (a : Pg.ApprovalRow) : InMemApproval :=
  {| ap_change_request_id := Pg.ar_change_request_id a; ap_tenant_id := Pg.ar_tenant_id a;
     ap_approver_sub := Pg.ar_approver_sub a |}.

Definition same_secret (x : Pg.SecretRow) (y : InMemSecret) : Prop :=
  Pg.sr_tenant_id x = sec_tenant_id y ∧ Pg.sr_ciphertext x = sec_ciphertext y ∧
  Pg.sr_key_id x = sec_key_id y ∧
  sec_retrieved y = bool_decide (Pg.sr_retrieved_at x ≠ None).

Record related db s : Prop := {
  rel_ids : NoDup (ids s);
  rel_rows : ∀ id x, Pg.change_requests db !! id = Some x ↔
                     ∃ r, r ∈ rows s ∧ cr_id r = id ∧ x = encode r;
  rel_secret_ids : NoDup (sec_change_request_id <$> secrets s);
  rel_secrets_in : ∀ y, y ∈ secrets s → ∃ x,
      Pg.change_request_secrets db !! sec_change_request_id y = Some x ∧ same_secret x y;
  rel_secrets_out : ∀ id x, Pg.change_request_secrets db !! id = Some x → ∃ y,
      y ∈ secrets s ∧ sec_change_request_id y = id ∧ same_secret x y;
  rel_approvals : forget_time <$> Pg.change_request_approvals db = approvals s;
  rel_approval_rows : ∀ a, a ∈ approvals s → ∃ r,
      r ∈ rows s ∧ cr_id r = ap_change_request_id a ∧ cr_tenant_id r = ap_tenant_id a;
}.

Lemma from_row_encode r : Pg.from_row (encode r) = Ok r.
Proof.
  unfold Pg.from_row, Pg.status_from_row, encode. simpl. rewrite from_as_db_str. by destruct r.
Qed.

Lemma as_db_str_decide st st' : bool_decide (as_db_str st = as_db_str st') = bool_decide (st = st').
Proof. apply bool_decide_ext. split; [apply as_db_str_inj|by intros ->]. Qed.

Lemma row_is_unique s t id r r' :
  NoDup (ids s) → r ∈ rows s → r' ∈ rows s → row_is t id r = true → row_is t id r' = true → r = r'.
Proof.
  intros ??? [_ ?]%row_is_spec [_ ?]%row_is_spec. eapply ids_unique; eauto. congruence.
Qed.

Lemma find_row s t id r :
  NoDup (ids s) → r ∈ rows s → row_is t id r = true → find_first (row_is t id) (rows s) = Some r.
Proof. intros. apply find_first_unique; auto. intros. eapply row_is_unique; eauto. Qed.

Lemma row_is_true t id r : cr_tenant_id r = t → cr_id r = id → row_is t id r = true.
Proof. intros. unfold row_is. by rewrite !bool_decide_eq_true_2. Qed.

Lemma row_where_related db s t id :
  related db s → Pg.row_where t id db = encode <$> find_first (row_is t id) (rows s).
Proof.
  intros Hrel. unfold Pg.row_where. destruct (find_first (row_is t id) (rows s)) as [r|] eqn:Hf.
  - apply find_first_Some in Hf as [Hr [Ht Hid]%row_is_spec].
    assert (Pg.change_requests db !! id = Some (encode r)) as -> by (apply (rel_rows _ _ Hrel); eauto).
    simpl. by rewrite bool_decide_eq_true_2.
  - destruct (Pg.change_requests db !! id) as [x|] eqn:Hx; [|done].
    apply (rel_rows _ _ Hrel) in Hx as (r & Hr & Hid & ->). simpl.
    case_bool_decide as Ht; [|done]. apply find_first_None in Hf. rewrite Forall_forall in Hf.
    apply Hf in Hr. rewrite row_is_true in Hr; done.
Qed.

(** ** Guarded updates *)

Lemma update_first_absent {A} (p : A → bool) f l :
  (∀ x, x ∈ l → p x = false) → update_first p f l = None.
Proof. intros H. apply update_first_None. by apply Forall_forall. Qed.

Lemma elem_of_middle {A} (x : A) l1 l2 : x ∈ l1 ++ x :: l2.
Proof. apply elem_of_app. right. left. Qed.

Lemma update_first_ext {A} (p q : A → bool) f l :
  (∀ x, p x = q x) → update_first p f l = update_first q f l.
Proof. intros H. induction l as [|x l IH]; [done|]. simpl. by rewrite H, IH. Qed.

Lemma update_row_ext (p q : ChangeRequest Value → bool) f s :
  (∀ x, p x = q x) → update_row p f s = update_row q f s.
Proof. intros H. unfold update_row. by rewrite (update_first_ext p q). Qed.

(** Replacing one row, its key unchanged, in both representations. *)
Lemma replace_related db s l1 r l2 r' :
  related db s → rows s = l1 ++ r :: l2 → frozen r' = frozen r →
  related (Pg.with_requests db (<[cr_id r := encode r']> (Pg.change_requests db)))
          (with_rows s (l1 ++ r' :: l2)).
Proof.
  intros Hrel Hrows Hfr. pose proof (frozen_id _ _ Hfr) as Hid.
  assert (ids (with_rows s (l1 ++ r' :: l2)) = ids s) as Hids.
  { unfold ids. simpl. rewrite Hrows, !fmap_app, !fmap_cons. by rewrite Hid. }
  assert (∀ z, cr_id z = cr_id r → z ∈ l1 ∨ z ∈ l2 → False) as Hother.
  { intros z Hz Hin. pose proof (rel_ids _ _ Hrel) as Hnd. unfold ids in Hnd.
    rewrite Hrows, fmap_app, fmap_cons in Hnd.
    apply NoDup_app in Hnd as (_ & Hd & [Hn _]%NoDup_cons). destruct Hin as [Hin|Hin].
    - apply (Hd (cr_id z)); [by apply list_elem_of_fmap_2|]. rewrite Hz. left.
    - apply Hn. rewrite <- Hz. by apply list_elem_of_fmap_2. }
  destruct Hrel as [Hnd Hr Hsn Hsi Hso Ha Har]. split; try done.
  - by rewrite Hids.
  - intros id x. simpl. destruct (decide (id = cr_id r)) as [->|Hne].
    + rewrite lookup_insert_eq. split.
      * intros ?; simplify_eq. exists r'. split; [apply elem_of_middle|done].
      * intros (z & Hz & Hzid & ->). do 2 f_equal.
        apply elem_of_app in Hz as [Hz|[->|Hz]%elem_of_cons]; [|done|]; destruct (Hother z); auto.
    + rewrite lookup_insert_ne by done. rewrite Hr, Hrows. split.
      * intros (z & Hz & Hzid & ->). exists z. split; [|done].
        rewrite elem_of_app, elem_of_cons in *. destruct Hz as [?|[->|?]]; [by left|done|by right;right].
      * intros (z & Hz & Hzid & ->). exists z. split; [|done].
        rewrite elem_of_app, elem_of_cons in *. destruct Hz as [?|[->|?]]; [by left|congruence|by right;right].
  - intros a Ha'. destruct (Har a Ha') as (z & Hz & ? & ?). simpl.
    rewrite Hrows, elem_of_app, elem_of_cons in Hz. destruct Hz as [?|[->|?]].
    + exists z. split; [apply elem_of_app; by left|done].
    + exists r'. split; [apply elem_of_middle|]. split; [congruence|].
      by rewrite (frozen_tenant _ _ Hfr).
    + exists z. split; [apply elem_of_app; right; by right|done].
Qed.

Lemma update_where_related db s t id cond f p g :
  related db s → (∀ r, cond (encode r) = p r) → (∀ r, f (encode r) = encode (g r)) →
  (∀ r, frozen (g r) = frozen r) →
  ∃ db', Pg.update_where t id cond f db
         = (Ok (update_row (λ r, row_is t id r && p r) g s).1, db')
         ∧ related db' (update_row (λ r, row_is t id r && p r) g s).2.
Proof.
  intros Hrel Hc Hf Hfr. unfold Pg.update_where, update_row.
  rewrite (row_where_related _ s) by done.
  destruct (find_first (row_is t id) (rows s)) as [r|] eqn:Hfind; simpl.
  - apply find_first_Some in Hfind as [Hr His]. rewrite Hc, Hf. destruct (p r) eqn:Hp.
    + destruct (update_first _ g (rows s)) as [[y l]|] eqn:Hu.
      * apply update_first_Some in Hu as (l1 & x & l2 & Hrows & Hpx & -> & -> & _).
        apply andb_true_iff in Hpx as [Hix _].
        assert (x = r) as ->. { eapply row_is_unique; eauto using rel_ids.
          rewrite Hrows. apply elem_of_middle. }
        rewrite from_row_encode. eexists. split; [done|].
        destruct (row_is_spec _ _ _ His) as [_ <-]. by apply replace_related.
      * apply update_first_None in Hu. rewrite Forall_forall in Hu. apply Hu in Hr.
        by rewrite His, Hp in Hr.
    + rewrite update_first_absent; [by eauto|]. intros z Hz.
      destruct (row_is t id z) eqn:Hiz; [|done].
      by assert (z = r) as -> by (eapply row_is_unique; eauto using rel_ids).
  - rewrite update_first_absent; [by eauto|]. intros z Hz.
    apply find_first_None in Hfind. rewrite Forall_forall in Hfind. by rewrite Hfind.
Qed.

(** ** Queries *)

Lemma table_rows_related db s : related db s → Pg.table_rows db ≡ₚ encode <$> rows s.
Proof.
  intros Hrel. unfold Pg.table_rows.
  assert (map_to_list (Pg.change_requests db) ≡ₚ (λ r, (cr_id r, encode r)) <$> rows s) as Hp.
  { apply NoDup_Permutation.
    - apply NoDup_map_to_list.
    - apply (NoDup_fmap_1 fst). rewrite <- list_fmap_compose. apply (rel_ids _ _ Hrel).
    - intros [id x]. rewrite elem_of_map_to_list, (rel_rows _ _ Hrel), list_elem_of_fmap.
      split; intros (r & H); exists r; intuition congruence. }
  rewrite Hp, <- list_fmap_compose. done.
Qed.

Lemma filter_encode (P : Row Value string → bool) (l : list (ChangeRequest Value)) :
  filter (λ x, P x = true) (encode <$> l) = encode <$> filter (λ r, P (encode r) = true) l.
Proof.
  induction l as [|r l IH]; [done|]. rewrite fmap_cons, !filter_cons, IH. by case_decide.
Qed.

Lemma StronglySorted_encode (l : list (ChangeRequest Value)) :
  StronglySorted newest_first l → StronglySorted newest_first (encode <$> l).
Proof.
  induction 1 as [|r l _ IH Hall]; [constructor|]. constructor; [done|].
  apply Forall_fmap. eapply Forall_impl; [exact Hall|done].
Qed.

Lemma select_page_related db s P Q limit offset :
  related db s → (∀ r, P (encode r) = true ↔ Q r) →
  ∀ `{∀ r, Decision (Q r)},
  Pg.select_page P limit offset db
  = encode <$> page offset limit (merge_sort newest_first (filter Q (rows s))).
Proof.
  intros Hrel HPQ Hdec. unfold Pg.select_page, page. rewrite fmap_take, fmap_drop. do 2 f_equal.
  assert (filter (λ x, P x = true) (Pg.table_rows db) ≡ₚ encode <$> filter Q (rows s)) as Hperm.
  { rewrite (table_rows_related _ s), filter_encode by done.
    by rewrite (list_filter_iff _ Q _ HPQ). }
  apply (StronglySorted_unique_strong newest_first).
  - intros x1 x2 H1 H2 H12 H21. rewrite !merge_sort_Permutation, Hperm in *.
    apply list_elem_of_fmap in H1 as (r1 & -> & [_ ?]%list_elem_of_filter).
    apply list_elem_of_fmap in H2 as (r2 & -> & [_ ?]%list_elem_of_filter).
    f_equal. eapply ids_unique; eauto using rel_ids. exact (newest_first_antisymm _ _ H12 H21).
  - apply StronglySorted_merge_sort; apply _.
  - apply StronglySorted_encode, StronglySorted_merge_sort; apply _.
  - by rewrite !merge_sort_Permutation, Hperm.
Qed.

Lemma decode_all_encode {B} (decode : Row Value string → result B ChangeRequestError)
    (view : ChangeRequest Value → B) l :
  (∀ r, decode (encode r) = Ok (view r)) → Pg.decode_all decode (encode <$> l) = Ok (view <$> l).
Proof.
  intros H. induction l as [|r l IH]; [done|]. rewrite !fmap_cons. simpl. by rewrite H, IH.
Qed.

Lemma sql_lifecycle_encode now l r :
  Pg.sql_lifecycle now (as_sql_str <$> l) (encode r) = in_lifecycle now l r.
Proof.
  destruct l as [[]|]; [..|done]; simpl;
    change "pending" with (as_db_str Pending); rewrite ?as_db_str_decide; try done.
  apply bool_decide_ext. split; intros Hn He; apply Hn; [by rewrite He|by apply as_db_str_inj].
Qed.

Lemma sql_open_encode now r : Pg.sql_open now (encode r) = open_for_decision now r.
Proof.
  unfold Pg.sql_open, open_for_decision. simpl. change "pending" with (as_db_str Pending).
  by rewrite as_db_str_decide.
Qed.

(** ** The approval ledger *)

Definition ledger_of (id : uuid) (t : string) (l : list Pg.ApprovalRow) : Prop :=
  ∀ a, a ∈ l → Pg.ar_change_request_id a = id → Pg.ar_tenant_id a = t.

Lemma ledger_related db s t id r :
  related db s → r ∈ rows s → row_is t id r = true →
  ledger_of id t (Pg.change_request_approvals db).
Proof.
  intros Hrel Hr [Ht Hid]%row_is_spec a Ha Hcr.
  destruct (rel_approval_rows _ _ Hrel (forget_time a)) as (r' & Hr' & Hid' & Ht').
  { rewrite <- (rel_approvals _ _ Hrel). by apply list_elem_of_fmap_2. }
  simpl in *. assert (r' = r) as ->; [|congruence].
  eapply ids_unique; eauto using rel_ids. congruence.
Qed.

Lemma collected_related id t l :
  ledger_of id t l →
  length (filter (λ a, Pg.ar_change_request_id a = id) l)
  = length (filter (λ a, approval_of t id a = true) (forget_time <$> l)).
Proof.
  intros Hl. induction l as [|a l IH]; [done|]. rewrite fmap_cons, !filter_cons.
  assert (ledger_of id t l) as Hl' by (intros x ??; apply Hl; [by right|done]).
  specialize (IH Hl'). unfold approval_of. simpl.
  destruct (decide (Pg.ar_change_request_id a = id)) as [He|He].
  - rewrite (Hl a) by (done || left). rewrite He, !bool_decide_eq_true_2 by done.
    simpl. unfold approval_of in IH. by rewrite IH.
  - rewrite bool_decide_eq_false_2 by done. exact IH.
Qed.

Lemma existsb_related id t sub l :
  ledger_of id t l →
  existsb (Pg.conflicts id sub) l
  = existsb (λ a, approval_of t id a && bool_decide (ap_approver_sub a = sub)) (forget_time <$> l).
Proof.
  intros Hl. induction l as [|a l IH]; [done|]. simpl.
  assert (ledger_of id t l) as Hl' by (intros x ??; apply Hl; [by right|done]).
  rewrite (IH Hl'). f_equal. unfold Pg.conflicts, approval_of. simpl.
  destruct (decide (Pg.ar_change_request_id a = id)) as [He|He].
  - rewrite (Hl a), He by (done || left).
    by rewrite (bool_decide_eq_true_2 (id = id)), (bool_decide_eq_true_2 (t = t)).
  - by rewrite !(bool_decide_eq_false_2 (Pg.ar_change_request_id a = id)) by done.
Qed.

Lemma record_ledger db s t id sub now r :
  related db s → r ∈ rows s → row_is t id r = true →
  related (Pg.with_approvals db (Pg.change_request_approvals db ++
             [{| Pg.ar_change_request_id := id; Pg.ar_tenant_id := t;
                 Pg.ar_approver_sub := sub; Pg.ar_created_at := now |}]))
    {| rows := rows s; secrets := secrets s;
       approvals := approvals s ++ [{| ap_change_request_id := id; ap_tenant_id := t;
                                       ap_approver_sub := sub |}] |}.
Proof.
  intros Hrel Hr [Ht Hid]%row_is_spec. destruct Hrel as [Hnd Hro Hsn Hsi Hso Ha Har].
  split; try done; simpl.
  - by rewrite fmap_app, Ha.
  - intros a [?|Hx%list_elem_of_singleton]%elem_of_app; [by apply Har|]. subst a. by exists r.
Qed.

Lemma record_approval_related now t id sub db s :
  related db s →
  ∃ db', Pg.record_approval now now t id sub db = (Ok (record_approval now t id sub s).1, db')
         ∧ related db' (record_approval now t id sub s).2.
Proof.
  intros Hrel. unfold Pg.record_approval, record_approval.
  rewrite (row_where_related _ s) by done.
  destruct (find_first (row_is t id) (rows s)) as [r|] eqn:Hfind; simpl; [|by eauto].
  apply find_first_Some in Hfind as [Hr His].
  pose proof (ledger_related _ _ _ _ _ Hrel Hr His) as Hled.
  assert (bool_decide (as_db_str (cr_status r) = "pending") && (now <? cr_expires_at r)
          = open_for_decision now r)%bool as -> by apply sql_open_encode.
  rewrite (existsb_related _ t), (rel_approvals _ s) by done.
  set (recorded := (open_for_decision now r && negb _)%bool).
  match goal with |- context [update_row _ _ ?x] => set (s1 := x) end.
  match goal with |- context [Pg.update_where _ _ _ _ ?d] => set (db1 := d) end.
  assert (related db1 s1) as Hrel1.
  { subst db1 s1. destruct recorded; [by eapply record_ledger|by destruct s]. }
  assert (ledger_of id t (Pg.change_request_approvals db1)) as Hled1 by (eapply ledger_related; eauto).
  rewrite (collected_related _ t), (rel_approvals _ s1) by done.
  change (approvals s1) with (if recorded then approvals s ++ [{| ap_change_request_id := id;
    ap_tenant_id := t; ap_approver_sub := sub |}] else approvals s).
  set (n := Z.of_nat _).
  destruct (update_where_related db1 s1 t id
    (λ x, Pg.sql_open now x && (cr_required_approvals x <=? n))
    (set_approved "approved" sub now)
    (λ r, open_for_decision now r && (cr_required_approvals r <=? n))
    (set_approved Approved sub now)) as (db' & Hup & Hrel'); try done.
  { intros z. by rewrite sql_open_encode. }
  rewrite Hup.
  rewrite (update_row_ext (λ r, row_is t id r && open_for_decision now r
      && (cr_required_approvals r <=? n))
    (λ r, row_is t id r && (open_for_decision now r && (cr_required_approvals r <=? n))))
    by (intros z; by rewrite andb_assoc).
  destruct (update_row _ _ s1) as [a s2]. by eauto.
Qed.

(** ** Proposals and secrets *)

(** Errors other than a row that fails to decode. *)
Definition refusal (e : ChangeRequestError) : bool :=
  match e with Database (ColumnDecode _) => false | _ => true end.

Lemma validate_refusal (new : NewChangeRequest Value) e : validate new = Err e → refusal e = true.
Proof. unfold validate. intros H. by repeat (case_match; simplify_eq/=). Qed.

(** Operations whose values the database stores unchanged. *)
Definition representable (o : Op Value) : Prop :=
  match o with
  | Propose _ new => to_timestamptz (new_expires_at new) = new_expires_at new
                     ∧ to_jsonb (new_params new) = new_params new
                     ∧ to_jsonb <$> new_preview new = new_preview new
  | MarkExecuted _ _ v => to_jsonb v = v
  | _ => True
  end.

Lemma encode_new_row id now new :
  encode (new_row Pending id now new) = new_row "pending" id now new.
Proof. done. Qed.

Lemma propose_related now id new db s :
  related db s → representable (Propose id new) →
  match Pg.propose to_timestamptz to_jsonb now id new db with
  | (Ok row, db') => propose now id new s = (Ok row, with_rows s (rows s ++ [row]))
                     ∧ cr_id row = id ∧ id ∉ ids s
                     ∧ related db' (with_rows s (rows s ++ [row]))
  | (Err e, db') => refusal e = true ∧ db' = db
  end.
Proof.
  intros Hrel (Ht & Hp & Hv). unfold Pg.propose, propose.
  destruct (validate new) as [[]|e] eqn:Hval; [|eauto using validate_refusal].
  rewrite Ht, Hp, Hv. destruct new as [n1 n2 n3 n4 n5 n6 n7 n8 n9 n10]. simpl in *.
  set (new := Build_NewChangeRequest _ _ _ _ _ _ _ _ _ _).
  destruct (Pg.change_requests db !! id) as [x|] eqn:Hx; [done|].
  case_bool_decide; [|done].
  rewrite <- encode_new_row, from_row_encode. split; [done|]. split; [done|].
  assert (id ∉ ids s) as Hid.
  { intros (r & Hid & Hr)%list_elem_of_fmap. 
    assert (Pg.change_requests db !! id = Some (encode r)) as Hy
      by (apply (rel_rows _ _ Hrel); eauto). congruence. }
  split; [done|]. destruct Hrel as [Hnd Hro Hsn Hsi Hso Ha Har]. split; try done; simpl.
  - unfold ids. simpl. rewrite fmap_app. apply NoDup_app. split; [done|].
    split; [|apply NoDup_singleton]. intros z Hz Hzid%list_elem_of_singleton. by subst z.
  - intros i y. destruct (decide (i = id)) as [->|Hne].
    + rewrite lookup_insert_eq. split.
      * intros ?; simplify_eq. exists (new_row Pending id now new).
        split; [apply elem_of_app; right; left|done].
      * intros (z & [Hz|Hz%list_elem_of_singleton]%elem_of_app & Hzid & ->); [|by subst z].
        destruct Hid. rewrite <- Hzid. by apply list_elem_of_fmap_2.
    + rewrite lookup_insert_ne, Hro by done. split.
      * intros (z & Hz & Hzid & ->). exists z. split; [apply elem_of_app; by left|done].
      * intros (z & [Hz|Hz%list_elem_of_singleton]%elem_of_app & Hzid & ->); [by exists z|].
        subst z. by destruct Hne.
  - intros a Ha'. destruct (Har a Ha') as (z & Hz & ?). exists z.
    split; [apply elem_of_app; by left|done].
Qed.

Lemma secret_unique s y y' :
  NoDup (sec_change_request_id <$> secrets s) → y ∈ secrets s → y' ∈ secrets s →
  sec_change_request_id y = sec_change_request_id y' → y = y'.
Proof.
  intros Hnd [i Hi]%list_elem_of_lookup [j Hj]%list_elem_of_lookup Heq.
  assert (i = j) as ->; [|congruence].
  apply (NoDup_lookup _ i j (sec_change_request_id y') Hnd);
    rewrite list_lookup_fmap; [rewrite Hi|rewrite Hj]; simpl; congruence.
Qed.

Lemma store_secret_related t id c k db s :
  related db s →
  match Pg.store_secret t id c k db with
  | (Ok _, db') => related db' (store_secret t id c k s)
  | (Err e, db') => refusal e = true ∧ db' = db
  end.
Proof.
  intros Hrel. unfold Pg.store_secret, store_secret.
  destruct (Pg.change_request_secrets db !! id) as [x|] eqn:Hx; [done|].
  destruct (Pg.change_requests db !! id); [|done].
  assert (id ∉ sec_change_request_id <$> secrets s) as Hid.
  { intros (y & -> & Hy)%list_elem_of_fmap.
    destruct (rel_secrets_in _ _ Hrel y Hy) as (x & ? & _). congruence. }
  destruct Hrel as [Hnd Hro Hsn Hsi Hso Ha Har]. split; try done; simpl.
  - rewrite fmap_app. apply NoDup_app. split; [done|].
    split; [|apply NoDup_singleton]. intros z Hz Hzid%list_elem_of_singleton. by subst z.
  - intros y [Hy|Hy%list_elem_of_singleton]%elem_of_app.
    + rewrite lookup_insert_ne; [by apply Hsi|]. intros ->. destruct Hid.
      by apply list_elem_of_fmap_2.
    + subst y. rewrite lookup_insert_eq. by eexists.
  - intros i x. destruct (decide (i = id)) as [->|Hne].
    + rewrite lookup_insert_eq. intros ?; simplify_eq. eexists.
      split; [apply elem_of_app; right; left|done].
    + rewrite lookup_insert_ne by done. intros Hi.
      destruct (Hso _ _ Hi) as (y & Hy & ?). exists y. split; [apply elem_of_app; by left|done].
Qed.

Lemma get_secret_related t id db s : related db s → Pg.get_secret t id db = get_secret t id s.
Proof.
  intros Hrel. unfold Pg.get_secret, get_secret.
  destruct (find_first (secret_is t id) (secrets s)) as [y|] eqn:Hf.
  - apply find_first_Some in Hf as [Hy His]. unfold secret_is in His. bool_to_prop.
    destruct (rel_secrets_in _ _ Hrel y Hy) as (x & Hx & Ht & Hc & Hk & _). subst id.
    rewrite Hx, bool_decide_eq_true_2 by congruence. unfold Pg.secret_of, stored. simpl. congruence.
  - destruct (Pg.change_request_secrets db !! id) as [x|] eqn:Hx; [|done].
    case_bool_decide as Ht; [|done].
    destruct (rel_secrets_out _ _ Hrel _ _ Hx) as (y & Hy & Hid & Ht' & _).
    apply find_first_None in Hf. rewrite Forall_forall in Hf. apply Hf in Hy.
    unfold secret_is in Hy. bool_to_prop. rewrite !bool_decide_eq_true_2 in Hy by congruence. done.
Qed.

Lemma replace_secret_related db s l1 y l2 x' y' :
  related db s → secrets s = l1 ++ y :: l2 →
  sec_change_request_id y' = sec_change_request_id y → same_secret x' y' →
  related (Pg.with_secret_rows db
             (<[sec_change_request_id y := x']> (Pg.change_request_secrets db)))
          (with_secrets s (l1 ++ y' :: l2)).
Proof.
  intros Hrel Hsec Hid Hsame.
  assert (∀ z, z ∈ l1 ∨ z ∈ l2 → sec_change_request_id z ≠ sec_change_request_id y) as Hother.
  { intros z Hz He. pose proof (rel_secret_ids _ _ Hrel) as Hnd.
    rewrite Hsec, fmap_app, fmap_cons in Hnd.
    apply NoDup_app in Hnd as (_ & Hd & [Hn _]%NoDup_cons). destruct Hz as [Hz|Hz].
    - apply (Hd (sec_change_request_id z)); [by apply list_elem_of_fmap_2|]. rewrite He. left.
    - apply Hn. rewrite <- He. by apply list_elem_of_fmap_2. }
  destruct Hrel as [Hnd Hro Hsn Hsi Hso Ha Har]. split; try done; simpl.
  - rewrite Hsec, fmap_app, fmap_cons in Hsn. by rewrite fmap_app, fmap_cons, Hid.
  - intros z. rewrite elem_of_app, elem_of_cons. intros [Hz|[->|Hz]]; simpl.
    + rewrite lookup_insert_ne by (symmetry; auto). apply Hsi. rewrite Hsec, elem_of_app. by left.
    + rewrite Hid, lookup_insert_eq. by exists x'.
    + rewrite lookup_insert_ne by (symmetry; auto). apply Hsi.
      rewrite Hsec, elem_of_app, elem_of_cons. by right; right.
  - intros i z. destruct (decide (i = sec_change_request_id y)) as [->|Hne].
    + rewrite lookup_insert_eq. intros ?; simplify_eq. eexists. split; [apply elem_of_middle|done].
    + rewrite lookup_insert_ne by done. intros Hi. destruct (Hso _ _ Hi) as (w & Hw & Hwi & ?).
      exists w. split; [|done]. rewrite Hsec, elem_of_app, elem_of_cons in Hw.
      rewrite elem_of_app, elem_of_cons. destruct Hw as [?|[->|?]]; [by left|congruence|by right;right].
Qed.

Lemma burn_related now t id db s :
  related db s →
  ∃ db', Pg.try_burn_secret now t id db = ((try_burn_secret t id s).1, db')
         ∧ related db' (try_burn_secret t id s).2.
Proof.
  intros Hrel. unfold Pg.try_burn_secret, try_burn_secret.
  destruct (update_first _ _ (secrets s)) as [[y' l]|] eqn:Hu.
  - apply update_first_Some in Hu as (l1 & y & l2 & Hsec & Hp & -> & -> & _).
    unfold secret_is in Hp. bool_to_prop.
    assert (y ∈ secrets s) as Hy by (rewrite Hsec; apply elem_of_middle).
    destruct (rel_secrets_in _ _ Hrel y Hy) as (x & Hx & Ht & Hc & Hk & Hret). subst id t.
    rewrite Hx, Ht. rewrite Hret in *. bool_to_prop.
    rewrite !bool_decide_eq_true_2 by (done || by apply dec_stable). simpl.
    eexists. split; [unfold Pg.secret_of, stored; simpl; do 3 f_equal; congruence|].
    apply replace_secret_related; [done..|]. repeat split; simpl; try congruence.
  - apply update_first_None in Hu. rewrite Forall_forall in Hu. simpl.
    destruct (Pg.change_request_secrets db !! id) as [x|] eqn:Hx; [|by eauto].
    destruct (rel_secrets_out _ _ Hrel _ _ Hx) as (y & Hy & Hid & Ht & _ & _ & Hret).
    apply Hu in Hy. unfold secret_is in Hy.
    destruct (bool_decide (Pg.sr_tenant_id x = t) && _)%bool eqn:Hb; [|by eauto].
    bool_to_prop. rewrite Hret, (bool_decide_eq_false_2 (_ ≠ None)) in Hy by tauto.
    by rewrite !bool_decide_eq_true_2 in Hy by congruence.
Qed.

(** ** Simulation *)

(** Answers agree up to the order of an approver list: the tables order it by
    timestamp, the in-memory ledger by insertion. *)
Definition same_answer (a b : Answer Value) : Prop :=
  match a, b with
  | ASubs l, ASubs l' => l ≡ₚ l'
  | _, _ => a = b
  end.

Lemma same_answer_refl a : same_answer a a.
Proof. by destruct a; simpl. Qed.

Abbreviation pg_exec := (Pg.exec to_timestamptz to_jsonb).
Abbreviation pg_run := (Pg.run to_timestamptz to_jsonb).

(** What a call of the Postgres store promises against the specification: it is
    answered as specified, or it is refused for a reason other than an
    undecodable row and nothing changes. *)
Definition simulates now (o : Op Value) db s : Prop :=
  match pg_exec now now o db with
  | (Ok a, db') => same_answer a (exec now o s).1 ∧ related db' (exec now o s).2
  | (Err e, db') => refusal e = true ∧ db' = db
  end.

Lemma simulates_update now o db s (upd : Store Value → option (ChangeRequest Value) * Store Value) pg :
  related db s →
  pg_exec now now o db = Pg.answer ARow pg →
  exec now o s = (let '(r, s') := upd s in (ARow r, s')) →
  (∃ db', pg = (Ok (upd s).1, db') ∧ related db' (upd s).2) →
  simulates now o db s.
Proof.
  intros Hrel Hpg Hmem (db' & Heq & Hrel'). unfold simulates. rewrite Hpg, Hmem, Heq.
  unfold Pg.answer. simpl. destruct (upd s). by split.
Qed.

Ltac sim_update :=
  eapply simulates_update; [eassumption|reflexivity|reflexivity|].

Lemma list_approvers_related t id db s :
  related db s → Pg.list_approvers t id db ≡ₚ list_approvers t id s.
Proof.
  intros Hrel. unfold Pg.list_approvers, list_approvers.
  rewrite merge_sort_Permutation, <- (rel_approvals _ _ Hrel). apply Permutation_refl'.
  induction (Pg.change_request_approvals db) as [|a l IH]; [done|].
  rewrite fmap_cons, !filter_cons. unfold approval_of in *. simpl.
  destruct (decide (_ ∧ _)) as [[-> ->]|Hn].
  - rewrite !bool_decide_eq_true_2 by done. simpl. by rewrite <- IH.
  - rewrite decide_False; [done|]. intros Hb. bool_to_prop. by apply Hn.
Qed.

Lemma count_pending_related now t limit db s :
  related db s → Pg.count_pending_up_to now t limit db = count_pending_up_to now t limit s.
Proof.
  intros Hrel. unfold Pg.count_pending_up_to, count_pending_up_to. f_equal.
  rewrite !length_take. f_equal. rewrite (table_rows_related _ s) by done.
  rewrite (filter_encode (λ x, (bool_decide (cr_tenant_id x = t)
    && bool_decide (cr_status x = "pending")) && (now <? cr_expires_at x))), length_fmap.
  f_equal. apply list_filter_iff. intros r. unfold is_live_pending. simpl.
  change "pending" with (as_db_str Pending). by rewrite as_db_str_decide.
Qed.

Lemma lifecycle_filter_related now t l r :
  bool_decide (cr_tenant_id (encode r) = t) && Pg.sql_lifecycle now (as_sql_str <$> l) (encode r)
  = true ↔ cr_tenant_id r = t ∧ in_lifecycle now l r = true.
Proof. by rewrite sql_lifecycle_encode, andb_true_iff, bool_decide_eq_true. Qed.

Lemma requester_filter_related now t sub l r :
  (bool_decide (cr_tenant_id (encode r) = t) && bool_decide (cr_requested_by (encode r) = sub))
  && Pg.sql_lifecycle now (as_sql_str <$> l) (encode r) = true ↔
  (cr_tenant_id r = t ∧ cr_requested_by r = sub) ∧ in_lifecycle now l r = true.
Proof. by rewrite sql_lifecycle_encode, !andb_true_iff, !bool_decide_eq_true. Qed.

Lemma list_rows_related now t l limit offset db s :
  related db s → Pg.list_rows now t l limit offset db = Ok (list_rows now t l limit offset s).
Proof.
  intros Hrel. unfold Pg.list_rows, list_rows.
  rewrite (select_page_related _ s (λ x, bool_decide (cr_tenant_id x = t)
    && Pg.sql_lifecycle now (as_sql_str <$> l) x) _ _ _ Hrel (lifecycle_filter_related now t l)).
  rewrite (decode_all_encode _ id) by apply from_row_encode. by rewrite list_fmap_id.
Qed.

Lemma exec_simulates now o db s : related db s → representable o → simulates now o db s.
Proof.
  intros Hrel Hrep. destruct o.
  - pose proof (propose_related now id new db s Hrel Hrep) as Hp. unfold simulates. simpl.
    unfold Pg.answer. destruct (Pg.propose _ _ _ _ _ _) as [[row|e] db']; simpl; [|done].
    destruct Hp as (-> & _ & _ & Hr). done.
  - unfold simulates. simpl. unfold Pg.answer, Pg.get. simpl. rewrite (row_where_related _ s) by done.
    unfold get. destruct (find_first _ _); simpl; [|done]. by rewrite from_row_encode.
  - unfold simulates. simpl. unfold Pg.answer. simpl. by rewrite (list_rows_related _ _ _ _ _ _ s).
  - unfold simulates. simpl. by rewrite (count_pending_related _ _ _ _ s).
  - sim_update. unfold Pg.try_approve, try_approve.
    rewrite (update_row_ext _ (λ r, row_is tenant id r && (open_for_decision now r
      && (cr_required_approvals r =? 1)))) by (intros z; by rewrite andb_assoc).
    apply update_where_related; try done. intros r. by rewrite sql_open_encode.
  - destruct (record_approval_related now tenant id sub db s Hrel) as (db' & Hpg & Hr).
    unfold simulates. simpl. unfold Pg.answer. simpl. rewrite Hpg. simpl.
    by destruct (record_approval now tenant id sub s).
  - unfold simulates. simpl. by rewrite (list_approvers_related _ _ _ s).
  - sim_update. apply update_where_related; try done. apply sql_open_encode.
  - sim_update. apply update_where_related; try done. intros r. simpl.
    by rewrite (as_db_str_decide _ Approved).
  - simpl in Hrep. sim_update. unfold Pg.mark_executed. rewrite Hrep.
    apply update_where_related; try done. intros r. simpl. by rewrite (as_db_str_decide _ Executing).
  - sim_update. apply update_where_related; try done. intros r. simpl.
    by rewrite (as_db_str_decide _ Executing).
  - pose proof (store_secret_related tenant id c key db s Hrel) as Hp.
    unfold simulates. simpl. unfold Pg.answer. simpl. by destruct (Pg.store_secret _ _ _ _ _) as [[[]|e] db'].
  - destruct (burn_related now tenant id db s Hrel) as (db' & Hpg & Hr).
    unfold simulates. simpl. rewrite Hpg. by destruct (try_burn_secret tenant id s).
  - unfold simulates. simpl. by rewrite (get_secret_related _ _ _ s).
Qed.

(** ** Histories *)

(** Calls whose two clock readings agree. *)
Definition synced (h : list (time * Op Value)) : list (time * time * Op Value) :=
  (λ x, (x.1, x.1, x.2)) <$> h.

(** The calls of a history that the database accepted. *)
Fixpoint accepted (h : list (time * Op Value)) db : list (time * Op Value) :=
  match h with
  | [] => []
  | (now, o) :: h' =>
      match pg_exec now now o db with
      | (Ok _, db') => (now, o) :: accepted h' db'
      | (Err _, db') => accepted h' db'
      end
  end.

Definition oks (l : list (result (Answer Value) ChangeRequestError)) : list (Answer Value) :=
  omap (λ x, match x with Ok a => Some a | Err _ => None end) l.

Definition decodes (x : result (Answer Value) ChangeRequestError) : Prop :=
  match x with Ok _ => True | Err e => refusal e = true end.

Lemma run_simulates h db s :
  related db s → Forall (λ x, representable x.2) h →
  Forall decodes (pg_run (synced h) db).1 ∧
  Forall2 same_answer (oks (pg_run (synced h) db).1) (run (accepted h db) s).1 ∧
  related (pg_run (synced h) db).2 (run (accepted h db) s).2.
Proof.
  intros Hrel Hrep. revert db s Hrel.
  induction Hrep as [|[now o] h Ho Hrep IH]; intros db s Hrel; [by split; [constructor|split; [constructor|]]|].
  pose proof (exec_simulates now o db s Hrel Ho) as Hsim. unfold simulates in Hsim.
  simpl. destruct (pg_exec now now o db) as [[a|e] db'].
  - destruct Hsim as [Ha Hr]. destruct (exec now o s) as [a' s'] eqn:Hex. simpl in *.
    destruct (IH db' s' Hr) as (IH0 & IH1 & IH2). rewrite Hex.
    change ((λ x, (x.1, x.1, x.2)) <$> h) with (synced h).
    destruct (pg_run (synced h) db') as [l db''], (run (accepted h db') s') as [l' s''].
    simpl in *. split; [by constructor|]. split; [by constructor|done].
  - destruct Hsim as [He ->]. destruct (IH db s Hrel) as (IH0 & IH1 & IH2).
    change ((λ x, (x.1, x.1, x.2)) <$> h) with (synced h).
    destruct (pg_run (synced h) db) as [l db'']. simpl in *. split; [by constructor|done].
Qed.

Lemma empty_related ts : related (Pg.empty_db ts) empty.
Proof.
  split; simpl; [constructor| |constructor| | |done| ].
  - intros id x. rewrite lookup_empty. split; [done|]. intros (r & Hr & _). inversion Hr.
  - intros y Hy. inversion Hy.
  - intros id x Hx. by rewrite lookup_empty in Hx.
  - intros a Ha. inversion Ha.
Qed.

(** *** Accepted proposals have fresh ids *)

Lemma ids_run_mono now o s i : i ∈ ids s → i ∈ ids (exec now o s).2.
Proof.
  intros Hi. destruct (exec now o s) as [a s'] eqn:Hex. simpl.
  destruct (exec_ids _ _ _ _ _ Hex) as [->| ->]; [done|]. apply elem_of_app. by left.
Qed.

Lemma accepted_fresh h db s :
  related db s → Forall (λ x, representable x.2) h → fresh_for (accepted h db) s.
Proof.
  intros Hrel Hrep. revert db s Hrel.
  induction Hrep as [|[now o] h Ho Hrep IH]; intros db s Hrel.
  { unfold fresh_for. simpl. rewrite app_nil_r. apply (rel_ids _ _ Hrel). }
  pose proof (exec_simulates now o db s Hrel Ho) as Hsim. unfold simulates in Hsim.
  simpl. destruct (pg_exec now now o db) as [[a|e] db'] eqn:Hpg; [|destruct Hsim as [_ ->]; by apply IH].
  destruct Hsim as [_ Hr]. specialize (IH _ _ Hr). unfold fresh_for in *. simpl.
  destruct o as [id new| | | | | | | | | | | | |]; simpl proposed_id; simpl app;
    try (eapply sublist_NoDup; [exact IH|]; apply sublist_app; [|done];
         match goal with |- context [exec ?n ?o ?s] =>
           destruct (exec_ids n o s _ _ (surjective_pairing _)) as [->|Hi];
           [done|rewrite Hi; apply sublist_inserts_r; done] end).
  pose proof (propose_related now id new db s Hrel Ho) as Hp.
  simpl in Hpg. unfold Pg.answer in Hpg.
  destruct (Pg.propose _ _ _ _ _ _) as [[row|e] db1]; simplify_eq/=.
  destruct Hp as (Hmem & Hid & _ & _). rewrite Hmem in IH. unfold ids in IH. simpl in IH.
  rewrite fmap_app, <- app_assoc, fmap_cons, Hid in IH. exact IH.
Qed.

(** *** Events on the Postgres store *)

Fixpoint pg_occurrences (ev : Op Value → Answer Value → bool)
    (h : list (time * Op Value)) db : nat :=
  match h with
  | [] => 0
  | (now, o) :: h' =>
      match pg_exec now now o db with
      | (Ok a, db') => ((if ev o a then 1 else 0) + pg_occurrences ev h' db')%nat
      | (Err _, db') => pg_occurrences ev h' db'
      end
  end.

Lemma pg_occurrences_related ev h db s :
  (∀ o a b, same_answer a b → ev o a = ev o b) →
  related db s → Forall (λ x, representable x.2) h →
  pg_occurrences ev h db = occurrences ev (accepted h db) s.
Proof.
  intros Hev Hrel Hrep. revert db s Hrel.
  induction Hrep as [|[now o] h Ho Hrep IH]; intros db s Hrel; [done|].
  pose proof (exec_simulates now o db s Hrel Ho) as Hsim. unfold simulates in Hsim.
  simpl. destruct (pg_exec now now o db) as [[a|e] db']; [|destruct Hsim as [_ ->]; by apply IH].
  destruct Hsim as [Ha Hr]. simpl. destruct (exec now o s) as [a' s']. simpl in *.
  by rewrite (Hev _ _ _ Ha), (IH _ s').
Qed.

Lemma same_answer_event (ev : Op Value → Answer Value → bool) :
  (∀ o l, ev o (ASubs l) = false) → ∀ o a b, same_answer a b → ev o a = ev o b.
Proof.
  intros H o a b Hab. destruct a; simpl in Hab; try by subst b. destruct b; try done.
  by rewrite !H.
Qed.

(** *** Secrets are surfaced once *)

Definition burns (id : uuid) (o : Op Value) (a : Answer Value) : bool :=
  match o, a with
  | BurnSecret _ i, ASecret (Some _) => bool_decide (i = id)
  | _, _ => false
  end.

Definition burned (id : uuid) db : Prop :=
  ∃ x, Pg.change_request_secrets db !! id = Some x ∧ Pg.sr_retrieved_at x ≠ None.

Lemma update_where_secrets t id c f db :
  Pg.change_request_secrets (Pg.update_where t id c f db).2 = Pg.change_request_secrets db.
Proof.
  unfold Pg.update_where. destruct (Pg.row_where t id db); [|done]. by destruct (c r).
Qed.

Lemma record_approval_secrets clock now t id sub db :
  Pg.change_request_secrets (Pg.record_approval clock now t id sub db).2
  = Pg.change_request_secrets db.
Proof.
  unfold Pg.record_approval. destruct (Pg.row_where t id db) as [g|]; [|done].
  match goal with |- context [Pg.update_where ?t ?i ?c ?f ?d] =>
    pose proof (update_where_secrets t i c f d) as Hs; destruct (Pg.update_where t i c f d) as [[?|?] ?]
  end; simpl in *; [|done]. rewrite Hs. by case_match.
Qed.

Lemma burned_exec clock now o db id : burned id db → burned id (pg_exec clock now o db).2.
Proof.
  intros (x & Hx & Hr). destruct o; simpl; try (by exists x);
    try (exists x; unfold Pg.try_approve, Pg.try_deny, Pg.try_begin_execution, Pg.mark_executed,
           Pg.mark_failed; rewrite update_where_secrets; done).
  - unfold Pg.propose. destruct (validate new); [|by exists x].
    destruct (Pg.change_requests db !! id0); [by exists x|]. case_bool_decide; by exists x.
  - exists x. by rewrite record_approval_secrets.
  - unfold Pg.store_secret. destruct (Pg.change_request_secrets db !! id0) eqn:H0; [by exists x|].
    destruct (Pg.change_requests db !! id0); [|by exists x]. exists x. simpl.
    rewrite lookup_insert_ne; [done|congruence].
  - unfold Pg.try_burn_secret. destruct (Pg.change_request_secrets db !! id0) as [y|] eqn:H0;
      [|by exists x]. destruct (_ && _)%bool; [|by exists x]. simpl.
    destruct (decide (id0 = id)) as [->|].
    + eexists. split; [apply lookup_insert_eq|]. done.
    + exists x. simpl. by rewrite lookup_insert_ne.
Qed.

Lemma burns_once now o db a db' id :
  pg_exec now now o db = (Ok a, db') → burns id o a = true → ¬ burned id db ∧ burned id db'.
Proof.
  intros Hex Hb. destruct o; try done. simpl in *. unfold Pg.try_burn_secret in Hex.
  destruct (Pg.change_request_secrets db !! id0) as [x|] eqn:Hx; [|by simplify_eq].
  destruct (_ && _)%bool eqn:Hc; simplify_eq; try done. bool_to_prop. subst id0. split.
  - intros (y & Hy & Hn). congruence.
  - eexists. split; [apply lookup_insert_eq|]. done.
Qed.

Lemma burned_occurrences h db id : burned id db → pg_occurrences (burns id) h db = O.
Proof.
  revert db. induction h as [|[now o] h IH]; intros db Hb; [done|]. simpl.
  pose proof (burned_exec now now o db id Hb) as Hb'.
  destruct (pg_exec now now o db) as [[a|e] db'] eqn:Hex; simpl in Hb'; [|by apply IH].
  rewrite IH by done. destruct (burns id o a) eqn:He; [|done].
  by destruct (burns_once _ _ _ _ _ _ Hex He).
Qed.

Lemma burns_at_most_once h db id : (pg_occurrences (burns id) h db ≤ 1)%nat.
Proof.
  revert db. induction h as [|[now o] h IH]; intros db; simpl; [lia|].
  destruct (pg_exec now now o db) as [[a|e] db'] eqn:Hex; [|done].
  destruct (burns id o a) eqn:He; [|apply IH].
  destruct (burns_once _ _ _ _ _ _ Hex He) as [_ Hb]. by rewrite burned_occurrences.
Qed.

(** *** Summaries *)

Lemma summary_from_row_encode print r :
  Pg.summary_from_row print (encode r) = Ok (to_summary print r).
Proof.
  unfold Pg.summary_from_row, Pg.status_from_row. simpl. rewrite from_as_db_str.
  unfold to_summary, Pg.sql_bounded, Pg.sql_preview, bounded_history_result,
    history_outcome_preview. destruct (cr_execution_result r); [|done]. simpl. by repeat case_match.
Qed.

Lemma status_summary_from_row_encode print r :
  Pg.status_summary_from_row print (encode r) = Ok (to_status_summary print r).
Proof.
  unfold Pg.status_summary_from_row, Pg.status_from_row. simpl. rewrite from_as_db_str.
  unfold to_status_summary, Pg.sql_bounded, bounded_status_result.
  by destruct (cr_execution_result r).
Qed.

End Refine.

(** ** Properties *)

(** C10. The Postgres store refines the in-memory store: take any history of calls
    (timestamps and documents the database stores exactly, both clocks of each
    call reading the same instant) on an empty database. Then the answers of the
    calls the database accepted are those of the in-memory store running exactly
    these calls, approver lists up to order, and the tables stay related to the
    in-memory state; no call ever fails on an undecodable status. *)
Theorem postgres_refines_memory {Value} (to_timestamptz : time → time) (to_jsonb : Value → Value)
    (ts : gset string) (h : list (time * Op Value)) :
  Forall (λ x, representable to_timestamptz to_jsonb x.2) h →
  let pg := Pg.run to_timestamptz to_jsonb (synced h) (Pg.empty_db ts) in
  let mem := run (accepted to_timestamptz to_jsonb h (Pg.empty_db ts)) empty in
  Forall decodes pg.1 ∧ Forall2 same_answer (oks pg.1) mem.1 ∧ related pg.2 mem.2.
Proof. intros Hrep. apply run_simulates; [apply empty_related|done]. Qed.

Definition micros (t : time) : time := t / 1000 * 1000.

(** The demonstration history at microsecond instants, with a refused duplicate
    proposal and a secret that is read twice. *)
Definition pg_demo : list (time * Op string) :=
  [(1000, Propose 7 (demo_new 2)); (2000, Propose 7 (demo_new 1));
   (3000, StoreSecret "acme" 7 [] "k1"); (4000, StoreSecret "acme" 7 [] "k2");
   (5000, BurnSecret "acme" 7); (6000, BurnSecret "acme" 7);
   (7, RecordApproval "acme" 7 "alice"); (8, RecordApproval "acme" 7 "bob");
   (9, ListApprovers "acme" 7); (9, BeginExecution "acme" 7); (9, BeginExecution "acme" 7)].

Lemma postgres_refines_memory_witness :
  let pg := Pg.run micros id (synced pg_demo) (Pg.empty_db {["acme"]}) in
  let mem := run (accepted micros id pg_demo (Pg.empty_db {["acme"]})) empty in
  (Forall decodes pg.1 ∧ Forall2 same_answer (oks pg.1) mem.1 ∧ related pg.2 mem.2)
  ∧ length (oks pg.1) = 9%nat.
Proof.
  split; [|vm_compute; reflexivity].
  apply (postgres_refines_memory micros id {["acme"]} pg_demo).
  repeat constructor.
Defined.

(** On the Postgres store, over any such history, each request is decided at
    most once, claimed for execution at most once and concluded at most once,
    without any assumption on the ids (a repeated id is refused by the primary
    key); and its secret is handed out at most once. *)
Theorem postgres_single_use {Value} (to_timestamptz : time → time) (to_jsonb : Value → Value)
    (ts : gset string) (h : list (time * Op Value)) id :
  Forall (λ x, representable to_timestamptz to_jsonb x.2) h →
  (∀ ev, ev = decides id ∨ ev = begins id ∨ ev = concludes id ∨ ev = burns id →
     pg_occurrences to_timestamptz to_jsonb ev h (Pg.empty_db ts) ≤ 1)%nat.
Proof.
  intros Hrep. pose proof (empty_related (Value := Value) ts) as Hrel.
  pose proof (accepted_fresh _ _ _ _ _ Hrel Hrep) as Hf.
  intros ev [->|[->|[->| ->]]]; [..|apply burns_at_most_once];
    erewrite pg_occurrences_related
      by (try eassumption; apply same_answer_event; intros [] ?; reflexivity);
    eapply occurrences_at_most_once; eauto using decides_crosses, begins_crosses, concludes_crosses.
Qed.

Lemma postgres_single_use_witness :
  (pg_occurrences micros id (burns 7) pg_demo (Pg.empty_db {["acme"]}) ≤ 1)%nat
  ∧ pg_occurrences micros id (burns 7) pg_demo (Pg.empty_db {["acme"]}) = 1%nat
  ∧ pg_occurrences micros id (begins 7) pg_demo (Pg.empty_db {["acme"]}) = 1%nat.
Proof.
  split; [|split; vm_compute; reflexivity].
  apply (postgres_single_use micros id {["acme"]} pg_demo 7); [repeat constructor|auto].
Defined.

(** The bounded projections agree: on related states the SQL summary queries
    (their [CASE] bounds and previews, ordering and paging) return exactly the
    in-memory projections computed with the database's text form. *)
Theorem summaries_refine {Value} (jsonb_text : Value → string) db s now t sub l limit offset :
  related db s →
  Pg.list_summaries jsonb_text now t l limit offset db
    = Ok (list_summaries jsonb_text now t l limit offset s) ∧
  Pg.list_for_requester jsonb_text now t sub l limit offset db
    = Ok (list_for_requester jsonb_text now t sub l limit offset s).
Proof.
  intros Hrel. unfold Pg.list_summaries, list_summaries, Pg.list_for_requester, list_for_requester.
  split.
  - rewrite (select_page_related _ s (λ x, bool_decide (cr_tenant_id x = t)
      && Pg.sql_lifecycle now (as_sql_str <$> l) x) _ _ _ Hrel (lifecycle_filter_related now t l)).
    apply decode_all_encode, summary_from_row_encode.
  - rewrite (select_page_related _ s (λ x, (bool_decide (cr_tenant_id x = t)
      && bool_decide (cr_requested_by x = sub)) && Pg.sql_lifecycle now (as_sql_str <$> l) x)
      _ _ _ Hrel (requester_filter_related now t sub l)).
    apply decode_all_encode, status_summary_from_row_encode.
Qed.

Lemma summaries_refine_witness :
  let db := (Pg.run micros id (synced pg_demo) (Pg.empty_db {["acme"]})).2 in
  let s := (run (accepted micros id pg_demo (Pg.empty_db {["acme"]})) empty).2 in
  Pg.list_summaries id 9 "acme" None 10 0 db = Ok (list_summaries id 9 "acme" None 10 0 s).
Proof.
  intros db s. apply (summaries_refine id db s 9 "acme" "" None 10 0).
  apply (run_simulates micros id pg_demo); [apply empty_related|repeat constructor].
Defined.

End ChangeSetRefine.
