(* ===== verification/Facts.v ===== *)
(** * Typed authorization facts

    Model of crates/waygate-core/src/{risk,tenant,facts}.rs, of the principal of
    crates/waygate-oidc/src/lib.rs, and of the fact builder and profile
    predicates of crates/waygate-mcp/src/authz.rs.

    SCIM attributes are a [serde_json::Value] that this code only copies and
    prints: a type parameter [Json]. A [BTreeSet<String>] is the list of its
    elements in iteration order. *)

From S2P Require Import Prelude RustStr.

Module Facts.

(** ** Risk tier *)

Inductive RiskTier := Low | Medium | High.
#[export] Instance RiskTier_eq_dec : EqDecision RiskTier.
Proof. solve_decision. Defined.

Definition risk_as_str (r : RiskTier) : string :=
  match r with Low => "low" | Medium => "medium" | High => "high" end.

Definition risk_parse (s : string) : option RiskTier :=
  let l := to_ascii_lowercase s in
  if bool_decide (l = "low") then Some Low
  else if bool_decide (l = "medium") then Some Medium
  else if bool_decide (l = "high") then Some High
  else None.

Definition severity (r : RiskTier) : Z :=
  match r with Low => 0 | Medium => 1 | High => 2 end.

Definition covers (r other : RiskTier) : bool := severity other <=? severity r.

(** ** Tenant ids *)

Inductive TenantIdError := BadLength (n : nat) | BadChars (s : string).

Definition tenant_alnum (b : Ascii.ascii) : bool := is_ascii_lowercase b || is_ascii_digit b.

Definition tenant_char (b : Ascii.ascii) : bool :=
  tenant_alnum b || (byte_val b =? 45)%N || (byte_val b =? 95)%N.

Definition tenant_validate (s : string) : result unit TenantIdError :=
  let n := len s in
  if ((1 <=? n) && (n <=? 64))%nat then
    match head (as_bytes s), last (as_bytes s) with
    | Some first, Some final =>
        if negb (tenant_alnum first) || negb (tenant_alnum final) then Err (BadChars s)
        else if negb (forallb tenant_char (as_bytes s)) then Err (BadChars s)
        else Ok tt
    | _, _ => Err (BadLength n)
    end
  else Err (BadLength n).

Definition tenant_parse (s : string) : result string TenantIdError :=
  let? _ := tenant_validate s in Ok s.

Definition DEFAULT_TENANT : string := "default".

Example default_tenant_parses : tenant_parse DEFAULT_TENANT = Ok DEFAULT_TENANT.
Proof. reflexivity. Qed.

(** ** Facts *)

Section FactTypes.
Context {Json : Type}.

Record EmailRecipients := {
  valid : bool;
  domains : list string;
}.

Record ScimFacts := {
  scim_user_id : string;
  scim_user_name : string;
  scim_external_id : option string;
  scim_active : bool;
  scim_group_names : list string;
  scim_attrs : Json;
}.

Record PrincipalFacts := {
  pf_sub : string;
  pf_email : option string;
  pf_groups : list string;
  pf_scopes : list string;
  pf_auth_method : string;
  pf_roles : list string;
  pf_scim : option ScimFacts;
}.

Record ActionFacts := {
  kind : string;
  required_scope : option string;
}.

Record ResourceFacts := {
  rf_server : string;
  rf_tool : string;
  rf_risk : RiskTier;
  rf_side_effects : bool;
  rf_pii : bool;
  rf_data_classification : option string;
  rf_cost_class : option string;
  rf_uri : option string;
  rf_source_origin : option string;
  rf_artifact_digest : option string;
  rf_source_tree_digest : option string;
  rf_skill_uri : option string;
  rf_revision_digest : option string;
  rf_content_digest : option string;
  rf_source_path : option string;
  rf_source_object : option string;
  rf_resource_type : option string;
  rf_operation : option string;
}.

Record RequestFacts := {
  discovery_only : bool;
  email_recipients : option EmailRecipients;
  target_domain : option string;
  recipient_count : option Z;     (* u32 *)
  destructive : option bool;
  file_paths : list string;
  argument_hash : string;
}.

Inductive InvocationChannelFact := Direct | CodeMode.

Definition channel_as_str (c : InvocationChannelFact) : string :=
  match c with Direct => "direct" | CodeMode => "codemode" end.

(** An address by its value, most significant octet first. *)
Inductive IpAddr := V4 (a : N) | V6 (a : N).

Record RuntimeContextFacts := {
  approval_present : bool;
  mfa : bool;
  rc_time : time;
  source_ip : option IpAddr;
  channel : InvocationChannelFact;
}.

Record Facts := {
  principal : PrincipalFacts;
  client_id : option string;              (* ClientFacts *)
  tenant_id : string;                     (* TenantFacts *)
  action : ActionFacts;
  resource : ResourceFacts;
  request : option RequestFacts;
  context : RuntimeContextFacts;
}.

(** ** The authenticated principal *)

Inductive AuthMethod := Oauth | ApiKey | PeerAssertion.

Definition auth_method_as_str (m : AuthMethod) : string :=
  match m with Oauth => "oauth" | ApiKey => "api_key" | PeerAssertion => "peer_assertion" end.

Record ScimGroupRef := { group_id : string; display_name : string }.

Record ScimPrincipalAttrs := {
  sp_user_id : string;
  sp_user_name : string;
  sp_external_id : option string;
  sp_active : bool;
  sp_attrs : Json;
  sp_groups : list ScimGroupRef;
}.

Record ApiKeyProfileRestrictions := {
  profile_id : string;
  profile_name : string;
  allowed_servers : option (list string);
  allowed_tools : option (list string);
}.

Record Principal := {
  sub : string;
  email : option string;
  groups : list string;
  issuer : string;
  scopes : list string;
  tenant : string;
  auth_method : AuthMethod;
  raw_token : option string;
  scim : option ScimPrincipalAttrs;
  enrichment_blocked : option string;
  roles : list string;
  api_key_profile_restrictions : option ApiKeyProfileRestrictions;
}.

Record ToolFacts := {
  tf_server : string;
  tf_name : string;
  tf_risk : RiskTier;
  tf_side_effects : bool;
  tf_pii : bool;
  tf_requires_approval : bool;
  tf_requires_approval_known : bool;
}.

Definition admitted_by_read_only_ceiling (f : ToolFacts) : bool :=
  negb (tf_side_effects f) && tf_requires_approval_known f && negb (tf_requires_approval f).

Definition required_scope_for (risk : RiskTier) : option string :=
  match risk with
  | Low | Medium => None
  | High => Some "mcp:invoke:high"
  end.

(** ** Profile restrictions *)

(** A list that restricts: present and not empty. *)
Definition populated (l : option (list string)) : option (list string) :=
  match l with
  | None | Some [] => None
  | Some l => Some l
  end.

Definition profile_blocks_server (p : Principal) (server : string) : bool :=
  match api_key_profile_restrictions p with
  | None => false
  | Some r =>
      let blocked_by_server_list :=
        match populated (allowed_servers r) with
        | None => false
        | Some servers => negb (existsb (λ c, bool_decide (c = server)) servers)
        end in
      if blocked_by_server_list then true
      else
        let server_prefix := server +:+ "." in
        match populated (allowed_tools r) with
        | None => false
        | Some tools => negb (existsb (starts_with server_prefix) tools)
        end
  end.

Definition profile_blocks_tool (p : Principal) (server tool : string) : bool :=
  match api_key_profile_restrictions p with
  | None => false
  | Some r =>
      match populated (allowed_tools r) with
      | None => false
      | Some tools =>
          let fully_qualified := server +:+ "." +:+ tool in
          negb (existsb (λ c, bool_decide (c = fully_qualified)) tools)
      end
  end.

Definition profile_blocks_resources (p : Principal) (server : string) : bool :=
  if profile_blocks_server p server then true
  else match api_key_profile_restrictions p ≫= allowed_tools with
       | Some (_ :: _) => true
       | _ => false
       end.

(** ** The fact builder *)

Definition build_call_facts (p : Principal) (f : ToolFacts) : Facts :=
  {| principal :=
       {| pf_sub := sub p; pf_email := email p; pf_groups := groups p; pf_scopes := scopes p;
          pf_auth_method := auth_method_as_str (auth_method p); pf_roles := roles p;
          pf_scim := (λ s, {| scim_user_id := sp_user_id s; scim_user_name := sp_user_name s;
                              scim_external_id := sp_external_id s; scim_active := sp_active s;
                              scim_group_names := display_name <$> sp_groups s;
                              scim_attrs := sp_attrs s |}) <$> scim p |};
     client_id := None;
     tenant_id := tenant p;
     action := {| kind := "CallTool"; required_scope := required_scope_for (tf_risk f) |};
     resource :=
       {| rf_server := tf_server f; rf_tool := tf_name f; rf_risk := tf_risk f;
          rf_side_effects := tf_side_effects f; rf_pii := tf_pii f;
          rf_data_classification := None; rf_cost_class := None; rf_uri := None;
          rf_source_origin := None; rf_artifact_digest := None; rf_source_tree_digest := None;
          rf_skill_uri := None; rf_revision_digest := None; rf_content_digest := None;
          rf_source_path := None; rf_source_object := None; rf_resource_type := None;
          rf_operation := None |};
     request := None;
     context := {| approval_present := false; mfa := false; rc_time := 0; source_ip := None;
                   channel := Direct |} |}.

Definition with_channel (f : Facts) (c : InvocationChannelFact) : Facts :=
  {| principal := principal f; client_id := client_id f; tenant_id := tenant_id f;
     action := action f; resource := resource f; request := request f;
     context := {| approval_present := approval_present (context f); mfa := mfa (context f);
                   rc_time := rc_time (context f); source_ip := source_ip (context f);
                   channel := c |} |}.

End FactTypes.
Arguments Facts Json : clear implicits.
Arguments PrincipalFacts Json : clear implicits.
Arguments ScimFacts Json : clear implicits.
Arguments Principal Json : clear implicits.
Arguments ScimPrincipalAttrs Json : clear implicits.

End Facts.
