(* ===== verification/Authz.v ===== *)
(** * The authorization gate interface

    Model of crates/waygate-mcp/src/authz.rs: verdicts and the [AuthzGate] trait.
    A gate method is a state transformer of an abstract world [W] (databases,
    audit log, other tasks running between two awaits); the trait is a record of
    such methods, and its provided methods are definitions over the required
    ones. *)

From S2P Require Import Prelude RustStr Facts.

Module Authz.
Export Facts.Facts.

Inductive AuthzVerdict :=
  | Allow (policy_ids : list string)
  | Deny (reason : string) (policy_ids : list string) (reasons : list string)
  | StepUpRequired (required_scope reason : string) (policy_ids : list string)
  | ApprovalRequired (reason : string) (policy_ids : list string).

Inductive ProbeVerdict :=
  | Settled (v : AuthzVerdict)
  | ConsumingOverridePossible.

Inductive BuiltinAuthz :=
  | Proceed
  | Forbidden (reason : string) (policy_ids : list string) (reasons : list string)
  | BuiltinStepUpRequired (required_scope reason : string) (policy_ids : list string)
  | Indeterminate (reason : string).

Definition is_allow (v : AuthzVerdict) : bool :=
  match v with Allow _ => true | _ => false end.

Definition is_deny (v : AuthzVerdict) : bool :=
  match v with Deny _ _ _ => true | _ => false end.

Definition policy_ids (v : AuthzVerdict) : list string :=
  match v with
  | Allow ids | Deny _ ids _ | StepUpRequired _ _ ids | ApprovalRequired _ ids => ids
  end.

Definition is_discoverable (v : AuthzVerdict) : bool :=
  match v with
  | Allow _ | StepUpRequired _ _ _ | ApprovalRequired _ _ => true
  | Deny _ _ _ => false
  end.

Record SkillAccessFacts := {
  sk_source_origin : string;
  sk_artifact_digest : string;
  sk_source_tree_digest : string;
  sk_skill_uri : option string;
  sk_resource_uri : option string;
  sk_revision_digest : option string;
  sk_content_digest : option string;
  sk_source_path : option string;
  sk_source_object : option string;
}.

Section Gate.
Context {Json W : Type}.

Record AuthzGate := {
  may_discover_server : Principal Json → string → W → bool * W;
  may_list_resources : Principal Json → string → W → bool * W;
  authorize_resource_read : Principal Json → string → string → RiskTier → W → AuthzVerdict * W;
  authorize_skill_list : Principal Json → SkillAccessFacts → W → AuthzVerdict * W;
  authorize_skill_fetch : Principal Json → SkillAccessFacts → W → AuthzVerdict * W;
  authorize_skill_read : Principal Json → SkillAccessFacts → W → AuthzVerdict * W;
  authorize_tool_call : Facts Json → W → AuthzVerdict * W;
  probe_tool_call : Facts Json → W → ProbeVerdict * W;
  may_call_tool : Principal Json → ToolFacts → W → AuthzVerdict * W;
  may_call_tool_on_channel :
    Principal Json → ToolFacts → InvocationChannelFact → W → AuthzVerdict * W;
  authorize_builtin_call : Principal Json → ToolFacts → W → BuiltinAuthz * W;
}.

(** ** Provided methods of the trait *)

Definition default_may_list_resources (p : Principal Json) (server : string) (w : W) : bool * W :=
  (false, w).

Definition default_authorize_resource_read (p : Principal Json) (server uri : string)
    (risk : RiskTier) (w : W) : AuthzVerdict * W :=
  (Deny "resource reads are not authorized by this gate" [] [], w).

Definition default_authorize_skill_list (p : Principal Json) (f : SkillAccessFacts) (w : W)
  : AuthzVerdict * W := (Deny "skill listing is not authorized by this gate" [] [], w).

Definition default_authorize_skill_fetch (p : Principal Json) (f : SkillAccessFacts) (w : W)
  : AuthzVerdict * W := (Deny "skill source fetches are not authorized by this gate" [] [], w).

Definition default_authorize_skill_read (p : Principal Json) (f : SkillAccessFacts) (w : W)
  : AuthzVerdict * W := (Deny "skill reads are not authorized by this gate" [] [], w).

Definition default_probe_tool_call (authorize : Facts Json → W → AuthzVerdict * W)
    (f : Facts Json) (w : W) : ProbeVerdict * W :=
  let '(v, w') := authorize f w in (Settled v, w').

Definition default_may_call_tool (authorize : Facts Json → W → AuthzVerdict * W)
    (p : Principal Json) (f : ToolFacts) (w : W) : AuthzVerdict * W :=
  authorize (build_call_facts p f) w.

Definition default_may_call_tool_on_channel (authorize : Facts Json → W → AuthzVerdict * W)
    (p : Principal Json) (f : ToolFacts) (c : InvocationChannelFact) (w : W) : AuthzVerdict * W :=
  authorize (with_channel (build_call_facts p f) c) w.

Definition builtin_of_verdict (v : AuthzVerdict) : BuiltinAuthz :=
  match v with
  | Allow _ => Proceed
  | Deny _ [] _ => Proceed
  | Deny reason ids reasons => Forbidden reason ids reasons
  | StepUpRequired scope reason ids => BuiltinStepUpRequired scope reason ids
  | ApprovalRequired reason ids => Forbidden reason ids []
  end.

Definition default_authorize_builtin_call
    (may_call : Principal Json → ToolFacts → W → AuthzVerdict * W)
    (p : Principal Json) (f : ToolFacts) (w : W) : BuiltinAuthz * W :=
  let '(v, w') := may_call p f w in (builtin_of_verdict v, w').

(** A gate that implements the two required methods only. *)
Definition gate_with_defaults (discover : Principal Json → string → W → bool * W)
    (authorize : Facts Json → W → AuthzVerdict * W) : AuthzGate :=
  {| may_discover_server := discover;
     may_list_resources := default_may_list_resources;
     authorize_resource_read := default_authorize_resource_read;
     authorize_skill_list := default_authorize_skill_list;
     authorize_skill_fetch := default_authorize_skill_fetch;
     authorize_skill_read := default_authorize_skill_read;
     authorize_tool_call := authorize;
     probe_tool_call := default_probe_tool_call authorize;
     may_call_tool := default_may_call_tool authorize;
     may_call_tool_on_channel := default_may_call_tool_on_channel authorize;
     authorize_builtin_call := default_authorize_builtin_call (default_may_call_tool authorize) |}.

Definition AllowAllGate : AuthzGate :=
  let authorize := λ (_ : Facts Json) (w : W), (Allow [], w) in
  {| may_discover_server := λ _ _ w, (true, w);
     may_list_resources := λ _ _ w, (true, w);
     authorize_resource_read := λ _ _ _ _ w, (Allow [], w);
     authorize_skill_list := λ _ _ w, (Allow [], w);
     authorize_skill_fetch := λ _ _ w, (Allow [], w);
     authorize_skill_read := λ _ _ w, (Allow [], w);
     authorize_tool_call := authorize;
     probe_tool_call := default_probe_tool_call authorize;
     may_call_tool := default_may_call_tool authorize;
     may_call_tool_on_channel := default_may_call_tool_on_channel authorize;
     authorize_builtin_call := default_authorize_builtin_call (default_may_call_tool authorize) |}.

(** A gate whose methods have no effect on the world. *)
Class PureGate (g : AuthzGate) := {
  pure_discover p s w : (may_discover_server g p s w).2 = w;
  pure_list p s w : (may_list_resources g p s w).2 = w;
  pure_read p s u r w : (authorize_resource_read g p s u r w).2 = w;
  pure_skill_list p f w : (authorize_skill_list g p f w).2 = w;
  pure_skill_fetch p f w : (authorize_skill_fetch g p f w).2 = w;
  pure_skill_read p f w : (authorize_skill_read g p f w).2 = w;
  pure_authorize f w : (authorize_tool_call g f w).2 = w;
  pure_probe f w : probe_tool_call g f w = (Settled (authorize_tool_call g f w).1, w);
  pure_may_call p f w : (may_call_tool g p f w).2 = w;
  pure_on_channel p f c w : (may_call_tool_on_channel g p f c w).2 = w;
  pure_builtin p f w : (authorize_builtin_call g p f w).2 = w;
}.

Lemma gate_with_defaults_pure discover (decide : Facts Json → AuthzVerdict)
  (Hd : ∀ p s w, (discover p s w).2 = w) :
  PureGate (gate_with_defaults discover (λ f w, (decide f, w))).
Proof. by split. Qed.

End Gate.
Arguments AuthzGate Json W : clear implicits.

End Authz.
