(* ===== verification/BreakGlass.v ===== *)
(** * Break-glass tokens and the break-glass gate

    Model of crates/waygate-authz/src/break_glass.rs (token store on Postgres,
    migration 0029) and break_glass_gate.rs (the [AuthzGate] decorator that lets
    a single-use token override a denial).

    The gate is written against the store interface over an abstract world, so
    its theorems hold whatever other tasks do between two of its calls; the
    Postgres store is an instance of the interface. Metrics and tracing are left
    out. The audit event's reason is kept as the arguments of its format string. *)

From S2P Require Import Prelude RustStr Facts Authz.

Module BreakGlass.
Export Authz.

(** ** Tokens *)

Inductive BreakGlassLifecycle := Active | Expired | Used.

Definition as_sql_str (l : BreakGlassLifecycle) : string :=
  match l with Active => "active" | Expired => "expired" | Used => "used" end.

Record NewBreakGlassToken := {
  nt_tenant_id : string;
  nt_issued_to : string;
  nt_issued_by : string;
  nt_reason : string;
  nt_scope_pattern : string;
  nt_requires_amr : list string;
  nt_expires_at : time;
}.

Record BreakGlassToken := {
  bg_id : uuid;
  bg_tenant_id : string;
  bg_issued_to : string;
  bg_issued_by : string;
  bg_reason : string;
  bg_scope_pattern : string;
  bg_requires_amr : list string;
  bg_expires_at : time;
  bg_used_at : option time;
  bg_created_at : time;
}.

(** [sqlx::Error], of which the code only distinguishes that there is one. *)
Inductive BreakGlassError := Database.

Definition amr_subset_satisfied (required presented : list string) : bool :=
  forallb (λ r, existsb (λ p, bool_decide (p = r)) presented) required.

Definition scope_pattern_matches (pattern fq_tool_name : string) : bool :=
  if is_empty pattern then false
  else if bool_decide (pattern = fq_tool_name) then true
  else match strip_suffix ".*" pattern with
       | Some prefix =>
           match strip_prefix prefix fq_tool_name with
           | Some rest => starts_with "." rest && (1 <? len rest)%nat
           | None => false
           end
       | None => false
       end.

(** ** The store interface *)

Section Interface.
Context {W : Type}.

Record BreakGlassStore := {
  mint : NewBreakGlassToken → W → result BreakGlassToken BreakGlassError * W;
  list_tokens : string → option BreakGlassLifecycle → Z → Z → W
                → result (list BreakGlassToken) BreakGlassError * W;
  delete : string → uuid → W → result bool BreakGlassError * W;
  list_candidates : string → string → string → W
                    → result (list BreakGlassToken) BreakGlassError * W;
  try_claim : uuid → W → result (option BreakGlassToken) BreakGlassError * W;
}.

(** Looking candidates up changes nothing. *)
Class ReadOnlyLookup (st : BreakGlassStore) :=
  lookup_readonly t s fq w : (list_candidates st t s fq w).2 = w.

End Interface.
Arguments BreakGlassStore W : clear implicits.

(** ** The gate *)

(** [AuditEvent] as the gate builds it. *)
Record BreakGlassUse := {
  use_tenant : string;
  use_server : string;
  use_tool : string;
  use_risk : RiskTier;
  use_pii : bool;
  use_token : uuid;
  use_issued_to : string;
  use_issued_by : string;
  use_acting_sub : string;
  use_mint_reason : string;
  use_denied_reason : string;
}.

Inductive EvidenceError := RecordFailed.

Section Gate.
Context {Json W : Type}.
Context (inner : AuthzGate Json W) (store : BreakGlassStore W).
Context (record_required : BreakGlassUse → W → result unit EvidenceError * W).
Implicit Types (f : Facts Json) (w : W).

Definition fq_of f : string := rf_server (resource f) +:+ "." +:+ rf_tool (resource f).

(** The principal's authentication methods: not carried by [Principal] today. *)
Definition principal_amr : list string := [].

Definition applies (fq : string) (t : BreakGlassToken) : bool :=
  scope_pattern_matches (bg_scope_pattern t) fq
  && amr_subset_satisfied (bg_requires_amr t) principal_amr.

Definition override_could_apply f w : bool * W :=
  let fq := fq_of f in
  match list_candidates store (tenant_id f) (pf_sub (principal f)) fq w with
  | (Ok candidates, w') => (existsb (applies fq) candidates, w')
  | (Err _, w') => (true, w')
  end.

(** The loop over the candidates: the first successful claim ends it. *)
Fixpoint claim_first (fq : string) (candidates : list BreakGlassToken) w
  : option BreakGlassToken * W :=
  match candidates with
  | [] => (None, w)
  | token :: rest =>
      if negb (scope_pattern_matches (bg_scope_pattern token) fq) then claim_first fq rest w
      else if negb (amr_subset_satisfied (bg_requires_amr token) principal_amr)
      then claim_first fq rest w
      else match try_claim store (bg_id token) w with
           | (Ok (Some claimed), w') => (Some claimed, w')
           | (Ok None, w') => claim_first fq rest w'
           | (Err _, w') => claim_first fq rest w'
           end
  end.

Definition try_override f w : option BreakGlassToken * W :=
  let fq := fq_of f in
  match list_candidates store (tenant_id f) (pf_sub (principal f)) fq w with
  | (Ok candidates, w') => claim_first fq candidates w'
  | (Err _, w') => (None, w')
  end.

Definition use_event f (token : BreakGlassToken) (denied_reason : string) : BreakGlassUse :=
  {| use_tenant := tenant_id f; use_server := rf_server (resource f);
     use_tool := rf_tool (resource f); use_risk := rf_risk (resource f);
     use_pii := rf_pii (resource f); use_token := bg_id token;
     use_issued_to := bg_issued_to token; use_issued_by := bg_issued_by token;
     use_acting_sub := pf_sub (principal f); use_mint_reason := bg_reason token;
     use_denied_reason := denied_reason |}.

Definition bg_probe_tool_call f w : ProbeVerdict * W :=
  match probe_tool_call inner f w with
  | (Settled (Deny r ids rs), w1) =>
      let '(possible, w2) := override_could_apply f w1 in
      if possible then (ConsumingOverridePossible, w2) else (Settled (Deny r ids rs), w2)
  | other => other
  end.

Definition bg_authorize_tool_call f w : AuthzVerdict * W :=
  let '(verdict, w1) := authorize_tool_call inner f w in
  match verdict with
  | Deny denied_reason _ _ =>
      match try_override f w1 with
      | (None, w2) => (verdict, w2)
      | (Some token, w2) =>
          match record_required (use_event f token denied_reason) w2 with
          | (Err _, w3) => (verdict, w3)
          | (Ok _, w3) => (Allow [], w3)
          end
      end
  | Allow _ | StepUpRequired _ _ _ | ApprovalRequired _ _ => (verdict, w1)
  end.

Definition BreakGlassGate : AuthzGate Json W :=
  {| may_discover_server := may_discover_server inner;
     may_list_resources := may_list_resources inner;
     authorize_resource_read := authorize_resource_read inner;
     authorize_skill_list := authorize_skill_list inner;
     authorize_skill_fetch := authorize_skill_fetch inner;
     authorize_skill_read := authorize_skill_read inner;
     authorize_tool_call := bg_authorize_tool_call;
     probe_tool_call := bg_probe_tool_call;
     may_call_tool := may_call_tool inner;
     may_call_tool_on_channel := may_call_tool_on_channel inner;
     authorize_builtin_call := authorize_builtin_call inner |}.

End Gate.

(** ** The Postgres store *)

(** The tenants, the token table, the audit trail, the database's clock, the next
    [gen_random_uuid()] and whether the evidence store accepts writes. *)
Record Pg := {
  bg_tenants : gset string;
  tokens : gmap uuid BreakGlassToken;
  trail : list BreakGlassUse;
  clock : time;
  next_id : uuid;
  evidence_up : bool;
}.

Definition with_tokens (w : Pg) (m : gmap uuid BreakGlassToken) : Pg :=
  {| bg_tenants := bg_tenants w; tokens := m; trail := trail w; clock := clock w; next_id := next_id w;
     evidence_up := evidence_up w |}.

Definition new_token (id : uuid) (now : time) (m : NewBreakGlassToken) : BreakGlassToken :=
  {| bg_id := id; bg_tenant_id := nt_tenant_id m; bg_issued_to := nt_issued_to m;
     bg_issued_by := nt_issued_by m; bg_reason := nt_reason m;
     bg_scope_pattern := nt_scope_pattern m; bg_requires_amr := nt_requires_amr m;
     bg_expires_at := nt_expires_at m; bg_used_at := None; bg_created_at := now |}.

(** The [CHECK (length(reason) > 0)], the primary and the foreign key. *)
Definition pg_mint (m : NewBreakGlassToken) (w : Pg) : result BreakGlassToken BreakGlassError * Pg :=
  if is_empty (nt_reason m) then (Err Database, w)
  else match tokens w !! next_id w with
       | Some _ => (Err Database, w)
       | None => if negb (bool_decide (nt_tenant_id m ∈ bg_tenants w)) then (Err Database, w) else
                 let t := new_token (next_id w) (clock w) m in
                 (Ok t, with_tokens w (<[next_id w := t]> (tokens w)))
       end.

Definition in_bucket (now : time) (bucket : option string) (t : BreakGlassToken) : bool :=
  match bucket with
  | None => true
  | Some b =>
      if bool_decide (b = "active")
      then bool_decide (bg_used_at t = None) && (now <? bg_expires_at t)
      else if bool_decide (b = "expired")
      then bool_decide (bg_used_at t = None) && (bg_expires_at t <=? now)
      else if bool_decide (b = "used") then bool_decide (bg_used_at t ≠ None)
      else true
  end.

(** [ORDER BY CASE WHEN bucket = 'used' THEN used_at END DESC NULLS LAST,
    created_at DESC, id]: the first key is null outside the used bucket. *)
Definition sort_key (used : bool) (t : BreakGlassToken) : option time :=
  if used then bg_used_at t else None.

Definition newest (a b : BreakGlassToken) : Prop :=
  bg_created_at b < bg_created_at a ∨
  (bg_created_at a = bg_created_at b ∧ (bg_id a ≤ bg_id b)%N).

Definition listed_before (used : bool) (a b : BreakGlassToken) : Prop :=
  match sort_key used a, sort_key used b with
  | Some x, Some y => y < x ∨ (x = y ∧ newest a b)
  | Some _, None => True
  | None, Some _ => False
  | None, None => newest a b
  end.

#[export] Instance listed_before_dec used a b : Decision (listed_before used a b).
Proof. unfold listed_before, newest. repeat case_match; apply _. Defined.

Definition rows (w : Pg) : list BreakGlassToken := (map_to_list (tokens w)).*2.

Definition pg_list (tenant : string) (lifecycle : option BreakGlassLifecycle) (limit offset : Z)
    (w : Pg) : result (list BreakGlassToken) BreakGlassError * Pg :=
  let bucket := as_sql_str <$> lifecycle in
  let matched := filter (λ t, (bool_decide (bg_tenant_id t = tenant)
                               && in_bucket (clock w) bucket t)%bool = true) (rows w) in
  (Ok (take (Z.to_nat limit) (drop (Z.to_nat offset)
         (merge_sort (listed_before (bool_decide (bucket = Some "used"))) matched))), w).

Definition pg_delete (tenant : string) (id : uuid) (w : Pg) : result bool BreakGlassError * Pg :=
  match tokens w !! id with
  | Some t => if bool_decide (bg_tenant_id t = tenant)
              then (Ok true, with_tokens w (base.delete id (tokens w)))
              else (Ok false, w)
  | None => (Ok false, w)
  end.

(** [used_at IS NULL AND expires_at > now()] *)
Definition usable (now : time) (t : BreakGlassToken) : bool :=
  bool_decide (bg_used_at t = None) && (now <? bg_expires_at t).

Definition pg_list_candidates (tenant sub fq : string) (w : Pg)
  : result (list BreakGlassToken) BreakGlassError * Pg :=
  let selected := filter (λ t, ((bool_decide (bg_tenant_id t = tenant)
                                 && bool_decide (bg_issued_to t = sub))
                                && usable (clock w) t)%bool = true) (rows w) in
  (Ok (filter (λ t, scope_pattern_matches (bg_scope_pattern t) fq = true) selected), w).

Definition mark_used (now : time) (t : BreakGlassToken) : BreakGlassToken :=
  {| bg_id := bg_id t; bg_tenant_id := bg_tenant_id t; bg_issued_to := bg_issued_to t;
     bg_issued_by := bg_issued_by t; bg_reason := bg_reason t;
     bg_scope_pattern := bg_scope_pattern t; bg_requires_amr := bg_requires_amr t;
     bg_expires_at := bg_expires_at t; bg_used_at := Some now;
     bg_created_at := bg_created_at t |}.

Definition pg_try_claim (id : uuid) (w : Pg)
  : result (option BreakGlassToken) BreakGlassError * Pg :=
  match tokens w !! id with
  | Some t => if usable (clock w) t
              then (Ok (Some (mark_used (clock w) t)),
                    with_tokens w (<[id := mark_used (clock w) t]> (tokens w)))
              else (Ok None, w)
  | None => (Ok None, w)
  end.

Definition PgBreakGlassStore : BreakGlassStore Pg :=
  {| mint := pg_mint; list_tokens := pg_list; delete := pg_delete;
     list_candidates := pg_list_candidates; try_claim := pg_try_claim |}.

#[export] Instance pg_readonly : ReadOnlyLookup PgBreakGlassStore.
Proof. intros t s fq w. done. Qed.

(** The evidence recorder of this world. *)
Definition pg_record (e : BreakGlassUse) (w : Pg) : result unit EvidenceError * Pg :=
  if evidence_up w
  then (Ok tt, {| bg_tenants := bg_tenants w; tokens := tokens w; trail := trail w ++ [e]; clock := clock w;
                  next_id := next_id w; evidence_up := evidence_up w |})
  else (Err RecordFailed, w).

(** ** Lemmas on the gate *)

Section GateLemmas.
Context {Json W : Type}.
Context (inner : AuthzGate Json W) (store : BreakGlassStore W).
Context (record_required : BreakGlassUse → W → result unit EvidenceError * W).
Implicit Types (f : Facts Json) (w : W).

Lemma claim_first_Some fq cands w token w' :
  claim_first store fq cands w = (Some token, w') →
  ∃ cand w1, cand ∈ cands ∧ applies fq cand = true ∧
             try_claim store (bg_id cand) w1 = (Ok (Some token), w').
Proof.
  revert w. induction cands as [|c cands IH]; intros w H; [done|]. cbn [claim_first] in H.
  assert (∀ w1, claim_first store fq cands w1 = (Some token, w') → ∃ cand w2,
    cand ∈ c :: cands ∧ applies fq cand = true ∧
    try_claim store (bg_id cand) w2 = (Ok (Some token), w')) as Hrec.
  { intros w1 (cand & w2 & ? & ? & ?)%IH. exists cand, w2. split; [by right|done]. }
  destruct (scope_pattern_matches (bg_scope_pattern c) fq) eqn:Hs; simpl in H; [|by eapply Hrec].
  destruct (amr_subset_satisfied (bg_requires_amr c) principal_amr) eqn:Ha; simpl in H;
    [|by eapply Hrec].
  destruct (try_claim store (bg_id c) w) as [[[t|]|e] w1] eqn:Hc; [|by eapply Hrec..].
  simplify_eq. exists c, w. split; [left|]. split; [|done]. unfold applies. by rewrite Hs, Ha.
Qed.

Lemma claim_first_none_apply fq cands w :
  existsb (applies fq) cands = false → claim_first store fq cands w = (None, w).
Proof.
  induction cands as [|c cands IH]; [done|]. simpl. intros [Hc Hr]%orb_false_iff.
  unfold applies in Hc. destruct (scope_pattern_matches (bg_scope_pattern c) fq); simpl; [|auto].
  simpl in Hc. rewrite Hc. auto.
Qed.

Lemma authorize_not_deny f w v w1 :
  authorize_tool_call inner f w = (v, w1) → is_deny v = false →
  bg_authorize_tool_call inner store record_required f w = (v, w1).
Proof. intros H Hd. unfold bg_authorize_tool_call. rewrite H. by destruct v. Qed.

End GateLemmas.

(** ** Lemmas on the Postgres world *)

Lemma rows_elem w t : t ∈ rows w ↔ ∃ id, tokens w !! id = Some t.
Proof.
  unfold rows. rewrite list_elem_of_fmap. split.
  - intros ([id x] & -> & H%elem_of_map_to_list). by exists id.
  - intros [id H]. exists (id, t). split; [done|]. by apply elem_of_map_to_list.
Qed.

(** Every row is stored under its own id. *)
Definition keyed (w : Pg) : Prop := ∀ id t, tokens w !! id = Some t → bg_id t = id.

(** The tokens that can override a denial of the call. *)
Definition eligible {Json} (f : Facts Json) (w : Pg) (t : BreakGlassToken) : Prop :=
  bg_tenant_id t = tenant_id f ∧ bg_issued_to t = pf_sub (principal f) ∧
  usable (clock w) t = true ∧ applies (fq_of f) t = true.

Lemma candidates_spec {Json} (f : Facts Json) w t :
  keyed w →
  t ∈ filter (λ t, scope_pattern_matches (bg_scope_pattern t) (fq_of f) = true)
        (filter (λ t, ((bool_decide (bg_tenant_id t = tenant_id f)
                        && bool_decide (bg_issued_to t = pf_sub (principal f)))
                       && usable (clock w) t)%bool = true) (rows w)) ↔
  tokens w !! bg_id t = Some t ∧ bg_tenant_id t = tenant_id f ∧
  bg_issued_to t = pf_sub (principal f) ∧ usable (clock w) t = true ∧
  scope_pattern_matches (bg_scope_pattern t) (fq_of f) = true.
Proof.
  intros Hk. rewrite !list_elem_of_filter, rows_elem, !andb_true_iff, !bool_decide_eq_true. split.
  - intros (? & [[? ?] ?] & id & Hid). rewrite (Hk id t Hid). by repeat split.
  - intros (? & ? & ? & ? & ?). repeat split; eauto.
Qed.

(** The candidates of an unchanged table are claimable, so the first one that
    applies is the one claimed. *)
Lemma pg_claim_first fq cands w :
  Forall (λ t, tokens w !! bg_id t = Some t ∧ usable (clock w) t = true) cands →
  (existsb (applies fq) cands = false ∧ claim_first PgBreakGlassStore fq cands w = (None, w)) ∨
  ∃ t, t ∈ cands ∧ applies fq t = true ∧
       claim_first PgBreakGlassStore fq cands w
       = (Some (mark_used (clock w) t),
          with_tokens w (<[bg_id t := mark_used (clock w) t]> (tokens w))).
Proof.
  induction 1 as [|c cands [Hin Hu] _ IH]; [by left|].
  destruct (applies fq c) eqn:Ha.
  - right. exists c. split; [left|]. split; [done|]. unfold applies in Ha. bool_to_prop.
    cbn [claim_first]. rewrite H, H0. cbn [negb].
    change (try_claim PgBreakGlassStore (bg_id c) w) with (pg_try_claim (bg_id c) w).
    unfold pg_try_claim. by rewrite Hin, Hu.
  - assert (claim_first PgBreakGlassStore fq (c :: cands) w
            = claim_first PgBreakGlassStore fq cands w) as ->.
    { cbn [claim_first]. unfold applies in Ha.
      destruct (scope_pattern_matches (bg_scope_pattern c) fq); [|done]. simpl in Ha.
      by rewrite Ha. }
    destruct IH as [[He Hc]|(t & Ht & ? & Hc)].
    + left. split; [|done]. cbn [existsb]. by rewrite Ha, He.
    + right. exists t. split; [by right|done].
Qed.

(** ** Histories of the store *)

(** Store calls of all tasks in the order the database runs them, with the random
    id each mint draws; [TTime] is the passage of time. *)
Inductive TOp :=
  | TTime (now : time)
  | TMint (id : uuid) (m : NewBreakGlassToken)
  | TDelete (tenant : string) (id : uuid)
  | TList (tenant : string) (lifecycle : option BreakGlassLifecycle) (limit offset : Z)
  | TCandidates (tenant sub fq : string)
  | TClaim (id : uuid).

Definition at_time (w : Pg) (now : time) : Pg :=
  {| bg_tenants := bg_tenants w; tokens := tokens w; trail := trail w; clock := now;
     next_id := next_id w; evidence_up := evidence_up w |}.
Definition drawing (w : Pg) (id : uuid) : Pg :=
  {| bg_tenants := bg_tenants w; tokens := tokens w; trail := trail w; clock := clock w;
     next_id := id; evidence_up := evidence_up w |}.

(** The id claimed, if any, and the new state. *)
Definition texec (o : TOp) (w : Pg) : option uuid * Pg :=
  match o with
  | TTime now => (None, at_time w now)
  | TMint id m => (None, (pg_mint m (drawing w id)).2)
  | TDelete t id => (None, (pg_delete t id w).2)
  | TList t lifecycle limit offset => (None, (pg_list t lifecycle limit offset w).2)
  | TCandidates t sub fq => (None, (pg_list_candidates t sub fq w).2)
  | TClaim id => match pg_try_claim id w with
                 | (Ok (Some _), w') => (Some id, w')
                 | (_, w') => (None, w')
                 end
  end.

(** The ids claimed in a history, oldest first. *)
Fixpoint claims (h : list TOp) (w : Pg) : list uuid :=
  match h with
  | [] => []
  | o :: h' => let '(c, w') := texec o w in option_list c ++ claims h' w'
  end.

Definition drawn (h : list TOp) : list uuid :=
  omap (λ o, match o with TMint id _ => Some id | _ => None end) h.

(** No unused token is stored under [id]. *)
Definition dead (id : uuid) (w : Pg) : Prop :=
  ∀ t, tokens w !! id = Some t → bg_used_at t ≠ None.

Lemma texec_dead o w id :
  dead id w → id ∉ drawn [o] → dead id (texec o w).2 ∧ (texec o w).1 ≠ Some id.
Proof.
  intros Hd Hn. destruct o as [now|id' m|t id'|??? ?|???|id']; simpl.
  - split; [exact Hd|done].
  - split; [|done]. unfold pg_mint. simpl. destruct (is_empty _); [done|].
    destruct (tokens w !! id'); [done|]. destruct (negb _); [done|]. intros x. simpl.
    rewrite lookup_insert_ne; [apply Hd|]. intros ->. apply Hn. left.
  - split; [|done]. unfold pg_delete. destruct (tokens w !! id') as [x|]; [|done].
    case_bool_decide; [|done]. intros y. simpl. destruct (decide (id' = id)) as [->|].
    + by rewrite lookup_delete_eq.
    + rewrite lookup_delete_ne by done. apply Hd.
  - by split.
  - by split.
  - unfold pg_try_claim. destruct (tokens w !! id') as [x|] eqn:Hx; [|by split].
    destruct (usable (clock w) x) eqn:Hu; [|by split]. simpl.
    assert (id' ≠ id) as Hne.
    { intros ->. unfold usable in Hu. bool_to_prop. by destruct (Hd _ Hx). }
    split; [|congruence]. intros y. simpl. rewrite lookup_insert_ne by done. apply Hd.
Qed.

Lemma claims_dead h w id : dead id w → id ∉ drawn h → id ∉ claims h w.
Proof.
  revert w. induction h as [|o h IH]; intros w Hd Hn; simpl; [apply not_elem_of_nil|].
  assert (id ∉ drawn [o] ∧ id ∉ drawn h) as [Hn1 Hn2].
  { unfold drawn in *. destruct o; simpl in *; set_solver. }
  destruct (texec_dead o w id Hd Hn1) as [Hd' Hc].
  destruct (texec o w) as [c w'] eqn:Ho. simpl in *. specialize (IH w' Hd' Hn2).
  destruct c as [i|]; simpl; [|done]. rewrite elem_of_cons. intros [->|?]; done.
Qed.

Lemma texec_claim o w id w' :
  texec o w = (Some id, w') → dead id w' ∧ is_Some (tokens w !! id).
Proof.
  destruct o as [now|id' m|t id'|??? ?|???|id']; simpl; try done.
  unfold pg_try_claim. destruct (tokens w !! id') as [x|] eqn:Hx; [|done].
  destruct (usable (clock w) x) eqn:Hu; [|done]. intros ?; simplify_eq.
  split; [|by eexists]. intros y. simpl. rewrite lookup_insert_eq. intros ?; simplify_eq. done.
Qed.

Lemma texec_stored o w i :
  is_Some (tokens (texec o w).2 !! i) → is_Some (tokens w !! i) ∨ i ∈ drawn [o].
Proof.
  destruct o as [now|id' m|t id'|??? ?|???|id']; simpl.
  - by left.
  - unfold pg_mint. simpl. destruct (is_empty _); [by left|].
    destruct (tokens w !! id'); [by left|]. destruct (negb _); [by left|]. simpl.
    destruct (decide (id' = i)) as [->|]; [right; left|]. rewrite lookup_insert_ne by done. by left.
  - unfold pg_delete. destruct (tokens w !! id'); [|by left]. case_bool_decide; [|by left].
    simpl. intros Hi. left. destruct (decide (id' = i)) as [->|].
    + rewrite lookup_delete_eq in Hi. by destruct Hi.
    + by rewrite lookup_delete_ne in Hi.
  - by left.
  - by left.
  - unfold pg_try_claim. destruct (tokens w !! id') as [x|] eqn:Hx; [|by left].
    destruct (usable (clock w) x); [|by left]. simpl. left.
    destruct (decide (id' = i)) as [->|]; [by eexists|]. by rewrite lookup_insert_ne in H.
Qed.

Lemma claims_NoDup h w :
  NoDup (drawn h) → (∀ i, is_Some (tokens w !! i) → i ∉ drawn h) → NoDup (claims h w).
Proof.
  revert w. induction h as [|o h IH]; intros w Hnd Hst; simpl; [constructor|].
  assert (drawn (o :: h) = drawn [o] ++ drawn h) as Hdr by (by destruct o).
  rewrite Hdr in Hnd, Hst. apply NoDup_app in Hnd as (_ & Hdis & Hnd).
  destruct (texec o w) as [c w'] eqn:Ho.
  assert (NoDup (claims h w')) as Hrest.
  { apply IH; [done|]. intros i Hi. assert (w' = (texec o w).2) as -> by (by rewrite Ho).
    apply texec_stored in Hi as [Hi|Hi]; [|by apply Hdis].
    specialize (Hst i Hi). set_solver. }
  destruct c as [id|]; [|done]. simpl. apply NoDup_cons. split; [|done].
  destruct (texec_claim _ _ _ _ Ho) as [Hd Hin]. apply claims_dead; [done|].
  specialize (Hst id Hin). set_solver.
Qed.

(** ** The gate on the Postgres world *)

Lemma override_cases {Json} (inner : AuthzGate Json Pg) `{!PureGate inner} (f : Facts Json) w :
  keyed w →
  let '(v, w') := authorize_tool_call (BreakGlassGate inner PgBreakGlassStore pg_record) f w in
  let v0 := (authorize_tool_call inner f w).1 in
  match v0 with
  | Deny reason _ _ =>
      ((¬ ∃ t, tokens w !! bg_id t = Some t ∧ eligible f w t) ∧ v = v0 ∧ w' = w) ∨
      (∃ t, tokens w !! bg_id t = Some t ∧ eligible f w t ∧
            tokens w' = <[bg_id t := mark_used (clock w) t]> (tokens w) ∧
            if evidence_up w
            then v = Allow [] ∧ trail w' = trail w ++ [use_event f (mark_used (clock w) t) reason]
            else v = v0 ∧ trail w' = trail w)
  | _ => v = v0 ∧ w' = w
  end.
Proof.
  intros Hk. simpl. unfold bg_authorize_tool_call.
  pose proof (pure_authorize f w) as Hpure.
  destruct (authorize_tool_call inner f w) as [v0 w1] eqn:Hin. simpl in Hpure. subst w1.
  destruct v0 as [|reason pids rs| |]; simpl; try done.
  unfold try_override. cbn [list_candidates PgBreakGlassStore]. unfold pg_list_candidates.
  match goal with |- context [claim_first _ _ ?c _] => set (cands := c) end.
  assert (∀ t, t ∈ cands ↔ tokens w !! bg_id t = Some t ∧ bg_tenant_id t = tenant_id f ∧
    bg_issued_to t = pf_sub (principal f) ∧ usable (clock w) t = true ∧
    scope_pattern_matches (bg_scope_pattern t) (fq_of f) = true) as Hspec
    by (intros t; by apply candidates_spec).
  destruct (pg_claim_first (fq_of f) cands w) as [[Hnone ->]|(t & Ht & Ha & ->)].
  { apply Forall_forall. intros t (? & _ & _ & ? & _)%Hspec. done. }
  - left. split; [|done]. intros (t & Hst & Htn & Hto & Hu & Ha).
    assert (t ∈ cands) as Hc.
    { apply Hspec. unfold applies in Ha. bool_to_prop. by repeat split. }
    assert (existsb (applies (fq_of f)) cands = true) as He; [|congruence].
    apply existsb_exists. exists t. split; [by apply list_elem_of_In|done].
  - apply Hspec in Ht as (Hst & Htn & Hto & Hu & Hs).
    unfold pg_record. cbn [evidence_up with_tokens].
    destruct (evidence_up w) eqn:Hev; right; exists t; split; try done; by repeat split.
Qed.

(** ** Properties *)

(** C18. Single use: whatever the interleaving of mints, revocations, listings,
    candidate lookups and claims by any number of tasks, and however the clock
    moves, no token is claimed twice, provided each mint draws its own random id
    and none that is already stored; and every token claimed was unused when the
    history began or was minted in it. *)
Theorem token_claimed_at_most_once (h : list TOp) (w : Pg) :
  NoDup (drawn h) → (∀ i, is_Some (tokens w !! i) → i ∉ drawn h) →
  NoDup (claims h w) ∧
  ∀ i, i ∈ claims h w →
    i ∈ drawn h ∨ ∃ t, tokens w !! i = Some t ∧ bg_used_at t = None.
Proof.
  intros Hnd Hst. split; [by apply claims_NoDup|]. intros i Hi.
  destruct (decide (i ∈ drawn h)) as [|Hn]; [by left|right].
  destruct (tokens w !! i) as [t|] eqn:Ht.
  - exists t. split; [done|]. destruct (bg_used_at t) eqn:Hu; [|done].
    destruct (claims_dead h w i); [|done..]. intros x Hx. simplify_eq. by rewrite Hu.
  - destruct (claims_dead h w i); [|done..]. intros x Hx. by rewrite Ht in Hx.
Qed.

Definition demo_mint (scope : string) : NewBreakGlassToken :=
  {| nt_tenant_id := "acme"; nt_issued_to := "oncall"; nt_issued_by := "admin";
     nt_reason := "incident 7"; nt_scope_pattern := scope; nt_requires_amr := [];
     nt_expires_at := 100 |}.
Definition demo_world : Pg :=
  {| bg_tenants := {["acme"]}; tokens := ∅; trail := []; clock := 1; next_id := 5;
     evidence_up := true |}.

(** Token 4 is already stored, unused; 5 and 6 are minted. *)
Definition demo_stocked : Pg := (pg_mint (demo_mint "slack.*") (drawing demo_world 4)).2.
Definition demo_history : list TOp :=
  [TMint 5 (demo_mint "github.*"); TTime 9; TCandidates "acme" "oncall" "github.x"; TClaim 5;
   TClaim 4; TClaim 5; TList "acme" (Some Used) 10 0; TMint 6 (demo_mint "github.*");
   TDelete "acme" 6; TClaim 6; TClaim 4].

Lemma token_claimed_at_most_once_witness :
  NoDup (claims demo_history demo_stocked) ∧ claims demo_history demo_stocked = [5%N; 4%N].
Proof.
  split; [|vm_compute; reflexivity].
  apply (token_claimed_at_most_once demo_history demo_stocked).
  - apply (bool_decide_unpack _). vm_compute. exact I.
  - intros i. change (tokens demo_stocked)
      with (<[4%N := new_token 4 1 (demo_mint "slack.*")]> (∅ : gmap uuid BreakGlassToken)).
    intros [t [[<- _]|[_ Ht]]%lookup_insert_Some]; [|by rewrite lookup_empty in Ht].
    apply (bool_decide_unpack _). vm_compute. exact I.
Defined.

(** The gate allows only what the inner gate allows or what a claimed and
    audited token overrides: when a call is allowed, either the inner gate
    returned this very verdict, or it denied the call, one of the candidates the
    store listed for this tenant, principal and tool applies to it, the store
    confirmed the single-use claim of that candidate, and the audit event naming
    the claimed token was recorded, as the last thing the gate did. Nothing is
    assumed of the store, the recorder or what other tasks do in between. *)
Theorem allow_is_inner_or_claimed_and_audited {Json W} (inner : AuthzGate Json W)
    (store : BreakGlassStore W) record f w ids w' :
  authorize_tool_call (BreakGlassGate inner store record) f w = (Allow ids, w') →
  authorize_tool_call inner f w = (Allow ids, w') ∨
  ∃ reason pids reasons w1 cands w2 cand w3 token w4 u,
    authorize_tool_call inner f w = (Deny reason pids reasons, w1) ∧
    list_candidates store (tenant_id f) (pf_sub (principal f)) (fq_of f) w1 = (Ok cands, w2) ∧
    cand ∈ cands ∧ applies (fq_of f) cand = true ∧
    try_claim store (bg_id cand) w3 = (Ok (Some token), w4) ∧
    record (use_event f token reason) w4 = (Ok u, w') ∧ ids = [].
Proof.
  simpl. unfold bg_authorize_tool_call. intros H.
  destruct (authorize_tool_call inner f w) as [v w1] eqn:Hin.
  destruct v as [ids0|reason pids reasons| |]; simplify_eq; [by left|]. right.
  unfold try_override in H.
  destruct (list_candidates _ _ _ _ _) as [[cands|e] w2] eqn:Hl; [|done].
  destruct (claim_first store (fq_of f) cands w2) as [[token|] w4] eqn:Hc; [|done].
  destruct (record (use_event f token reason) w4) as [[u|e] w5] eqn:Hr; [|done]. simplify_eq.
  apply claim_first_Some in Hc as (cand & w3 & ? & ? & ?).
  exists reason, pids, reasons, w1, cands, w2, cand, w3, token, w4, u. by repeat split.
Qed.

Definition demo_principal : Principal unit :=
  {| sub := "oncall"; email := None; groups := []; issuer := "idp"; scopes := [];
     tenant := "acme"; auth_method := Oauth; raw_token := None; scim := None;
     enrichment_blocked := None; roles := []; api_key_profile_restrictions := None |}.
Definition demo_tool : ToolFacts :=
  {| tf_server := "github"; tf_name := "merge"; tf_risk := High; tf_side_effects := true;
     tf_pii := false; tf_requires_approval := false; tf_requires_approval_known := true |}.
Definition demo_facts : Facts unit := build_call_facts demo_principal demo_tool.
Definition deny_all {W} : AuthzGate unit W :=
  gate_with_defaults (λ _ _ w, (true, w)) (λ _ w, (Deny "forbidden" ["p1"] [], w)).
#[export] Instance deny_all_pure {W} : PureGate (@deny_all W).
Proof. by apply gate_with_defaults_pure. Qed.
Definition demo_gate : AuthzGate unit Pg := BreakGlassGate deny_all PgBreakGlassStore pg_record.
Definition armed_world : Pg := (pg_mint (demo_mint "github.*") demo_world).2.

Lemma armed_keyed : keyed armed_world.
Proof.
  intros i x Hx. assert (Forall (λ y, bg_id y.2 = y.1) (map_to_list (tokens armed_world))) as Hall
    by (vm_compute; repeat constructor).
  rewrite Forall_forall in Hall. by apply (Hall (i, x)), elem_of_map_to_list.
Qed.

Lemma allow_is_inner_or_claimed_and_audited_witness :
  ∃ w', authorize_tool_call demo_gate demo_facts armed_world = (Allow [], w') ∧
    (authorize_tool_call deny_all demo_facts armed_world = (Allow [], w') ∨
     ∃ cand w3 token w4, applies (fq_of demo_facts) cand = true ∧
       try_claim PgBreakGlassStore (bg_id cand) w3 = (Ok (Some token), w4)).
Proof.
  eexists. split; [vm_compute; reflexivity|].
  destruct (allow_is_inner_or_claimed_and_audited deny_all PgBreakGlassStore pg_record demo_facts
    armed_world [] (authorize_tool_call demo_gate demo_facts armed_world).2) as
    [H|(?&?&?&?&?&?&cand&w3&token&w4&?&?&?&?&?&?&?)].
  - vm_compute. reflexivity.
  - left. exact H.
  - right. exists cand, w3, token, w4. split; assumption.
Defined.

(** What the gate does on the Postgres store: a verdict other than a denial is
    returned untouched and nothing is consumed. On a denial, without an eligible
    token (same tenant, issued to the caller, unused, unexpired, scope covering
    the tool, no authentication method demanded) the denial stands and the world
    is unchanged; with one, exactly one eligible token is burned, and the call is
    allowed with the audit event appended if the evidence store accepts it, and
    stays denied otherwise. *)
Theorem override_spec {Json} (inner : AuthzGate Json Pg) `{!PureGate inner} (f : Facts Json) w :
  keyed w →
  let '(v, w') := authorize_tool_call (BreakGlassGate inner PgBreakGlassStore pg_record) f w in
  let v0 := (authorize_tool_call inner f w).1 in
  match v0 with
  | Deny reason _ _ =>
      ((¬ ∃ t, tokens w !! bg_id t = Some t ∧ eligible f w t) ∧ v = v0 ∧ w' = w) ∨
      (∃ t, tokens w !! bg_id t = Some t ∧ eligible f w t ∧
            tokens w' = <[bg_id t := mark_used (clock w) t]> (tokens w) ∧
            if evidence_up w
            then v = Allow [] ∧ trail w' = trail w ++ [use_event f (mark_used (clock w) t) reason]
            else v = v0 ∧ trail w' = trail w)
  | _ => v = v0 ∧ w' = w
  end.
Proof. apply override_cases; assumption. Qed.

Lemma override_spec_witness :
  ∃ t, tokens armed_world !! bg_id t = Some t ∧
       (authorize_tool_call demo_gate demo_facts armed_world).1 = Allow [] ∧
       (authorize_tool_call demo_gate demo_facts
          (authorize_tool_call demo_gate demo_facts armed_world).2).1 = Deny "forbidden" ["p1"] [].
Proof.
  pose proof (override_spec deny_all demo_facts armed_world armed_keyed) as H.
  destruct (authorize_tool_call (BreakGlassGate deny_all PgBreakGlassStore pg_record) demo_facts
    armed_world) as [v w'] eqn:Ha.
  destruct H as [(_ & Hv & _)|(t & Ht & _)].
  - vm_compute in Ha. injection Ha as <- <-. discriminate Hv.
  - exists t. split; [exact Ht|]. split; vm_compute; reflexivity.
Defined.

(** Only a dispatch can consume a token: over a gate without effects and a
    store whose lookup is read-only, every method of the break-glass gate except
    [authorize_tool_call] (discovery, listing, resource and skill reads, the
    advisory probe, the built-in overlay) leaves the world unchanged. *)
Theorem only_dispatch_consumes {Json W} (inner : AuthzGate Json W) `{!PureGate inner}
    (store : BreakGlassStore W) `{!ReadOnlyLookup store} record w :
  let g := BreakGlassGate inner store record in
  (∀ p s, (may_discover_server g p s w).2 = w) ∧ (∀ p s, (may_list_resources g p s w).2 = w) ∧
  (∀ p s u r, (authorize_resource_read g p s u r w).2 = w) ∧
  (∀ p k, (authorize_skill_list g p k w).2 = w) ∧ (∀ p k, (authorize_skill_fetch g p k w).2 = w) ∧
  (∀ p k, (authorize_skill_read g p k w).2 = w) ∧ (∀ f, (probe_tool_call g f w).2 = w) ∧
  (∀ p t, (may_call_tool g p t w).2 = w) ∧ (∀ p t c, (may_call_tool_on_channel g p t c w).2 = w) ∧
  (∀ p t, (authorize_builtin_call g p t w).2 = w).
Proof.
  simpl. repeat split; intros; try apply PureGate0.
  unfold bg_probe_tool_call. rewrite pure_probe.
  destruct (authorize_tool_call inner f w).1; simpl; try done.
  unfold override_could_apply. pose proof (lookup_readonly (tenant_id f) (pf_sub (principal f)) (fq_of f) w).
  destruct (list_candidates _ _ _ _ _) as [[c|e] w2]; simpl in *; subst; by repeat case_match.
Qed.

Lemma only_dispatch_consumes_witness :
  (probe_tool_call demo_gate demo_facts armed_world).2 = armed_world
  ∧ (may_call_tool demo_gate demo_principal demo_tool armed_world).2 = armed_world
  ∧ (probe_tool_call demo_gate demo_facts armed_world).1 = ConsumingOverridePossible.
Proof.
  destruct (only_dispatch_consumes deny_all PgBreakGlassStore pg_record armed_world)
    as (_ & _ & _ & _ & _ & _ & Hp & Hm & _).
  split; [apply Hp|]. split; [apply Hm|]. vm_compute. reflexivity.
Defined.

(** The advisory probe is sound: a verdict the probe settles on is the verdict
    the consuming evaluation returns at that moment, reached without changing
    anything. *)
Theorem settled_probe_is_the_verdict {Json W} (inner : AuthzGate Json W) `{!PureGate inner}
    (store : BreakGlassStore W) `{!ReadOnlyLookup store} record f w v w' :
  probe_tool_call (BreakGlassGate inner store record) f w = (Settled v, w') →
  authorize_tool_call (BreakGlassGate inner store record) f w = (v, w) ∧ w' = w.
Proof.
  simpl. unfold bg_probe_tool_call, bg_authorize_tool_call. rewrite pure_probe.
  pose proof (pure_authorize f w) as Hpure.
  destruct (authorize_tool_call inner f w) as [v0 w1]. simpl in *. subst w1.
  intros H. destruct v0 as [|reason ids rs| |]; try (by simplify_eq).
  unfold override_could_apply, try_override in *.
  pose proof (lookup_readonly (tenant_id f) (pf_sub (principal f)) (fq_of f) w) as Hro.
  destruct (list_candidates _ _ _ _ _) as [[c|e] w2]; simpl in *; subst w2; [|done].
  destruct (existsb (applies (fq_of f)) c) eqn:He; simplify_eq.
  by rewrite claim_first_none_apply.
Qed.

Lemma settled_probe_is_the_verdict_witness :
  authorize_tool_call demo_gate demo_facts demo_world = (Deny "forbidden" ["p1"] [], demo_world)
  ∧ demo_world = demo_world.
Proof.
  apply (settled_probe_is_the_verdict deny_all PgBreakGlassStore pg_record demo_facts demo_world).
  vm_compute. reflexivity.
Defined.

(** A scope pattern covers exactly the tool it names, or, when it ends in
    [.*], every name that continues the part before it with a dot and at least
    one more byte, further dots included; an empty pattern covers nothing. *)
Theorem scope_pattern_spec pattern fq :
  scope_pattern_matches pattern fq = true ↔
  pattern ≠ "" ∧ (pattern = fq ∨
    ∃ prefix rest, pattern = prefix +:+ ".*" ∧ fq = prefix +:+ "." +:+ rest ∧ rest ≠ "").
Proof.
  unfold scope_pattern_matches. destruct pattern as [|a p0] eqn:Hp; simpl is_empty.
  { split; [done|]. by intros [? _]. }
  rewrite <- Hp. assert (pattern ≠ "") as Hne by (by rewrite Hp). clear a p0 Hp.
  case_bool_decide as Heq; [by split; auto|]. split.
  - destruct (strip_suffix ".*" pattern) as [prefix|] eqn:Hs; [|done].
    apply strip_suffix_Some in Hs.
    destruct (strip_prefix prefix fq) as [rest|] eqn:Hr; [|done]. apply strip_prefix_Some in Hr.
    intros [Hd Hl]%andb_true_iff. split; [done|]. right. exists prefix.
    unfold starts_with in Hd. apply bool_decide_eq_true in Hd as [rest' Hd].
    apply strip_prefix_Some in Hd. exists rest'. rewrite <- Hd. repeat split; try done.
    intros ->. by rewrite Hd in Hl.
  - intros [_ [?|(prefix & rest & Hpat & Hfq & Hrest)]]; [done|].
    assert (strip_suffix ".*" pattern = Some prefix) as -> by (by apply strip_suffix_Some).
    assert (strip_prefix prefix fq = Some ("." +:+ rest)) as -> by (by apply strip_prefix_Some).
    apply andb_true_iff. split.
    + unfold starts_with. apply bool_decide_eq_true. exists rest. by apply strip_prefix_Some.
    + apply Nat.ltb_lt. unfold len. rewrite as_bytes_app, length_app. simpl.
      destruct rest; [done|]. simpl. lia.
Qed.

End BreakGlass.
