(* ===== verification/DecisionCache.v ===== *)
(** * The decision cache and its key

    Model of crates/waygate-authz/src/decision_cache.rs. The key is a digest of a
    byte stream that a family of [hash_*] functions feeds to the hasher; here
    each of them returns the bytes it feeds. The digest (blake3) is a parameter
    wherever it is used; the stream itself is fully modelled, and it determines
    every fact but the timestamp. *)

From S2P Require Import Prelude RustStr Encoding Facts.

Module DecisionCache.
Import Facts.Facts.
Export Encoding.Encoding.

(** ** The byte stream *)

Definition hash_count (count : nat) : bytes := le_bytes 8 (N.of_nat count).
Definition hash_str (value : string) : bytes := hash_count (len value) ++ as_bytes value.
Definition hash_bool (b : bool) : bytes := [byte (if b then 1 else 0)].

Definition hash_option {A} (hash_present : A → bytes) (v : option A) : bytes :=
  match v with
  | None => [byte 0]
  | Some x => byte 1 :: hash_present x
  end.

Definition hash_opt_str : option string → bytes := hash_option hash_str.
Definition hash_strs (values : list string) : bytes :=
  hash_count (length values) ++ concat (hash_str <$> values).

Definition hash_risk (r : RiskTier) : bytes :=
  [byte match r with Low => 0 | Medium => 1 | High => 2 end].
Definition hash_channel (c : InvocationChannelFact) : bytes :=
  [byte match c with Direct => 0 | CodeMode => 1 end].
Definition hash_ip (ip : IpAddr) : bytes :=
  match ip with
  | V4 a => byte 4 :: octets 4 a
  | V6 a => byte 6 :: octets 16 a
  end.

Section Streams.
Context {Json : Type} (json_print : Json → string).

Definition hash_scim (s : ScimFacts Json) : bytes :=
  hash_str (scim_user_id s) ++ hash_str (scim_user_name s) ++
  hash_opt_str (scim_external_id s) ++ hash_bool (scim_active s) ++
  hash_strs (scim_group_names s) ++ hash_str (json_print (scim_attrs s)).

Definition hash_principal (p : PrincipalFacts Json) : bytes :=
  hash_str (pf_sub p) ++ hash_opt_str (pf_email p) ++ hash_strs (pf_groups p) ++
  hash_strs (pf_scopes p) ++ hash_str (pf_auth_method p) ++ hash_strs (pf_roles p) ++
  hash_option hash_scim (pf_scim p).

Definition hash_client (client_id : option string) : bytes := hash_opt_str client_id.
Definition hash_tenant (tenant_id : string) : bytes := hash_str tenant_id.

Definition hash_action (a : ActionFacts) : bytes :=
  hash_str (kind a) ++ hash_opt_str (required_scope a).

Definition hash_resource (r : ResourceFacts) : bytes :=
  hash_str (rf_server r) ++ hash_str (rf_tool r) ++ hash_risk (rf_risk r) ++
  hash_bool (rf_side_effects r) ++ hash_bool (rf_pii r) ++
  hash_opt_str (rf_data_classification r) ++ hash_opt_str (rf_cost_class r) ++
  hash_opt_str (rf_uri r) ++ hash_opt_str (rf_source_origin r) ++
  hash_opt_str (rf_artifact_digest r) ++ hash_opt_str (rf_source_tree_digest r) ++
  hash_opt_str (rf_skill_uri r) ++ hash_opt_str (rf_revision_digest r) ++
  hash_opt_str (rf_content_digest r) ++ hash_opt_str (rf_source_path r) ++
  hash_opt_str (rf_source_object r) ++ hash_opt_str (rf_resource_type r) ++
  hash_opt_str (rf_operation r).

Definition hash_email_recipients (e : EmailRecipients) : bytes :=
  hash_bool (valid e) ++ hash_count (length (domains e)) ++ concat (hash_str <$> domains e).

Definition hash_request (r : RequestFacts) : bytes :=
  hash_bool (discovery_only r) ++ hash_option hash_email_recipients (email_recipients r) ++
  hash_opt_str (target_domain r) ++
  hash_option (λ count, le_bytes 4 (Z.to_N count)) (recipient_count r) ++
  hash_option hash_bool (destructive r) ++ hash_strs (file_paths r) ++
  hash_str (argument_hash r).

(** The timestamp is left out. *)
Definition hash_context (c : RuntimeContextFacts) : bytes :=
  hash_bool (approval_present c) ++ hash_bool (mfa c) ++ hash_option hash_ip (source_ip c) ++
  hash_channel (channel c).

Definition hash_facts (f : Facts Json) : bytes :=
  hash_principal (principal f) ++ hash_client (client_id f) ++ hash_tenant (tenant_id f) ++
  hash_action (action f) ++ hash_resource (resource f) ++ hash_option hash_request (request f) ++
  hash_context (context f).

(** What [DecisionKey::new] feeds to the hasher. *)
Definition key_stream (f : Facts Json) (strict : bool) : bytes :=
  [byte (if strict then 1 else 0)] ++ hash_facts f.

(** ** Rust's bounds on the values

    Lengths are below 2^64, a [u32] below 2^32, addresses of their width. *)

Definition wf_scim (s : ScimFacts Json) : Prop :=
  wf_str (scim_user_id s) ∧ wf_str (scim_user_name s) ∧ wf_opt wf_str (scim_external_id s) ∧
  wf_strs (scim_group_names s) ∧ wf_str (json_print (scim_attrs s)).
Definition wf_principal (p : PrincipalFacts Json) : Prop :=
  wf_str (pf_sub p) ∧ wf_opt wf_str (pf_email p) ∧ wf_strs (pf_groups p) ∧
  wf_strs (pf_scopes p) ∧ wf_str (pf_auth_method p) ∧ wf_strs (pf_roles p) ∧
  wf_opt wf_scim (pf_scim p).
Definition wf_action (a : ActionFacts) : Prop :=
  wf_str (kind a) ∧ wf_opt wf_str (required_scope a).
Definition wf_resource (r : ResourceFacts) : Prop :=
  wf_str (rf_server r) ∧ wf_str (rf_tool r) ∧
  Forall (wf_opt wf_str) [rf_data_classification r; rf_cost_class r; rf_uri r;
    rf_source_origin r; rf_artifact_digest r; rf_source_tree_digest r; rf_skill_uri r;
    rf_revision_digest r; rf_content_digest r; rf_source_path r; rf_source_object r;
    rf_resource_type r; rf_operation r].
Definition wf_recipients (e : EmailRecipients) : Prop := wf_strs (domains e).
Definition wf_request (r : RequestFacts) : Prop :=
  wf_opt wf_recipients (email_recipients r) ∧ wf_opt wf_str (target_domain r) ∧
  wf_opt (λ n, 0 ≤ n ≤ u32_max) (recipient_count r) ∧ wf_strs (file_paths r) ∧
  wf_str (argument_hash r).
Definition wf_ip (ip : IpAddr) : Prop :=
  match ip with V4 a => (a < 256 ^ 4)%N | V6 a => (a < 256 ^ 16)%N end.
Definition wf_facts (f : Facts Json) : Prop :=
  wf_principal (principal f) ∧ wf_opt wf_str (client_id f) ∧ wf_str (tenant_id f) ∧
  wf_action (action f) ∧ wf_resource (resource f) ∧ wf_opt wf_request (request f) ∧
  wf_opt wf_ip (source_ip (context f)).

(** What a key can tell apart: everything but the timestamp, SCIM attributes by
    their printed form. *)
Definition keyed_scim (s : ScimFacts Json) : ScimFacts string :=
  {| scim_user_id := scim_user_id s; scim_user_name := scim_user_name s;
     scim_external_id := scim_external_id s; scim_active := scim_active s;
     scim_group_names := scim_group_names s; scim_attrs := json_print (scim_attrs s) |}.
Definition keyed_principal (p : PrincipalFacts Json) : PrincipalFacts string :=
  {| pf_sub := pf_sub p; pf_email := pf_email p; pf_groups := pf_groups p;
     pf_scopes := pf_scopes p; pf_auth_method := pf_auth_method p; pf_roles := pf_roles p;
     pf_scim := keyed_scim <$> pf_scim p |}.
Definition keyed_context (c : RuntimeContextFacts) : RuntimeContextFacts :=
  {| approval_present := approval_present c; mfa := mfa c; rc_time := 0;
     source_ip := source_ip c; channel := channel c |}.
Definition keyed_facts (f : Facts Json) : Facts string :=
  {| principal := keyed_principal (principal f); client_id := client_id f;
     tenant_id := tenant_id f; action := action f; resource := resource f;
     request := request f; context := keyed_context (context f) |}.

End Streams.

(** ** The stream determines the facts *)

Section PrefixFree.

Lemma pf_count : prefix_free fits id hash_count.
Proof.
  intros x y r s Hx Hy H. unfold hash_count in H.
  destruct (pf_le_bytes 8 _ _ _ _ Hx Hy H) as [Hn ->]. split; [|done]. simpl in *. lia.
Qed.

Lemma pf_str : prefix_free wf_str id hash_str.
Proof. exact pf_len_prefixed. Qed.

Lemma pf_bool : prefix_free (λ _, True) id hash_bool.
Proof. intros [] [] r s _ _ H; simpl in H; by simplify_eq. Qed.
Lemma pf_risk : prefix_free (λ _, True) id hash_risk.
Proof. intros [] [] r s _ _ H; simpl in H; by simplify_eq. Qed.
Lemma pf_channel : prefix_free (λ _, True) id hash_channel.
Proof. intros [] [] r s _ _ H; simpl in H; by simplify_eq. Qed.

Lemma pf_option {A B} (P : A → Prop) (view : A → B) e :
  prefix_free P view e → prefix_free (wf_opt P) (fmap view) (hash_option e).
Proof.
  intros He [x|] [y|] r s Hx Hy H; simpl in *; simplify_eq; [|done].
  destruct (He _ _ _ _ Hx Hy H) as [-> ->]. done.
Qed.

Lemma pf_option_id {A} (P : A → Prop) (e : A → bytes) :
  prefix_free P id e → prefix_free (wf_opt P) id (hash_option e).
Proof.
  intros He x y r s Hx Hy H. destruct (pf_option _ _ _ He _ _ _ _ Hx Hy H) as [Hv ->].
  split; [|done]. destruct x, y; by simplify_eq/=.
Qed.

Lemma pf_opt_str : prefix_free (wf_opt wf_str) id hash_opt_str.
Proof. apply pf_option_id, pf_str. Qed.

Lemma pf_strs : prefix_free wf_strs id hash_strs.
Proof.
  intros x y r s [Hfx Hx] [Hfy Hy] H. unfold hash_strs in H. rewrite <- !app_assoc in H.
  destruct (pf_count _ _ _ _ Hfx Hfy H) as [Hl H']. by apply pf_elements.
Qed.

Lemma pf_ip : prefix_free wf_ip id hash_ip.
Proof.
  intros x y r s Hx Hy H. unfold hash_ip in H.
  destruct x as [x|x], y as [y|y]; rewrite <- !app_comm_cons in H.
  - apply (f_equal (drop 1)) in H. cbn [drop] in H.
    destruct (pf_octets 4 x y r s Hx Hy H) as [Hv ->]. unfold id in Hv. by subst.
  - apply (f_equal head) in H. cbn [head] in H. by injection H.
  - apply (f_equal head) in H. cbn [head] in H. by injection H.
  - apply (f_equal (drop 1)) in H. cbn [drop] in H.
    destruct (pf_octets 16 x y r s Hx Hy H) as [Hv ->]. unfold id in Hv. by subst.
Qed.

Lemma pf_email : prefix_free wf_recipients id hash_email_recipients.
Proof.
  intros x y r s [Hf1 H1] [Hf2 H2] H. unfold hash_email_recipients in H. rewrite <- !app_assoc in H.
  peel pf_bool. peel pf_count. apply pf_elements in H as [Hd H]; auto. by_fields x y.
Qed.

Lemma pf_u32 : prefix_free (λ n, 0 ≤ n ≤ u32_max) id (λ n, le_bytes 4 (Z.to_N n)).
Proof.
  intros x y r s Hx Hy H.
  destruct (pf_le_bytes 4 (Z.to_N x) (Z.to_N y) r s) as [Hv ->]; try done;
    [change (256 ^ N.of_nat 4)%N with 4294967296%N; unfold u32_max in *; lia..|].
  split; [|done]. unfold id in *. lia.
Qed.

Lemma pf_action : prefix_free wf_action id hash_action.
Proof.
  intros x y r s (? & ?) (? & ?) Heq. unfold hash_action in Heq. rewrite <- !app_assoc in Heq.
  peel pf_str. peel pf_opt_str. by_fields x y.
Qed.

Lemma pf_resource : prefix_free wf_resource id hash_resource.
Proof.
  intros x y r s (? & ? & Hx) (? & ? & Hy) Heq. unfold hash_resource in Heq.
  rewrite !Forall_cons in Hx, Hy. destruct_and!. rewrite <- !app_assoc in Heq.
  peel pf_str. peel pf_str. peel pf_risk. peel pf_bool. peel pf_bool.
  do 13 peel pf_opt_str. by_fields x y.
Qed.

Lemma pf_request : prefix_free wf_request id hash_request.
Proof.
  intros x y r s (? & ? & ? & ? & ?) (? & ? & ? & ? & ?) Heq. unfold hash_request in Heq.
  rewrite <- !app_assoc in Heq. peel pf_bool. peel (pf_option_id _ _ pf_email). peel pf_opt_str.
  peel (pf_option_id _ _ pf_u32).
  destruct (pf_option_id _ _ pf_bool (destructive x) (destructive y) _ _
    ltac:(by destruct (destructive x)) ltac:(by destruct (destructive y)) Heq) as [Hd Heq'].
  clear Heq. rename Heq' into Heq. peel pf_strs. peel pf_str. by_fields x y.
Qed.

Section WithJson.
Context {Json : Type} (print : Json → string).

Lemma pf_scim : prefix_free (wf_scim print) (keyed_scim print) (hash_scim print).
Proof.
  intros x y r s (? & ? & ? & ? & ?) (? & ? & ? & ? & ?) Heq. unfold hash_scim in Heq.
  rewrite <- !app_assoc in Heq. peel pf_str. peel pf_str. peel pf_opt_str. peel pf_bool.
  peel pf_strs. peel pf_str. split; [|done]. unfold keyed_scim. congruence.
Qed.

Lemma pf_principal :
  prefix_free (wf_principal print) (keyed_principal print) (hash_principal print).
Proof.
  intros x y r s (? & ? & ? & ? & ? & ? & ?) (? & ? & ? & ? & ? & ? & ?) Heq.
  unfold hash_principal in Heq. rewrite <- !app_assoc in Heq.
  peel pf_str. peel pf_opt_str. peel pf_strs. peel pf_strs. peel pf_str. peel pf_strs.
  peel (pf_option _ _ _ pf_scim). split; [|done]. unfold keyed_principal. congruence.
Qed.

Lemma pf_context :
  prefix_free (λ c, wf_opt wf_ip (source_ip c)) keyed_context hash_context.
Proof.
  intros x y r s Hx Hy Heq. unfold hash_context in Heq. rewrite <- !app_assoc in Heq.
  peel pf_bool. peel pf_bool. peel (pf_option_id _ _ pf_ip). peel pf_channel.
  split; [|done]. unfold keyed_context. congruence.
Qed.

Lemma pf_facts : prefix_free (wf_facts print) (keyed_facts print) (hash_facts print).
Proof.
  intros x y r s (? & ? & ? & ? & ? & ? & ?) (? & ? & ? & ? & ? & ? & ?) Heq.
  unfold hash_facts in Heq. rewrite <- !app_assoc in Heq.
  peel pf_principal. peel pf_opt_str. peel pf_str. peel pf_action. peel pf_resource.
  peel (pf_option_id _ _ pf_request). peel pf_context.
  split; [|done]. unfold keyed_facts. congruence.
Qed.

Lemma key_stream_inj f g b c :
  wf_facts print f → wf_facts print g → key_stream print f b = key_stream print g c →
  b = c ∧ keyed_facts print f = keyed_facts print g.
Proof.
  intros Hf Hg Heq. change (hash_bool b ++ hash_facts print f = hash_bool c ++ hash_facts print g) in Heq.
  peel pf_bool. split; [done|].
  apply (pf_facts f g [] []); [done|done|]. by rewrite !app_nil_r.
Qed.

End WithJson.
End PrefixFree.

(** ** The cache *)

Section Cache.
Context {K R : Type} `{Countable K}.

Definition CAPACITY : nat := 4096.

(** [Inner]: the map and the insertion order, oldest first. *)
Record Cache := {
  entries : gmap K R;
  order : list K;
}.

Definition new : Cache := {| entries := ∅; order := [] |}.

Definition get (k : K) (c : Cache) : option R := entries c !! k.

(** [while order.len() >= CAPACITY { pop_front, remove }] *)
Fixpoint evict (l : list K) (m : gmap K R) : list K * gmap K R :=
  if (CAPACITY <=? length l)%nat then
    match l with
    | oldest :: rest => evict rest (delete oldest m)
    | [] => (l, m)
    end
  else (l, m).

Definition insert (k : K) (r : R) (c : Cache) : Cache :=
  match entries c !! k with
  | Some _ => c
  | None =>
      let '(l, m) := evict (order c) (entries c) in
      {| entries := <[k := r]> m; order := l ++ [k] |}
  end.

(** The order lists the keys of the map once each, within the capacity. *)
Record cache_ok (c : Cache) : Prop := {
  ok_nodup : NoDup (order c);
  ok_keys : ∀ k, k ∈ order c ↔ is_Some (entries c !! k);
  ok_bound : (length (order c) ≤ CAPACITY)%nat;
}.

Lemma new_ok : cache_ok new.
Proof.
  split; simpl; [constructor| |unfold CAPACITY; lia].
  intros k. rewrite lookup_empty. split; [intros Hk; inversion Hk|by intros [? ?]].
Qed.

Lemma evict_spec l m l' m' :
  NoDup l → (∀ k, k ∈ l ↔ is_Some (m !! k)) → evict l m = (l', m') →
  NoDup l' ∧ (∀ k, k ∈ l' ↔ is_Some (m' !! k)) ∧ (length l' < CAPACITY)%nat ∧
  (∀ k r, m' !! k = Some r → m !! k = Some r) ∧
  l' = drop (S (length l) - CAPACITY) l.
Proof.
  revert m. induction l as [|k l IH]; intros m Hnd Hk He; cbn [evict] in He.
  - change (CAPACITY <=? length (@nil K))%nat with false in He.
    cbn iota in He. simplify_eq.
    split; [done|]. split; [done|]. split; [unfold CAPACITY; simpl; lia|]. split; [done|].
    by rewrite drop_nil.
  - destruct (CAPACITY <=? length (k :: l))%nat eqn:Hc.
    + apply Nat.leb_le in Hc. apply NoDup_cons in Hnd as [Hn Hnd].
      apply IH in He as (? & ? & ? & Hsub & Hdrop); [|done|].
      * split; [done|]. split; [done|]. split; [done|]. split.
        -- intros j r Hj. specialize (Hsub j r Hj). by apply lookup_delete_Some in Hsub as [_ ?].
        -- rewrite Hdrop. simpl length. simpl in Hc.
           replace (S (S (length l)) - CAPACITY)%nat with (S (S (length l) - CAPACITY)) by lia. done.
      * intros j. split.
        -- intros Hj. assert (j ≠ k) as Hne by (intros ->; done). rewrite lookup_delete_ne by done.
           apply Hk. by right.
        -- destruct (decide (j = k)) as [->|Hne]; [rewrite lookup_delete_eq; by intros [? ?]|].
           rewrite lookup_delete_ne by done. intros Hj%Hk. by apply elem_of_cons in Hj as [?|?].
    + apply Nat.leb_gt in Hc. cbn iota in He. simplify_eq.
      split; [done|]. split; [done|]. split; [done|]. split; [done|].
      replace (S (length (k :: l)) - CAPACITY)%nat with O by (unfold CAPACITY in *; simpl in *; lia). done.
Qed.

Lemma insert_ok k r c : cache_ok c → cache_ok (insert k r c).
Proof.
  intros [Hnd Hk Hb]. unfold insert. destruct (entries c !! k) eqn:Hck; [done|].
  destruct (evict (order c) (entries c)) as [l m] eqn:He.
  destruct (evict_spec _ _ _ _ Hnd Hk He) as (Hnd' & Hk' & Hlt & Hsub & _).
  assert (k ∉ l) as Hkl. { rewrite Hk'. intros [x Hx]. apply Hsub in Hx. congruence. }
  split; simpl.
  - apply NoDup_app. split; [done|]. split; [|apply NoDup_singleton].
    intros j Hj Hjk%list_elem_of_singleton. by subst.
  - intros j. rewrite elem_of_app, list_elem_of_singleton, Hk'.
    destruct (decide (j = k)) as [->|Hne].
    + rewrite lookup_insert_eq. naive_solver.
    + rewrite lookup_insert_ne by done. naive_solver.
  - rewrite length_app. simpl. lia.
Qed.

(** A lookup after an insertion finds the value of the first insertion of the
    key still present, and nothing that was not there before or just added. *)
Lemma get_insert_eq k r c : cache_ok c → get k (insert k r c) = Some (default r (get k c)).
Proof.
  intros Hok. unfold get, insert. destruct (entries c !! k) eqn:Hk; [by rewrite Hk|].
  destruct (evict _ _). simpl. by rewrite lookup_insert_eq.
Qed.

Lemma get_insert_ne k j r c x :
  cache_ok c → j ≠ k → get j (insert k r c) = Some x → get j c = Some x.
Proof.
  intros [Hnd Hk _] Hne. unfold get, insert. destruct (entries c !! k); [done|].
  destruct (evict (order c) (entries c)) as [l m] eqn:He. simpl.
  destruct (evict_spec _ _ _ _ Hnd Hk He) as (_ & _ & _ & Hsub & _).
  rewrite lookup_insert_ne by done. apply Hsub.
Qed.

End Cache.
Arguments Cache K R {_ _}.

(** ** The key separates questions *)

Definition demo_principal (mail : option string) (scopes : list string) : Principal unit :=
  {| sub := "alice"; email := mail; groups := []; issuer := "idp"; scopes := scopes;
     tenant := "acme"; auth_method := Oauth; raw_token := None; scim := None;
     enrichment_blocked := None; roles := []; api_key_profile_restrictions := None |}.
Definition demo_tool (risk : RiskTier) (effects : bool) : ToolFacts :=
  {| tf_server := "github"; tf_name := "merge"; tf_risk := risk; tf_side_effects := effects;
     tf_pii := false; tf_requires_approval := false; tf_requires_approval_known := true |}.
Definition demo_facts (scopes : list string) (risk : RiskTier) (effects : bool) : Facts unit :=
  build_call_facts (demo_principal (Some "a@b.c") scopes) (demo_tool risk effects).

Lemma demo_wf scopes risk effects :
  wf_strs scopes → wf_facts (λ _, "{}") (demo_facts scopes risk effects).
Proof.
  intros Hs. repeat split; try done; try (by destruct risk); try apply Hs; try (by repeat constructor).
Qed.

(** The cache key separates questions: two well-formed fact sets that feed
    the hasher the same bytes agree on the strictness flag and on every fact but
    the timestamp (SCIM attributes by their printed form). *)
Theorem key_stream_separates {Json} (json_print : Json → string) f g b c :
  wf_facts json_print f → wf_facts json_print g →
  key_stream json_print f b = key_stream json_print g c →
  b = c ∧ keyed_facts json_print f = keyed_facts json_print g.
Proof. apply key_stream_inj. Qed.

Lemma key_stream_separates_witness :
  keyed_facts (λ _, "{}") (demo_facts ["a"; "b"] Low true)
  = keyed_facts (λ _, "{}") (with_channel (demo_facts ["a"; "b"] Low true) Direct)
  ∧ key_stream (λ _, "{}") (demo_facts ["a"; "b"] Low true) true
    ≠ key_stream (λ _, "{}") (demo_facts ["ab"] Low true) true.
Proof.
  split; [|vm_compute; discriminate].
  apply (key_stream_separates (λ _, "{}") (demo_facts ["a"; "b"] Low true)
    (with_channel (demo_facts ["a"; "b"] Low true) Direct) true true);
    [apply demo_wf; repeat constructor|apply demo_wf; repeat constructor|vm_compute; reflexivity].
Defined.

End DecisionCache.
