(* ===== verification/HashChain.v ===== *)
(** * The audit hash chain's canonical bytes

    Model of crates/waygate-storage/src/hashchain.rs. The writers return the bytes
    they push; the 28 arguments of [canonical_audit_bytes_with_ext5] are the
    fields of one record, [AuditFields]. A timestamp is its
    [unix_timestamp_nanos], a UUID the number its 16 bytes spell. SHA-256 is a
    parameter of the row hash: the theorems that need it to separate inputs
    conclude a collision instead of assuming there is none. *)

From S2P Require Import Prelude RustStr Encoding.

Module HashChain.
Import Encoding.Encoding.
#[local] Arguments le_bytes : simpl never.
#[local] Arguments octets : simpl never.

(** ** Fields *)

Definition Uuid := N.

(** waygate-core's [InvocationHierarchy]; [NonZeroU32] as its value. *)
Record InvocationHierarchy := {
  parent_execution_id : Uuid;
  step : N;
  call_id : Uuid;
  attempt : N;
}.

Record AuditFields := {
  id : Uuid;
  ts : Z;
  category : string;
  tenant : string;
  action : string;
  outcome : string;
  principal_sub : option string;
  principal_email : option string;
  principal_groups : list string;
  issuer : option string;
  server : option string;
  tool : option string;
  risk_level : option string;
  pii : option bool;
  policy_ids : list string;
  reason : option string;
  trace_id : option string;
  latency_ms : option Z;
  scim_active : option bool;
  scim_groups : list string;
  target : option string;
  req_scopes : list string;
  auth_method : option string;
  req_roles : list string;
  side_effects : option bool;
  acting_agent : option string;
  invocation_hierarchy : option InvocationHierarchy;
  operation : option string;
}.

#[export] Instance hierarchy_eq_dec : EqDecision InvocationHierarchy.
Proof. solve_decision. Defined.
#[export] Instance fields_eq_dec : EqDecision AuditFields.
Proof. solve_decision. Defined.

(** ** Writers *)

(** The byte of a character literal. *)
Definition ch (n : N) : bytes := [byte n].

Definition write_required_str (s : string) : bytes :=
  le_bytes 8 (N.of_nat (len s)) ++ as_bytes s.

Definition write_opt_str (s : option string) : bytes :=
  match s with
  | None => ch 78
  | Some v => ch 83 ++ le_bytes 8 (N.of_nat (len v)) ++ as_bytes v
  end.

Definition write_opt_bool (b : option bool) : bytes :=
  ch match b with Some true => 116 | Some false => 102 | None => 78 end.

Definition write_opt_i64 (n : option Z) : bytes :=
  match n with
  | None => ch 78
  | Some v => ch 83 ++ signed_le_bytes 8 v
  end.

Definition write_str_vec (vs : list string) : bytes :=
  le_bytes 8 (N.of_nat (length vs)) ++
  concat ((λ s, le_bytes 8 (N.of_nat (len s)) ++ as_bytes s) <$> vs).

(** [ts.unix_timestamp_nanos() / 1_000], Rust's truncating division. *)
Definition ts_micros (a : AuditFields) : Z := Z.quot (ts a) 1000.

Definition is_some {A} (o : option A) : bool := match o with Some _ => true | None => false end.
Definition nonempty {A} (l : list A) : bool := match l with [] => false | _ => true end.

Definition canonical_audit_bytes_with_ext2 (a : AuditFields) : bytes :=
  as_bytes "audit-v1" ++ octets 16 (id a) ++ signed_le_bytes 16 (ts_micros a) ++
  write_required_str (category a) ++ write_required_str (tenant a) ++
  write_required_str (action a) ++ write_required_str (outcome a) ++
  write_opt_str (principal_sub a) ++ write_opt_str (principal_email a) ++
  write_str_vec (principal_groups a) ++ write_opt_str (issuer a) ++
  write_opt_str (server a) ++ write_opt_str (tool a) ++ write_opt_str (risk_level a) ++
  write_opt_bool (pii a) ++ write_str_vec (policy_ids a) ++ write_opt_str (reason a) ++
  write_opt_str (trace_id a) ++ write_opt_i64 (latency_ms a) ++
  (if is_some (scim_active a) || nonempty (scim_groups a)
   then ch 88 ++ write_opt_bool (scim_active a) ++ write_str_vec (scim_groups a) else []) ++
  match target a with Some t => ch 84 ++ write_required_str t | None => [] end ++
  (if nonempty (req_scopes a) || is_some (auth_method a) || nonempty (req_roles a) ||
      is_some (side_effects a)
   then ch 68 ++ write_str_vec (req_scopes a) ++ write_opt_str (auth_method a) ++
        write_str_vec (req_roles a) ++ write_opt_bool (side_effects a)
   else []).

Definition canonical_audit_bytes_with_ext3 (a : AuditFields) : bytes :=
  canonical_audit_bytes_with_ext2 a ++
  match acting_agent a with Some g => ch 65 ++ write_required_str g | None => [] end.

Definition canonical_audit_bytes_with_ext4 (a : AuditFields) : bytes :=
  canonical_audit_bytes_with_ext3 a ++
  match invocation_hierarchy a with
  | Some h => ch 72 ++ octets 16 (parent_execution_id h) ++ le_bytes 4 (step h) ++
              octets 16 (call_id h) ++ le_bytes 4 (attempt h)
  | None => []
  end.

Definition canonical_audit_bytes_with_ext5 (a : AuditFields) : bytes :=
  canonical_audit_bytes_with_ext4 a ++
  match operation a with
  | Some o => ch 80 ++ le_bytes 8 (N.of_nat (len o)) ++ as_bytes o
  | None => []
  end.

(** The older entry points pass absent values for the columns they predate. *)
Definition canonical_audit_bytes_with_ext (a : AuditFields) : bytes :=
  canonical_audit_bytes_with_ext2
    {| id := id a; ts := ts a; category := category a; tenant := tenant a; action := action a;
       outcome := outcome a; principal_sub := principal_sub a;
       principal_email := principal_email a; principal_groups := principal_groups a;
       issuer := issuer a; server := server a; tool := tool a; risk_level := risk_level a;
       pii := pii a; policy_ids := policy_ids a; reason := reason a; trace_id := trace_id a;
       latency_ms := latency_ms a; scim_active := scim_active a; scim_groups := scim_groups a;
       target := target a; req_scopes := []; auth_method := None; req_roles := [];
       side_effects := None; acting_agent := None; invocation_hierarchy := None;
       operation := None |}.

Definition without_target (a : AuditFields) : AuditFields :=
  {| id := id a; ts := ts a; category := category a; tenant := tenant a; action := action a;
     outcome := outcome a; principal_sub := principal_sub a;
     principal_email := principal_email a; principal_groups := principal_groups a;
     issuer := issuer a; server := server a; tool := tool a; risk_level := risk_level a;
     pii := pii a; policy_ids := policy_ids a; reason := reason a; trace_id := trace_id a;
     latency_ms := latency_ms a; scim_active := scim_active a; scim_groups := scim_groups a;
     target := None; req_scopes := req_scopes a; auth_method := auth_method a;
     req_roles := req_roles a; side_effects := side_effects a; acting_agent := acting_agent a;
     invocation_hierarchy := invocation_hierarchy a; operation := operation a |}.

Definition without_scim (a : AuditFields) : AuditFields :=
  {| id := id a; ts := ts a; category := category a; tenant := tenant a; action := action a;
     outcome := outcome a; principal_sub := principal_sub a;
     principal_email := principal_email a; principal_groups := principal_groups a;
     issuer := issuer a; server := server a; tool := tool a; risk_level := risk_level a;
     pii := pii a; policy_ids := policy_ids a; reason := reason a; trace_id := trace_id a;
     latency_ms := latency_ms a; scim_active := None; scim_groups := [];
     target := target a; req_scopes := req_scopes a; auth_method := auth_method a;
     req_roles := req_roles a; side_effects := side_effects a; acting_agent := acting_agent a;
     invocation_hierarchy := invocation_hierarchy a; operation := operation a |}.

Definition canonical_audit_bytes_with_scim (a : AuditFields) : bytes :=
  canonical_audit_bytes_with_ext (without_target a).

Definition canonical_audit_bytes (a : AuditFields) : bytes :=
  canonical_audit_bytes_with_scim (without_scim a).

(** ** The row hash *)

Definition hex_digit (n : N) : Ascii.ascii := byte (if (n <? 10)%N then 48 + n else 87 + n).

(** [format!("{byte:02x}")] *)
Definition hex_byte (b : Ascii.ascii) : bytes :=
  [hex_digit (byte_val b / 16); hex_digit (byte_val b mod 16)].
Definition hex (digest : bytes) : string := of_bytes (concat (hex_byte <$> digest)).

Definition hash_input (prev_hash : option string) (audit_bytes : bytes) : bytes :=
  as_bytes (default "" prev_hash) ++ [byte 0] ++ audit_bytes.

Section Digest.
Context (sha256 : bytes → bytes).

Definition compute_row_hash (prev_hash : option string) (audit_bytes : bytes) : string :=
  hex (sha256 (hash_input prev_hash audit_bytes)).

(** Two different messages, both hashed here, with the same digest. *)
Definition collision (hashed : list bytes) : Prop :=
  ∃ m n, m ∈ hashed ∧ n ∈ hashed ∧ m ≠ n ∧ sha256 m = sha256 n.

Lemma collision_mono l1 l2 : l1 ⊆ l2 → collision l1 → collision l2.
Proof. intros Hs (m & n & Hm & Hn & ? & ?). exists m, n. split_and!; auto. Qed.
End Digest.

(** ** What the bytes determine

    Rust's bounds on the fields, and the row as the bytes see it: every field,
    the timestamp in microseconds. *)

Definition wf_uuid (u : Uuid) : Prop := (u < 256 ^ 16)%N.
Definition wf_u32 (n : N) : Prop := (n < 256 ^ 4)%N.
Definition wf_hierarchy (h : InvocationHierarchy) : Prop :=
  wf_uuid (parent_execution_id h) ∧ wf_u32 (step h) ∧ wf_uuid (call_id h) ∧ wf_u32 (attempt h).

Record wf_fields (a : AuditFields) : Prop := {
  wf_id : wf_uuid (id a);
  wf_ts : wf_signed 16 (ts_micros a);
  wf_required : Forall wf_str [category a; tenant a; action a; outcome a];
  wf_optional : Forall (wf_opt wf_str) [principal_sub a; principal_email a; issuer a; server a;
    tool a; risk_level a; reason a; trace_id a; target a; auth_method a; acting_agent a;
    operation a];
  wf_vectors : Forall wf_strs [principal_groups a; policy_ids a; scim_groups a; req_scopes a;
    req_roles a];
  wf_latency : wf_opt (wf_signed 8) (latency_ms a);
  wf_invocation : wf_opt wf_hierarchy (invocation_hierarchy a);
}.

Definition durable (a : AuditFields) : AuditFields :=
  {| id := id a; ts := ts_micros a; category := category a; tenant := tenant a;
     action := action a; outcome := outcome a; principal_sub := principal_sub a;
     principal_email := principal_email a; principal_groups := principal_groups a;
     issuer := issuer a; server := server a; tool := tool a; risk_level := risk_level a;
     pii := pii a; policy_ids := policy_ids a; reason := reason a; trace_id := trace_id a;
     latency_ms := latency_ms a; scim_active := scim_active a; scim_groups := scim_groups a;
     target := target a; req_scopes := req_scopes a; auth_method := auth_method a;
     req_roles := req_roles a; side_effects := side_effects a; acting_agent := acting_agent a;
     invocation_hierarchy := invocation_hierarchy a; operation := operation a |}.

Section Separation.
Local Abbreviation same := (Datatypes.id).

Lemma pf_required_str : prefix_free wf_str same write_required_str.
Proof. exact pf_len_prefixed. Qed.

(** [N] for absent, [S] and the value for present. *)
Lemma pf_opt_tag {A} (P : A → Prop) (e : A → bytes) :
  prefix_free P same e →
  prefix_free (wf_opt P) same (λ o, match o with None => ch 78 | Some v => ch 83 ++ e v end).
Proof.
  intros He [x|] [y|] r s Hx Hy H; cbn [ch app] in H.
  - apply (f_equal (drop 1)) in H. cbn [drop] in H.
    destruct (He x y r s Hx Hy H) as [Hv ->]. unfold same in Hv. by subst.
  - apply (f_equal head) in H. by injection H.
  - apply (f_equal head) in H. by injection H.
  - apply (f_equal (drop 1)) in H. cbn [drop] in H. by subst.
Qed.

Lemma pf_write_opt_str : prefix_free (wf_opt wf_str) same write_opt_str.
Proof. exact (pf_opt_tag _ _ pf_len_prefixed). Qed.

Lemma pf_write_opt_bool : prefix_free (λ _, True) same write_opt_bool.
Proof. intros [[]|] [[]|] r s _ _ H; simpl in H; by simplify_eq. Qed.

Lemma pf_write_opt_i64 : prefix_free (wf_opt (wf_signed 8)) same write_opt_i64.
Proof. exact (pf_opt_tag _ _ (pf_signed 8)). Qed.

Lemma pf_write_str_vec : prefix_free wf_strs same write_str_vec.
Proof.
  intros x y r s [Hfx Hx] [Hfy Hy] H. unfold write_str_vec in H. rewrite <- !app_assoc in H.
  destruct (pf_le_bytes 8 _ _ _ _ Hfx Hfy H) as [Hl H']. unfold same in Hl.
  assert (length x = length y) by lia. by apply pf_elements.
Qed.

(** The fixed part of a row, up to the first extension. *)
Definition head_bytes (a : AuditFields) : bytes :=
  octets 16 (id a) ++ signed_le_bytes 16 (ts_micros a) ++
  write_required_str (category a) ++ write_required_str (tenant a) ++
  write_required_str (action a) ++ write_required_str (outcome a) ++
  write_opt_str (principal_sub a) ++ write_opt_str (principal_email a) ++
  write_str_vec (principal_groups a) ++ write_opt_str (issuer a) ++
  write_opt_str (server a) ++ write_opt_str (tool a) ++ write_opt_str (risk_level a) ++
  write_opt_bool (pii a) ++ write_str_vec (policy_ids a) ++ write_opt_str (reason a) ++
  write_opt_str (trace_id a) ++ write_opt_i64 (latency_ms a).

(** The extensions, each a tagged block. *)
Definition scim_ext (a : AuditFields) : option (option bool * list string) :=
  if is_some (scim_active a) || nonempty (scim_groups a)
  then Some (scim_active a, scim_groups a) else None.
Definition write_scim (p : option bool * list string) : bytes :=
  write_opt_bool p.1 ++ write_str_vec p.2.

Definition inputs_ext (a : AuditFields)
  : option (list string * option string * list string * option bool) :=
  if nonempty (req_scopes a) || is_some (auth_method a) || nonempty (req_roles a) ||
     is_some (side_effects a)
  then Some (req_scopes a, auth_method a, req_roles a, side_effects a) else None.
Definition write_inputs (p : list string * option string * list string * option bool) : bytes :=
  let '(scopes, method, roles, effects) := p in
  write_str_vec scopes ++ write_opt_str method ++ write_str_vec roles ++ write_opt_bool effects.

Definition write_hierarchy (h : InvocationHierarchy) : bytes :=
  octets 16 (parent_execution_id h) ++ le_bytes 4 (step h) ++
  octets 16 (call_id h) ++ le_bytes 4 (attempt h).

Definition tail_bytes (a : AuditFields) : bytes :=
  tagged 88 write_scim (scim_ext a) ++ tagged 84 write_required_str (target a) ++
  tagged 68 write_inputs (inputs_ext a) ++ tagged 65 write_required_str (acting_agent a) ++
  tagged 72 write_hierarchy (invocation_hierarchy a) ++
  tagged 80 write_required_str (operation a) ++ [].

Lemma ext2_layout a :
  canonical_audit_bytes_with_ext2 a =
  as_bytes "audit-v1" ++ head_bytes a ++ tagged 88 write_scim (scim_ext a) ++
  tagged 84 write_required_str (target a) ++ tagged 68 write_inputs (inputs_ext a).
Proof.
  unfold canonical_audit_bytes_with_ext2, head_bytes, scim_ext, inputs_ext.
  rewrite <- !app_assoc. do 19 f_equal.
  destruct (is_some (scim_active a) || nonempty (scim_groups a)), (target a),
    (nonempty (req_scopes a) || is_some (auth_method a) || nonempty (req_roles a) ||
      is_some (side_effects a)); reflexivity.
Qed.

Lemma ext5_layout a :
  canonical_audit_bytes_with_ext5 a = as_bytes "audit-v1" ++ head_bytes a ++ tail_bytes a.
Proof.
  unfold canonical_audit_bytes_with_ext5, canonical_audit_bytes_with_ext4,
    canonical_audit_bytes_with_ext3, tail_bytes.
  rewrite ext2_layout, app_nil_r, <- !app_assoc. reflexivity.
Qed.

Lemma pf_scim_ext : prefix_free (λ p, wf_strs p.2) same write_scim.
Proof.
  intros [x1 x2] [y1 y2] r s Hx Hy H. unfold write_scim in H. cbn [fst snd] in *.
  rewrite <- !app_assoc in H. peel pf_write_opt_bool. peel pf_write_str_vec. by subst.
Qed.

Lemma pf_inputs_ext :
  prefix_free (λ p, wf_strs p.1.1.1 ∧ wf_opt wf_str p.1.1.2 ∧ wf_strs p.1.2) same write_inputs.
Proof.
  intros [[[x1 x2] x3] x4] [[[y1 y2] y3] y4] r s (?&?&?) (?&?&?) Heq. unfold write_inputs in Heq.
  cbn [fst snd] in *. rewrite <- !app_assoc in Heq. peel pf_write_str_vec. peel pf_write_opt_str.
  peel pf_write_str_vec. peel pf_write_opt_bool. by subst.
Qed.

Lemma pf_hierarchy : prefix_free wf_hierarchy same write_hierarchy.
Proof.
  intros x y r s (?&?&?&?) (?&?&?&?) Heq. unfold write_hierarchy in Heq. rewrite <- !app_assoc in Heq.
  peel (pf_octets 16). peel (pf_le_bytes 4). peel (pf_octets 16). peel (pf_le_bytes 4).
  by_fields x y.
Qed.

(** The fields of the fixed part, the others blanked. *)
Definition head_view (a : AuditFields) : AuditFields :=
  {| id := id a; ts := ts_micros a; category := category a; tenant := tenant a;
     action := action a; outcome := outcome a; principal_sub := principal_sub a;
     principal_email := principal_email a; principal_groups := principal_groups a;
     issuer := issuer a; server := server a; tool := tool a; risk_level := risk_level a;
     pii := pii a; policy_ids := policy_ids a; reason := reason a; trace_id := trace_id a;
     latency_ms := latency_ms a; scim_active := None; scim_groups := []; target := None;
     req_scopes := []; auth_method := None; req_roles := []; side_effects := None;
     acting_agent := None; invocation_hierarchy := None; operation := None |}.

Lemma pf_head : prefix_free wf_fields head_view head_bytes.
Proof.
  intros x y r s [? ? Hr Ho Hv ? ?] [? ? Hr' Ho' Hv' ? ?] Heq. unfold head_bytes in Heq.
  rewrite !Forall_cons in *. destruct_and!. rewrite <- !app_assoc in Heq.
  peel (pf_octets 16). peel (pf_signed 16). do 4 peel pf_required_str. do 2 peel pf_write_opt_str.
  peel pf_write_str_vec. do 4 peel pf_write_opt_str. peel pf_write_opt_bool.
  peel pf_write_str_vec. do 2 peel pf_write_opt_str. peel pf_write_opt_i64.
  split; [|done]. unfold head_view. f_equal; assumption.
Qed.

(** The extensions come back from the tail: each tag differs from the later ones. *)
Lemma tail_separates x y :
  wf_fields x → wf_fields y → tail_bytes x = tail_bytes y →
  scim_ext x = scim_ext y ∧ target x = target y ∧ inputs_ext x = inputs_ext y ∧
  acting_agent x = acting_agent y ∧ invocation_hierarchy x = invocation_hierarchy y ∧
  operation x = operation y.
Proof.
  intros [_ _ _ Ho Hv _ Hh] [_ _ _ Ho' Hv' _ Hh'] Heq. unfold tail_bytes in Heq.
  rewrite !Forall_cons in *. destruct_and!.
  assert (starts_with [] (@nil Ascii.ascii)) as Hnil by done.
  eapply pf_tagged in Heq as [E1 Heq]; [|exact pf_scim_ext|..].
  1: eapply pf_tagged in Heq as [E2 Heq]; [|exact pf_required_str|..].
  1: eapply pf_tagged in Heq as [E3 Heq]; [|exact pf_inputs_ext|..].
  1: eapply pf_tagged in Heq as [E4 Heq]; [|exact pf_required_str|..].
  1: eapply pf_tagged in Heq as [E5 Heq]; [|exact pf_hierarchy|..].
  1: eapply pf_tagged in Heq as [E6 Heq]; [|exact pf_required_str|..].
  1: { rewrite !option_fmap_id in *. auto 10. }
  all: try (repeat apply starts_tagged; exact Hnil).
  all: try done.
  all: try (unfold scim_ext, inputs_ext; case_match; simpl; auto).
  all: repeat (constructor; [split; [lia|done]|]); constructor.
Qed.

Lemma scim_of_ext a : (scim_active a, scim_groups a) = default (None, []) (scim_ext a).
Proof. unfold scim_ext. by destruct (scim_active a), (scim_groups a). Qed.

Lemma inputs_of_ext a :
  (req_scopes a, auth_method a, req_roles a, side_effects a)
  = default ([], None, [], None) (inputs_ext a).
Proof.
  unfold inputs_ext.
  by destruct (req_scopes a), (auth_method a), (req_roles a), (side_effects a).
Qed.

Lemma ext5_inj x y :
  wf_fields x → wf_fields y →
  canonical_audit_bytes_with_ext5 x = canonical_audit_bytes_with_ext5 y → durable x = durable y.
Proof.
  intros Hx Hy H. rewrite !ext5_layout in H. apply (inj (app (as_bytes "audit-v1"))) in H.
  destruct (pf_head _ _ _ _ Hx Hy H) as [Hhead Htail].
  destruct (tail_separates _ _ Hx Hy Htail) as (Es & Et & Ei & Ea & Eh & Eo).
  pose proof (scim_of_ext x) as Sx. rewrite Es, <- scim_of_ext in Sx.
  pose proof (inputs_of_ext x) as Ix. rewrite Ei, <- inputs_of_ext in Ix.
  injection Sx as ? ?. injection Ix as ? ? ? ?. unfold head_view in Hhead. injection Hhead as Hhead.
  unfold durable. f_equal; assumption.
Qed.

(** The bytes depend on no more than the durable view. *)
Lemma ext5_durable x y :
  durable x = durable y →
  canonical_audit_bytes_with_ext5 x = canonical_audit_bytes_with_ext5 y.
Proof.
  destruct x, y. unfold durable, ts_micros. cbn [HashChain.id ts category tenant action outcome
    principal_sub principal_email principal_groups issuer server tool risk_level pii policy_ids reason
    trace_id latency_ms scim_active scim_groups target req_scopes auth_method req_roles side_effects
    acting_agent invocation_hierarchy operation].
  intros [= -> Hts]. subst. unfold canonical_audit_bytes_with_ext5, canonical_audit_bytes_with_ext4,
    canonical_audit_bytes_with_ext3, canonical_audit_bytes_with_ext2, ts_micros.
  cbn -[write_required_str write_opt_str write_opt_bool write_opt_i64 write_str_vec Z.quot].
  by rewrite Hts.
Qed.

End Separation.

(** ** The row hash separates its inputs *)

Definition no_nul (s : string) : Prop := byte 0 ∉ as_bytes s.

Lemma split_at_nul (u v r s : bytes) :
  byte 0 ∉ u → byte 0 ∉ v → u ++ byte 0 :: r = v ++ byte 0 :: s → u = v ∧ r = s.
Proof.
  revert v. induction u as [|a u IH]; intros [|b v] Hu Hv H; simpl in H.
  - by injection H.
  - injection H as <- _. destruct Hv. left.
  - injection H as -> _. destruct Hu. left.
  - injection H as -> H. destruct (IH v) as [-> ->]; [set_solver..|done|done].
Qed.

Section RowHash.
Context (sha256 : bytes → bytes).

Lemma hex_digit_inj m n : (m < 16)%N → (n < 16)%N → hex_digit m = hex_digit n → m = n.
Proof.
  unfold hex_digit. intros Hm Hn H. apply byte_inj in H.
  - destruct (m <? 10)%N eqn:Em, (n <? 10)%N eqn:En; rewrite ?N.ltb_lt, ?N.ltb_ge in *; lia.
  - destruct (m <? 10)%N; lia.
  - destruct (n <? 10)%N; lia.
Qed.

Lemma byte_val_bound a : (byte_val a < 256)%N.
Proof. apply Ascii.N_ascii_bounded. Qed.

Lemma byte_val_inj a b : byte_val a = byte_val b → a = b.
Proof.
  intros H. rewrite <- (Ascii.ascii_N_embedding a), <- (Ascii.ascii_N_embedding b).
  unfold byte_val in H. by rewrite H.
Qed.

Lemma hex_inj x y : hex x = hex y → x = y.
Proof.
  unfold hex. intros H. apply (f_equal as_bytes) in H. rewrite !as_of_bytes in H.
  revert y H. induction x as [|a x IH]; intros [|b y] H; cbn [fmap list_fmap concat hex_byte app] in H;
    [done..|].
  injection H as H1 H2 H. apply IH in H as ->. f_equal. apply byte_val_inj.
  pose proof (byte_val_bound a). pose proof (byte_val_bound b).
  apply hex_digit_inj in H1; [|apply N.Div0.div_lt_upper_bound; lia..].
  apply hex_digit_inj in H2; [|apply N.mod_lt; lia..].
  rewrite (N.div_mod (byte_val a) 16), (N.div_mod (byte_val b) 16) by lia. by rewrite H1, H2.
Qed.

Lemma hex_digit_nonzero n : (n < 16)%N → hex_digit n ≠ byte 0.
Proof.
  unfold hex_digit. intros Hn H. destruct (n <? 10)%N eqn:E; rewrite ?N.ltb_lt, ?N.ltb_ge in E;
    apply byte_inj in H; lia.
Qed.

Lemma hex_no_nul x : no_nul (hex x).
Proof.
  unfold no_nul, hex. rewrite as_of_bytes. induction x as [|a x IH]; [apply not_elem_of_nil|].
  cbn [fmap list_fmap concat hex_byte app]. pose proof (byte_val_bound a).
  rewrite !not_elem_of_cons. split; [|split; [|exact IH]];
    apply not_eq_sym, hex_digit_nonzero; [apply N.Div0.div_lt_upper_bound; lia|apply N.mod_lt; lia].
Qed.

Lemma row_hash_no_nul p bs : no_nul (compute_row_hash sha256 p bs).
Proof. apply hex_no_nul. Qed.

(** Equal row hashes come from equal inputs, or the digest collides on them. *)
Lemma row_hash_inj p q bs cs :
  no_nul (default "" p) → no_nul (default "" q) →
  compute_row_hash sha256 p bs = compute_row_hash sha256 q cs →
  (default "" p = default "" q ∧ bs = cs) ∨ collision sha256 [hash_input p bs; hash_input q cs].
Proof.
  intros Hp Hq H. apply hex_inj in H.
  destruct (decide (hash_input p bs = hash_input q cs)) as [E|Hne]; [left|right].
  2:{ exists (hash_input p bs), (hash_input q cs). split_and!; [left|right; left|done..]. }
  unfold hash_input in E. apply split_at_nul in E as [E ->]; [|done..].
  by apply as_bytes_inj in E.
Qed.

End RowHash.

(** ** Theorems *)

Definition demo_fields (who : string) (groups : list string) : AuditFields :=
  {| id := 4660%N; ts := 1700000000123456789; category := "invocation"; tenant := "default";
     action := "CallTool"; outcome := "success"; principal_sub := Some who;
     principal_email := None; principal_groups := groups; issuer := Some "idp";
     server := Some "github"; tool := Some "merge"; risk_level := Some "high"; pii := Some false;
     policy_ids := []; reason := None; trace_id := None; latency_ms := Some (-1);
     scim_active := None; scim_groups := []; target := None; req_scopes := ["w"];
     auth_method := None; req_roles := []; side_effects := None; acting_agent := None;
     invocation_hierarchy := Some {| parent_execution_id := 1; step := 1; call_id := 2; attempt := 1 |}%N;
     operation := Some "" |}.

(** The same row read back with its timestamp cut to microseconds. *)
Definition demo_stored : AuditFields :=
  let a := demo_fields "alice" ["a"; "b"] in
  {| id := id a; ts := 1700000000123456000; category := category a; tenant := tenant a;
     action := action a; outcome := outcome a; principal_sub := principal_sub a;
     principal_email := principal_email a; principal_groups := principal_groups a;
     issuer := issuer a; server := server a; tool := tool a; risk_level := risk_level a;
     pii := pii a; policy_ids := policy_ids a; reason := reason a; trace_id := trace_id a;
     latency_ms := latency_ms a; scim_active := scim_active a; scim_groups := scim_groups a;
     target := target a; req_scopes := req_scopes a; auth_method := auth_method a;
     req_roles := req_roles a; side_effects := side_effects a; acting_agent := acting_agent a;
     invocation_hierarchy := invocation_hierarchy a; operation := operation a |}.

(** Rows whose strings are short have the bounds. *)
Ltac solve_wf_fields :=
  split; [reflexivity|split; vm_compute; congruence|repeat constructor..|split; vm_compute; congruence
         |repeat split; reflexivity].

(** The canonical bytes of an audit row determine the row: two rows within
    Rust's bounds that are encoded to the same bytes agree on every column, the
    timestamp to the microsecond. No content of a string, no absent column and no
    extension can be mistaken for another. *)
Theorem canonical_bytes_separate x y :
  wf_fields x → wf_fields y →
  canonical_audit_bytes_with_ext5 x = canonical_audit_bytes_with_ext5 y → durable x = durable y.
Proof. apply ext5_inj. Qed.

Lemma canonical_bytes_separate_witness :
  durable (demo_fields "alice" ["a"; "b"]) = durable demo_stored
  ∧ canonical_audit_bytes_with_ext5 (demo_fields "alice" ["a"; "b"])
    ≠ canonical_audit_bytes_with_ext5 (demo_fields "alice" ["ab"]).
Proof.
  split; [|vm_compute; discriminate].
  apply (canonical_bytes_separate (demo_fields "alice" ["a"; "b"]) demo_stored);
    [solve_wf_fields|solve_wf_fields|vm_compute; reflexivity].
Defined.

(** A row that has none of the columns later migrations added. *)
Definition legacy (a : AuditFields) : Prop :=
  scim_active a = None ∧ scim_groups a = [] ∧ target a = None ∧ req_scopes a = [] ∧
  auth_method a = None ∧ req_roles a = [] ∧ side_effects a = None ∧ acting_agent a = None ∧
  invocation_hierarchy a = None ∧ operation a = None.

(** Such a row hashes as it did before the columns existed. *)
Lemma legacy_bytes_unchanged a :
  legacy a → canonical_audit_bytes_with_ext5 a = canonical_audit_bytes a.
Proof.
  intros (?&?&?&?&?&?&?&?&?&?). destruct a; simpl in *; subst.
  unfold canonical_audit_bytes, canonical_audit_bytes_with_scim, canonical_audit_bytes_with_ext,
    canonical_audit_bytes_with_ext5, canonical_audit_bytes_with_ext4, canonical_audit_bytes_with_ext3.
  cbn [acting_agent invocation_hierarchy operation]. rewrite !app_nil_r. reflexivity.
Qed.

End HashChain.
