(* ===== verification/Bridges.v ===== *)
(** * Retention markers and their bridges

    The part of crates/waygate-storage/src/chain_verify.rs about the gaps a
    retention sweep leaves in a tenant's chain: the marker payload and its
    self-consistency check, the search along a graph of bridges, and the
    admission of marker bridges by a worklist. The JSON parser of a marker's
    payload is a parameter. *)

From S2P Require Import Prelude RustStr HashChain.

Module Bridges.
Import HashChain(Uuid, nonempty).

Abbreviation hash := (option string) (only parsing).

(** ** Retention markers *)

Record DeletedRow := {
  del_prev_hash : hash;
  del_row_hash : string;
}.

Record DeletedUnchainedRow := {
  un_id : Uuid;
  un_chain_seq : Z;
}.

Record RetentionMarker := {
  kind : string;
  deleted_rows : list DeletedRow;
  deleted_unchained_rows : list DeletedUnchainedRow;
  deleted_chain_seq_min : option Z;
  deleted_chain_seq_max : option Z;
  policy : option string;
}.

Record RetentionBridge := {
  start : hash;
  end_ : string;
}.

Record RetentionBridgeCandidate := {
  bridge : RetentionBridge;
  expected_prev : hash;
  marker_prev : hash;
}.

#[export] Instance bridge_eq_dec : EqDecision RetentionBridge.
Proof. solve_decision. Defined.

Definition KIND : string := "retention_sweep".

(** [windows(2)]: the next row's [prev_hash] is the prior row's [row_hash]. *)
Fixpoint linked (l : list DeletedRow) : bool :=
  match l with
  | prior :: l' =>
      match l' with
      | next :: _ => bool_decide (del_prev_hash next = Some (del_row_hash prior)) && linked l'
      | [] => true
      end
  | [] => true
  end.

(** [seen.insert] of every element finds it new. *)
Fixpoint all_new {K} `{Countable K} (seen : gset K) (l : list K) : bool :=
  match l with
  | x :: l' => if bool_decide (x ∈ seen) then false else all_new ({[x]} ∪ seen) l'
  | [] => true
  end.

Definition validate (m : RetentionMarker) : bool :=
  if negb (bool_decide (kind m = KIND)) then false
  else if negb (nonempty (deleted_rows m)) && negb (nonempty (deleted_unchained_rows m)) then false
  else if negb (linked (deleted_rows m)) then false
  else if negb (all_new ∅ (del_row_hash <$> deleted_rows m)) then false
  else all_new ∅ (un_id <$> deleted_unchained_rows m).

Definition marker_bridge (m : RetentionMarker) : option RetentionBridge :=
  match deleted_rows m, last (deleted_rows m) with
  | first :: _, Some final => Some {| start := del_prev_hash first; end_ := del_row_hash final |}
  | _, _ => None
  end.

Section Parser.
(** [serde_json::from_str(reason).ok()] at [RetentionMarker]. *)
Context (from_str : string → option RetentionMarker).

Definition from_reason (reason : string) : option RetentionMarker :=
  match from_str reason with
  | None => None
  | Some parsed =>
      if negb (bool_decide (kind parsed = KIND)) then None
      else if negb (validate parsed) then None
      else Some parsed
  end.
End Parser.

(** ** Following a bridge graph *)

Fixpoint follow (hops : nat) (cursor target : hash) (bridge_index : gmap hash RetentionBridge)
    (fallback : option RetentionBridge) : bool :=
  match hops with
  | O => false
  | S hops' =>
      let next :=
        match bridge_index !! cursor with
        | Some b => Some b
        | None => match fallback with
                  | Some b => if bool_decide (start b = cursor) then Some b else None
                  | None => None
                  end
        end in
      match next with
      | None => false
      | Some b =>
          let cursor' := Some (end_ b) in
          if bool_decide (cursor' = target) then true
          else follow hops' cursor' target bridge_index fallback
      end
  end.

Definition marker_bridge_reaches (from target : hash) (bridge_index : gmap hash RetentionBridge)
    (fallback : option RetentionBridge) : bool :=
  let max_hops := (size bridge_index + match fallback with Some _ => 1 | None => 0 end)%nat in
  if bool_decide (from = target) then true
  else follow max_hops from target bridge_index fallback.

(** ** Admission of bridges *)

Definition usize_max : Z := 18446744073709551615.

Definition enumerate {A} (l : list A) : list (nat * A) := imap pair l.

(** One insertion into the index of starts. *)
Definition index_candidate (st : list bool * gmap hash nat) (ic : nat * RetentionBridgeCandidate)
  : list bool * gmap hash nat :=
  let '(duplicate_start, bridge_index) := st in
  let '(index, candidate) := ic in
  let key := start (bridge candidate) in
  (match bridge_index !! key with
   | Some previous => <[index := true]> (<[previous := true]> duplicate_start)
   | None => duplicate_start
   end, <[key := index]> bridge_index).

Definition is_duplicate (duplicate_start : list bool) (index : nat) : bool :=
  default false (duplicate_start !! index).

Definition index_starts (candidates : list RetentionBridgeCandidate)
  : list bool * gmap hash nat :=
  let '(duplicate_start, bridge_index) :=
    foldl index_candidate (replicate (length candidates) false, ∅) (enumerate candidates) in
  (duplicate_start,
   foldl (λ (m : gmap hash nat) ic, if is_duplicate duplicate_start ic.1
               then delete (start (bridge ic.2)) m else m)
     bridge_index (enumerate candidates)).

(** The walk from a candidate's expected predecessor to the one it names: the
    bridges on the way, itself left out; [None] when it does not arrive. *)
Fixpoint trace (hops : nat) (candidates : list RetentionBridgeCandidate)
    (bridge_index : gmap hash nat) (index : nat) (target cursor : hash)
    (seen : gset nat) (dependencies : list nat) : option (list nat) :=
  match hops with
  | O => None
  | S hops' =>
      match bridge_index !! cursor with
      | None => None
      | Some next =>
          if bool_decide (next ∈ seen) then None
          else
            let dependencies' :=
              if bool_decide (next ≠ index) then dependencies ++ [next] else dependencies in
            match candidates !! next with
            | None => None
            | Some c =>
                let cursor' := Some (end_ (bridge c)) in
                if bool_decide (cursor' = target) then Some dependencies'
                else trace hops' candidates bridge_index index target cursor' ({[next]} ∪ seen)
                       dependencies'
            end
      end
  end.

(** What the loop over the candidates finds for one of them: [None] when it
    cannot be admitted, else the candidates it waits for. *)
Definition dependencies_of (candidates : list RetentionBridgeCandidate)
    (duplicate_start : list bool) (bridge_index : gmap hash nat)
    (index : nat) (candidate : RetentionBridgeCandidate) : option (list nat) :=
  if is_duplicate duplicate_start index then None
  else if bool_decide (expected_prev candidate = marker_prev candidate) then Some []
  else trace (size bridge_index) candidates bridge_index index (marker_prev candidate)
         (expected_prev candidate) ∅ [].

(** The counts and the reverse edges, as the loop builds them. *)
Definition record_dependencies (st : list Z * list (list nat)) (id : nat * option (list nat))
  : list Z * list (list nat) :=
  let '(remaining, dependents) := st in
  match id.2 with
  | None => (remaining, dependents)
  | Some ds =>
      (<[id.1 := Z.of_nat (length ds)]> remaining,
       foldl (λ (acc : list (list nat)) d, alter (λ l, l ++ [id.1]) d acc) dependents ds)
  end.

Definition plan (candidates : list RetentionBridgeCandidate) : list (option (list nat)) :=
  let '(duplicate_start, bridge_index) := index_starts candidates in
  imap (dependencies_of candidates duplicate_start bridge_index) candidates.

(** [for &dependent in &dependents[index]]: decrement, and enqueue at zero. *)
Definition release (st : list Z * list nat) (dependent : nat) : list Z * list nat :=
  let '(remaining, queue) := st in
  let left := default usize_max (remaining !! dependent) - 1 in
  (<[dependent := left]> remaining, if left =? 0 then queue ++ [dependent] else queue).

(** [while let Some(index) = queue.pop_front()]; [None] when the fuel runs out. *)
Fixpoint drain (fuel : nat) (dependents : list (list nat)) (remaining : list Z)
    (queue : list nat) (admitted : list bool) : option (list bool) :=
  match queue with
  | [] => Some admitted
  | index :: queue' =>
      match fuel with
      | O => None
      | S fuel' =>
          if default false (admitted !! index)
          then drain fuel' dependents remaining queue' admitted
          else
            let '(remaining', queue'') :=
              foldl release (remaining, queue') (default [] (dependents !! index)) in
            drain fuel' dependents remaining' queue'' (<[index := true]> admitted)
      end
  end.

(** [remaining.iter().enumerate().filter_map(count == 0)] *)
Definition initial_queue (remaining : list Z) : list nat :=
  omap (λ ic, if ic.2 =? 0 then Some ic.1 else None) (enumerate remaining).

Definition admitted_flags (candidates : list RetentionBridgeCandidate) : option (list bool) :=
  let n := length candidates in
  let '(remaining, dependents) :=
    foldl record_dependencies (replicate n usize_max, replicate n [])
      (enumerate (plan candidates)) in
  drain (S n) dependents remaining (initial_queue remaining) (replicate n false).

Definition admit_retention_bridges (candidates : list RetentionBridgeCandidate)
  : option (list RetentionBridge) :=
  match admitted_flags candidates with
  | None => None
  | Some admitted =>
      Some (omap (λ ca, if (ca.2 : bool) then Some (bridge ca.1) else None) (zip candidates admitted))
  end.

(** ** Paths of a functional graph

    Every key has at most one successor. *)

Section FunctionalGraph.
Context {K : Type} `{EqDecision K} (succ : K → option K).

Inductive reaches : K → K → Prop :=
  | reaches_refl c : reaches c c
  | reaches_step c c' t : succ c = Some c' → reaches c' t → reaches c t.

(** The keys left on the way from [c] to [t]. *)
Fixpoint path (c : K) (l : list K) (t : K) : Prop :=
  match l with
  | [] => c = t
  | k :: l' => k = c ∧ ∃ c', succ c = Some c' ∧ path c' l' t
  end.

Lemma reaches_path c t : reaches c t ↔ ∃ l, path c l t.
Proof.
  split.
  - induction 1 as [c|c c' t Hs _ [l Hl]]; [by exists []|].
    exists (c :: l). split; [done|by exists c'].
  - intros [l Hl]. revert c Hl. induction l as [|k l IH]; simpl; [intros c ->; constructor|].
    intros c (-> & c' & Hs & Hl). econstructor; eauto.
Qed.

Lemma path_suffix c l t k : path c l t → k ∈ l → ∃ l1 l2, l = l1 ++ l2 ∧ path k l2 t.
Proof.
  revert c. induction l as [|x l IH]; intros c Hp Hk; [by apply not_elem_of_nil in Hk|].
  destruct Hp as (-> & c' & Hs & Hp). apply elem_of_cons in Hk as [->|Hk].
  - exists [], (c :: l). split; [done|]. split; [done|by exists c'].
  - destruct (IH _ Hp Hk) as (l1 & l2 & -> & ?). by exists (c :: l1), l2.
Qed.

(** A path can be cut to one that leaves no key twice and never leaves its target. *)
Lemma path_simple c l t :
  path c l t → ∃ l', path c l' t ∧ NoDup l' ∧ t ∉ l' ∧ l' ⊆ l.
Proof.
  revert c. induction l as [|x l IH]; intros c Hp.
  { exists []. split; [done|]. split; [constructor|]. split; [apply not_elem_of_nil|done]. }
  destruct Hp as (-> & c' & Hs & Hp). destruct (IH _ Hp) as (l' & Hp' & Hnd & Ht & Hsub).
  destruct (decide (c = t)) as [->|Hct].
  { exists []. split; [done|]. split; [constructor|]. split; [apply not_elem_of_nil|set_solver]. }
  destruct (decide (c ∈ l')) as [Hc|Hc].
  - destruct (path_suffix _ _ _ _ Hp' Hc) as (l1 & l2 & -> & Hp2). exists l2.
    apply NoDup_app in Hnd as (_ & _ & Hnd). split; [done|]. split; [done|]. set_solver.
  - exists (c :: l'). split; [split; [done|by exists c']|]. split; [by constructor|]. set_solver.
Qed.

Lemma path_sources c l t k : path c l t → k ∈ l → is_Some (succ k).
Proof.
  revert c. induction l as [|x l IH]; intros c Hp Hk; [by apply not_elem_of_nil in Hk|].
  destruct Hp as (-> & c' & Hs & Hp). apply elem_of_cons in Hk as [->|Hk]; [by exists c'|eauto].
Qed.

End FunctionalGraph.

(** ** The search finds exactly the paths *)

Definition successor (bridge_index : gmap hash RetentionBridge)
    (fallback : option RetentionBridge) (c : hash) : option hash :=
  match bridge_index !! c with
  | Some b => Some (Some (end_ b))
  | None => match fallback with
            | Some b => if bool_decide (start b = c) then Some (Some (end_ b)) else None
            | None => None
            end
  end.

Section Search.
Context (bridge_index : gmap hash RetentionBridge) (fallback : option RetentionBridge).
Local Abbreviation succ := (successor bridge_index fallback).
Local Abbreviation max_hops := (size bridge_index + match fallback with Some _ => 1 | None => 0 end)%nat.

Lemma follow_unfold n c t :
  follow (S n) c t bridge_index fallback
  = match succ c with
    | None => false
    | Some c' => if bool_decide (c' = t) then true else follow n c' t bridge_index fallback
    end.
Proof.
  simpl. unfold successor. destruct (bridge_index !! c); [done|].
  destruct fallback; [|done]. by case_bool_decide.
Qed.

Lemma follow_sound n c t : follow n c t bridge_index fallback = true → reaches succ c t.
Proof.
  revert c. induction n as [|n IH]; intros c; [done|]. rewrite follow_unfold.
  destruct (succ c) as [c'|] eqn:Hs; [|done]. intros H. econstructor; [exact Hs|].
  case_bool_decide; [subst; constructor|auto].
Qed.

Lemma follow_complete n c k l t :
  path succ c (k :: l) t → (length (k :: l) ≤ n)%nat → follow n c t bridge_index fallback = true.
Proof.
  revert n c k. induction l as [|k' l IH]; intros [|n] c k (-> & c' & Hs & Hp) Hn; simpl in Hn;
    try lia; rewrite follow_unfold, Hs.
  - simpl in Hp. by rewrite bool_decide_eq_true_2.
  - case_bool_decide; [done|]. eapply IH; [exact Hp|simpl; lia].
Qed.

Lemma sources_bound (l : list hash) :
  NoDup l → (∀ k, k ∈ l → is_Some (succ k)) → (length l ≤ max_hops)%nat.
Proof.
  intros Hnd Hs.
  pose (d := dom bridge_index ∪ match fallback with Some b => {[start b]} | None => ∅ end : gset hash).
  assert (list_to_set l ⊆ d) as Hsub.
  { intros k Hk. apply elem_of_list_to_set, Hs in Hk as [c Hc]. unfold successor in Hc. subst d.
    apply elem_of_union. destruct (bridge_index !! k) eqn:E; [left; by apply elem_of_dom_2 in E|right].
    destruct fallback; [|done]. case_bool_decide; [subst; set_solver|done]. }
  apply subseteq_size in Hsub. rewrite size_list_to_set in Hsub by done.
  etrans; [exact Hsub|]. subst d. rewrite <- (size_dom (D:=gset hash)).
  destruct fallback; rewrite size_union_alt; [|rewrite difference_empty_L || idtac].
  - pose proof (subseteq_size ({[start r]} ∖ dom bridge_index) ({[start r]} : gset hash)
      ltac:(set_solver)) as Hle. rewrite size_singleton in Hle. lia.
  - replace (∅ ∖ dom bridge_index : gset hash) with (∅ : gset hash) by set_solver.
    rewrite size_empty. lia.
Qed.

Lemma reaches_correct from target :
  marker_bridge_reaches from target bridge_index fallback = true ↔ reaches succ from target.
Proof.
  unfold marker_bridge_reaches. case_bool_decide as Heq; [subst; split; [constructor|done]|].
  split; [apply follow_sound|]. rewrite reaches_path. intros [l Hl].
  apply path_simple in Hl as (l' & Hl' & Hnd & _ & _). destruct l' as [|k l']; [done|].
  eapply follow_complete; [exact Hl'|]. apply sources_bound; [done|].
  intros j Hj. by eapply path_sources.
Qed.

End Search.

(** ** The index of unambiguous starts *)

Section Index.

(** Another candidate starts where this one does. *)
Definition ambiguous (cs : list RetentionBridgeCandidate) (i : nat) : Prop :=
  ∃ c j d, cs !! i = Some c ∧ cs !! j = Some d ∧ j ≠ i ∧ start (bridge c) = start (bridge d).

Record indexed (n : nat) (l : list RetentionBridgeCandidate) (st : list bool * gmap hash nat)
  : Prop := {
  ix_length : length st.1 = n;
  ix_dup i : st.1 !! i = Some true ↔ ambiguous l i;
  ix_sound key i : st.2 !! key = Some i → ∃ c, l !! i = Some c ∧ start (bridge c) = key;
  ix_total i c : l !! i = Some c → is_Some (st.2 !! start (bridge c));
}.

Lemma enumerate_snoc {A} (l : list A) x : enumerate (l ++ [x]) = enumerate l ++ [(length l, x)].
Proof. unfold enumerate. rewrite imap_app. simpl. by rewrite Nat.add_0_r. Qed.

Lemma lookup_snoc_inv {A} (l : list A) x i y :
  (l ++ [x]) !! i = Some y → l !! i = Some y ∨ (i = length l ∧ y = x).
Proof.
  rewrite lookup_app_Some, list_lookup_singleton_Some. intros [?|[? [? <-]]]; [by left|right].
  split; [lia|done].
Qed.

Lemma lookup_snoc_old {A} (l : list A) x i y : l !! i = Some y → (l ++ [x]) !! i = Some y.
Proof. apply lookup_app_l_Some. Qed.

Lemma lookup_snoc_new {A} (l : list A) x : (l ++ [x]) !! length l = Some x.
Proof. by rewrite lookup_app_r, Nat.sub_diag by lia. Qed.

Lemma ambiguous_snoc l c i :
  ambiguous (l ++ [c]) i ↔
  ambiguous l i ∨
  (∃ d, l !! i = Some d ∧ start (bridge d) = start (bridge c)) ∨
  (i = length l ∧ ∃ j d, l !! j = Some d ∧ start (bridge d) = start (bridge c)).
Proof.
  split.
  - intros (x & j & y & [Hx|[-> ->]]%lookup_snoc_inv & [Hy|[-> ->]]%lookup_snoc_inv & Hne & Heq).
    + left. by exists x, j, y.
    + right; left. by exists x.
    + right; right. split; [done|]. by exists j, y.
    + done.
  - intros [(x & j & y & ? & ? & ? & ?)|[(d & Hd & He)|(-> & j & d & Hd & He)]].
    + exists x, j, y. auto using lookup_snoc_old.
    + exists d, (length l), c. pose proof (lookup_lt_Some _ _ _ Hd).
      split; [by apply lookup_snoc_old|]. split; [apply lookup_snoc_new|]. split; [lia|done].
    + exists c, j, d. pose proof (lookup_lt_Some _ _ _ Hd).
      split; [apply lookup_snoc_new|]. split; [by apply lookup_snoc_old|]. split; [lia|done].
Qed.

Lemma index_candidate_ok n l c st :
  (length l < n)%nat → indexed n l st → indexed n (l ++ [c]) (index_candidate st (length l, c)).
Proof.
  destruct st as [dup idx]. intros Hn [Hlen Hdup Hsound Htotal]. cbn [fst snd] in *.
  split; unfold index_candidate; cbn [fst snd].
  - destruct (idx !! _); by rewrite ?length_insert.
  - intros i. rewrite ambiguous_snoc. destruct (idx !! start (bridge c)) as [p|] eqn:Hp.
    + destruct (Hsound _ _ Hp) as (d & Hd & He). pose proof (lookup_lt_Some _ _ _ Hd).
      destruct (decide (i = length l)) as [->|Hi].
      { rewrite list_lookup_insert_eq by (rewrite length_insert; lia). split; [|done]. intros _.
        right; right. split; [done|]. by exists p, d. }
      rewrite list_lookup_insert_ne by done. destruct (decide (i = p)) as [->|Hip].
      { rewrite list_lookup_insert_eq by lia. split; [|done]. intros _. right; left. by exists d. }
      rewrite list_lookup_insert_ne, Hdup by done. split; [by left|].
      intros [?|[(x & Hx & Hxe)|[? _]]]; [done| |done]. exists x, p, d. split_and!; auto. congruence.
    + rewrite Hdup. split; [by left|].
      intros [?|[(x & Hx & Hxe)|(_ & j & x & Hx & Hxe)]]; [done|exfalso..];
        apply Htotal in Hx as [? Hx]; rewrite Hxe, Hp in Hx; done.
  - intros key i [[<- <-]|[Hne Hi]]%lookup_insert_Some.
    + exists c. split; [apply lookup_snoc_new|done].
    + apply Hsound in Hi as (d & ? & ?). exists d. auto using lookup_snoc_old.
  - intros i x [Hx|[-> ->]]%lookup_snoc_inv.
    + apply Htotal in Hx. rewrite lookup_insert_is_Some'. by right.
    + rewrite lookup_insert_is_Some'. by left.
Qed.

Lemma index_fold_ok n l :
  (length l ≤ n)%nat → indexed n l (foldl index_candidate (replicate n false, ∅) (enumerate l)).
Proof.
  induction l as [|c l IH] using rev_ind; intros Hn.
  - split; cbn [fst snd foldl enumerate imap].
    + apply length_replicate.
    + intros i. split; [intros [Hf _]%lookup_replicate; done|intros (c & j & d & Hc & _); done].
    + intros key i. by rewrite lookup_empty.
    + intros i c Hc. done.
  - rewrite length_app in Hn. simpl in Hn. rewrite enumerate_snoc, foldl_app. cbn [foldl].
    apply index_candidate_ok; [lia|]. apply IH. lia.
Qed.

Lemma remove_fold (flag : nat → bool) (l : list (nat * RetentionBridgeCandidate))
    (m : gmap hash nat) key i :
  foldl (λ (m : gmap hash nat) ic, if flag ic.1 then delete (start (bridge ic.2)) m else m) m l
    !! key = Some i ↔
  m !! key = Some i ∧ ∀ ic, ic ∈ l → flag ic.1 = true → start (bridge ic.2) ≠ key.
Proof.
  revert m. induction l as [|ic l IH]; intros m; cbn [foldl].
  - split; [|by intros [? _]]. intros ?. split; [done|]. intros ? Hi. by apply not_elem_of_nil in Hi.
  - rewrite IH. destruct (flag ic.1) eqn:Hf.
    + rewrite lookup_delete_Some. split.
      * intros [[Hne Hm] Hall]. split; [done|]. intros ic' [->|?]%elem_of_cons ?; auto.
      * intros [Hm Hall]. split; [split; [|done]|].
        -- apply Hall; [left|done].
        -- intros ic' ? ?. apply Hall; [by right|done].
    + split; intros [Hm Hall]; (split; [done|]).
      * intros ic' [->|?]%elem_of_cons ?; [congruence|auto].
      * intros ic' ? ?. apply Hall; [by right|done].
Qed.

Lemma elem_of_enumerate {A} (l : list A) i x : (i, x) ∈ enumerate l ↔ l !! i = Some x.
Proof.
  unfold enumerate. rewrite list_elem_of_lookup. split.
  - intros [k Hk]. rewrite list_lookup_imap in Hk. destruct (l !! k) eqn:E; by simplify_eq/=.
  - intros Hi. exists i. by rewrite list_lookup_imap, Hi.
Qed.

(** The duplicates and the index the admission works with. *)
Lemma index_starts_ok cs dup idx :
  index_starts cs = (dup, idx) →
  (∀ i, is_duplicate dup i = true ↔ ambiguous cs i) ∧
  (∀ key i, idx !! key = Some i ↔
     ∃ c, cs !! i = Some c ∧ start (bridge c) = key ∧ ¬ ambiguous cs i).
Proof.
  unfold index_starts. intros H.
  destruct (foldl index_candidate _ (enumerate cs)) as [dup0 idx0] eqn:Hf. injection H as <- <-.
  pose proof (index_fold_ok (length cs) cs ltac:(lia)) as Hix. rewrite Hf in Hix.
  destruct Hix as [Hlen Hdup Hsound Htotal]. cbn [fst snd] in *.
  assert (∀ i, is_duplicate dup0 i = true ↔ ambiguous cs i) as Hd.
  { intros i. rewrite <- Hdup. unfold is_duplicate. by destruct (dup0 !! i) as [[]|]. }
  split; [exact Hd|]. intros key i. rewrite (remove_fold (is_duplicate dup0)). split.
  - intros [Hi Hall]. destruct (Hsound _ _ Hi) as (c & Hc & He). exists c. split_and!; [done..|].
    intros Ha. apply (Hall (i, c)); [by apply elem_of_enumerate|by apply Hd|done].
  - intros (c & Hc & <- & Hna). destruct (Htotal _ _ Hc) as [p Hp].
    destruct (Hsound _ _ Hp) as (d & Hdc & He). destruct (decide (p = i)) as [->|Hne].
    2: { destruct Hna. exists c, p, d. auto. }
    split; [done|]. intros [j x] Hx%elem_of_enumerate Hj%Hd Heq. cbn [fst snd] in *.
    destruct (decide (j = i)) as [->|Hji]; [done|]. destruct Hna. exists c, j, x. auto.
Qed.

End Index.

(** ** What a candidate waits for

    [bridged_by cs A c t]: unambiguous bridges, all in [A], lead from [c] to [t]. *)

Inductive bridged_by (cs : list RetentionBridgeCandidate) (A : nat → Prop) : hash → hash → Prop :=
  | bridged_refl c : bridged_by cs A c c
  | bridged_step c i cd t :
      cs !! i = Some cd → start (bridge cd) = c → ¬ ambiguous cs i → A i →
      bridged_by cs A (Some (end_ (bridge cd))) t → bridged_by cs A c t.

Section Trace.
Context (cs : list RetentionBridgeCandidate) (dup : list bool) (idx : gmap hash nat).
Hypothesis Hdup : ∀ i, is_duplicate dup i = true ↔ ambiguous cs i.
Hypothesis Hidx : ∀ key i, idx !! key = Some i ↔
  ∃ c, cs !! i = Some c ∧ start (bridge c) = key ∧ ¬ ambiguous cs i.

Definition next_hash (c : hash) : option hash :=
  match idx !! c with
  | Some i => match cs !! i with Some cd => Some (Some (end_ (bridge cd))) | None => None end
  | None => None
  end.

(** The candidates on a path given by its keys. *)
Definition labels (l : list hash) : list nat := omap (λ k, idx !! k) l.

Lemma next_hash_Some c c' :
  next_hash c = Some c' ↔
  ∃ i cd, idx !! c = Some i ∧ cs !! i = Some cd ∧ c' = Some (end_ (bridge cd)).
Proof.
  unfold next_hash. split.
  - destruct (idx !! c) as [i|]; [|done]. destruct (cs !! i) as [cd|] eqn:Hc; [|done].
    intros [= <-]. by exists i, cd.
  - by intros (i & cd & -> & -> & ->).
Qed.

Lemma idx_inj k1 k2 i : idx !! k1 = Some i → idx !! k2 = Some i → k1 = k2.
Proof. intros (c & Hc & <- & _)%Hidx (d & Hd & <- & _)%Hidx. congruence. Qed.

Lemma elem_of_labels l i : i ∈ labels l ↔ ∃ k, k ∈ l ∧ idx !! k = Some i.
Proof. apply list_elem_of_omap. Qed.

Lemma labels_cons k l : labels (k :: l) = match idx !! k with Some i => i :: labels l | None => labels l end.
Proof. done. Qed.

Lemma bridged_path A c t :
  bridged_by cs A c t ↔
  ∃ l, path next_hash c l t ∧ ∀ i, i ∈ labels l → A i.
Proof.
  split.
  - induction 1 as [c|c i cd t Hc Hs Hna HA _ (l & Hl & Hall)].
    { exists []. split; [done|]. intros i Hi. by apply not_elem_of_nil in Hi. }
    assert (idx !! c = Some i) as Hi by (apply Hidx; by exists cd).
    exists (c :: l). split.
    + split; [done|]. exists (Some (end_ (bridge cd))). split; [|done].
      apply next_hash_Some. by exists i, cd.
    + intros j. rewrite labels_cons, Hi. intros [->|?]%elem_of_cons; auto.
  - intros (l & Hl & Hall). revert c Hl Hall.
    induction l as [|k l IH]; intros c Hl Hall; [simpl in Hl; subst; constructor|].
    destruct Hl as (-> & c' & (i & cd & Hi & Hc & ->)%next_hash_Some & Hp).
    rewrite labels_cons, Hi in Hall. pose proof Hi as (cd' & Hc' & Hs & Hna)%Hidx.
    replace cd' with cd in * by congruence.
    econstructor; [done..|apply Hall; left|apply IH; [done|]]. intros j Hj. apply Hall. by right.
Qed.

Lemma bridged_simple A c t :
  bridged_by cs A c t →
  ∃ l, path next_hash c l t ∧ NoDup l ∧ t ∉ l ∧ ∀ i, i ∈ labels l → A i.
Proof.
  intros (l & Hl & Hall)%bridged_path. apply path_simple in Hl as (l' & Hl' & Hnd & Ht & Hsub).
  exists l'. split_and!; [done..|]. intros i (k & Hk & Hi)%elem_of_labels. apply Hall, elem_of_labels.
  exists k. split; [by apply Hsub|done].
Qed.

Section Walk.
Context (index : nat) (target : hash).
Local Abbreviation others l := (filter (λ j, j ≠ index) l).

Lemma push_dependency deps next l :
  (if bool_decide (next ≠ index) then deps ++ [next] else deps) ++ others l
  = deps ++ others (next :: l).
Proof.
  rewrite filter_cons. case_bool_decide; case_decide; try done. by rewrite <- app_assoc.
Qed.

Lemma trace_complete n c k l seen deps :
  path next_hash c (k :: l) target → NoDup (k :: l) → target ∉ l →
  (∀ i, i ∈ labels (k :: l) → i ∉ seen) → (length (k :: l) ≤ n)%nat →
  trace n cs idx index target c seen deps = Some (deps ++ others (labels (k :: l))).
Proof.
  revert n c k seen deps. induction l as [|k' l IH]; intros [|n] c k seen deps
    (-> & c' & (i & cd & Hi & Hc & ->)%next_hash_Some & Hp) Hnd Ht Hseen Hn; simpl in Hn; try lia;
    cbn [trace]; rewrite Hi, Hc, labels_cons, Hi;
    (rewrite bool_decide_eq_false_2 by (apply Hseen; rewrite labels_cons, Hi; left)); cbn iota;
    rewrite <- push_dependency.
  - simpl in Hp. rewrite bool_decide_eq_true_2 by done. simpl. by rewrite app_nil_r.
  - destruct Hp as (-> & Hp). rewrite bool_decide_eq_false_2 by set_solver.
    apply NoDup_cons in Hnd as [Hc' Hnd]. apply IH; [by split|done|set_solver| |simpl; lia].
    intros j Hj. rewrite not_elem_of_union, not_elem_of_singleton. split.
    + intros ->. apply elem_of_labels in Hj as (k2 & Hk2 & Hj). by rewrite (idx_inj _ _ _ Hi Hj) in Hc'.
    + apply Hseen. rewrite labels_cons, Hi. by right.
Qed.

Lemma trace_sound n c seen deps ds :
  trace n cs idx index target c seen deps = Some ds →
  ∃ l, path next_hash c l target ∧ ds = deps ++ others (labels l) ∧ NoDup (labels l) ∧
       ∀ i, i ∈ labels l → i ∉ seen.
Proof.
  revert c seen deps. induction n as [|n IH]; intros c seen deps; cbn [trace]; [done|].
  destruct (idx !! c) as [i|] eqn:Hi; [|done]. case_bool_decide as Hs; [done|].
  destruct (cs !! i) as [cd|] eqn:Hc; [|done].
  assert (next_hash c = Some (Some (end_ (bridge cd)))) as Hstep
    by (apply next_hash_Some; by exists i, cd).
  case_bool_decide as Ht; intros H.
  - exists [c]. rewrite labels_cons, Hi. injection H as <-. split_and!.
    + split; [done|]. by exists (Some (end_ (bridge cd))).
    + rewrite <- push_dependency. simpl. by rewrite app_nil_r.
    + apply NoDup_singleton.
    + intros j ->%list_elem_of_singleton. done.
  - apply IH in H as (l & Hl & -> & Hnd & Hseen). exists (c :: l). rewrite labels_cons, Hi.
    split_and!.
    + split; [done|]. by exists (Some (end_ (bridge cd))).
    + by rewrite <- push_dependency.
    + constructor; [|done]. intros Hin%Hseen. set_solver.
    + intros j [->|Hj]%elem_of_cons; [done|]. apply Hseen in Hj. set_solver.
Qed.

End Walk.

(** A candidate that waits for [ds] is bridged as soon as they all are. *)
Lemma dependencies_sound i cd ds :
  dependencies_of cs dup idx i cd = Some ds → cs !! i = Some cd →
  ¬ ambiguous cs i ∧ NoDup ds ∧ (∀ d, d ∈ ds → (d < length cs)%nat) ∧
  ∀ A, Forall A ds → bridged_by cs (λ j, j = i ∨ A j) (expected_prev cd) (marker_prev cd).
Proof.
  unfold dependencies_of. intros H Hc. destruct (is_duplicate dup i) eqn:Hd; [done|].
  split; [by rewrite <- Hdup, Hd|]. case_bool_decide as Heq.
  { injection H as <-. split_and!; [constructor|intros ? Hn; by apply not_elem_of_nil in Hn|].
    intros A _. rewrite Heq. constructor. }
  apply trace_sound in H as (l & Hl & -> & Hnd & _). rewrite app_nil_l. split_and!.
  - by apply NoDup_filter.
  - intros d (_ & Hd')%list_elem_of_filter. apply elem_of_labels in Hd' as (k & _ & Hk).
    apply Hidx in Hk as (x & Hx & _). by apply lookup_lt_Some in Hx.
  - intros A HA. apply bridged_path. exists l. split; [done|]. intros j Hj.
    destruct (decide (j = i)); [by left|right]. rewrite Forall_forall in HA.
    apply HA, list_elem_of_filter. done.
Qed.

(** And a candidate that is bridged by [A] waits for members of [A] only. *)
Lemma dependencies_complete i cd A :
  cs !! i = Some cd → ¬ ambiguous cs i →
  bridged_by cs (λ j, j = i ∨ A j) (expected_prev cd) (marker_prev cd) →
  ∃ ds, dependencies_of cs dup idx i cd = Some ds ∧ Forall A ds.
Proof.
  intros Hc Hna Hb. unfold dependencies_of. destruct (is_duplicate dup i) eqn:Hd.
  { by apply Hdup in Hd. }
  case_bool_decide as Heq; [exists []; split; [done|constructor]|].
  apply bridged_simple in Hb as (l & Hl & Hnd & Ht & Hall). destruct l as [|k l]; [done|].
  exists ([] ++ filter (λ j, j ≠ i) (labels (k :: l))). split.
  - apply trace_complete; [done..|set_solver|set_solver|].
    assert (list_to_set (k :: l) ⊆ dom idx) as Hsub.
    { intros j Hj%elem_of_list_to_set. apply (path_sources _ _ _ _ _ Hl) in Hj as [c' Hc'].
      apply next_hash_Some in Hc' as (? & ? & Hi & _). by apply elem_of_dom_2 in Hi. }
    apply subseteq_size in Hsub. by rewrite size_list_to_set, size_dom in Hsub.
  - apply Forall_forall. intros j (Hj & Hl')%list_elem_of_filter.
    destruct (Hall _ Hl') as [->|]; done.
Qed.

End Trace.

(** ** The worklist

    From any plan (who waits for whom) the worklist admits the least set closed
    under it. *)

Section Worklist.
Context (plan : list (option (list nat))).
Local Abbreviation n := (length plan).
Local Abbreviation waits i ds := (plan !! i = Some (Some ds)).
Hypothesis plan_nodup : ∀ i ds, waits i ds → NoDup ds.
Hypothesis plan_bound : ∀ i ds d, waits i ds → d ∈ ds → (d < n)%nat.

Lemma alter_fold (i : nat) ds (acc : list (list nat)) j :
  NoDup ds →
  foldl (λ (acc : list (list nat)) d, alter (λ l, l ++ [i]) d acc) acc ds !! j
  = (λ l, if decide (j ∈ ds) then l ++ [i] else l) <$> acc !! j.
Proof.
  intros Hnd. revert acc. induction Hnd as [|d ds Hd Hnd IH]; intros acc; cbn [foldl].
  - by destruct (acc !! j).
  - rewrite IH. destruct (decide (j = d)) as [->|Hjd].
    + rewrite list_lookup_alter_eq. destruct (acc !! d) as [l|]; [|done]. simpl.
      destruct (decide (d ∈ ds)); [done|]. by rewrite decide_True by left.
    + rewrite list_lookup_alter_ne by done. destruct (acc !! j); [|done]. simpl.
      destruct (decide (j ∈ ds)); [by rewrite decide_True by by right|].
      rewrite decide_False; [done|]. intros [?|?]%elem_of_cons; done.
Qed.

(** What the counts and the reverse edges say of the plan's first entries. *)
Record counted (l : list (option (list nat))) (st : list Z * list (list nat)) : Prop := {
  ct_length : length st.1 = n;
  ct_length' : length st.2 = n;
  ct_wait i ds : l !! i = Some (Some ds) → st.1 !! i = Some (Z.of_nat (length ds));
  ct_other i : (i < n)%nat → (∀ ds, l !! i ≠ Some (Some ds)) → st.1 !! i = Some usize_max;
  ct_nodup j L : st.2 !! j = Some L → NoDup L;
  ct_edges j L i : st.2 !! j = Some L → i ∈ L ↔ ∃ ds, l !! i = Some (Some ds) ∧ j ∈ ds;
}.

Lemma alter_fold_length (i : nat) ds (acc : list (list nat)) :
  length (foldl (λ (acc : list (list nat)) d, alter (λ l, l ++ [i]) d acc) acc ds) = length acc.
Proof.
  revert acc. induction ds as [|d ds IH]; intros acc; cbn [foldl]; [done|].
  by rewrite IH, length_alter.
Qed.

Lemma record_ok l o st :
  (length l < n)%nat → (∀ ds, o = Some ds → NoDup ds) →
  counted l st → counted (l ++ [o]) (record_dependencies st (length l, o)).
Proof.
  destruct st as [rem deps]. intros Hl Hnd [H1 H2 H3 H4 H5 H6]. cbn [fst snd] in *.
  destruct o as [ds|]; unfold record_dependencies; cbn [fst snd].
  - specialize (Hnd ds eq_refl). split; cbn [fst snd].
    + by rewrite length_insert.
    + by rewrite alter_fold_length.
    + intros i ds' [Hi|[-> [= ->]]]%lookup_snoc_inv; [|apply list_lookup_insert_eq; lia].
      pose proof (lookup_lt_Some _ _ _ Hi). rewrite list_lookup_insert_ne by lia. eauto.
    + intros i Hi Hne. destruct (decide (i = length l)) as [->|].
      { destruct (Hne ds). apply lookup_snoc_new. }
      rewrite list_lookup_insert_ne by done. apply H4; [done|]. intros ds' Hd.
      apply (Hne ds'). by apply lookup_snoc_old.
    + intros j L. rewrite alter_fold by done. destruct (deps !! j) as [L0|] eqn:Hj; [|done].
      intros [= <-]. destruct (decide (j ∈ ds)); [|eauto]. apply NoDup_app.
      split_and!; [eauto| |apply NoDup_singleton]. intros x Hx ->%list_elem_of_singleton.
      apply (H6 _ _ _ Hj) in Hx as (ds' & Hx & _). apply lookup_lt_Some in Hx. lia.
    + intros j L i. rewrite alter_fold by done. destruct (deps !! j) as [L0|] eqn:Hj; [|done].
      intros [= <-]. split.
      * intros Hi. assert (i ∈ L0 ∨ (i = length l ∧ j ∈ ds)) as [Hold|[-> ?]].
        { destruct (decide (j ∈ ds)); [|by left]. apply elem_of_app in Hi as [?|Hi]; [by left|].
          apply list_elem_of_singleton in Hi. by right. }
        -- apply (H6 _ _ _ Hj) in Hold as (ds' & ? & ?). exists ds'. auto using lookup_snoc_old.
        -- exists ds. split; [apply lookup_snoc_new|done].
      * intros (ds' & [Hi|[-> [= ->]]]%lookup_snoc_inv & Hin).
        -- assert (i ∈ L0) by (apply (H6 _ _ _ Hj); eauto). destruct (decide (j ∈ ds)); set_solver.
        -- rewrite decide_True by done. set_solver.
  - assert (∀ i ds, (l ++ [None]) !! i = Some (Some ds) ↔ l !! i = Some (Some ds)) as Heq.
    { intros i ds. split; [intros [?|[_ ?]]%lookup_snoc_inv; done|apply lookup_snoc_old]. }
    split; cbn [fst snd]; [done|done|..].
    + intros i ds. rewrite Heq. eauto.
    + intros i Hi Hne. apply H4; [done|]. intros ds. rewrite <- Heq. apply Hne.
    + eauto.
    + intros j L i Hj. rewrite (H6 _ _ _ Hj). split; intros (ds & Hd & ?); exists ds;
        [by rewrite Heq|by rewrite Heq in Hd].
Qed.

Lemma record_fold_ok l :
  (∀ i ds, l !! i = Some (Some ds) → NoDup ds) → (length l ≤ n)%nat →
  counted l (foldl record_dependencies (replicate n usize_max, replicate n []) (enumerate l)).
Proof.
  induction l as [|o l IH] using rev_ind; intros Hnd Hn.
  - split; cbn [fst snd foldl enumerate imap].
    + apply length_replicate.
    + apply length_replicate.
    + done.
    + intros i Hi _. by rewrite lookup_replicate.
    + intros j L [-> _]%lookup_replicate. constructor.
    + intros j L i [-> _]%lookup_replicate. split; [intros Hi; by apply not_elem_of_nil in Hi|].
      by intros (ds & ? & _).
  - rewrite length_app in Hn. simpl in Hn. rewrite enumerate_snoc, foldl_app. cbn [foldl].
    apply record_ok; [lia| |].
    + intros ds ->. eapply Hnd, lookup_snoc_new.
    + apply IH; [|lia]. intros i ds Hi. eapply Hnd, lookup_snoc_old, Hi.
Qed.

(** *** The loop *)

Definition is_in (admitted : list bool) (i : nat) : Prop := admitted !! i = Some true.
#[local] Instance is_in_dec admitted i : Decision (is_in admitted i).
Proof. unfold is_in. apply _. Defined.

(** How many of [ds] are not admitted yet. *)
Definition missing (admitted : list bool) (ds : list nat) : nat :=
  length (filter (λ d, ¬ is_in admitted d) ds).

Definition plan_closed (A : nat → Prop) : Prop := ∀ i ds, waits i ds → Forall A ds → A i.

Record draining (dependents : list (list nat)) (remaining : list Z) (queue : list nat)
    (admitted : list bool) : Prop := {
  dr_flags : length admitted = n;
  dr_count i ds : waits i ds → remaining !! i = Some (Z.of_nat (missing admitted ds));
  dr_ready i : i ∈ queue ∨ is_in admitted i ↔ ∃ ds, waits i ds ∧ missing admitted ds = 0%nat;
  dr_nodup : NoDup queue;
  dr_fresh i : i ∈ queue → ¬ is_in admitted i;
  dr_least A i : plan_closed A → is_in admitted i → A i;
}.

Lemma missing_zero admitted ds : missing admitted ds = 0%nat ↔ Forall (is_in admitted) ds.
Proof.
  unfold missing. induction ds as [|d ds IH]; [split; [constructor|done]|].
  rewrite Forall_cons, filter_cons. destruct (decide (¬ is_in admitted d)) as [Hd|Hd]; simpl.
  - split; [done|]. by intros [? _].
  - rewrite IH. split; [intros ?; split; [by apply dec_stable|done]|by intros [_ ?]].
Qed.

Lemma is_in_insert admitted i j :
  (i < length admitted)%nat → is_in (<[i := true]> admitted) j ↔ j = i ∨ is_in admitted j.
Proof.
  intros Hi. unfold is_in. destruct (decide (j = i)) as [->|].
  - rewrite list_lookup_insert_eq by done. naive_solver.
  - rewrite list_lookup_insert_ne by done. naive_solver.
Qed.

Lemma missing_insert admitted i ds :
  (i < length admitted)%nat → ¬ is_in admitted i → NoDup ds →
  missing admitted ds
  = (missing (<[i := true]> admitted) ds + if decide (i ∈ ds) then 1 else 0)%nat.
Proof.
  intros Hi Hn. unfold missing. induction 1 as [|d ds Hd Hnd IH]; [done|].
  rewrite !filter_cons. destruct (decide (d = i)) as [->|Hdi].
  - rewrite decide_True by done.
    rewrite (decide_False (P := ¬ is_in (<[i:=true]> admitted) i)) by (rewrite is_in_insert by done; naive_solver).
    rewrite (decide_True (P := i ∈ i :: ds)) by left. simpl. rewrite IH, decide_False by done. lia.
  - assert (¬ is_in (<[i:=true]> admitted) d ↔ ¬ is_in admitted d) as Heq
      by (rewrite is_in_insert by done; naive_solver).
    rewrite (decide_ext _ _ _ _ Heq).
    assert (i ∈ d :: ds ↔ i ∈ ds) as Heq' by (rewrite elem_of_cons; naive_solver).
    rewrite (decide_ext _ _ _ _ Heq'). destruct (decide (¬ is_in admitted d)); simpl; lia.
Qed.

Lemma filter_agree {A} (P Q : A → Prop) `{!∀ x, Decision (P x), !∀ x, Decision (Q x)} (l : list A) :
  (∀ x, x ∈ l → P x ↔ Q x) → filter P l = filter Q l.
Proof.
  induction l as [|x l IH]; intros HPQ; [done|].
  rewrite !filter_cons, IH by (intros; apply HPQ; by right).
  assert (P x ↔ Q x) by (apply HPQ; left). destruct (decide (P x)), (decide (Q x)); tauto.
Qed.

Lemma release_fold (L : list nat) (remaining : list Z) (queue : list nat) :
  NoDup L → (∀ i, i ∈ L → (i < length remaining)%nat) →
  let st := foldl release (remaining, queue) L in
  length st.1 = length remaining ∧
  (∀ i, st.1 !! i = (λ r, if decide (i ∈ L) then r - 1 else r) <$> remaining !! i) ∧
  st.2 = queue ++ filter (λ i, remaining !! i = Some 1) L.
Proof.
  intros Hnd. revert remaining queue. induction Hnd as [|d L Hd Hnd IH]; intros rem q Hb; simpl.
  { split; [done|]. split; [|by rewrite app_nil_r]. intros i. by destruct (rem !! i). }
  destruct (lookup_lt_is_Some_2 rem d) as [r Hr]; [apply Hb; left|]. rewrite Hr. simpl.
  destruct (IH (<[d := r - 1]> rem) (if r - 1 =? 0 then q ++ [d] else q)) as (Hlen & Hlk & Hq).
  { intros i Hi. rewrite length_insert. apply Hb. by right. }
  rewrite Hlen, length_insert. split; [done|]. split.
  - intros i. rewrite Hlk. destruct (decide (i = d)) as [->|Hid].
    + rewrite list_lookup_insert_eq, Hr by (eapply lookup_lt_Some, Hr). simpl.
      rewrite (decide_False (P := d ∈ L)) by done. by rewrite decide_True by left.
    + rewrite list_lookup_insert_ne by done. destruct (rem !! i); [|done]. simpl. f_equal.
      assert (i ∈ d :: L ↔ i ∈ L) as Heq by (rewrite elem_of_cons; naive_solver).
      by rewrite (decide_ext _ _ _ _ Heq).
  - rewrite Hq, filter_cons, Hr.
    assert (filter (λ i, <[d:=r-1]> rem !! i = Some 1) L = filter (λ i, rem !! i = Some 1) L) as ->.
    { apply filter_agree. intros i Hi. rewrite list_lookup_insert_ne; [done|]. by intros ->. }
    destruct (r - 1 =? 0) eqn:E; bool_to_prop.
    + rewrite decide_True by (f_equal; lia). by rewrite <- app_assoc.
    + rewrite decide_False; [done|]. intros [=]. lia.
Qed.

(** Flags not set yet: the loop's measure. *)
Definition unset (admitted : list bool) : nat := length (filter (λ b, b = false) admitted).

Lemma unset_insert admitted i :
  admitted !! i = Some false → S (unset (<[i := true]> admitted)) = unset admitted.
Proof.
  intros Hi. unfold unset. revert i Hi. induction admitted as [|b l IH]; intros [|i] Hi;
    simpl in *; simplify_eq; [done|]. rewrite !filter_cons. destruct (decide (b = false)); simpl.
  - f_equal. by apply IH.
  - by apply IH.
Qed.

Section Loop.
Context (dependents : list (list nat)).
Hypothesis edges_nodup : ∀ j L, dependents !! j = Some L → NoDup L.
Hypothesis edges_spec : ∀ j L i, dependents !! j = Some L → i ∈ L ↔ ∃ ds, waits i ds ∧ j ∈ ds.
Hypothesis edges_length : length dependents = n.

Lemma drain_step remaining index queue admitted :
  length remaining = n → draining dependents remaining (index :: queue) admitted →
  let st := foldl release (remaining, queue) (default [] (dependents !! index)) in
  length st.1 = n ∧ draining dependents st.1 st.2 (<[index := true]> admitted).
Proof.
  intros Hr [Hlen Hcount Hready Hnd Hfresh Hleast].
  destruct (proj1 (Hready index) ltac:(left; left)) as (ds0 & Hw0 & Hm0).
  pose proof (lookup_lt_Some _ _ _ Hw0) as Hlt.
  destruct (lookup_lt_is_Some_2 dependents index) as [L HL]; [lia|].
  rewrite HL. change (default [] (Some L)) with L.
  assert (∀ i, i ∈ L → (i < length remaining)%nat) as HLb.
  { intros i (ds & Hi & _)%(edges_spec _ _ _ HL). apply lookup_lt_Some in Hi. lia. }
  destruct (release_fold L remaining queue (edges_nodup _ _ HL) HLb) as (Hl & Hlk & Hq).
  cbv zeta. rewrite Hl, Hq. split; [done|].
  assert (¬ is_in admitted index) as Hni by (apply Hfresh; left).
  assert (index < length admitted)%nat as Hia by lia.
  pose proof (λ i ds (Hw : waits i ds), missing_insert admitted index ds Hia Hni (plan_nodup _ _ Hw)) as Hmi.
  assert (∀ i ds, waits i ds → i ∈ L ↔ index ∈ ds) as HiL.
  { intros i ds Hw. rewrite (edges_spec _ _ _ HL). split; [|eauto].
    intros (ds' & Hw' & ?). by simplify_eq. }
  assert (∀ i, i ∈ L ∧ remaining !! i = Some 1 ↔
    ∃ ds, waits i ds ∧ index ∈ ds ∧ missing admitted ds = 1%nat) as Hnew.
  { intros i. split.
    - intros [Hi Hri]. pose proof Hi as (ds & Hw & Hin)%(edges_spec _ _ _ HL). exists ds.
      rewrite (Hcount _ _ Hw) in Hri. injection Hri as Hri. split_and!; [done..|lia].
    - intros (ds & Hw & Hin & Hm). rewrite (Hcount _ _ Hw), Hm. by rewrite (HiL _ _ Hw). }
  apply NoDup_cons in Hnd as [Hiq Hnd].
  split.
  - by rewrite length_insert.
  - intros i ds Hw. rewrite Hlk, (Hcount _ _ Hw), (Hmi _ _ Hw). simpl. f_equal.
    rewrite (decide_ext _ _ _ _ (HiL _ _ Hw)). destruct (decide (index ∈ ds)); lia.
  - intros i. rewrite elem_of_app, list_elem_of_filter, (and_comm (_ = _)), Hnew, is_in_insert by done.
    split.
    + intros [[Hi|(ds & Hw & Hin & Hm)]|[->|Hi]].
      * destruct (proj1 (Hready i) ltac:(left; by right)) as (ds & Hw & Hm). exists ds.
        split; [done|]. pose proof (Hmi _ _ Hw). lia.
      * exists ds. split; [done|]. pose proof (Hmi _ _ Hw) as He.
        rewrite decide_True in He by done. lia.
      * exists ds0. split; [done|]. pose proof (Hmi _ _ Hw0). lia.
      * destruct (proj1 (Hready i) ltac:(by right)) as (ds & Hw & Hm). exists ds.
        split; [done|]. pose proof (Hmi _ _ Hw). lia.
    + intros (ds & Hw & Hm). pose proof (Hmi _ _ Hw) as He. rewrite Hm in He.
      destruct (decide (index ∈ ds)) as [Hin|Hin]; [left; right; exists ds; auto|].
      destruct (proj2 (Hready i)) as [[->|?]%elem_of_cons|?]; [by exists ds|auto..].
  - apply NoDup_app. split_and!; [done| |by apply NoDup_filter, (edges_nodup _ _ HL)].
    intros i Hi [? ?]%list_elem_of_filter.
    destruct (proj1 (Hnew i)) as (ds & Hw & _ & Hm); [done|].
    destruct (proj1 (Hready i) ltac:(left; by right)) as (ds' & Hw' & Hm'). simplify_eq. lia.
  - intros i Hi. rewrite is_in_insert by done.
    apply elem_of_app in Hi as [Hi|[? ?]%list_elem_of_filter].
    + intros [->|Hin]; [done|]. eapply Hfresh; [|exact Hin]. by right.
    + destruct (proj1 (Hnew i)) as (ds & Hw & _ & Hm); [done|].
      assert (∀ ds', waits i ds' → missing admitted ds' = 0%nat → False) as Hno.
      { intros ds' Hw' Hm'. simplify_eq. lia. }
      intros [->|Hin]; [eauto|]. destruct (proj1 (Hready i) ltac:(by right)) as (ds' & ? & ?). eauto.
  - intros A i HA. rewrite is_in_insert by done. intros [->|Hi]; [|by apply Hleast].
    eapply HA; [exact Hw0|]. apply missing_zero in Hm0. eapply Forall_impl; [exact Hm0|].
    intros x Hx. by apply Hleast.
Qed.

(** The worklist empties within as many rounds as there are flags to set. *)
Lemma drain_ok fuel remaining queue admitted :
  length remaining = n → draining dependents remaining queue admitted →
  (unset admitted ≤ fuel)%nat →
  ∃ flags, drain fuel dependents remaining queue admitted = Some flags ∧ length flags = n ∧
    (∀ i, is_in flags i ↔ ∃ ds, waits i ds ∧ Forall (is_in flags) ds) ∧
    (∀ A i, plan_closed A → is_in flags i → A i).
Proof.
  revert remaining queue admitted. induction fuel as [|fuel IH];
    intros remaining [|index queue] admitted Hr Hd Hf.
  1, 3: exists admitted; destruct Hd as [Hlen _ Hready _ _ Hleast];
    (split; [done|]); (split; [done|]); (split; [|done]); intros i; specialize (Hready i);
    setoid_rewrite missing_zero in Hready; rewrite <- Hready; split; [by right|];
    intros [Hi|?]; [by apply not_elem_of_nil in Hi|done].
  all: assert (admitted !! index = Some false) as Hx.
  1, 3: destruct Hd as [Hlen _ Hready _ Hfresh _];
    destruct (proj1 (Hready index) ltac:(left; left)) as (ds & Hw%lookup_lt_Some & _);
    destruct (lookup_lt_is_Some_2 admitted index) as [b Hb]; [lia|];
    rewrite Hb; destruct b; [destruct (Hfresh index); [left|done]|done].
  - apply unset_insert in Hx. lia.
  - cbn [drain]. rewrite Hx. cbn [default]. cbn iota.
    destruct (drain_step _ _ _ _ Hr Hd) as [Hlen Hd']. cbv zeta in Hlen, Hd'.
    destruct (foldl release _ _) as [remaining' queue']. cbn [fst snd] in *.
    apply IH; [done..|]. apply unset_insert in Hx. lia.
Qed.

End Loop.

Lemma elem_of_initial_queue remaining i : i ∈ initial_queue remaining ↔ remaining !! i = Some 0.
Proof.
  unfold initial_queue. rewrite list_elem_of_omap. split.
  - intros ([j z] & Hj%elem_of_enumerate & Hz). cbn [fst snd] in Hz.
    destruct (z =? 0) eqn:E; [|done]. bool_to_prop. by simplify_eq.
  - intros Hi. exists (i, 0). split; [by apply elem_of_enumerate|done].
Qed.

Lemma initial_queue_nodup remaining : NoDup (initial_queue remaining).
Proof.
  induction remaining as [|z l IH] using rev_ind; [constructor|]. unfold initial_queue.
  rewrite enumerate_snoc, omap_app. apply NoDup_app. split_and!; [exact IH| |].
  - intros i Hi%elem_of_initial_queue%lookup_lt_Some Hj. simpl in Hj.
    destruct (z =? 0); [|by apply not_elem_of_nil in Hj].
    apply list_elem_of_singleton in Hj. lia.
  - simpl. destruct (z =? 0); [apply NoDup_singleton|constructor].
Qed.

Lemma missing_initial ds : (∀ d, d ∈ ds → (d < n)%nat) → missing (replicate n false) ds = length ds.
Proof.
  intros Hb. unfold missing. f_equal. apply filter_all. intros d Hd.
  unfold is_in. rewrite lookup_replicate_2 by auto. done.
Qed.

Lemma unset_initial : unset (replicate n false) = n.
Proof.
  unfold unset. rewrite filter_all; [apply length_replicate|].
  intros i [? _]%elem_of_replicate. done.
Qed.

Lemma worklist_ok :
  ∃ flags,
    (let '(remaining, dependents) :=
       foldl record_dependencies (replicate n usize_max, replicate n []) (enumerate plan) in
     drain (S n) dependents remaining (initial_queue remaining) (replicate n false)) = Some flags ∧
    length flags = n ∧ plan_closed (is_in flags) ∧ ∀ A i, plan_closed A → is_in flags i → A i.
Proof.
  pose proof (record_fold_ok plan plan_nodup ltac:(lia)) as Hct.
  destruct (foldl record_dependencies _ _) as [remaining dependents].
  destruct Hct as [H1 H2 H3 H4 H5 H6]. cbn [fst snd] in *.
  assert (∀ i, remaining !! i = Some 0 ↔ waits i []) as Hzero.
  { intros i. split; [|intros Hw; by rewrite (H3 _ _ Hw)]. intros Hz.
    destruct (plan !! i) as [[ds|]|] eqn:Hp.
    - rewrite (H3 _ _ Hp) in Hz. destruct ds; [done|simpl in Hz; simplify_eq; lia].
    - rewrite H4 in Hz; [done| |naive_solver]. by apply lookup_lt_Some in Hp.
    - apply lookup_lt_Some in Hz. apply lookup_ge_None in Hp. lia. }
  destruct (drain_ok dependents H5 H6 H2 (S n) remaining (initial_queue remaining)
    (replicate n false)) as (flags & Hrun & Hlen & Hiff & Hleast); [done| | |].
  - split.
    + apply length_replicate.
    + intros i ds Hw. rewrite (H3 _ _ Hw), missing_initial; [done|eauto].
    + intros i. rewrite elem_of_initial_queue, Hzero. split.
      * intros [Hw|Hin]; [by exists []|]. by apply lookup_replicate in Hin as [? _].
      * intros (ds & Hw & Hm). left. rewrite missing_initial in Hm by eauto.
        by apply nil_length_inv in Hm as ->.
    + apply initial_queue_nodup.
    + intros i _ Hin. by apply lookup_replicate in Hin as [? _].
    + intros A i _ Hin. by apply lookup_replicate in Hin as [? _].
  - rewrite unset_initial. lia.
  - exists flags. split_and!; [done..| |done]. intros i ds Hw Hds. apply Hiff. eauto.
Qed.

End Worklist.

(** ** Admission is the least fixed point *)

(** A set of candidates that contains every unambiguous candidate whose expected
    predecessor is bridged to the one it names by the set and by itself. *)
Definition admission_closed (cs : list RetentionBridgeCandidate) (A : nat → Prop) : Prop :=
  ∀ i cd, cs !! i = Some cd → ¬ ambiguous cs i →
    bridged_by cs (λ j, j = i ∨ A j) (expected_prev cd) (marker_prev cd) → A i.

(** In every such set. *)
Definition admissible (cs : list RetentionBridgeCandidate) (i : nat) : Prop :=
  ∀ A, admission_closed cs A → A i.

Section Admission.
Context (cs : list RetentionBridgeCandidate).

Lemma plan_spec dup idx i ds :
  index_starts cs = (dup, idx) →
  plan cs !! i = Some (Some ds) ↔
  ∃ cd, cs !! i = Some cd ∧ dependencies_of cs dup idx i cd = Some ds.
Proof.
  intros Hix. unfold plan. rewrite Hix, list_lookup_imap. destruct (cs !! i) as [cd|]; simpl.
  - split; [intros [= ?]; by exists cd|]. intros (? & [= <-] & ->). done.
  - split; [done|]. by intros (? & ? & _).
Qed.

Lemma length_plan : length (plan cs) = length cs.
Proof. unfold plan. destruct (index_starts cs). apply length_imap. Qed.

Lemma plan_closed_iff A : plan_closed (plan cs) A ↔ admission_closed cs A.
Proof.
  destruct (index_starts cs) as [dup idx] eqn:Hix.
  destruct (index_starts_ok _ _ _ Hix) as [Hd Hi]. split; intros HA.
  - intros i cd Hc Hna Hb.
    destruct (dependencies_complete cs dup idx Hd Hi i cd A Hc Hna Hb) as (ds & Hds & HF).
    eapply HA; [|exact HF]. apply (plan_spec dup idx); [done|]. by exists cd.
  - intros i ds (cd & Hc & Hds)%(plan_spec dup idx _ _ Hix) HF.
    destruct (dependencies_sound cs dup idx Hd Hi i cd ds Hds Hc) as (Hna & _ & _ & Hb). eauto.
Qed.

Lemma admitted_flags_ok :
  ∃ flags, admitted_flags cs = Some flags ∧ length flags = length cs ∧
    ∀ i, is_in flags i ↔ admissible cs i.
Proof.
  destruct (index_starts cs) as [dup idx] eqn:Hix.
  destruct (index_starts_ok _ _ _ Hix) as [Hd Hi].
  destruct (worklist_ok (plan cs)) as (flags & Hrun & Hlen & Hclosed & Hleast).
  - intros i ds (cd & Hc & Hds)%(plan_spec dup idx _ _ Hix).
    by destruct (dependencies_sound cs dup idx Hd Hi i cd ds Hds Hc) as (_ & ? & _).
  - intros i ds d (cd & Hc & Hds)%(plan_spec dup idx _ _ Hix) Hin. rewrite length_plan.
    destruct (dependencies_sound cs dup idx Hd Hi i cd ds Hds Hc) as (_ & _ & Hb & _). auto.
  - rewrite length_plan in *. exists flags. split_and!; [exact Hrun|done|].
    intros i. split.
    + intros Hin A HA. apply Hleast; [|done]. by apply plan_closed_iff.
    + intros Hadm. apply Hadm. by apply plan_closed_iff.
Qed.

Lemma admit_ok :
  ∃ l, admit_retention_bridges cs = Some l ∧
    ∀ b, b ∈ l ↔ ∃ i cd, cs !! i = Some cd ∧ bridge cd = b ∧ admissible cs i.
Proof.
  destruct admitted_flags_ok as (flags & Hrun & Hlen & Hflags).
  unfold admit_retention_bridges. rewrite Hrun. eexists. split; [done|]. intros b.
  rewrite list_elem_of_omap. split.
  - intros ([cd f] & Hin & Hb). cbn [fst snd] in Hb. destruct f; [|done]. simplify_eq.
    apply list_elem_of_lookup in Hin as [i Hi]. apply lookup_zip_Some in Hi as [Hc Hf].
    exists i, cd. split_and!; [done..|]. by apply Hflags.
  - intros (i & cd & Hc & <- & Hadm%Hflags). exists (cd, true). split; [|done].
    apply list_elem_of_lookup. exists i. by apply lookup_zip_Some.
Qed.

End Admission.

(** ** Theorems *)

(** The search along the bridges terminates within its hop bound and is
    exact: it answers yes if and only if the bridges (and the provisional one)
    lead from the first hash to the second, whatever cycles the graph has. *)
Theorem marker_bridge_reaches_exact bridge_index fallback from target :
  marker_bridge_reaches from target bridge_index fallback = true ↔
  reaches (successor bridge_index fallback) from target.
Proof. apply reaches_correct. Qed.

(** C39. The one-pass admission of retention bridges terminates and computes the
    least fixed point: a bridge is returned exactly when it belongs to a candidate
    that every admission-closed set contains. Bridges that vouch for each other
    in a circle, and ambiguous starts, are not admitted. *)
Theorem admission_is_least_fixed_point cs :
  ∃ l, admit_retention_bridges cs = Some l ∧
    ∀ b, b ∈ l ↔ ∃ i cd, cs !! i = Some cd ∧ bridge cd = b ∧ admissible cs i.
Proof. apply admit_ok. Qed.

End Bridges.
