(* ===== verification/ChainVerify.v ===== *)
(** * The audit chain verifier

    The part of crates/waygate-storage/src/chain_verify.rs that walks a tenant's
    audit rows: the report, the gap jobs and the walker itself. A
    [ChainVerifyRow] keeps the hashed columns as [HashChain.AuditFields]. SHA-256
    is a parameter. *)

From S2P Require Import Prelude RustStr Encoding HashChain Bridges.

Module ChainVerify.
Import HashChain.HashChain.
Import Bridges.Bridges.

Record ChainVerifyRow := {
  fields : AuditFields;
  chain_seq : Z;
  prev_hash : hash;
  row_hash : string;
}.

Inductive ChainVerifyStatus := Ok | Mismatch | Empty | Incomplete.
Inductive MismatchKind := BrokenLink | BadRowHash.

Record ChainMismatch := {
  mm_row_id : Uuid;
  mm_chain_seq : Z;
  mm_kind : MismatchKind;
  mm_expected : string;
  mm_actual : string;
}.

Record ChainHead := {
  head_chain_seq : Z;
  head_row_hash : string;
}.

Record ChainVerifyReport := {
  report_tenant_id : string;
  report_from : option Z;
  report_to : option Z;
  rows_walked : nat;
  status : ChainVerifyStatus;
  first_mismatch : option ChainMismatch;
  truncated : bool;
  next_after_chain_seq : option Z;
  chain_head : option ChainHead;
}.

#[export] Instance status_eq_dec : EqDecision ChainVerifyStatus.
Proof. solve_decision. Defined.

(** ** Gap jobs *)

(** The derived order of [Option<String>]: [None] first. *)
Definition opt_le (a b : hash) : Prop :=
  match a, b with
  | None, _ => True
  | Some _, None => False
  | Some x, Some y => str_le x y
  end.
#[export] Instance opt_le_dec a b : Decision (opt_le a b).
Proof. destruct a, b; simpl; apply _. Defined.

(** Tuples in lexicographic order. *)
Definition job_le (a b : hash * hash) : Prop :=
  if decide (a.1 = b.1) then opt_le a.2 b.2 else opt_le a.1 b.1.
#[export] Instance job_le_dec a b : Decision (job_le a b).
Proof. unfold job_le. destruct (decide (a.1 = b.1)); apply _. Defined.

(** [Vec::dedup] *)
Fixpoint dedup {A} `{EqDecision A} (l : list A) : list A :=
  match l with
  | x :: l' => match l' with
               | y :: _ => if bool_decide (x = y) then dedup l' else x :: dedup l'
               | [] => [x]
               end
  | [] => []
  end.

Fixpoint raw_gap_jobs (expected : hash) (rows : list ChainVerifyRow) : list (hash * hash) :=
  match rows with
  | [] => []
  | row :: rows' =>
      (if bool_decide (prev_hash row ≠ expected) then [(expected, prev_hash row)] else []) ++
      raw_gap_jobs (Some (row_hash row)) rows'
  end.

Definition verification_gap_jobs (prev_head : hash) (rows : list ChainVerifyRow)
  : list (hash * hash) :=
  dedup (merge_sort job_le (raw_gap_jobs prev_head rows)).

(** ** The walker *)

Section Verifier.
Context (sha256 : bytes → bytes).

Definition recompute_row_hash (row : ChainVerifyRow) : string :=
  compute_row_hash sha256 (prev_hash row) (canonical_audit_bytes_with_ext5 (fields row)).

(** [bridges.iter().map(..).collect()]: a later bridge replaces an earlier one
    with the same start. *)
Definition index_bridges (bridges : list RetentionBridge) : gmap hash RetentionBridge :=
  foldl (λ m b, <[start b := b]> m) ∅ bridges.

Definition mismatch_of (row : ChainVerifyRow) (k : MismatchKind) (expected actual : string)
  : ChainMismatch :=
  {| mm_row_id := id (fields row); mm_chain_seq := chain_seq row; mm_kind := k;
     mm_expected := expected; mm_actual := actual |}.

(** The loop over the rows: how many passed, the status, the mismatch. *)
Fixpoint walk (bridge_index : gmap hash RetentionBridge) (expected : hash) (walked : nat)
    (rows : list ChainVerifyRow) : nat * ChainVerifyStatus * option ChainMismatch :=
  match rows with
  | [] => (walked, Ok, None)
  | row :: rows' =>
      if bool_decide (prev_hash row ≠ expected) &&
         negb (marker_bridge_reaches expected (prev_hash row) bridge_index None)
      then (walked, Mismatch,
            Some (mismatch_of row BrokenLink (default "" expected) (default "" (prev_hash row))))
      else
        let expected_hash :=
          compute_row_hash sha256 (prev_hash row) (canonical_audit_bytes_with_ext5 (fields row)) in
        if bool_decide (expected_hash ≠ row_hash row)
        then (walked, Mismatch, Some (mismatch_of row BadRowHash expected_hash (row_hash row)))
        else walk bridge_index (Some (row_hash row)) (S walked) rows'
  end.

Definition verify_chain_rows_with_bridges (tenant_id : string) (from to : option Z)
    (prev_head : hash) (rows : list ChainVerifyRow) (bridges : list RetentionBridge)
  : ChainVerifyReport :=
  let '(walked, st, mm) :=
    match rows with
    | [] => (0%nat, Empty, None)
    | _ => walk (index_bridges bridges) prev_head 0 rows
    end in
  {| report_tenant_id := tenant_id; report_from := from; report_to := to; rows_walked := walked;
     status := st; first_mismatch := mm; truncated := false; next_after_chain_seq := None;
     chain_head := None |}.

Definition verify_chain_rows (tenant_id : string) (from to : option Z) (prev_head : hash)
    (rows : list ChainVerifyRow) (markers : list RetentionMarker) : ChainVerifyReport :=
  verify_chain_rows_with_bridges tenant_id from to prev_head rows (omap marker_bridge markers).

End Verifier.

(** ** What an intact chain is *)

(** The hash the next row must name after [rows]. *)
Definition tail_hash (expected : hash) (rows : list ChainVerifyRow) : hash :=
  match last rows with Some row => Some (row_hash row) | None => expected end.

Lemma tail_hash_cons e row rows : tail_hash e (row :: rows) = tail_hash (Some (row_hash row)) rows.
Proof. unfold tail_hash. rewrite last_cons. by destruct (last rows). Qed.

Lemma tail_hash_snoc e rows row : tail_hash e (rows ++ [row]) = Some (row_hash row).
Proof. unfold tail_hash. by rewrite last_snoc. Qed.

Section Intact.
Context (sha256 : bytes → bytes).

(** A row that names its predecessor, or a hash the bridges lead to from it. *)
Definition linked_row (idx : gmap hash RetentionBridge) (expected : hash) (row : ChainVerifyRow)
  : Prop := reaches (successor idx None) expected (prev_hash row).

(** A row whose stored hash is the hash of its columns. *)
Definition sealed_row (row : ChainVerifyRow) : Prop := recompute_row_hash sha256 row = row_hash row.

Fixpoint intact (idx : gmap hash RetentionBridge) (expected : hash) (rows : list ChainVerifyRow)
  : Prop :=
  match rows with
  | [] => True
  | row :: rows' => linked_row idx expected row ∧ sealed_row row ∧
                    intact idx (Some (row_hash row)) rows'
  end.

Lemma intact_app idx e rows1 rows2 :
  intact idx e (rows1 ++ rows2) ↔ intact idx e rows1 ∧ intact idx (tail_hash e rows1) rows2.
Proof.
  revert e. induction rows1 as [|row rows1 IH]; intros e; simpl; [naive_solver|].
  rewrite IH, tail_hash_cons. naive_solver.
Qed.

Lemma link_test idx e row :
  bool_decide (prev_hash row ≠ e) && negb (marker_bridge_reaches e (prev_hash row) idx None) = false
  ↔ linked_row idx e row.
Proof.
  unfold linked_row. rewrite <- reaches_correct. case_bool_decide as Hne; simpl.
  - by rewrite negb_false_iff.
  - split; [|done]. intros _. unfold marker_bridge_reaches.
    by rewrite bool_decide_eq_true_2.
Qed.

(** The first row the walk stops at, after [rows1] passed. *)
Definition breaks_at idx e (rows1 : list ChainVerifyRow) (row : ChainVerifyRow)
    (mm : option ChainMismatch) : Prop :=
  let expected := tail_hash e rows1 in
  (¬ linked_row idx expected row ∧
   mm = Some (mismatch_of row BrokenLink (default "" expected) (default "" (prev_hash row)))) ∨
  (linked_row idx expected row ∧ ¬ sealed_row row ∧
   mm = Some (mismatch_of row BadRowHash (recompute_row_hash sha256 row) (row_hash row))).

Lemma walk_spec idx e w rows w' st mm :
  walk sha256 idx e w rows = (w', st, mm) →
  (st = Ok ∧ mm = None ∧ w' = (w + length rows)%nat ∧ intact idx e rows) ∨
  (st = Mismatch ∧ ∃ rows1 row rows2, rows = rows1 ++ row :: rows2 ∧
     w' = (w + length rows1)%nat ∧ intact idx e rows1 ∧ breaks_at idx e rows1 row mm).
Proof.
  revert e w. induction rows as [|row rows IH]; intros e w; cbn [walk].
  - intros [= <- <- <-]. left. split_and!; [done..|simpl; lia|done].
  - destruct (bool_decide (prev_hash row ≠ e) && _) eqn:Hlink.
    + intros [= <- <- <-]. right. split; [done|]. exists [], row, rows.
      split_and!; [done|simpl; lia|done|]. left. split; [|done].
      rewrite <- link_test. unfold tail_hash. simpl. by rewrite Hlink.
    + apply link_test in Hlink. case_bool_decide as Hseal.
      * intros [= <- <- <-]. right. split; [done|]. exists [], row, rows.
        split_and!; [done|simpl; lia|done|]. right. done.
      * intros [(-> & -> & -> & Hin)|(-> & r1 & r & r2 & -> & -> & Hin & Hb)]%IH.
        -- left. split_and!; [done..|simpl; lia|]. by split_and!.
        -- right. split; [done|]. exists (row :: r1), r, r2.
           split_and!; [done|simpl; lia|by split_and!|]. unfold breaks_at in *.
           by rewrite tail_hash_cons.
Qed.

Lemma verify_spec tenant from to prev_head rows bridges :
  let report := verify_chain_rows_with_bridges sha256 tenant from to prev_head rows bridges in
  let idx := index_bridges bridges in
  (rows = [] ∧ status report = Empty ∧ rows_walked report = 0%nat ∧ first_mismatch report = None) ∨
  (rows ≠ [] ∧ status report = Ok ∧ rows_walked report = length rows ∧
     first_mismatch report = None ∧ intact idx prev_head rows) ∨
  (status report = Mismatch ∧ ∃ rows1 row rows2, rows = rows1 ++ row :: rows2 ∧
     rows_walked report = length rows1 ∧ intact idx prev_head rows1 ∧
     breaks_at idx prev_head rows1 row (first_mismatch report)).
Proof.
  cbv zeta. unfold verify_chain_rows_with_bridges. destruct rows as [|row rows]; [by left|right].
  destruct (walk _ _ _ _ (row :: rows)) as [[w st] mm] eqn:Hw.
  apply walk_spec in Hw as [(-> & -> & -> & Hin)|(-> & r1 & r & r2 & Hr & -> & Hin & Hb)];
    cbn [status rows_walked first_mismatch].
  - left. split; [done|]. split; [done|]. split; [done|]. by split.
  - right. split; [done|]. by exists r1, r, r2.
Qed.

Lemma breaks_not_intact idx e rows1 row rows2 mm :
  breaks_at idx e rows1 row mm → ¬ intact idx e (rows1 ++ row :: rows2).
Proof. rewrite intact_app. intros [[? _]|(_ & ? & _)] (_ & ? & ? & _); done. Qed.

(** Without bridges a row names exactly its predecessor. *)
Lemma linked_no_bridges e row : linked_row ∅ e row ↔ prev_hash row = e.
Proof.
  unfold linked_row. split; [|intros ->; constructor].
  inversion 1 as [|? ? ? Hs]; [done|]. unfold successor in Hs. by rewrite lookup_empty in Hs.
Qed.

(** ** Two chains with the same head *)

(** What the digest was applied to for a row. *)
Definition row_input (row : ChainVerifyRow) : bytes :=
  hash_input (prev_hash row) (canonical_audit_bytes_with_ext5 (fields row)).

Definition same_row (a b : ChainVerifyRow) : Prop :=
  durable (fields a) = durable (fields b) ∧ prev_hash a = prev_hash b ∧ row_hash a = row_hash b.

Hypothesis sha256_length : ∀ m, length (sha256 m) = 32%nat.

Lemma sealed_hash row :
  sealed_row row → no_nul (row_hash row) ∧ row_hash row ≠ "".
Proof.
  intros <-. split; [apply row_hash_no_nul|]. unfold recompute_row_hash, compute_row_hash, hex.
  pose proof (sha256_length (hash_input (prev_hash row) (canonical_audit_bytes_with_ext5 (fields row)))) as Hl.
  destruct (sha256 _) as [|a l]; [done|]. done.
Qed.

(** A genesis row names nothing, another row a sealed, non-empty hash. *)
Lemma intact_prev rows row :
  intact ∅ None (rows ++ [row]) →
  prev_hash row = tail_hash None rows ∧ sealed_row row ∧ intact ∅ None rows ∧
  no_nul (default "" (prev_hash row)) ∧ (prev_hash row = None ∨ default "" (prev_hash row) ≠ "").
Proof.
  rewrite intact_app. simpl. intros (Hin & Hl%linked_no_bridges & Hs & _).
  split_and!; [done..| |]; rewrite Hl; unfold tail_hash;
    (destruct rows as [|x rows' _] using rev_ind; [by left || apply not_elem_of_nil|]);
    rewrite last_snoc; apply intact_app in Hin as (_ & _ & Hx & _); apply sealed_hash in Hx as [? ?];
    [done|by right].
Qed.

Lemma same_prev a b :
  (prev_hash a = None ∨ default "" (prev_hash a) ≠ "") →
  (prev_hash b = None ∨ default "" (prev_hash b) ≠ "") →
  default "" (prev_hash a) = default "" (prev_hash b) → prev_hash a = prev_hash b.
Proof. destruct (prev_hash a), (prev_hash b); simpl; intros [?|?] [?|?]; congruence. Qed.

Lemma tail_hash_eq rows1 rows2 :
  tail_hash None rows1 = tail_hash None rows2 →
  (rows1 = [] ∧ rows2 = []) ∨
  ∃ l1 a l2 b, rows1 = l1 ++ [a] ∧ rows2 = l2 ++ [b] ∧ row_hash a = row_hash b.
Proof.
  destruct rows1 as [|a l1 _] using rev_ind; destruct rows2 as [|b l2 _] using rev_ind;
    rewrite ?tail_hash_snoc; intros H; [by left|done..|]. right. exists l1, a, l2, b.
  by injection H.
Qed.

Lemma collision_rows l1 a l2 b :
  collision sha256 [row_input a; row_input b] →
  collision sha256 (row_input <$> (l1 ++ [a]) ++ l2 ++ [b]).
Proof.
  apply collision_mono. intros x. rewrite !fmap_app, !elem_of_app. cbn [fmap list_fmap].
  rewrite !elem_of_cons. tauto.
Qed.

Lemma same_head_same_rows rows1 rows2 :
  Forall (λ r, wf_fields (fields r)) rows1 → Forall (λ r, wf_fields (fields r)) rows2 →
  intact ∅ None rows1 → intact ∅ None rows2 → tail_hash None rows1 = tail_hash None rows2 →
  Forall2 same_row rows1 rows2 ∨ collision sha256 (row_input <$> rows1 ++ rows2).
Proof.
  revert rows2. induction rows1 as [|a l1 IH] using rev_ind; intros rows2 Hw1 Hw2 Hi1 Hi2 Ht;
    apply tail_hash_eq in Ht as [[? ->]|(l1' & a' & l2 & b & E1 & -> & Hab)].
  1: left; constructor.
  1-2: exfalso; by (destruct l1' || destruct l1).
  apply app_inj_2 in E1 as [<- [= <-]]; [|done]. apply Forall_app in Hw1 as [Hw1 Ha], Hw2 as [Hw2 Hb].
  rewrite Forall_singleton in Ha, Hb.
  destruct (intact_prev _ _ Hi1) as (Hp1 & Hs1 & Hl1 & Hn1 & Hne1).
  destruct (intact_prev _ _ Hi2) as (Hp2 & Hs2 & Hl2 & Hn2 & Hne2).
  pose proof Hab as Hab'. rewrite <- Hs1, <- Hs2 in Hab'.
  apply row_hash_inj in Hab' as [[Hprev Hbytes]|Hc]; [| |done..].
  2:{ right. by apply (collision_rows l1 a l2 b). }
  apply same_prev in Hprev; [|done..].
  destruct (IH l2) as [?|Hc]; [done..|congruence| |].
  2:{ right. revert Hc. apply collision_mono. intros x. rewrite !fmap_app, !elem_of_app. tauto. }
  left.
  apply Forall2_app; [done|]. constructor; [|constructor].
  split_and!; [by apply ext5_inj|done|done].
Qed.

End Intact.

(** ** Gap jobs *)

Lemma elem_of_dedup_vec {A} `{EqDecision A} (l : list A) x : x ∈ dedup l ↔ x ∈ l.
Proof.
  induction l as [|y l IH]; [done|]. cbn [dedup]. destruct l as [|z l]; [done|].
  case_bool_decide; [subst; rewrite IH, elem_of_cons; set_solver|]. rewrite elem_of_cons, IH. set_solver.
Qed.

Lemma raw_gap_jobs_spec rows e j :
  j ∈ raw_gap_jobs e rows ↔
  ∃ rows1 row rows2, rows = rows1 ++ row :: rows2 ∧
    j = (tail_hash e rows1, prev_hash row) ∧ prev_hash row ≠ tail_hash e rows1.
Proof.
  revert e. induction rows as [|row rows IH]; intros e; cbn [raw_gap_jobs].
  - split; [intros H; by apply not_elem_of_nil in H|]. intros (r1 & r & r2 & H & _). by destruct r1.
  - rewrite elem_of_app, IH. split.
    + intros [H|(r1 & r & r2 & -> & -> & ?)].
      * case_bool_decide; [|by apply not_elem_of_nil in H]. apply list_elem_of_singleton in H as ->.
        by exists [], row, rows.
      * exists (row :: r1), r, r2. by rewrite tail_hash_cons.
    + intros ([|x r1] & r & r2 & Heq & -> & Hne); simpl in Heq; injection Heq as -> ->.
      * left. rewrite bool_decide_eq_true_2 by done. left.
      * right. exists r1, r, r2. by rewrite tail_hash_cons in *.
Qed.

Lemma gap_jobs_spec prev_head rows j :
  j ∈ verification_gap_jobs prev_head rows ↔
  ∃ rows1 row rows2, rows = rows1 ++ row :: rows2 ∧
    j = (tail_hash prev_head rows1, prev_hash row) ∧ prev_hash row ≠ tail_hash prev_head rows1.
Proof.
  unfold verification_gap_jobs. rewrite elem_of_dedup_vec, merge_sort_Permutation.
  apply raw_gap_jobs_spec.
Qed.

(** ** Theorems *)

(** The verifier's verdict is exact. It reports [Empty] for no rows, [Ok]
    only when every row names its predecessor (or a hash the bridges lead to from
    it) and carries the hash of its own columns, and otherwise stops at the first
    row that does not, having counted the rows before it and naming which of the
    two invariants failed. *)
Theorem verdict_is_exact sha256 tenant from to prev_head rows bridges :
  let report := verify_chain_rows_with_bridges sha256 tenant from to prev_head rows bridges in
  let idx := index_bridges bridges in
  (rows = [] ∧ status report = Empty ∧ rows_walked report = 0%nat ∧ first_mismatch report = None) ∨
  (rows ≠ [] ∧ status report = Ok ∧ rows_walked report = length rows ∧
     first_mismatch report = None ∧ intact sha256 idx prev_head rows) ∨
  (status report = Mismatch ∧ ∃ rows1 row rows2, rows = rows1 ++ row :: rows2 ∧
     rows_walked report = length rows1 ∧ intact sha256 idx prev_head rows1 ∧
     breaks_at sha256 idx prev_head rows1 row (first_mismatch report)).
Proof. apply verify_spec. Qed.

(** C20. Tamper evidence: a recorded head hash pins the whole chain before it. If
    two row sequences from genesis both verify without bridges and end in the same
    row hash, they are the same rows in every hashed column (timestamps to the
    microsecond; [chain_seq] is not hashed and not compared), unless the digest collides on two of the inputs hashed for these
    very rows. *)
Theorem head_pins_the_chain sha256 tenant from to rows1 rows2 :
  (∀ m, length (sha256 m) = 32%nat) →
  Forall (λ r, wf_fields (fields r)) rows1 → Forall (λ r, wf_fields (fields r)) rows2 →
  status (verify_chain_rows sha256 tenant from to None rows1 []) = Ok →
  status (verify_chain_rows sha256 tenant from to None rows2 []) = Ok →
  tail_hash None rows1 = tail_hash None rows2 →
  Forall2 same_row rows1 rows2 ∨ collision sha256 (row_input <$> rows1 ++ rows2).
Proof.
  intros Hlen Hw1 Hw2 H1 H2 Ht. unfold verify_chain_rows in *.
  change (omap marker_bridge []) with (@nil RetentionBridge) in *.
  pose proof (verify_spec sha256 tenant from to None rows1 []) as S1.
  pose proof (verify_spec sha256 tenant from to None rows2 []) as S2.
  cbv zeta in S1, S2. rewrite H1 in S1. rewrite H2 in S2.
  destruct S1 as [(_ & ? & _)|[(_ & _ & _ & _ & I1)|[? _]]]; [done| |done].
  destruct S2 as [(_ & ? & _)|[(_ & _ & _ & _ & I2)|[? _]]]; [done| |done].
  by apply same_head_same_rows.
Qed.

(** A digest to compute with: the last 32 bytes, padded. *)
Definition toy_digest (m : bytes) : bytes := take 32 (reverse m ++ replicate 32 (Encoding.Encoding.byte 0)).

Lemma toy_digest_length m : length (toy_digest m) = 32%nat.
Proof. unfold toy_digest. rewrite length_take, length_app, length_replicate. lia. Qed.

Definition demo_row (seq : Z) (prev : hash) (a : AuditFields) : ChainVerifyRow :=
  {| fields := a; chain_seq := seq; prev_hash := prev;
     row_hash := compute_row_hash toy_digest prev (canonical_audit_bytes_with_ext5 a) |}.

Definition demo_chain (a b : AuditFields) : list ChainVerifyRow :=
  let first := demo_row 1 None a in [first; demo_row 2 (Some (row_hash first)) b].

Ltac solve_wf_rows := repeat (apply Forall_cons_2; [solve_wf_fields|]); apply Forall_nil_2.

Lemma head_pins_the_chain_witness :
  Forall2 same_row (demo_chain (demo_fields "alice" ["a"; "b"]) demo_stored)
                   (demo_chain demo_stored (demo_fields "alice" ["a"; "b"]))
  ∨ collision toy_digest (row_input <$>
      demo_chain (demo_fields "alice" ["a"; "b"]) demo_stored ++
      demo_chain demo_stored (demo_fields "alice" ["a"; "b"])).
Proof.
  apply (head_pins_the_chain toy_digest "default" None None);
    [exact toy_digest_length
    |solve_wf_rows|solve_wf_rows
    |vm_compute; reflexivity|vm_compute; reflexivity|vm_compute; reflexivity].
Defined.

End ChainVerify.
