(* ===== verification/Evidence.v ===== *)
(** * Audit events

    Model of the event side of crates/waygate-evidence/src/audit.rs: categories,
    outcomes, [AuditEvent] with its builder methods, the recorder postures, and
    the bound the queueing recorder puts on a reason. [AuditEvent::new] draws a
    fresh id and the current time: both are arguments here. *)

From S2P Require Import Prelude RustStr HashChain Facts.

Module Evidence.
Import HashChain(Uuid, InvocationHierarchy).
Import Facts.Facts.

Inductive AuditMode := BestEffort | FailClosed.

Definition parse_env (s : string) : option AuditMode :=
  if bool_decide (s = "best_effort") then Some BestEffort
  else if bool_decide (s = "fail_closed") then Some FailClosed
  else None.

Inductive EvidenceCategory :=
  | Invocation | Discovery | LlmCompletion | AdminMutation | AuthAttempt | PolicyReload
  | ManifestReload | ApiKeyLifecycle | OAuthEvent | UpstreamHealth | ApprovalLifecycle
  | CatalogDrift | DataInspection | FileTransfer | RetentionSweep.

Definition category_as_str (c : EvidenceCategory) : string :=
  match c with
  | Invocation => "invocation"
  | Discovery => "discovery"
  | LlmCompletion => "llm_completion"
  | AdminMutation => "admin_mutation"
  | AuthAttempt => "auth_attempt"
  | PolicyReload => "policy_reload"
  | ManifestReload => "manifest_reload"
  | ApiKeyLifecycle => "api_key_lifecycle"
  | OAuthEvent => "oauth_event"
  | UpstreamHealth => "upstream_health"
  | ApprovalLifecycle => "approval_lifecycle"
  | CatalogDrift => "catalog_drift"
  | DataInspection => "data_inspection"
  | FileTransfer => "file_transfer"
  | RetentionSweep => "retention_sweep"
  end.

Inductive AuditOutcome := Success | ExecutionError | Denied | StepUpNeeded.

Definition outcome_as_str (o : AuditOutcome) : string :=
  match o with
  | Success => "success"
  | ExecutionError => "execution_error"
  | Denied => "denied"
  | StepUpNeeded => "step_up_required"
  end.

#[export] Instance category_eq_dec : EqDecision EvidenceCategory.
Proof. solve_decision. Defined.
#[export] Instance outcome_eq_dec : EqDecision AuditOutcome.
Proof. solve_decision. Defined.

Record AuditPrincipal := {
  ap_sub : string;
  ap_email : option string;
  ap_groups : list string;
  ap_issuer : string;
  ap_scim_active : option bool;
  ap_scim_groups : list string;
}.

Definition principal_of {Json} (p : Principal Json) : AuditPrincipal :=
  {| ap_sub := sub p; ap_email := email p; ap_groups := groups p; ap_issuer := issuer p;
     ap_scim_active := sp_active <$> scim p;
     ap_scim_groups := match scim p with
                       | Some s => display_name <$> sp_groups s
                       | None => []
                       end |}.

Record AuditEvent := {
  ev_id : Uuid;
  ev_ts : Z;
  ev_category : EvidenceCategory;
  ev_tenant : string;
  ev_principal : option AuditPrincipal;
  ev_action : string;
  ev_server : option string;
  ev_tool : option string;
  ev_operation : option string;
  ev_outcome : AuditOutcome;
  ev_risk_level : option RiskTier;
  ev_pii : option bool;
  ev_policy_ids : list string;
  ev_reason : option string;
  ev_trace_id : option string;
  ev_latency_ms : option Z;
  ev_target : option string;
  ev_req_scopes : list string;
  ev_auth_method : option string;
  ev_req_roles : list string;
  ev_side_effects : option bool;
  ev_acting_agent : option string;
  ev_invocation_hierarchy : option InvocationHierarchy;
}.

(** ** Builders *)

Definition new (id : Uuid) (now : Z) (action : string) (outcome : AuditOutcome) : AuditEvent :=
  {| ev_id := id; ev_ts := now; ev_category := Invocation; ev_tenant := DEFAULT_TENANT;
     ev_principal := None; ev_action := action; ev_server := None; ev_tool := None;
     ev_operation := None; ev_outcome := outcome; ev_risk_level := None; ev_pii := None;
     ev_policy_ids := []; ev_reason := None; ev_trace_id := None; ev_latency_ms := None;
     ev_target := None; ev_req_scopes := []; ev_auth_method := None; ev_req_roles := [];
     ev_side_effects := None; ev_acting_agent := None; ev_invocation_hierarchy := None |}.

Definition with_category (c : EvidenceCategory) (e : AuditEvent) : AuditEvent :=
  {| ev_id := ev_id e; ev_ts := ev_ts e; ev_category := c; ev_tenant := ev_tenant e;
     ev_principal := ev_principal e; ev_action := ev_action e; ev_server := ev_server e;
     ev_tool := ev_tool e; ev_operation := ev_operation e; ev_outcome := ev_outcome e;
     ev_risk_level := ev_risk_level e; ev_pii := ev_pii e; ev_policy_ids := ev_policy_ids e;
     ev_reason := ev_reason e; ev_trace_id := ev_trace_id e; ev_latency_ms := ev_latency_ms e;
     ev_target := ev_target e; ev_req_scopes := ev_req_scopes e;
     ev_auth_method := ev_auth_method e; ev_req_roles := ev_req_roles e;
     ev_side_effects := ev_side_effects e; ev_acting_agent := ev_acting_agent e;
     ev_invocation_hierarchy := ev_invocation_hierarchy e |}.

Definition with_principal {Json} (p : option (Principal Json)) (e : AuditEvent) : AuditEvent :=
  {| ev_id := ev_id e; ev_ts := ev_ts e; ev_category := ev_category e;
     ev_tenant := match p with Some p => tenant p | None => ev_tenant e end;
     ev_principal := principal_of <$> p; ev_action := ev_action e; ev_server := ev_server e;
     ev_tool := ev_tool e; ev_operation := ev_operation e; ev_outcome := ev_outcome e;
     ev_risk_level := ev_risk_level e; ev_pii := ev_pii e; ev_policy_ids := ev_policy_ids e;
     ev_reason := ev_reason e; ev_trace_id := ev_trace_id e; ev_latency_ms := ev_latency_ms e;
     ev_target := ev_target e; ev_req_scopes := ev_req_scopes e;
     ev_auth_method := ev_auth_method e; ev_req_roles := ev_req_roles e;
     ev_side_effects := ev_side_effects e; ev_acting_agent := ev_acting_agent e;
     ev_invocation_hierarchy := ev_invocation_hierarchy e |}.

Definition with_tool (server tool : string) (e : AuditEvent) : AuditEvent :=
  {| ev_id := ev_id e; ev_ts := ev_ts e; ev_category := ev_category e; ev_tenant := ev_tenant e;
     ev_principal := ev_principal e; ev_action := ev_action e; ev_server := Some server;
     ev_tool := Some tool; ev_operation := ev_operation e; ev_outcome := ev_outcome e;
     ev_risk_level := ev_risk_level e; ev_pii := ev_pii e; ev_policy_ids := ev_policy_ids e;
     ev_reason := ev_reason e; ev_trace_id := ev_trace_id e; ev_latency_ms := ev_latency_ms e;
     ev_target := ev_target e; ev_req_scopes := ev_req_scopes e;
     ev_auth_method := ev_auth_method e; ev_req_roles := ev_req_roles e;
     ev_side_effects := ev_side_effects e; ev_acting_agent := ev_acting_agent e;
     ev_invocation_hierarchy := ev_invocation_hierarchy e |}.

(** [with_risk], [with_pii]: the classification of a tool-call event. *)
Definition with_risk (r : RiskTier) (e : AuditEvent) : AuditEvent :=
  {| ev_id := ev_id e; ev_ts := ev_ts e; ev_category := ev_category e; ev_tenant := ev_tenant e;
     ev_principal := ev_principal e; ev_action := ev_action e; ev_server := ev_server e;
     ev_tool := ev_tool e; ev_operation := ev_operation e; ev_outcome := ev_outcome e;
     ev_risk_level := Some r; ev_pii := ev_pii e; ev_policy_ids := ev_policy_ids e;
     ev_reason := ev_reason e; ev_trace_id := ev_trace_id e; ev_latency_ms := ev_latency_ms e;
     ev_target := ev_target e; ev_req_scopes := ev_req_scopes e;
     ev_auth_method := ev_auth_method e; ev_req_roles := ev_req_roles e;
     ev_side_effects := ev_side_effects e; ev_acting_agent := ev_acting_agent e;
     ev_invocation_hierarchy := ev_invocation_hierarchy e |}.

Definition with_pii (b : bool) (e : AuditEvent) : AuditEvent :=
  {| ev_id := ev_id e; ev_ts := ev_ts e; ev_category := ev_category e; ev_tenant := ev_tenant e;
     ev_principal := ev_principal e; ev_action := ev_action e; ev_server := ev_server e;
     ev_tool := ev_tool e; ev_operation := ev_operation e; ev_outcome := ev_outcome e;
     ev_risk_level := ev_risk_level e; ev_pii := Some b; ev_policy_ids := ev_policy_ids e;
     ev_reason := ev_reason e; ev_trace_id := ev_trace_id e; ev_latency_ms := ev_latency_ms e;
     ev_target := ev_target e; ev_req_scopes := ev_req_scopes e;
     ev_auth_method := ev_auth_method e; ev_req_roles := ev_req_roles e;
     ev_side_effects := ev_side_effects e; ev_acting_agent := ev_acting_agent e;
     ev_invocation_hierarchy := ev_invocation_hierarchy e |}.

Definition set_reason (r : option string) (e : AuditEvent) : AuditEvent :=
  {| ev_id := ev_id e; ev_ts := ev_ts e; ev_category := ev_category e; ev_tenant := ev_tenant e;
     ev_principal := ev_principal e; ev_action := ev_action e; ev_server := ev_server e;
     ev_tool := ev_tool e; ev_operation := ev_operation e; ev_outcome := ev_outcome e;
     ev_risk_level := ev_risk_level e; ev_pii := ev_pii e; ev_policy_ids := ev_policy_ids e;
     ev_reason := r; ev_trace_id := ev_trace_id e; ev_latency_ms := ev_latency_ms e;
     ev_target := ev_target e; ev_req_scopes := ev_req_scopes e;
     ev_auth_method := ev_auth_method e; ev_req_roles := ev_req_roles e;
     ev_side_effects := ev_side_effects e; ev_acting_agent := ev_acting_agent e;
     ev_invocation_hierarchy := ev_invocation_hierarchy e |}.

Definition with_reason (r : string) : AuditEvent → AuditEvent := set_reason (Some r).

Definition with_trace_id (t : string) (e : AuditEvent) : AuditEvent :=
  {| ev_id := ev_id e; ev_ts := ev_ts e; ev_category := ev_category e; ev_tenant := ev_tenant e;
     ev_principal := ev_principal e; ev_action := ev_action e; ev_server := ev_server e;
     ev_tool := ev_tool e; ev_operation := ev_operation e; ev_outcome := ev_outcome e;
     ev_risk_level := ev_risk_level e; ev_pii := ev_pii e; ev_policy_ids := ev_policy_ids e;
     ev_reason := ev_reason e; ev_trace_id := Some t; ev_latency_ms := ev_latency_ms e;
     ev_target := ev_target e; ev_req_scopes := ev_req_scopes e;
     ev_auth_method := ev_auth_method e; ev_req_roles := ev_req_roles e;
     ev_side_effects := ev_side_effects e; ev_acting_agent := ev_acting_agent e;
     ev_invocation_hierarchy := ev_invocation_hierarchy e |}.

Definition with_policies (ids : list string) (e : AuditEvent) : AuditEvent :=
  {| ev_id := ev_id e; ev_ts := ev_ts e; ev_category := ev_category e; ev_tenant := ev_tenant e;
     ev_principal := ev_principal e; ev_action := ev_action e; ev_server := ev_server e;
     ev_tool := ev_tool e; ev_operation := ev_operation e; ev_outcome := ev_outcome e;
     ev_risk_level := ev_risk_level e; ev_pii := ev_pii e; ev_policy_ids := ids;
     ev_reason := ev_reason e; ev_trace_id := ev_trace_id e; ev_latency_ms := ev_latency_ms e;
     ev_target := ev_target e; ev_req_scopes := ev_req_scopes e;
     ev_auth_method := ev_auth_method e; ev_req_roles := ev_req_roles e;
     ev_side_effects := ev_side_effects e; ev_acting_agent := ev_acting_agent e;
     ev_invocation_hierarchy := ev_invocation_hierarchy e |}.

Definition with_latency_ms (ms : Z) (e : AuditEvent) : AuditEvent :=
  {| ev_id := ev_id e; ev_ts := ev_ts e; ev_category := ev_category e; ev_tenant := ev_tenant e;
     ev_principal := ev_principal e; ev_action := ev_action e; ev_server := ev_server e;
     ev_tool := ev_tool e; ev_operation := ev_operation e; ev_outcome := ev_outcome e;
     ev_risk_level := ev_risk_level e; ev_pii := ev_pii e; ev_policy_ids := ev_policy_ids e;
     ev_reason := ev_reason e; ev_trace_id := ev_trace_id e; ev_latency_ms := Some ms;
     ev_target := ev_target e; ev_req_scopes := ev_req_scopes e;
     ev_auth_method := ev_auth_method e; ev_req_roles := ev_req_roles e;
     ev_side_effects := ev_side_effects e; ev_acting_agent := ev_acting_agent e;
     ev_invocation_hierarchy := ev_invocation_hierarchy e |}.

Definition with_decision_inputs (scopes : list string) (method : option string)
    (roles : list string) (effects : option bool) (e : AuditEvent) : AuditEvent :=
  {| ev_id := ev_id e; ev_ts := ev_ts e; ev_category := ev_category e; ev_tenant := ev_tenant e;
     ev_principal := ev_principal e; ev_action := ev_action e; ev_server := ev_server e;
     ev_tool := ev_tool e; ev_operation := ev_operation e; ev_outcome := ev_outcome e;
     ev_risk_level := ev_risk_level e; ev_pii := ev_pii e; ev_policy_ids := ev_policy_ids e;
     ev_reason := ev_reason e; ev_trace_id := ev_trace_id e; ev_latency_ms := ev_latency_ms e;
     ev_target := ev_target e; ev_req_scopes := scopes; ev_auth_method := method;
     ev_req_roles := roles; ev_side_effects := effects; ev_acting_agent := ev_acting_agent e;
     ev_invocation_hierarchy := ev_invocation_hierarchy e |}.

Definition with_acting_agent (a : option string) (e : AuditEvent) : AuditEvent :=
  {| ev_id := ev_id e; ev_ts := ev_ts e; ev_category := ev_category e; ev_tenant := ev_tenant e;
     ev_principal := ev_principal e; ev_action := ev_action e; ev_server := ev_server e;
     ev_tool := ev_tool e; ev_operation := ev_operation e; ev_outcome := ev_outcome e;
     ev_risk_level := ev_risk_level e; ev_pii := ev_pii e; ev_policy_ids := ev_policy_ids e;
     ev_reason := ev_reason e; ev_trace_id := ev_trace_id e; ev_latency_ms := ev_latency_ms e;
     ev_target := ev_target e; ev_req_scopes := ev_req_scopes e;
     ev_auth_method := ev_auth_method e; ev_req_roles := ev_req_roles e;
     ev_side_effects := ev_side_effects e; ev_acting_agent := a;
     ev_invocation_hierarchy := ev_invocation_hierarchy e |}.

Definition with_invocation_hierarchy (h : option InvocationHierarchy) (e : AuditEvent) : AuditEvent :=
  {| ev_id := ev_id e; ev_ts := ev_ts e; ev_category := ev_category e; ev_tenant := ev_tenant e;
     ev_principal := ev_principal e; ev_action := ev_action e; ev_server := ev_server e;
     ev_tool := ev_tool e; ev_operation := ev_operation e; ev_outcome := ev_outcome e;
     ev_risk_level := ev_risk_level e; ev_pii := ev_pii e; ev_policy_ids := ev_policy_ids e;
     ev_reason := ev_reason e; ev_trace_id := ev_trace_id e; ev_latency_ms := ev_latency_ms e;
     ev_target := ev_target e; ev_req_scopes := ev_req_scopes e;
     ev_auth_method := ev_auth_method e; ev_req_roles := ev_req_roles e;
     ev_side_effects := ev_side_effects e; ev_acting_agent := ev_acting_agent e;
     ev_invocation_hierarchy := h |}.

(** Struct update of single fields. *)
Definition with_tenant (t : string) (e : AuditEvent) : AuditEvent :=
  {| ev_id := ev_id e; ev_ts := ev_ts e; ev_category := ev_category e;
     ev_tenant := t; ev_principal := ev_principal e; ev_action := ev_action e;
     ev_server := ev_server e; ev_tool := ev_tool e; ev_operation := ev_operation e;
     ev_outcome := ev_outcome e; ev_risk_level := ev_risk_level e; ev_pii := ev_pii e;
     ev_policy_ids := ev_policy_ids e; ev_reason := ev_reason e; ev_trace_id := ev_trace_id e;
     ev_latency_ms := ev_latency_ms e; ev_target := ev_target e; ev_req_scopes := ev_req_scopes e;
     ev_auth_method := ev_auth_method e; ev_req_roles := ev_req_roles e; ev_side_effects := ev_side_effects e;
     ev_acting_agent := ev_acting_agent e; ev_invocation_hierarchy := ev_invocation_hierarchy e |}.

Definition with_target (t : string) (e : AuditEvent) : AuditEvent :=
  {| ev_id := ev_id e; ev_ts := ev_ts e; ev_category := ev_category e;
     ev_tenant := ev_tenant e; ev_principal := ev_principal e; ev_action := ev_action e;
     ev_server := ev_server e; ev_tool := ev_tool e; ev_operation := ev_operation e;
     ev_outcome := ev_outcome e; ev_risk_level := ev_risk_level e; ev_pii := ev_pii e;
     ev_policy_ids := ev_policy_ids e; ev_reason := ev_reason e; ev_trace_id := ev_trace_id e;
     ev_latency_ms := ev_latency_ms e; ev_target := Some t; ev_req_scopes := ev_req_scopes e;
     ev_auth_method := ev_auth_method e; ev_req_roles := ev_req_roles e; ev_side_effects := ev_side_effects e;
     ev_acting_agent := ev_acting_agent e; ev_invocation_hierarchy := ev_invocation_hierarchy e |}.

Definition with_operation (o : option string) (e : AuditEvent) : AuditEvent :=
  {| ev_id := ev_id e; ev_ts := ev_ts e; ev_category := ev_category e; ev_tenant := ev_tenant e;
     ev_principal := ev_principal e; ev_action := ev_action e; ev_server := ev_server e;
     ev_tool := ev_tool e; ev_operation := o; ev_outcome := ev_outcome e;
     ev_risk_level := ev_risk_level e; ev_pii := ev_pii e; ev_policy_ids := ev_policy_ids e;
     ev_reason := ev_reason e; ev_trace_id := ev_trace_id e; ev_latency_ms := ev_latency_ms e;
     ev_target := ev_target e; ev_req_scopes := ev_req_scopes e;
     ev_auth_method := ev_auth_method e; ev_req_roles := ev_req_roles e;
     ev_side_effects := ev_side_effects e; ev_acting_agent := ev_acting_agent e;
     ev_invocation_hierarchy := ev_invocation_hierarchy e |}.

Definition with_outcome (o : AuditOutcome) (e : AuditEvent) : AuditEvent :=
  {| ev_id := ev_id e; ev_ts := ev_ts e; ev_category := ev_category e; ev_tenant := ev_tenant e;
     ev_principal := ev_principal e; ev_action := ev_action e; ev_server := ev_server e;
     ev_tool := ev_tool e; ev_operation := ev_operation e; ev_outcome := o;
     ev_risk_level := ev_risk_level e; ev_pii := ev_pii e; ev_policy_ids := ev_policy_ids e;
     ev_reason := ev_reason e; ev_trace_id := ev_trace_id e; ev_latency_ms := ev_latency_ms e;
     ev_target := ev_target e; ev_req_scopes := ev_req_scopes e;
     ev_auth_method := ev_auth_method e; ev_req_roles := ev_req_roles e;
     ev_side_effects := ev_side_effects e; ev_acting_agent := ev_acting_agent e;
     ev_invocation_hierarchy := ev_invocation_hierarchy e |}.

Definition with_id (id : Uuid) (e : AuditEvent) : AuditEvent :=
  {| ev_id := id; ev_ts := ev_ts e; ev_category := ev_category e; ev_tenant := ev_tenant e;
     ev_principal := ev_principal e; ev_action := ev_action e; ev_server := ev_server e;
     ev_tool := ev_tool e; ev_operation := ev_operation e; ev_outcome := ev_outcome e;
     ev_risk_level := ev_risk_level e; ev_pii := ev_pii e; ev_policy_ids := ev_policy_ids e;
     ev_reason := ev_reason e; ev_trace_id := ev_trace_id e; ev_latency_ms := ev_latency_ms e;
     ev_target := ev_target e; ev_req_scopes := ev_req_scopes e;
     ev_auth_method := ev_auth_method e; ev_req_roles := ev_req_roles e;
     ev_side_effects := ev_side_effects e; ev_acting_agent := ev_acting_agent e;
     ev_invocation_hierarchy := ev_invocation_hierarchy e |}.

(** ** The recorder *)

Inductive EvidenceError := Unavailable (e : string) | Persistence (e : string).
Inductive EvidencePosture := Required | ChainedBestEffort | BestEffortPosture.

Section Recorder.
Context {W : Type}.

Record EvidenceRecorder := {
  record_required : AuditEvent → W → result Uuid EvidenceError * W;
  record_chained_best_effort : AuditEvent → W → W;
  record_best_effort : AuditEvent → W → W;
}.

Definition NullSink : EvidenceRecorder :=
  {| record_required e w := (Err (Unavailable "NullSink"), w);
     record_chained_best_effort e w := w;
     record_best_effort e w := w |}.
End Recorder.
Arguments EvidenceRecorder : clear implicits.

(** The sink the tests assert on: events with the posture the caller chose. *)
Definition InMemorySink : EvidenceRecorder (list (AuditEvent * EvidencePosture)) :=
  {| record_required e w := (Ok (ev_id e), w ++ [(e, Required)]);
     record_chained_best_effort e w := w ++ [(e, ChainedBestEffort)];
     record_best_effort e w := w ++ [(e, BestEffortPosture)] |}.

(** ** The bound on a reason *)

Definition MAX_EVIDENCE_REASON_BYTES : nat := 8 * 1024.

(** [str::is_char_boundary] *)
Definition is_char_boundary (l : bytes) (i : nat) : bool :=
  if (i =? 0)%nat then true
  else match l !! i with
       | Some a => negb (is_continuation a)
       | None => (i =? length l)%nat
       end.

(** [while !is_char_boundary(end) { end -= 1 }] *)
Fixpoint boundary_at_most (l : bytes) (i : nat) : nat :=
  if is_char_boundary l i then i
  else match i with O => O | S i' => boundary_at_most l i' end.

Definition bounded_reason (reason : string) : string :=
  if (len reason <=? MAX_EVIDENCE_REASON_BYTES)%nat then reason
  else of_bytes (take (boundary_at_most (as_bytes reason) MAX_EVIDENCE_REASON_BYTES)
                   (as_bytes reason)).

Definition truncate_reason (e : AuditEvent) : AuditEvent :=
  match ev_reason e with
  | None => e
  | Some reason => set_reason (Some (bounded_reason reason)) e
  end.

Lemma boundary_at_most_le l i : (boundary_at_most l i ≤ i)%nat.
Proof.
  induction i as [|i IH]; cbn [boundary_at_most]; [by destruct (is_char_boundary l 0)|].
  destruct (is_char_boundary l (S i)); lia.
Qed.

Lemma boundary_at_most_boundary l i : is_char_boundary l (boundary_at_most l i) = true.
Proof.
  induction i as [|i IH]; cbn [boundary_at_most]; [done|].
  by destruct (is_char_boundary l (S i)) eqn:E.
Qed.

(** No character boundary lies between the cut and the limit. *)
Lemma boundary_at_most_largest l i j :
  (boundary_at_most l i < j ≤ i)%nat → is_char_boundary l j = false.
Proof.
  induction i as [|i IH]; cbn [boundary_at_most]; [intros ?; lia|].
  destruct (is_char_boundary l (S i)) eqn:E; [lia|]. intros Hj.
  destruct (decide (j = S i)) as [->|]; [done|]. apply IH. lia.
Qed.

(** The queueing recorder bounds every reason to 8 KiB without splitting a
    character: the kept text is the longest prefix of the reason that ends at a
    character boundary within the bound, and a reason within the bound is kept
    whole. *)
Theorem reason_is_bounded reason :
  ∃ cut, bounded_reason reason = of_bytes (take cut (as_bytes reason)) ∧
    (cut ≤ MAX_EVIDENCE_REASON_BYTES ∨ cut = len reason)%nat ∧
    (len (bounded_reason reason) ≤ MAX_EVIDENCE_REASON_BYTES)%nat ∧
    is_char_boundary (as_bytes reason) cut = true ∧
    (len reason ≤ MAX_EVIDENCE_REASON_BYTES → cut = len reason)%nat ∧
    ∀ j, (cut < j ≤ MAX_EVIDENCE_REASON_BYTES)%nat → (j ≤ len reason)%nat →
         is_char_boundary (as_bytes reason) j = false.
Proof.
  unfold bounded_reason. destruct (len reason <=? MAX_EVIDENCE_REASON_BYTES)%nat eqn:E.
  - apply Nat.leb_le in E. exists (len reason). unfold len at 1. rewrite firstn_all, of_as_bytes.
    split_and!; [done|by right|done| |done|lia]. unfold is_char_boundary, len.
    destruct (length (as_bytes reason) =? 0)%nat eqn:E0; [done|].
    by rewrite lookup_ge_None_2, Nat.eqb_refl by lia.
  - apply Nat.leb_gt in E. eexists. split; [reflexivity|].
    pose proof (boundary_at_most_le (as_bytes reason) MAX_EVIDENCE_REASON_BYTES) as Hle.
    split_and!; [by left| |apply boundary_at_most_boundary|lia|].
    + unfold len. rewrite as_of_bytes, length_take. lia.
    + intros j Hj _. by apply (boundary_at_most_largest _ MAX_EVIDENCE_REASON_BYTES).
Qed.

End Evidence.
