(* ===== verification/Json.v ===== *)
(** * JSON values

    [serde_json::Value] as the source uses it. The build enables serde_json's
    [preserve_order], so an object is an association list in insertion order with
    one entry per key; a number is kept as its source text. *)

From S2P Require Import Prelude RustStr.

Module Json.

#[warnings="-register-all"]
Inductive Value :=
  | Null
  | Bool (b : bool)
  | Number (text : string)
  | Str (s : string)
  | Array (l : list Value)
  | Object (fields : list (string * Value)).

Definition field (key : string) (fields : list (string * Value)) : option Value :=
  snd <$> find_first (λ kv, bool_decide (kv.1 = key)) fields.

(** [Value::get] with a string key. *)
Definition get (key : string) (v : Value) : option Value :=
  match v with Object fields => field key fields | _ => None end.

Definition as_bool (v : Value) : option bool := match v with Bool b => Some b | _ => None end.
Definition as_str (v : Value) : option string := match v with Str s => Some s | _ => None end.
Definition as_array (v : Value) : option (list Value) :=
  match v with Array l => Some l | _ => None end.
Definition as_object (v : Value) : option (list (string * Value)) :=
  match v with Object fields => Some fields | _ => None end.
Definition is_null (v : Value) : bool := match v with Null => true | _ => false end.

(** [Value::as_u64]: a number written with digits only that fits. *)
Definition as_u64 (v : Value) : option Z :=
  match v with
  | Number t =>
      let ds := as_bytes t in
      if forallb is_ascii_digit ds && negb (is_empty t) then
        let n := foldl (λ a d, 10 * a + (Z.of_N (byte_val d) - 48)) 0 ds in
        if n <=? u64_max then Some n else None
      else None
  | _ => None
  end.

(** [Map::insert] keeps the place of a key it already has; [Map::remove] is [swap_remove]:
    the last entry takes the place of the removed one. *)
Fixpoint insert (key : string) (v : Value) (fields : list (string * Value))
  : list (string * Value) :=
  match fields with
  | [] => [(key, v)]
  | kv :: fields' =>
      if bool_decide (kv.1 = key) then (key, v) :: fields' else kv :: insert key v fields'
  end.

Definition remove (key : string) (fields : list (string * Value)) : list (string * Value) :=
  match list_find (λ kv, kv.1 = key) fields with
  | None => fields
  | Some (i, _) =>
      match last (drop (S i) fields) with
      | None => take i fields
      | Some kv => take i fields ++ kv :: removelast (drop (S i) fields)
      end
  end.

Definition contains_key (key : string) (fields : list (string * Value)) : bool :=
  existsb (λ kv, bool_decide (kv.1 = key)) fields.

(** Induction with hypotheses for the elements of arrays and objects. *)
Lemma value_ind (P : Value → Prop) :
  P Null → (∀ b, P (Bool b)) → (∀ t, P (Number t)) → (∀ s, P (Str s)) →
  (∀ l, Forall P l → P (Array l)) → (∀ m, Forall (λ kv, P kv.2) m → P (Object m)) → ∀ v, P v.
Proof.
  intros Hn Hb Ht Hs Ha Ho. fix IH 1. intros [| | | |l|m]; [done..| |].
  - apply Ha. induction l; constructor; auto.
  - apply Ho. induction m as [|[k v] m IHm]; constructor; auto.
Qed.

(** [Value::pointer] along object keys. *)
Fixpoint pointer (path : list string) (v : Value) : option Value :=
  match path with
  | [] => Some v
  | key :: path => get key v ≫= pointer path
  end.

(** ** Entries by key *)

Lemma field_Some key fields v : field key fields = Some v → (key, v) ∈ fields.
Proof.
  unfold field. destruct (find_first _ fields) as [[k x]|] eqn:Hf; simpl; [|done]. intros [= ->].
  apply find_first_Some in Hf as [Hin Hk]. cbn in Hk. by apply bool_decide_eq_true in Hk as ->.
Qed.

Lemma field_None key fields : field key fields = None ↔ key ∉ fields.*1.
Proof.
  unfold field. induction fields as [|[k v] fields IH]; cbn; [split; [set_solver|done]|].
  case_bool_decide; cbn; [set_solver|]. rewrite IH. set_solver.
Qed.

Lemma field_unique key fields v :
  NoDup fields.*1 → field key fields = Some v ↔ (key, v) ∈ fields.
Proof.
  intros Hd. split; [apply field_Some|]. intros Hin. unfold field.
  rewrite (find_first_unique _ _ (key, v)); [done..|by apply bool_decide_eq_true_2|].
  intros [k' v'] Hin' Hk. cbn in Hk. apply bool_decide_eq_true in Hk as ->. f_equal.
  apply list_elem_of_lookup in Hin as [i Hi]. apply list_elem_of_lookup in Hin' as [j Hj].
  assert (i = j) as <- by (eapply (NoDup_lookup fields.*1); [done|by rewrite list_lookup_fmap, Hi|by rewrite list_lookup_fmap, Hj]).
  by simplify_eq.
Qed.

Lemma contains_key_spec key fields : contains_key key fields = true ↔ key ∈ fields.*1.
Proof.
  unfold contains_key. rewrite existsb_exists, list_elem_of_fmap. split.
  - intros ([k v] & Hin & Hk). cbn in Hk. apply bool_decide_eq_true in Hk as ->.
    exists (key, v). by rewrite list_elem_of_In.
  - intros ([k v] & -> & Hin). exists (k, v). rewrite <- list_elem_of_In. by rewrite bool_decide_eq_true_2.
Qed.

Lemma swap_last_perm {A} (a b : list A) :
  match last b with None => a | Some x => a ++ x :: removelast b end ≡ₚ a ++ b.
Proof.
  destruct b as [|x b _] using rev_ind; simpl; [by rewrite app_nil_r|].
  rewrite last_snoc, removelast_last. by rewrite (Permutation_app_comm b [x]).
Qed.

Lemma filter_keys_absent key (l : list (string * Value)) :
  key ∉ l.*1 → filter (λ kv, kv.1 ≠ key) l = l.
Proof.
  induction l as [|[k v] l IH]; [done|]. csimpl. intros [Hk Hl]%not_elem_of_cons.
  rewrite filter_cons_True by done. by rewrite IH.
Qed.

Lemma remove_perm key fields :
  NoDup fields.*1 → remove key fields ≡ₚ filter (λ kv, kv.1 ≠ key) fields.
Proof.
  intros Hd. unfold remove. destruct (list_find _ fields) as [[i [k v]]|] eqn:Hf.
  - apply list_find_Some in Hf as (Hi & Hk & _). simpl in Hk. subst k. rewrite swap_last_perm.
    rewrite <- (take_drop_middle _ _ _ Hi) in Hd |- * at 3. rewrite fmap_app, fmap_cons in Hd.
    apply NoDup_app in Hd as (_ & Ha & [Hb _]%NoDup_cons). rewrite filter_app.
    rewrite filter_cons_False by (simpl; auto). rewrite !filter_keys_absent; [done|done|].
    intros Hin. apply (Ha _ Hin). left.
  - apply list_find_None in Hf. rewrite filter_keys_absent; [done|].
    rewrite list_elem_of_fmap. intros ([k v] & -> & Hin). rewrite Forall_forall in Hf. by apply (Hf _ Hin).
Qed.

Lemma remove_nodup key fields : NoDup fields.*1 → NoDup (remove key fields).*1.
Proof.
  intros Hd. rewrite (remove_perm _ _ Hd).
  replace ((filter (λ kv, kv.1 ≠ key) fields).*1) with (filter (λ k, k ≠ key) fields.*1);
    [by apply NoDup_filter|].
  clear Hd. induction fields as [|[k v] fields IH]; [done|]. rewrite fmap_cons, !filter_cons.
  cbn [fst]. case_decide; [rewrite fmap_cons; by f_equal|done].
Qed.

Lemma field_remove key k fields :
  NoDup fields.*1 → field k (remove key fields) = if bool_decide (k = key) then None else field k fields.
Proof.
  intros Hd. case_bool_decide as E.
  - subst. apply field_None. rewrite (remove_perm _ _ Hd), list_elem_of_fmap.
    intros ([? ?] & -> & [Hk _]%list_elem_of_filter). by apply Hk.
  - apply option_eq. intros v. rewrite !field_unique by auto using remove_nodup.
    rewrite (remove_perm _ _ Hd), list_elem_of_filter. naive_solver.
Qed.

Lemma field_insert key k v fields :
  field k (insert key v fields) = if bool_decide (k = key) then Some v else field k fields.
Proof.
  unfold field. induction fields as [|[k' x] fields IH]; cbn.
  - rewrite (bool_decide_ext (key = k) (k = key)) by done. by case_bool_decide.
  - destruct (decide (k' = key)) as [->|Hne].
    + rewrite (bool_decide_eq_true_2 (key = key)) by done. cbn.
      rewrite (bool_decide_ext (key = k) (k = key)) by done. by case_bool_decide.
    + rewrite (bool_decide_eq_false_2 (k' = key)) by done. cbn.
      destruct (decide (k' = k)) as [->|]; [by rewrite bool_decide_eq_true_2, bool_decide_eq_false_2|].
      by rewrite (bool_decide_eq_false_2 (k' = k)).
Qed.

Lemma insert_keys key v fields :
  (insert key v fields).*1 = if contains_key key fields then fields.*1 else fields.*1 ++ [key].
Proof.
  induction fields as [|[k x] fields IH]; cbn; [done|].
  change (existsb _ fields) with (contains_key key fields).
  case_bool_decide; cbn; subst; [done|]. change (list_fmap _ _ fst ?l) with (l.*1).
  rewrite IH. by destruct (contains_key key fields).
Qed.

Lemma insert_nodup key v fields : NoDup fields.*1 → NoDup (insert key v fields).*1.
Proof.
  intros Hd. rewrite insert_keys. destruct (contains_key key fields) eqn:E; [done|].
  apply NoDup_app. split_and!; [done| |apply NoDup_singleton].
  intros k Hin ->%list_elem_of_singleton. apply contains_key_spec in Hin. congruence.
Qed.

(** ** Decidable equality *)

Fixpoint beq (v w : Value) : bool :=
  match v, w with
  | Null, Null => true
  | Bool a, Bool b => Bool.eqb a b
  | Number a, Number b | Str a, Str b => bool_decide (a = b)
  | Array l, Array k =>
      (fix go l k := match l, k with
                     | [], [] => true
                     | x :: l, y :: k => beq x y && go l k
                     | _, _ => false
                     end) l k
  | Object l, Object k =>
      (fix go l k := match l, k with
                     | [], [] => true
                     | (a, x) :: l, (b, y) :: k => bool_decide (a = b) && beq x y && go l k
                     | _, _ => false
                     end) l k
  | _, _ => false
  end.

Lemma beq_spec v w : beq v w = true ↔ v = w.
Proof.
  revert w. induction v as [|b|t|x|l IH|m IH] using value_ind; intros w; destruct w as [|b'|t'|x'|k|k];
    simpl; try (split; [done|by intros [=]]).
  - destruct b, b'; simpl; split; done || by intros [=].
  - rewrite bool_decide_eq_true. split; [by intros ->|by intros [=]].
  - rewrite bool_decide_eq_true. split; [by intros ->|by intros [=]].
  - trans (l = k); [|split; [by intros ->|by intros [=]]]. revert k.
    induction IH as [|x l Hx _ IHl]; intros [|y k]; try (split; [done|by intros [=]]).
    rewrite andb_true_iff, Hx, IHl. split; [by intros [-> ->]|by intros [= -> ->]].
  - trans (m = k); [|split; [by intros ->|by intros [=]]]. revert k.
    induction IH as [|[a x] m Hx _ IHm]; intros [|[b y] k]; try (split; [done|by intros [=]]).
    cbn [snd] in Hx. rewrite !andb_true_iff, Hx, IHm, bool_decide_eq_true.
    split; [by intros [[-> ->] ->]|by intros [= -> -> ->]].
Qed.

#[export] Instance Value_eq_dec : EqDecision Value.
Proof.
  intros v w. refine (cast_if (decide (beq v w = true))); abstract (by rewrite <- beq_spec).
Defined.

(** [json!] of an optional string. *)
Definition of_opt_str (o : option string) : Value :=
  match o with Some s => Str s | None => Null end.

End Json.
