(* ===== verification/SchemaHash.v ===== *)
(** * Canonical JSON and contract hashes

    Model of crates/waygate-catalog/src/schema_hash.rs: the identities that bind an
    approval to what was approved. SHA-256 and [serde_json::to_string] are
    parameters. [same_json] is equality of JSON values up to the order of object
    keys; canonicalization decides it, so the hashes identify exactly that. *)

From S2P Require Import Prelude RustStr Encoding HashChain Json.

Module SchemaHash.
Import Encoding.Encoding HashChain.HashChain(hex, collision, no_nul, is_some, nonempty).
Export Json.Json.

(** ** Canonical form *)

(** [BTreeMap::insert] on the sorted entries. *)
Fixpoint btree_insert {A} (k : string) (v : A) (t : list (string * A)) : list (string * A) :=
  match t with
  | [] => [(k, v)]
  | (k', v') :: t' =>
      if bool_decide (k = k') then (k, v) :: t'
      else if bool_decide (str_le k k') then (k, v) :: t
      else (k', v') :: btree_insert k v t'
  end.

Definition btree_of {A} (l : list (string * A)) : list (string * A) :=
  foldl (λ t kv, btree_insert kv.1 kv.2 t) [] l.

Fixpoint canonicalize (v : Value) : Value :=
  match v with
  | Object m => Object (btree_of (map (λ '(k, x), (k, canonicalize x)) m))
  | Array a => Array (map canonicalize a)
  | _ => v
  end.

Definition canonicalize_object (m : list (string * Value)) : Value :=
  Object (btree_of (map (λ '(k, x), (k, canonicalize x)) m)).

(** ** Hashes *)

Record ClassifiedOperation := {
  co_value : string;
  co_risk : string;
  co_side_effects : bool;
  co_pii : bool;
}.

Definition co_le (a b : ClassifiedOperation) : Prop := str_le (co_value a) (co_value b).
#[export] Instance co_le_dec a b : Decision (co_le a b).
Proof. unfold co_le. apply _. Defined.

Definition nul : bytes := [byte 0].
Definition flag (b : bool) : bytes := [byte (if b then 1 else 0)].

Section Hashes.
Context (sha256 : bytes → bytes) (to_string : Value → string).

Definition digest_hex (input : bytes) : string := hex (sha256 input).

Definition json_bytes (v : Value) : bytes := as_bytes (to_string v).

Definition schema_hash (name : string) (description : option string)
    (input_schema : list (string * Value)) : string :=
  digest_hex (as_bytes "schema-v1" ++ nul ++ as_bytes name ++ nul ++
              as_bytes (default "" description) ++ nul ++
              json_bytes (canonicalize_object input_schema)).

Definition operation_bytes (o : ClassifiedOperation) : bytes :=
  nul ++ as_bytes (co_value o) ++ nul ++ as_bytes (co_risk o) ++ flag (co_side_effects o) ++
  flag (co_pii o).

Definition manifest_classification_hash (name risk : string) (side_effects pii : bool)
    (discriminator : option string) (operations : list ClassifiedOperation) : string :=
  digest_hex
    (as_bytes "manifest-v1" ++ nul ++ as_bytes name ++ nul ++ as_bytes risk ++ nul ++
     flag side_effects ++ flag pii ++
     (if is_some discriminator || nonempty operations then
        nul ++ as_bytes "operations-v1" ++ nul ++ as_bytes (default "" discriminator) ++
        concat (operation_bytes <$> merge_sort co_le operations)
      else [])).

Definition behavior_part (v : option Value) : bytes :=
  nul ++ json_bytes (match v with Some v => canonicalize v | None => Null end).

Definition behavior_input (name : string) (description : option string)
    (input_schema : list (string * Value)) (output_schema : option (list (string * Value)))
    (annotations namespaced_metadata : option Value) : bytes :=
  as_bytes "behavior-v1" ++ nul ++ as_bytes name ++ nul ++ as_bytes (default "" description) ++
  concat (behavior_part <$> [Some (Object input_schema); Object <$> output_schema; annotations;
                             namespaced_metadata]).

Definition behavior_hash (name : string) (description : option string)
    (input_schema : list (string * Value)) (output_schema : option (list (string * Value)))
    (annotations namespaced_metadata : option Value) : string :=
  digest_hex (behavior_input name description input_schema output_schema annotations
                namespaced_metadata).

Definition json_input (domain : string) (v : Value) : bytes :=
  as_bytes domain ++ nul ++ json_bytes (canonicalize v).

Definition canonical_json_hash (domain : string) (v : Value) : string :=
  digest_hex (json_input domain v).

Definition validator_schema_hash (schema : Value) : string :=
  canonical_json_hash "validator-schema-v1" schema.

Definition argument_input (args : option (list (string * Value))) : bytes :=
  as_bytes "args-v1" ++ nul ++
  as_bytes (match args with
            | None => "{}"
            | Some m => to_string (canonicalize_object m)
            end).

Definition argument_hash (args : option (list (string * Value))) : string :=
  digest_hex (argument_input args).

Definition binding_input (tool_behavior_hash arg_hash : string) : bytes :=
  as_bytes "approval-binding-v1" ++ nul ++ as_bytes tool_behavior_hash ++ nul ++
  as_bytes arg_hash.

Definition approval_binding_hash (tool_behavior_hash arg_hash : string) : string :=
  digest_hex (binding_input tool_behavior_hash arg_hash).

End Hashes.

(** ** Equality up to the order of keys *)

#[warnings="-register-all"]
Inductive same_json : Value → Value → Prop :=
  | SameNull : same_json Null Null
  | SameBool b : same_json (Bool b) (Bool b)
  | SameNumber t : same_json (Number t) (Number t)
  | SameStr s : same_json (Str s) (Str s)
  | SameArray l1 l2 : Forall2 same_json l1 l2 → same_json (Array l1) (Array l2)
  | SameObject m1 m2 m :
      m ≡ₚ m2 → Forall2 (λ a b, a.1 = b.1 ∧ same_json a.2 b.2) m1 m →
      same_json (Object m1) (Object m2).

(** A [Map] holds a key once, at every level. *)
#[warnings="-register-all"]
Inductive unique_keys : Value → Prop :=
  | UniqueNull : unique_keys Null
  | UniqueBool b : unique_keys (Bool b)
  | UniqueNumber t : unique_keys (Number t)
  | UniqueStr s : unique_keys (Str s)
  | UniqueArray l : Forall unique_keys l → unique_keys (Array l)
  | UniqueObject m :
      NoDup m.*1 → Forall (λ kv, unique_keys kv.2) m → unique_keys (Object m).

(** ** The sorted entries *)

Definition key_le {A} (a b : string * A) : Prop := str_le a.1 b.1.

Lemma btree_insert_perm {A} k (v : A) t :
  k ∉ t.*1 → btree_insert k v t ≡ₚ (k, v) :: t.
Proof.
  induction t as [|[k' v'] t IH]; intros Hk; [done|]. csimpl in Hk. apply not_elem_of_cons in Hk as [Hne Hk].
  cbn [btree_insert]. rewrite bool_decide_eq_false_2 by done. case_bool_decide; [done|].
  rewrite (IH Hk). apply perm_swap.
Qed.

Lemma btree_insert_sorted {A} k (v : A) t :
  StronglySorted key_le t → StronglySorted key_le (btree_insert k v t).
Proof.
  induction 1 as [|[k' v'] t Ht IH Hk]; cbn [btree_insert]; [repeat constructor|].
  case_bool_decide as E; [subst; by constructor|]. case_bool_decide as Hle.
  - constructor; [by constructor|]. constructor; [done|]. eapply Forall_impl; [done|].
    intros [k2 ?] ?. unfold key_le in *. simpl in *. by etrans.
  - constructor; [done|]. assert (str_le k' k) by (destruct (total str_le k k'); done).
    clear IH Ht Hle E. induction t as [|[k2 v2] t IH]; cbn [btree_insert]; [by repeat constructor|].
    apply Forall_cons in Hk as [??]. repeat case_bool_decide; repeat constructor; auto.
Qed.

Lemma btree_of_acc {A} (l t : list (string * A)) :
  NoDup (t ++ l).*1 → StronglySorted key_le t →
  let r := foldl (λ t kv, btree_insert kv.1 kv.2 t) t l in
  r ≡ₚ t ++ l ∧ StronglySorted key_le r.
Proof.
  revert t. induction l as [|[k v] l IH]; intros t Hd Ht; simpl; [by rewrite app_nil_r|].
  assert (k ∉ t.*1) as Hk.
  { rewrite fmap_app in Hd. csimpl in Hd. apply NoDup_app in Hd as (_ & Hd & _).
    intros Hin. apply (Hd _ Hin). left. }
  destruct (IH (btree_insert k v t)) as [Hp Hs]; [|by apply btree_insert_sorted|split; [|done]].
  - rewrite fmap_app, (btree_insert_perm _ _ _ Hk), <- fmap_app. rewrite fmap_app in Hd |- *.
    csimpl in *. by rewrite Permutation_middle.
  - rewrite Hp, (btree_insert_perm _ _ _ Hk). apply Permutation_middle.
Qed.

Lemma btree_of_spec {A} (l : list (string * A)) :
  NoDup l.*1 → btree_of l ≡ₚ l ∧ StronglySorted key_le (btree_of l).
Proof. intros Hd. apply (btree_of_acc l []); [done|constructor]. Qed.

(** The sorted entries depend on the set of entries only. *)
Lemma btree_of_perm {A} (l1 l2 : list (string * A)) :
  NoDup l1.*1 → NoDup l2.*1 → l1 ≡ₚ l2 ↔ btree_of l1 = btree_of l2.
Proof.
  intros H1 H2. destruct (btree_of_spec l1 H1) as [P1 S1]. destruct (btree_of_spec l2 H2) as [P2 S2].
  split.
  - intros Hp. eapply (StronglySorted_unique_strong key_le); [|done..|by rewrite P1, P2].
    intros [k v] [k' v'] Hx Hy Hle Hge. rewrite P1 in Hx. rewrite P2 in Hy.
    unfold key_le in *. simpl in *. assert (k = k') as <- by (by apply (anti_symm str_le)).
    rewrite <- Hp in Hy. apply list_elem_of_lookup in Hx as [i Hi]. apply list_elem_of_lookup in Hy as [j Hj].
    assert (i = j) as <- by (eapply (NoDup_lookup l1.*1); [done|by rewrite list_lookup_fmap, Hi|by rewrite list_lookup_fmap, Hj]).
    by simplify_eq.
  - intros E. by rewrite <- P1, E, P2.
Qed.

Definition canonical_entry (kv : string * Value) : string * Value := (kv.1, canonicalize kv.2).

Lemma canonicalize_object_eq m :
  canonicalize (Object m) = Object (btree_of (canonical_entry <$> m)).
Proof. cbn [canonicalize]. do 2 f_equal. induction m as [|[k v] m IH]; [done|]. csimpl. by rewrite IH. Qed.

Lemma canonicalize_keys m : (canonical_entry <$> m).*1 = m.*1.
Proof. rewrite <- list_fmap_compose. by apply list_fmap_ext. Qed.

Lemma Forall2_by_image {A B} (R : A → A → Prop) (f : A → B) (l1 l2 : list A) :
  Forall (λ x, ∀ y, y ∈ l2 → R x y ↔ f x = f y) l1 → Forall2 R l1 l2 ↔ f <$> l1 = f <$> l2.
Proof.
  intros H. revert l2 H. induction l1 as [|x l1 IH]; intros [|y l2] H; csimpl; [done|split; inversion 1..|].
  apply Forall_cons in H as [Hx H]. rewrite Forall2_cons, (Hx y) by left. rewrite IH.
  - split; [intros [-> ->]; done|by intros [= -> ->]].
  - eapply Forall_impl; [done|]. intros z Hz u Hu. apply Hz. by right.
Qed.

(** Canonicalization decides equality up to the order of keys. *)
Lemma canonicalize_same v w :
  unique_keys v → unique_keys w → same_json v w ↔ canonicalize v = canonicalize w.
Proof.
  revert w. induction v as [|b|t|x|l IH|m IH] using value_ind; intros w Hv Hw.
  1-4: split; [by inversion 1|]; destruct w; cbn [canonicalize]; intros E; simplify_eq; constructor.
  - inversion Hv as [| | | |? Hl|]; subst.
    assert (∀ l2, Forall unique_keys l2 →
              Forall2 same_json l l2 ↔ canonicalize <$> l = canonicalize <$> l2) as Hiff.
    { intros l2 H2. apply Forall2_by_image. rewrite Forall_forall in *. intros z Hz u Hu. by apply IH; auto. }
    split.
    + inversion 1; subst. inversion Hw; subst. cbn [canonicalize]. f_equal. by apply Hiff.
    + destruct w; cbn [canonicalize]; intros E; simplify_eq. inversion Hw; subst.
      constructor. by apply Hiff.
  - inversion Hv as [| | | | |? Hd Hm]; subst.
    assert (∀ m2, Forall (λ kv, unique_keys kv.2) m2 →
              Forall2 (λ a b, a.1 = b.1 ∧ same_json a.2 b.2) m m2 ↔
              canonical_entry <$> m = canonical_entry <$> m2) as Hiff.
    { intros m2 H2. apply Forall2_by_image. rewrite Forall_forall in *. intros z Hz u Hu.
      rewrite (IH z Hz u.2) by auto. unfold canonical_entry. split; [intros [-> ->]; done|by intros [= -> ->]]. }
    split.
    + inversion 1 as [| | | | |? m2 m' Hp Hf]; subst. inversion Hw as [| | | | |? Hd2 Hm2]; subst.
      rewrite !canonicalize_object_eq. f_equal. apply Hiff in Hf; [|by rewrite Hp].
      apply btree_of_perm; [by rewrite canonicalize_keys..|]. by rewrite Hf, Hp.
    + destruct w as [| | | | |m2]; rewrite canonicalize_object_eq; try discriminate.
      rewrite canonicalize_object_eq. intros [= E]. inversion Hw as [| | | | |? Hd2 Hm2]; subst.
      apply btree_of_perm in E; [|by rewrite canonicalize_keys..].
      apply Permutation_map_inv in E as (m' & E & Hp). apply (SameObject m m2 m'); [done|].
      apply Hiff; [by rewrite <- Hp|done].
Qed.

(** [same_json] is an equivalence on the values a [Map] can hold. *)
Lemma same_json_refl v : same_json v v.
Proof.
  induction v as [|b|t|x|l IH|m IH] using value_ind; try constructor.
  - induction IH; constructor; auto.
  - apply (SameObject m m m); [done|]. induction IH as [|[k x] m Hx _ IHm]; constructor; auto.
Qed.

(** ** What the hashes identify *)

(** The arguments of a call as one value; no arguments are the empty object. *)
Definition args_value (args : option (list (string * Value))) : Value := Object (default [] args).

Section Identity.
Context (sha256 : bytes → bytes) (to_string : Value → string).

(** Printing tells the given values apart. *)
Definition prints_apart (vs : list Value) : Prop :=
  ∀ v w, v ∈ vs → w ∈ vs → to_string v = to_string w → v = w.

Lemma digest_inj x y :
  digest_hex sha256 x = digest_hex sha256 y → x = y ∨ collision sha256 [x; y].
Proof.
  intros H%HashChain.hex_inj. destruct (decide (x = y)) as [|Hne]; [by left|right].
  exists x, y. split_and!; [left|right; left|done..].
Qed.

Lemma split_last_nul (u v r s : bytes) :
  byte 0 ∉ r → byte 0 ∉ s → u ++ byte 0 :: r = v ++ byte 0 :: s → u = v ∧ r = s.
Proof.
  intros Hr Hs H. apply (f_equal reverse) in H. rewrite !reverse_app, !reverse_cons, <- !app_assoc in H.
  cbn [app] in H. apply HashChain.split_at_nul in H as [H1 H2]; [|by rewrite elem_of_reverse..].
  split; by apply (inj reverse).
Qed.

Lemma argument_input_eq args :
  to_string (Object []) = "{}" →
  argument_input to_string args =
    as_bytes "args-v1" ++ nul ++ json_bytes to_string (canonicalize (args_value args)).
Proof. intros H. destruct args; [done|]. unfold argument_input, json_bytes, args_value.
  change (canonicalize (Object (default [] None))) with (Object []). by rewrite H. Qed.

Lemma same_argument_hash a1 a2 :
  to_string (Object []) = "{}" → unique_keys (args_value a1) → unique_keys (args_value a2) →
  same_json (args_value a1) (args_value a2) →
  argument_hash sha256 to_string a1 = argument_hash sha256 to_string a2.
Proof.
  intros H0 H1 H2 Hs. unfold argument_hash. rewrite !argument_input_eq by done.
  apply canonicalize_same in Hs; [|done..]. by rewrite Hs.
Qed.

Lemma argument_hash_inj a1 a2 :
  to_string (Object []) = "{}" → unique_keys (args_value a1) → unique_keys (args_value a2) →
  prints_apart [canonicalize (args_value a1); canonicalize (args_value a2)] →
  argument_hash sha256 to_string a1 = argument_hash sha256 to_string a2 →
  same_json (args_value a1) (args_value a2) ∨
  collision sha256 [argument_input to_string a1; argument_input to_string a2].
Proof.
  intros H0 H1 H2 Hp [E|Hc]%digest_inj; [left|by right]. rewrite !argument_input_eq in E by done.
  apply (inj (app _)), (inj (app _)) in E. apply canonicalize_same; [done..|].
  apply Hp; [left|right; left|]. by apply as_bytes_inj.
Qed.

Definition behavior_value (v : option Value) : Value := canonicalize (default Null v).

Lemma behavior_part_eq v : behavior_part to_string v = nul ++ json_bytes to_string (behavior_value v).
Proof. by destruct v. Qed.

(** The printed parts can be read off from the end. *)
Lemma behavior_parts_inj u1 u2 ps1 ps2 :
  length ps1 = length ps2 →
  Forall (λ v, no_nul (to_string (behavior_value v))) (ps1 ++ ps2) →
  u1 ++ concat (behavior_part to_string <$> ps1) = u2 ++ concat (behavior_part to_string <$> ps2) →
  u1 = u2 ∧ Forall2 (λ p q, to_string (behavior_value p) = to_string (behavior_value q)) ps1 ps2.
Proof.
  revert ps2 u1 u2. induction ps1 as [|p ps1 IH] using rev_ind; intros ps2 u1 u2 Hl Hn H.
  - destruct ps2; [|done]. simpl in H. rewrite !app_nil_r in H. split; [done|constructor].
  - destruct ps2 as [|q ps2 _] using rev_ind; [by rewrite length_app in Hl; simpl in Hl; lia|].
    rewrite !length_app in Hl. rewrite !Forall_app, !Forall_singleton in Hn.
    destruct Hn as [[Hn1 Hp] [Hn2 Hq]]. rewrite !fmap_app, !concat_app, !list_fmap_singleton in H. cbn [concat] in H.
    rewrite !app_nil_r, !behavior_part_eq, !app_assoc in H.
    rewrite <- !(app_assoc _ nul) in H. apply split_last_nul in H as [H E]; [|done..]. apply IH in H as [-> Hf]; [|simpl in Hl; lia|by apply Forall_app].
    split; [done|]. apply Forall2_app; [done|]. repeat constructor. by apply as_bytes_inj.
Qed.
End Identity.

(** ** Theorems *)

(** C37. An approval grant is bound to exactly what was approved. Two calls have
    the same approval-binding hash when they have the same behavior hash and the
    same arguments up to the order of object keys (absent arguments counting as
    the empty object); and only then, unless two of the hashed inputs collide. *)
Theorem grant_binding_is_exact sha256 to_string b1 b2 a1 a2 :
  no_nul b1 → no_nul b2 → unique_keys (args_value a1) → unique_keys (args_value a2) →
  to_string (Object []) = "{}" →
  prints_apart to_string [canonicalize (args_value a1); canonicalize (args_value a2)] →
  let h1 := argument_hash sha256 to_string a1 in
  let h2 := argument_hash sha256 to_string a2 in
  (b1 = b2 → same_json (args_value a1) (args_value a2) →
   approval_binding_hash sha256 b1 h1 = approval_binding_hash sha256 b2 h2) ∧
  (approval_binding_hash sha256 b1 h1 = approval_binding_hash sha256 b2 h2 →
   (b1 = b2 ∧ same_json (args_value a1) (args_value a2)) ∨
   collision sha256 [binding_input b1 h1; binding_input b2 h2; argument_input to_string a1;
                     argument_input to_string a2]).
Proof.
  intros Hb1 Hb2 H1 H2 H0 Hp h1 h2. split.
  - intros <- Hs. unfold h1, h2. by rewrite (same_argument_hash _ _ a1 a2).
  - intros [E|Hc]%digest_inj; [|right; eapply HashChain.collision_mono; [|done]; set_solver].
    unfold binding_input in E. apply (inj (app _)), (inj (app _)) in E.
    apply HashChain.split_at_nul in E as [Eb E]; [|done..]. apply as_bytes_inj in Eb, E.
    apply argument_hash_inj in E as [Hs|Hc]; [by left|right|done..].
    eapply HashChain.collision_mono; [|done]. set_solver.
Qed.

(** The behavior hash of a tool pins its whole contract. For one tool name,
    equal behavior hashes mean the same description (none and the empty text
    alike), and input schema, output schema, annotations and metadata that are
    the same up to key order (an absent part counting as null), unless the
    digest collides on the two inputs. *)
Theorem behavior_hash_pins_contract sha256 to_string name d1 d2 i1 i2 o1 o2 n1 n2 m1 m2 :
  let parts1 := [Some (Object i1); Object <$> o1; n1; m1] in
  let parts2 := [Some (Object i2); Object <$> o2; n2; m2] in
  Forall (λ v, unique_keys (default Null v)) (parts1 ++ parts2) →
  Forall (λ v, no_nul (to_string (behavior_value v))) (parts1 ++ parts2) →
  prints_apart to_string (behavior_value <$> parts1 ++ parts2) →
  behavior_hash sha256 to_string name d1 i1 o1 n1 m1 =
    behavior_hash sha256 to_string name d2 i2 o2 n2 m2 →
  (default "" d1 = default "" d2 ∧
   Forall2 (λ p q, same_json (default Null p) (default Null q)) parts1 parts2) ∨
  collision sha256 [behavior_input to_string name d1 i1 o1 n1 m1;
                    behavior_input to_string name d2 i2 o2 n2 m2].
Proof.
  intros parts1 parts2 Hu Hn Hp [E|Hc]%digest_inj; [left|by right].
  unfold behavior_input in E. rewrite !app_assoc in E.
  apply behavior_parts_inj in E as [E Hf]; [|done..]. apply (inj (app _)) in E.
  split; [by apply as_bytes_inj|].
  apply Forall2_same_length_lookup_2; [done|]. intros i p q Hi Hj.
  rewrite Forall_forall in Hu. assert (p ∈ parts1 ++ parts2) by (apply elem_of_app; left; by eapply list_elem_of_lookup_2).
  assert (q ∈ parts1 ++ parts2) by (apply elem_of_app; right; by eapply list_elem_of_lookup_2).
  apply canonicalize_same; [by apply Hu..|]. apply (Hp (behavior_value p) (behavior_value q)); [by apply list_elem_of_fmap_2..|].
  by apply (Forall2_lookup_lr _ _ _ _ _ _ Hf Hi Hj).
Qed.

(** A printer for flat values, enough to run the hashes. *)
Definition demo_to_string (v : Value) : string :=
  match v with
  | Object [] => "{}"
  | Object ((k, Str x) :: _) => k +:+ ":" +:+ x
  | Str x => x
  | _ => "null"
  end.

Definition demo_sha256 (b : bytes) : bytes := b.

Lemma grant_binding_is_exact_witness :
  let a1 := Some [("to", Str "alice"); ("body", Str "hi")] in
  let a2 := Some [("body", Str "hi"); ("to", Str "alice")] in
  let h := argument_hash demo_sha256 demo_to_string in
  approval_binding_hash demo_sha256 "b0" (h a1) = approval_binding_hash demo_sha256 "b0" (h a2) ∧
  (("b0" = "b0" ∧ same_json (args_value a1) (args_value a2)) ∨
   collision demo_sha256 [binding_input "b0" (h a1); binding_input "b0" (h a2);
                     argument_input demo_to_string a1; argument_input demo_to_string a2]).
Proof.
  intros a1 a2 h.
  assert (approval_binding_hash demo_sha256 "b0" (h a1) = approval_binding_hash demo_sha256 "b0" (h a2)) as E
    by (vm_compute; reflexivity).
  split; [exact E|].
  refine (proj2 (grant_binding_is_exact demo_sha256 demo_to_string "b0" "b0" a1 a2 _ _ _ _ _ _) E).
  - unfold no_nul. vm_compute. set_solver.
  - unfold no_nul. vm_compute. set_solver.
  - constructor; [apply (bool_decide_unpack _); reflexivity|repeat constructor].
  - constructor; [apply (bool_decide_unpack _); reflexivity|repeat constructor].
  - reflexivity.
  - intros v w Hv Hw _. rewrite !elem_of_cons, elem_of_nil in Hv, Hw.
    destruct Hv as [->|[->|[]]], Hw as [->|[->|[]]]; vm_compute; reflexivity.
Defined.

Lemma behavior_hash_pins_contract_witness :
  let i1 := [("type", Str "object")] in
  behavior_hash demo_sha256 demo_to_string "send" None i1 None None None =
    behavior_hash demo_sha256 demo_to_string "send" (Some "") i1 None None None ∧
  ((default "" (None : option string) = default "" (Some "") ∧
    Forall2 (λ p q, same_json (default Null p) (default Null q))
      [Some (Object i1); Object <$> None; None; None] [Some (Object i1); Object <$> None; None; None]) ∨
   collision demo_sha256 [behavior_input demo_to_string "send" None i1 None None None;
                     behavior_input demo_to_string "send" (Some "") i1 None None None]).
Proof.
  intros i1. split; [vm_compute; reflexivity|].
  apply (behavior_hash_pins_contract demo_sha256 demo_to_string "send" None (Some "") i1 i1 None None None None None None).
  - repeat (constructor; [first [constructor; [apply (bool_decide_unpack _); reflexivity|repeat constructor]|constructor]|]).
    constructor.
  - repeat (constructor; [unfold no_nul; vm_compute; set_solver|]). constructor.
  - intros v w Hv Hw. csimpl in Hv. csimpl in Hw. rewrite !elem_of_cons, elem_of_nil in Hv, Hw.
    repeat (destruct Hv as [->|Hv]); repeat (destruct Hw as [->|Hw]); try done; vm_compute; congruence.
  - vm_compute. reflexivity.
Defined.

End SchemaHash.
