(* ===== verification/Interact.v ===== *)
(** * Programs that call out

    A service method that awaits other components is a finite tree of calls, each
    followed by a continuation on the answer. Nothing is assumed of the answers:
    a property of every run holds for every behaviour of the called components.
    [wp] is the predicate transformer the proofs run on, [interp] executes a
    program against a stateful handler. [partial] and [guards] speak of unfinished
    runs, [of_thread] of one thread's share of the calls of several. *)

From S2P Require Import Prelude.

Module Interact.

Class Effect (E : Type) := answer : E → Type.

Section Programs.
Context {E : Type} `{!Effect E}.

Inductive prog (A : Type) : Type :=
  | Ret (a : A)
  | Call (e : E) (k : answer e → prog A).
#[global] Arguments Ret {A} a.
#[global] Arguments Call {A} e k.

Definition call (e : E) : prog (answer e) := Call e Ret.

Fixpoint pbind {A B} (p : prog A) (f : A → prog B) : prog B :=
  match p with
  | Ret a => f a
  | Call e k => Call e (λ x, pbind (k x) f)
  end.

(** One call with its answer; a trace is the list of the calls of a run. *)
Record event := Event { ev_call : E; ev_answer : answer ev_call }.

Inductive runs {A} : prog A → list event → A → Prop :=
  | runs_ret a : runs (Ret a) [] a
  | runs_call e k x t a : runs (k x) t a → runs (Call e k) (Event e x :: t) a.

Lemma runs_call_inv {A} e (k : answer e → prog A) t a :
  runs (Call e k) t a → ∃ x t', t = Event e x :: t' ∧ runs (k x) t' a.
Proof.
  intros H. refine (match H in runs p t a
    return match p with Call e k => ∃ x t', t = Event e x :: t' ∧ runs (k x) t' a | Ret _ => True end
    with runs_ret _ => I | runs_call _ _ _ _ _ Hk => _ end).
  eauto.
Qed.

Lemma runs_ret_inv {A} (a b : A) t : runs (Ret a) t b → t = [] ∧ b = a.
Proof. by inversion 1. Qed.

(** ** The predicate transformer *)

Fixpoint wp {A} (p : prog A) (Q : list event → A → Prop) : Prop :=
  match p with
  | Ret a => Q [] a
  | Call e k => ∀ x, wp (k x) (λ t a, Q (Event e x :: t) a)
  end.

Lemma wp_mono {A} (p : prog A) (P Q : list event → A → Prop) :
  (∀ t a, P t a → Q t a) → wp p P → wp p Q.
Proof.
  revert P Q. induction p as [a|e k IH]; simpl; intros P Q H Hp; [auto|].
  intros x. eapply IH; [|apply Hp]. auto.
Qed.

Lemma wp_bind {A B} (p : prog A) (f : A → prog B) Q :
  wp (pbind p f) Q ↔ wp p (λ t1 a, wp (f a) (λ t2 b, Q (t1 ++ t2) b)).
Proof.
  revert Q. induction p as [a|e k IH]; intros Q; simpl; [done|].
  split; intros H x; [specialize (H x); by apply IH in H|apply IH, H].
Qed.

Lemma wp_runs {A} (p : prog A) Q : wp p Q ↔ ∀ t a, runs p t a → Q t a.
Proof.
  revert Q. induction p as [a|e k IH]; intros Q; simpl.
  - split; [by intros H t b [-> ->]%runs_ret_inv|]. intros H. apply H. constructor.
  - split.
    + intros H t a (x & t' & -> & Hk)%runs_call_inv. specialize (H x). rewrite IH in H. auto.
    + intros H x. apply IH. intros t a Hr. apply H. by constructor.
Qed.

(** Properties of a run compose along a bind. *)
Lemma runs_bind {A B} (p : prog A) (f : A → prog B) t b :
  runs (pbind p f) t b ↔ ∃ t1 t2 a, t = t1 ++ t2 ∧ runs p t1 a ∧ runs (f a) t2 b.
Proof.
  split.
  - revert t b. apply (wp_runs (pbind p f) (λ t b, ∃ t1 t2 a, t = t1 ++ t2 ∧ runs p t1 a ∧ runs (f a) t2 b)).
    apply wp_bind, wp_runs. intros t1 a Ha. apply wp_runs. intros t2 b Hb. eauto 10.
  - intros (t1 & t2 & a & -> & Hp & Hf). induction Hp; simpl; [done|]. constructor. auto.
Qed.

(** ** Execution *)

Fixpoint interp {W A} (h : ∀ e : E, W → answer e * W) (p : prog A) (w : W)
  : A * list event * W :=
  match p with
  | Ret a => (a, [], w)
  | Call e k =>
      let '(x, w) := h e w in
      let '(a, t, w) := interp h (k x) w in
      (a, Event e x :: t, w)
  end.

Lemma interp_runs {W A} (h : ∀ e : E, W → answer e * W) (p : prog A) w a t w' :
  interp h p w = (a, t, w') → runs p t a.
Proof.
  revert w a t w'. induction p as [a|e k IH]; intros w b t w' H; simpl in H.
  - simplify_eq. constructor.
  - destruct (h e w) as [x w1]. destruct (interp h (k x) w1) as [[c u] w2] eqn:E1. simplify_eq.
    constructor. eauto.
Qed.

(** A program always finishes. *)
Lemma run_exists {A} (p : prog A) (h : ∀ e : E, answer e) : ∃ t a, runs p t a.
Proof. induction p as [a|e k IH]; [eexists _, _; constructor|]. destruct (IH (h e)) as (t & a & H). eauto using runs_call. Qed.

End Programs.
Arguments prog E {_} A.
Arguments event E {_}.

(** ** Unfinished runs *)

Section Partial.
Context {E : Type} `{!Effect E}.

(** [t] is the beginning of a run of the program. *)
Inductive partial {A} : prog E A → list (event E) → Prop :=
  | partial_nil p : partial p []
  | partial_call e k x t : partial (k x) t → partial (Call e k) (Event e x :: t).

Lemma partial_call_inv {A} e (k : answer e → prog E A) e' t :
  partial (Call e k) (e' :: t) → ∃ x, e' = Event e x ∧ partial (k x) t.
Proof.
  intros H. refine (match H in partial p l return
    match p, l with Call e k, e' :: t => ∃ x, e' = Event e x ∧ partial (k x) t | _, _ => True end
    with partial_nil p => _ | partial_call _ _ _ _ Hk => _ end); [by destruct p|eauto].
Qed.

Lemma partial_ret_inv {A} (a : A) t : partial (Ret a) t → t = [].
Proof. by inversion 1. Qed.

Lemma runs_partial {A} (p : prog E A) t a : runs p t a → partial p t.
Proof. induction 1; by constructor. Qed.

(** Every call of the program is preceded by what [Q] asks for; [h] is what happened
    before. *)
Fixpoint guards {A} (p : prog E A) (Q : list (event E) → E → Prop) (h : list (event E)) : Prop :=
  match p with
  | Ret _ => True
  | Call e k => Q h e ∧ ∀ x, guards (k x) Q (h ++ [Event e x])
  end.

Lemma guards_sound {A} (p : prog E A) Q : ∀ h t e x b,
  guards p Q h → partial p (t ++ Event e x :: b) → Q (h ++ t) e.
Proof.
  induction p as [a|e k IH]; intros h t e' x b Hg Hp.
  - apply partial_ret_inv in Hp. by destruct t.
  - destruct Hg as [Hq Hk]. destruct t as [|e0 t]; cbn [app] in Hp; apply partial_call_inv in Hp as (y & Hy & Hp).
    + rewrite app_nil_r. apply (f_equal ev_call) in Hy. cbn in Hy. by subst e'.
    + subst e0. specialize (IH y _ t e' x b (Hk y) Hp). by rewrite <- app_assoc in IH.
Qed.

Lemma guards_bind {A B} (p : prog E A) (f : A → prog E B) Q : ∀ h,
  guards p Q h → (∀ a h', guards (f a) Q h') → guards (pbind p f) Q h.
Proof.
  induction p as [a|e k IH]; intros h Hp Hf; cbn; [apply Hf|]. destruct Hp as [Hq Hk]. split; [done|]. auto.
Qed.

(** [t] takes the program to what is left of it. *)
Inductive reaches {A} : prog E A → list (event E) → prog E A → Prop :=
  | reaches_nil p : reaches p [] p
  | reaches_call e k x t p : reaches (k x) t p → reaches (Call e k) (Event e x :: t) p.

Lemma reaches_partial {A} (p p' : prog E A) t : reaches p t p' → partial p t.
Proof. induction 1; by constructor. Qed.

Lemma reaches_ret {A} (p : prog E A) t a : reaches p t (Ret a) → runs p t a.
Proof.
  intros H. remember (Ret a) as q eqn:Hq. revert Hq. induction H as [p|e k x t p Hr IH]; intros ->; constructor. by apply IH.
Qed.

(** What thread [i] did, in the calls of all threads. *)
Fixpoint of_thread (i : nat) (h : list (nat * event E)) : list (event E) :=
  match h with
  | [] => []
  | (j, e) :: h => if (i =? j)%nat then e :: of_thread i h else of_thread i h
  end.

Lemma of_thread_app i h1 h2 : of_thread i (h1 ++ h2) = of_thread i h1 ++ of_thread i h2.
Proof. induction h1 as [|[j e] h1 IH]; cbn; [done|]. destruct (i =? j)%nat; cbn; by rewrite IH. Qed.

Lemma elem_of_thread i e h : e ∈ of_thread i h ↔ (i, e) ∈ h.
Proof.
  induction h as [|[j e'] h IH]; cbn; [split; intros H; inversion H|].
  destruct (Nat.eqb_spec i j) as [->|Hij]; rewrite ?elem_of_cons, IH; naive_solver.
Qed.

(** A thread's call, with what it did before. *)
Lemma thread_split i e h1 h2 : of_thread i (h1 ++ (i, e) :: h2) = of_thread i h1 ++ e :: of_thread i h2.
Proof. rewrite of_thread_app. cbn. by rewrite Nat.eqb_refl. Qed.

Lemma partial_prefix {A} (p : prog E A) t1 t2 : partial p (t1 ++ t2) → partial p t1.
Proof.
  revert p. induction t1 as [|e t1 IH]; intros p H; [constructor|]. destruct p as [a|s k].
  - by apply partial_ret_inv in H.
  - apply partial_call_inv in H as (x & -> & H). constructor. by eapply IH.
Qed.

End Partial.

End Interact.
