(* ===== verification/EmailRecipients.v ===== *)
(** * Email recipients as policy facts

    Model of crates/waygate-core/src/email_recipients.rs: the recipient domains a
    policy sees for a call. Anything but bare ASCII mailboxes in [to], [cc] and
    [bcc] makes the facts invalid instead of incomplete. *)

From S2P Require Import Prelude RustStr Json Facts.

From Stdlib Require Import Ascii.

Module EmailRecipients.
Import Facts.Facts Json.Json.

Definition default_recipients : EmailRecipients := {| valid := false; domains := [] |}.

Definition local_byte (b : Ascii.ascii) : bool :=
  is_ascii_alphanumeric b || existsb (Ascii.eqb b) (as_bytes ".!#$%&'*+-/=?^_`{|}~").

Definition label_ok (label : string) : bool :=
  negb (is_empty label) && (len label <=? 63)%nat && negb (starts_with "-" label) &&
  negb (ends_with "-" label) &&
  forallb (λ b, is_ascii_alphanumeric b || Ascii.eqb b "-"%char) (as_bytes label).

Definition mailbox_domain (address : string) : option string :=
  if (254 <? len address)%nat || negb (forallb is_ascii_byte (as_bytes address)) then None
  else match split_once "@"%char address with
  | None => None
  | Some (local, domain) =>
      if is_empty local || (64 <? len local)%nat || starts_with "." local || ends_with "." local ||
         contains ".." local || negb (forallb local_byte (as_bytes local)) then None
      else if is_empty domain || negb (contains "." domain) || (253 <? len domain)%nat ||
              negb (forallb label_ok (split "."%char domain)) then None
      else Some domain
  end.

(** The inner loop: [count] recipients and their domains so far. *)
Fixpoint read_values (count : nat) (ds : list string) (values : list Value)
  : option (nat * list string) :=
  match values with
  | [] => Some (count, ds)
  | v :: values =>
      let count := S count in
      if (1000 <? count)%nat then None
      else match as_str v ≫= mailbox_domain with
           | None => None
           | Some domain => read_values count (ds ++ [to_ascii_lowercase domain]) values
           end
  end.

(** The values of one field; [None] when it is neither a string nor an array. *)
Definition field_values (v : Value) : option (list Value) :=
  match v with Str _ => Some [v] | Array l => Some l | _ => None end.

Fixpoint read_fields (count : nat) (ds : list string) (args : list (string * Value))
    (fields : list string) : option (nat * list string) :=
  match fields with
  | [] => Some (count, ds)
  | f :: fields =>
      match field f args with
      | None => read_fields count ds args fields
      | Some v =>
          match field_values v ≫= read_values count ds with
          | None => None
          | Some (count, ds) => read_fields count ds args fields
          end
      end
  end.

Definition recipient_fields : list string := ["to"; "cc"; "bcc"].

(** The [BTreeSet] of domains, in its iteration order. *)
Definition domain_set (ds : list string) : list string := merge_sort str_le (remove_dups ds).

Definition from_arguments (arguments : option (list (string * Value))) : EmailRecipients :=
  match arguments with
  | None => default_recipients
  | Some args =>
      match read_fields 0 [] args recipient_fields with
      | None => default_recipients
      | Some (count, ds) => {| valid := (0 <? count)%nat; domains := domain_set ds |}
      end
  end.

(** ** Specification *)

(** Every recipient value the call carries, in order. *)
Definition recipients (args : list (string * Value)) : option (list Value) :=
  @concat _ <$> mapM (λ f, match field f args with None => Some [] | Some v => field_values v end)
                  recipient_fields.

Definition domain_of (v : Value) : option string := to_ascii_lowercase <$> (as_str v ≫= mailbox_domain).

#[local] Opaque Nat.ltb.

Lemma read_values_spec count ds values :
  (count ≤ 1000)%nat →
  read_values count ds values =
    match mapM domain_of values with
    | Some es => if (1000 <? count + length values)%nat then None
                 else Some ((count + length values)%nat, ds ++ es)
    | None => None
    end.
Proof.
  revert count ds. induction values as [|v values IH]; intros count ds Hc; cbn [read_values length].
  - change (mapM domain_of []) with (Some (@nil string)). rewrite Nat.add_0_r, app_nil_r.
    by rewrite (proj2 (Nat.ltb_ge _ _)).
  - change (mapM domain_of (v :: values)) with (y ← domain_of v; k ← mapM domain_of values; Some (y :: k)).
    change (domain_of v) with (to_ascii_lowercase <$> (as_str v ≫= mailbox_domain)).
    destruct (Nat.ltb_spec 1000 (S count)) as [Hlt|Hge].
    + destruct (as_str v ≫= mailbox_domain); simpl; [|done].
      destruct (mapM domain_of values); simpl; [|done].
      by rewrite (proj2 (Nat.ltb_lt _ _)) by lia.
    + destruct (as_str v ≫= mailbox_domain) as [d|]; simpl; [|done].
      rewrite IH by done. destruct (mapM domain_of values) as [es|]; simpl; [|done].
      rewrite <- app_assoc. by rewrite Nat.add_succ_r.
Qed.

Lemma mapM_app_opt {A B} (f : A → option B) l1 l2 :
  mapM f (l1 ++ l2) = xs ← mapM f l1; ys ← mapM f l2; Some (xs ++ ys).
Proof.
  induction l1 as [|x l1 IH]; simpl; [by destruct (mapM f l2)|].
  destruct (f x); [|done]. simpl. rewrite IH. by destruct (mapM f l1), (mapM f l2).
Qed.

Lemma read_fields_spec args fields count ds vs es :
  (count ≤ 1000)%nat →
  read_fields count ds args fields = Some (vs, es) ↔
  ∃ values ds', @concat _ <$> mapM (λ f, match field f args with None => Some [] | Some v => field_values v end) fields
                  = Some values ∧
    mapM domain_of values = Some ds' ∧ vs = (count + length values)%nat ∧ es = ds ++ ds' ∧
    (count + length values ≤ 1000)%nat.
Proof.
  revert count ds. induction fields as [|f fields IH]; intros count ds Hc; cbn [read_fields mapM].
  - simpl. split.
    + intros [= <- <-]. exists [], []. by rewrite Nat.add_0_r, app_nil_r.
    + intros (? & ? & [= <-] & [= <-] & -> & -> & _). by rewrite Nat.add_0_r, app_nil_r.
  - destruct (field f args) as [v|].
    2:{ rewrite (IH _ _ Hc). simpl. by destruct (mapM _ fields). }
    destruct (field_values v) as [l|]; simpl; [|split; [done|]].
    2:{ by intros (? & ? & ? & _). }
    rewrite (read_values_spec _ _ _ Hc). destruct (mapM domain_of l) as [el|] eqn:El.
    2:{ split; [done|]. intros (values & ds' & Hv & Hd & _). destruct (mapM _ fields); [|done].
        simpl in Hv. injection Hv as <-. rewrite mapM_app_opt, El in Hd. done. }
    destruct (Nat.ltb_spec 1000 (count + length l)).
    { split; [done|]. intros (values & ds' & Hv & Hd & _ & _ & Hle). destruct (mapM _ fields); [|done].
      simpl in Hv. injection Hv as <-. rewrite length_app in Hle. lia. }
    rewrite IH by done. split.
    + intros (values & ds' & Hv & Hd & -> & -> & Hle). destruct (mapM _ fields) as [ls|]; [|done].
      simpl in Hv. injection Hv as <-. exists (l ++ concat ls), (el ++ ds').
      rewrite mapM_app_opt, El, Hd. simpl. rewrite length_app, app_assoc. split_and!; [done..|lia|done|lia].
    + intros (values & ds' & Hv & Hd & -> & -> & Hle). destruct (mapM _ fields) as [ls|]; [|done].
      simpl in Hv. injection Hv as <-. rewrite mapM_app_opt, El in Hd. simpl in Hd.
      destruct (mapM domain_of (concat ls)) as [er|] eqn:Er; [|done]. simpl in Hd. injection Hd as <-.
      exists (concat ls), er. rewrite length_app in *. rewrite app_assoc. split_and!; [done..|lia|done|lia].
Qed.

Lemma domain_set_elem d ds : d ∈ domain_set ds ↔ d ∈ ds.
Proof. unfold domain_set. by rewrite merge_sort_Permutation, elem_of_remove_dups. Qed.

(** ** Theorems *)

(** The recipient facts a policy decides on are complete or invalid. They
    are valid exactly when [to], [cc] and [bcc] together hold between one and a
    thousand values, each a bare ASCII mailbox; then the domains are exactly the
    lower-cased domains of those mailboxes, without repetition, so no recipient
    hides from the policy. Otherwise no domain is reported. *)
Theorem recipient_facts_are_complete args :
  let r := from_arguments (Some args) in
  (valid r = true ↔
   ∃ values ds, recipients args = Some values ∧ mapM domain_of values = Some ds ∧
                (1 ≤ length values ≤ 1000)%nat) ∧
  (∀ values ds d, recipients args = Some values → mapM domain_of values = Some ds →
     valid r = true → d ∈ domains r ↔ d ∈ ds) ∧
  NoDup (domains r) ∧ (valid r = false → domains r = []).
Proof.
  intros r. pose proof (read_fields_spec args recipient_fields 0 []) as H.
  subst r. unfold from_arguments. destruct (read_fields 0 [] args recipient_fields) as [[n es]|] eqn:E; cbn.
  - destruct (proj1 (H n es ltac:(lia)) eq_refl) as (values & ds & Hv & Hd & -> & -> & Hle).
    clear H E. simpl in *. split_and!.
    + split; [intros Hpos%Nat.ltb_lt; eauto 10 with lia|].
      intros (values' & ds' & Hv' & _ & ?). unfold recipients in Hv'. rewrite Hv in Hv'. simplify_eq.
      apply Nat.ltb_lt. lia.
    + intros values' ds' d Hv' Hd' _. unfold recipients in Hv'. rewrite Hv in Hv'. simplify_eq. apply domain_set_elem.
    + unfold domain_set. rewrite merge_sort_Permutation. apply NoDup_remove_dups.
    + intros Hn%Nat.ltb_ge. destruct values; [|simpl in Hn; lia].
      injection Hd as <-. reflexivity.
  - split_and!; [|done|constructor|done]. split; [done|]. intros (values & ds & Hv & Hd & Hl).
    assert (None = Some (length values, ds)) as F; [|done]. apply H; [lia|]. exists values, ds. auto with lia.
Qed.

#[local] Transparent Nat.ltb.

Example mixed_recipients :
  from_arguments (Some [("to", Array [Str "alice@EXAMPLE.COM"]); ("cc", Str "bob@example.com");
                        ("bcc", Array [Str "eve@outside.example"])]) =
  {| valid := true; domains := ["example.com"; "outside.example"] |}.
Proof. vm_compute. reflexivity. Qed.

Example display_name_is_invalid :
  from_arguments (Some [("to", Str "Alice <alice@example.com>")]) = default_recipients.
Proof. vm_compute. reflexivity. Qed.

End EmailRecipients.
