(* ===== verification/CountBounds.v ===== *)
(** * Result-count bounds

    Model of crates/waygate-mcp/src/count_bounds.rs: admitting a result count above
    the upstream's own ceiling, clamping it before dispatch and reporting the
    adjustment. rmcp's [CallToolResult] and [Tool] are records of the members the
    gateway reads; the comparison of a number that is not a [u64] with a bound
    ([as_f64]) and the serialization of a tool are parameters. *)

From S2P Require Import Prelude RustStr Json.
From stdpp Require Import pretty.
#[local] Open Scope Z_scope.

Module CountBounds.
Import Json.Json.

(** ** rmcp model types *)

Inductive ContentBlock :=
  | Text (text : string)
  | ResourceLink (uri name : string) (mime_type : option string)
  | OtherBlock (json : Value).

Record CallToolResult := {
  content : list ContentBlock;
  structured_content : option Value;
  is_error : option bool;
  meta : option (list (string * Value));
  result_type : option string;
}.

Definition set_content (c : list ContentBlock) (r : CallToolResult) : CallToolResult :=
  {| content := c; structured_content := structured_content r; is_error := is_error r;
     meta := meta r; result_type := result_type r |}.
Definition set_structured (v : option Value) (r : CallToolResult) : CallToolResult :=
  {| content := content r; structured_content := v; is_error := is_error r; meta := meta r;
     result_type := result_type r |}.
Definition set_meta (m : option (list (string * Value))) (r : CallToolResult) : CallToolResult :=
  {| content := content r; structured_content := structured_content r; is_error := is_error r;
     meta := m; result_type := result_type r |}.

Record Tool := {
  tool_name : string;
  tool_description : option string;
  tool_input_schema : list (string * Value);
  tool_output_schema : option (list (string * Value));
  tool_execution : option Value;
}.

(** ** Bounds *)

Definition json_u64 (n : Z) : Value := Number (pretty (Z.to_N n)).

Record CountBound := { maximum : Z }.

Record CountAdjustment := {
  requested : Value;
  effective : Z;
  upstream_maximum : Z;
  returned : option Z;
  clamped : bool;
}.

Definition from_projected_input (input : Value) : option CountBound :=
  (λ n, {| maximum := n |}) <$>
    (pointer ["properties"; "limit"; "x-mcp-result-count"; "upstreamMaximum"] input ≫= as_u64).

Fixpoint contains_reference (v : Value) : bool :=
  match v with
  | Object fields =>
      existsb (λ '(k, x), bool_decide (k = "$ref") || bool_decide (k = "$dynamicRef") ||
                          bool_decide (k = "$recursiveRef") || contains_reference x) fields
  | Array items => existsb contains_reference items
  | _ => false
  end.

Definition only_keys (allowed : list string) (fields : list (string * Value)) : bool :=
  forallb (λ kv, bool_decide (kv.1 ∈ allowed)) fields.

Definition output_keys : list string :=
  ["$schema"; "$id"; "title"; "description"; "type"; "properties"; "required";
   "additionalProperties"; "x-fastmcp-wrap-result"].
Definition limit_keys : list string :=
  ["type"; "title"; "description"; "default"; "minimum"; "maximum"; "examples"; "deprecated";
   "readOnly"; "writeOnly"; "$comment"].
Definition input_keys : list string :=
  ["$schema"; "$id"; "title"; "description"; "type"; "properties"; "required";
   "additionalProperties"; "$defs"; "definitions"; "examples"; "$comment"].

Definition JSON_SAFE_INTEGER : Z := 9007199254740991.

Definition is_str (x : string) (v : Value) : bool :=
  match v with Str y => bool_decide (x = y) | _ => false end.
Definition is_true (v : Value) : bool := match v with Bool true => true | _ => false end.

(** The checks on the output schema: wrapped text in an extensible object. *)
Definition wraps_text (output : list (string * Value)) : option bool :=
  if negb (from_option is_true false (field "x-fastmcp-wrap-result" output)) then Some false
  else
    t ← (field "type" output ≫= as_str);
    if negb (bool_decide (t = "object")) ||
       from_option (λ v, negb (is_true v)) false (field "additionalProperties" output)
    then Some false
    else
      props ← field "properties" output;
      rt ← ((get "result" props ≫= get "type") ≫= as_str);
      if negb (bool_decide (rt = "string")) then Some false
      else
        m ← as_object props;
        Some (bool_decide (length m = 1%nat) && only_keys output_keys output).

(** Replace the member at a key path of nested objects. *)
Definition update_key (key : string) (f : Value → option Value) (v : Value) : option Value :=
  match v with
  | Object fields =>
      x ← field key fields;
      y ← f x;
      Some (Object (insert key y fields))
  | _ => None
  end.

Definition count_description (old : string) : string :=
  trim (old +:+ " Counts above the upstream maximum are clamped; _gateway_counts.limit reports the requested and effective counts.").

Definition relax_limit (maximum : Z) (limit : Value) : option Value :=
  match limit with
  | Object property =>
      let property := remove "maximum" property in
      let property := insert "x-mcp-result-count"
                        (Object [("upstreamMaximum", json_u64 maximum);
                                 ("metadataProperty", Str "_gateway_counts")]) property in
      let description := default "" (field "description" property ≫= as_str) in
      Some (Object (insert "description" (Str (count_description description)) property))
  | _ => None
  end.

Section Bounds.
Context (f64_exceeds : Value → Z → bool) (to_string : Value → string).

Definition project (tool : Tool) (input : Value) : option (CountBound * Value) :=
  if contains_reference input then None
  else
    output ← tool_output_schema tool;
    wraps ← wraps_text output;
    if negb wraps then None
    else if from_option (λ support, negb (is_str "forbidden" support)) false
              (tool_execution tool ≫= get "taskSupport") then None
    else
      limit ← (get "properties" input ≫= get "limit");
      t ← (get "type" limit ≫= as_str);
      if negb (bool_decide (t = "integer")) then None
      else
        minimum ← (get "minimum" limit ≫= as_u64);
        if minimum <? 1 then None
        else
          limit_fields ← as_object limit;
          if negb (only_keys limit_keys limit_fields) then None
          else
            input_fields ← as_object input;
            if negb (only_keys input_keys input_fields) then None
            else
              maximum ← (get "maximum" limit ≫= as_u64);
              if (maximum =? 0) || (JSON_SAFE_INTEGER <? maximum) || (maximum <? minimum) then None
              else
                projected ← update_key "properties" (update_key "limit" (relax_limit maximum)) input;
                Some ({| maximum := maximum |}, projected).

Definition exceeds (b : CountBound) (requested : Value) : bool :=
  match as_u64 requested with
  | Some count => maximum b <? count
  | None => f64_exceeds requested (maximum b)
  end.

Definition clamp (b : CountBound) (arguments : list (string * Value))
  : option (CountAdjustment * list (string * Value)) :=
  requested ← field "limit" arguments;
  if exceeds b requested then
    Some ({| requested := requested; effective := maximum b; upstream_maximum := maximum b;
             returned := None; clamped := true |},
          insert "limit" (json_u64 (maximum b)) arguments)
  else None.

Definition adjustment_json (a : CountAdjustment) : Value :=
  Object [("requested", requested a); ("effective", json_u64 (effective a));
          ("upstreamMaximum", json_u64 (upstream_maximum a));
          ("returned", from_option json_u64 Null (returned a)); ("clamped", Bool (clamped a))].

Definition attach_adjustment (a : CountAdjustment) (r : CallToolResult) : CallToolResult :=
  let counts := Object [("limit", adjustment_json a)] in
  let r := match structured_content r with
           | Some (Object payload) =>
               set_structured (Some (Object (insert "_gateway_counts" counts payload))) r
           | _ => r
           end in
  set_content (content r ++ [Text ("Result count adjustment: " +:+ to_string counts)]) r.

End Bounds.

(** ** Numbers survive printing *)

Definition decimal (ds : bytes) : Z := foldl (λ a d, 10 * a + (Z.of_N (byte_val d) - 48)) 0 ds.

Lemma pretty_N_char_digit d :
  (d < 10)%N → is_ascii_digit (pretty_N_char d) = true ∧ Z.of_N (byte_val (pretty_N_char d)) - 48 = Z.of_N d.
Proof.
  intros Hd. assert (d = 0 ∨ d = 1 ∨ d = 2 ∨ d = 3 ∨ d = 4 ∨ d = 5 ∨ d = 6 ∨ d = 7 ∨ d = 8 ∨ d = 9)%N by lia.
  naive_solver.
Qed.

Lemma pretty_N_go_digits n s :
  ∃ ds, as_bytes (pretty_N_go n s) = ds ++ as_bytes s ∧ forallb is_ascii_digit ds = true ∧
        decimal ds = Z.of_N n.
Proof.
  revert s. induction (N.lt_wf_0 n) as [n _ IH]; intros s. destruct (decide (0 < n)%N) as [Hn|Hn].
  - rewrite pretty_N_go_step by done.
    destruct (IH (n `div` 10)%N ltac:(by apply N.div_lt) (String (pretty_N_char (n `mod` 10)) s))
      as (ds & Hb & Hd & Hv).
    destruct (pretty_N_char_digit (n `mod` 10)) as [Hc Hm]; [by apply N.mod_lt|].
    exists (ds ++ [pretty_N_char (n `mod` 10)]). rewrite Hb, forallb_app, Hd. simpl. rewrite Hc. split_and!.
    + by rewrite <- app_assoc.
    + done.
    + unfold decimal in *. rewrite foldl_app, Hv. cbn [foldl]. rewrite Hm.
      pose proof (N.div_mod n 10 ltac:(done)). lia.
  - replace n with 0%N by lia. by exists [].
Qed.

Lemma json_u64_reads_back n : 0 ≤ n ≤ u64_max → as_u64 (json_u64 n) = Some n.
Proof.
  intros Hn. unfold json_u64, as_u64. fold decimal. unfold pretty, pretty_N. case_decide as Hz.
  - assert (n = 0) as -> by lia. reflexivity.
  - destruct (pretty_N_go_digits (Z.to_N n) "") as (ds & Hb & Hd & Hv). rewrite app_nil_r in Hb.
    change (foldl _ 0 ?l) with (decimal l). rewrite Hb, Hd, Hv.
    destruct (pretty_N_go (Z.to_N n) "") eqn:E.
    { exfalso. destruct ds; [|done]. unfold decimal in Hv. simpl in Hv. lia. }
    cbn [is_empty andb negb]. rewrite Z2N.id by lia. by rewrite (proj2 (Z.leb_le _ _)) by lia.
Qed.

(** ** Theorems *)

(** Clamping a requested result count is exact. A count above the upstream's
    maximum is replaced by the maximum and reported with the value the caller sent;
    every other argument is untouched. A count within the bound, or none at all,
    leaves the arguments alone. *)
Theorem clamp_is_exact f64_exceeds b args :
  0 ≤ maximum b ≤ u64_max →
  match clamp f64_exceeds b args with
  | Some (adj, args') =>
      (∃ v, field "limit" args = Some v ∧ exceeds f64_exceeds b v = true ∧ requested adj = v) ∧
      effective adj = maximum b ∧
      (field "limit" args' ≫= as_u64) = Some (maximum b) ∧
      (∀ v', field "limit" args' = Some v' → exceeds f64_exceeds b v' = false) ∧
      (∀ k, k ≠ "limit" → field k args' = field k args)
  | None => ∀ v, field "limit" args = Some v → exceeds f64_exceeds b v = false
  end.
Proof.
  intros Hb. unfold clamp. destruct (field "limit" args) as [v|] eqn:Hl; cbn [mbind option_bind]; [|done].
  destruct (exceeds f64_exceeds b v) eqn:He; [|intros ? [= <-]; done].
  split_and!; [eauto|done| | |].
  - rewrite field_insert. rewrite bool_decide_eq_true_2 by done. by apply json_u64_reads_back.
  - intros v'. rewrite field_insert, bool_decide_eq_true_2 by done. intros [= <-]. unfold exceeds.
    rewrite json_u64_reads_back by done. apply Z.ltb_irrefl.
  - intros k Hk. by rewrite field_insert, bool_decide_eq_false_2.
Qed.

Lemma update_key_spec key f v w :
  update_key key f v = Some w →
  ∃ x y, get key v = Some x ∧ f x = Some y ∧ get key w = Some y ∧
         (∀ k, k ≠ key → get k w = get k v).
Proof.
  destruct v as [| | | | |fields]; simpl; try done. intros Hu.
  destruct (field key fields) as [x|] eqn:Hx; simpl in Hu; [|done].
  destruct (f x) as [y|] eqn:Hy; simpl in Hu; [|done]. injection Hu as <-.
  exists x, y. split_and!; [done..| |].
  - simpl. by rewrite field_insert, bool_decide_eq_true_2.
  - intros k Hk. simpl. by rewrite field_insert, bool_decide_eq_false_2.
Qed.

Lemma relax_limit_bound n limit property :
  0 ≤ n ≤ u64_max → relax_limit n limit = Some property →
  (pointer ["x-mcp-result-count"; "upstreamMaximum"] property ≫= as_u64) = Some n.
Proof.
  intros Hn. destruct limit as [| | | | |fields]; simpl; try done. intros [= <-].
  simpl. rewrite field_insert, bool_decide_eq_false_2 by done.
  rewrite field_insert, bool_decide_eq_true_2 by done. simpl. by apply json_u64_reads_back.
Qed.

Lemma projection_facts tool input b projected :
  project tool input = Some (b, projected) →
  from_projected_input projected = Some b ∧
  1 ≤ maximum b ≤ JSON_SAFE_INTEGER ∧
  (∀ k, k ≠ "properties" → get k projected = get k input) ∧
  (∀ k, k ≠ "limit" → (get "properties" projected ≫= get k) = (get "properties" input ≫= get k)).
Proof.
  unfold project. intros H.
  repeat match type of H with
  | (if ?c then None else _) = Some _ => destruct c eqn:?; [discriminate H|]
  | (mbind _ ?o) = Some _ => let E := fresh "E" in destruct o eqn:E; cbn [mbind option_bind] in H; [|discriminate H]
  end.
  injection H as <- <-. bool_to_prop.
  match goal with E : update_key _ _ _ = Some _ |- _ => rename E into Hu end.
  apply update_key_spec in Hu as (props & props' & Hp & Hu & Hp' & Hrest).
  apply update_key_spec in Hu as (limit & limit' & Hl & Hu & Hl' & Hothers).
  unfold JSON_SAFE_INTEGER in *. split_and!.
  - unfold from_projected_input. cbn [pointer]. rewrite Hp'. cbn [mbind option_bind]. rewrite Hl'.
    apply relax_limit_bound in Hu; [|unfold u64_max; lia]. cbn [pointer mbind option_bind] in Hu |- *.
    by rewrite Hu.
  - simpl. lia.
  - simpl. lia.
  - done.
  - intros k Hk. rewrite Hp', Hp. simpl. by apply Hothers.
Qed.

(** A projected count contract keeps its native ceiling. When an input schema is
    projected, the bound read back from it is the one it was projected with, a
    positive integer every JSON reader represents exactly; only the [limit]
    property changes, every other property and every other member of the schema
    staying as admitted. *)
Theorem projection_keeps_the_ceiling tool input b projected :
  project tool input = Some (b, projected) →
  from_projected_input projected = Some b ∧
  1 ≤ maximum b ≤ JSON_SAFE_INTEGER ∧
  (∀ k, k ≠ "properties" → get k projected = get k input) ∧
  (∀ k, k ≠ "limit" → (get "properties" projected ≫= get k) = (get "properties" input ≫= get k)).
Proof. apply projection_facts. Qed.

(** A search tool whose upstream returns at most 1024 results. *)
Definition demo_input : Value :=
  Object [("type", Str "object");
          ("properties", Object [("limit", Object [("type", Str "integer"); ("minimum", Number "1");
                                                   ("maximum", Number "1024")]);
                                 ("query", Object [("type", Str "string")])])].

Definition demo_tool : Tool :=
  {| tool_name := "search"; tool_description := Some "Search"; tool_input_schema := [];
     tool_output_schema :=
       Some [("type", Str "object"); ("x-fastmcp-wrap-result", Bool true);
             ("properties", Object [("result", Object [("type", Str "string")])])];
     tool_execution := None |}.

Lemma clamp_is_exact_witness :
  let b := {| maximum := 1024 |} in
  let args := [("limit", Number "2048"); ("query", Str "fixture")] in
  (∃ adj args', clamp (λ _ _, false) b args = Some (adj, args') ∧ field "query" args' = field "query" args) ∧
  (∀ adj args', clamp (λ _ _, false) b args = Some (adj, args') →
     (field "limit" args' ≫= as_u64) = Some 1024).
Proof.
  intros b args. pose proof (clamp_is_exact (λ _ _, false) b args ltac:(unfold b, u64_max; simpl; lia)) as H.
  split.
  - eexists _, _. split; [vm_compute; reflexivity|]. reflexivity.
  - intros adj args' E. rewrite E in H. apply H.
Defined.

Lemma projection_keeps_the_ceiling_witness :
  ∃ b out, project demo_tool demo_input = Some (b, out) ∧ from_projected_input out = Some b ∧
           (get "properties" out ≫= get "query") = (get "properties" demo_input ≫= get "query").
Proof.
  eexists _, _. split; [vm_compute; reflexivity|].
  match goal with |- from_projected_input ?out = Some ?b ∧ _ =>
    destruct (projection_keeps_the_ceiling demo_tool demo_input b out) as (H1 & _ & _ & H2);
      [vm_compute; reflexivity|] end.
  split; [exact H1|]. apply H2. discriminate.
Defined.

End CountBounds.
