(* ===== verification/ToolSnapshot.v ===== *)
(** * Admitted tool snapshots and contract identity

    Model of the invocation-time tool definition of crates/waygate-mcp/src/catalog.rs
    and of the contract types of crates/waygate-invocation/src/lib.rs: how a
    definition is admitted, how the arguments of a call select an operation and
    with it the facts the call is governed under, and the identity that binds
    discovery, approval and dispatch to one contract.

    The projection of JSON Schemas onto the portable subset
    (crates/waygate-mcp/src/tool_schema.rs) and serialization are fields of
    [Platform]. *)

From S2P Require Import Prelude RustStr Encoding HashChain Json SchemaHash Facts CountBounds.

Module ToolSnapshot.
Import Encoding.Encoding HashChain.HashChain(hex, collision, is_some, nonempty).
Export Json.Json SchemaHash.SchemaHash Facts.Facts CountBounds.CountBounds.

(** ** Contract identity *)

Inductive InvocationRisk := RLow | RMedium | RHigh.

Inductive InvocationContractAuthority :=
  | CACatalog (tool_id catalog_schema_hash : string)
  | CAManifestFallback (approval_requirements_known : bool) (approved_behavior_hash : option string)
  | CASyntheticModel.

Record InvocationContractIdentity := {
  ci_authority : InvocationContractAuthority;
  ci_input_schema_hash : option string;
  ci_output_schema_hash : option string;
  ci_tool_annotations_hash : option string;
  ci_action_metadata_hash : option string;
  ci_operations_hash : option string;
  ci_risk : InvocationRisk;
  ci_side_effects : bool;
  ci_pii : bool;
  ci_requires_approval : bool;
  ci_requires_approval_known : bool;
}.
#[export] Instance InvocationRisk_eq_dec : EqDecision InvocationRisk.
Proof. solve_decision. Defined.
#[export] Instance InvocationContractAuthority_eq_dec : EqDecision InvocationContractAuthority.
Proof. solve_decision. Defined.
#[export] Instance InvocationContractIdentity_eq_dec : EqDecision InvocationContractIdentity.
Proof. solve_decision. Defined.

(** ** Snapshots *)

Inductive ResolutionAuthority :=
  | Catalog (tool_id : uuid) (schema_hash : string)
  | ManifestFallback (approval_requirements_known : bool) (approved_behavior_hash : option string)
  | SyntheticModel.

Definition authority_id (a : ResolutionAuthority) : string :=
  match a with
  | Catalog _ _ => "catalog"
  | ManifestFallback true _ => "manifest_fallback_known"
  | ManifestFallback false _ => "manifest_fallback_unknown"
  | SyntheticModel => "synthetic_model"
  end.

Record OperationClassification := {
  oc_value : string;
  oc_risk : RiskTier;
  oc_side_effects : bool;
  oc_pii : bool;
}.

(** A compiled validator is known by the schema it was compiled from. *)
Record Validator := { compiled_from : Value }.

Record InvocationToolSnapshot := {
  inline_response_threshold_bytes : option Z;
  facts : ToolFacts;
  authority : ResolutionAuthority;
  published_definition : option Tool;
  count_projected : bool;
  input_schema : option Value;
  source_input_schema_hash : option string;
  input_schema_unavailable : bool;
  output_schema : option Value;
  source_output_schema_hash : option string;
  tool_annotations : option Value;
  action_metadata : option Value;
  annotation_claims_enforced : bool;
  anticipated_sensitive_output : bool;
  sensitive_input : bool;
  output_validator : option Validator;
  discriminator : option string;
  operations : list OperationClassification;
}.

Record OperationResolution := {
  or_requested : option string;
  or_classified : bool;
  or_inadmissible : bool;
}.

Definition default_resolution : OperationResolution :=
  {| or_requested := None; or_classified := false; or_inadmissible := false |}.

(** [char::is_ascii_graphic], byte by byte: every byte of a longer character is refused. *)
Definition is_admissible_in_operation : Ascii.ascii → bool := in_range 33 126.

Definition MAX_OPERATION_VALUE_LEN : nat := 256.

(** [Uuid]'s hyphenated form. *)
Definition uuid_hyphenated (u : uuid) : string :=
  let h := as_bytes (hex (octets 16 u)) in
  of_bytes (take 8 h) +:+ "-" +:+ of_bytes (take 4 (drop 8 h)) +:+ "-" +:+
  of_bytes (take 4 (drop 12 h)) +:+ "-" +:+ of_bytes (take 4 (drop 16 h)) +:+ "-" +:+
  of_bytes (drop 20 h).

(** ** Argument spellings *)

Definition supplied_alias (arguments : list (string * Value)) (properties : list string)
    (canonical alias : string) : bool :=
  negb (bool_decide (alias = canonical)) && negb (bool_decide (alias ∈ properties)) &&
  contains_key alias arguments.

Definition move_alias (properties : list string) (canonical : string)
    (arguments : list (string * Value)) (alias : string) : list (string * Value) :=
  if negb (bool_decide (alias = canonical)) && negb (bool_decide (alias ∈ properties)) then
    match field alias arguments with
    | Some v => insert canonical v (remove alias arguments)
    | None => arguments
    end
  else arguments.

Definition normalize_envelope_field (arguments : list (string * Value)) (properties : list string)
    (canonical : string) (aliases : list string) : result (list (string * Value)) string :=
  let supplied := ((if contains_key canonical arguments then 1 else 0) +
                   length (List.filter (supplied_alias arguments properties canonical) aliases))%nat in
  if (1 <? supplied)%nat then Err ("supply only one spelling of `" +:+ canonical +:+ "`")
  else Ok (foldl (move_alias properties canonical) arguments aliases).

Definition selectors : list string := ["operation_id"; "operation"; "name"; "tool"].

Definition canonical_selector (properties : list string) (tool_name : string)
    (discriminator : option string) : option string :=
  let declared f := bool_decide (f ∈ properties) in
  match discriminator with
  | Some d => if bool_decide (d ∈ selectors) && declared d then Some d else None
  | None => None
  end ∪
  (if declared "operation_id" && declared "arguments" then Some "operation_id"
   else if negb (bool_decide (tool_name = "catalog.describe") ||
                 bool_decide (tool_name = "operations.describe")) then None
   else match List.filter declared selectors with
        | [f] => Some f
        | _ => None
        end).

Record Platform := {
  sha256 : bytes → bytes;
  to_string : Value → string;
  portable_input_schema_value : Value → option Value;
  portable_schema_value : Value → option Value;
  portable_schema_object : list (string * Value) → option (list (string * Value));
  root_property_names : Value → list string;
  f64_exceeds : Value → Z → bool;
}.

Section Snapshot.
Context (P : Platform).

Definition schema_digest (v : Value) : string := validator_schema_hash (sha256 P) (to_string P) v.

Definition normalize_envelope_arguments (schema : Value) (tool_name : string)
    (discriminator : option string) (arguments : list (string * Value))
  : result (list (string * Value)) string :=
  let properties := root_property_names P schema in
  match canonical_selector properties tool_name discriminator with
  | None => Ok arguments
  | Some canonical =>
      let? arguments := normalize_envelope_field arguments properties canonical selectors in
      if bool_decide ("arguments" ∈ properties) && negb (bool_decide ("args" ∈ properties)) then
        normalize_envelope_field arguments properties "arguments" ["args"]
      else Ok arguments
  end.

(** ** Admission *)

Definition admit_input_schema (schema : option Value) : option Value * bool * option string :=
  match schema with
  | None => (None, false, None)
  | Some schema =>
      match portable_input_schema_value P schema with
      | Some portable => (Some portable, false, Some (schema_digest schema))
      | None => (None, true, None)
      end
  end.

Definition admit_output_schema (schema : option Value) : option Value * option string :=
  match schema with
  | None => (None, None)
  | Some schema =>
      match portable_schema_value P schema with
      | Some portable => (Some portable, Some (schema_digest schema))
      | None => (None, None)
      end
  end.

Definition set_approval_known (b : bool) (f : ToolFacts) : ToolFacts :=
  {| tf_server := tf_server f; tf_name := tf_name f; tf_risk := tf_risk f;
     tf_side_effects := tf_side_effects f; tf_pii := tf_pii f;
     tf_requires_approval := tf_requires_approval f; tf_requires_approval_known := b |}.

(** The record both admission paths fill in. *)
Definition admitted_snapshot (f : ToolFacts) (a : ResolutionAuthority)
    (input output annotations metadata : option Value) (enforced sensitive : bool)
  : InvocationToolSnapshot :=
  let '(input, unavailable, input_hash) := admit_input_schema input in
  let '(output, output_hash) := admit_output_schema output in
  {| inline_response_threshold_bytes := None; facts := f; authority := a;
     published_definition := None; count_projected := false; input_schema := input;
     source_input_schema_hash := input_hash; input_schema_unavailable := unavailable;
     output_schema := output; source_output_schema_hash := output_hash;
     tool_annotations := annotations; action_metadata := metadata;
     annotation_claims_enforced := enforced; anticipated_sensitive_output := sensitive;
     sensitive_input := false; output_validator := None; discriminator := None; operations := [] |}.

Definition catalog_with_metadata_mode (f : ToolFacts) (tool_id : uuid) (schema_hash : string)
    (input output annotations metadata : option Value) (enforced sensitive : bool)
  : InvocationToolSnapshot :=
  admitted_snapshot (set_approval_known true f) (Catalog tool_id schema_hash) input output
    annotations metadata enforced sensitive.

Definition manifest_fallback_with_contract_mode (f : ToolFacts) (known : bool)
    (approved_behavior_hash : option string) (input output annotations metadata : option Value)
    (enforced sensitive : bool) : InvocationToolSnapshot :=
  admitted_snapshot (set_approval_known known f) (ManifestFallback known approved_behavior_hash)
    input output annotations metadata enforced sensitive.

Definition synthetic_model (f : ToolFacts) : InvocationToolSnapshot :=
  admitted_snapshot (set_approval_known true f) SyntheticModel None None None None false false.

(** The threshold is a [NonZeroUsize]. *)
Definition with_inline_response_threshold_bytes (threshold : option Z) (s : InvocationToolSnapshot)
  : InvocationToolSnapshot :=
  {| inline_response_threshold_bytes := threshold; facts := facts s;
     authority := authority s; published_definition := published_definition s;
     count_projected := count_projected s; input_schema := input_schema s;
     source_input_schema_hash := source_input_schema_hash s;
     input_schema_unavailable := input_schema_unavailable s; output_schema := output_schema s;
     source_output_schema_hash := source_output_schema_hash s;
     tool_annotations := tool_annotations s; action_metadata := action_metadata s;
     annotation_claims_enforced := annotation_claims_enforced s;
     anticipated_sensitive_output := anticipated_sensitive_output s;
     sensitive_input := sensitive_input s; output_validator := output_validator s;
     discriminator := discriminator s; operations := operations s |}.

Definition with_sensitive_input (sensitive : bool) (s : InvocationToolSnapshot)
  : InvocationToolSnapshot :=
  {| inline_response_threshold_bytes := inline_response_threshold_bytes s; facts := facts s;
     authority := authority s; published_definition := published_definition s;
     count_projected := count_projected s; input_schema := input_schema s;
     source_input_schema_hash := source_input_schema_hash s;
     input_schema_unavailable := input_schema_unavailable s; output_schema := output_schema s;
     source_output_schema_hash := source_output_schema_hash s;
     tool_annotations := tool_annotations s; action_metadata := action_metadata s;
     annotation_claims_enforced := annotation_claims_enforced s;
     anticipated_sensitive_output := anticipated_sensitive_output s;
     sensitive_input := sensitive; output_validator := output_validator s;
     discriminator := discriminator s; operations := operations s |}.

Definition with_operation_classifications (d : option string) (ops : list OperationClassification)
    (s : InvocationToolSnapshot) : InvocationToolSnapshot :=
  {| inline_response_threshold_bytes := inline_response_threshold_bytes s; facts := facts s;
     authority := authority s; published_definition := published_definition s;
     count_projected := count_projected s; input_schema := input_schema s;
     source_input_schema_hash := source_input_schema_hash s;
     input_schema_unavailable := input_schema_unavailable s; output_schema := output_schema s;
     source_output_schema_hash := source_output_schema_hash s;
     tool_annotations := tool_annotations s; action_metadata := action_metadata s;
     annotation_claims_enforced := annotation_claims_enforced s;
     anticipated_sensitive_output := anticipated_sensitive_output s;
     sensitive_input := sensitive_input s; output_validator := output_validator s;
     discriminator := d; operations := ops |}.

Definition set_output_validator (v : Validator) (s : InvocationToolSnapshot) : InvocationToolSnapshot :=
  {| inline_response_threshold_bytes := inline_response_threshold_bytes s; facts := facts s;
     authority := authority s; published_definition := published_definition s;
     count_projected := count_projected s; input_schema := input_schema s;
     source_input_schema_hash := source_input_schema_hash s;
     input_schema_unavailable := input_schema_unavailable s; output_schema := output_schema s;
     source_output_schema_hash := source_output_schema_hash s;
     tool_annotations := tool_annotations s; action_metadata := action_metadata s;
     annotation_claims_enforced := annotation_claims_enforced s;
     anticipated_sensitive_output := anticipated_sensitive_output s;
     sensitive_input := sensitive_input s; output_validator := Some v;
     discriminator := discriminator s; operations := operations s |}.

Definition with_definition_and_schemas (definition : option Tool) (projected : bool)
    (input : option Value) (input_hash : option string) (unavailable : bool)
    (output : option Value) (output_hash : option string) (s : InvocationToolSnapshot)
  : InvocationToolSnapshot :=
  {| inline_response_threshold_bytes := inline_response_threshold_bytes s; facts := facts s;
     authority := authority s; published_definition := definition;
     count_projected := projected; input_schema := input;
     source_input_schema_hash := input_hash;
     input_schema_unavailable := unavailable; output_schema := output;
     source_output_schema_hash := output_hash;
     tool_annotations := tool_annotations s; action_metadata := action_metadata s;
     annotation_claims_enforced := annotation_claims_enforced s;
     anticipated_sensitive_output := anticipated_sensitive_output s;
     sensitive_input := sensitive_input s; output_validator := output_validator s;
     discriminator := discriminator s; operations := operations s |}.

Definition metadata_schema : Value :=
  let integer := Object [("type", Str "integer"); ("minimum", Number "1")] in
  Object [("type", Str "object"); ("additionalProperties", Bool false);
    ("properties", Object [("limit", Object [("type", Str "object"); ("additionalProperties", Bool false);
      ("properties", Object [("requested", integer); ("effective", integer); ("upstreamMaximum", integer);
         ("returned", Object [("type", Array [Str "integer"; Str "null"]); ("minimum", Number "0")]);
         ("clamped", Object [("type", Str "boolean")])]);
      ("required", Array (Str <$> ["requested"; "effective"; "upstreamMaximum"; "returned"; "clamped"]))])]);
    ("required", Array [Str "limit"])].

(** [Value]'s equality: objects compare without regard to the order of their keys. *)
Definition value_eq (v w : Value) : bool := bool_decide (canonicalize v = canonicalize w).

(** A manifest fallback without schemas of its own takes those of the definition. *)
Definition adopt_schemas (definition : option Tool) (s : InvocationToolSnapshot) : InvocationToolSnapshot :=
  match authority s, definition with
  | ManifestFallback _ _, Some tool =>
      let '(input, unavailable, input_hash) :=
        match input_schema s, input_schema_unavailable s with
        | None, false => admit_input_schema (Some (Object (tool_input_schema tool)))
        | i, u => (i, u, source_input_schema_hash s)
        end in
      let '(output, output_hash) :=
        match output_schema s with
        | None => admit_output_schema (Object <$> tool_output_schema tool)
        | o => (o, source_output_schema_hash s)
        end in
      with_definition_and_schemas (published_definition s) (count_projected s) input input_hash
        unavailable output output_hash s
  | _, _ => s
  end.

(** The count projection of the definition, when it is the contract the snapshot holds. *)
Definition projection (definition : option Tool) (native_tasks : bool) (s : InvocationToolSnapshot)
  : option Value :=
  if native_tasks || tf_side_effects (facts s) || is_some (discriminator s) then None
  else
    tool ← definition;
    input ← input_schema s;
    source_input ← portable_schema_object P (tool_input_schema tool);
    let source_output := Object <$> (tool_output_schema tool ≫= portable_schema_object P) in
    if negb (value_eq (Object source_input) input) ||
       from_option (λ output, from_option (λ o, negb (value_eq output o)) true source_output) false
         (output_schema s)
    then None
    else snd <$> project tool input.

Definition with_published_definition_and_task_support (definition : option Tool) (native_tasks : bool)
    (s : InvocationToolSnapshot) : InvocationToolSnapshot :=
  let s := adopt_schemas definition s in
  match projection definition native_tasks s with
  | Some input =>
      with_definition_and_schemas definition true (Some input)
        (Some (schema_digest (Object [("inputSchema", input); ("countMetadataSchema", metadata_schema)])))
        (input_schema_unavailable s) (output_schema s) (source_output_schema_hash s) s
  | None =>
      with_definition_and_schemas definition (count_projected s) (input_schema s)
        (source_input_schema_hash s) (input_schema_unavailable s) (output_schema s)
        (source_output_schema_hash s) s
  end.

(** ** A call against a snapshot *)

Definition normalize_arguments (s : InvocationToolSnapshot) (arguments : list (string * Value))
  : result (list (string * Value)) string :=
  match input_schema s with
  | None => Ok arguments
  | Some schema =>
      normalize_envelope_arguments schema (tf_name (facts s)) (discriminator s) arguments
  end.

Definition facts_vary_by_arguments (s : InvocationToolSnapshot) : bool :=
  is_some (discriminator s) || nonempty (operations s).

Definition resolve_operation (s : InvocationToolSnapshot) (arguments : option (list (string * Value)))
  : OperationResolution :=
  match discriminator s with
  | None => default_resolution
  | Some d =>
      match (arguments ≫= field d) ≫= as_str with
      | None => default_resolution
      | Some requested =>
          if is_empty requested || (MAX_OPERATION_VALUE_LEN <? char_count (as_bytes requested))%nat ||
             negb (forallb is_admissible_in_operation (as_bytes requested)) then
            {| or_requested := None; or_classified := false; or_inadmissible := true |}
          else
            {| or_requested := Some requested;
               or_classified := existsb (λ o, bool_decide (oc_value o = requested)) (operations s);
               or_inadmissible := false |}
      end
  end.

Definition refine_facts (o : OperationClassification) (f : ToolFacts) : ToolFacts :=
  {| tf_server := tf_server f; tf_name := tf_name f; tf_risk := oc_risk o;
     tf_side_effects := oc_side_effects o; tf_pii := oc_pii o;
     tf_requires_approval := tf_requires_approval f;
     tf_requires_approval_known := tf_requires_approval_known f |}.

Definition facts_for (s : InvocationToolSnapshot) (arguments : option (list (string * Value)))
  : ToolFacts :=
  let r := resolve_operation s arguments in
  match (v ← or_requested r;
         if or_classified r then find_first (λ o, bool_decide (oc_value o = v)) (operations s)
         else None) with
  | Some o => refine_facts o (facts s)
  | None => facts s
  end.

Definition clamp_count (s : InvocationToolSnapshot) (arguments : list (string * Value))
  : option (CountAdjustment * list (string * Value)) :=
  if negb (count_projected s) then None
  else b ← (input_schema s ≫= from_projected_input); clamp (f64_exceeds P) b arguments.

Definition oc_le (a b : OperationClassification) : Prop := str_le (oc_value a) (oc_value b).
#[export] Instance oc_le_dec a b : Decision (oc_le a b).
Proof. unfold oc_le. apply _. Defined.

Definition operation_json (o : OperationClassification) : Value :=
  Object [("value", Str (oc_value o)); ("risk", Str (risk_as_str (oc_risk o)));
          ("side_effects", Bool (oc_side_effects o)); ("pii", Bool (oc_pii o))].

Definition operations_json (d : string) (ops : list OperationClassification) : Value :=
  Object [("discriminator", Str d); ("operations", Array (operation_json <$> merge_sort oc_le ops))].

Definition operations_hash (s : InvocationToolSnapshot) : option string :=
  (λ d, schema_digest (operations_json d (operations s))) <$> discriminator s.

Definition contract_identity (s : InvocationToolSnapshot) : InvocationContractIdentity :=
  {| ci_authority :=
       match authority s with
       | Catalog id h => CACatalog (uuid_hyphenated id) h
       | ManifestFallback known approved => CAManifestFallback known approved
       | SyntheticModel => CASyntheticModel
       end;
     ci_input_schema_hash := source_input_schema_hash s;
     ci_output_schema_hash := source_output_schema_hash s;
     ci_tool_annotations_hash := schema_digest <$> tool_annotations s;
     ci_action_metadata_hash := schema_digest <$> action_metadata s;
     ci_operations_hash := operations_hash s;
     ci_risk := match tf_risk (facts s) with Low => RLow | Medium => RMedium | High => RHigh end;
     ci_side_effects := tf_side_effects (facts s);
     ci_pii := tf_pii (facts s);
     ci_requires_approval := tf_requires_approval (facts s);
     ci_requires_approval_known := tf_requires_approval_known (facts s) |}.

End Snapshot.

(** ** Outcomes of resolution *)

Inductive ToolRefusal :=
  | ServerQuarantined | ServerRetired | NotInCatalog | Unclassified | NotAdmitted | LanesDisagree
  | DriftQuarantined | ReviewRequired | KeptBlocked | ApprovalPending.

Definition refusal_code (r : ToolRefusal) : string :=
  match r with
  | ServerQuarantined => "server_quarantined" | ServerRetired => "server_retired"
  | NotInCatalog => "not_in_catalog" | Unclassified => "unclassified"
  | NotAdmitted => "not_admitted" | LanesDisagree => "lanes_disagree"
  | DriftQuarantined => "drift_quarantined" | ReviewRequired => "review_required"
  | KeptBlocked => "kept_blocked" | ApprovalPending => "approval_pending"
  end.

Inductive TemporaryUnavailability :=
  | CatalogUnavailable | CatalogConverging | ReviewUnavailable | NoConnectedLane.

Definition unavailable_code (r : TemporaryUnavailability) : string :=
  match r with
  | CatalogUnavailable => "catalog_unavailable" | CatalogConverging => "catalog_converging"
  | ReviewUnavailable => "review_unavailable" | NoConnectedLane => "no_connected_lane"
  end.

Inductive ResolvedInvocationTool :=
  | Ready (s : InvocationToolSnapshot)
  | Refused (server tool : string) (reason : ToolRefusal)
  | Unavailable (server tool : string) (reason : TemporaryUnavailability).

(** ** Spellings *)

(** A spelling the schema does not declare and that stands for [c]. *)
Definition hidden (props : list string) (c : string) (aliases : list string) (k : string) : Prop :=
  k ∈ aliases ∧ k ≠ c ∧ k ∉ props.

#[export] Instance hidden_dec props c aliases k : Decision (hidden props c aliases k).
Proof. unfold hidden. apply _. Defined.

(** The caller used at most one spelling. *)
Definition one_spelling (props : list string) (c : string) (aliases : list string)
    (args : list (string * Value)) : Prop :=
  ∀ a b, (a = c ∨ hidden props c aliases a) → (b = c ∨ hidden props c aliases b) →
         a ∈ args.*1 → b ∈ args.*1 → a = b.

Lemma field_dom k v (m : list (string * Value)) : field k m = Some v → k ∈ m.*1.
Proof. intros H. apply (list_elem_of_fmap_2 fst m (k, v)). by apply field_Some. Qed.

Lemma field_present k (m : list (string * Value)) : k ∈ m.*1 → ∃ v, field k m = Some v.
Proof. intros H. destruct (field k m) eqn:E; [eauto|]. by apply field_None in E. Qed.

Lemma move_alias_spec props c args a k v :
  NoDup args.*1 → one_spelling props c [a] args →
  let r := move_alias props c args a in
  NoDup r.*1 ∧
  (field k r = Some v ↔
   (k = c ∧ (field c args = Some v ∨ hidden props c [a] a ∧ field a args = Some v)) ∨
   (k ≠ c ∧ ¬ hidden props c [a] k ∧ field k args = Some v)).
Proof.
  intros Hd H1. unfold move_alias.
  assert (hidden props c [a] k ↔ k = a ∧ a ≠ c ∧ a ∉ props) as Hk
    by (unfold hidden; rewrite list_elem_of_singleton; clear; intuition congruence).
  assert (hidden props c [a] a ↔ a ≠ c ∧ a ∉ props) as Ha
    by (unfold hidden; rewrite list_elem_of_singleton; clear; intuition congruence).
  rewrite Hk. rewrite Ha. destruct (decide (a ≠ c ∧ a ∉ props)) as [[Hac Hap]|Hno].
  2:{ replace (negb (bool_decide (a = c)) && negb (bool_decide (a ∈ props))) with false;
        [|symmetry; do 2 case_bool_decide; simpl; tauto].
      split; [done|]. clear -Hno. destruct (decide (k = c)) as [->|]; intuition congruence. }
  rewrite (bool_decide_eq_false_2 (a = c)), (bool_decide_eq_false_2 (a ∈ props)) by done. simpl.
  destruct (field a args) as [x|] eqn:Hx.
  - split; [by apply insert_nodup, remove_nodup|].
    assert (field c args = None) as Hc.
    { apply field_None. intros Hin. apply Hac. apply (H1 a c); [right; by apply Ha|by left|by eapply field_dom|done]. }
    rewrite field_insert, field_remove, Hc by done. clear -Hac Hap Hx.
    case_bool_decide; [intuition congruence|]. case_bool_decide; intuition congruence.
  - split; [done|]. clear -Hac Hap Hx. destruct (decide (k = c)) as [->|Hkc]; [intuition congruence|].
    destruct (decide (k = a)) as [->|]; intuition congruence.
Qed.

Lemma move_aliases_spec props c aliases args :
  NoDup args.*1 → one_spelling props c aliases args →
  let r := foldl (move_alias props c) args aliases in
  NoDup r.*1 ∧
  ∀ k v, field k r = Some v ↔
    (k = c ∧ ∃ a, (a = c ∨ hidden props c aliases a) ∧ field a args = Some v) ∨
    (k ≠ c ∧ ¬ hidden props c aliases k ∧ field k args = Some v).
Proof.
  revert args. induction aliases as [|a aliases IH]; intros args Hd H1; simpl.
  { split; [done|]. intros k v. unfold hidden. setoid_rewrite elem_of_nil.
    destruct (decide (k = c)) as [->|]; naive_solver. }
  assert (one_spelling props c [a] args) as H1a.
  { intros x y Hx Hy. apply H1; unfold hidden in *; set_solver. }
  set (m := move_alias props c args a).
  assert (∀ k v, _) as Hm by (intros k v; exact (proj2 (move_alias_spec props c args a k v Hd H1a))).
  assert (∀ k, hidden props c (a :: aliases) k ↔ hidden props c [a] k ∨ hidden props c aliases k) as Hh
    by (intros k; unfold hidden; set_solver).
  destruct (IH m) as [Hn Hr].
  - apply (move_alias_spec props c args a c Null Hd H1a).
  - intros x y Hx Hy [vx Hvx]%field_present [vy Hvy]%field_present. fold m in Hm.
    apply Hm in Hvx, Hvy.
    assert (∀ z vz, (z = c ∨ hidden props c aliases z) →
       (z = c ∧ (field c args = Some vz ∨ hidden props c [a] a ∧ field a args = Some vz)) ∨
       (z ≠ c ∧ ¬ hidden props c [a] z ∧ field z args = Some vz) →
       ∃ z', (z' = c ∨ hidden props c (a :: aliases) z') ∧ z' ∈ args.*1 ∧
             (z = z' ∨ z = c ∧ hidden props c [a] z')) as Hsrc.
    { intros z vz Hz [(-> & [Hf|[Ha Hf]])|(Hzc & Hnh & Hf)]; apply field_dom in Hf.
      - exists c. auto.
      - exists a. rewrite Hh. auto.
      - exists z. rewrite Hh. naive_solver. }
    destruct (Hsrc _ _ Hx Hvx) as (x' & Hx' & Hinx & Ex).
    destruct (Hsrc _ _ Hy Hvy) as (y' & Hy' & Hiny & Ey).
    assert (x' = y') as -> by (by apply H1). clear Hsrc.
    destruct Ex as [->|[-> Ha1]], Ey as [->|[-> Ha2]]; try done.
    + destruct Hvx as [[-> _]|(_ & Hnh & _)]; [|done]. by destruct Ha2 as (_ & ? & _).
    + destruct Hvy as [[-> _]|(_ & Hnh & _)]; [|done]. by destruct Ha1 as (_ & ? & _).
  - split; [done|]. intros k v. rewrite Hr. fold m in Hm. setoid_rewrite Hm. setoid_rewrite Hh.
    assert (∀ z, hidden props c [a] z → z = a) as Hza
      by (intros z (Hz & _); by apply list_elem_of_singleton in Hz).
    destruct (decide (k = c)) as [->|Hkc]; [|naive_solver]. split.
    + intros [(_ & z & Hz & Hf)|]; [|naive_solver]. left. split; [done|].
      destruct Hf as [(-> & [Hf|[Ha Hf]])|(Hzc & Hnh & Hf)]; [exists c|exists a|exists z]; naive_solver.
    + intros [(_ & z & Hz & Hf)|]; [|naive_solver]. left. split; [done|].
      destruct Hz as [->|[Hz|Hz]].
      * exists c. naive_solver.
      * pose proof (Hza _ Hz) as ->. exists c. naive_solver.
      * destruct (decide (hidden props c [a] z)) as [Hy|Hn'].
        { pose proof (Hza _ Hy) as ->. exists c. naive_solver. }
        exists z. split; [by right|]. right. split; [by destruct Hz as (_ & ? & _)|done].
Qed.

Lemma filter_two {A} (f : A → bool) (l : list A) a b :
  a ∈ l → b ∈ l → f a = true → f b = true → a ≠ b → (2 ≤ length (List.filter f l))%nat.
Proof.
  intros Ha Hb Fa Fb Hne.
  assert (length [a; b] ≤ length (List.filter f l))%nat; [|done]. apply NoDup_incl_length.
  - constructor; [|constructor; [|constructor]]; [|by intros []]. intros [->|[]]. done.
  - intros x [<-|[<-|[]]]; apply filter_In; by rewrite <- list_elem_of_In.
Qed.

Lemma supplied_alias_spec props c args a :
  supplied_alias args props c a = true ↔ a ≠ c ∧ a ∉ props ∧ a ∈ args.*1.
Proof.
  unfold supplied_alias. rewrite !andb_true_iff, !negb_true_iff, !bool_decide_eq_false, contains_key_spec.
  tauto.
Qed.

Lemma normalize_field_spec props c aliases args :
  NoDup args.*1 → NoDup aliases →
  match normalize_envelope_field args props c aliases with
  | Ok r => one_spelling props c aliases args ∧ r = foldl (move_alias props c) args aliases
  | Err _ => ¬ one_spelling props c aliases args
  end.
Proof.
  intros Hd Ha. unfold normalize_envelope_field. set (sup := List.filter _ aliases).
  destruct (Nat.ltb_spec 1 ((if contains_key c args then 1 else 0) + length sup)) as [Hlt|Hge].
  - intros H1. assert (∃ a b, a ≠ b ∧ (a = c ∨ hidden props c aliases a) ∧ (b = c ∨ hidden props c aliases b) ∧
                       a ∈ args.*1 ∧ b ∈ args.*1) as (a & b & Hne & Hx & Hy & Hxi & Hyi); [|by destruct Hne; eapply H1].
    assert (∀ x, x ∈ sup → hidden props c aliases x ∧ x ∈ args.*1) as Hs.
    { intros x Hx. apply list_elem_of_In, filter_In in Hx as [Hx Hs]. apply supplied_alias_spec in Hs.
      rewrite <- list_elem_of_In in Hx. unfold hidden. tauto. }
    assert (NoDup sup) as Hnd. { apply NoDup_ListNoDup, List.NoDup_filter, NoDup_ListNoDup, Ha. }
    destruct sup as [|a [|b sup]].
    + simpl in Hlt. destruct (contains_key c args); lia.
    + destruct (contains_key c args) eqn:Hc; [|simpl in Hlt; lia]. apply contains_key_spec in Hc.
      destruct (Hs a) as [Hh Hin]; [left|]. exists c, a. destruct Hh as (? & ? & ?).
      split_and!; [done|by left|right; by repeat split|done..].
    + apply NoDup_cons in Hnd as [Hnin _]. destruct (Hs a) as [Hh Hin]; [left|].
      destruct (Hs b) as [Hh' Hin']; [right; left|]. exists a, b. split_and!; [|by right|by right|done..].
      intros ->. apply Hnin. left.
  - split; [|done]. intros a b Hx Hy Hxi Hyi. destruct (decide (a = b)) as [|Hne]; [done|exfalso].
    assert (∀ x, hidden props c aliases x → x ∈ args.*1 → supplied_alias args props c x = true ∧ x ∈ aliases) as Hs.
    { intros x (H1 & H2 & H3) H4. split; [|done]. by apply supplied_alias_spec. }
    assert (∀ x, x ∈ aliases → supplied_alias args props c x = true → (1 ≤ length sup)%nat) as H1.
    { intros x Hin Hsx. assert (In x sup) by (apply filter_In; by rewrite <- list_elem_of_In).
      destruct sup; [done|simpl; lia]. }
    destruct Hx as [->|Hx], Hy as [->|Hy]; [done| | |].
    + destruct (Hs b Hy Hyi) as [Hf Hin]. apply contains_key_spec in Hxi. rewrite Hxi in Hge.
      pose proof (H1 b Hin Hf). lia.
    + destruct (Hs a Hx Hxi) as [Hf Hin]. apply contains_key_spec in Hyi. rewrite Hyi in Hge.
      pose proof (H1 a Hin Hf). lia.
    + destruct (Hs a Hx Hxi), (Hs b Hy Hyi).
      pose proof (filter_two (supplied_alias args props c) aliases a b ltac:(done) ltac:(done) ltac:(done) ltac:(done) Hne).
      fold sup in H4. lia.
Qed.

(** ** Theorems *)

(** Policy, approval and upstream see one spelling of the operation. For the
    aliases of an envelope field, normalization refuses a call exactly when it
    carries two spellings; otherwise the undeclared spellings are gone, the
    canonical field holds the value of the one spelling used, and every other
    argument is unchanged. *)
Theorem envelope_has_one_spelling props c aliases args :
  NoDup args.*1 → NoDup aliases →
  match normalize_envelope_field args props c aliases with
  | Err _ => ∃ a b, a ≠ b ∧ (a = c ∨ hidden props c aliases a) ∧ (b = c ∨ hidden props c aliases b) ∧
                    a ∈ args.*1 ∧ b ∈ args.*1
  | Ok r =>
      NoDup r.*1 ∧
      (∀ a, hidden props c aliases a → field a r = None) ∧
      (∀ v, field c r = Some v ↔ ∃ a, (a = c ∨ hidden props c aliases a) ∧ field a args = Some v) ∧
      (∀ k, k ≠ c → ¬ hidden props c aliases k → field k r = field k args)
  end.
Proof.
  intros Hd Ha. pose proof (normalize_field_spec props c aliases args Hd Ha) as H.
  destruct (normalize_envelope_field args props c aliases) as [r|e].
  - destruct H as [H1 ->]. destruct (move_aliases_spec props c aliases args Hd H1) as [Hn Hr].
    split_and!; [done| | |].
    + intros a Hh. destruct (field a _) as [v|] eqn:Hf; [|done]. apply Hr in Hf.
      destruct Hf as [[-> _]|(_ & Hnh & _)]; [by destruct Hh as (_ & ? & _)|done].
    + intros v. rewrite Hr. clear. intuition congruence.
    + intros k Hk Hnh. apply option_eq. intros v. rewrite Hr. clear -Hk Hnh. intuition congruence.
  - destruct (decide (Exists (λ a, (a = c ∨ hidden props c aliases a) ∧
        Exists (λ b, (b = c ∨ hidden props c aliases b) ∧ a ≠ b) args.*1) args.*1)) as [HE|HN].
    + apply Exists_exists in HE as (a & Hin & Hx & HE). apply Exists_exists in HE as (b & Hin' & Hy & Hne).
      by exists a, b.
    + exfalso. apply H. intros a b Hx Hy Hxi Hyi. destruct (decide (a = b)) as [|Hne]; [done|].
      exfalso. apply HN. apply Exists_exists. exists a. split_and!; [done..|].
      apply Exists_exists. by exists b.
Qed.

(** Well-formed snapshots: what the stages rely on without checking. *)
Record snapshot_wf (s : InvocationToolSnapshot) : Prop := {
  wf_count : count_projected s = true → is_Some (input_schema s ≫= from_projected_input);
  wf_approval : tf_requires_approval_known (facts s) = false →
                ∃ h, authority s = ManifestFallback false h;
  wf_unavailable : input_schema_unavailable s = true → input_schema s = None;
  wf_input_hash : is_Some (input_schema s) ↔ is_Some (source_input_schema_hash s);
  wf_output_hash : is_Some (output_schema s) ↔ is_Some (source_output_schema_hash s);
  wf_read_only_projection : count_projected s = true → tf_side_effects (facts s) = false;
  wf_threshold : ∀ n, inline_response_threshold_bytes s = Some n → 0 < n;
}.

(** The ways a snapshot comes about: the three admissions (the other constructors
    call one of these with some arguments fixed) and every builder. *)
Inductive admitted (P : Platform) : InvocationToolSnapshot → Prop :=
  | ByCatalog f id h i o a m e n : admitted P (catalog_with_metadata_mode P f id h i o a m e n)
  | ByManifest f k h i o a m e n : admitted P (manifest_fallback_with_contract_mode P f k h i o a m e n)
  | BySynthetic f : admitted P (synthetic_model P f)
  | ByPublished d t s : admitted P s → admitted P (with_published_definition_and_task_support P d t s)
  | BySensitiveInput b s : admitted P s → admitted P (with_sensitive_input b s)
  | ByThreshold t s : (∀ n, t = Some n → 0 < n) → admitted P s →
      admitted P (with_inline_response_threshold_bytes t s)
  | ByOperations d ops s : admitted P s → admitted P (with_operation_classifications d ops s)
  | ByValidator v s : admitted P s → admitted P (set_output_validator v s).

Lemma admitted_snapshot_wf P f a i o an m e n :
  (tf_requires_approval_known f = false → ∃ h, a = ManifestFallback false h) →
  snapshot_wf (admitted_snapshot P f a i o an m e n).
Proof.
  intros Ha. unfold admitted_snapshot, admit_input_schema, admit_output_schema.
  destruct i as [i|]; [destruct (portable_input_schema_value P i)|];
    (destruct o as [o|]; [destruct (portable_schema_value P o)|]); split; simpl; try done; by rewrite !is_Some_alt.
Qed.

Lemma adopt_schemas_wf P d s : snapshot_wf s → snapshot_wf (adopt_schemas P d s) ∧
  facts (adopt_schemas P d s) = facts s ∧ discriminator (adopt_schemas P d s) = discriminator s.
Proof.
  intros Hwf. unfold adopt_schemas. destruct (authority s) as [|k h|] eqn:Auth; [done| |done].
  destruct d as [tool|]; [|done]. destruct Hwf as [Hc Ha Hu Hi Ho Hr].
  unfold admit_input_schema, admit_output_schema.
  destruct (input_schema s) as [i|] eqn:Ei, (input_schema_unavailable s) eqn:Eu;
    [by specialize (Hu eq_refl)| | |destruct (portable_input_schema_value P _)];
    (destruct (output_schema s) as [o|] eqn:Eo;
     [|destruct (tool_output_schema tool) as [t|]; [cbn [fmap option_fmap option_map]; destruct (portable_schema_value P _)|]]);
    (split; [split; cbn -[from_projected_input]; rewrite ?Auth; try done; try (by rewrite !is_Some_alt)|done]).
  all: first [by intros Hp; destruct (Hc Hp)|rewrite <- Auth; exact Ha].
Qed.

(** C38. Every admitted definition is well formed, by whichever admission and
    builders of [InvocationToolSnapshot] it was made, in whatever order: an
    unknown approval requirement only comes with a manifest fallback that says
    so, a schema that could not be published is not used, a schema is present
    exactly when the contract identity carries its hash, a count projection is
    read-only and has a readable bound, and a delivery threshold is positive. *)
Theorem admitted_snapshots_are_well_formed P s : admitted P s → snapshot_wf s.
Proof.
  induction 1 as [| | |d t s Hs IH|b s Hs IH|t s Ht Hs IH|d ops s Hs IH|v s Hs IH].
  - by apply admitted_snapshot_wf.
  - apply admitted_snapshot_wf. simpl. intros ->. eauto.
  - by apply admitted_snapshot_wf.
  - unfold with_published_definition_and_task_support.
    destruct (adopt_schemas_wf P d s IH) as (IH' & Hf & Hd).
    set (s' := adopt_schemas P d s) in *. destruct (projection P d t s') as [input|] eqn:Hp.
    + unfold projection in Hp. destruct (t || _ || _) eqn:Hg; [done|]. bool_to_prop.
      destruct d as [tool|]; [|done]. cbn [mbind option_bind] in Hp.
      destruct (input_schema s') as [i|] eqn:Hi; [|done]. cbn [mbind option_bind] in Hp.
      destruct (portable_schema_object P _) as [src|]; [|done]. cbn [mbind option_bind] in Hp.
      destruct (negb _ || _); [done|]. destruct (project tool i) as [[b out]|] eqn:Hproj; [|done].
      injection Hp as <-. apply projection_facts in Hproj as [Hb _]. destruct IH'. split; cbn -[from_projected_input]; try done.
      * intros Hu. specialize (wf_unavailable0 Hu). congruence.
    + by destruct IH'.
  - destruct IH. by split.
  - destruct IH. by split.
  - destruct IH. by split.
  - destruct IH. by split.
Qed.

(** The facts a call is governed under are reviewed ones. They are the tool's
    own, or the ones of the reviewed operation whose value the discriminator
    argument names; server, name and approval requirements are always the tool's.
    For a tool without discriminator and operations they do not depend on the
    arguments, and where no operation is classified above its tool, neither
    risk, side effects nor PII can exceed the tool's. *)
Theorem call_facts_are_reviewed s args :
  let f := facts_for s args in
  (f = facts s ∨
   ∃ o d v, o ∈ operations s ∧ discriminator s = Some d ∧ (args ≫= field d) = Some (Str v) ∧
            oc_value o = v ∧ or_requested (resolve_operation s args) = Some v ∧
            f = refine_facts o (facts s)) ∧
  (tf_server f = tf_server (facts s) ∧ tf_name f = tf_name (facts s) ∧
   tf_requires_approval f = tf_requires_approval (facts s) ∧
   tf_requires_approval_known f = tf_requires_approval_known (facts s)) ∧
  (facts_vary_by_arguments s = false → f = facts s) ∧
  (Forall (λ o, severity (oc_risk o) ≤ severity (tf_risk (facts s)) ∧
                (oc_side_effects o = true → tf_side_effects (facts s) = true) ∧
                (oc_pii o = true → tf_pii (facts s) = true)) (operations s) →
   severity (tf_risk f) ≤ severity (tf_risk (facts s)) ∧
   (tf_side_effects f = true → tf_side_effects (facts s) = true) ∧
   (tf_pii f = true → tf_pii (facts s) = true)).
Proof.
  set (f := facts_for s args). simpl.
  assert (f = facts s ∨
   ∃ o d v, o ∈ operations s ∧ discriminator s = Some d ∧ (args ≫= field d) = Some (Str v) ∧
            oc_value o = v ∧ or_requested (resolve_operation s args) = Some v ∧
            f = refine_facts o (facts s)) as Hf.
  { unfold f, facts_for, resolve_operation. destruct (discriminator s) as [d|]; [|by left].
    destruct (args ≫= field d) as [[| | |v| |]|] eqn:Ha; try by left. cbn [mbind option_bind as_str].
    destruct (is_empty v || _ || _) eqn:Hadm; [by left|]. cbn [or_requested or_classified mbind option_bind].
    destruct (existsb _ _); [|by left].
    destruct (find_first _ _) as [o|] eqn:Hfind; [right|by left].
    apply find_first_Some in Hfind as [Hin Ho]. cbn in Ho. apply bool_decide_eq_true in Ho.
    exists o, d, v. done. }
  split; [done|]. split; [|split].
  - by destruct Hf as [->|(o & d & v & _ & _ & _ & _ & _ & ->)].
  - unfold facts_vary_by_arguments. intros Hv. destruct Hf as [?|(o & d & v & _ & Hd & _)]; [done|].
    by rewrite Hd in Hv.
  - intros Hc. destruct Hf as [->|(o & d & v & Hin & _ & _ & _ & _ & ->)]; [done|].
    rewrite Forall_forall in Hc. by apply (Hc o).
Qed.

(** ** What equal contract identities mean *)

Lemma length_hex l : length (as_bytes (hex l)) = (2 * length l)%nat.
Proof.
  unfold hex. rewrite as_of_bytes. induction l as [|b l IH]; [done|].
  rewrite fmap_cons, concat_cons, length_app, IH. simpl. lia.
Qed.

Lemma split_at_length {A} (a b c d : list A) (x : A) n :
  length a = n → length c = n → a ++ x :: b = c ++ x :: d → a = c ∧ b = d.
Proof. intros Ha Hc E. apply app_inj_1 in E as [-> E]; [|by rewrite Ha, Hc]. by injection E. Qed.

Lemma uuid_hyphenated_inj u v :
  (u < 256 ^ 16)%N → (v < 256 ^ 16)%N → uuid_hyphenated u = uuid_hyphenated v → u = v.
Proof.
  intros Hu Hv E. apply (f_equal as_bytes) in E. unfold uuid_hyphenated in E.
  set (hu := as_bytes (hex (octets 16 u))) in E. set (hv := as_bytes (hex (octets 16 v))) in E.
  assert (length hu = 32%nat ∧ length hv = 32%nat) as [Lu Lv].
  { unfold hu, hv. rewrite !length_hex. unfold octets. by rewrite !length_reverse, !length_le_bytes. }
  rewrite !as_bytes_app, !as_of_bytes in E.
  change (as_bytes "-") with [Ascii.ascii_of_nat 45] in E. cbn [app] in E.
  apply (split_at_length _ _ _ _ _ 8) in E as [E1 E]; [|rewrite length_take; lia..].
  apply (split_at_length _ _ _ _ _ 4) in E as [E2 E]; [|rewrite length_take, length_drop; lia..].
  apply (split_at_length _ _ _ _ _ 4) in E as [E3 E]; [|rewrite length_take, length_drop; lia..].
  apply (split_at_length _ _ _ _ _ 4) in E as [E4 E5]; [|rewrite length_take, length_drop; lia..].
  assert (hu = hv) as Eh.
  { rewrite <- (take_drop 8 hu), <- (take_drop 8 hv), E1. f_equal.
    rewrite <- (take_drop 4 (drop 8 hu)), <- (take_drop 4 (drop 8 hv)), E2, !drop_drop. f_equal.
    change (8 + 4)%nat with 12%nat.
    rewrite <- (take_drop 4 (drop 12 hu)), <- (take_drop 4 (drop 12 hv)), E3, !drop_drop. f_equal.
    change (12 + 4)%nat with 16%nat.
    rewrite <- (take_drop 4 (drop 16 hu)), <- (take_drop 4 (drop 16 hv)), E4, !drop_drop. by f_equal. }
  unfold hu, hv in Eh. apply as_bytes_inj in Eh. apply HashChain.hex_inj in Eh.
  pose proof (pf_octets 16 u v [] [] ltac:(done) ltac:(done)) as Hpf. rewrite !app_nil_r in Hpf.
  by apply Hpf in Eh as [? _].
Qed.

Lemma catalog_authority_inj a b c d : CACatalog a b = CACatalog c d → a = c ∧ b = d.
Proof. by intros [= -> ->]. Qed.

Lemma canonical_operation o :
  canonicalize (operation_json o) =
    Object [("pii", Bool (oc_pii o)); ("risk", Str (risk_as_str (oc_risk o)));
            ("side_effects", Bool (oc_side_effects o)); ("value", Str (oc_value o))].
Proof. reflexivity. Qed.

Lemma canonical_operations d ops :
  canonicalize (operations_json d ops) =
    Object [("discriminator", Str d); ("operations", Array (canonicalize <$> (operation_json <$> merge_sort oc_le ops)))].
Proof. reflexivity. Qed.

Lemma canonical_operations_inj d1 d2 ops1 ops2 :
  canonicalize (operations_json d1 ops1) = canonicalize (operations_json d2 ops2) →
  d1 = d2 ∧ merge_sort oc_le ops1 = merge_sort oc_le ops2.
Proof.
  rewrite !canonical_operations. intros [= <- E]. split; [done|].
  rewrite <- !list_fmap_compose in E.
  assert (Inj (=) (=) (canonicalize ∘ operation_json)) as Hinj; [|by apply (inj (fmap _)) in E].
  intros [v1 r1 s1 p1] [v2 r2 s2 p2] H. unfold compose in H. rewrite !canonical_operation in H. simpl in H.
  simplify_eq. f_equal. by destruct r1, r2.
Qed.

Section Pins.
Context (P : Platform).

(** Bytes hashed for a JSON value of a contract. *)
Definition digest_input (v : Value) : bytes := json_input (to_string P) "validator-schema-v1" v.

Lemma schema_digest_inj v w :
  prints_apart (to_string P) [canonicalize v; canonicalize w] →
  schema_digest P v = schema_digest P w →
  canonicalize v = canonicalize w ∨ collision (sha256 P) [digest_input v; digest_input w].
Proof.
  intros Hp [E|Hc]%digest_inj; [left|by right]. unfold json_input in E.
  apply (inj (app _)), (inj (app _)) in E. apply as_bytes_inj in E.
  apply Hp; [left|right; left|done].
Qed.

(** The JSON parts of a contract that its identity hashes itself. *)
Definition hashed_parts (s : InvocationToolSnapshot) : list Value :=
  option_list (tool_annotations s) ++ option_list (action_metadata s) ++
  option_list ((λ d, operations_json d (operations s)) <$> discriminator s).

Lemma list_elem_of_option_list {A} (o : option A) x : x ∈ option_list o ↔ o = Some x.
Proof. destruct o; simpl; [rewrite list_elem_of_singleton|]; set_solver. Qed.

Lemma option_digest_inj (o1 o2 : option Value) (all : list Value) :
  (∀ v, o1 = Some v → v ∈ all) → (∀ v, o2 = Some v → v ∈ all) →
  prints_apart (to_string P) (canonicalize <$> all) →
  schema_digest P <$> o1 = schema_digest P <$> o2 →
  canonicalize <$> o1 = canonicalize <$> o2 ∨ collision (sha256 P) (digest_input <$> all).
Proof.
  intros H1 H2 Hp E. destruct o1 as [v|], o2 as [w|]; simplify_eq/=; [|by left].
  assert (v ∈ all) by auto. assert (w ∈ all) by auto.
  destruct (schema_digest_inj v w) as [->|Hc]; [|done|by left|right].
  - intros x y Hx Hy. apply Hp; set_unfold; naive_solver.
  - eapply HashChain.collision_mono; [|done]. intros x Hx. rewrite !elem_of_cons, elem_of_nil in Hx.
    destruct Hx as [->|[->|[]]]; by apply list_elem_of_fmap_2.
Qed.

(** Equal contract identities mean one contract. Two admitted definitions with
    the same identity come from the same authority (the same catalogue tool and
    reviewed schema hash), have the same schema hashes, risk, side-effect, PII and
    approval facts, the same annotations and metadata up to key order, and the
    same discriminator and per-operation classifications up to listing order,
    unless the digest collides on two of the hashed parts. *)
Theorem contract_identity_pins s1 s2 :
  (∀ id h, authority s1 = Catalog id h ∨ authority s2 = Catalog id h → (id < 256 ^ 16)%N) →
  Forall unique_keys (hashed_parts s1 ++ hashed_parts s2) →
  prints_apart (to_string P) (canonicalize <$> hashed_parts s1 ++ hashed_parts s2) →
  contract_identity P s1 = contract_identity P s2 →
  (authority s1 = authority s2 ∧
   source_input_schema_hash s1 = source_input_schema_hash s2 ∧
   source_output_schema_hash s1 = source_output_schema_hash s2 ∧
   tf_risk (facts s1) = tf_risk (facts s2) ∧ tf_side_effects (facts s1) = tf_side_effects (facts s2) ∧
   tf_pii (facts s1) = tf_pii (facts s2) ∧
   tf_requires_approval (facts s1) = tf_requires_approval (facts s2) ∧
   tf_requires_approval_known (facts s1) = tf_requires_approval_known (facts s2)) ∧
  ((option_Forall2 same_json (tool_annotations s1) (tool_annotations s2) ∧
    option_Forall2 same_json (action_metadata s1) (action_metadata s2) ∧
    discriminator s1 = discriminator s2 ∧
    (discriminator s1 ≠ None → operations s1 ≡ₚ operations s2)) ∨
   collision (sha256 P) (digest_input <$> hashed_parts s1 ++ hashed_parts s2)).
Proof.
  intros Hid Hu Hp E. unfold contract_identity in E. injection E as Ea Ei Eo Et Em Eops Er Es Epii Eap Ekn.
  split.
  { split_and!; [|done|done| |done|done|done|done].
    - destruct (authority s1) as [i1 h1|k1 b1|] eqn:A1, (authority s2) as [i2 h2|k2 b2|] eqn:A2;
        try discriminate Ea; [|by injection Ea as -> ->|reflexivity].
      apply catalog_authority_inj in Ea as [Ea <-]. f_equal. apply uuid_hyphenated_inj; [apply (Hid i1 h1); by left|apply (Hid i2 h1); by right|exact Ea].
    - by destruct (tf_risk (facts s1)), (tf_risk (facts s2)). }
  set (all := hashed_parts s1 ++ hashed_parts s2) in *.
  assert (∀ v, tool_annotations s1 = Some v ∨ tool_annotations s2 = Some v ∨ action_metadata s1 = Some v ∨
     action_metadata s2 = Some v ∨ (λ d, operations_json d (operations s1)) <$> discriminator s1 = Some v ∨
     (λ d, operations_json d (operations s2)) <$> discriminator s2 = Some v → v ∈ all) as Hall.
  { intros v Hv. unfold all, hashed_parts. rewrite !elem_of_app, !list_elem_of_option_list. tauto. }
  assert (∀ o1 o2, (∀ v, o1 = Some v → v ∈ all) → (∀ v, o2 = Some v → v ∈ all) →
     canonicalize <$> o1 = canonicalize <$> o2 → option_Forall2 same_json o1 o2) as Hsame.
  { intros o1 o2 H1 H2 HE. destruct o1 as [v|], o2 as [w|]; simplify_eq/=; constructor.
    rewrite Forall_forall in Hu. apply canonicalize_same; [by apply Hu, H1|by apply Hu, H2|done]. }
  destruct (option_digest_inj (tool_annotations s1) (tool_annotations s2) all) as [Ct|]; [(intros; apply Hall; tauto)..|done|done| |by right].
  destruct (option_digest_inj (action_metadata s1) (action_metadata s2) all) as [Cm|]; [(intros; apply Hall; tauto)..|done|done| |by right].
  destruct (option_digest_inj ((λ d, operations_json d (operations s1)) <$> discriminator s1)
              ((λ d, operations_json d (operations s2)) <$> discriminator s2) all) as [Co|];
    [(intros; apply Hall; tauto)..|done| |left|by right].
  { unfold operations_hash in Eops. by rewrite <- !option_fmap_compose. }
  split; [by apply Hsame; [(intros; apply Hall; tauto)..|]|].
  split; [by apply Hsame; [(intros; apply Hall; tauto)..|]|].
  destruct (discriminator s1) as [d1|], (discriminator s2) as [d2|]; try discriminate Co; [|done].
  apply (inj Some) in Co. apply canonical_operations_inj in Co as [-> Co]. split; [done|]. intros _.
  by rewrite <- (merge_sort_Permutation oc_le (operations s1)), Co, merge_sort_Permutation.
Qed.
End Pins.

(** A platform for small examples: nothing is projected, text is not escaped. *)
Definition demo_platform : Platform :=
  {| sha256 := demo_sha256; to_string := demo_to_string; portable_input_schema_value := Some;
     portable_schema_value := Some; portable_schema_object := Some;
     root_property_names := λ v,
       match get "properties" v with Some (Object m) => m.*1 | _ => [] end;
     f64_exceeds := λ _ _, false |}.

Definition demo_facts (side_effects approval : bool) : ToolFacts :=
  {| tf_server := "mail"; tf_name := "send"; tf_risk := High; tf_side_effects := side_effects;
     tf_pii := false; tf_requires_approval := approval; tf_requires_approval_known := true |}.

Definition demo_snapshot (side_effects approval : bool) : InvocationToolSnapshot :=
  catalog_with_metadata_mode demo_platform (demo_facts side_effects approval) 7 "behavior-1"
    (Some (Object [("type", Str "object")])) None None None false false.

Lemma admitted_snapshots_are_well_formed_witness :
  let s := with_published_definition_and_task_support demo_platform (Some demo_tool) false
             (with_operation_classifications None []
               (with_inline_response_threshold_bytes (Some 65536)
                 (with_sensitive_input true
                   (manifest_fallback_with_contract_mode demo_platform (demo_facts false false) false None
                      (Some demo_input) None None None false false)))) in
  admitted demo_platform s ∧ snapshot_wf s.
Proof.
  intros s. assert (admitted demo_platform s) as H.
  { unfold s. repeat constructor. intros n [= <-]. reflexivity. }
  split; [exact H|]. apply (admitted_snapshots_are_well_formed demo_platform). exact H.
Defined.

Lemma contract_identity_pins_witness :
  let ops := [{| oc_value := "read"; oc_risk := Low; oc_side_effects := false; oc_pii := false |};
              {| oc_value := "move"; oc_risk := High; oc_side_effects := true; oc_pii := false |}] in
  let s1 := with_operation_classifications (Some "op") ops (demo_snapshot true true) in
  let s2 := with_operation_classifications (Some "op") (reverse ops) (demo_snapshot true true) in
  contract_identity demo_platform s1 = contract_identity demo_platform s2 ∧
  (operations s1 ≡ₚ operations s2 ∨
   collision (sha256 demo_platform) (digest_input demo_platform <$> hashed_parts s1 ++ hashed_parts s2)).
Proof.
  intros ops s1 s2. assert (contract_identity demo_platform s1 = contract_identity demo_platform s2) as E
    by (vm_compute; reflexivity). split; [exact E|].
  destruct (contract_identity_pins demo_platform s1 s2) as [_ [(_ & _ & _ & H)|H]]; [| | |exact E| |right; exact H].
  - intros id h [H|H]; injection H as <- <-; vm_compute; reflexivity.
  - unfold hashed_parts. simpl. repeat (constructor; [repeat (constructor; [apply (bool_decide_unpack _); vm_compute; reflexivity|]); repeat constructor; apply (bool_decide_unpack _); vm_compute; reflexivity|]). constructor.
  - intros v w Hv Hw. cbv [hashed_parts] in Hv, Hw. simpl in Hv, Hw.
    rewrite !elem_of_cons, elem_of_nil in Hv, Hw.
    destruct Hv as [->|[->|[]]], Hw as [->|[->|[]]]; intros; vm_compute; reflexivity.
  - left. apply H. discriminate.
Defined.

Lemma envelope_has_one_spelling_witness :
  let args := [("tool", Str "delete"); ("id", Str "7")] in
  ∃ r, normalize_envelope_field args ["operation_id"; "arguments"] "operation_id" selectors = Ok r ∧
       field "operation_id" r = Some (Str "delete") ∧
       (∀ k, k ≠ "operation_id" → ¬ hidden ["operation_id"; "arguments"] "operation_id" selectors k →
             field k r = field k args).
Proof.
  intros args. eexists. split; [vm_compute; reflexivity|].
  pose proof (envelope_has_one_spelling ["operation_id"; "arguments"] "operation_id" selectors args
    ltac:(apply (bool_decide_unpack _); reflexivity) ltac:(apply (bool_decide_unpack _); reflexivity)) as H.
  vm_compute normalize_envelope_field in H. destruct H as (_ & _ & _ & H). split; [reflexivity|exact H].
Defined.

End ToolSnapshot.
