(* ===== verification/ApprovalView.v ===== *)
(** * The approver's view of a held call

    Model of crates/waygate-mcp/src/approval_arguments.rs. The scanner for credential
    material ([inspection::secrets], regular expressions) is the parameter
    [redact_secrets]. *)

From Stdlib Require Import Ascii.
From S2P Require Import Prelude RustStr Json.

Module ApprovalView.
Import Json.Json.

Definition SENSITIVE_INPUT : string := "[REDACTED:SENSITIVE_INPUT]".
Definition SENSITIVE_FIELD : string := "[REDACTED:SENSITIVE_FIELD]".

(** The loop over the characters; a byte of a longer character is neither a separator nor
    a letter, so going byte by byte gives the same text. *)
Fixpoint normalize_bytes (previous_lower_or_digit : bool) (l : bytes) : bytes :=
  match l with
  | [] => []
  | ch :: l =>
      if bool_decide (ch = "-"%char) || bool_decide (ch = "."%char) then
        "_"%char :: normalize_bytes false l
      else
        let rest := to_ascii_lowercase_byte ch ::
                    normalize_bytes (is_ascii_lowercase ch || is_ascii_digit ch) l in
        if is_ascii_uppercase ch && previous_lower_or_digit then "_"%char :: rest else rest
  end.

Definition normalize_argument_key (key : string) : string :=
  of_bytes (normalize_bytes false (as_bytes key)).

Definition markers : list string :=
  ["authorization"; "password"; "passwd"; "secret"; "token"; "api_key"; "apikey"; "credential";
   "private_key"].

Definition sensitive_key (key : string) : bool :=
  let padded := "_" +:+ normalize_argument_key key +:+ "_" in
  existsb (λ marker, contains ("_" +:+ marker +:+ "_") padded) markers.

Fixpoint redact_sensitive_argument_keys (value : Value) : Value :=
  match value with
  | Array values => Array (redact_sensitive_argument_keys <$> values)
  | Object values =>
      Object ((λ '(key, value),
                 (key, if sensitive_key key then Str SENSITIVE_FIELD
                       else redact_sensitive_argument_keys value)) <$> values)
  | other => other
  end.

Section View.
Context (redact_secrets : Value → Value).

Definition redacted_arguments (arguments : Value) : Value :=
  redact_sensitive_argument_keys (redact_secrets arguments).

Definition approval_view (arguments : Value) (sensitive_input : bool) (schema_fields : list string)
  : Value :=
  if negb sensitive_input then redacted_arguments arguments
  else Object (foldl (λ m name, insert name (Str SENSITIVE_INPUT) m) []
                 (List.filter (λ name, bool_decide (is_Some (get name arguments))) schema_fields)).

Definition undisclosed_fields (arguments : Value) (sensitive_input : bool)
    (schema_fields : list string) : Z :=
  match as_object arguments with
  | None => 0
  | Some arguments =>
      if negb sensitive_input then 0
      else Z.min u32_max
             (Z.of_nat (length (List.filter (λ key, negb (bool_decide (key ∈ schema_fields))) arguments.*1)))
  end.

(** ** What the view shows *)

(** Nothing but the marker stands under a key that names credentials, at any depth. *)
Fixpoint masked (v : Value) : bool :=
  match v with
  | Array l => forallb masked l
  | Object m => forallb (λ '(k, w), if sensitive_key k then bool_decide (w = Str SENSITIVE_FIELD)
                                     else masked w) m
  | _ => true
  end.

(** No key names credentials, at any depth. *)
Fixpoint plain (v : Value) : bool :=
  match v with
  | Array l => forallb plain l
  | Object m => forallb (λ '(k, w), negb (sensitive_key k) && plain w) m
  | _ => true
  end.

Lemma redaction_masks v : masked (redact_sensitive_argument_keys v) = true.
Proof.
  induction v as [|b|t|x|l IH|m IH] using value_ind; simpl; try done.
  - induction IH as [|x l Hx _ IHl]; simpl; [done|]. by rewrite Hx.
  - induction IH as [|[k x] m Hx _ IHm]; [done|]. apply andb_true_iff. split; [|exact IHm].
    cbn beta iota. destruct (sensitive_key k); [by apply bool_decide_eq_true|done].
Qed.

Lemma plain_unchanged v : plain v = true → redact_sensitive_argument_keys v = v.
Proof.
  induction v as [|b|t|x|l IH|m IH] using value_ind; simpl; try done.
  - intros H. f_equal. induction IH as [|x l Hx _ IHl]; [done|].
    apply andb_true_iff in H as [H1 H2]. apply (f_equal2 cons); [by apply Hx|by apply IHl].
  - intros H. f_equal. induction IH as [|[k x] m Hx _ IHm]; [done|].
    simpl in H. bool_to_prop. apply (f_equal2 cons); [|by apply IHm].
    cbn beta iota. destruct (sensitive_key k); [done|]. f_equal. by apply Hx.
Qed.

Lemma insert_all_fresh (names : list string) v m :
  NoDup names → (∀ n, n ∈ names → n ∉ m.*1) →
  foldl (λ m n, insert n v m) m names = m ++ ((λ n, (n, v)) <$> names).
Proof.
  intros Hd. revert m. induction Hd as [|n names Hn Hd IH]; intros m Hm; simpl.
  { by rewrite app_nil_r. }
  assert (Hi : insert n v m = m ++ [(n, v)]).
  { assert (Hf : n ∉ m.*1) by (apply Hm; left). clear -Hf.
    induction m as [|[k x] m IHm]; simpl in *; [done|]. apply not_elem_of_cons in Hf as [Hk Hf].
    case_bool_decide; [congruence|]. by rewrite IHm. }
  rewrite Hi, IH.
  - by rewrite <- (assoc_L app).
  - intros k Hk. rewrite fmap_app, not_elem_of_app. split; [apply Hm; by right|].
    simpl. rewrite list_elem_of_singleton. by intros ->.
Qed.

Lemma contains_get name args : bool_decide (is_Some (get name (Object args))) = bool_decide (name ∈ args.*1).
Proof.
  apply bool_decide_ext. simpl. unfold field. rewrite fmap_is_Some.
  split.
  - intros [kv Hf]. apply find_first_Some in Hf as [Hin Hk]. cbn beta in Hk.
    apply bool_decide_eq_true in Hk as <-. by apply list_elem_of_fmap_2.
  - intros ([k v] & Hk & Hin)%list_elem_of_fmap. simpl in Hk. subst k.
    destruct (find_first (λ kv : string * Value, bool_decide (kv.1 = name)) args) as [kv|] eqn:E; [eauto|].
    apply find_first_None in E. rewrite Forall_forall in E. apply E in Hin. simpl in Hin.
    by apply bool_decide_eq_false in Hin.
Qed.

(** Declared and submitted names, counted from either side. *)
Lemma declared_submitted (keys fields : list string) : NoDup keys → NoDup fields →
  length (List.filter (λ n, bool_decide (n ∈ keys)) fields) =
  length (List.filter (λ n, bool_decide (n ∈ fields)) keys).
Proof.
  intros Hk Hf. apply Permutation_length, NoDup_Permutation.
  - by apply NoDup_ListNoDup, List.NoDup_filter, NoDup_ListNoDup.
  - by apply NoDup_ListNoDup, List.NoDup_filter, NoDup_ListNoDup.
  - intros n. rewrite !list_elem_of_In, !filter_In, !bool_decide_eq_true, <- !list_elem_of_In. naive_solver.
Qed.

Lemma filter_partition (f : string → bool) (l : list string) :
  (length (List.filter f l) + length (List.filter (λ n, negb (f n)) l))%nat = length l.
Proof. induction l as [|x l IH]; simpl; [done|]. destruct (f x); simpl; lia. Qed.

End View.

(** The approver is shown every submitted field or told how many are withheld. For
    sensitive input the view carries only the fixed marker, one entry per declared field
    that was submitted, and those entries together with the undisclosed count are all the
    submitted fields. Otherwise no value stands under a key that names credentials at any
    depth, nothing is undisclosed, and arguments without such keys and without recognized
    secrets are shown in full. *)
Theorem approver_view_is_accounted (redact_secrets : Value → Value) (args : list (string * Value))
    (fields : list string)
    (Hargs : NoDup args.*1) (Hfields : NoDup fields) (Hsize : Z.of_nat (length args) ≤ u32_max) :
  (∃ view, approval_view redact_secrets (Object args) true fields = Object view ∧
     Forall (λ kv, kv.2 = Str SENSITIVE_INPUT) view ∧
     (∀ k, k ∈ view.*1 ↔ k ∈ fields ∧ k ∈ args.*1) ∧
     Z.of_nat (length view) + undisclosed_fields (Object args) true fields = Z.of_nat (length args)) ∧
  masked (approval_view redact_secrets (Object args) false fields) = true ∧
  undisclosed_fields (Object args) false fields = 0 ∧
  (plain (Object args) = true → redact_secrets (Object args) = Object args →
   approval_view redact_secrets (Object args) false fields = Object args).
Proof.
  split_and!; [|apply redaction_masks|done|].
  - unfold approval_view, undisclosed_fields. cbn [negb as_object].
    set (shown := List.filter _ fields).
    assert (Hshown : shown = List.filter (λ n, bool_decide (n ∈ args.*1)) fields).
    { apply List.filter_ext. intros n. apply contains_get. }
    assert (Hnd : NoDup shown).
    { rewrite Hshown. by apply NoDup_ListNoDup, List.NoDup_filter, NoDup_ListNoDup. }
    rewrite insert_all_fresh by (done || (intros n _; apply not_elem_of_nil)). eexists. split; [done|].
    rewrite app_nil_l. split_and!.
    + apply Forall_fmap, Forall_true. done.
    + intros k. rewrite <- list_fmap_compose, list_fmap_id, Hshown.
      rewrite list_elem_of_In, filter_In, bool_decide_eq_true, <- list_elem_of_In. done.
    + rewrite length_fmap, Hshown, declared_submitted by done.
      pose proof (filter_partition (λ n, bool_decide (n ∈ fields)) args.*1) as Hp.
      rewrite length_fmap in Hp. lia.
  - intros Hp Hs. unfold approval_view, redacted_arguments. simpl negb. cbn iota. rewrite Hs.
    by apply plain_unchanged.
Qed.

Lemma approver_view_is_accounted_witness :
  approval_view id (Object [("selector", Str "#id"); ("extra", Null)]) true ["selector"; "unused"]
    = Object [("selector", Str SENSITIVE_INPUT)] ∧
  masked (approval_view id (Object [("clientSecret", Str "x"); ("region", Str "us")]) false []) = true ∧
  approval_view id (Object [("clientSecret", Str "x"); ("region", Str "us")]) false []
    = Object [("clientSecret", Str SENSITIVE_FIELD); ("region", Str "us")].
Proof.
  split; [vm_compute; reflexivity|]. split; [|vm_compute; reflexivity].
  apply (approver_view_is_accounted id [("clientSecret", Str "x"); ("region", Str "us")] []);
    [apply (bool_decide_unpack _); vm_compute; exact I|constructor|vm_compute; discriminate].
Defined.

End ApprovalView.
