(* ===== verification/Validation.v ===== *)
(** * Schema violations without payloads

    Model of the reason strings of crates/waygate-mcp/src/invocation/validation.rs.
    jsonschema's [ValidationError] is the kind of the failed rule with its
    schema-side data, the path of the rule, and the errors of the variants of a
    union; printing a JSON value, a number limit or a type is a parameter. *)

From S2P Require Import Prelude RustStr Json.
From Stdlib Require Import Ascii.

Module Validation.
Import Json.Json.

#[warnings="-register-all"]
Inductive ValidationError := VError (kind : ErrorKind) (schema_path : string)
with ErrorKind :=
  | Minimum (limit : Value) | Maximum (limit : Value)
  | ExclusiveMinimum (limit : Value) | ExclusiveMaximum (limit : Value)
  | MinItems (limit : Value) | MaxItems (limit : Value)
  | MinLength (limit : Value) | MaxLength (limit : Value)
  | MinProperties (limit : Value) | MaxProperties (limit : Value)
  | Enum (options : Value)
  | Constant (expected : Value)
  | AdditionalProperties
  | OneOfNotValid (context : list (list ValidationError))
  | AnyOf (context : list (list ValidationError))
  | OneOfMultipleValid (context : list (list ValidationError))
  | Pattern
  | Required (property : Value)
  | TypeMismatch (expected : string)
  | OtherKind.

Definition schema_path (e : ValidationError) : string := match e with VError _ p => p end.
Definition error_kind (e : ValidationError) : ErrorKind := match e with VError k _ => k end.

Definition MAX_LISTED : nat := 12.

Fixpoint join (sep : string) (items : list string) : string :=
  match items with
  | [] => ""
  | [x] => x
  | x :: items => x +:+ sep +:+ join sep items
  end.

Definition render_list (items : list string) : string :=
  let body := join ", " (take MAX_LISTED items) in
  if (MAX_LISTED <? length items)%nat then body +:+ ", and more" else body.

(** [path.rsplit_once('/')]: the part before the last slash. *)
Definition parent_path (path : string) : string :=
  match split_once "/"%char (of_bytes (reverse (as_bytes path))) with
  | Some (_, head) => of_bytes (reverse (as_bytes head))
  | None => ""
  end.

Section Reason.
Context (show : Value → string) (pointer_path : string → Value → option Value) (show_index : nat → string).

Definition declared_properties (e : ValidationError) (schema : option Value) : option string :=
  schema ← schema;
  let parent := parent_path (schema_path e) in
  node ← (if is_empty parent then Some schema else pointer_path parent schema);
  properties ← (get "properties" node ≫= as_object);
  match properties with
  | [] => None
  | _ => Some (render_list ((λ kv, "`" +:+ kv.1 +:+ "`") <$> properties))
  end.

(** The label of a rule; [failures] renders the variants of a union, when they are shown. *)
Definition label (failures : option (list (list ValidationError) → string)) (e : ValidationError)
    (schema : option Value) : string :=
  match error_kind e with
  | Minimum l => "value below minimum " +:+ show l
  | Maximum l => "value above maximum " +:+ show l
  | ExclusiveMinimum l => "value not above exclusive minimum " +:+ show l
  | ExclusiveMaximum l => "value not below exclusive maximum " +:+ show l
  | MinItems l => "fewer items than the minimum " +:+ show l
  | MaxItems l => "more items than the maximum " +:+ show l
  | MinLength l => "shorter than the minimum length " +:+ show l
  | MaxLength l => "longer than the maximum length " +:+ show l
  | MinProperties l => "fewer properties than the minimum " +:+ show l
  | MaxProperties l => "more properties than the maximum " +:+ show l
  | Enum options =>
      match as_array options with
      | Some values => "value is not one of the permitted values: " +:+ render_list (show <$> values)
      | None => "value is not one of the permitted values"
      end
  | Constant v => "value does not equal the required constant " +:+ show v
  | AdditionalProperties =>
      match declared_properties e schema with
      | Some accepted => "unexpected property; accepted properties are " +:+ accepted
      | None => "unexpected property"
      end
  | OneOfNotValid context | AnyOf context =>
      match failures with
      | Some render => "value matches none of the permitted variants; " +:+ render context
      | None => "value matches none of the permitted variants"
      end
  | OneOfMultipleValid context =>
      "value matches more than one permitted variant: " +:+
      render_list (omap (λ '(i, errors), match errors with
                                         | [] => Some ("variant " +:+ show_index i)
                                         | _ => None
                                         end) (imap pair context))
  | Pattern => "pattern mismatch"
  | Required (Str s) => "required field `" +:+ s +:+ "` is missing"
  | Required _ => "required field is missing"
  | TypeMismatch expected => "type mismatch (expected " +:+ expected +:+ ")"
  | OtherKind => "validation failure"
  end.

Definition with_path (text : string) (e : ValidationError) : string :=
  text +:+ " (schema rule `" +:+ schema_path e +:+ "`)".

(** [validation_reason] with [include_variants] false, and true. *)
Definition flat_reason (e : ValidationError) (schema : option Value) : string :=
  with_path (label None e schema) e.

Definition validation_reason (e : ValidationError) (schema : option Value) : string :=
  let failures context :=
    render_list (omap (λ '(i, errors), (λ first, "variant " +:+ show_index i +:+ ": " +:+ flat_reason first schema)
                                         <$> head errors) (imap pair context)) in
  with_path (label (Some failures) e schema) e.

Definition sanitize_validation_error : ValidationError → option Value → string := validation_reason.

End Reason.

End Validation.
