(* ===== verification/Continuation.v ===== *)
(** * Sealed continuation state

    Model of crates/waygate-mcp/src/invocation/continuation.rs and of the expiry check
    of waygate-oidc's [session::decrypt]. The authenticated encryption is a parameter:
    [unseal] decodes what the deployment's key authenticates. *)

From S2P Require Import Prelude RustStr Json Facts.

Module Continuation.
Import Json.Json Facts.Facts.

Inductive InputRequest :=
  | Elicitation (v : Value)
  | CreateMessage (v : Value)
  | ListRoots (v : Value)
  | UnknownRequest (v : Value).

Definition is_elicitation (r : InputRequest) : bool := match r with Elicitation _ => true | _ => false end.

Record CallIdentity := {
  id_server : string;
  id_tool : string;
  id_digest : string;
  id_contract : string;
}.

Record SealedContinuation := {
  sc_sub : string;
  sc_iss : string;
  sc_tenant : string;
  sc_server : string;
  sc_tool : string;
  sc_args : string;
  sc_contract : string;
  sc_exp : Z;
  sc_keys : list string;
  sc_file_keys : list string;
  sc_inner : option string;
}.

Record VerifiedContinuation := {
  upstream_state : option string;
  verified_keys : list string;
}.

Inductive ContinuationError := Unverifiable | NotForThisRequest.

Definition CONTINUATION_TTL_SECONDS : Z := 30 * 60.

Definition issued_keys (input_requests : option (list (string * InputRequest)))
  : list string * list string :=
  match input_requests with
  | None => ([], [])
  | Some requests =>
      (requests.*1, (List.filter (λ kr, is_elicitation kr.2) requests).*1)
  end.

(** The claims [seal] encrypts, at [now_unix]. *)
Definition seal_claims (now : Z) (p : Principal Value) (call : CallIdentity)
    (input_requests : option (list (string * InputRequest))) (upstream_state : option string)
  : SealedContinuation :=
  let '(keys, file_keys) := issued_keys input_requests in
  {| sc_sub := sub p; sc_iss := issuer p; sc_tenant := tenant p; sc_server := id_server call;
     sc_tool := id_tool call; sc_args := id_digest call; sc_contract := id_contract call;
     sc_exp := now + CONTINUATION_TTL_SECONDS; sc_keys := keys; sc_file_keys := file_keys;
     sc_inner := upstream_state |}.

(** [session::decrypt]: authentic claims that have not expired. *)
Definition decrypt (unseal : string → option SealedContinuation) (now : Z) (sealed : string)
  : option SealedContinuation :=
  claims ← unseal sealed;
  if sc_exp claims <? now then None else Some claims.

Definition bound_to (claims : SealedContinuation) (p : Principal Value) (call : CallIdentity) : bool :=
  bool_decide (sc_sub claims = sub p) && bool_decide (sc_iss claims = issuer p) &&
  bool_decide (sc_tenant claims = tenant p) && bool_decide (sc_server claims = id_server call) &&
  bool_decide (sc_tool claims = id_tool call) && bool_decide (sc_args claims = id_digest call) &&
  bool_decide (sc_contract claims = id_contract call).

(** [ContinuationSealer::open], given what the envelope decrypts to. *)
Definition open_claims (decrypted : option SealedContinuation) (p : Principal Value)
    (call : CallIdentity) (answered_keys : list string)
  : result VerifiedContinuation ContinuationError :=
  match decrypted with
  | None => Err Unverifiable
  | Some claims =>
      if negb (bound_to claims p call) then Err NotForThisRequest
      else if negb (forallb (λ k, bool_decide (k ∈ sc_keys claims)) answered_keys)
      then Err NotForThisRequest
      else Ok {| upstream_state := sc_inner claims; verified_keys := sc_file_keys claims |}
  end.

Definition open (unseal : string → option SealedContinuation) (now : Z) (p : Principal Value)
    (call : CallIdentity) (sealed : string) (answered_keys : list string)
  : result VerifiedContinuation ContinuationError :=
  open_claims (decrypt unseal now sealed) p call answered_keys.

(** ** Theorems *)

Lemma issued_file_keys rs k :
  k ∈ (issued_keys rs).2 ↔ ∃ v, (k, Elicitation v) ∈ default [] rs.
Proof.
  destruct rs as [rs|]; simpl; [|set_solver]. rewrite list_elem_of_fmap. split.
  - intros ([k' r] & -> & Hin). apply list_elem_of_In, filter_In in Hin as [Hin He].
    rewrite <- list_elem_of_In in Hin. destruct r; try done. eauto.
  - intros (v & Hin). exists (k, Elicitation v). split; [done|].
    apply list_elem_of_In, filter_In. by rewrite <- list_elem_of_In.
Qed.

Lemma issued_all_keys rs : (issued_keys rs).1 = (default [] rs).*1.
Proof. by destruct rs. Qed.

(** Who sealed what: a pause relayed to a principal for a call. *)
Record Pause := {
  relayed_at : Z;
  relayed_to : Principal Value;
  relayed_for : CallIdentity;
  asked : option (list (string * InputRequest));
  upstream : option string;
}.

Definition claims_of (e : Pause) : SealedContinuation :=
  seal_claims (relayed_at e) (relayed_to e) (relayed_for e) (asked e) (upstream e).

Definition same_caller (p q : Principal Value) : Prop :=
  sub p = sub q ∧ issuer p = issuer q ∧ tenant p = tenant q.

(** C31. A continuation is accepted exactly for the call it was issued for. With an
    envelope that opens only to claims the gateway sealed, presented state is
    accepted just when it stems from a pause relayed to the same subject, issuer
    and tenant, for the same server, tool, contract and argument digest, at most
    thirty minutes ago, and every answered key was asked by that pause. The
    upstream gets back exactly its own state, and files may be delivered only
    under keys the pause asked by elicitation. *)
Theorem continuation_only_for_its_call (unseal : string → option SealedContinuation)
    (pauses : list Pause) now p call sealed answered :
  (∀ c, unseal sealed = Some c → ∃ e, e ∈ pauses ∧ claims_of e = c) →
  let accepts e :=
    unseal sealed = Some (claims_of e) ∧ same_caller (relayed_to e) p ∧ relayed_for e = call ∧
    now ≤ relayed_at e + CONTINUATION_TTL_SECONDS ∧
    Forall (λ k, k ∈ (default [] (asked e)).*1) answered in
  match open unseal now p call sealed answered with
  | Ok v => ∃ e, e ∈ pauses ∧ accepts e ∧ upstream_state v = upstream e ∧
                 ∀ k, k ∈ verified_keys v ↔ ∃ q, (k, Elicitation q) ∈ default [] (asked e)
  | Err _ => ∀ e, e ∈ pauses → ¬ accepts e
  end.
Proof.
  intros Hauth accepts. unfold open, decrypt.
  destruct (unseal sealed) as [c|] eqn:Hu; cbn [mbind option_bind].
  2:{ by intros e _ (? & _). }
  destruct (Hauth c eq_refl) as (e & He & Hc).
  assert (∀ e', accepts e' → claims_of e' = c) as Hsame by (intros e' ([= ->] & _); done).
  destruct (sc_exp c <? now) eqn:Hexp.
  { intros e' _ Ha. pose proof (Hsame _ Ha) as Hc'. destruct Ha as (_ & _ & _ & Hle & _).
    apply Z.ltb_lt in Hexp. rewrite <- Hc' in Hexp. unfold claims_of, seal_claims in Hexp.
    destruct (issued_keys _). simpl in Hexp. lia. }
  cbn [open_claims]. destruct (bound_to c p call) eqn:Hb; cbn [negb].
  2:{ intros e' _ Ha. pose proof (Hsame _ Ha) as Hc'. destruct Ha as (_ & (H1 & H2 & H3) & H4 & _).
      rewrite <- Hc', <- H4, <- not_true_iff_false in Hb. apply Hb. unfold bound_to, claims_of, seal_claims.
      destruct (issued_keys _). simpl. rewrite H1, H2, H3. by rewrite !bool_decide_eq_true_2. }
  assert (∀ e', claims_of e' = c → sc_keys c = (default [] (asked e')).*1) as Hkeys.
  { intros e' <-. unfold claims_of, seal_claims. rewrite <- issued_all_keys. by destruct (issued_keys _). }
  destruct (forallb _ answered) eqn:Hk; cbn [negb].
  2:{ intros e' _ Ha. pose proof (Hsame _ Ha) as Hc'. destruct Ha as (_ & _ & _ & _ & Hall).
      rewrite <- not_true_iff_false in Hk. apply Hk. apply forallb_forall. intros k Hin.
      apply bool_decide_eq_true. rewrite (Hkeys _ Hc'). rewrite Forall_forall in Hall. apply Hall.
      by rewrite list_elem_of_In. }
  exists e. split; [done|]. unfold bound_to in Hb. bool_to_prop.
  assert (sc_inner c = upstream e ∧ sc_file_keys c = (issued_keys (asked e)).2 ∧
          sc_exp c = relayed_at e + CONTINUATION_TTL_SECONDS ∧ sc_sub c = sub (relayed_to e) ∧
          sc_iss c = issuer (relayed_to e) ∧ sc_tenant c = tenant (relayed_to e) ∧
          relayed_for e = {| id_server := sc_server c; id_tool := sc_tool c; id_digest := sc_args c;
                             id_contract := sc_contract c |}) as (Hi & Hf & Hx & Hs & Hss & Ht & Hcall).
  { rewrite <- Hc. unfold claims_of, seal_claims. destruct (issued_keys _). simpl.
    split_and!; try done. by destruct (relayed_for e). }
  split; [|simpl; split; [done|intros k; rewrite Hf; apply issued_file_keys]].
  split_and!; [by rewrite Hc| | |lia|].
  - unfold same_caller. split_and!; congruence.
  - rewrite Hcall. destruct call. simpl in *. congruence.
  - rewrite Forall_forall. intros k Hin. rewrite <- (Hkeys e Hc).
    rewrite forallb_forall in Hk. specialize (Hk k). rewrite <- list_elem_of_In in Hk.
    specialize (Hk Hin). cbn beta in Hk. by apply bool_decide_eq_true in Hk.
Qed.

Definition demo_principal (who : string) : Principal Value :=
  {| sub := who; email := None; groups := []; issuer := "https://auth.test"; scopes := [];
     tenant := "default"; auth_method := Oauth; raw_token := None; scim := None;
     enrichment_blocked := None; roles := []; api_key_profile_restrictions := None |}.

Lemma continuation_only_for_its_call_witness :
  let call := {| id_server := "docs"; id_tool := "upload"; id_digest := "d0"; id_contract := "c0" |} in
  let e := {| relayed_at := 1000; relayed_to := demo_principal "alice"; relayed_for := call;
              asked := Some [("file", Elicitation Null); ("roots", ListRoots Null)];
              upstream := Some "opaque" |} in
  let unseal s := if bool_decide (s = "sealed") then Some (claims_of e) else None in
  open unseal 1010 (demo_principal "alice") call "sealed" ["file"] =
    Ok {| upstream_state := Some "opaque"; verified_keys := ["file"] |} ∧
  open unseal 1010 (demo_principal "mallory") call "sealed" ["file"] = Err NotForThisRequest ∧
  ∃ e', e' ∈ [e] ∧ relayed_for e' = call.
Proof.
  intros call e unseal. split; [vm_compute; reflexivity|]. split; [vm_compute; reflexivity|].
  pose proof (continuation_only_for_its_call unseal [e] 1010 (demo_principal "alice") call "sealed" ["file"]) as H.
  destruct H as (e' & He & (_ & _ & Hc & _) & _).
  - intros c Hc. exists e. split; [left|]. vm_compute in Hc |- *. congruence.
  - exists e'. done.
Defined.

End Continuation.
