(* ===== verification/InvocationTypes.v ===== *)
(** * Requests, errors and responses of an invocation

    Model of the types of crates/waygate-invocation/src/lib.rs, of the task routes of
    crates/waygate-invocation/src/task_routes.rs and of the values the pipeline exchanges
    with its collaborators. rmcp types are records of the members the gateway
    reads. *)

From S2P Require Import Prelude RustStr HashChain Json Facts CountBounds ToolSnapshot Continuation.

Module InvocationTypes.
Import HashChain.HashChain(Uuid, InvocationHierarchy).
Export Json.Json Facts.Facts CountBounds.CountBounds ToolSnapshot.ToolSnapshot.
Export Continuation.Continuation.

(** ** Errors *)

Record ErrorData := {
  code : Z;
  message : string;
  data : option Value;
}.

Definition internal_error (m : string) (d : option Value) : ErrorData :=
  {| code := -32603; message := m; data := d |}.
Definition invalid_params (m : string) (d : option Value) : ErrorData :=
  {| code := -32602; message := m; data := d |}.

Inductive InvocationError :=
  | EInvalidArguments (m : string)
  | EInputSchemaViolation (tool reason : string)
  | EInputSchemaInvalid (tool : string)
  | EReadOnlyRequired (tool : string)
  | EReadOnlyOperationRequired (tool discriminator operation : string)
  | EForbidden (reason : string) (policy_ids reasons : list string) (trace_id : option string)
  | EToolUnavailable (tool trace_id : string)
  | EStepUpRequired (required_scope reason : string)
  | EUpstream (e : ErrorData)
  | EAuditUnavailable (m : string)
  | EApprovalRequired (tool reason : string) (satisfiable : bool)
  | ERateLimited (policy_id : uuid) (policy_name : string) (retry_after_seconds : Z)
  | EProfileServerNotAllowed (profile_id profile_name server : string)
  | EProfileToolNotAllowed (profile_id profile_name tool : string)
  | EOutputSchemaViolation (tool reason : string)
  | EToolSchemaInvalid (tool : string)
  | EResponseInspectionBlocked (tool inspector_name reason : string)
  | EResponseMaterializationLimit (tool : string) (minimum_response_bytes limit_bytes : Z)
  | EBudgetExceeded (dimension reason : string).

Definition error_kind (e : InvocationError) : string :=
  match e with
  | EInvalidArguments _ => "invalid_arguments"
  | EInputSchemaViolation _ _ => "input_schema_violation"
  | EInputSchemaInvalid _ => "input_schema_invalid"
  | EReadOnlyRequired _ => "read_only_required"
  | EReadOnlyOperationRequired _ _ _ => "read_only_operation_required"
  | EForbidden _ _ _ _ => "forbidden"
  | EToolUnavailable _ _ => "tool_unavailable"
  | EStepUpRequired _ _ => "step_up_required"
  | EUpstream _ => "upstream"
  | EAuditUnavailable _ => "audit_unavailable"
  | EApprovalRequired _ _ _ => "approval_required"
  | ERateLimited _ _ _ => "rate_limited"
  | EProfileServerNotAllowed _ _ _ => "profile_restricts_server"
  | EProfileToolNotAllowed _ _ _ => "profile_restricts_tool"
  | EOutputSchemaViolation _ _ => "output_schema_violation"
  | EToolSchemaInvalid _ => "tool_schema_invalid"
  | EResponseInspectionBlocked _ _ _ => "response_inspection_blocked"
  | EResponseMaterializationLimit _ _ _ => "connector_result_too_large"
  | EBudgetExceeded _ _ => "budget_exceeded"
  end.

(** ** Requests *)

Inductive InvocationMode := Unrestricted | ReadOnly.
Inductive ResponseDelivery := DeliverFile | Materialize.

#[export] Instance InvocationMode_eq_dec : EqDecision InvocationMode.
Proof. solve_decision. Defined.
#[export] Instance ResponseDelivery_eq_dec : EqDecision ResponseDelivery.
Proof. solve_decision. Defined.

Record InvocationApprovalBinding := {
  execution_id : Uuid;
  source_digest : string;
  ab_call_id : Uuid;
}.

(** rmcp's [ClientCapabilities]: whether elicitation is declared, and the extensions. *)
Record ClientCapabilities := {
  elicitation : bool;
  extensions : option (list (string * Value));
}.

Record InvocationRequest := {
  rq_server : string;
  rq_tool : string;
  rq_arguments : option (list (string * Value));
  rq_metadata : gmap string string;
  rq_mode : InvocationMode;
  rq_expected_contract : option InvocationContractIdentity;
  rq_hierarchy : option InvocationHierarchy;
  rq_approval_binding : option InvocationApprovalBinding;
  rq_materialization_limit_bytes : option Z;
  rq_response_delivery : ResponseDelivery;
  rq_input_responses : option (list (string * Value));
  rq_request_state : option string;
  rq_caller_capabilities : option ClientCapabilities;
  rq_dispatch_admission : bool;
}.

Definition ACTING_AGENT_METADATA_KEY : string := "acting_agent".

Definition acting_agent (r : InvocationRequest) : option string := rq_metadata r !! ACTING_AGENT_METADATA_KEY.

Record AdmittedDispatch := {
  ad_side_effects : bool;
  ad_contract : InvocationContractIdentity;
}.

(** ** Upstream responses *)

Record InputRequiredResult := {
  input_requests : option (list (string * InputRequest));
  request_state : option string;
  pause_meta : option (list (string * Value));
}.

Record Task := {
  task_id : string;
  created_at : string;
  task_ttl_ms : option Z;
  task_rest : Value;
}.

Record CreateTaskResult := {
  created_task : Task;
  created_meta : option (list (string * Value));
}.

Inductive CallToolResponse :=
  | Complete (r : CallToolResult)
  | PausedFor (p : InputRequiredResult)
  | TaskCreated (t : CreateTaskResult)
  | OtherResponse.

Inductive InvocationResponse :=
  | Unary (r : CallToolResult)
  | TaskEnvelope (t : CreateTaskResult)
  | InputRequired (p : InputRequiredResult)
  | ModelResponse (v : Value).

Definition success (c : list ContentBlock) : CallToolResult :=
  {| content := c; structured_content := None; is_error := Some false; meta := None; result_type := None |}.

(** ** Approval notification *)

Record ApprovalSummary := {
  as_description : option string;
  affected_fields : list string;
}.

Record HitlApprovalNeeded := {
  pending_request_id : option uuid;
  hn_summary : ApprovalSummary;
  hn_tenant_id : string;
  hn_principal_sub : string;
  hn_principal_issuer : string;
  hn_server : string;
  hn_tool : string;
  hn_argument_hash : string;
  hn_behavior_hash : string;
}.

(** ** Task routes *)

Record TaskRoute := {
  tr_sub : string;
  tr_issuer : string;
  tr_tenant : string;
  tr_profile : Value;
  tr_auth_method : string;
  tr_server : string;
  tr_tool : string;
  tr_upstream_id : string;
  tr_binding : string;
  tr_contract : InvocationContractIdentity;
  tr_operation_arguments : list (string * Value);
  tr_request_facts : RequestFacts;
  tr_created_at : string;
  tr_ttl_ms : Z;
  tr_exp : Z;
}.

(** [sort] and [dedup] of a list of names. *)
Definition sorted_names (l : option (list string)) : Value :=
  Array (Str <$> merge_sort str_le (remove_dups (default [] l))).

Definition profile (p : Principal Value) : Value :=
  match api_key_profile_restrictions p with
  | None => Null
  | Some r => Object [("profile_id", Str (profile_id r)); ("servers", sorted_names (allowed_servers r));
                      ("tools", sorted_names (allowed_tools r))]
  end.

Definition belongs_to (r : TaskRoute) (p : Principal Value) : bool :=
  bool_decide (tr_sub r = sub p) && bool_decide (tr_issuer r = issuer p) &&
  bool_decide (tr_tenant r = tenant p) && value_eq (tr_profile r) (profile p) &&
  bool_decide (tr_auth_method r = auth_method_as_str (auth_method p)).

Definition new_route (p : Principal Value) (server tool binding : string)
    (contract : InvocationContractIdentity) (operation_arguments : list (string * Value))
    (request_facts : RequestFacts) : TaskRoute :=
  {| tr_sub := sub p; tr_issuer := issuer p; tr_tenant := tenant p; tr_profile := profile p;
     tr_auth_method := auth_method_as_str (auth_method p); tr_server := server; tr_tool := tool;
     tr_upstream_id := ""; tr_binding := binding; tr_contract := contract;
     tr_operation_arguments := operation_arguments; tr_request_facts := request_facts;
     tr_created_at := ""; tr_ttl_ms := 0; tr_exp := 0 |}.

End InvocationTypes.
