(* ===== verification/Retained.v ===== *)
(** * Retained connector responses

    Model of the pure part of crates/waygate-mcp/src/invocation/retained_response.rs and
    of crates/waygate-mcp/src/retained_delivery.rs: recognizing an out-of-line body,
    putting the recovered body in its place, and the envelope that tells a caller
    where the body went. Printing and parsing JSON and base64 are parameters. *)

From S2P Require Import Prelude RustStr InvocationTypes.
From Stdlib Require Import Ascii.

Module Retained.
Import InvocationTypes.InvocationTypes.

Definition RECOVERY_FAILED_ERROR : string := "retained_response_recovery_failed".
Definition MAX_RETAINED_BODY_BYTES : Z := 16 * 1024 * 1024.
Definition RETAINED_DELIVERY_META_KEY : string := "io.cacahuate.mcp-gateway/retained-delivery".
Definition FIELD : string := "_gateway_delivery".
Definition PREVIEW_FIELD : string := "_gateway_preview".

Record RetainedResponse := {
  rr_uri : string;
  declared_bytes : Z;
  operation_id : string;
  media_type : string;
}.

Inductive RetainedResponseError :=
  | InvalidEnvelope | UnexpectedContents | ResourceIdentityChanged | SizeChanged
  | MaterializationLimit (response_bytes : Z) | InvalidJsonBody.

Definition retained_error_text (e : RetainedResponseError) : string :=
  match e with
  | InvalidEnvelope => "retained connector response envelope is invalid"
  | UnexpectedContents => "retained connector response did not resolve to exactly one resource"
  | ResourceIdentityChanged => "retained connector response resolved to a different resource identity"
  | SizeChanged => "retained connector response size changed before it was recovered"
  | MaterializationLimit _ => "retained connector response exceeds the caller materialization budget"
  | InvalidJsonBody => "retained JSON connector response does not contain valid JSON"
  end.

Definition recovery_error (target : RetainedResponse) (reason : string) : InvocationError :=
  EUpstream (internal_error
    ("retained connector response for operation `" +:+ operation_id target +:+ "` at `" +:+
     rr_uri target +:+ "` could not be recovered")
    (Some (Object [("error", Str reason); ("operation_id", Str (operation_id target));
                   ("resource_uri", Str (rr_uri target))]))).

Definition recovery_failure (target : RetainedResponse) : InvocationError :=
  recovery_error target RECOVERY_FAILED_ERROR.

(** The [error] member of an error's data. *)
Definition error_label (e : ErrorData) : option string := data e ≫= λ d, get "error" d ≫= as_str.

Definition is_recovery_failure (e : ErrorData) : bool :=
  match error_label e with
  | Some l => bool_decide (l ∈ [RECOVERY_FAILED_ERROR; "retained_response_resource_unavailable";
                                "bounded_resource_read_unsupported"])
  | None => false
  end.

(** ** Recognition *)

Definition is_bool (b : bool) (v : option Value) : bool := bool_decide ((v ≫= as_bool) = Some b).

Definition http_envelope (root : list (string * Value)) : bool :=
  is_bool true (field "success" root) &&
  from_option (λ s, (200 <=? s) && (s <? 300)) false (field "status" root ≫= as_u64) &&
  bool_decide (is_Some (field "content_type" root ≫= as_str)) &&
  bool_decide (is_Some (field "headers" root ≫= as_object)) &&
  bool_decide (is_Some (field "operation_id" root ≫= as_str)) &&
  negb (contains_key "data" root).

Definition nonempty_str (v : option Value) : option string :=
  match v ≫= as_str with Some s => if is_empty s then None else Some s | None => None end.

Definition recognize (r : CallToolResult) : result (option RetainedResponse) RetainedResponseError :=
  if bool_decide (is_error r = Some true) then Ok None
  else match structured_content r ≫= as_object with
  | None => Ok None
  | Some root =>
      if negb (http_envelope root) then Ok None
      else match field "payload" root ≫= as_object with
      | None => Ok None
      | Some payload =>
          if negb (is_bool false (field "inlined" payload) && is_bool true (field "retained" payload))
          then Ok None
          else match nonempty_str (field "resource_uri" payload), field "bytes" payload ≫= as_u64,
                     nonempty_str (field "media_type" payload), field "operation_id" root ≫= as_str with
               | Some uri, Some n, Some mt, Some op =>
                   Ok (Some {| rr_uri := uri; declared_bytes := n; operation_id := op; media_type := mt |})
               | _, _, _, _ => Err InvalidEnvelope
               end
      end
  end.

Definition is_json_media_type (mt : string) : bool :=
  let essence := to_ascii_lowercase (trim (match split_once ";"%char mt with
                                           | Some (e, _) => e
                                           | None => mt
                                           end)) in
  bool_decide (essence = "application/json") ||
  (starts_with "application/" essence && ends_with "+json" essence).

(** ** Recovery *)

Inductive ResourceContents :=
  | TextResource (uri text : string)
  | BlobResource (uri blob : string)
  | OtherResource.

Record RecoveredResponse := {
  target : RetainedResponse;
  original : CallToolResult;
  body_bytes : bytes;
  body_value : Value;
  binary : bool;
  file_delivery : bool;
}.

Section Recovery.
Context (to_string : Value → string) (from_str : string → option Value)
        (base64_decode : string → option bytes) (show_u64 : Z → string).

Definition resource_bytes (contents : list ResourceContents) : result bytes RetainedResponseError :=
  match contents with
  | [TextResource _ text] => Ok (as_bytes text)
  | [BlobResource _ blob] =>
      match base64_decode blob with Some b => Ok b | None => Err UnexpectedContents end
  | _ => Err UnexpectedContents
  end.

Definition is_blob (contents : list ResourceContents) : bool :=
  match contents with BlobResource _ _ :: _ => true | _ => false end.

Definition hydrate (r : CallToolResult) (target : RetainedResponse) (contents : list ResourceContents)
    (limit_bytes : Z) : result CallToolResult RetainedResponseError :=
  match contents with
  | [TextResource _ _ as content] | [BlobResource _ _ as content] =>
      let '(uri, text, binary) := match content with
                                  | BlobResource uri blob => (uri, blob, true)
                                  | TextResource uri text => (uri, text, false)
                                  | OtherResource => ("", "", false)
                                  end in
      if negb (bool_decide (uri = rr_uri target)) then Err ResourceIdentityChanged
      else
        let? n := (if binary then
                     match base64_decode text with
                     | Some b => Ok (Z.of_nat (length b))
                     | None => Err UnexpectedContents
                     end
                   else Ok (Z.of_nat (len text))) in
        if limit_bytes <? n then Err (MaterializationLimit n)
        else if negb (n =? declared_bytes target) then Err SizeChanged
        else match structured_content r with
        | Some (Object root) =>
            let root := remove "payload" root in
            let? body := (if negb binary && is_json_media_type (media_type target) then
                            match from_str text with Some v => Ok v | None => Err InvalidJsonBody end
                          else Ok (Str text)) in
            Ok (set_structured (Some (Object (insert "data" body root))) r)
        | _ => Err InvalidEnvelope
        end
  | _ => Err UnexpectedContents
  end.

(** [RecoveredResponse::inspected_bytes] *)
Definition inspected_bytes (rec : RecoveredResponse) (r : CallToolResult) : result bytes InvocationError :=
  match structured_content r ≫= get "data" with
  | None => Err (recovery_failure (target rec))
  | Some value =>
      if value_eq value (body_value rec) then Ok (body_bytes rec)
      else if binary rec then
        match as_str value ≫= base64_decode with
        | Some b => Ok b
        | None => Err (recovery_failure (target rec))
        end
      else if is_json_media_type (media_type (target rec)) then Ok (as_bytes (to_string value))
      else match as_str value with
           | Some text => Ok (as_bytes text)
           | None => Err (recovery_failure (target rec))
           end
  end.

Definition compact_payload (rec : RecoveredResponse) : Value :=
  Object [("bytes", Number (show_u64 (declared_bytes (target rec))));
          ("media_type", Str (media_type (target rec)));
          ("resource_uri", Str (rr_uri (target rec))); ("retained", Bool true); ("inlined", Bool false);
          ("context_ceiling_bytes",
             default Null (structured_content (original rec) ≫= pointer ["payload"; "context_ceiling_bytes"]));
          ("reason", Str "gateway-managed response delivery")].

(** [RecoveredResponse::compact] *)
Definition compact (rec : RecoveredResponse) (r : CallToolResult) : CallToolResult :=
  match structured_content r with
  | Some (Object root) =>
      let root := insert "payload" (compact_payload rec) (remove "data" root) in
      set_content [Text (to_string (Object root))] (set_structured (Some (Object root)) r)
  | _ => r
  end.

(** ** The delivery envelope *)

Record FileValue := {
  fv_uri : string;
  fv_size : option Z;
  fv_json : Value;
}.

Inductive Delivery :=
  | FileDelivery (file : FileValue)
  | UnavailableDelivery (error : string).

Definition delivery_json (d : Delivery) : Value :=
  match d with
  | FileDelivery file =>
      Object [("delivery_status", Str "file"); ("operation_status", Str "succeeded");
              ("file", fv_json file)]
  | UnavailableDelivery error =>
      Object [("delivery_status", Str "unavailable"); ("operation_status", Str "succeeded");
              ("error", Str error); ("retry_operation", Bool false)]
  end.

(** [retained_delivery::attach] *)
Definition attach (d : Delivery) (r : CallToolResult) : CallToolResult :=
  let delivery := delivery_json d in
  let root := Object (insert FIELD delivery (default [] (structured_content r ≫= as_object))) in
  set_content [Text (to_string root)]
    (set_structured (Some root)
       (set_meta (Some (insert RETAINED_DELIVERY_META_KEY delivery (default [] (meta r)))) r)).

Definition attach_preview (preview : string) (r : CallToolResult) : CallToolResult :=
  match structured_content r with
  | Some (Object root) => set_structured (Some (Object (insert PREVIEW_FIELD (Str preview) root))) r
  | _ => r
  end.

Definition delivery_failure (reason : string) (r : CallToolResult) : CallToolResult :=
  let r := attach (UnavailableDelivery reason) r in
  set_content (content r ++
    [Text ("The operation succeeded, but its response attachment is unavailable (" +:+ reason +:+
           "). Do not repeat the operation to retrieve its attachment.")]) r.

End Recovery.

(** ** Theorems *)

Lemma recognize_root r t :
  recognize r = Ok (Some t) →
  ∃ root payload, structured_content r = Some (Object root) ∧ field "payload" root = Some (Object payload) ∧
    field "data" root = None ∧ (field "resource_uri" payload ≫= as_str) = Some (rr_uri t) ∧
    (field "bytes" payload ≫= as_u64) = Some (declared_bytes t) ∧ rr_uri t ≠ "" ∧ is_error r ≠ Some true.
Proof.
  unfold recognize. case_bool_decide as He; [done|]. intros H.
  destruct (structured_content r) as [[| | | | |root]|] eqn:Hs; cbn [mbind option_bind as_object] in H; try done.
  destruct (http_envelope root) eqn:Henv; cbn [negb] in H; [|done].
  destruct (field "payload" root) as [[| | | | |payload]|] eqn:Hp; cbn [mbind option_bind as_object] in H; try done.
  destruct (is_bool false _ && _) in H; cbn [negb] in H; [|done].
  destruct (nonempty_str (field "resource_uri" payload)) as [uri|] eqn:Hu; [|done].
  destruct (field "bytes" payload ≫= as_u64) as [n|] eqn:Hn; [|done].
  destruct (nonempty_str (field "media_type" payload)) as [mt|]; [|done].
  destruct (field "operation_id" root ≫= as_str) as [op|]; [|done]. injection H as <-.
  exists root, payload. unfold http_envelope in Henv. bool_to_prop. split_and!; try done.
  - apply field_None. intros Hin. apply contains_key_spec in Hin. congruence.
  - unfold nonempty_str in Hu. destruct (field "resource_uri" payload ≫= as_str) as [u|]; [|done].
    by destruct (is_empty u); simplify_eq.
  - unfold nonempty_str in Hu. destruct (field "resource_uri" payload ≫= as_str) as [u|]; [|done].
    destruct u; [done|]. by simplify_eq/=.
Qed.

(** The one resource [contents] is the one [t] names, its bytes are [b], and [v]
    is what a caller is to see of them: the parsed value of a JSON text, the text
    itself otherwise, and the base64 text of a blob. *)
Inductive carries (from_str : string → option Value) (base64_decode : string → option bytes)
    (t : RetainedResponse) : list ResourceContents → bytes → Value → Prop :=
  | carries_json text v : is_json_media_type (media_type t) = true → from_str text = Some v →
      carries from_str base64_decode t [TextResource (rr_uri t) text] (as_bytes text) v
  | carries_text text : is_json_media_type (media_type t) = false →
      carries from_str base64_decode t [TextResource (rr_uri t) text] (as_bytes text) (Str text)
  | carries_blob blob b : base64_decode blob = Some b →
      carries from_str base64_decode t [BlobResource (rr_uri t) blob] b (Str blob).

(** Hydration, as the existence of a carried body of the declared size. *)
Lemma hydrate_Ok from_str base64_decode r t contents limit root r' :
  structured_content r = Some (Object root) →
  hydrate from_str base64_decode r t contents limit = Ok r' ↔
  ∃ b v, carries from_str base64_decode t contents b v ∧ Z.of_nat (length b) = declared_bytes t ∧
    declared_bytes t ≤ limit ∧
    r' = set_structured (Some (Object (insert "data" v (remove "payload" root)))) r.
Proof.
  intros Hs. unfold hydrate. rewrite Hs. split.
  - intros H. destruct contents as [|[uri text|uri blob|] [|]]; try done.
    + case_bool_decide as Hu; cbn [negb] in H; [|done]. subst uri.
      destruct (limit <? Z.of_nat (len text)) eqn:Hl; [done|].
      destruct (Z.of_nat (len text) =? declared_bytes t) eqn:Hn; cbn [negb] in H; [|done].
      bool_to_prop. cbn [negb andb] in H. unfold len in *.
      destruct (is_json_media_type (media_type t)) eqn:Hj; [destruct (from_str text) as [v|] eqn:Hv; [|done]|];
        injection H as <-; exists (as_bytes text); eexists; (split; [by constructor|]); split_and!; (done || lia).
    + case_bool_decide as Hu; cbn [negb] in H; [|done]. subst uri.
      destruct (base64_decode blob) as [b|] eqn:Hdec; [|done].
      destruct (limit <? Z.of_nat (length b)) eqn:Hl; [done|].
      destruct (Z.of_nat (length b) =? declared_bytes t) eqn:Hn; cbn [negb] in H; [|done]. bool_to_prop.
      cbn [negb andb] in H. injection H as <-. exists b, (Str blob). split; [by constructor|].
      split_and!; (done || lia).
  - intros (b & v & Hc & Hn & Hl & ->). destruct Hc as [text v Hj Hv|text Hj|blob b Hdec];
      rewrite bool_decide_eq_true_2 by done; cbn [negb andb]; rewrite ?Hdec; unfold len;
      rewrite (proj2 (Z.ltb_ge _ _)) by lia; rewrite (proj2 (Z.eqb_eq _ _) Hn), ?Hj, ?Hv; done.
Qed.

(** The members of a hydrated response; it is no longer an envelope. *)
Lemma hydrated_members r root v :
  NoDup root.*1 → is_error r ≠ Some true →
  let root' := insert "data" v (remove "payload" root) in
  field "data" root' = Some v ∧ field "payload" root' = None ∧
  (∀ k, k ≠ "data" → k ≠ "payload" → field k root' = field k root) ∧
  recognize (set_structured (Some (Object root')) r) = Ok None.
Proof.
  intros Hd He root'. unfold root'. split; [by rewrite field_insert, bool_decide_eq_true_2|].
  split; [by rewrite field_insert, bool_decide_eq_false_2, field_remove, bool_decide_eq_true_2|].
  split; [intros k Hk Hk'; by rewrite field_insert, bool_decide_eq_false_2, field_remove, bool_decide_eq_false_2|].
  unfold recognize. cbn [is_error set_structured structured_content mbind option_bind as_object].
  rewrite bool_decide_eq_false_2 by done. unfold http_envelope.
  replace (contains_key "data" _) with true; [by rewrite andb_false_r|].
  symmetry. apply contains_key_spec. destruct (decide ("data" ∈ (insert "data" v (remove "payload" root)).*1)) as [|Hn]; [done|].
  apply field_None in Hn. by rewrite field_insert, bool_decide_eq_true_2 in Hn.
Qed.

(** C32. A recovered body is the one the envelope named, and it is what the caller
    gets. A retained envelope is hydrated exactly when the read returned the one
    resource with the URI the envelope names, of exactly the declared number of bytes
    and no more than the limit (a JSON text that parses, a blob that decodes). The
    result then differs from the upstream's in two members only: "payload" is gone
    and "data" is that very body (the parsed value of a JSON text, another text as it
    is, a blob as its base64 text), so it is no longer an envelope. The bytes
    delivered as a file later are those of the resource if inspection left the body
    as it was. *)
Theorem recovered_body_is_the_named_one to_string from_str base64_decode r t contents limit :
  (∀ root, structured_content r = Some (Object root) → NoDup root.*1) →
  recognize r = Ok (Some t) →
  ((∃ r', hydrate from_str base64_decode r t contents limit = Ok r') ↔
   ∃ b v, carries from_str base64_decode t contents b v ∧
     Z.of_nat (length b) = declared_bytes t ∧ declared_bytes t ≤ limit) ∧
  ∀ r', hydrate from_str base64_decode r t contents limit = Ok r' →
    ∃ b v root root', carries from_str base64_decode t contents b v ∧
      structured_content r = Some (Object root) ∧ r' = set_structured (Some (Object root')) r ∧
      field "data" root' = Some v ∧ field "payload" root' = None ∧
      (∀ k, k ≠ "data" → k ≠ "payload" → field k root' = field k root) ∧
      recognize r' = Ok None ∧ resource_bytes base64_decode contents = Ok b ∧
      (∀ rec, body_value rec = v → body_bytes rec = b →
         inspected_bytes to_string base64_decode rec r' = Ok b).
Proof.
  intros Hd Hr. destruct (recognize_root _ _ Hr) as (root & payload & Hs & Hp & _ & _ & _ & _ & He).
  specialize (Hd _ Hs). split.
  { setoid_rewrite (hydrate_Ok _ _ _ _ _ _ _ _ Hs). naive_solver. }
  intros r' (b & v & Hc & _ & _ & ->)%(hydrate_Ok _ _ _ _ _ _ _ _ Hs).
  destruct (hydrated_members r root v Hd He) as (H1 & H2 & H3 & H4).
  exists b, v, root, (insert "data" v (remove "payload" root)). split_and!; try done.
  - destruct Hc; cbn; [done..|]. by match goal with H : base64_decode _ = _ |- _ => rewrite H end.
  - intros rec <- <-. unfold inspected_bytes. cbn [structured_content set_structured mbind option_bind get].
    rewrite H1. unfold value_eq. by rewrite bool_decide_eq_true_2.
Qed.

Definition demo_envelope : CallToolResult :=
  {| content := []; structured_content :=
       Some (Object [("success", Bool true); ("status", Number "200"); ("content_type", Str "text/plain");
                     ("headers", Object []); ("operation_id", Str "report");
                     ("payload", Object [("inlined", Bool false); ("retained", Bool true);
                                         ("resource_uri", Str "mem://1"); ("bytes", Number "5");
                                         ("media_type", Str "text/plain")])]);
     is_error := Some false; meta := None; result_type := None |}.

Lemma recovered_body_is_the_named_one_witness :
  let t := {| rr_uri := "mem://1"; declared_bytes := 5; operation_id := "report"; media_type := "text/plain" |} in
  let contents := [TextResource "mem://1" "hello"] in
  recognize demo_envelope = Ok (Some t) ∧
  ∃ r', hydrate (λ _, None) (λ _, None) demo_envelope t contents 100 = Ok r' ∧
    recognize r' = Ok None ∧ (structured_content r' ≫= get "data") = Some (Str "hello").
Proof.
  intros t contents. split; [vm_compute; reflexivity|].
  destruct (recovered_body_is_the_named_one (λ _, "") (λ _, None) (λ _, None) demo_envelope t contents 100)
    as [Hiff Hout].
  - intros root H. injection H as <-. apply (bool_decide_unpack _). vm_compute. reflexivity.
  - vm_compute. reflexivity.
  - destruct (proj2 Hiff) as [r' Hr'].
    { exists (as_bytes "hello"), (Str "hello").
      split; [apply carries_text; reflexivity|split; [reflexivity|vm_compute; discriminate]]. }
    exists r'. split; [exact Hr'|].
    destruct (Hout r' Hr') as (b & v & root & root' & Hc & _ & Hset & Hf & _ & _ & Hn & _).
    split; [exact Hn|]. rewrite Hset. cbn. rewrite Hf. inversion Hc; subst; [discriminate|reflexivity].
Defined.

End Retained.
