(* ===== verification/AuditLog.v ===== *)
(** * The audit log and its writers

    Model of the write side of crates/waygate-storage/src/audit.rs on the tables
    it writes: the columns of an [audit_log] row and how they are read back, the
    chained-write transaction with its stages, deadline and failure outcomes, the
    three recorder methods, the routing of outbox copies (routing.rs, outbox.rs)
    and the rate-limited failure log.

    A transaction takes the tenant's advisory lock before it reads the chain
    head, so two chained writes of a tenant never overlap and each is one step
    here. What the database and the clock do to it is its [WriteFaults]: which
    stages fail or outlast the deadline, whether the try-lock finds the lock
    taken, how far the [chain_seq] sequence has moved on, and whether a commit
    whose reply was lost became durable. SHA-256 and the rounding PostgreSQL
    applies to a timestamp are parameters. *)

From S2P Require Import Prelude RustStr Encoding HashChain Facts Bridges ChainVerify Evidence.

Module AuditLog.
Import HashChain.HashChain.
Import Facts(RiskTier, Low, Medium, High).
Import ChainVerify(ChainVerifyRow, fields, chain_seq, prev_hash, row_hash,
  Build_ChainVerifyRow).
Import Evidence.Evidence.

(** ** The table *)

Record Columns := {
  c_id : Uuid;
  c_ts : Z;
  c_category : option string;
  c_tenant_id : string;
  c_action : string;
  c_outcome : string;
  c_principal_sub : option string;
  c_principal_email : option string;
  c_principal_groups : list string;
  c_issuer : option string;
  c_server : option string;
  c_tool : option string;
  c_risk_level : option string;
  c_pii : option bool;
  c_policy_ids : list string;
  c_reason : option string;
  c_trace_id : option string;
  c_latency_ms : option Z;
  c_scim_active : option bool;
  c_scim_groups : option (list string);
  c_target : option string;
  c_req_scopes : option (list string);
  c_auth_method : option string;
  c_req_roles : option (list string);
  c_side_effects : option bool;
  c_acting_agent : option string;
  c_parent_execution_id : option Uuid;
  c_execution_step : option Z;
  c_execution_call_id : option Uuid;
  c_execution_attempt : option Z;
  c_operation : option string;
}.

Record LogRow := {
  cols : Columns;
  lr_chain_seq : Z;
  lr_prev_hash : option string;
  lr_row_hash : option string;
}.

Record OutboxRow := {
  ob_event_id : Uuid;
  ob_target_sink : string;
  ob_payload : AuditEvent;
}.

(** A row of the locator table of migration 0075. *)
Record IndexRow := {
  ix_marker_id : Uuid;
  ix_tenant_id : string;
  ix_start_hash : option string;
  ix_end_hash : string;
}.

Record RoutingRow := {
  rt_tenant_id : string;
  rt_exporter_name : string;
  rt_enabled : bool;
}.

Record Db := {
  audit_log : list LogRow;
  next_chain_seq : Z;
  evidence_outbox : list OutboxRow;
  bridge_index : list IndexRow;
  tenant_evidence_routing : list RoutingRow;
}.

Definition empty_db : Db :=
  {| audit_log := []; next_chain_seq := 1; evidence_outbox := []; bridge_index := [];
     tenant_evidence_routing := [] |}.

(** The row's chain columns are set. *)
Definition chained_for (tenant_id : string) (r : LogRow) : bool :=
  bool_decide (c_tenant_id (cols r) = tenant_id) && is_some (lr_row_hash r).

Definition seq_le (a b : LogRow) : Prop := lr_chain_seq a ≤ lr_chain_seq b.
#[export] Instance seq_le_dec a b : Decision (seq_le a b) := Z_le_dec _ _.

(** [WHERE tenant_id = $1 AND row_hash IS NOT NULL ORDER BY chain_seq ASC] *)
Definition chain_rows (tenant_id : string) (db : Db) : list LogRow :=
  merge_sort seq_le (filter (λ r, chained_for tenant_id r = true) (audit_log db)).

(** [SELECT row_hash .. ORDER BY chain_seq DESC LIMIT 1] *)
Definition chain_head_hash (tenant_id : string) (db : Db) : option string :=
  match last (chain_rows tenant_id db) with Some r => lr_row_hash r | None => None end.

(** ** Reading a row back *)

Definition u32_nonzero (z : Z) : option N :=
  if (1 <=? z) && (z <=? u32_max) then Some (Z.to_N z) else None.

Definition invocation_hierarchy_from_row (c : Columns) : result (option InvocationHierarchy) string :=
  match c_parent_execution_id c, c_execution_step c, c_execution_call_id c, c_execution_attempt c with
  | None, None, None, None => Ok None
  | Some parent, Some step, Some call, Some attempt =>
      match u32_nonzero step with
      | None => Err "invalid execution_step"
      | Some step =>
          match u32_nonzero attempt with
          | None => Err "invalid execution_attempt"
          | Some attempt =>
              Ok (Some {| parent_execution_id := parent; step := step; call_id := call;
                          attempt := attempt |})
          end
      end
  | _, _, _, _ => Err "incomplete invocation hierarchy"
  end.

Definition from_row (r : LogRow) : result ChainVerifyRow string :=
  let c := cols r in
  match lr_row_hash r with
  | None => Err "row_hash"
  | Some rh =>
      match invocation_hierarchy_from_row c with
      | Err e => Err e
      | Ok h =>
          Ok {| fields :=
                  {| id := c_id c; ts := c_ts c; category := default "" (c_category c);
                     tenant := c_tenant_id c; action := c_action c; outcome := c_outcome c;
                     principal_sub := c_principal_sub c; principal_email := c_principal_email c;
                     principal_groups := c_principal_groups c; issuer := c_issuer c;
                     server := c_server c; tool := c_tool c; risk_level := c_risk_level c;
                     pii := c_pii c; policy_ids := c_policy_ids c; reason := c_reason c;
                     trace_id := c_trace_id c; latency_ms := c_latency_ms c;
                     scim_active := c_scim_active c; scim_groups := default [] (c_scim_groups c);
                     target := c_target c; req_scopes := default [] (c_req_scopes c);
                     auth_method := c_auth_method c; req_roles := default [] (c_req_roles c);
                     side_effects := c_side_effects c; acting_agent := c_acting_agent c;
                     invocation_hierarchy := h; operation := c_operation c |};
                chain_seq := lr_chain_seq r; prev_hash := lr_prev_hash r; row_hash := rh |}
      end
  end.

(** ** Writing a row *)

Definition risk_str (r : RiskTier) : string :=
  match r with Low => "low" | Medium => "medium" | High => "high" end.

(** An empty vector is bound as NULL. *)
Definition bind_vec (l : list string) : option (list string) :=
  match l with [] => None | _ => Some l end.

(** The arguments of [canonical_audit_bytes_with_ext5] for an event. *)
Definition hashed_fields (e : AuditEvent) : AuditFields :=
  let p := ev_principal e in
  {| id := ev_id e; ts := ev_ts e; category := category_as_str (ev_category e);
     tenant := ev_tenant e; action := ev_action e; outcome := outcome_as_str (ev_outcome e);
     principal_sub := ap_sub <$> p; principal_email := p ≫= ap_email;
     principal_groups := default [] (ap_groups <$> p); issuer := ap_issuer <$> p;
     server := ev_server e; tool := ev_tool e; risk_level := risk_str <$> ev_risk_level e;
     pii := ev_pii e; policy_ids := ev_policy_ids e; reason := ev_reason e;
     trace_id := ev_trace_id e; latency_ms := ev_latency_ms e;
     scim_active := p ≫= ap_scim_active; scim_groups := default [] (ap_scim_groups <$> p);
     target := ev_target e; req_scopes := ev_req_scopes e; auth_method := ev_auth_method e;
     req_roles := ev_req_roles e; side_effects := ev_side_effects e;
     acting_agent := ev_acting_agent e; invocation_hierarchy := ev_invocation_hierarchy e;
     operation := ev_operation e |}.

Section Writes.
Context (sha256 : bytes → bytes).
(** The value a [TIMESTAMPTZ] column gives back for a bound time. *)
Context (timestamptz : Z → Z).

(** The bound parameters of the INSERT. *)
Definition columns_of (e : AuditEvent) : Columns :=
  let p := ev_principal e in
  let h := ev_invocation_hierarchy e in
  {| c_id := ev_id e; c_ts := timestamptz (ev_ts e);
     c_category := Some (category_as_str (ev_category e)); c_tenant_id := ev_tenant e;
     c_action := ev_action e; c_outcome := outcome_as_str (ev_outcome e);
     c_principal_sub := ap_sub <$> p; c_principal_email := p ≫= ap_email;
     c_principal_groups := default [] (ap_groups <$> p); c_issuer := ap_issuer <$> p;
     c_server := ev_server e; c_tool := ev_tool e; c_risk_level := risk_str <$> ev_risk_level e;
     c_pii := ev_pii e; c_policy_ids := ev_policy_ids e; c_reason := ev_reason e;
     c_trace_id := ev_trace_id e; c_latency_ms := ev_latency_ms e;
     c_scim_active := p ≫= ap_scim_active;
     c_scim_groups := bind_vec (default [] (ap_scim_groups <$> p)); c_target := ev_target e;
     c_req_scopes := bind_vec (ev_req_scopes e); c_auth_method := ev_auth_method e;
     c_req_roles := bind_vec (ev_req_roles e); c_side_effects := ev_side_effects e;
     c_acting_agent := ev_acting_agent e; c_parent_execution_id := parent_execution_id <$> h;
     c_execution_step := Z.of_N ∘ step <$> h; c_execution_call_id := call_id <$> h;
     c_execution_attempt := Z.of_N ∘ attempt <$> h; c_operation := ev_operation e |}.

Definition set_log (l : list LogRow) (next : Z) (db : Db) : Db :=
  {| audit_log := l; next_chain_seq := next; evidence_outbox := evidence_outbox db;
     bridge_index := bridge_index db; tenant_evidence_routing := tenant_evidence_routing db |}.

(** One row enters the table. Its [chain_seq] comes from a sequence that has
    moved on by [skip] and never goes back; [id] is the primary key. *)
Definition insert_row (skip : N) (c : Columns) (prev rh : option string) (db : Db)
  : result unit string * Db :=
  let seq := next_chain_seq db + Z.of_N skip in
  if existsb (λ r, bool_decide (c_id (cols r) = c_id c)) (audit_log db)
  then (Err "duplicate key value violates unique constraint", set_log (audit_log db) (seq + 1) db)
  else (Ok tt,
        set_log (audit_log db ++ [{| cols := c; lr_chain_seq := seq; lr_prev_hash := prev;
                                     lr_row_hash := rh |}]) (seq + 1) db).

Definition insert_event (skip : N) (e : AuditEvent) (prev rh : option string) (db : Db)
  : result unit string * Db :=
  insert_row skip (columns_of e) prev rh db.

(** ** Routing of outbox copies *)

Definition fetch_tenant_routing (tenant_id : string) (db : Db) : option (list string) :=
  match filter (λ r, rt_tenant_id r = tenant_id) (tenant_evidence_routing db) with
  | [] => None
  | rows => Some (rt_exporter_name <$> filter (λ r, rt_enabled r = true) rows)
  end.

Definition resolve_outbox_targets (configured : list string) (routing : option (list string))
  : list string :=
  match routing with
  | None => configured
  | Some enabled_names => filter (λ c, c ∈ enabled_names) configured
  end.

Definition enqueue (event_id : Uuid) (target_sink : string) (payload : AuditEvent) (db : Db) : Db :=
  {| audit_log := audit_log db; next_chain_seq := next_chain_seq db;
     evidence_outbox := evidence_outbox db ++
       [{| ob_event_id := event_id; ob_target_sink := target_sink; ob_payload := payload |}];
     bridge_index := bridge_index db; tenant_evidence_routing := tenant_evidence_routing db |}.

(** ** The chained write *)

Inductive ChainedWriteMode := RequiredExport | BestEffortLocal | BestEffortExport.

Definition is_best_effort (m : ChainedWriteMode) : bool :=
  match m with BestEffortLocal | BestEffortExport => true | RequiredExport => false end.

Definition enqueues_outbox (m : ChainedWriteMode) : bool :=
  match m with RequiredExport | BestEffortExport => true | BestEffortLocal => false end.

Inductive ChainedWriteStage :=
  | TxBegin | ChainLock | ChainLockRollback | ChainLockContended | ChainSelectPrev
  | AuditInsert | RoutingLookup | PayloadSerialize | OutboxEnqueue | TxCommit.

Definition stage_as_str (s : ChainedWriteStage) : string :=
  match s with
  | TxBegin => "tx_begin"
  | ChainLock => "chain_lock"
  | ChainLockRollback => "chain_lock_rollback"
  | ChainLockContended => "chain_lock_contended"
  | ChainSelectPrev => "chain_select_prev"
  | AuditInsert => "audit_insert"
  | RoutingLookup => "routing_lookup"
  | PayloadSerialize => "payload_serialize"
  | OutboxEnqueue => "outbox_enqueue"
  | TxCommit => "tx_commit"
  end.

Inductive ChainedWriteFailureOutcome := Dropped | Unknown.

Record ChainedWriteError := {
  cw_stage : ChainedWriteStage;
  cw_detail : string;
  terminal_outcome : ChainedWriteFailureOutcome;
}.

Definition message (s : ChainedWriteStage) (detail : string) : ChainedWriteError :=
  {| cw_stage := s; cw_detail := detail; terminal_outcome := Dropped |}.

Definition deadline_error (s : ChainedWriteStage) (o : ChainedWriteFailureOutcome)
  : ChainedWriteError :=
  {| cw_stage := s;
     cw_detail := stage_as_str s +:+ " did not complete before the chained best-effort write deadline";
     terminal_outcome := o |}.

(** What the surroundings do to one write. Every await is numbered by its stage,
    the enqueues also by their position. *)
Record WriteFaults := {
  db_error : ChainedWriteStage → nat → option string;
  outlasts_deadline : ChainedWriteStage → nat → bool;
  lock_taken : bool;
  seq_skip : N;
  serialize_error : option string;
  durable_anyway : bool;
}.

(** [ChainedWriteDeadline]: whether there is one. *)
Definition for_mode (m : ChainedWriteMode) : bool := is_best_effort m.

Definition run {T} (deadline : bool) (s : ChainedWriteStage) (o : ChainedWriteFailureOutcome)
    (late : bool) (future : result T string) : result T ChainedWriteError :=
  if deadline && late then Err (deadline_error s o)
  else match future with
       | Ok x => Ok x
       | Err detail => Err {| cw_stage := s; cw_detail := detail; terminal_outcome := o |}
       end.

(** A statement that fails when the database does. *)
Definition await {T} (f : WriteFaults) (s : ChainedWriteStage) (i : nat) (value : result T string)
  : result T string :=
  match db_error f s i with Some detail => Err detail | None => value end.

Definition commit (deadline : bool) (f : WriteFaults) : result unit ChainedWriteError :=
  run deadline TxCommit Unknown (outlasts_deadline f TxCommit 0) (await f TxCommit 0 (Ok tt)).

(** [for target in &effective_targets] *)
Fixpoint enqueue_all (deadline : bool) (f : WriteFaults) (e : AuditEvent) (i : nat)
    (targets : list string) (db : Db) : result Db ChainedWriteError :=
  match targets with
  | [] => Ok db
  | target :: targets' =>
      match run deadline OutboxEnqueue Dropped (outlasts_deadline f OutboxEnqueue i)
              (await f OutboxEnqueue i (Ok tt)) with
      | Err err => Err err
      | Ok _ => enqueue_all deadline f e (S i) targets' (enqueue (ev_id e) target e db)
      end
  end.

(** The part of the transaction between the row and the commit. Event ids are fresh,
    so no (event, target) entry is there already. *)
Definition enqueue_outbox (outbox_targets : list string) (deadline : bool) (f : WriteFaults)
    (e : AuditEvent) (mode : ChainedWriteMode) (tx : Db) : result Db ChainedWriteError :=
  if enqueues_outbox mode then
    match run deadline RoutingLookup Dropped (outlasts_deadline f RoutingLookup 0)
            (await f RoutingLookup 0 (Ok (fetch_tenant_routing (ev_tenant e) tx))) with
    | Err err => Err err
    | Ok routing =>
        let effective_targets := resolve_outbox_targets outbox_targets routing in
        if nonempty effective_targets then
          match serialize_error f with
          | Some detail => Err (message PayloadSerialize detail)
          | None => enqueue_all deadline f e 0 effective_targets tx
          end
        else Ok tx
    end
  else Ok tx.

(** A transaction that does not commit leaves the tables as they were, except
    that sequence values it drew are gone. *)
Definition rolled_back (db tx : Db) : Db := set_log (audit_log db) (next_chain_seq tx) db.

Definition insert_chained_event (outbox_targets : list string) (f : WriteFaults) (e : AuditEvent)
    (mode : ChainedWriteMode) (db : Db) : result unit ChainedWriteError * Db :=
  let deadline := for_mode mode in
  let at_stage {T} (s : ChainedWriteStage) (value : result T string) : result T ChainedWriteError :=
    run deadline s Dropped (outlasts_deadline f s 0) (await f s 0 value) in
  match at_stage TxBegin (Ok tt) with
  | Err err => (Err err, db)
  | Ok _ =>
      match at_stage ChainLock (Ok (if is_best_effort mode then negb (lock_taken f) else true)) with
      | Err err => (Err err, db)
      | Ok false =>
          match at_stage ChainLockRollback (Ok tt) with
          | Err err => (Err err, db)
          | Ok _ => (Err (message ChainLockContended "tenant chain lock is already held"), db)
          end
      | Ok true =>
          match at_stage ChainSelectPrev (Ok (chain_head_hash (ev_tenant e) db)) with
          | Err err => (Err err, db)
          | Ok prev =>
              let rh := compute_row_hash sha256 prev
                          (canonical_audit_bytes_with_ext5 (hashed_fields e)) in
              let '(inserted, tx) := insert_event (seq_skip f) e prev (Some rh) db in
              match at_stage AuditInsert inserted with
              | Err err => (Err err, rolled_back db tx)
              | Ok _ =>
                  match enqueue_outbox outbox_targets deadline f e mode tx with
                  | Err err => (Err err, rolled_back db tx)
                  | Ok tx' =>
                      match commit deadline f with
                      | Ok _ => (Ok tt, tx')
                      | Err err => (Err err, if durable_anyway f then tx' else rolled_back db tx)
                      end
                  end
              end
          end
      end
  end.

(** ** The recorder *)

Definition sink_record_required (outbox_targets : list string) (f : WriteFaults) (e : AuditEvent)
    (db : Db) : result Uuid EvidenceError * Db :=
  let '(r, db') := insert_chained_event outbox_targets f e RequiredExport db in
  (match r with Ok _ => Ok (ev_id e) | Err err => Err (Persistence (cw_detail err)) end, db').

Definition best_effort_mode (e : AuditEvent) : ChainedWriteMode :=
  if is_some (ev_invocation_hierarchy e) then BestEffortExport else BestEffortLocal.

(** The result is what the metrics and the failure log see. *)
Definition sink_record_chained_best_effort (outbox_targets : list string) (f : WriteFaults)
    (e : AuditEvent) (db : Db) : result unit ChainedWriteError * Db :=
  insert_chained_event outbox_targets f e (best_effort_mode e) db.

(** One auto-committed INSERT; a failure is logged. *)
Definition sink_record_best_effort (f : WriteFaults) (e : AuditEvent) (db : Db) : Db :=
  match db_error f AuditInsert 0 with
  | Some _ => if durable_anyway f then (insert_event (seq_skip f) e None None db).2 else db
  | None => (insert_event (seq_skip f) e None None db).2
  end.

End Writes.

(** ** The failure log *)

Definition CHAINED_FAILURE_LOG_INTERVAL : Z := 10000000000.

Record ChainedFailureLogState := {
  episode_started : option Z;
  last_emitted : option Z;
  last_failure : option Z;
  suppressed : Z;
}.

Definition log_start : ChainedFailureLogState :=
  {| episode_started := None; last_emitted := None; last_failure := None; suppressed := 0 |}.

Inductive ChainedFailureLogDecision := Emit (suppressed_since_last : Z) | Suppress.

Record ChainedFailureRecovery := {
  rec_duration : Z;
  rec_suppressed_since_last : Z;
}.

(** [Instant::duration_since] saturates at zero. *)
Definition duration_since (now earlier : Z) : Z := Z.max 0 (now - earlier).

Definition on_failure (now : Z) (st : ChainedFailureLogState)
  : ChainedFailureLogDecision * ChainedFailureLogState :=
  match last_emitted st with
  | None =>
      (Emit 0, {| episode_started := Some now; last_emitted := Some now; last_failure := Some now;
                  suppressed := suppressed st |})
  | Some emitted =>
      if CHAINED_FAILURE_LOG_INTERVAL <=? duration_since now emitted then
        (Emit (suppressed st),
         {| episode_started := episode_started st; last_emitted := Some now;
            last_failure := Some now; suppressed := 0 |})
      else
        (Suppress,
         {| episode_started := episode_started st; last_emitted := Some emitted;
            last_failure := Some now; suppressed := u64_saturating_add (suppressed st) 1 |})
  end.

Definition on_success (now : Z) (st : ChainedFailureLogState)
  : option ChainedFailureRecovery * ChainedFailureLogState :=
  match episode_started st, last_failure st with
  | Some started, Some failed =>
      if duration_since now failed <? CHAINED_FAILURE_LOG_INTERVAL then (None, st)
      else (Some {| rec_duration := duration_since now started;
                    rec_suppressed_since_last := suppressed st |},
            {| episode_started := None; last_emitted := None; last_failure := None;
               suppressed := 0 |})
  | _, _ => (None, st)
  end.

(** The log lines of one finished write. *)
Inductive LogLine :=
  | Failing (at_ : Z) (suppressed_since_last : Z)
  | Recovered (at_ : Z) (recovery : ChainedFailureRecovery).

Definition record_chained_failure_log (now : Z) (st : ChainedFailureLogState)
  : list LogLine * ChainedFailureLogState :=
  let '(decision, st') := on_failure now st in
  (match decision with Emit n => [Failing now n] | Suppress => [] end, st').

Definition record_chained_recovery_log (now : Z) (st : ChainedFailureLogState)
  : list LogLine * ChainedFailureLogState :=
  let '(recovery, st') := on_success now st in
  (match recovery with Some r => [Recovered now r] | None => [] end, st').

(** A history of writes: when each finished, and whether it failed. *)
Fixpoint run_log (writes : list (Z * bool)) (st : ChainedFailureLogState)
  : list LogLine * ChainedFailureLogState :=
  match writes with
  | [] => ([], st)
  | (now, failed) :: writes' =>
      let '(lines, st1) :=
        if failed then record_chained_failure_log now st else record_chained_recovery_log now st in
      let '(lines', st2) := run_log writes' st1 in
      (lines ++ lines', st2)
  end.

(** ** A row read back *)

(** The invariant of [NonZeroU32]. *)
Definition hierarchy_typed (h : InvocationHierarchy) : Prop :=
  (1 ≤ step h ≤ 4294967295)%N ∧ (1 ≤ attempt h ≤ 4294967295)%N.

Definition event_typed (e : AuditEvent) : Prop :=
  match ev_invocation_hierarchy e with Some h => hierarchy_typed h | None => True end.

Lemma u32_nonzero_of_N n : (1 ≤ n ≤ 4294967295)%N → u32_nonzero (Z.of_N n) = Some n.
Proof.
  intros Hn. unfold u32_nonzero, u32_max.
  destruct (1 <=? Z.of_N n) eqn:E1; bool_to_prop; [|lia].
  destruct (Z.of_N n <=? 4294967295) eqn:E2; bool_to_prop; [|lia].
  simpl. by rewrite N2Z.id.
Qed.

Lemma default_bind_vec l : default [] (bind_vec l) = l.
Proof. by destruct l. Qed.

Lemma hierarchy_read_back tz e :
  event_typed e →
  invocation_hierarchy_from_row (columns_of tz e) = Ok (ev_invocation_hierarchy e).
Proof.
  unfold event_typed, invocation_hierarchy_from_row, columns_of. cbn.
  destruct (ev_invocation_hierarchy e) as [[p s c a]|]; [|done]. intros [Hs Ha]. cbn in *.
  by rewrite !u32_nonzero_of_N.
Qed.

(** The event as the columns give it back. *)
Definition at_stored_time (tz : Z → Z) (e : AuditEvent) : AuditEvent :=
  {| ev_id := ev_id e; ev_ts := tz (ev_ts e); ev_category := ev_category e; ev_tenant := ev_tenant e;
     ev_principal := ev_principal e; ev_action := ev_action e; ev_server := ev_server e;
     ev_tool := ev_tool e; ev_operation := ev_operation e; ev_outcome := ev_outcome e;
     ev_risk_level := ev_risk_level e; ev_pii := ev_pii e; ev_policy_ids := ev_policy_ids e;
     ev_reason := ev_reason e; ev_trace_id := ev_trace_id e; ev_latency_ms := ev_latency_ms e;
     ev_target := ev_target e; ev_req_scopes := ev_req_scopes e;
     ev_auth_method := ev_auth_method e; ev_req_roles := ev_req_roles e;
     ev_side_effects := ev_side_effects e; ev_acting_agent := ev_acting_agent e;
     ev_invocation_hierarchy := ev_invocation_hierarchy e |}.

Lemma from_row_of_event tz e seq prev rh :
  event_typed e →
  from_row {| cols := columns_of tz e; lr_chain_seq := seq; lr_prev_hash := prev;
              lr_row_hash := Some rh |}
  = Ok {| fields := hashed_fields (at_stored_time tz e); chain_seq := seq; prev_hash := prev;
          row_hash := rh |}.
Proof.
  intros He. unfold from_row. cbn [cols lr_row_hash]. rewrite hierarchy_read_back by done.
  cbn. by rewrite !default_bind_vec.
Qed.

Lemma same_bytes_at_stored_time (tz : Z → Z) e :
  Z.quot (tz (ev_ts e)) 1000 = Z.quot (ev_ts e) 1000 →
  canonical_audit_bytes_with_ext5 (hashed_fields (at_stored_time tz e))
  = canonical_audit_bytes_with_ext5 (hashed_fields e).
Proof.
  intros H. apply ext5_durable. unfold durable, hashed_fields, ts_micros. cbn -[Z.quot]. by rewrite H.
Qed.

(** ** What a chained write leaves behind *)

Section Transaction.
Context (sha256 : bytes → bytes) (tz : Z → Z) (outbox_targets : list string).

(** The outbox copies a write owes. *)
Definition copies (mode : ChainedWriteMode) (e : AuditEvent) (db : Db) : list OutboxRow :=
  if enqueues_outbox mode then
    (λ t, {| ob_event_id := ev_id e; ob_target_sink := t; ob_payload := e |})
      <$> resolve_outbox_targets outbox_targets (fetch_tenant_routing (ev_tenant e) db)
  else [].

(** Row and copies are there, and nothing else moved. *)
Record persisted (mode : ChainedWriteMode) (f : WriteFaults) (e : AuditEvent) (db db' : Db) : Prop := {
  ps_row : audit_log db' = audit_log db ++
    [let prev := chain_head_hash (ev_tenant e) db in
     {| cols := columns_of tz e; lr_chain_seq := next_chain_seq db + Z.of_N (seq_skip f);
        lr_prev_hash := prev;
        lr_row_hash := Some (compute_row_hash sha256 prev
                               (canonical_audit_bytes_with_ext5 (hashed_fields e))) |}];
  ps_fresh : Forall (λ r, c_id (cols r) ≠ ev_id e) (audit_log db);
  ps_outbox : evidence_outbox db' = evidence_outbox db ++ copies mode e db;
  ps_seq : next_chain_seq db' = next_chain_seq db + Z.of_N (seq_skip f) + 1;
  ps_index : bridge_index db' = bridge_index db;
  ps_routing : tenant_evidence_routing db' = tenant_evidence_routing db;
}.

(** No row, no copy. *)
Record untouched (db db' : Db) : Prop := {
  un_log : audit_log db' = audit_log db;
  un_outbox : evidence_outbox db' = evidence_outbox db;
  un_seq : next_chain_seq db ≤ next_chain_seq db';
  un_index : bridge_index db' = bridge_index db;
  un_routing : tenant_evidence_routing db' = tenant_evidence_routing db;
}.

Lemma untouched_refl db : untouched db db.
Proof. by split. Qed.

Lemma run_Err {T} d s o late (fut : result T string) err :
  run d s o late fut = Err err → cw_stage err = s ∧ terminal_outcome err = o.
Proof. unfold run. destruct (d && late); [by intros [= <-]|]. destruct fut; [done|by intros [= <-]]. Qed.

Lemma enqueue_all_Err d f e i targets db err :
  enqueue_all d f e i targets db = Err err → cw_stage err ≠ TxCommit ∧ terminal_outcome err = Dropped.
Proof.
  revert i db. induction targets as [|t ts IH]; intros i db; cbn [enqueue_all]; [done|].
  destruct (run _ _ _ _ _) as [?|err'] eqn:Hr; [apply IH|].
  intros [= <-]. apply run_Err in Hr as [-> ->]. done.
Qed.

Lemma enqueue_all_Ok d f e i targets db db' :
  enqueue_all d f e i targets db = Ok db' →
  audit_log db' = audit_log db ∧ next_chain_seq db' = next_chain_seq db ∧
  bridge_index db' = bridge_index db ∧ tenant_evidence_routing db' = tenant_evidence_routing db ∧
  evidence_outbox db' = evidence_outbox db ++
    ((λ t, {| ob_event_id := ev_id e; ob_target_sink := t; ob_payload := e |}) <$> targets).
Proof.
  revert i db. induction targets as [|t ts IH]; intros i db; cbn [enqueue_all].
  - intros [= <-]. cbn. by rewrite app_nil_r.
  - destruct (run _ _ _ _ _); [|done]. intros (->&->&->&->&->)%IH. cbn.
    by rewrite <- app_assoc.
Qed.

Lemma enqueue_outbox_spec d f e mode tx :
  match enqueue_outbox outbox_targets d f e mode tx with
  | Err err => cw_stage err ≠ TxCommit ∧ terminal_outcome err = Dropped
  | Ok tx' => audit_log tx' = audit_log tx ∧ next_chain_seq tx' = next_chain_seq tx ∧
              bridge_index tx' = bridge_index tx ∧
              tenant_evidence_routing tx' = tenant_evidence_routing tx ∧
              evidence_outbox tx' = evidence_outbox tx ++ copies mode e tx
  end.
Proof.
  unfold enqueue_outbox, copies. destruct (enqueues_outbox mode); [|by rewrite app_nil_r].
  destruct (run _ _ _ _ _) as [routing|err] eqn:Hr; [|by apply run_Err in Hr as [-> ->]].
  assert (routing = fetch_tenant_routing (ev_tenant e) tx) as ->.
  { unfold run, await in Hr. destruct (d && _); [done|].
    destruct (db_error f RoutingLookup 0); [done|]. by injection Hr. }
  destruct (nonempty _) eqn:Hne.
  - destruct (serialize_error f); [done|].
    destruct (enqueue_all _ _ _ _ _ _) as [tx'|err] eqn:He; [by apply enqueue_all_Ok in He|].
    by apply enqueue_all_Err in He.
  - destruct (resolve_outbox_targets _ _); [|done]. cbn. by rewrite app_nil_r.
Qed.

Lemma insert_event_spec skip e prev rh db :
  let '(r, tx) := insert_event tz skip e prev rh db in
  next_chain_seq tx = next_chain_seq db + Z.of_N skip + 1 ∧
  evidence_outbox tx = evidence_outbox db ∧ bridge_index tx = bridge_index db ∧
  tenant_evidence_routing tx = tenant_evidence_routing db ∧
  (r = Ok tt → Forall (λ r, c_id (cols r) ≠ ev_id e) (audit_log db) ∧
     audit_log tx = audit_log db ++
       [{| cols := columns_of tz e; lr_chain_seq := next_chain_seq db + Z.of_N skip;
           lr_prev_hash := prev; lr_row_hash := rh |}]).
Proof.
  unfold insert_event, insert_row. destruct (existsb _ _) eqn:Hex; split_and!; [done..|].
  intros _. split; [|done]. apply Forall_forall. intros r Hr Heq.
  assert (existsb (λ r, bool_decide (c_id (cols r) = c_id (columns_of tz e))) (audit_log db) = true)
    as Ht; [|by rewrite Hex in Ht].
  apply existsb_exists. exists r. split; [by apply list_elem_of_In|by apply bool_decide_eq_true_2].
Qed.

(** A write that began and holds the lock, from the INSERT on. *)
Lemma run_Ok_value {T} d s o late f i (v : result T string) x :
  run d s o late (await f s i v) = Ok x → v = Ok x.
Proof.
  unfold run, await. destruct (d && late); [done|]. destruct (db_error f s i); [done|].
  destruct v; [congruence|done].
Qed.

Lemma chained_write_spec f e mode db :
  let '(r, db') := insert_chained_event sha256 tz outbox_targets f e mode db in
  match r with
  | Ok _ => persisted mode f e db db'
  | Err err =>
      (terminal_outcome err = Dropped ∧ cw_stage err ≠ TxCommit ∧ untouched db db') ∨
      (terminal_outcome err = Unknown ∧ cw_stage err = TxCommit ∧
       (persisted mode f e db db' ∨ untouched db db'))
  end.
Proof.
  unfold insert_chained_event. cbv zeta.
  assert (∀ T s late (v : result T string) err, s ≠ TxCommit →
    run (for_mode mode) s Dropped late v = Err err →
    terminal_outcome err = Dropped ∧ cw_stage err ≠ TxCommit) as Hdrop.
  { intros T s late v err Hs Hr. apply run_Err in Hr as [-> ->]. done. }
  destruct (run _ TxBegin _ _ _) as [?|err] eqn:Hb;
    [clear Hb|apply Hdrop in Hb as [??]; [|done]; left; split_and!; [done..|apply untouched_refl]].
  destruct (run _ ChainLock _ _ _) as [locked|err] eqn:Hl;
    [|apply Hdrop in Hl as [??]; [|done]; left; split_and!; [done..|apply untouched_refl]].
  destruct locked.
  2:{ destruct (run _ ChainLockRollback _ _ _) as [?|err] eqn:Hb.
      - left. split_and!; [done..|apply untouched_refl].
      - apply Hdrop in Hb as [??]; [|done]; left; split_and!; [done..|apply untouched_refl]. }
  destruct (run _ ChainSelectPrev _ _ _) as [prev|err] eqn:Hp;
    [|apply Hdrop in Hp as [??]; [|done]; left; split_and!; [done..|apply untouched_refl]].
  apply run_Ok_value in Hp as [= <-].
  pose proof (insert_event_spec (seq_skip f) e (chain_head_hash (ev_tenant e) db)
    (Some (compute_row_hash sha256 (chain_head_hash (ev_tenant e) db)
             (canonical_audit_bytes_with_ext5 (hashed_fields e)))) db) as Hins.
  destruct (insert_event _ _ _ _ _ _) as [inserted tx].
  destruct Hins as (Hseq & Hob & Hix & Hrt & Hok).
  assert (untouched db (rolled_back db tx)) as Hrb.
  { unfold rolled_back, set_log. split; cbn; [done..|lia|done|done]. }
  destruct (run _ AuditInsert _ _ _) as [u|err] eqn:Hi;
    [|apply Hdrop in Hi as [??]; [|done]; left; by split_and!].
  apply run_Ok_value in Hi. destruct u. destruct (Hok Hi) as [Hfresh Hlog]. clear Hok.
  pose proof (enqueue_outbox_spec (for_mode mode) f e mode tx) as Hout.
  destruct (enqueue_outbox _ _ _ _ _ _) as [tx'|err]; [|left; destruct Hout; by split_and!].
  destruct Hout as (Hlog' & Hseq' & Hix' & Hrt' & Hob').
  assert (persisted mode f e db tx') as Hps.
  { split; [congruence|done| |congruence..]. rewrite Hob', Hob. f_equal. unfold copies, fetch_tenant_routing.
    by rewrite Hrt. }
  destruct (commit _ _) as [?|err] eqn:Hc; [done|]. apply run_Err in Hc as [-> ->].
  right. split_and!; [done..|]. destruct (durable_anyway f); auto.
Qed.
End Transaction.

(** C19. A chained write is all or nothing, and its error says which. A write
    reported as inserted has left exactly one row, linked to the tenant's chain
    head and carrying the hash of its own columns, with one outbox copy per
    effective target of the mode. A failure reported as dropped has left no row
    and no copy, whatever stage it came from. Only a failed or late commit is
    reported as unknown, and then row and copies are either all there or all
    absent. *)
Theorem chained_write_all_or_nothing sha256 tz outbox_targets f e mode db :
  let '(r, db') := insert_chained_event sha256 tz outbox_targets f e mode db in
  match r with
  | Ok _ => persisted sha256 tz outbox_targets mode f e db db'
  | Err err =>
      (terminal_outcome err = Dropped ∧ cw_stage err ≠ TxCommit ∧ untouched db db') ∨
      (terminal_outcome err = Unknown ∧ cw_stage err = TxCommit ∧
       (persisted sha256 tz outbox_targets mode f e db db' ∨ untouched db db'))
  end.
Proof. apply chained_write_spec. Qed.

(** ** The failure log counts every failure *)

(** How many failures a line stands for. *)
Definition accounted (l : LogLine) : Z :=
  match l with Failing _ n => 1 + n | Recovered _ r => rec_suppressed_since_last r end.

Definition total (l : list LogLine) : Z := foldr Z.add 0 (accounted <$> l).

Definition failures (writes : list (Z * bool)) : Z :=
  Z.of_nat (length (filter (λ w, w.2 = true) writes)).

Lemma line_total_app l1 l2 : total (l1 ++ l2) = total l1 + total l2.
Proof. unfold total. rewrite fmap_app, foldr_app. induction (accounted <$> l1); simpl; lia. Qed.

Lemma log_step_counts now (failed : bool) st :
  0 ≤ suppressed st < u64_max →
  let '(lines, st') :=
    if failed then record_chained_failure_log now st else record_chained_recovery_log now st in
  0 ≤ suppressed st' ∧ 0 ≤ total lines ∧
  total lines + suppressed st' = suppressed st + (if failed then 1 else 0).
Proof.
  intros Hs. destruct failed.
  - unfold record_chained_failure_log, on_failure. destruct (last_emitted st) as [x|].
    + destruct (_ <=? _); cbn; [lia|]. unfold u64_saturating_add. lia.
    + cbn. lia.
  - unfold record_chained_recovery_log, on_success.
    destruct (episode_started st), (last_failure st); cbn; try lia.
    destruct (_ <? _); cbn; lia.
Qed.

Lemma run_log_counts writes st :
  0 ≤ suppressed st → suppressed st + failures writes < u64_max →
  let '(lines, st') := run_log writes st in
  total lines + suppressed st' = suppressed st + failures writes.
Proof.
  revert st. induction writes as [|[now failed] writes IH]; intros st H0 Hmax; cbn [run_log].
  - unfold failures, total. cbn. lia.
  - assert (failures ((now, failed) :: writes) = (if failed then 1 else 0) + failures writes) as Hf.
    { unfold failures. destruct failed; rewrite ?filter_cons_True, ?filter_cons_False by done;
        rewrite ?length_cons; lia. }
    assert (0 ≤ failures writes) by (unfold failures; lia).
    assert (0 ≤ suppressed st < u64_max) as Hs by (destruct failed; lia).
    pose proof (log_step_counts now failed st Hs) as Hstep.
    destruct (if failed then record_chained_failure_log now st else _) as [lines st1].
    destruct Hstep as (Hge & Hpos & Hstep).
    assert (suppressed st1 + failures writes < u64_max) as Hlt.
    { destruct failed; lia. }
    specialize (IH st1 Hge Hlt). destruct (run_log writes st1) as [lines' st2].
    rewrite line_total_app. destruct failed; lia.
Qed.

(** The warnings of a log, with a gap of at least the interval between two. *)
Fixpoint spaced (prev : option Z) (l : list LogLine) : Prop :=
  match l with
  | [] => True
  | Failing t _ :: l' =>
      match prev with Some p => p + CHAINED_FAILURE_LOG_INTERVAL ≤ t | None => True end ∧
      spaced (Some t) l'
  | Recovered _ _ :: l' => spaced prev l'
  end.

Fixpoint in_order (t : Z) (writes : list (Z * bool)) : Prop :=
  match writes with [] => True | (now, _) :: writes' => t ≤ now ∧ in_order now writes' end.

(** The state agrees with the last warning given by time [t]. *)
Definition agrees (st : ChainedFailureLogState) (prev : option Z) (t : Z) : Prop :=
  match last_emitted st with
  | Some x => prev = Some x ∧ ∃ failed, last_failure st = Some failed ∧ x ≤ failed ≤ t
  | None => match prev with Some p => p + CHAINED_FAILURE_LOG_INTERVAL ≤ t | None => True end
  end.

Lemma run_log_spaced writes st prev t :
  agrees st prev t → in_order t writes → spaced prev (run_log writes st).1.
Proof.
  revert st prev t. induction writes as [|[now failed] writes IH]; intros st prev t Ha Ho; [done|].
  cbn [run_log]. destruct Ho as [Ht Ho]. unfold agrees in Ha.
  assert (∀ p st1 l' st2, run_log writes st1 = (l', st2) → agrees st1 p now → spaced p l') as Hnext.
  { intros p st1 l' st2 E Hag. specialize (IH st1 p now Hag Ho). by rewrite E in IH. }
  destruct failed.
  - unfold record_chained_failure_log, on_failure. destruct (last_emitted st) as [x|] eqn:Hx.
    + destruct Ha as [-> (fl & Hfl & Hb)]. destruct (_ <=? _) eqn:Hi; cbn [fst snd].
      * destruct (run_log _ _) as [l' st2] eqn:Hr. cbn. apply Z.leb_le in Hi.
        unfold duration_since, CHAINED_FAILURE_LOG_INTERVAL in *. split; [lia|].
        apply (Hnext _ _ _ _ Hr).
        split; [done|]. exists now. cbn. split; [done|lia].
      * destruct (run_log _ _) as [l' st2] eqn:Hr. cbn.
        apply (Hnext _ _ _ _ Hr).
        split; [done|]. exists now. cbn. split; [done|lia].
    + destruct (run_log _ _) as [l' st2] eqn:Hr. cbn. split; [destruct prev; [lia|done]|].
      apply (Hnext _ _ _ _ Hr).
      split; [done|]. exists now. cbn. split; [done|lia].
  - unfold record_chained_recovery_log, on_success.
    assert (agrees st prev now) as Hkeep.
    { unfold agrees. destruct (last_emitted st).
      - destruct Ha as [? (fl & ? & ?)]. split; [done|]. exists fl. split; [done|lia].
      - destruct prev; [lia|done]. }
    assert (spaced prev (run_log writes st).1) as Hsame by (by apply (IH _ _ now)).
    destruct (episode_started st), (last_failure st) as [fl|] eqn:Hfl;
      [|destruct (run_log _ _); exact Hsame..].
    destruct (_ <? _) eqn:Hi; [destruct (run_log _ _); exact Hsame|]. clear Hsame.
    destruct (run_log _ _) as [l' st2] eqn:Hr. cbn.
    apply (Hnext _ _ _ _ Hr).
    unfold agrees. cbn. apply Z.ltb_ge in Hi. unfold duration_since in Hi.
    destruct (last_emitted st) as [x|].
    + destruct Ha as [-> (fl' & [= <-] & ?)]. unfold CHAINED_FAILURE_LOG_INTERVAL in *. lia.
    + destruct prev; [lia|done].
Qed.

(** The log of failing chained writes is rate limited without losing count.
    Over any history of writes in time order, two warnings are at least ten
    seconds apart, and the warnings and recovery lines together account for every
    failure but those still held back, which the state counts exactly. *)
Theorem failure_log_counts_all writes t :
  in_order t writes → failures writes < u64_max →
  let '(lines, st) := run_log writes log_start in
  spaced None lines ∧ total lines + suppressed st = failures writes.
Proof.
  intros Ho Hmax. pose proof (run_log_spaced writes log_start None t I Ho) as Hs.
  assert (0 ≤ suppressed log_start) as H0 by done.
  pose proof (run_log_counts writes log_start H0 Hmax) as Hc.
  destruct (run_log writes log_start) as [lines st]. by split.
Qed.

Definition demo_writes : list (Z * bool) :=
  [(0, true); (5, true); (6, false); (10000000000, true); (30000000000, false)].

Lemma failure_log_counts_all_witness :
  (run_log demo_writes log_start).1 =
    [Failing 0 0; Failing 10000000000 1;
     Recovered 30000000000 {| rec_duration := 30000000000; rec_suppressed_since_last := 0 |}] ∧
  let '(lines, st) := run_log demo_writes log_start in
  spaced None lines ∧ total lines + suppressed st = failures demo_writes.
Proof.
  split; [vm_compute; reflexivity|].
  apply (failure_log_counts_all demo_writes 0);
    [repeat split; vm_compute; congruence|vm_compute; reflexivity].
Defined.

(** What the writer stores is what the verifier reads: an event's row decodes
    to the very fields its hash was computed over, with the NULLs of absent
    vectors and the four hierarchy columns turned back into the values they came
    from, and to the same canonical bytes. The time column keeps microseconds. *)
Theorem stored_row_reads_back (tz : Z → Z) e seq prev rh :
  event_typed e → Z.quot (tz (ev_ts e)) 1000 = Z.quot (ev_ts e) 1000 →
  ∃ r, from_row {| cols := columns_of tz e; lr_chain_seq := seq; lr_prev_hash := prev;
                   lr_row_hash := Some rh |} = Ok r ∧
    chain_seq r = seq ∧ prev_hash r = prev ∧ row_hash r = rh ∧
    durable (fields r) = durable (hashed_fields e) ∧
    canonical_audit_bytes_with_ext5 (fields r) = canonical_audit_bytes_with_ext5 (hashed_fields e).
Proof.
  intros He Ht. eexists. split; [by apply from_row_of_event|]. cbn [chain_seq prev_hash row_hash fields].
  split_and!; [done..| |by apply same_bytes_at_stored_time].
  unfold durable, hashed_fields, ts_micros. cbn -[Z.quot]. by rewrite Ht.
Qed.

(** A time cut to whole microseconds. *)
Definition whole_micros (t : Z) : Z := Z.quot t 1000 * 1000.

Definition demo_event : AuditEvent :=
  with_invocation_hierarchy (Some {| parent_execution_id := 7; step := 1; call_id := 8; attempt := 2 |}%N)
    (with_decision_inputs ["w"] None [] (Some true)
       (with_tool "github" "merge" (new 4660%N 1700000000123456789 "CallTool" Success))).

Lemma stored_row_reads_back_witness :
  ∃ r, from_row {| cols := columns_of whole_micros demo_event; lr_chain_seq := 3; lr_prev_hash := None;
                   lr_row_hash := Some "h" |} = Ok r ∧
    chain_seq r = 3 ∧ prev_hash r = None ∧ row_hash r = "h" ∧
    durable (fields r) = durable (hashed_fields demo_event) ∧
    canonical_audit_bytes_with_ext5 (fields r)
    = canonical_audit_bytes_with_ext5 (hashed_fields demo_event).
Proof.
  apply (stored_row_reads_back whole_micros demo_event 3 None "h");
    [split; split; vm_compute; congruence|vm_compute; reflexivity].
Defined.

End AuditLog.
