(* ===== verification/Sweep.v ===== *)
(** * Retention sweeps

    Model of crates/waygate-storage/src/sweep.rs and retention.rs on the tables of
    [AuditLog], with the two SQL functions a sweep calls (migrations 0074 and
    0075): candidate selection, the grouping of candidates into chain segments,
    the marker rows, the guarded delete, and the scheduler that applies the
    tenants' policies. A sweep holds the tenant's advisory lock, so it is one step
    here; its [SweepFaults] say what the database, the clock and the id generator
    do. The JSON text of a marker ([to_reason], [from_str]) is a parameter, also
    for the SQL functions, which read the same text. *)

From S2P Require Import Prelude RustStr Encoding HashChain Bridges Evidence AuditLog.

Module Sweep.
Import HashChain.HashChain.
Import Bridges.Bridges.
Import AuditLog.AuditLog.

(** ** Policies *)

Record RetentionPolicy := {
  rp_tenant_id : string;
  rp_category : string;
  delete_after_days : Z;
  created_at : Z;
  updated_at : Z;
}.

#[export] Instance policy_eq_dec : EqDecision RetentionPolicy.
Proof. solve_decision. Defined.

Definition resolve_policy (explicit : list RetentionPolicy) (wildcard : option RetentionPolicy)
    (category : string) : option RetentionPolicy :=
  match find_first (λ p, bool_decide (rp_category p = category)) explicit with
  | Some p => Some p
  | None => wildcard
  end.

Definition category_le (a b : RetentionPolicy) : Prop := str_le (rp_category a) (rp_category b).
#[export] Instance category_le_dec a b : Decision (category_le a b).
Proof. unfold category_le. apply _. Defined.

(** ** Selection and policy guard *)

Definition FORBIDDEN_SWEEP_CATEGORY : string := "retention_sweep".
Definition RETENTION_SWEEP_BATCH_ROWS : nat := 500.
Definition RETENTION_SWEEP_QUERY_ROWS : nat := S RETENTION_SWEEP_BATCH_ROWS.

Inductive SweepSelection :=
  | ExactCategory (category : string)
  | RemainingCategories (excluded : list string).

Inductive PolicyGuard :=
  | Effective (target_category : string) (expected : RetentionPolicy)
  | WildcardTenant (expected : list RetentionPolicy).

Definition report_label (s : SweepSelection) : string :=
  match s with ExactCategory c => c | RemainingCategories _ => "*" end.

Record SweepReport := {
  sr_tenant_id : string;
  sr_category : string;
  sr_cutoff : Z;
  markers_written : nat;
  rows_deleted : Z;
  batch_limit_reached : bool;
}.

Inductive SweepError :=
  | Sqlx (detail : string)
  | ForbiddenCategory (category : string)
  | PolicyChanged (tenant_id scope : string).

(** The tenant's policies, [ORDER BY category ASC]. *)
Definition current_policies (policies : list RetentionPolicy) (tenant_id : string)
  : list RetentionPolicy :=
  merge_sort category_le (filter (λ p, rp_tenant_id p = tenant_id) policies).

Definition validate_policy_guard (policies : list RetentionPolicy) (tenant_id : string)
    (guard : PolicyGuard) : result unit SweepError :=
  let current := current_policies policies tenant_id in
  match guard with
  | Effective target_category expected =>
      let effective :=
        match find_first (λ p, bool_decide (rp_category p = target_category)) current with
        | Some p => Some p
        | None => find_first (λ p, bool_decide (rp_category p = "*")) current
        end in
      if bool_decide (effective ≠ Some expected) then Err (PolicyChanged tenant_id target_category)
      else Ok tt
  | WildcardTenant expected =>
      if bool_decide (current = merge_sort category_le expected) then Ok tt
      else Err (PolicyChanged tenant_id "*")
  end.

(** ** Candidates *)

Record CandidateRow := {
  cd_id : Uuid;
  cd_chain_seq : Z;
  cd_prev_hash : option string;
  cd_row_hash : option string;
}.

Definition candidate_of (r : LogRow) : CandidateRow :=
  {| cd_id := c_id (cols r); cd_chain_seq := lr_chain_seq r; cd_prev_hash := lr_prev_hash r;
     cd_row_hash := lr_row_hash r |}.

(** [COALESCE(category, 'invocation')] *)
Definition coalesced (r : LogRow) : string := default "invocation" (c_category (cols r)).

(** The WHERE clause of the candidate query. *)
Definition selected (tenant_id : string) (selection : SweepSelection) (cutoff : Z) (r : LogRow)
  : bool :=
  bool_decide (c_tenant_id (cols r) = tenant_id) &&
  match selection with
  | ExactCategory category =>
      bool_decide (coalesced r = category) &&
      negb (bool_decide (coalesced r = FORBIDDEN_SWEEP_CATEGORY))
  | RemainingCategories excluded =>
      negb (bool_decide (coalesced r = FORBIDDEN_SWEEP_CATEGORY)) &&
      negb (bool_decide (coalesced r ∈ excluded))
  end &&
  (c_ts (cols r) <? cutoff).

Definition ts_le (a b : LogRow) : Prop := c_ts (cols a) ≤ c_ts (cols b).
#[export] Instance ts_le_dec a b : Decision (ts_le a b) := Z_le_dec _ _.

(** [ORDER BY ts ASC LIMIT $4]; equal times in table order. *)
Definition query_candidates (tenant_id : string) (selection : SweepSelection) (cutoff : Z) (db : Db)
  : list LogRow :=
  take RETENTION_SWEEP_QUERY_ROWS
    (merge_sort ts_le (filter (λ r, selected tenant_id selection cutoff r = true) (audit_log db))).

Definition cd_seq_le (a b : CandidateRow) : Prop := cd_chain_seq a ≤ cd_chain_seq b.
#[export] Instance cd_seq_le_dec a b : Decision (cd_seq_le a b) := Z_le_dec _ _.

(** [truncate], then [sort_unstable_by_key] on the unique [chain_seq]. *)
Definition sorted_candidates (rows : list LogRow) : list CandidateRow :=
  merge_sort cd_seq_le (candidate_of <$> take RETENTION_SWEEP_BATCH_ROWS rows).

Definition unchained_rows (candidates : list CandidateRow) : list DeletedUnchainedRow :=
  (λ c, {| un_id := cd_id c; un_chain_seq := cd_chain_seq c |})
    <$> filter (λ c, is_some (cd_row_hash c) = false) candidates.

(** One turn of the loop: finished segments, the current one, the last hash. *)
Definition push_candidate (st : list (list DeletedRow) * list DeletedRow * option string)
    (c : CandidateRow) : list (list DeletedRow) * list DeletedRow * option string :=
  let '(segments, current, last_row_hash) := st in
  match cd_row_hash c with
  | None => st
  | Some rh =>
      let row_continuous :=
        match last_row_hash, cd_prev_hash c with
        | Some prev, Some this => bool_decide (prev = this)
        | _, _ => false
        end in
      let '(segments, current) :=
        if nonempty current && negb row_continuous then (segments ++ [current], [])
        else (segments, current) in
      (segments, current ++ [{| del_prev_hash := cd_prev_hash c; del_row_hash := rh |}], Some rh)
  end.

Definition group_into_chain_segments (candidates : list CandidateRow) : list (list DeletedRow) :=
  let '(segments, current, _) := foldl push_candidate ([], [], None) candidates in
  if nonempty current then segments ++ [current] else segments.

Definition chain_seq_for_row_hash (candidates : list CandidateRow) (rh : string) : option Z :=
  cd_chain_seq <$> find_first (λ c, bool_decide (cd_row_hash c = Some rh)) candidates.

(** ** The sweep *)

Record SweepFaults := {
  sf_error : option string;
  sf_marker_id : nat → Uuid;
  sf_marker_ts : nat → Z;
  sf_seq_skip : nat → N;
  sf_commit_error : option string;
  sf_durable_anyway : bool;
}.

Section Sweeping.
Context (sha256 : bytes → bytes) (timestamptz : Z → Z).
Context (from_str : string → option RetentionMarker) (to_reason : RetentionMarker → string).

Definition marker_fields (marker_id : Uuid) (ts : Z) (tenant_id reason : string) : AuditFields :=
  {| id := marker_id; ts := ts; category := "retention_sweep"; tenant := tenant_id;
     action := "retention.sweep"; outcome := "success"; principal_sub := None;
     principal_email := None; principal_groups := []; issuer := None; server := None;
     tool := None; risk_level := None; pii := None; policy_ids := []; reason := Some reason;
     trace_id := None; latency_ms := None; scim_active := None; scim_groups := [];
     target := None; req_scopes := []; auth_method := None; req_roles := [];
     side_effects := None; acting_agent := None; invocation_hierarchy := None;
     operation := None |}.

Definition marker_columns (marker_id : Uuid) (ts : Z) (tenant_id reason : string) : Columns :=
  {| c_id := marker_id; c_ts := timestamptz ts; c_category := Some "retention_sweep";
     c_tenant_id := tenant_id; c_action := "retention.sweep"; c_outcome := "success";
     c_principal_sub := None; c_principal_email := None; c_principal_groups := [];
     c_issuer := None; c_server := None; c_tool := None; c_risk_level := None; c_pii := None;
     c_policy_ids := []; c_reason := Some reason; c_trace_id := None; c_latency_ms := None;
     c_scim_active := None; c_scim_groups := None; c_target := None; c_req_scopes := None;
     c_auth_method := None; c_req_roles := None; c_side_effects := None; c_acting_agent := None;
     c_parent_execution_id := None; c_execution_step := None; c_execution_call_id := None;
     c_execution_attempt := None; c_operation := None |}.

Definition set_index (ix : list IndexRow) (db : Db) : Db :=
  {| audit_log := audit_log db; next_chain_seq := next_chain_seq db;
     evidence_outbox := evidence_outbox db; bridge_index := ix;
     tenant_evidence_routing := tenant_evidence_routing db |}.

(** A chain-bearing marker row. *)
Definition is_marker_row (r : LogRow) : bool :=
  bool_decide (c_category (cols r) = Some FORBIDDEN_SWEEP_CATEGORY) && is_some (lr_row_hash r).

(** [audit_retention_bridge_index_marker] *)
Definition index_marker (marker_id : Uuid) (db : Db) : result Db string :=
  match find_first (λ r, bool_decide (c_id (cols r) = marker_id) && is_marker_row r &&
                         is_some (c_reason (cols r))) (audit_log db) with
  | None => Err "query returned no rows"
  | Some r =>
      match from_str (default "" (c_reason (cols r))) with
      | None => Err "invalid input syntax for type json"
      | Some m =>
          if negb (bool_decide (kind m = KIND)) then Err "retention bridge index: marker kind is invalid"
          else match marker_bridge m with
               | None => Ok db
               | Some b =>
                   if bool_decide (end_ b = "") then
                     Err "retention bridge index: final row_hash is required"
                   else if existsb (λ x, bool_decide (ix_marker_id x = marker_id)) (bridge_index db)
                   then Ok db
                   else if existsb (λ x, bool_decide (ix_tenant_id x = c_tenant_id (cols r)) &&
                                         bool_decide (ix_start_hash x = start b)) (bridge_index db)
                   then Err "duplicate key value violates unique constraint"
                   else Ok (set_index (bridge_index db ++
                              [{| ix_marker_id := marker_id; ix_tenant_id := c_tenant_id (cols r);
                                  ix_start_hash := start b; ix_end_hash := end_ b |}]) db)
               end
      end
  end.

(** [audit_log_sweep_delete]: a row is covered by one of the given markers. *)
Definition covered_by (marker_ids : list Uuid) (log : list LogRow) (tenant_id : string) (al : LogRow)
  : bool :=
  existsb (λ m,
    bool_decide (c_id (cols m) ∈ marker_ids) && bool_decide (c_tenant_id (cols m) = tenant_id) &&
    is_marker_row m &&
    match c_reason (cols m) ≫= from_str with
    | None => false
    | Some payload =>
        match lr_row_hash al with
        | None => existsb (λ d, bool_decide (un_id d = c_id (cols al)) &&
                                bool_decide (un_chain_seq d = lr_chain_seq al))
                    (deleted_unchained_rows payload)
        | Some rh => existsb (λ d, bool_decide (del_row_hash d = rh)) (deleted_rows payload)
        end
    end) log.

(** The WHERE clause of the DELETE. *)
Definition doomed (tenant_id : string) (ids : list Uuid) (r : LogRow) : bool :=
  bool_decide (c_tenant_id (cols r) = tenant_id) && bool_decide (c_id (cols r) ∈ ids) &&
  negb (bool_decide (c_category (cols r) = Some FORBIDDEN_SWEEP_CATEGORY)).

Definition sweep_delete (tenant_id : string) (ids marker_ids : list Uuid) (db : Db)
  : result (Z * Db) string :=
  let expected_count := length ids in
  let marker_count := length marker_ids in
  if (expected_count =? 0)%nat then Ok (0, db)
  else if (500 <? expected_count)%nat || (marker_count =? 0)%nat || (expected_count <? marker_count)%nat
  then Err "audit_log_sweep_delete: bounded marker-coverage precondition violated"
  else
    let covered := filter (λ al, bool_decide (c_id (cols al) ∈ ids) &&
                                 bool_decide (c_tenant_id (cols al) = tenant_id) &&
                                 covered_by marker_ids (audit_log db) tenant_id al = true)
                     (audit_log db) in
    if negb (length covered =? expected_count)%nat then
      Err "audit_log_sweep_delete: marker-coverage precondition violated"
    else
      Ok (Z.of_nat (length (filter (λ r, doomed tenant_id ids r = true) (audit_log db))),
          set_log (filter (λ r, doomed tenant_id ids r = false) (audit_log db))
            (next_chain_seq db) db).

Definition payload_of (tenant_id label : string) (candidates : list CandidateRow)
    (unchained : list DeletedUnchainedRow) (segment_index : nat) (segment : list DeletedRow)
  : RetentionMarker :=
  {| kind := KIND; deleted_rows := segment;
     deleted_unchained_rows := if (segment_index =? 0)%nat then unchained else [];
     deleted_chain_seq_min := head segment ≫= λ d, chain_seq_for_row_hash candidates (del_row_hash d);
     deleted_chain_seq_max := last segment ≫= λ d, chain_seq_for_row_hash candidates (del_row_hash d);
     policy := Some ("retention/" +:+ tenant_id +:+ "/" +:+ label) |}.

(** The INSERT of one marker with its trigger, then the explicit indexing. *)
Definition write_marker (f : SweepFaults) (tenant_id label : string) (candidates : list CandidateRow)
    (unchained : list DeletedUnchainedRow) (i : nat) (chain_head : option string)
    (segment : list DeletedRow) (tx : Db) : result (string * Db) string * Db :=
  let reason := to_reason (payload_of tenant_id label candidates unchained i segment) in
  let marker_id := sf_marker_id f i in
  let rh := compute_row_hash sha256 chain_head
              (canonical_audit_bytes (marker_fields marker_id (sf_marker_ts f i) tenant_id reason)) in
  let '(inserted, tx1) :=
    insert_row (sf_seq_skip f i) (marker_columns marker_id (sf_marker_ts f i) tenant_id reason)
      chain_head (Some rh) tx in
  (match inserted with
   | Err e => Err e
   | Ok _ =>
       match index_marker marker_id tx1 with
       | Err e => Err e
       | Ok tx2 => Ok (rh, tx2)
       end
   end, tx1).

Fixpoint write_markers (f : SweepFaults) (tenant_id label : string) (candidates : list CandidateRow)
    (unchained : list DeletedUnchainedRow) (i : nat) (chain_head : option string)
    (segments : list (list DeletedRow)) (tx : Db) : result (list Uuid) string * Db :=
  match segments with
  | [] => (Ok [], tx)
  | segment :: segments' =>
      match write_marker f tenant_id label candidates unchained i chain_head segment tx with
      | (Err e, tx1) => (Err e, tx1)
      | (Ok (rh, tx2), _) =>
          let '(r, tx3) :=
            write_markers f tenant_id label candidates unchained (S i) (Some rh) segments' tx2 in
          (match r with Ok ids => Ok (sf_marker_id f i :: ids) | Err e => Err e end, tx3)
      end
  end.

(** The destructive part of the transaction: markers, then the delete. *)
Definition sweep_candidates (f : SweepFaults) (tenant_id label : string)
    (candidates : list CandidateRow) (db : Db) : result (nat * Z) string * Db :=
  let ids := cd_id <$> candidates in
  let unchained := unchained_rows candidates in
  let segments := match group_into_chain_segments candidates with [] => [[]] | s => s end in
  let '(r, tx) := write_markers f tenant_id label candidates unchained 0
                    (chain_head_hash tenant_id db) segments db in
  match r with
  | Err e => (Err e, rolled_back db tx)
  | Ok marker_ids =>
      match sweep_delete tenant_id ids marker_ids tx with
      | Err e => (Err e, rolled_back db tx)
      | Ok (n, tx') =>
          match sf_error f with
          | Some e => (Err e, rolled_back db tx)
          | None => (Ok (length marker_ids, Z.max 0 n), tx')
          end
      end
  end.

Definition run_retention_sweep_selection (policies : list RetentionPolicy) (f : SweepFaults)
    (tenant_id : string) (selection : SweepSelection) (cutoff : Z) (policy_guard : option PolicyGuard)
    (db : Db) : result SweepReport SweepError * Db :=
  let report m n b := {| sr_tenant_id := tenant_id; sr_category := report_label selection;
                         sr_cutoff := cutoff; markers_written := m; rows_deleted := n;
                         batch_limit_reached := b |} in
  let guarded := match policy_guard with
                 | Some guard => validate_policy_guard policies tenant_id guard
                 | None => Ok tt
                 end in
  match guarded with
  | Err e => (Err e, db)
  | Ok _ =>
      let rows := query_candidates tenant_id selection cutoff db in
      let limit_reached := (RETENTION_SWEEP_BATCH_ROWS <? length rows)%nat in
      let candidates := sorted_candidates rows in
      let finish (r : result (nat * Z * bool) string) (tx : Db) :=
        match r with
        | Err e => (Err (Sqlx e), tx)
        | Ok (m, n, b) =>
            match sf_commit_error f with
            | Some e => (Err (Sqlx e), if sf_durable_anyway f then tx else rolled_back db tx)
            | None => (Ok (report m n b), tx)
            end
        end in
      match candidates with
      | [] => finish (Ok (0%nat, 0, false)) db
      | _ =>
          let '(r, tx) := sweep_candidates f tenant_id (report_label selection) candidates db in
          finish (match r with Ok (m, n) => Ok (m, n, limit_reached) | Err e => Err e end) tx
      end
  end.

Definition run_retention_sweep (policies : list RetentionPolicy) (f : SweepFaults)
    (tenant_id category : string) (cutoff : Z) (db : Db) : result SweepReport SweepError * Db :=
  if bool_decide (category = FORBIDDEN_SWEEP_CATEGORY) then (Err (ForbiddenCategory category), db)
  else run_retention_sweep_selection policies f tenant_id (ExactCategory category) cutoff None db.

(** The [Sweeper] methods of [PgSweeper]. *)
Definition sweep_remaining_categories policies f tenant_id excluded cutoff db :=
  run_retention_sweep_selection policies f tenant_id (RemainingCategories excluded) cutoff None db.

Definition sweep_if_policy_current policies f tenant_id category cutoff expected db :=
  run_retention_sweep_selection policies f tenant_id (ExactCategory category) cutoff
    (Some (Effective category expected)) db.

Definition sweep_remaining_categories_if_policies_current policies f tenant_id excluded cutoff
    expected db :=
  run_retention_sweep_selection policies f tenant_id (RemainingCategories excluded) cutoff
    (Some (WildcardTenant expected)) db.

End Sweeping.
End Sweep.
