(* ===== verification/AuditHistory.v ===== *)
(** * What recorder and sweeper do to a chain over time

    Every chain-bearing row a tenant ever had, in order, is its history; the table
    holds the rows of it that no sweep deleted. This file states what relates the
    two ([Inv]): the history is an unbroken chain, the deleted rows are tiled by
    segments, each vouched for by a marker later in the history, and the locator
    table lists those markers. Recorder writes and sweeps preserve it. *)

From S2P Require Import Prelude RustStr Encoding HashChain Bridges ChainVerify Evidence AuditLog Sweep.

Module AuditHistory.
Import HashChain.HashChain.
Import Bridges.Bridges.
Import ChainVerify(ChainVerifyRow, fields, chain_seq, prev_hash, row_hash, recompute_row_hash,
  sealed_row, row_input, sealed_hash).
Import AuditLog.AuditLog.
Import Sweep.Sweep.

(** ** Boundaries

    Boundary [i] of a history lies before its [i]th row; its hash is what that
    row names as its predecessor. *)

Definition hash_at (H : list LogRow) (i : nat) : option string :=
  match i with O => None | S k => H !! k ≫= lr_row_hash end.

Lemma hash_at_app H M i : (i ≤ length H)%nat → hash_at (H ++ M) i = hash_at H i.
Proof. destruct i as [|k]; [done|]. intros Hk. cbn. by rewrite lookup_app_l by lia. Qed.

Section Chain.
Context (sha256 : bytes → bytes).
Hypothesis sha256_length : ∀ m, length (sha256 m) = 32%nat.

(** The row decodes and carries the hash of its columns. *)
Definition sealed (r : LogRow) : Prop := ∃ v, from_row r = Ok v ∧ sealed_row sha256 v.

Definition genuine (H : list LogRow) : Prop :=
  ∀ i r, H !! i = Some r → lr_prev_hash r = hash_at H i ∧ sealed r.

(** What was hashed for a row. *)
Definition log_input (r : LogRow) : bytes :=
  match from_row r with Ok v => row_input v | Err _ => [] end.

Lemma from_row_Ok r v :
  from_row r = Ok v →
  lr_row_hash r = Some (row_hash v) ∧ prev_hash v = lr_prev_hash r ∧ chain_seq v = lr_chain_seq r.
Proof.
  unfold from_row. destruct (lr_row_hash r); [|done].
  destruct (invocation_hierarchy_from_row _); [|done]. by intros [= <-].
Qed.

Lemma genuine_snoc H r :
  genuine H → lr_prev_hash r = hash_at H (length H) → sealed r → genuine (H ++ [r]).
Proof.
  intros Hg Hp Hs i r' Hi. apply lookup_snoc_inv in Hi as [Hi|[-> ->]].
  - pose proof (lookup_lt_Some _ _ _ Hi). rewrite hash_at_app by lia. eauto.
  - by rewrite hash_at_app.
Qed.

Lemma boundary_hash H i :
  genuine H → (0 < i ≤ length H)%nat →
  ∃ s, hash_at H i = Some s ∧ no_nul s ∧ s ≠ "".
Proof.
  intros Hg Hi. destruct i as [|k]; [lia|].
  destruct (lookup_lt_is_Some_2 H k) as [r Hr]; [lia|]. destruct (Hg k r Hr) as [_ (v & Hv & Hs)].
  cbn. rewrite Hr. cbn. destruct (from_row_Ok _ _ Hv) as (-> & _). eexists. split; [done|].
  by eapply sealed_hash.
Qed.

Lemma boundary_name H i :
  genuine H → (i ≤ length H)%nat →
  no_nul (default "" (hash_at H i)) ∧ (hash_at H i = None ∨ default "" (hash_at H i) ≠ "").
Proof.
  intros Hg Hi. destruct (decide (i = 0%nat)) as [->|]; [split; [apply not_elem_of_nil|by left]|].
  destruct (boundary_hash H i Hg) as (s & -> & ? & ?); [lia|]. split; [done|by right].
Qed.

(** Without a collision among its inputs no two boundaries share a hash. *)
Lemma boundaries_distinct H :
  genuine H → ¬ collision sha256 (log_input <$> H) →
  ∀ i j, (i ≤ length H)%nat → (j ≤ length H)%nat → hash_at H i = hash_at H j → i = j.
Proof.
  intros Hg Hnc. assert (∀ i j, (i < j)%nat → (j ≤ length H)%nat → hash_at H i ≠ hash_at H j) as Hlt.
  2:{ intros i j Hi Hj Heq. destruct (Nat.lt_trichotomy i j) as [?|[?|?]]; [|done|];
        [by destruct (Hlt i j)|by destruct (Hlt j i)]. }
  induction i as [|i IH]; intros j Hij Hj Heq.
  - destruct (boundary_hash H j Hg) as (s & Hs & _); [lia|]. by rewrite Hs in Heq.
  - destruct j as [|j]; [lia|].
    destruct (lookup_lt_is_Some_2 H i) as [r Hr]; [lia|]. destruct (lookup_lt_is_Some_2 H j) as [q Hq]; [lia|].
    cbn in Heq. rewrite Hr, Hq in Heq. cbn in Heq.
    destruct (Hg i r Hr) as [Hrp (v & Hv & Hsv)], (Hg j q Hq) as [Hqp (w & Hw & Hsw)].
    destruct (from_row_Ok _ _ Hv) as (Ev & Ep & _), (from_row_Ok _ _ Hw) as (Ew & Eq & _).
    rewrite Ev, Ew in Heq. injection Heq as Heq. rewrite <- Hsv, <- Hsw in Heq.
    destruct (boundary_name H i Hg) as [Hn1 Hm1]; [lia|]. destruct (boundary_name H j Hg) as [Hn2 Hm2]; [lia|].
    apply row_hash_inj in Heq as [[Hprev _]|Hc].
    + rewrite Ep, Eq, Hrp, Hqp in Hprev. apply (IH j); [lia..|].
      destruct (hash_at H i), (hash_at H j); destruct Hm1, Hm2; simpl in *; congruence.
    + apply Hnc. revert Hc. apply collision_mono. intros x Hx. apply list_elem_of_fmap.
      apply elem_of_cons in Hx as [->|Hx]; [|apply list_elem_of_singleton in Hx as ->].
      * exists r. split; [unfold log_input; by rewrite Hv|]. by eapply list_elem_of_lookup_2.
      * exists q. split; [unfold log_input; by rewrite Hw|]. by eapply list_elem_of_lookup_2.
    + by rewrite Ep, Hrp.
    + by rewrite Eq, Hqp.
Qed.

(** ** Segments of a history *)

(** The fingerprints of rows [a] to [b] (exclusive). *)
Definition fingerprint (r : LogRow) : DeletedRow :=
  {| del_prev_hash := lr_prev_hash r; del_row_hash := default "" (lr_row_hash r) |}.

Definition segment (H : list LogRow) (iv : nat * nat) : list DeletedRow :=
  fingerprint <$> take (iv.2 - iv.1) (drop iv.1 H).

Lemma segment_one H a r : H !! a = Some r → segment H (a, S a) = [fingerprint r].
Proof.
  intros Hr. unfold segment. cbn [fst snd]. replace (S a - a)%nat with 1%nat by lia.
  by rewrite (drop_S _ _ _ Hr).
Qed.

Lemma segment_snoc H a b r :
  (a ≤ b)%nat → H !! b = Some r → segment H (a, S b) = segment H (a, b) ++ [fingerprint r].
Proof.
  intros Hab Hr. unfold segment. cbn [fst snd]. replace (S b - a)%nat with (S (b - a)) by lia.
  rewrite (take_S_r _ _ r); [by rewrite fmap_app|]. rewrite lookup_drop. by replace (a + (b - a))%nat with b by lia.
Qed.

Lemma segment_lookup H a b k d :
  segment H (a, b) !! k = Some d ↔ (a + k < b)%nat ∧ ∃ r, H !! (a + k)%nat = Some r ∧ d = fingerprint r.
Proof.
  unfold segment. cbn [fst snd]. rewrite list_lookup_fmap_Some. split.
  - intros (r & -> & Hr). apply lookup_take_Some in Hr as [Hr Hk]. rewrite lookup_drop in Hr.
    split; [lia|]. by exists r.
  - intros [Hk (r & Hr & ->)]. exists r. split; [done|]. rewrite lookup_take_lt by lia. by rewrite lookup_drop.
Qed.

Lemma segment_length H a b : (b ≤ length H)%nat → length (segment H (a, b)) = (b - a)%nat.
Proof. intros Hb. unfold segment. cbn. rewrite length_fmap, length_take, length_drop. lia. Qed.

Lemma segment_bridge H a b m :
  genuine H → (a < b ≤ length H)%nat → deleted_rows m = segment H (a, b) →
  marker_bridge m = Some {| start := hash_at H a; end_ := default "" (hash_at H b) |}.
Proof.
  intros Hg Hab Hm. unfold marker_bridge. rewrite Hm.
  destruct (lookup_lt_is_Some_2 H a) as [r Hr]; [lia|].
  destruct (lookup_lt_is_Some_2 H (b - 1)) as [q Hq]; [lia|].
  assert (segment H (a, b) !! 0%nat = Some (fingerprint r)) as H0.
  { apply segment_lookup. split; [lia|]. exists r. by rewrite Nat.add_0_r. }
  assert (last (segment H (a, b)) = Some (fingerprint q)) as Hl.
  { rewrite last_lookup, segment_length by lia. apply segment_lookup. split; [lia|].
    exists q. split; [|done]. rewrite <- Hq. f_equal. lia. }
  rewrite Hl. destruct (segment H (a, b)) as [|d ds]; [done|]. injection H0 as ->. cbn.
  destruct (Hg a r Hr) as [-> _]. do 2 f_equal. destruct b as [|b']; [lia|].
  cbn. replace (S b' - 1)%nat with b' in Hq by lia. by rewrite Hq.
Qed.

(** ** Markers over a segment are well formed *)

Lemma linked_intro (l : list DeletedRow) :
  (∀ k d e, l !! k = Some d → l !! S k = Some e → del_prev_hash e = Some (del_row_hash d)) →
  linked l = true.
Proof.
  induction l as [|d l IH]; intros Hl; [done|]. cbn [linked]. destruct l as [|e l]; [done|].
  rewrite bool_decide_eq_true_2 by (by apply (Hl 0%nat)). simpl. apply IH.
  intros k x y Hx Hy. by apply (Hl (S k)).
Qed.

Lemma all_new_intro {K} `{Countable K} (l : list K) (seen : gset K) :
  NoDup l → (∀ x, x ∈ l → x ∉ seen) → all_new seen l = true.
Proof.
  intros Hnd. revert seen. induction Hnd as [|x l Hx Hnd IH]; intros seen Hs; [done|].
  cbn [all_new]. rewrite bool_decide_eq_false_2 by (apply Hs; left). apply IH. set_solver.
Qed.

Lemma segment_validates H a b m :
  genuine H → ¬ collision sha256 (log_input <$> H) → (b ≤ length H)%nat →
  kind m = KIND → deleted_rows m = segment H (a, b) →
  NoDup (un_id <$> deleted_unchained_rows m) →
  nonempty (deleted_rows m) = true ∨ nonempty (deleted_unchained_rows m) = true →
  validate m = true.
Proof.
  intros Hg Hnc Hb Hk Hd Hu Hne. unfold validate. rewrite bool_decide_eq_true_2 by done. cbn [negb].
  replace (negb (nonempty (deleted_rows m)) && negb (nonempty (deleted_unchained_rows m)))%bool
    with false by (destruct Hne as [-> | ->]; by rewrite ?andb_false_r).
  assert (∀ k d, deleted_rows m !! k = Some d →
    (a + k < b)%nat ∧ hash_at H (S (a + k)) = Some (del_row_hash d) ∧ del_prev_hash d = hash_at H (a + k)) as Hat.
  { intros k d Hdk. rewrite Hd in Hdk. apply segment_lookup in Hdk as [Hlt (r & Hr & ->)].
    destruct (Hg _ r Hr) as [Hp (v & Hv & _)]. destruct (from_row_Ok _ _ Hv) as (Hrh & _).
    split; [done|]. cbn. rewrite Hr. cbn. by rewrite Hrh. }
  rewrite linked_intro; cbn [negb].
  - rewrite all_new_intro; cbn [negb]; [by apply all_new_intro| |set_solver].
    apply NoDup_alt. intros i j s Hi Hj.
    apply list_lookup_fmap_Some in Hi as (d & -> & Hdi). apply list_lookup_fmap_Some in Hj as (e & Heq & Hej).
    destruct (Hat _ _ Hdi) as (? & Hh1 & _), (Hat _ _ Hej) as (? & Hh2 & _).
    rewrite Heq in Hh1. rewrite <- Hh2 in Hh1. apply boundaries_distinct in Hh1; [lia|done|done|lia..].
  - intros k d e Hdk Hek. destruct (Hat _ _ Hdk) as (_ & Hh & _), (Hat _ _ Hek) as (_ & _ & ->).
    rewrite <- Hh. f_equal. lia.
Qed.

(** ** Grouping candidates finds the runs of their positions *)

Definition within (ivs : list (nat * nat)) (p : nat) : Prop :=
  ∃ iv, iv ∈ ivs ∧ (iv.1 ≤ p < iv.2)%nat.

Definition before (i j : nat * nat) : Prop := (i.2 ≤ j.1)%nat.

(** Disjoint non-empty intervals in order, that cover exactly [ps]. *)
Record tiles (ps : list nat) (ivs : list (nat * nat)) : Prop := {
  ti_order : StronglySorted before ivs;
  ti_nonempty : Forall (λ iv, iv.1 < iv.2)%nat ivs;
  ti_cover : ∀ p, p ∈ ps ↔ within ivs p;
}.

Lemma tiles_end ps ivs iv p :
  tiles ps ivs → iv ∈ ivs → (∀ q, q ∈ ps → q < p)%nat → (iv.2 ≤ p)%nat.
Proof.
  intros [_ Hne Hc] Hin Hlt. rewrite Forall_forall in Hne. specialize (Hne _ Hin).
  assert (iv.2 - 1 ∈ ps)%nat as Hp by (apply Hc; exists iv; split; [done|lia]).
  apply Hlt in Hp. lia.
Qed.

Lemma tiles_new ps ivs p :
  tiles ps ivs → (∀ q, q ∈ ps → q < p)%nat → tiles (ps ++ [p]) (ivs ++ [(p, S p)]).
Proof.
  intros Ht Hlt. split.
  - apply StronglySorted_app_2; [|apply Ht|repeat constructor].
    intros x y Hx ->%list_elem_of_singleton. by apply (tiles_end ps ivs x p Ht).
  - apply Forall_app. split; [apply Ht|]. apply Forall_singleton. cbn. lia.
  - intros q. rewrite elem_of_app, (ti_cover _ _ Ht), list_elem_of_singleton. unfold within.
    setoid_rewrite elem_of_app. setoid_rewrite list_elem_of_singleton. split.
    + intros [(iv & ? & ?)| ->]; [by exists iv; auto|]. exists (p, S p). cbn. split; [auto|lia].
    + intros (iv & [?| ->] & Hin); [left; by exists iv|]. cbn in Hin. right. lia.
Qed.

Lemma tiles_extend ps ivs a p :
  tiles ps (ivs ++ [(a, p)]) → tiles (ps ++ [p]) (ivs ++ [(a, S p)]).
Proof.
  intros [Ho Hne Hc]. apply Forall_app in Hne as [Hne Hap]. rewrite Forall_singleton in Hap. cbn in Hap.
  split.
  - apply StronglySorted_app_2; [|by eapply StronglySorted_app_1_l|repeat constructor].
    intros x y Hx ->%list_elem_of_singleton.
    apply (StronglySorted_app_1_elem_of _ _ _ x (a, p) Ho Hx). by apply list_elem_of_singleton.
  - apply Forall_app. split; [done|]. apply Forall_singleton. cbn. lia.
  - intros q. rewrite elem_of_app, Hc, list_elem_of_singleton. unfold within.
    setoid_rewrite elem_of_app. setoid_rewrite list_elem_of_singleton. split.
    + intros [(iv & [?| ->] & Hin)| ->].
      * exists iv. auto.
      * cbn in Hin. exists (a, S p). cbn. split; [auto|lia].
      * exists (a, S p). cbn. split; [auto|lia].
    + intros (iv & [?| ->] & Hin); [left; exists iv; auto|]. cbn in Hin.
      destruct (decide (q = p)); [auto|]. left. exists (a, p). cbn. split; [auto|lia].
Qed.

Definition loop_state (H : list LogRow) (ivs : list (nat * nat)) (o : option (nat * nat))
  : list (list DeletedRow) * list DeletedRow * option string :=
  (segment H <$> ivs, match o with Some iv => segment H iv | None => [] end,
   o ≫= λ iv, hash_at H iv.2).

Section Grouping.
Context (H : list LogRow).
Hypothesis Hgenuine : genuine H.
Hypothesis Hfresh : ¬ collision sha256 (log_input <$> H).

Lemma push_candidate_row ps ivs o p r :
  tiles ps (ivs ++ option_list o) → (o = None → ivs = []) →
  (∀ q, q ∈ ps → q < p)%nat → H !! p = Some r →
  ∃ ivs' iv', push_candidate (loop_state H ivs o) (candidate_of r) = loop_state H ivs' (Some iv') ∧
    tiles (ps ++ [p]) (ivs' ++ [iv']).
Proof.
  intros Ht Ho Hlt Hr. destruct (Hgenuine p r Hr) as [Hp (v & Hv & _)].
  destruct (from_row_Ok _ _ Hv) as (Hrh & _). pose proof (lookup_lt_Some _ _ _ Hr) as Hpl.
  assert (hash_at H (S p) = Some (row_hash v)) as Hnext by (cbn; by rewrite Hr).
  assert (fingerprint r = {| del_prev_hash := lr_prev_hash r; del_row_hash := row_hash v |}) as Hfp
    by (unfold fingerprint; by rewrite Hrh).
  unfold push_candidate, loop_state. cbn [cd_row_hash cd_prev_hash candidate_of]. rewrite Hrh.
  destruct o as [[a b]|]; cbn [option_list mbind option_bind] in *.
  - assert ((a, b) ∈ ivs ++ [(a, b)]) as Hin by (apply elem_of_app; right; left).
    pose proof (tiles_end _ _ _ _ Ht Hin Hlt) as Hbp. cbn in Hbp.
    pose proof (ti_nonempty _ _ Ht) as Hne. rewrite Forall_forall in Hne. specialize (Hne _ Hin). cbn in Hne.
    destruct (boundary_hash H b Hgenuine) as (hb & Hhb & _); [lia|]. cbn [snd]. rewrite Hhb.
    assert (nonempty (segment H (a, b)) = true) as ->.
    { pose proof (segment_length H a b ltac:(lia)). destruct (segment H (a, b)); [cbn in *; lia|done]. }
    assert (match lr_prev_hash r with Some this => bool_decide (hb = this) | None => false end
            = bool_decide (b = p)) as ->.
    { destruct (decide (b = p)) as [->|Hbne].
      - rewrite (bool_decide_eq_true_2 (p = p)) by done. rewrite Hp, Hhb. by apply bool_decide_eq_true_2.
      - rewrite (bool_decide_eq_false_2 (b = p)) by done. destruct (lr_prev_hash r) as [h|] eqn:Hlr; [|done].
        apply bool_decide_eq_false_2. intros ->. apply Hbne.
        apply (boundaries_distinct H Hgenuine Hfresh); [lia..|]. by rewrite Hhb. }
    case_bool_decide as Hb; cbn [negb andb].
    + subst b. exists ivs, (a, S p). cbn [snd]. rewrite (segment_snoc H a p r) by (done || lia).
      rewrite Hfp, Hnext. split; [done|]. by apply tiles_extend.
    + exists (ivs ++ [(a, b)]), (p, S p). rewrite fmap_app, (segment_one H p r Hr), Hfp. cbn [snd].
      rewrite Hnext. split; [done|]. by apply tiles_new.
  - rewrite (Ho eq_refl) in *. exists [], (p, S p). cbn [nonempty andb fmap list_fmap snd].
    rewrite (segment_one H p r Hr), Hfp, Hnext. split; [done|]. by apply (tiles_new _ []).
Qed.

Lemma group_fold rs ps1 ps2 ivs o :
  Forall2 (λ p r, H !! p = Some r) ps2 rs → StronglySorted lt (ps1 ++ ps2) →
  tiles ps1 (ivs ++ option_list o) → (o = None → ivs = []) →
  ∃ ivs' o', foldl push_candidate (loop_state H ivs o) (candidate_of <$> rs) = loop_state H ivs' o' ∧
    tiles (ps1 ++ ps2) (ivs' ++ option_list o') ∧ (o' = None → ivs' = []).
Proof.
  intros HF. revert ps1 ivs o. induction HF as [|p r ps2 rs Hr HF IH]; intros ps1 ivs o Hs Ht Ho.
  - exists ivs, o. by rewrite app_nil_r.
  - destruct (push_candidate_row ps1 ivs o p r Ht Ho) as (ivs' & iv' & Hpush & Ht'); [|done|].
    { intros q Hq. apply (StronglySorted_app_1_elem_of _ _ _ q p Hs Hq). left. }
    cbn [fmap list_fmap foldl]. rewrite Hpush.
    destruct (IH (ps1 ++ [p]) ivs' (Some iv')) as (ivs2 & o2 & ? & Ht2 & ?); [by rewrite <- app_assoc|done|done|].
    exists ivs2, o2. rewrite <- app_assoc in Ht2. done.
Qed.

(** Candidates without a hash are skipped. *)
Lemma push_unchained cs st :
  foldl push_candidate st cs = foldl push_candidate st (filter (λ c, is_some (cd_row_hash c) = true) cs).
Proof.
  revert st. induction cs as [|c cs IH]; intros st; [done|]. cbn [foldl].
  destruct (cd_row_hash c) eqn:Hc.
  - rewrite filter_cons_True by (by rewrite Hc). cbn. apply IH.
  - rewrite filter_cons_False by (by rewrite Hc). rewrite <- IH. f_equal.
    unfold push_candidate. rewrite Hc. by destruct st as [[??]?].
Qed.

Lemma group_spec cs rs ps :
  filter (λ c, is_some (cd_row_hash c) = true) cs = candidate_of <$> rs →
  Forall2 (λ p r, H !! p = Some r) ps rs → StronglySorted lt ps →
  ∃ ivs, group_into_chain_segments cs = segment H <$> ivs ∧ tiles ps ivs.
Proof.
  intros Hcs HF Hs. unfold group_into_chain_segments. rewrite push_unchained, Hcs.
  change ([], [], None) with (loop_state H [] None).
  destruct (group_fold rs [] ps [] None) as (ivs & o & -> & Ht & Ho); [done..| |done|].
  { split; [constructor..|]. intros q. split; [by intros ?%not_elem_of_nil|].
    intros (iv & Hiv & _). by apply not_elem_of_nil in Hiv. }
  cbn [app] in Ht. unfold loop_state. destruct o as [iv|].
  - change (option_list (Some iv)) with [iv] in Ht.
    exists (ivs ++ [iv]). split; [|done]. rewrite fmap_app. cbn [fmap list_fmap].
    destruct (segment H iv) eqn:Hseg; [|done].
    exfalso. pose proof (ti_nonempty _ _ Ht) as Hne. apply Forall_app in Hne as [_ Hne].
    rewrite Forall_singleton in Hne.
    assert (within (ivs ++ [iv]) iv.1) as Hw by (exists iv; split; [apply elem_of_app; right; left|lia]).
    assert (within (ivs ++ [iv]) (iv.2 - 1)) as Hw2 by (exists iv; split; [apply elem_of_app; right; left|lia]).
    apply Ht in Hw2. apply (list_elem_of_lookup_1) in Hw2 as [k Hk].
    destruct (Forall2_lookup_l _ _ _ _ _ HF Hk) as (r & _ & Hr). apply lookup_lt_Some in Hr.
    pose proof (segment_length H iv.1 iv.2 ltac:(lia)) as Hl. rewrite <- surjective_pairing, Hseg in Hl.
    cbn in Hl. lia.
  - rewrite (Ho eq_refl) in *. exists []. cbn in Ht. by rewrite app_nil_r in Ht || split.
Qed.

End Grouping.
End Chain.
End AuditHistory.
