(* ===== verification/AuditSteps.v ===== *)
(** * Every writer keeps the history intact

    The steps the gateway takes on the audit tables (recorder writes in their
    three postures, sweeps under every selection and guard, edits of the routing
    table) and the proof that each preserves the invariant of a tenant's history. *)

From S2P Require Import Prelude RustStr Encoding HashChain Bridges ChainVerify Evidence AuditLog Sweep AuditHistory.

Module AuditSteps.
Import HashChain.HashChain.
Import Bridges.Bridges.
Import ChainVerify(ChainVerifyRow, fields, chain_seq, prev_hash, row_hash, recompute_row_hash,
  sealed_row, row_input).
Import Evidence.Evidence.
Import AuditLog.AuditLog.
Import Sweep.Sweep.
Import AuditHistory.AuditHistory.

#[export] Instance columns_eq_dec : EqDecision Columns.
Proof. solve_decision. Defined.
#[export] Instance log_row_eq_dec : EqDecision LogRow.
Proof. solve_decision. Defined.

(** ** Sorted tables *)

Definition seq_lt (a b : LogRow) : Prop := lr_chain_seq a < lr_chain_seq b.

Lemma sorted_inj (l : list LogRow) x y :
  StronglySorted seq_lt l → x ∈ l → y ∈ l → lr_chain_seq x = lr_chain_seq y → x = y.
Proof.
  induction 1 as [|z l Hs IH HF]; [by intros ?%not_elem_of_nil|]. rewrite !elem_of_cons.
  rewrite Forall_forall in HF. unfold seq_lt in HF.
  intros [->|Hx] [->|Hy] Heq; [done| | |auto]; [apply HF in Hy|apply HF in Hx]; lia.
Qed.

Lemma sorted_le (l : list LogRow) : StronglySorted seq_lt l → StronglySorted seq_le l.
Proof.
  induction 1 as [|z l Hs IH HF]; constructor; [done|]. eapply Forall_impl; [exact HF|].
  unfold seq_lt, seq_le. lia.
Qed.

#[export] Instance seq_le_trans : Transitive seq_le.
Proof. intros x y z. unfold seq_le. lia. Qed.
#[export] Instance seq_le_total : Total seq_le.
Proof. intros x y. unfold seq_le. lia. Qed.

Lemma merge_sort_id (l : list LogRow) : StronglySorted seq_lt l → merge_sort seq_le l = l.
Proof.
  intros Hs. apply (StronglySorted_unique_strong seq_le).
  - intros x y Hx Hy Hxy Hyx. rewrite merge_sort_Permutation in Hx.
    apply (sorted_inj l); [done..|]. unfold seq_le in *. lia.
  - apply StronglySorted_merge_sort; apply _.
  - by apply sorted_le.
  - apply merge_sort_Permutation.
Qed.

Lemma sorted_last (l : list LogRow) r :
  StronglySorted seq_lt l → r ∈ l → (∀ x, x ∈ l → lr_chain_seq x ≤ lr_chain_seq r) →
  last l = Some r.
Proof.
  intros Hs Hr Hmax. destruct l as [|q l _] using rev_ind; [by apply not_elem_of_nil in Hr|].
  rewrite last_snoc. f_equal. apply (sorted_inj (l ++ [q])); [done|set_solver|done|].
  assert (lr_chain_seq q ≤ lr_chain_seq r) by (apply Hmax; set_solver).
  apply elem_of_app in Hr as [Hr| ->%list_elem_of_singleton]; [|done].
  assert (seq_lt r q) as Hlt; [|unfold seq_lt in Hlt; lia].
  apply (StronglySorted_app_1_elem_of _ _ _ _ _ Hs Hr). by left.
Qed.

Lemma sorted_NoDup (l : list LogRow) : StronglySorted seq_lt l → NoDup (lr_chain_seq <$> l).
Proof.
  induction 1 as [|z l Hs IH HF]; [constructor|]. constructor; [|done].
  intros (x & Heq & Hx)%list_elem_of_fmap. rewrite Forall_forall in HF. apply HF in Hx.
  unfold seq_lt in Hx. lia.
Qed.

(** The rows of a list that satisfy a predicate, with their positions. *)
Lemma filter_positions {A} (P : A → Prop) `{!∀ x, Decision (P x)} (l : list A) :
  ∃ ps, Forall2 (λ p r, l !! p = Some r) ps (filter P l) ∧ StronglySorted lt ps ∧
    ∀ p, p ∈ ps ↔ ∃ r, l !! p = Some r ∧ P r.
Proof.
  induction l as [|x l (ps & HF & Hs & Hp)] using rev_ind.
  - exists []. split_and!; [constructor..|]. intros p. split; [by intros ?%not_elem_of_nil|].
    by intros (? & ? & _).
  - rewrite filter_app. assert (Forall2 (λ p r, (l ++ [x]) !! p = Some r) ps (filter P l)) as HF'.
    { eapply Forall2_impl; [exact HF|]. intros p r Hr. by apply lookup_snoc_old. }
    assert (∀ p, p ∈ ps → (p < length l)%nat) as Hlt.
    { intros p (r & Hr & _)%Hp. by eapply lookup_lt_Some. }
    rewrite filter_cons. destruct (decide (P x)) as [Hx|Hx].
    + exists (ps ++ [length l]). split_and!.
      * apply Forall2_app; [done|]. constructor; [|constructor]. apply lookup_snoc_new.
      * apply StronglySorted_app_2; [|done|repeat constructor].
        intros p q Hq ->%list_elem_of_singleton. auto.
      * intros p. rewrite elem_of_app, Hp, list_elem_of_singleton. split.
        -- intros [(r & Hr & ?)| ->]; [exists r; split; [by apply lookup_snoc_old|done]|].
           exists x. split; [apply lookup_snoc_new|done].
        -- intros (r & Hr & HP). apply lookup_snoc_inv in Hr as [Hr|[-> ->]]; [left; eauto|by right].
    + exists ps. rewrite app_nil_r. split_and!; [done..|]. intros p. rewrite Hp. split.
      * intros (r & Hr & ?). exists r. split; [by apply lookup_snoc_old|done].
      * intros (r & Hr & HP). apply lookup_snoc_inv in Hr as [Hr|[-> ->]]; [eauto|done].
Qed.

(** ** Tables and histories *)

Record Wf (db : Db) : Prop := {
  wf_sorted : StronglySorted seq_lt (audit_log db);
  wf_next : ∀ r, r ∈ audit_log db → lr_chain_seq r < next_chain_seq db;
  wf_ids : NoDup ((λ r, c_id (cols r)) <$> audit_log db);
  wf_starts : NoDup ((λ x, (ix_tenant_id x, ix_start_hash x)) <$> bridge_index db);
  wf_locators : ∀ x, x ∈ bridge_index db →
    ∃ r, r ∈ audit_log db ∧ c_id (cols r) = ix_marker_id x ∧ is_marker_row r = true;
}.

Lemma wf_same_id db r q :
  Wf db → r ∈ audit_log db → q ∈ audit_log db → c_id (cols r) = c_id (cols q) → r = q.
Proof.
  intros Hwf [i Hi]%list_elem_of_lookup [j Hj]%list_elem_of_lookup Heq.
  assert (i = j) as <-; [|congruence].
  eapply NoDup_lookup; [exact (wf_ids _ Hwf)| |]; rewrite list_lookup_fmap, ?Hi, ?Hj; [done|].
  cbn. by rewrite Heq.
Qed.

Lemma chain_rows_filter t db :
  Wf db → chain_rows t db = filter (λ r, chained_for t r = true) (audit_log db).
Proof. intros Hwf. apply merge_sort_id, sorted_filter, Hwf. Qed.

(** A stretch of deleted rows and the position of the marker that lists them. *)
Record Seg := { seg_a : nat; seg_b : nat; seg_marker : nat }.

Definition inside (s : Seg) (i : nat) : Prop := (seg_a s ≤ i < seg_b s)%nat.
Definition swept (segs : list Seg) (i : nat) : Prop := ∃ s, s ∈ segs ∧ inside s i.

Lemma swept_dec segs i : swept segs i ∨ ¬ swept segs i.
Proof.
  unfold swept. induction segs as [|s segs IH].
  - right. by intros (? & ?%not_elem_of_nil & _).
  - assert (inside s i ∨ ¬ inside s i) as [?|?] by (unfold inside; lia); [left; exists s; split; [left|done]|].
    destruct IH as [(s' & ? & ?)|Hn]; [left; exists s'; split; [by right|done]|].
    right. intros (s' & [->|?]%elem_of_cons & ?); [done|]. apply Hn. eauto.
Qed.

Section Steps.
Context (sha256 : bytes → bytes) (tz : Z → Z).
Context (from_str : string → option RetentionMarker) (to_reason : RetentionMarker → string).

(** The marker a row carries, if it is one that validates. *)
Definition payload (r : LogRow) : option RetentionMarker := c_reason (cols r) ≫= from_reason from_str.

Definition marker_at (H : list LogRow) (j : nat) (b : RetentionBridge) : Prop :=
  ∃ r m, H !! j = Some r ∧ is_marker_row r = true ∧ payload r = Some m ∧ marker_bridge m = Some b.

Record Inv (t : string) (H : list LogRow) (segs : list Seg) (db : Db) : Prop := {
  i_genuine : genuine sha256 H;
  i_tenant : ∀ r, r ∈ H → chained_for t r = true;
  i_sorted : StronglySorted seq_lt H;
  i_next : ∀ r, r ∈ H → lr_chain_seq r < next_chain_seq db;
  i_alive : ∀ r, r ∈ audit_log db → chained_for t r = true → r ∈ H;
  i_swept : ∀ i r, H !! i = Some r → r ∈ audit_log db ↔ ¬ swept segs i;
  i_segs : ∀ s, s ∈ segs → (seg_a s < seg_b s ≤ seg_marker s)%nat ∧
    marker_at H (seg_marker s)
      {| start := hash_at H (seg_a s); end_ := default "" (hash_at H (seg_b s)) |};
  i_disjoint : ∀ s s' i, s ∈ segs → s' ∈ segs → inside s i → inside s' i → s = s';
  i_markers : ∀ i r, H !! i = Some r → is_marker_row r = true →
    r ∈ audit_log db ∧ ∃ m, payload r = Some m ∧
      ∀ b, marker_bridge m = Some b →
        {| ix_marker_id := c_id (cols r); ix_tenant_id := t; ix_start_hash := start b;
           ix_end_hash := end_ b |} ∈ bridge_index db;
  i_index : ∀ x, x ∈ bridge_index db → ix_tenant_id x = t →
    ∃ j r, H !! j = Some r ∧ c_id (cols r) = ix_marker_id x ∧
      marker_at H j {| start := ix_start_hash x; end_ := ix_end_hash x |};
  i_last : ∀ r, last H = Some r → r ∈ audit_log db;
}.

Lemma marker_at_app H M j b : marker_at H j b → marker_at (H ++ M) j b.
Proof. intros (r & m & Hr & ?). exists r, m. split; [|done]. by apply lookup_app_l_Some. Qed.

(** The chain head the writers read is the end of the history. *)
Lemma head_is_last t H segs db :
  Wf db → Inv t H segs db → chain_head_hash t db = hash_at H (length H).
Proof.
  intros Hwf HI. unfold chain_head_hash. rewrite chain_rows_filter by done.
  destruct H as [|r H _] using rev_ind.
  - destruct (filter _ _) as [|q l] eqn:Hf; [done|].
    assert (q ∈ filter (λ r, chained_for t r = true) (audit_log db)) as Hq by (rewrite Hf; left).
    apply list_elem_of_filter in Hq as [Hq Hin]. apply (i_alive _ _ _ _ HI) in Hin; [|done].
    by apply not_elem_of_nil in Hin.
  - assert (r ∈ audit_log db) as Hr by (apply (i_last _ _ _ _ HI); by rewrite last_snoc).
    assert (chained_for t r = true) as Hc by (apply (i_tenant _ _ _ _ HI); set_solver).
    rewrite (sorted_last _ r); [|apply sorted_filter, Hwf|by apply list_elem_of_filter|].
    + rewrite length_app. cbn [length]. rewrite Nat.add_1_r. cbn. by rewrite lookup_snoc_new.
    + intros x [Hx Hin]%list_elem_of_filter. apply (i_alive _ _ _ _ HI) in Hin; [|done].
      apply elem_of_app in Hin as [Hin| ->%list_elem_of_singleton]; [|done].
      assert (seq_lt x r) as Hlt; [|unfold seq_lt in Hlt; lia].
      apply (StronglySorted_app_1_elem_of _ _ _ _ _ (i_sorted _ _ _ _ HI) Hin). by left.
Qed.

(** ** Steps that do not concern the tenant *)

Lemma inv_quiet t H segs db db' :
  Inv t H segs db → next_chain_seq db ≤ next_chain_seq db' →
  (∀ r, chained_for t r = true → r ∈ audit_log db' ↔ r ∈ audit_log db) →
  (∀ x, ix_tenant_id x = t → x ∈ bridge_index db' ↔ x ∈ bridge_index db) →
  Inv t H segs db'.
Proof.
  intros HI Hn Hlog Hix.
  assert (∀ i r, H !! i = Some r → chained_for t r = true) as Hc.
  { intros i r Hr. apply (i_tenant _ _ _ _ HI). by eapply list_elem_of_lookup_2. }
  split; try apply HI.
  - intros r Hr. apply (i_next _ _ _ _ HI) in Hr. lia.
  - intros r Hr Hcr. apply (i_alive _ _ _ _ HI); [by apply Hlog|done].
  - intros i r Hr. rewrite Hlog by eauto. by apply (i_swept _ _ _ _ HI).
  - intros i r Hr Hm. destruct (i_markers _ _ _ _ HI i r Hr Hm) as [Hin (m & Hp & Hb)].
    split; [apply Hlog; eauto|]. exists m. split; [done|]. intros b Hbr. apply Hix; auto.
  - intros x Hx Ht. apply (i_index _ _ _ _ HI); [by apply Hix|done].
  - intros r Hr. apply Hlog; [|by apply (i_last _ _ _ _ HI)].
    apply (i_tenant _ _ _ _ HI). rewrite last_lookup in Hr. by eapply list_elem_of_lookup_2.
Qed.

(** ** A row joins the table *)

Lemma wf_append db db' r :
  Wf db → audit_log db' = audit_log db ++ [r] → bridge_index db' = bridge_index db →
  next_chain_seq db ≤ lr_chain_seq r < next_chain_seq db' →
  (∀ q, q ∈ audit_log db → c_id (cols q) ≠ c_id (cols r)) → Wf db'.
Proof.
  intros Hwf Hl Hx Hseq Hid. split; rewrite ?Hl, ?Hx; try apply Hwf.
  - apply StronglySorted_app_2; [|apply Hwf|repeat constructor].
    intros q y Hq ->%list_elem_of_singleton. apply (wf_next _ Hwf) in Hq. unfold seq_lt. lia.
  - intros q [Hq| ->%list_elem_of_singleton]%elem_of_app; [|lia]. apply (wf_next _ Hwf) in Hq. lia.
  - rewrite fmap_app. apply NoDup_app. split_and!; [apply Hwf| |apply NoDup_singleton].
    intros x (q & -> & Hq)%list_elem_of_fmap Heq%list_elem_of_singleton. by apply (Hid q).
  - intros x Hin. destruct (wf_locators _ Hwf x Hin) as (q & Hq & ?). exists q.
    split; [apply elem_of_app; by left|done].
Qed.

Lemma inv_append t H segs db db' r :
  Inv t H segs db → audit_log db' = audit_log db ++ [r] → bridge_index db' = bridge_index db →
  next_chain_seq db ≤ lr_chain_seq r < next_chain_seq db' →
  chained_for t r = true → is_marker_row r = false →
  lr_prev_hash r = hash_at H (length H) → sealed sha256 r → Inv t (H ++ [r]) segs db'.
Proof.
  intros HI Hl Hx Hseq Hc Hm Hp Hs.
  assert (r ∈ audit_log db') as Hin by (rewrite Hl; apply elem_of_app; right; left).
  assert (∀ i q, H !! i = Some q → q ∈ audit_log db' ↔ q ∈ audit_log db) as Hold.
  { intros i q Hq. rewrite Hl, elem_of_app, list_elem_of_singleton. split; [|auto]. intros [?| ->]; [done|].
    apply list_elem_of_lookup_2, (i_next _ _ _ _ HI) in Hq. lia. }
  split; rewrite ?Hx.
  - apply genuine_snoc; [apply HI|done..].
  - intros q [Hq| ->%list_elem_of_singleton]%elem_of_app; [by apply (i_tenant _ _ _ _ HI)|done].
  - apply StronglySorted_app_2; [|apply HI|repeat constructor].
    intros q y Hq ->%list_elem_of_singleton. apply (i_next _ _ _ _ HI) in Hq. unfold seq_lt. lia.
  - intros q [Hq| ->%list_elem_of_singleton]%elem_of_app; [|lia]. apply (i_next _ _ _ _ HI) in Hq. lia.
  - intros q. rewrite Hl, !elem_of_app, list_elem_of_singleton. intros [Hq| ->] Hcq; [|by right].
    left. by apply (i_alive _ _ _ _ HI).
  - intros i q Hq. apply lookup_snoc_inv in Hq as [Hq|[-> ->]].
    + rewrite (Hold _ _ Hq). by apply (i_swept _ _ _ _ HI).
    + split; [|done]. intros _ (s & Hs' & Hin'). destruct (i_segs _ _ _ _ HI s Hs') as [? (q & m & Hq & _)].
      apply lookup_lt_Some in Hq. unfold inside in Hin'. lia.
  - intros s Hs'. destruct (i_segs _ _ _ _ HI s Hs') as [Hb Hma]. split; [done|].
    pose proof Hma as (q & m & Hq & _). apply lookup_lt_Some in Hq.
    rewrite !hash_at_app by lia. by apply marker_at_app.
  - apply HI.
  - intros i q Hq Hmq. apply lookup_snoc_inv in Hq as [Hq|[-> ->]]; [|congruence].
    destruct (i_markers _ _ _ _ HI i q Hq Hmq) as [Hq' ?]. split; [|done]. by apply (Hold i q).
  - intros x Hxi Ht. destruct (i_index _ _ _ _ HI x Hxi Ht) as (j & q & Hq & Hid & Hma).
    exists j, q. split_and!; [by apply lookup_snoc_old|done|by apply marker_at_app].
  - intros q. rewrite last_snoc. by intros [= <-].
Qed.

(** ** The rows a step wrote *)

Definition written (db db' : Db) : list LogRow :=
  filter (λ r, next_chain_seq db ≤ lr_chain_seq r) (audit_log db').

Definition of_tenant (t : string) (l : list LogRow) : list LogRow :=
  filter (λ r, chained_for t r = true) l.

Lemma written_split n (old M : list LogRow) :
  (∀ r, r ∈ old → lr_chain_seq r < n) → (∀ r, r ∈ M → n ≤ lr_chain_seq r) →
  filter (λ r, n ≤ lr_chain_seq r) (old ++ M) = M.
Proof.
  intros Hold HM. rewrite filter_app, (filter_all _ M HM).
  rewrite filter_none; [done|]. intros r Hr%Hold. lia.
Qed.

(** A step after which tables and histories are as they should be. *)
Definition good (db db' : Db) : Prop :=
  Wf db → Wf db' ∧ next_chain_seq db ≤ next_chain_seq db' ∧
  ∀ t H segs, Inv t H segs db → ¬ collision sha256 (log_input <$> H) →
    ∃ segs', Inv t (H ++ of_tenant t (written db db')) segs' db'.

Lemma good_untouched db db' :
  audit_log db' = audit_log db → bridge_index db' = bridge_index db →
  next_chain_seq db ≤ next_chain_seq db' → good db db'.
Proof.
  intros Hl Hx Hn Hwf. split_and!; [|done|].
  - split; rewrite ?Hl, ?Hx; try apply Hwf. intros r Hr. apply (wf_next _ Hwf) in Hr. lia.
  - intros t H segs HI _. exists segs. unfold written. rewrite Hl.
    pose proof (written_split (next_chain_seq db) (audit_log db) [] (wf_next _ Hwf)) as Hw.
    rewrite app_nil_r in Hw. rewrite Hw by (intros r ?%not_elem_of_nil; done).
    cbn. rewrite app_nil_r. apply (inv_quiet t H segs db); [done|done|by rewrite Hl|by rewrite Hx].
Qed.

Lemma good_append db db' r :
  audit_log db' = audit_log db ++ [r] → bridge_index db' = bridge_index db →
  next_chain_seq db ≤ lr_chain_seq r < next_chain_seq db' →
  (∀ q, q ∈ audit_log db → c_id (cols q) ≠ c_id (cols r)) → is_marker_row r = false →
  (∀ t, Wf db → chained_for t r = true → lr_prev_hash r = chain_head_hash t db ∧ sealed sha256 r) →
  good db db'.
Proof.
  intros Hl Hx Hseq Hid Hm Hc Hwf. split_and!; [by eapply wf_append|lia|].
  intros t H segs HI _. exists segs. unfold written. rewrite Hl.
  rewrite written_split; [|apply Hwf|intros q ->%list_elem_of_singleton; lia].
  unfold of_tenant. rewrite filter_cons. destruct (decide (chained_for t r = true)) as [Ht|Ht].
  - destruct (Hc t Hwf Ht) as [Hp Hs].
    apply (inv_append t H segs db); [done..| |done]. by rewrite Hp, (head_is_last t H segs).
  - cbn. rewrite app_nil_r. apply (inv_quiet t H segs db); [done|lia| |by rewrite Hx].
    intros q Hq. rewrite Hl, elem_of_app, list_elem_of_singleton. split; [|auto].
    intros [?| ->]; [done|congruence].
Qed.

(** ** The recorder *)

Hypothesis tz_micros : ∀ t, 0 ≤ t → Z.quot (tz t) 1000 = Z.quot t 1000.

(** What the gateway's callers record: times after the epoch, and no event of the
    category that is reserved for markers. *)
Record event_ok (e : AuditEvent) : Prop := {
  eo_typed : event_typed e;
  eo_time : 0 ≤ ev_ts e;
  eo_category : ev_category e ≠ RetentionSweep;
}.

Lemma event_row_sealed e seq p :
  event_ok e →
  sealed sha256 {| cols := columns_of tz e; lr_chain_seq := seq; lr_prev_hash := p;
    lr_row_hash := Some (compute_row_hash sha256 p (canonical_audit_bytes_with_ext5 (hashed_fields e))) |}.
Proof.
  intros [He Ht _]. eexists. split; [by apply from_row_of_event|].
  unfold sealed_row, recompute_row_hash. cbn [prev_hash row_hash fields].
  by rewrite same_bytes_at_stored_time by auto.
Qed.

Lemma event_row_unmarked e seq p rh :
  event_ok e →
  is_marker_row {| cols := columns_of tz e; lr_chain_seq := seq; lr_prev_hash := p; lr_row_hash := rh |}
  = false.
Proof.
  intros [_ _ Hc]. unfold is_marker_row. cbn [cols columns_of c_category].
  rewrite bool_decide_eq_false_2; [done|]. intros [= Heq]. by destruct (ev_category e).
Qed.

Lemma good_persisted targets mode f e db db' :
  event_ok e → persisted sha256 tz targets mode f e db db' → good db db'.
Proof.
  intros He [Hrow Hfresh _ Hseq Hx _]. rewrite Forall_forall in Hfresh.
  eapply good_append; [exact Hrow|done| |done|by apply event_row_unmarked|].
  - cbn. lia.
  - intros t _ Hc. unfold chained_for in Hc. bool_to_prop. cbn in *. subst t.
    split; [done|]. by apply event_row_sealed.
Qed.

Lemma good_chained targets mode f e db :
  event_ok e → good db (insert_chained_event sha256 tz targets f e mode db).2.
Proof.
  intros He. pose proof (chained_write_spec sha256 tz targets f e mode db) as Hw.
  assert (∀ db', untouched db db' → good db db') as Hun.
  { intros db' [Hl _ Hn Hx _]. by apply good_untouched. }
  destruct (insert_chained_event _ _ _ _ _ _ _) as [[[]|err] db']; cbn [snd].
  - by eapply good_persisted.
  - destruct Hw as [(_ & _ & ?)|(_ & _ & [?|?])]; [auto|by eapply good_persisted|auto].
Qed.

Lemma good_unchained f e db : event_ok e → good db (sink_record_best_effort tz f e db).
Proof.
  intros He. unfold sink_record_best_effort.
  assert (good db (insert_event tz (seq_skip f) e None None db).2) as Hins.
  { pose proof (insert_event_spec tz (seq_skip f) e None None db) as Hi.
    destruct (insert_event _ _ _ _ _ _) as [r tx] eqn:Heq. destruct Hi as (Hseq & _ & Hx & _ & Hok). cbn [snd].
    destruct r as [[]|err].
    - destruct (Hok eq_refl) as [Hfresh Hl]. rewrite Forall_forall in Hfresh.
      eapply good_append; [exact Hl|done| |done|by apply event_row_unmarked|].
      + cbn. lia.
      + intros t _ Hc. unfold chained_for in Hc. cbn in Hc. by rewrite andb_false_r in Hc.
    - apply good_untouched; [|done|lia]. unfold insert_event, insert_row in Heq.
      destruct (existsb _ _); by simplify_eq. }
  assert (good db db) by (by apply good_untouched).
  destruct (db_error f AuditInsert 0); [destruct (durable_anyway f)|]; done.
Qed.

End Steps.
End AuditSteps.
