(* ===== verification/SweepSteps.v ===== *)
(** * A sweep keeps the history intact

    The markers a sweep writes extend the tenant's history, list exactly the rows
    the sweep deletes, and are found by the locator table. *)

From S2P Require Import Prelude RustStr Encoding HashChain Bridges ChainVerify Evidence AuditLog Sweep AuditHistory AuditSteps.

Module SweepSteps.
Import HashChain.HashChain.
Import Bridges.Bridges.
Import ChainVerify(ChainVerifyRow, fields, chain_seq, prev_hash, row_hash, recompute_row_hash,
  sealed_row, row_input).
Import AuditLog.AuditLog.
Import Sweep.Sweep.
Import AuditHistory.AuditHistory.
Import AuditSteps.AuditSteps.

Section Steps.
Context (sha256 : bytes → bytes) (tz : Z → Z).
Context (from_str : string → option RetentionMarker) (to_reason : RetentionMarker → string).
Hypothesis sha256_length : ∀ m, length (sha256 m) = 32%nat.
Hypothesis tz_micros : ∀ t, 0 ≤ t → Z.quot (tz t) 1000 = Z.quot t 1000.
Hypothesis json_round_trip : ∀ m, from_str (to_reason m) = Some m.

(** ** One marker *)

Lemma marker_row_sealed mid ts t reason p seq :
  0 ≤ ts →
  sealed sha256 {| cols := marker_columns tz mid ts t reason; lr_chain_seq := seq; lr_prev_hash := p;
    lr_row_hash := Some (compute_row_hash sha256 p (canonical_audit_bytes (marker_fields mid ts t reason))) |}.
Proof.
  intros Hts. eexists. split; [reflexivity|]. unfold sealed_row, recompute_row_hash. cbn [prev_hash row_hash fields].
  rewrite <- legacy_bytes_unchanged by (by repeat split). f_equal. apply ext5_durable.
  unfold durable, ts_micros. cbn -[Z.quot]. by rewrite tz_micros.
Qed.

(** The locator entries of a marker row. *)
Definition locators (t : string) (r : LogRow) (m : RetentionMarker) : list IndexRow :=
  match marker_bridge m with
  | Some b => [{| ix_marker_id := c_id (cols r); ix_tenant_id := t; ix_start_hash := start b;
                  ix_end_hash := end_ b |}]
  | None => []
  end.

Record marker_row (t : string) (m : RetentionMarker) (head : option string) (r : LogRow) : Prop := {
  mr_tenant : c_tenant_id (cols r) = t;
  mr_marker : is_marker_row r = true;
  mr_reason : c_reason (cols r) = Some (to_reason m);
  mr_prev : lr_prev_hash r = head;
  mr_sealed : sealed sha256 r;
}.

Lemma marker_row_chained t m head r : marker_row t m head r → chained_for t r = true.
Proof.
  intros [Ht Hm _ _ _]. unfold is_marker_row in Hm. bool_to_prop.
  unfold chained_for. rewrite bool_decide_eq_true_2 by done. done.
Qed.

Lemma index_marker_spec t m head r db db' :
  Wf db → r ∈ audit_log db → marker_row t m head r →
  (∀ x, x ∈ bridge_index db → ix_marker_id x ≠ c_id (cols r)) →
  index_marker from_str (c_id (cols r)) db = Ok db' →
  Wf db' ∧ audit_log db' = audit_log db ∧ next_chain_seq db' = next_chain_seq db ∧
  bridge_index db' = bridge_index db ++ locators t r m.
Proof.
  intros Hwf Hr Hm Hfresh. unfold index_marker, locators.
  rewrite (find_first_unique _ (audit_log db) r); [|done| |].
  - rewrite (mr_reason _ _ _ _ Hm). change (default "" (Some (to_reason m))) with (to_reason m).
    rewrite json_round_trip.
    destruct (negb _); [done|]. destruct (marker_bridge m) as [b|].
    2:{ intros [= <-]. by rewrite app_nil_r. }
    destruct (bool_decide (end_ b = "")); [done|].
    destruct (existsb _ (bridge_index db)) eqn:He1.
    { apply existsb_exists in He1 as (x & Hx%list_elem_of_In & Heq). bool_to_prop. by destruct (Hfresh x). }
    clear He1. destruct (existsb _ (bridge_index db)) eqn:He2; [done|]. intros [= <-].
    rewrite (mr_tenant _ _ _ _ Hm). split_and!; [|reflexivity..]. split; cbn; try apply Hwf.
    + rewrite fmap_app. apply NoDup_app. split_and!; [apply Hwf| |apply NoDup_singleton].
      intros k (x & -> & Hx)%list_elem_of_fmap Heq%list_elem_of_singleton. cbn in Heq.
      injection Heq as Ht Hs.
      assert (existsb (λ x, bool_decide (ix_tenant_id x = c_tenant_id (cols r)) &&
                bool_decide (ix_start_hash x = start b)) (bridge_index db) = true) as Hc; [|congruence].
      apply existsb_exists. exists x. split; [by apply list_elem_of_In|].
      rewrite (mr_tenant _ _ _ _ Hm). by rewrite !bool_decide_eq_true_2.
    + intros x [Hx| ->%list_elem_of_singleton]%elem_of_app; [by apply (wf_locators _ Hwf)|].
      exists r. cbn. split_and!; [done..|apply Hm].
  - cbn beta. rewrite bool_decide_eq_true_2 by done. rewrite (mr_marker _ _ _ _ Hm), (mr_reason _ _ _ _ Hm). done.
  - intros q Hq Hp. cbn beta in Hp. bool_to_prop. by apply (wf_same_id db).
Qed.

(** ** The markers of a sweep *)

Section Markers.
Context (f : SweepFaults) (t label : string) (cands : list CandidateRow).
Context (unchained : list DeletedUnchainedRow).
Hypothesis times : ∀ i, 0 ≤ sf_marker_ts f i.

Notation mk := (payload_of t label cands unchained).

(** Rows [M] with locators [X] are the markers for [segs] after [head]. *)
Fixpoint markers (i : nat) (head : option string) (segs : list (list DeletedRow))
    (M : list LogRow) (X : list IndexRow) : Prop :=
  match segs, M with
  | [], [] => X = []
  | sg :: segs', r :: M' =>
      marker_row t (mk i sg) head r ∧ c_id (cols r) = sf_marker_id f i ∧
      ∃ X', X = locators t r (mk i sg) ++ X' ∧ markers (S i) (lr_row_hash r) segs' M' X'
  | _, _ => False
  end.

Lemma write_marker_spec i head sg db rh db' :
  Wf db → (write_marker sha256 tz from_str to_reason f t label cands unchained i head sg db).1 = Ok (rh, db') →
  ∃ r, marker_row t (mk i sg) head r ∧ c_id (cols r) = sf_marker_id f i ∧ lr_row_hash r = Some rh ∧
    next_chain_seq db ≤ lr_chain_seq r ∧ Wf db' ∧
    audit_log db' = audit_log db ++ [r] ∧ next_chain_seq db ≤ next_chain_seq db' ∧
    bridge_index db' = bridge_index db ++ locators t r (mk i sg).
Proof.
  intros Hwf. unfold write_marker.
  set (reason := to_reason (mk i sg)). set (h := compute_row_hash _ _ _).
  set (r := {| cols := marker_columns tz (sf_marker_id f i) (sf_marker_ts f i) t reason;
               lr_chain_seq := next_chain_seq db + Z.of_N (sf_seq_skip f i);
               lr_prev_hash := head; lr_row_hash := Some h |}).
  unfold insert_row. destruct (existsb _ (audit_log db)) eqn:Hex; [done|]. cbn [fst].
  fold r. set (tx1 := set_log _ _ _). intros Hix.
  assert (∀ q, q ∈ audit_log db → c_id (cols q) ≠ c_id (cols r)) as Hid.
  { intros q Hq Heq. assert (existsb (λ r0, bool_decide (c_id (cols r0) = c_id (cols r))) (audit_log db) = true) as Hc;
      [|cbn in Hc, Hex; congruence].
    apply existsb_exists. exists q. split; [by apply list_elem_of_In|by apply bool_decide_eq_true_2]. }
  assert (marker_row t (mk i sg) head r) as Hm.
  { split; [done..|]. apply marker_row_sealed, times. }
  assert (Wf tx1) as Hwf1.
  { apply (wf_append db tx1 r); [done..| |done]. cbn. lia. }
  destruct (index_marker _ _ tx1) as [tx2|] eqn:Htx2; [|done]. injection Hix as <- <-.
  change (sf_marker_id f i) with (c_id (cols r)) in Htx2.
  apply (index_marker_spec t (mk i sg) head r) in Htx2 as (Hwf2 & Hl & Hn & Hx); [|done| |done|].
  - exists r. split_and!; [done..|cbn; lia|done|by rewrite Hl|rewrite Hn; cbn; lia|done].
  - cbn. apply elem_of_app. right. by left.
  - intros x Hx Heq. destruct (wf_locators _ Hwf x Hx) as (q & Hq & Hqid & _).
    apply (Hid q Hq). by rewrite Hqid.
Qed.

Lemma write_markers_spec segs i head db ids db' :
  Wf db →
  write_markers sha256 tz from_str to_reason f t label cands unchained i head segs db = (Ok ids, db') →
  ∃ M X, markers i head segs M X ∧ audit_log db' = audit_log db ++ M ∧
    bridge_index db' = bridge_index db ++ X ∧ Wf db' ∧ next_chain_seq db ≤ next_chain_seq db' ∧
    ∀ r, r ∈ M → next_chain_seq db ≤ lr_chain_seq r.
Proof.
  revert i head db ids. induction segs as [|sg segs IH]; intros i head db ids Hwf; cbn [write_markers].
  - intros [= _ <-]. exists [], []. rewrite !app_nil_r. split_and!; [done..|]. by intros r ?%not_elem_of_nil.
  - destruct (write_marker _ _ _ _ _ _ _ _ _ _ _ _ db) as [res tx1] eqn:Hw.
    destruct res as [[rh tx2]|err]; [|done].
    destruct (write_marker_spec i head sg db rh tx2 Hwf) as (r & Hm & Hid & Hrh & Hseq & Hwf2 & Hl & Hn & Hx);
      [by rewrite Hw|].
    destruct (write_markers _ _ _ _ _ _ _ _ _ (S i) _ segs tx2) as [[ids'|err] tx3] eqn:Hrec; [|done].
    intros [= _ <-]. destruct (IH _ _ _ _ Hwf2 Hrec) as (M & X & HM & Hl3 & Hx3 & Hwf3 & Hn3 & Hseqs).
    exists (r :: M), (locators t r (mk i sg) ++ X). split_and!.
    + cbn [markers]. split_and!; [done..|]. exists X. split; [done|]. by rewrite Hrh.
    + by rewrite Hl3, Hl, <- app_assoc.
    + by rewrite Hx3, Hx, <- app_assoc.
    + done.
    + lia.
    + intros q [->|Hq]%elem_of_cons; [done|]. apply Hseqs in Hq. lia.
Qed.

(** ** What the marker rows are, one by one *)

Lemma markers_length segs i head M X : markers i head segs M X → length M = length segs.
Proof.
  revert i head M X. induction segs as [|sg segs IH]; intros i head [|r M] X; cbn [markers]; [done..|].
  intros (_ & _ & X' & _ & HM). cbn. f_equal. eauto.
Qed.

Lemma markers_lookup segs i head M X k r :
  markers i head segs M X → M !! k = Some r →
  ∃ sg h, segs !! k = Some sg ∧ marker_row t (mk (i + k) sg) h r ∧
    ∀ x, x ∈ locators t r (mk (i + k) sg) → x ∈ X.
Proof.
  revert i head M X k. induction segs as [|sg segs IH]; intros i head [|q M] X k; cbn [markers]; [done..|].
  intros (Hm & _ & X' & -> & HM) Hk. destruct k as [|k]; cbn in Hk.
  - injection Hk as <-. exists sg, head. rewrite Nat.add_0_r. split_and!; [done..|].
    intros x Hx. apply elem_of_app. by left.
  - destruct (IH _ _ _ _ _ HM Hk) as (sg' & h & Hsg & Hm' & Hx). exists sg', h.
    rewrite <- Nat.add_succ_comm. split_and!; [done..|]. intros x ?. apply elem_of_app. right. auto.
Qed.

Lemma markers_index segs i head M X x :
  markers i head segs M X → x ∈ X →
  ∃ k r sg, M !! k = Some r ∧ segs !! k = Some sg ∧ x ∈ locators t r (mk (i + k) sg).
Proof.
  revert i head M X. induction segs as [|sg segs IH]; intros i head [|q M] X; cbn [markers]; try done.
  - intros -> ?%not_elem_of_nil. done.
  - intros (Hm & _ & X' & -> & HM) [Hx|Hx]%elem_of_app.
    + exists 0%nat, q, sg. by rewrite Nat.add_0_r.
    + destruct (IH _ _ _ _ HM Hx) as (k & r & sg' & ? & ? & ?). exists (S k), r, sg'.
      by rewrite <- Nat.add_succ_comm.
Qed.

Lemma markers_genuine segs i H M X :
  genuine sha256 H → markers i (hash_at H (length H)) segs M X → genuine sha256 (H ++ M).
Proof.
  revert i H M X. induction segs as [|sg segs IH]; intros i H [|r M] X Hg; cbn [markers]; try done.
  - by rewrite app_nil_r.
  - intros (Hm & _ & X' & _ & HM). replace (H ++ r :: M) with ((H ++ [r]) ++ M) by (by rewrite <- app_assoc). apply (IH (S i) _ _ X').
    + apply genuine_snoc; [done|apply Hm..].
    + rewrite length_app. cbn [length]. rewrite Nat.add_1_r. cbn [hash_at].
      by rewrite lookup_snoc_new.
Qed.

End Markers.

(** ** Candidates *)

#[local] Instance cd_seq_le_trans : Transitive cd_seq_le.
Proof. intros x y z. unfold cd_seq_le. lia. Qed.
#[local] Instance cd_seq_le_total : Total cd_seq_le.
Proof. intros x y. unfold cd_seq_le. lia. Qed.

Lemma sorted_candidates_of (l : list LogRow) :
  StronglySorted seq_lt l → StronglySorted cd_seq_le (candidate_of <$> l).
Proof.
  induction 1 as [|r l Hs IH HF]; [constructor|]. cbn. constructor; [done|].
  apply Forall_fmap. eapply Forall_impl; [exact HF|]. intros q. unfold seq_lt, cd_seq_le. cbn. lia.
Qed.

Lemma NoDup_candidates (l : list LogRow) :
  NoDup (lr_chain_seq <$> l) → NoDup (candidate_of <$> l).
Proof.
  intros Hnd. apply (NoDup_fmap_1 cd_chain_seq). rewrite <- list_fmap_compose.
  exact Hnd.
Qed.

Section OneSweep.
Context (t : string) (db : Db) (H : list LogRow) (segs : list Seg) (R : list LogRow).
Hypothesis Hwf : Wf db.
Hypothesis HI : Inv sha256 from_str t H segs db.
Hypothesis Hnc : ¬ collision sha256 (log_input <$> H).
(** The rows a sweep takes. *)
Hypothesis HR : ∀ r, r ∈ R → r ∈ audit_log db ∧ c_tenant_id (cols r) = t ∧
  c_category (cols r) ≠ Some FORBIDDEN_SWEEP_CATEGORY.
Hypothesis HRnd : NoDup R.

Notation cs := (merge_sort cd_seq_le (candidate_of <$> R)).
Notation ids := (cd_id <$> cs).

Lemma taken_in_history r : r ∈ R → is_some (lr_row_hash r) = true → r ∈ H.
Proof.
  intros Hr Hs. destruct (HR r Hr) as (Hin & Ht & _). apply (i_alive _ _ _ _ _ _ HI); [done|].
  unfold chained_for. by rewrite bool_decide_eq_true_2.
Qed.

Lemma taken_seqs : NoDup (lr_chain_seq <$> R).
Proof.
  apply NoDup_fmap_2_strong; [|done]. intros x y Hx Hy Heq.
  apply (sorted_inj (audit_log db)); [apply Hwf|by apply HR..|done].
Qed.

Lemma elem_of_candidates c : c ∈ cs ↔ ∃ r, r ∈ R ∧ c = candidate_of r.
Proof. rewrite merge_sort_Permutation, list_elem_of_fmap. naive_solver. Qed.

Lemma chained_candidates :
  filter (λ c, is_some (cd_row_hash c) = true) cs = candidate_of <$> filter (λ r, r ∈ R) H.
Proof.
  assert (∀ c, c ∈ filter (λ c, is_some (cd_row_hash c) = true) cs ↔
               c ∈ candidate_of <$> filter (λ r, r ∈ R) H) as Hsame.
  { intros c. rewrite list_elem_of_filter, elem_of_candidates, list_elem_of_fmap.
    setoid_rewrite list_elem_of_filter. split.
    - intros [Hs (r & Hr & ->)]. exists r. split_and!; [done..|]. by apply taken_in_history.
    - intros (r & -> & Hr & Hin). split; [|by exists r].
      apply (i_tenant _ _ _ _ _ _ HI) in Hin. unfold chained_for in Hin. by bool_to_prop. }
  apply (StronglySorted_unique_strong cd_seq_le).
  - intros x y Hx Hy Hxy Hyx. apply Hsame in Hx.
    apply list_elem_of_fmap in Hx as (r & -> & [Hr _]%list_elem_of_filter).
    apply list_elem_of_fmap in Hy as (q & -> & [Hq _]%list_elem_of_filter).
    f_equal. apply (sorted_inj (audit_log db)); [apply Hwf|by apply HR..|].
    unfold cd_seq_le in *. cbn in *. lia.
  - apply sorted_filter, StronglySorted_merge_sort; apply _.
  - apply sorted_candidates_of, sorted_filter, HI.
  - apply NoDup_Permutation; [| |done].
    + apply NoDup_filter. rewrite merge_sort_Permutation. apply NoDup_candidates, taken_seqs.
    + apply NoDup_candidates, sorted_NoDup, sorted_filter, HI.
Qed.

Lemma doomed_taken r : r ∈ audit_log db → doomed t ids r = true ↔ r ∈ R.
Proof.
  intros Hr. unfold doomed. split.
  - intros Hd. bool_to_prop.
    match goal with Hi : c_id (cols r) ∈ _ |- _ => apply list_elem_of_fmap in Hi as (c & Hid & Hc) end.
    apply elem_of_candidates in Hc as (q & Hq & ->). cbn in Hid.
    rewrite (wf_same_id db r q); [done|done|done|by apply HR|done].
  - intros HrR. destruct (HR r HrR) as (_ & Ht & Hcat).
    rewrite (bool_decide_eq_false_2 _ Hcat), (bool_decide_eq_true_2 _ Ht), bool_decide_eq_true_2; [done|].
    apply list_elem_of_fmap. exists (candidate_of r). split; [done|]. apply elem_of_candidates. by exists r.
Qed.

Lemma unchained_ids : NoDup (un_id <$> unchained_rows cs).
Proof.
  unfold unchained_rows. rewrite <- list_fmap_compose.
  apply NoDup_fmap_2_strong.
  - intros x y Hx Hy Heq. cbn in Heq. apply list_elem_of_filter in Hx as [_ Hx], Hy as [_ Hy].
    apply elem_of_candidates in Hx as (r & Hr & ->), Hy as (q & Hq & ->).
    f_equal. apply (wf_same_id db); [done|by apply HR..|done].
  - apply NoDup_filter. rewrite merge_sort_Permutation. apply NoDup_candidates, taken_seqs.
Qed.

(** The runs of taken positions. *)
Lemma taken_runs :
  ∃ ivs ps, group_into_chain_segments cs = segment H <$> ivs ∧ tiles ps ivs ∧
    ∀ p, p ∈ ps ↔ ∃ r, H !! p = Some r ∧ r ∈ R.
Proof.
  destruct (filter_positions (λ r, r ∈ R) H) as (ps & HF & Hs & Hp).
  destruct (group_spec sha256 sha256_length H) with (cs := cs) (rs := filter (λ r, r ∈ R) H) (ps := ps)
    as (ivs & Hg & Ht); [apply HI|done|apply chained_candidates|done..|].
  by exists ivs, ps.
Qed.

(** *** The sweep commits *)

Context (f : SweepFaults) (label : string) (ivs : list (nat * nat)) (ps : list nat).
Context (M : list LogRow) (X : list IndexRow) (db' : Db).
Notation mk := (payload_of t label cs (unchained_rows cs)).
Notation sgs := (match segment H <$> ivs with [] => [[]] | s => s end).

Hypothesis Hne : R ≠ [].
Hypothesis Hgroup : group_into_chain_segments cs = segment H <$> ivs.
Hypothesis Htiles : tiles ps ivs.
Hypothesis Hps : ∀ p, p ∈ ps ↔ ∃ r, H !! p = Some r ∧ r ∈ R.
Hypothesis HM : markers f t label cs (unchained_rows cs) 0 (hash_at H (length H)) sgs M X.
Hypothesis Hlog : audit_log db' = filter (λ r, doomed t ids r = false) (audit_log db ++ M).
Hypothesis Hix : bridge_index db' = bridge_index db ++ X.
Hypothesis HMseq : ∀ r, r ∈ M → next_chain_seq db ≤ lr_chain_seq r < next_chain_seq db'.
Hypothesis HMsorted : StronglySorted seq_lt M.

Definition new_segs : list Seg :=
  imap (λ k iv, {| seg_a := iv.1; seg_b := iv.2; seg_marker := length H + k |}) ivs.

Lemma elem_of_new_segs s :
  s ∈ new_segs ↔
  ∃ k iv, ivs !! k = Some iv ∧ s = {| seg_a := iv.1; seg_b := iv.2; seg_marker := length H + k |}.
Proof.
  unfold new_segs. rewrite list_elem_of_lookup. setoid_rewrite list_lookup_imap_Some. naive_solver.
Qed.

Lemma run_bounds k iv : ivs !! k = Some iv → (iv.1 < iv.2 ≤ length H)%nat.
Proof.
  intros Hiv%list_elem_of_lookup_2. pose proof (ti_nonempty _ _ Htiles) as Hb.
  rewrite Forall_forall in Hb. specialize (Hb _ Hiv). cbn in Hb.
  assert (iv.2 - 1 ∈ ps)%nat as Hp by (apply Htiles; exists iv; split; [done|lia]).
  apply Hps in Hp as (r & Hr & _). apply lookup_lt_Some in Hr. lia.
Qed.

Lemma newly_swept p : swept new_segs p ↔ ∃ r, H !! p = Some r ∧ r ∈ R.
Proof.
  rewrite <- Hps, (ti_cover _ _ Htiles). unfold swept, within, inside. split.
  - intros (s & (k & iv & Hiv & ->)%elem_of_new_segs & Hin). exists iv.
    split; [by eapply list_elem_of_lookup_2|done].
  - intros (iv & [k Hk]%list_elem_of_lookup & Hin). eexists. rewrite elem_of_new_segs.
    split; [by exists k, iv|done].
Qed.

Lemma segments_lookup k sg :
  sgs !! k = Some sg → (∃ iv, ivs !! k = Some iv ∧ sg = segment H iv) ∨ (ivs = [] ∧ sg = []).
Proof.
  destruct ivs as [|iv0 ivs0]; cbn [fmap list_fmap].
  - destruct k; cbn; [|done]. intros [= <-]. by right.
  - intros Hk. left. change (segment H iv0 :: (segment H <$> ivs0)) with (segment H <$> (iv0 :: ivs0)) in Hk.
    apply list_lookup_fmap_Some in Hk as (iv & -> & Hiv). by exists iv.
Qed.

Lemma no_runs_unchained : ivs = [] → nonempty (unchained_rows cs) = true.
Proof.
  intros Hiv. assert (∃ r, r ∈ R) as [r HrR] by (clear -Hne; destruct R as [|r R']; [done|exists r; left]).
  assert (is_some (lr_row_hash r) = false) as Hr.
  { destruct (is_some (lr_row_hash r)) eqn:Hs; [|done].
    assert (r ∈ H) as [p Hp]%list_elem_of_lookup
      by (by apply taken_in_history).
    assert (p ∈ ps) as Hin by (apply Hps; by exists r).
    apply Htiles in Hin as (iv & Hin & _). rewrite Hiv in Hin. by apply not_elem_of_nil in Hin. }
  assert (candidate_of r ∈ filter (λ c, is_some (cd_row_hash c) = false) cs) as Hin.
  { apply list_elem_of_filter. split; [done|]. apply elem_of_candidates. by exists r. }
  revert Hin. unfold unchained_rows. generalize (filter (λ c, is_some (cd_row_hash c) = false) cs).
  intros [|c l] Hin; [by apply not_elem_of_nil in Hin|done].
Qed.

Lemma marker_validates k sg : sgs !! k = Some sg → validate (mk k sg) = true.
Proof.
  intros Hk. assert (NoDup (un_id <$> deleted_unchained_rows (mk k sg))) as Hnd.
  { cbn. destruct (k =? 0)%nat; [apply unchained_ids|constructor]. }
  destruct (segments_lookup k sg Hk) as [([a b] & Hiv & ->)|[Hiv ->]].
  - pose proof (run_bounds _ _ Hiv) as Hb. cbn in Hb.
    apply (segment_validates sha256 sha256_length H a b); [apply HI|done|lia|done..|].
    left. cbn [deleted_rows payload_of]. pose proof (segment_length H a b ltac:(lia)). destruct (segment H (a, b)); [cbn in *; lia|done].
  - apply (segment_validates sha256 sha256_length H 0 0); [apply HI|done|lia|done..|].
    right. assert (k = 0)%nat as -> by (apply lookup_lt_Some in Hk; rewrite Hiv in Hk; cbn in Hk; lia).
    by apply no_runs_unchained.
Qed.

Lemma marker_in_history k r :
  M !! k = Some r →
  ∃ sg, sgs !! k = Some sg ∧ chained_for t r = true ∧ is_marker_row r = true ∧
    payload from_str r = Some (mk k sg) ∧ (∀ x, x ∈ locators t r (mk k sg) → x ∈ X) ∧
    doomed t ids r = false.
Proof.
  intros Hk. destruct (markers_lookup _ _ _ _ _ _ _ _ _ _ _ _ HM Hk) as (sg & h & Hsg & Hm & Hx).
  cbn [Nat.add] in *. exists sg. split_and!; [done|by eapply marker_row_chained|apply Hm| |done|].
  - unfold payload. rewrite (mr_reason _ _ _ _ Hm). cbn. unfold from_reason. rewrite json_round_trip.
    cbn [kind payload_of]. rewrite bool_decide_eq_true_2 by done. cbn [negb].
    by rewrite marker_validates.
  - pose proof (mr_marker _ _ _ _ Hm) as Hmk. unfold is_marker_row in Hmk. bool_to_prop.
    unfold doomed. rewrite (bool_decide_eq_true_2 (c_category (cols r) = _)) by done. by rewrite andb_false_r.
Qed.

Lemma old_or_new r :
  r ∈ audit_log db' ↔ (r ∈ audit_log db ∧ r ∉ R) ∨ r ∈ M.
Proof.
  rewrite Hlog, list_elem_of_filter, elem_of_app. split.
  - intros [Hd [Hr|Hr]]; [|by right]. left. split; [done|]. intros HrR.
    apply (doomed_taken r Hr) in HrR. congruence.
  - intros [[Hr HrR]|Hr].
    + split; [|by left]. destruct (doomed t ids r) eqn:Hd; [|done]. by apply doomed_taken in Hd.
    + split; [|by right]. apply list_elem_of_lookup in Hr as [k Hk].
      by destruct (marker_in_history k r Hk) as (? & ? & ? & ? & ? & ? & ?).
Qed.

Lemma history_kept i r : H !! i = Some r → r ∈ audit_log db' ↔ r ∈ audit_log db ∧ r ∉ R.
Proof.
  intros Hr. rewrite old_or_new. split; [|auto]. intros [?|HrM]; [done|].
  apply list_elem_of_lookup_2, (i_next _ _ _ _ _ _ HI) in Hr. apply HMseq in HrM. lia.
Qed.

Lemma markers_not_empty : ∃ r k, last M = Some r ∧ M !! k = Some r.
Proof.
  pose proof (markers_length _ _ _ _ _ _ _ _ _ _ HM) as Hlen.
  destruct M as [|x M' _] using rev_ind.
  - exfalso. destruct ivs; cbn in Hlen; lia.
  - exists x, (length M'). rewrite last_snoc. split; [done|apply lookup_snoc_new].
Qed.

Lemma new_segs_ok s :
  s ∈ new_segs → (seg_a s < seg_b s ≤ length H)%nat ∧ (length H ≤ seg_marker s)%nat ∧
  marker_at from_str (H ++ M) (seg_marker s)
    {| start := hash_at H (seg_a s); end_ := default "" (hash_at H (seg_b s)) |}.
Proof.
  intros (k & [a b] & Hiv & ->)%elem_of_new_segs. cbn [seg_a seg_b seg_marker fst snd].
  pose proof (run_bounds _ _ Hiv) as Hb. cbn in Hb. split_and!; [lia..|].
  assert (sgs !! k = Some (segment H (a, b))) as Hsg.
  { destruct ivs as [|iv0 ivs0]; [done|].
    change (match segment H <$> iv0 :: ivs0 with [] => [[]] | s => s end) with (segment H <$> (iv0 :: ivs0)).
    by rewrite list_lookup_fmap, Hiv. }
  pose proof (markers_length _ _ _ _ _ _ _ _ _ _ HM) as Hlen.
  destruct (lookup_lt_is_Some_2 M k) as [r Hr]; [rewrite Hlen; by eapply lookup_lt_Some|].
  destruct (marker_in_history k r Hr) as (sg & Hsg' & _ & Hmk & Hp & _). simplify_eq.
  exists r, (mk k (segment H (a, b))). split_and!; [|done..|].
  - by rewrite lookup_app_r, Nat.add_sub' by lia.
  - apply (segment_bridge sha256); [apply HI|done|done].
Qed.

Lemma runs_disjoint k k' iv iv' p :
  ivs !! k = Some iv → ivs !! k' = Some iv' → (iv.1 ≤ p < iv.2)%nat → (iv'.1 ≤ p < iv'.2)%nat → k = k'.
Proof.
  assert (∀ i j x y, (i < j)%nat → ivs !! i = Some x → ivs !! j = Some y → (x.2 ≤ y.1)%nat) as Hlt.
  { intros i j x y Hij Hx Hy. rewrite <- (take_drop j ivs) in Hx, Hy.
    pose proof (ti_order _ _ Htiles) as Ho. rewrite <- (take_drop j ivs) in Ho.
    apply (StronglySorted_app_1_elem_of _ _ _ _ _ Ho).
    - rewrite take_drop in Hx. eapply list_elem_of_lookup_2. rewrite lookup_take_lt; [exact Hx|done].
    - rewrite take_drop in Hy. apply (list_elem_of_lookup_2 _ 0%nat). by rewrite lookup_drop, Nat.add_0_r. }
  intros Hk Hk' Hp Hp'. destruct (Nat.lt_trichotomy k k') as [Hc|[?|Hc]]; [|done|].
  - specialize (Hlt _ _ _ _ Hc Hk Hk'). lia.
  - specialize (Hlt _ _ _ _ Hc Hk' Hk). lia.
Qed.

Lemma swept_app p : swept (segs ++ new_segs) p ↔ swept segs p ∨ swept new_segs p.
Proof. unfold swept. setoid_rewrite elem_of_app. naive_solver. Qed.

Lemma old_seg_below s : s ∈ segs → (seg_b s < length H)%nat.
Proof.
  intros Hs. destruct (i_segs _ _ _ _ _ _ HI s Hs) as [Hb (q & m & Hq & _)].
  apply lookup_lt_Some in Hq. lia.
Qed.

Lemma lookup_history i r :
  (H ++ M) !! i = Some r → H !! i = Some r ∨ ∃ k, i = (length H + k)%nat ∧ M !! k = Some r.
Proof.
  rewrite lookup_app_Some. intros [?|[Hle Hk]]; [by left|]. right. exists (i - length H)%nat.
  split; [lia|done].
Qed.

Lemma marker_known i r :
  (H ++ M) !! i = Some r → is_marker_row r = true →
  r ∈ audit_log db' ∧ ∃ m, payload from_str r = Some m ∧
    ∀ b, marker_bridge m = Some b →
      {| ix_marker_id := c_id (cols r); ix_tenant_id := t; ix_start_hash := start b;
         ix_end_hash := end_ b |} ∈ bridge_index db'.
Proof.
  intros [Hi|(k & -> & Hk)]%lookup_history Hmk; rewrite Hix; setoid_rewrite elem_of_app.
  - destruct (i_markers _ _ _ _ _ _ HI i r Hi Hmk) as [Hin (m & Hp & Hb)].
    split; [|exists m; split; [done|]; auto]. apply (history_kept i r Hi). split; [done|].
    intros HrR. destruct (HR r HrR) as (_ & _ & Hcat). unfold is_marker_row in Hmk. by bool_to_prop.
  - destruct (marker_in_history k r Hk) as (sg & Hsg & _ & _ & Hp & Hx & _).
    split; [apply old_or_new; right; by eapply list_elem_of_lookup_2|].
    exists (mk k sg). split; [done|]. intros b Hb. right. apply Hx. unfold locators. rewrite Hb. by left.
Qed.

Lemma locator_known x :
  x ∈ bridge_index db' → ix_tenant_id x = t →
  ∃ j r, (H ++ M) !! j = Some r ∧ c_id (cols r) = ix_marker_id x ∧
    marker_at from_str (H ++ M) j {| start := ix_start_hash x; end_ := ix_end_hash x |}.
Proof.
  rewrite Hix. intros [Hx|Hx]%elem_of_app Ht.
  - destruct (i_index _ _ _ _ _ _ HI x Hx Ht) as (j & r & Hr & Hid & Hma). exists j, r.
    split_and!; [by apply lookup_app_l_Some|done|by apply marker_at_app].
  - destruct (markers_index _ _ _ _ _ _ _ _ _ _ _ HM Hx) as (k & r & sg & Hk & Hsg & Hl).
    cbn [Nat.add] in Hl. unfold locators in Hl. destruct (marker_bridge (mk k sg)) as [b|] eqn:Hb;
      [|by apply not_elem_of_nil in Hl]. apply list_elem_of_singleton in Hl as ->.
    assert ((H ++ M) !! (length H + k)%nat = Some r) as Hr
      by (by rewrite lookup_app_r, Nat.add_sub' by lia).
    exists (length H + k)%nat, r. split_and!; [done..|].
    destruct (marker_in_history k r Hk) as (sg' & Hsg' & _ & Hmk & Hp & _). simplify_eq.
    exists r, (mk k sg). split_and!; [done..|]. cbn. by destruct b.
Qed.

Lemma segs_known s :
  s ∈ segs ++ new_segs → (seg_a s < seg_b s ≤ seg_marker s)%nat ∧
  marker_at from_str (H ++ M) (seg_marker s)
    {| start := hash_at (H ++ M) (seg_a s); end_ := default "" (hash_at (H ++ M) (seg_b s)) |}.
Proof.
  intros [Hs|Hs]%elem_of_app.
  - destruct (i_segs _ _ _ _ _ _ HI s Hs) as [Hb Hma]. pose proof (old_seg_below s Hs).
    rewrite !hash_at_app by lia. split; [done|by apply marker_at_app].
  - destruct (new_segs_ok s Hs) as (Hb & Hm & Hma). rewrite !hash_at_app by lia. split; [lia|done].
Qed.

Lemma segs_disjoint s s' i :
  s ∈ segs ++ new_segs → s' ∈ segs ++ new_segs → inside s i → inside s' i → s = s'.
Proof.
  assert (∀ s s', s ∈ segs → s' ∈ new_segs → inside s i → inside s' i → False) as Hmix.
  { intros s1 s2 H1 H2 Hi1 Hi2. assert (swept new_segs i) as (r & Hr & HrR)%newly_swept by (by exists s2).
    apply (i_swept _ _ _ _ _ _ HI i r Hr); [by apply HR|by exists s1]. }
  intros [Hs|Hs]%elem_of_app [Hs'|Hs']%elem_of_app Hi Hi'.
  - by apply (i_disjoint _ _ _ _ _ _ HI s s' i).
  - by destruct (Hmix s s').
  - by destruct (Hmix s' s).
  - apply elem_of_new_segs in Hs as (k & iv & Hk & ->), Hs' as (k' & iv' & Hk' & ->).
    assert (k = k') as -> by (by apply (runs_disjoint k k' iv iv' i)). by simplify_eq.
Qed.

Lemma inv_sweep : Inv sha256 from_str t (H ++ M) (segs ++ new_segs) db'.
Proof.
  split.
  - eapply markers_genuine; [apply HI|exact HM].
  - intros r [Hr|[k Hk]%list_elem_of_lookup]%elem_of_app; [by apply (i_tenant _ _ _ _ _ _ HI)|].
    by destruct (marker_in_history k r Hk) as (_ & _ & ? & _).
  - apply StronglySorted_app_2; [|apply HI|done]. intros x y Hx Hy.
    apply (i_next _ _ _ _ _ _ HI) in Hx. apply HMseq in Hy. unfold seq_lt. lia.
  - destruct markers_not_empty as (r0 & k & _ & Hr0%list_elem_of_lookup_2%HMseq).
    intros r [Hr|Hr]%elem_of_app; [apply (i_next _ _ _ _ _ _ HI) in Hr; lia|by apply HMseq].
  - intros r Hr Hc. apply elem_of_app. apply old_or_new in Hr as [[Hr _]|Hr]; [left|by right].
    by apply (i_alive _ _ _ _ _ _ HI).
  - intros i r [Hi|(k & -> & Hk)]%lookup_history.
    + rewrite (history_kept i r Hi), (i_swept _ _ _ _ _ _ HI i r Hi), swept_app, newly_swept.
      split; [|naive_solver]. intros [H1 H2] [?|(q & Hq & HqR)]; [done|]. by simplify_eq.
    + split; [|intros _; apply old_or_new; right; by eapply list_elem_of_lookup_2].
      intros _ [(s & Hs & Hin)|(s & Hs & Hin)]%swept_app; unfold inside in Hin.
      * apply old_seg_below in Hs. lia.
      * apply new_segs_ok in Hs as (? & _). lia.
  - apply segs_known.
  - apply segs_disjoint.
  - apply marker_known.
  - apply locator_known.
  - intros r. destruct markers_not_empty as (r0 & k & Hlast & Hr0).
    rewrite last_app, Hlast. intros [= <-]. apply old_or_new. right. by eapply list_elem_of_lookup_2.
Qed.

End OneSweep.

(** ** Whole sweeps *)

Lemma sweep_delete_spec t ids mids db n db' :
  sweep_delete from_str t ids mids db = Ok (n, db') → ids ≠ [] →
  audit_log db' = filter (λ r, doomed t ids r = false) (audit_log db) ∧
  bridge_index db' = bridge_index db ∧ next_chain_seq db' = next_chain_seq db.
Proof.
  intros Hd Hne. unfold sweep_delete in Hd. destruct ids as [|x ids]; [done|]. cbn [length Nat.eqb] in Hd.
  destruct (_ || _); [done|]. destruct (negb _); [done|]. by injection Hd as _ <-.
Qed.

Lemma wf_delete t ids db db' :
  Wf db → audit_log db' = filter (λ r, doomed t ids r = false) (audit_log db) →
  bridge_index db' = bridge_index db → next_chain_seq db' = next_chain_seq db → Wf db'.
Proof.
  intros Hwf Hl Hx Hn. split; rewrite ?Hl, ?Hx, ?Hn.
  - apply sorted_filter, Hwf.
  - intros r [_ Hr]%list_elem_of_filter. by apply (wf_next _ Hwf).
  - pose proof (wf_ids _ Hwf) as Hnd. clear -Hnd. induction (audit_log db) as [|r l IH]; [constructor|].
    cbn in Hnd. apply NoDup_cons in Hnd as [Hnot Hnd]. rewrite filter_cons.
    destruct (decide _); [|by apply IH]. cbn. constructor; [|by apply IH].
    intros (q & Hq & [_ Hin]%list_elem_of_filter)%list_elem_of_fmap. apply Hnot.
    apply list_elem_of_fmap. by exists q.
  - apply Hwf.
  - intros x Hin. destruct (wf_locators _ Hwf x Hin) as (r & Hr & Hid & Hm). exists r.
    split_and!; [|done..]. apply list_elem_of_filter. split; [|done].
    unfold is_marker_row in Hm. bool_to_prop. unfold doomed.
    rewrite (bool_decide_eq_true_2 (c_category (cols r) = _)) by done. by rewrite andb_false_r.
Qed.

Lemma good_deleted f t label R db x db' :
  (∀ i, 0 ≤ sf_marker_ts f i) →
  (∀ r, r ∈ R → r ∈ audit_log db ∧ c_tenant_id (cols r) = t ∧
    c_category (cols r) ≠ Some FORBIDDEN_SWEEP_CATEGORY) →
  NoDup R → R ≠ [] →
  sweep_candidates sha256 tz from_str to_reason f t label
    (merge_sort cd_seq_le (candidate_of <$> R)) db = (Ok x, db') →
  good sha256 from_str db db'.
Proof.
  intros Htimes HR HRnd Hne Hsw Hwf. unfold sweep_candidates in Hsw.
  set (cs := merge_sort cd_seq_le (candidate_of <$> R)) in *.
  destruct (write_markers _ _ _ _ _ _ _ _ _ _ _ _ db) as [[mids|err] tx] eqn:Hw; [|done].
  destruct (sweep_delete _ _ _ _ tx) as [[n tx']|err] eqn:Hd; [|done].
  destruct (sf_error f); [done|]. injection Hsw as _ <-.
  apply write_markers_spec in Hw as (M & X & HM & Hl & Hx & Hwf1 & Hn & HMge); [|done..].
  assert (cd_id <$> cs ≠ []) as Hids.
  { destruct R as [|r R']; [done|]. intros Hnil%fmap_nil_inv. subst cs.
    assert (candidate_of r ∈ merge_sort cd_seq_le (candidate_of <$> r :: R')) as Hin
      by (rewrite merge_sort_Permutation; left).
    rewrite Hnil in Hin. by apply not_elem_of_nil in Hin. }
  destruct (sweep_delete_spec _ _ _ _ _ _ Hd Hids) as (Hl' & Hx' & Hn').
  assert (∀ r, r ∈ M → next_chain_seq db ≤ lr_chain_seq r < next_chain_seq tx') as HMseq.
  { intros r Hr. split; [auto|]. rewrite Hn'. apply (wf_next _ Hwf1). rewrite Hl. apply elem_of_app. by right. }
  assert (StronglySorted seq_lt M) as HMsorted.
  { pose proof (wf_sorted _ Hwf1) as Hs. rewrite Hl in Hs. by eapply StronglySorted_app_1_r. }
  rewrite Hl in Hl'. rewrite Hx in Hx'.
  assert (∀ r, r ∈ M → chained_for t r = true ∧ doomed t (cd_id <$> cs) r = false) as HMt.
  { intros r [k Hk]%list_elem_of_lookup.
    destruct (markers_lookup _ _ _ _ _ _ _ _ _ _ _ _ HM Hk) as (sg & h & _ & Hm & _).
    split; [by eapply marker_row_chained|]. pose proof (mr_marker _ _ _ _ Hm) as Hmk.
    unfold is_marker_row in Hmk. bool_to_prop. unfold doomed.
    rewrite (bool_decide_eq_true_2 (c_category (cols r) = _)) by done. by rewrite andb_false_r. }
  assert (written db tx' = M) as Hwr.
  { unfold written. rewrite Hl', filter_app, (filter_all _ M) by (intros r Hr; by apply HMt).
    apply written_split; [|done]. intros r [_ Hr]%list_elem_of_filter. by apply (wf_next _ Hwf). }
  split_and!; [|lia|].
  { apply (wf_delete t (cd_id <$> cs) tx); [done|by rewrite Hl|by rewrite Hx', Hx|done]. }
  intros t' H segs HI Hnc. rewrite Hwr. unfold of_tenant. destruct (decide (t' = t)) as [->|Ht].
  - rewrite filter_all by (intros r Hr; by apply HMt).
    destruct (taken_runs t db H segs R Hwf HI Hnc HR HRnd) as (ivs & ps & Hg & Hti & Hps).
    fold cs in Hg. rewrite Hg in HM. rewrite (head_is_last _ _ _ _ _ _ Hwf HI) in HM.
    eexists. by apply (inv_sweep t db H segs R Hwf HI Hnc HR HRnd f label ivs ps M X tx').
  - assert (∀ r, chained_for t' r = true → c_tenant_id (cols r) ≠ t) as Hother.
    { intros r Hc Heq. unfold chained_for in Hc. bool_to_prop. congruence. }
    assert (∀ r, r ∈ M → c_tenant_id (cols r) = t) as HMten.
    { intros r Hr. destruct (HMt r Hr) as [Hc _]. unfold chained_for in Hc. by bool_to_prop. }
    exists segs. rewrite filter_none by (intros r Hr Hc; by apply (Hother r Hc), HMten).
    rewrite app_nil_r. apply (inv_quiet sha256 from_str t' H segs db); [done|lia| |].
    + intros r Hc. rewrite Hl', list_elem_of_filter, elem_of_app. split.
      * intros [_ [?|Hr]]; [done|]. by destruct (Hother r Hc (HMten r Hr)).
      * intros Hr. split; [|by left]. unfold doomed. by rewrite bool_decide_eq_false_2 by auto.
    + intros y Hy. rewrite Hx', elem_of_app. split; [|auto]. intros [?|HyX]; [done|].
      destruct (markers_index _ _ _ _ _ _ _ _ _ _ _ HM HyX) as (k & r & sg & _ & _ & Hloc).
      unfold locators in Hloc. destruct (marker_bridge _); [|by apply not_elem_of_nil in Hloc].
      apply list_elem_of_singleton in Hloc as ->. cbn in Hy. congruence.
Qed.

(** A sweep that fails has drawn sequence values at most. *)
Lemma write_markers_next f t label cands unchained segs i head db :
  next_chain_seq db ≤
  next_chain_seq (write_markers sha256 tz from_str to_reason f t label cands unchained i head segs db).2.
Proof.
  revert i head db. induction segs as [|sg segs IH]; intros i head db; cbn [write_markers]; [done|].
  unfold write_marker, insert_row. destruct (existsb _ _); cbn [fst snd]; [cbn; lia|].
  set (tx1 := set_log _ _ _). assert (next_chain_seq db ≤ next_chain_seq tx1) as H1 by (cbn; lia).
  destruct (index_marker _ _ tx1) as [tx2|] eqn:Hix; [|done].
  assert (next_chain_seq tx2 = next_chain_seq tx1) as H2.
  { unfold index_marker in Hix. destruct (find_first _ _); [|done]. destruct (from_str _); [|done].
    destruct (negb _); [done|]. destruct (marker_bridge _); [|congruence].
    destruct (bool_decide _); [done|]. destruct (existsb _ _); [congruence|].
    destruct (existsb _ _); [done|]. by injection Hix as <-. }
  match goal with |- context [write_markers _ _ _ _ _ _ _ _ _ (S i) ?h segs tx2] =>
    specialize (IH (S i) h tx2);
    destruct (write_markers _ _ _ _ _ _ _ _ _ (S i) h segs tx2) as [[ids|err] tx3]
  end; cbn [snd] in *; lia.
Qed.

Lemma good_rolled_back db tx :
  next_chain_seq db ≤ next_chain_seq tx → good sha256 from_str db (rolled_back db tx).
Proof. intros Hn. by apply good_untouched. Qed.

Lemma query_taken t selection cutoff db r :
  r ∈ take RETENTION_SWEEP_BATCH_ROWS (query_candidates t selection cutoff db) →
  r ∈ audit_log db ∧ c_tenant_id (cols r) = t ∧
  c_category (cols r) ≠ Some FORBIDDEN_SWEEP_CATEGORY.
Proof.
  intros Hr. eapply elem_of_sublist in Hr; [|apply sublist_take].
  eapply elem_of_sublist in Hr; [|apply sublist_take].
  rewrite merge_sort_Permutation, list_elem_of_filter in Hr. destruct Hr as [Hs Hin].
  unfold selected in Hs. split_and!; [done|by bool_to_prop|]. intros Hc.
  destruct selection; bool_to_prop; unfold coalesced in *; rewrite Hc in *; done.
Qed.

Lemma query_NoDup t selection cutoff db :
  Wf db → NoDup (take RETENTION_SWEEP_BATCH_ROWS (query_candidates t selection cutoff db)).
Proof.
  intros Hwf. eapply sublist_NoDup; [|apply sublist_take]. eapply sublist_NoDup; [|apply sublist_take].
  rewrite merge_sort_Permutation. apply NoDup_filter, (NoDup_fmap_1 lr_chain_seq), sorted_NoDup, Hwf.
Qed.

Lemma good_sweep_candidates f t label R db :
  (∀ i, 0 ≤ sf_marker_ts f i) →
  (∀ r, r ∈ R → r ∈ audit_log db ∧ c_tenant_id (cols r) = t ∧
    c_category (cols r) ≠ Some FORBIDDEN_SWEEP_CATEGORY) →
  NoDup R → R ≠ [] →
  let '(r, tx) := sweep_candidates sha256 tz from_str to_reason f t label
    (merge_sort cd_seq_le (candidate_of <$> R)) db in
  good sha256 from_str db tx ∧ next_chain_seq db ≤ next_chain_seq tx.
Proof.
  intros Htimes HR HRnd Hne. destruct (sweep_candidates _ _ _ _ _ _ _ _ db) as [res tx] eqn:Hsw.
  assert (next_chain_seq db ≤ next_chain_seq tx) as Hn.
  { unfold sweep_candidates in Hsw.
    pose proof (write_markers_next f t label (merge_sort cd_seq_le (candidate_of <$> R))
      (unchained_rows (merge_sort cd_seq_le (candidate_of <$> R)))
      match group_into_chain_segments (merge_sort cd_seq_le (candidate_of <$> R)) with [] => [[]] | s => s end
      0 (chain_head_hash t db) db) as Hn.
    destruct (write_markers _ _ _ _ _ _ _ _ _ _ _ _ db) as [[mids|err] tx1]; cbn [snd] in Hn; [|by simplify_eq].
    destruct (sweep_delete _ _ _ _ tx1) as [[n tx']|err] eqn:Hd; [|by simplify_eq].
    destruct (sf_error f); [by simplify_eq|]. injection Hsw as _ <-.
    unfold sweep_delete in Hd. destruct (_ =? 0)%nat; [by simplify_eq|].
    destruct (_ || _); [done|]. destruct (negb _); [done|]. by injection Hd as _ <-. }
  split; [|done]. destruct res as [x|err]; [by eapply good_deleted|].
  unfold sweep_candidates in Hsw. assert (tx = rolled_back db tx) as ->; [|by apply good_rolled_back].
  destruct (write_markers _ _ _ _ _ _ _ _ _ _ _ _ db) as [[mids|err'] tx1]; [|by injection Hsw as _ <-].
  destruct (sweep_delete _ _ _ _ tx1) as [[n tx']|err']; [|by injection Hsw as _ <-].
  destruct (sf_error f); [by injection Hsw as _ <-|done].
Qed.

Lemma good_sweep policies f t selection cutoff guard db :
  (∀ i, 0 ≤ sf_marker_ts f i) →
  good sha256 from_str db
    (run_retention_sweep_selection sha256 tz from_str to_reason policies f t selection cutoff guard db).2.
Proof.
  intros Htimes Hwf0. revert Hwf0. assert (good sha256 from_str db db) as Hsame by (by apply good_untouched).
  intros Hwf0. unfold run_retention_sweep_selection.
  destruct (match guard with Some g => _ | None => _ end); [|by apply Hsame].
  set (R := take RETENTION_SWEEP_BATCH_ROWS (query_candidates t selection cutoff db)).
  unfold sorted_candidates. fold R.
  destruct (merge_sort cd_seq_le (candidate_of <$> R)) as [|c cs] eqn:Hcs.
  - destruct (sf_commit_error f); [destruct (sf_durable_anyway f)|]; [by apply Hsame| |by apply Hsame].
    by apply good_rolled_back.
  - assert (R ≠ []) as HRne by (intros HR; by rewrite HR in Hcs).
    pose proof (good_sweep_candidates f t (report_label selection) R db Htimes
      (query_taken t selection cutoff db) (query_NoDup t selection cutoff db Hwf0) HRne) as Hgood.
    rewrite Hcs in Hgood. destruct (sweep_candidates _ _ _ _ _ _ _ _ db) as [[[m n]|err] tx];
      destruct Hgood as [Hgood Hn]; [|by apply Hgood].
    destruct (sf_commit_error f); [destruct (sf_durable_anyway f)|]; [by apply Hgood| |by apply Hgood].
    by apply good_rolled_back.
Qed.

End Steps.
End SweepSteps.
