(* ===== verification/AuditVerify.v ===== *)
(** * Verifying a tenant's chain in the database

    Model of [PgAuditSink::verify_chain] (crates/waygate-storage/src/audit.rs): the
    window in [chain_seq], the peek-one cap, the recursive lookup of retention
    markers, their admission, and the report. All its queries run in one snapshot,
    so it is a function of the tables. The recursive query runs in rounds, as
    PostgreSQL evaluates it; [rounds] bounds them by the number of pairs of hashes
    that can become a job. *)

From S2P Require Import Prelude RustStr Encoding HashChain Bridges ChainVerify Evidence AuditLog Sweep AuditHistory AuditSteps SweepSteps.

Module AuditVerify.
Import HashChain.HashChain.
Import Bridges.Bridges.
Import ChainVerify(ChainVerifyRow, fields, chain_seq, prev_hash, row_hash, recompute_row_hash,
  sealed_row, row_input, ChainVerifyReport, ChainHead, verification_gap_jobs,
  verify_chain_rows_with_bridges, index_bridges, intact, linked_row, tail_hash, report_tenant_id,
  report_from, report_to, rows_walked, status, first_mismatch, truncated, next_after_chain_seq,
  chain_head, status_eq_dec, Build_ChainHead, head_chain_seq, head_row_hash, Build_ChainVerifyReport, raw_gap_jobs, gap_jobs_spec,
  verify_spec, breaks_not_intact, tail_hash_cons, tail_hash_snoc).
Import Evidence.Evidence.
Import AuditLog.AuditLog.
Import Sweep.Sweep.
Import AuditHistory.AuditHistory.
Import AuditSteps.AuditSteps.
Import SweepSteps.SweepSteps.

#[local] Existing Instance status_eq_dec.

Abbreviation job := (option string * option string)%type (only parsing).

(** ** Locating markers *)

(** [row_hash] of the tenant's last chained row before [seq]. *)
Definition hash_before (tenant_id : string) (seq : Z) (db : Db) : option string :=
  match last (filter (λ r, lr_chain_seq r < seq) (chain_rows tenant_id db)) with
  | Some r => lr_row_hash r
  | None => None
  end.

(** The locator row that starts at a hash. *)
Definition lookup_bridge (tenant_id : string) (cursor : option string) (db : Db) : option IndexRow :=
  find_first (λ x, bool_decide (ix_tenant_id x = tenant_id) &&
                   bool_decide (ix_start_hash x = cursor)) (bridge_index db).

(** The marker row a locator row names. *)
Definition marker_of (tenant_id : string) (x : IndexRow) (db : Db) : option LogRow :=
  find_first (λ r, bool_decide (c_id (cols r) = ix_marker_id x) &&
                   bool_decide (c_tenant_id (cols r) = tenant_id) && is_marker_row r) (audit_log db).

(** The recursive term: the rest of the gap, and the marker's own link. *)
Definition spawned (tenant_id : string) (db : Db) (j : job) : list job :=
  match lookup_bridge tenant_id j.1 db with
  | None => []
  | Some x =>
      match marker_of (ix_tenant_id x) x db with
      | None => []
      | Some marker =>
          filter (λ s, s.1 ≠ s.2)
            [(Some (ix_end_hash x), j.2);
             (hash_before (c_tenant_id (cols marker)) (lr_chain_seq marker) db, lr_prev_hash marker)]
      end
  end.

(** [WITH RECURSIVE .. UNION ..]: each round adds the new jobs of the last. *)
Fixpoint expand (fuel : nat) (tenant_id : string) (db : Db) (jobs working : list job) : list job :=
  match fuel with
  | O => jobs
  | S fuel' =>
      match filter (λ j, j ∉ jobs) (remove_dups (working ≫= spawned tenant_id db)) with
      | [] => jobs
      | fresh => expand fuel' tenant_id db (jobs ++ fresh) fresh
      end
  end.

Definition rounds (seeds : list job) (db : Db) : nat :=
  S ((length seeds + 2 * length (bridge_index db)) * (length seeds + length (bridge_index db))).

Definition jobs_of (tenant_id : string) (db : Db) (gap_jobs : list job) : list job :=
  let seeds := remove_dups (filter (λ j, j.1 ≠ j.2) gap_jobs) in
  expand (rounds seeds db) tenant_id db seeds seeds.

#[export] Instance index_row_eq_dec : EqDecision IndexRow.
Proof. solve_decision. Defined.

Record MarkerAdmissionRow := {
  ma_row : LogRow;
  ma_expected_prev : option string;
  ma_indexed_start : option string;
  ma_indexed_end : string;
}.

Definition ma_le (a b : MarkerAdmissionRow) : Prop := seq_le (ma_row a) (ma_row b).
#[export] Instance ma_le_dec a b : Decision (ma_le a b).
Proof. unfold ma_le. apply _. Defined.

Definition admission_row (tenant_id : string) (db : Db) (x : IndexRow) : option MarkerAdmissionRow :=
  match marker_of tenant_id x db with
  | None => None
  | Some m => Some {| ma_row := m;
                      ma_expected_prev := hash_before (c_tenant_id (cols m)) (lr_chain_seq m) db;
                      ma_indexed_start := ix_start_hash x; ma_indexed_end := ix_end_hash x |}
  end.

Definition reachable_markers (tenant_id : string) (db : Db) (gap_jobs : list job)
  : list MarkerAdmissionRow :=
  merge_sort ma_le
    (omap (admission_row tenant_id db)
       (remove_dups (omap (λ j, lookup_bridge tenant_id j.1 db) (jobs_of tenant_id db gap_jobs)))).

(** ** The adapter *)

(** Decode all rows, or fail at the first that does not decode. *)
Fixpoint decode_all (rows : list LogRow) : result (list ChainVerifyRow) string :=
  match rows with
  | [] => Ok []
  | r :: rows' =>
      match from_row r with
      | Err e => Err e
      | Ok v => match decode_all rows' with Err e => Err e | Ok vs => Ok (v :: vs) end
      end
  end.

Section Verify.
Context (sha256 : bytes → bytes) (from_str : string → option RetentionMarker).

(** The checks a streamed marker row passes to become a candidate. *)
Definition candidate_from (m : MarkerAdmissionRow) (row : ChainVerifyRow)
  : option RetentionBridgeCandidate :=
  if bool_decide (recompute_row_hash sha256 row ≠ row_hash row) then None
  else match reason (fields row) ≫= from_reason from_str with
       | None => None
       | Some marker =>
           match marker_bridge marker with
           | None => None
           | Some b =>
               if bool_decide (start b ≠ ma_indexed_start m) ||
                  bool_decide (end_ b ≠ ma_indexed_end m) then None
               else Some {| bridge := b; expected_prev := ma_expected_prev m;
                            marker_prev := prev_hash row |}
           end
       end.

Fixpoint candidates_from (ms : list MarkerAdmissionRow)
  : result (list RetentionBridgeCandidate) string :=
  match ms with
  | [] => Ok []
  | m :: ms' =>
      match from_row (ma_row m) with
      | Err e => Err e
      | Ok row =>
          match candidates_from ms' with
          | Err e => Err e
          | Ok cs => Ok (match candidate_from m row with Some c => c :: cs | None => cs end)
          end
      end
  end.

(** [MIN(chain_seq)], [MAX(chain_seq)] of the rows in the time window. *)
Definition ts_range (tenant_id : string) (from to : option Z) (db : Db) : option (Z * Z) :=
  let hits := filter (λ r, (match from with Some f => f <=? c_ts (cols r) | None => true end) &&
                           (match to with Some u => c_ts (cols r) <=? u | None => true end) = true)
                (chain_rows tenant_id db) in
  match head hits, last hits with
  | Some a, Some b => Some (lr_chain_seq a, lr_chain_seq b)
  | _, _ => None
  end.

Definition in_window (after : option Z) (range : option (Z * Z)) (r : LogRow) : bool :=
  match after with Some c => c <? lr_chain_seq r | None => true end &&
  match range with
  | Some (lo, hi) => (lo <=? lr_chain_seq r) && (lr_chain_seq r <=? hi)
  | None => true
  end.

Definition head_of (tenant_id : string) (db : Db) : option ChainHead :=
  match last (chain_rows tenant_id db) with
  | Some r => match lr_row_hash r with
              | Some h => Some {| head_chain_seq := lr_chain_seq r; head_row_hash := h |}
              | None => None
              end
  | None => None
  end.

Definition empty_report (tenant_id : string) (from to : option Z) (head : option ChainHead)
  : ChainVerifyReport :=
  {| report_tenant_id := tenant_id; report_from := from; report_to := to; rows_walked := 0;
     status := ChainVerify.Empty; first_mismatch := None; truncated := false;
     next_after_chain_seq := None; chain_head := head |}.

(** The bridges the walk may use. The worklist of [admit_retention_bridges] never
    runs out ([Bridges.admit_ok]). *)
Definition load_bridges (tenant_id : string) (db : Db) (gap_jobs : list job)
  : result (list RetentionBridge) string :=
  match gap_jobs with
  | [] => Ok []
  | _ =>
      match candidates_from (reachable_markers tenant_id db gap_jobs) with
      | Err e => Err e
      | Ok cs => Ok (default [] (admit_retention_bridges cs))
      end
  end.

Definition patch_report (report : ChainVerifyReport) (trunc : bool) (next : option Z)
    (head : option ChainHead) : ChainVerifyReport :=
  {| report_tenant_id := report_tenant_id report; report_from := report_from report;
     report_to := report_to report; rows_walked := rows_walked report;
     status := if trunc && bool_decide (status report = ChainVerify.Ok) then ChainVerify.Incomplete
               else status report;
     first_mismatch := first_mismatch report; truncated := trunc;
     next_after_chain_seq := next; chain_head := head |}.

Definition verify_window (tenant_id : string) (from to : option Z) (after : option Z)
    (range : option (Z * Z)) (limit : nat) (db : Db) : result ChainVerifyReport string :=
  let selected := take (S limit)
    (filter (λ r, in_window after range r = true) (chain_rows tenant_id db)) in
  match decode_all selected with
  | Err e => Err e
  | Ok rows =>
      let trunc := (limit <? length rows)%nat in
      let walked := if trunc then take limit rows else rows in
      let next := if trunc then chain_seq <$> last walked else None in
      let prev_head := match walked with
                       | first :: _ => hash_before tenant_id (chain_seq first) db
                       | [] => None
                       end in
      match load_bridges tenant_id db (verification_gap_jobs prev_head walked) with
      | Err e => Err e
      | Ok bridges =>
          Ok (patch_report
                (verify_chain_rows_with_bridges sha256 tenant_id from to prev_head walked bridges)
                trunc next (head_of tenant_id db))
      end
  end.

Definition verify_chain (tenant_id : string) (from to after : option Z) (limit : Z) (db : Db)
  : result ChainVerifyReport string :=
  let limit := Z.to_nat (Z.max 1 (Z.min limit 10000)) in
  if is_some from || is_some to then
    match ts_range tenant_id from to db with
    | None => Ok (empty_report tenant_id from to (head_of tenant_id db))
    | Some range => verify_window tenant_id from to after (Some range) limit db
    end
  else verify_window tenant_id from to after None limit db.

End Verify.

(** ** The recursive query reaches its fixed point *)

Section Closure.
Context (t : string) (db : Db).

Lemma expand_closed (U : list job) fuel jobs working :
  NoDup jobs → jobs ⊆ U → (∀ j, j ∈ U → spawned t db j ⊆ U) → working ⊆ jobs →
  (∀ j, j ∈ jobs → j ∈ working ∨ spawned t db j ⊆ jobs) →
  (length U < length jobs + fuel)%nat →
  jobs ⊆ expand fuel t db jobs working ∧
  ∀ j, j ∈ expand fuel t db jobs working → spawned t db j ⊆ expand fuel t db jobs working.
Proof.
  intros Hnd HU HUc. revert jobs working Hnd HU.
  induction fuel as [|fuel IH]; intros jobs working Hnd HU Hw Hdone Hlen.
  { exfalso. assert (jobs ⊆+ U) as Hs by (by apply NoDup_submseteq). apply submseteq_length in Hs. lia. }
  cbn [expand]. set (fresh := filter _ _).
  assert (∀ j, j ∈ fresh ↔ j ∉ jobs ∧ ∃ w, w ∈ working ∧ j ∈ spawned t db w) as Hfresh.
  { intros j. unfold fresh. rewrite list_elem_of_filter, elem_of_remove_dups, list_elem_of_bind. naive_solver. }
  assert (NoDup fresh) as Hnd' by apply NoDup_filter, NoDup_remove_dups.
  clearbody fresh. destruct fresh as [|f0 fresh].
  - split; [done|]. intros j Hj. destruct (Hdone j Hj) as [Hjw|]; [|done]. intros s Hs.
    destruct (decide (s ∈ jobs)); [done|]. exfalso. apply (not_elem_of_nil s), Hfresh. eauto.
  - destruct (IH (jobs ++ f0 :: fresh) (f0 :: fresh)) as [Hsub Hcl].
    + apply NoDup_app. split_and!; [done| |done]. intros j Hj Hjf. apply Hfresh in Hjf. tauto.
    + intros j [Hj|Hj]%elem_of_app; [by apply HU|]. apply Hfresh in Hj as (_ & w & Hww & Hs).
      apply (HUc w); [by apply HU, Hw|done].
    + intros j Hj. apply elem_of_app. by right.
    + intros j [Hj|Hj]%elem_of_app; [|by left]. right. intros s Hs. apply elem_of_app.
      destruct (Hdone j Hj) as [Hjw|Hjs]; [|left; by apply Hjs].
      destruct (decide (s ∈ jobs)); [by left|]. right. apply Hfresh. eauto.
    + rewrite length_app. cbn [length]. lia.
    + split; [|done]. intros j Hj. apply Hsub, elem_of_app. by left.
Qed.

(** Every hash a job can mention comes from a seed or from a locator row. *)
Definition own_link (x : IndexRow) : job :=
  match marker_of (ix_tenant_id x) x db with
  | Some m => (hash_before (c_tenant_id (cols m)) (lr_chain_seq m) db, lr_prev_hash m)
  | None => (None, None)
  end.

Definition cursors (seeds : list job) : list (option string) :=
  (fst <$> seeds) ++ ((Some ∘ ix_end_hash) <$> bridge_index db) ++
  ((fst ∘ own_link) <$> bridge_index db).
Definition targets (seeds : list job) : list (option string) :=
  (snd <$> seeds) ++ ((snd ∘ own_link) <$> bridge_index db).

Lemma elem_of_universe seeds (j : job) :
  j ∈ list_prod (cursors seeds) (targets seeds) ↔ j.1 ∈ cursors seeds ∧ j.2 ∈ targets seeds.
Proof. destruct j as [c u]. rewrite list_elem_of_In, in_prod_iff, <- !list_elem_of_In. done. Qed.

Lemma spawned_universe seeds j :
  j ∈ list_prod (cursors seeds) (targets seeds) →
  spawned t db j ⊆ list_prod (cursors seeds) (targets seeds).
Proof.
  rewrite elem_of_universe. intros [_ Hj] s. unfold spawned.
  destruct (lookup_bridge t j.1 db) as [x|] eqn:Hx; [|by intros ?%not_elem_of_nil].
  apply find_first_Some in Hx as [Hx _].
  destruct (marker_of (ix_tenant_id x) x db) as [m|] eqn:Hm; [|by intros ?%not_elem_of_nil].
  intros [_ Hs]%list_elem_of_filter. apply elem_of_universe.
  assert (own_link x = (hash_before (c_tenant_id (cols m)) (lr_chain_seq m) db, lr_prev_hash m)) as Hown
    by (unfold own_link; by rewrite Hm).
  apply elem_of_cons in Hs as [->|Hs]; [|apply list_elem_of_singleton in Hs as ->]; cbn [fst snd].
  - split; [|done]. unfold cursors. rewrite !elem_of_app. right. left.
    apply list_elem_of_fmap. by exists x.
  - unfold cursors, targets. rewrite !elem_of_app. split; right; [right|];
      apply list_elem_of_fmap; exists x; cbn; by rewrite Hown.
Qed.

Lemma jobs_closed gaps :
  (∀ j, j ∈ gaps → j.1 ≠ j.2 → j ∈ jobs_of t db gaps) ∧
  ∀ j, j ∈ jobs_of t db gaps → spawned t db j ⊆ jobs_of t db gaps.
Proof.
  unfold jobs_of. set (seeds := remove_dups _).
  destruct (expand_closed (list_prod (cursors seeds) (targets seeds)) (rounds seeds db) seeds seeds)
    as [Hsub Hcl].
  - apply NoDup_remove_dups.
  - intros j Hj. apply elem_of_universe. unfold cursors, targets. rewrite !elem_of_app.
    split; left; apply list_elem_of_fmap; by exists j.
  - intros j. apply spawned_universe.
  - done.
  - intros j Hj. by left.
  - rewrite length_prod. unfold cursors, targets, rounds. rewrite !length_app, !length_fmap. lia.
  - split; [|done]. intros j Hj Hne. apply Hsub. unfold seeds.
    by rewrite elem_of_remove_dups, list_elem_of_filter.
Qed.
End Closure.
End AuditVerify.
