(* ===== verification/AuditSound.v ===== *)
(** * Honest chains verify

    Whatever the recorder and the sweeper did, the verifier does not report a
    mismatch: every gap in the surviving rows is bridged by markers that the
    recursive query finds and the admission accepts. *)

From S2P Require Import Prelude RustStr Encoding HashChain Bridges ChainVerify Evidence AuditLog Sweep AuditHistory AuditSteps SweepSteps AuditVerify.

Module AuditSound.
Import HashChain.HashChain.
Import Bridges.Bridges.
Import ChainVerify(ChainVerifyRow, fields, chain_seq, prev_hash, row_hash, recompute_row_hash,
  sealed_row, row_input, ChainVerifyReport, ChainHead, verification_gap_jobs,
  verify_chain_rows_with_bridges, index_bridges, intact, linked_row, tail_hash, report_tenant_id,
  report_from, report_to, rows_walked, status, first_mismatch, truncated, next_after_chain_seq,
  chain_head, status_eq_dec, gap_jobs_spec, verify_spec, breaks_not_intact, tail_hash_cons,
  tail_hash_snoc).
Import Evidence.Evidence.
Import AuditLog.AuditLog.
Import Sweep.Sweep.
Import AuditHistory.AuditHistory.
Import AuditSteps.AuditSteps.
Import SweepSteps.SweepSteps.
Import AuditVerify.AuditVerify.

#[local] Existing Instance status_eq_dec.

(** ** Sorted rows by position *)

Lemma sorted_lookup (l : list LogRow) i j a b :
  StronglySorted seq_lt l → l !! i = Some a → l !! j = Some b →
  lr_chain_seq a < lr_chain_seq b ↔ (i < j)%nat.
Proof.
  assert (∀ i j a b, (i < j)%nat → StronglySorted seq_lt l → l !! i = Some a → l !! j = Some b →
    lr_chain_seq a < lr_chain_seq b) as Hlt.
  { clear. intros i j a b Hij Hs Ha Hb. rewrite <- (take_drop j l) in Hs.
    apply (StronglySorted_app_1_elem_of seq_lt (take j l) (drop j l) a b Hs).
    - apply (list_elem_of_lookup_2 _ i). by rewrite lookup_take_lt.
    - apply (list_elem_of_lookup_2 _ 0%nat). by rewrite lookup_drop, Nat.add_0_r. }
  intros Hs Ha Hb. split; [|by intros ?; eapply Hlt].
  intros Hab. destruct (Nat.lt_trichotomy i j) as [?|[->|Hc]]; [done| |].
  - simplify_eq. lia.
  - pose proof (Hlt _ _ _ _ Hc Hs Hb Ha). lia.
Qed.

(** An upper part of a sorted table is a suffix, a lower part a prefix. *)
Lemma filter_suffix (P : LogRow → Prop) `{!∀ x, Decision (P x)} l :
  StronglySorted seq_lt l → (∀ x y, P x → seq_lt x y → P y) → ∃ l1, l = l1 ++ filter P l.
Proof.
  intros Hs Hup. induction Hs as [|x l Hs [l1 IH] HF]; [by exists []|].
  rewrite filter_cons. destruct (decide (P x)).
  - exists []. cbn. f_equal. symmetry. apply filter_all. intros y Hy.
    rewrite Forall_forall in HF. eauto.
  - exists (x :: l1). cbn. by f_equal.
Qed.

Lemma filter_prefix (P : LogRow → Prop) `{!∀ x, Decision (P x)} l :
  StronglySorted seq_lt l → (∀ x y, P y → seq_lt x y → P x) → ∃ l2, l = filter P l ++ l2.
Proof.
  intros Hs Hdown. induction Hs as [|x l Hs [l2 IH] HF]; [by exists []|].
  rewrite filter_cons. destruct (decide (P x)) as [|Hx].
  - exists l2. cbn. by f_equal.
  - exists (x :: l). rewrite filter_none; [done|]. intros y Hy Hp. apply Hx.
    rewrite Forall_forall in HF. eauto.
Qed.

Lemma rows_before (l1 l2 : list LogRow) r :
  StronglySorted seq_lt (l1 ++ r :: l2) →
  filter (λ q, lr_chain_seq q < lr_chain_seq r) (l1 ++ r :: l2) = l1.
Proof.
  intros Hs. rewrite filter_app, filter_all, filter_none; [by rewrite app_nil_r| |].
  - intros q Hq. apply StronglySorted_app_1_r in Hs. apply elem_of_cons in Hq as [->|Hq]; [lia|].
    inversion Hs as [|? ? _ HF]; subst. rewrite Forall_forall in HF. apply HF in Hq. unfold seq_lt in Hq. lia.
  - intros q Hq. apply (StronglySorted_app_1_elem_of _ _ _ q r Hs Hq). by left.
Qed.

(** ** Gaps and the segments that fill them *)

Section Gaps.
Context (sha256 : bytes → bytes) (from_str : string → option RetentionMarker).
Hypothesis sha256_length : ∀ m, length (sha256 m) = 32%nat.
Context (t : string) (db : Db) (H : list LogRow) (segs : list Seg).
Hypothesis Hwf : Wf db.
Hypothesis HI : Inv sha256 from_str t H segs db.
Hypothesis Hnc : ¬ collision sha256 (log_input <$> H).

Definition bridge_of (s : Seg) : RetentionBridge :=
  {| start := hash_at H (seg_a s); end_ := default "" (hash_at H (seg_b s)) |}.

Lemma seg_bounds s : s ∈ segs → (seg_a s < seg_b s ≤ seg_marker s)%nat ∧ (seg_marker s < length H)%nat.
Proof.
  intros Hs. destruct (i_segs _ _ _ _ _ _ HI s Hs) as [Hb (r & m & Hr & _)].
  split; [done|]. by eapply lookup_lt_Some.
Qed.

Lemma seg_end s : s ∈ segs → Some (end_ (bridge_of s)) = hash_at H (seg_b s).
Proof.
  intros Hs. destruct (seg_bounds s Hs). cbn.
  destruct (boundary_hash sha256 sha256_length H (seg_b s)) as (h & -> & _); [apply HI|lia|done].
Qed.

Lemma index_unique x y :
  x ∈ bridge_index db → y ∈ bridge_index db → ix_tenant_id x = ix_tenant_id y →
  ix_start_hash x = ix_start_hash y → x = y.
Proof.
  intros [i Hi]%list_elem_of_lookup [j Hj]%list_elem_of_lookup Ht Hs.
  assert (i = j) as <-; [|congruence].
  eapply NoDup_lookup; [exact (wf_starts _ Hwf)| |]; rewrite list_lookup_fmap, ?Hi, ?Hj; [done|].
  cbn. by rewrite Ht, Hs.
Qed.

(** The locator row and the marker row of a segment, as the queries find them. *)
Lemma seg_located s :
  s ∈ segs → ∃ x r, lookup_bridge t (hash_at H (seg_a s)) db = Some x ∧ ix_tenant_id x = t ∧
    ix_start_hash x = hash_at H (seg_a s) ∧ Some (ix_end_hash x) = hash_at H (seg_b s) ∧
    marker_of t x db = Some r ∧ H !! seg_marker s = Some r ∧ c_tenant_id (cols r) = t ∧
    r ∈ audit_log db.
Proof.
  intros Hs. destruct (i_segs _ _ _ _ _ _ HI s Hs) as [_ (r & m & Hr & Hm & Hp & Hb)].
  destruct (i_markers _ _ _ _ _ _ HI _ _ Hr Hm) as [Hin (m' & Hp' & Hx)].
  rewrite Hp in Hp'. injection Hp' as <-. specialize (Hx _ Hb).
  assert (c_tenant_id (cols r) = t) as Ht.
  { apply list_elem_of_lookup_2, (i_tenant _ _ _ _ _ _ HI) in Hr. unfold chained_for in Hr. by bool_to_prop. }
  match type of Hx with ?x ∈ _ => exists x end. exists r.
  split_and!; [|done|done|by apply seg_end| |done..].
  - apply find_first_unique; [exact Hx| |].
    + cbn. by rewrite !bool_decide_eq_true_2.
    + intros y Hy Hp'. bool_to_prop. by apply index_unique.
  - apply find_first_unique; [done| |].
    + cbn. rewrite Hm. by rewrite !bool_decide_eq_true_2.
    + intros q Hq Hp'. cbn in Hp'. bool_to_prop. by apply (wf_same_id db).
Qed.

(** A boundary no segment straddles. *)
Definition clean (x : nat) : Prop := ∀ s, s ∈ segs → inside s x → seg_a s = x.

Fixpoint seg_path (x : nat) (l : list Seg) (q : nat) : Prop :=
  match l with
  | [] => x = q
  | s :: l' => s ∈ segs ∧ seg_a s = x ∧ seg_path (seg_b s) l' q
  end.

Lemma seg_path_le x l q : seg_path x l q → (x ≤ q)%nat ∧ (l ≠ [] → (x < q)%nat).
Proof.
  revert x. induction l as [|s l IH]; intros x; cbn.
  - intros ->. split; [done|by intros []].
  - intros (Hs & <- & [Hle _]%IH). destruct (seg_bounds s Hs). split; [lia|]. intros _. lia.
Qed.

Lemma seg_path_inside x l q s :
  seg_path x l q → s ∈ l → s ∈ segs ∧ (x ≤ seg_a s)%nat ∧ (seg_b s ≤ q)%nat.
Proof.
  revert x. induction l as [|s' l IH]; intros x; cbn; [by intros _ ?%not_elem_of_nil|].
  intros (Hs & <- & Hp) [->|Hin]%elem_of_cons.
  - apply seg_path_le in Hp as [? _]. split_and!; [done|lia|lia].
  - destruct (IH _ Hp Hin) as (? & ? & ?). destruct (seg_bounds s' Hs). split_and!; [done|lia|lia].
Qed.

Lemma clean_end s : s ∈ segs → clean (seg_b s).
Proof.
  intros Hs s' Hs' [Ha Hb]. destruct (seg_bounds s Hs) as [? _].
  destruct (decide (seg_a s' = seg_b s)); [done|]. exfalso.
  assert (s = s') as <-; [|lia].
  apply (i_disjoint _ _ _ _ _ _ HI s s' (seg_b s - 1)%nat); [done..| |]; unfold inside; lia.
Qed.

Lemma tiling n x q :
  (q - x ≤ n)%nat → (x ≤ q)%nat → clean x → ¬ swept segs q →
  (∀ i, (x ≤ i < q)%nat → swept segs i) → ∃ l, seg_path x l q.
Proof.
  revert x. induction n as [|n IH]; intros x Hn Hle Hc Hq Hsw.
  { exists []. cbn. lia. }
  destruct (decide (x = q)) as [->|Hne]; [by exists []|].
  destruct (Hsw x) as (s & Hs & Hin); [lia|]. pose proof (Hc s Hs Hin) as Ha.
  destruct (seg_bounds s Hs) as [? _].
  assert (seg_b s ≤ q)%nat as Hb.
  { destruct (le_lt_dec (seg_b s) q); [done|]. exfalso. apply Hq. exists s. split; [done|]. unfold inside. lia. }
  destruct (IH (seg_b s)) as [l Hl]; [lia|done|by apply clean_end|done| |].
  - intros i Hi. apply Hsw. lia.
  - exists (s :: l). cbn. done.
Qed.

(** The rows missing before a surviving row. *)
Lemma gap_before q r :
  H !! q = Some r → r ∈ audit_log db →
  ∃ x l, hash_before t (lr_chain_seq r) db = hash_at H x ∧ (x ≤ q)%nat ∧ seg_path x l q ∧
    (∀ i, (x ≤ i < q)%nat → swept segs i).
Proof.
  intros Hr Hin. set (B := filter (λ r', lr_chain_seq r' < lr_chain_seq r) (chain_rows t db)).
  assert (∀ r', r' ∈ B ↔ lr_chain_seq r' < lr_chain_seq r ∧ chained_for t r' = true ∧ r' ∈ audit_log db) as HB.
  { intros r'. unfold B. rewrite chain_rows_filter by done. by rewrite !list_elem_of_filter. }
  assert (StronglySorted seq_lt B) as HBs.
  { unfold B. rewrite chain_rows_filter by done. do 2 apply sorted_filter. apply Hwf. }
  assert (¬ swept segs q) as Hq by (by apply (i_swept _ _ _ _ _ _ HI q r)).
  assert (∀ i, (i < q)%nat → ¬ swept segs i → ∃ r', H !! i = Some r' ∧ r' ∈ B) as Halive.
  { intros i Hi Hns. destruct (lookup_lt_is_Some_2 H i) as [r' Hr'];
      [apply lookup_lt_Some in Hr; lia|]. exists r'. split; [done|]. apply HB. split_and!.
    - by apply (sorted_lookup H i q _ _ (i_sorted _ _ _ _ _ _ HI)).
    - apply (i_tenant _ _ _ _ _ _ HI). by eapply list_elem_of_lookup_2.
    - by apply (i_swept _ _ _ _ _ _ HI i r'). }
  assert (∃ x, hash_before t (lr_chain_seq r) db = hash_at H x ∧ (x ≤ q)%nat ∧ clean x ∧
    ∀ i, (x ≤ i < q)%nat → swept segs i) as (x & Hh & Hx & Hc & Hsw).
  { unfold hash_before. fold B. destruct (last B) as [r0|] eqn:Hlast.
    - assert (r0 ∈ B) as Hr0 by (rewrite last_lookup in Hlast; by eapply list_elem_of_lookup_2).
      pose proof Hr0 as (Hlt & Hch & Hin0)%HB.
      pose proof (i_alive _ _ _ _ _ _ HI r0 Hin0 Hch) as [p Hp]%list_elem_of_lookup.
      assert (p < q)%nat as Hpq by (by apply (sorted_lookup H p q _ _ (i_sorted _ _ _ _ _ _ HI) Hp Hr)).
      exists (S p). split_and!; [cbn; by rewrite Hp|lia| |].
      + intros s Hs [Ha Hb]. destruct (decide (seg_a s = S p)); [done|]. exfalso.
        apply (i_swept _ _ _ _ _ _ HI p r0 Hp); [done|]. exists s. split; [done|]. unfold inside. lia.
      + intros i Hi. destruct (swept_dec segs i) as [|Hns]; [done|].
        destruct (Halive i) as (r' & Hr' & HrB); [lia|done|]. exfalso.
        assert (lr_chain_seq r0 < lr_chain_seq r') as Hlt0
          by (apply (sorted_lookup H p i _ _ (i_sorted _ _ _ _ _ _ HI)); [done|done|lia]).
        destruct B as [|b B' _] using rev_ind; [done|]. rewrite last_snoc in Hlast. injection Hlast as ->.
        apply elem_of_app in HrB as [HrB| ->%list_elem_of_singleton]; [|lia].
        assert (seq_lt r' r0) as Hl; [|unfold seq_lt in Hl; lia].
        apply (StronglySorted_app_1_elem_of _ _ _ r' r0 HBs HrB). by left.
    - apply last_None in Hlast. exists 0%nat. split_and!; [done|lia| |].
      + intros s _ [Ha _]. lia.
      + intros i Hi. destruct (swept_dec segs i) as [|Hns]; [done|].
        destruct (Halive i) as (r' & _ & HrB); [lia|done|]. rewrite Hlast in HrB.
        by apply not_elem_of_nil in HrB. }
  destruct (tiling (q - x) x q) as [l Hl]; [done..|]. by exists x, l.
Qed.

(** ** What the recursive query locates *)

Context (gaps : list job).
Notation J := (jobs_of t db gaps).

Definition located (s : Seg) : Prop := s ∈ segs ∧ ∃ j, j ∈ J ∧ j.1 = hash_at H (seg_a s).

Lemma boundary_ne x y :
  (x ≤ length H)%nat → (y ≤ length H)%nat → x ≠ y → hash_at H x ≠ hash_at H y.
Proof. intros Hx Hy Hne Heq. apply Hne. by apply (boundaries_distinct sha256 sha256_length H (i_genuine _ _ _ _ _ _ HI) Hnc). Qed.

(** A job at the start of a segment spawns the two jobs of the segment. *)
Lemma spawned_of s u :
  s ∈ segs → (hash_at H (seg_a s), u) ∈ J →
  (hash_at H (seg_b s) ≠ u → (hash_at H (seg_b s), u) ∈ J) ∧
  ∀ r, H !! seg_marker s = Some r → hash_before t (lr_chain_seq r) db ≠ lr_prev_hash r →
    (hash_before t (lr_chain_seq r) db, lr_prev_hash r) ∈ J.
Proof.
  intros Hs Hj. destruct (seg_located s Hs) as (x & r & Hl & Ht & _ & He & Hm & Hr & Htr & _).
  assert (spawned t db (hash_at H (seg_a s), u) =
    filter (λ s, s.1 ≠ s.2) [(hash_at H (seg_b s), u); (hash_before t (lr_chain_seq r) db, lr_prev_hash r)]) as Hsp.
  { unfold spawned. cbn [fst snd]. by rewrite Hl, Ht, Hm, He, Htr. }
  destruct (jobs_closed t db gaps) as [_ Hcl]. specialize (Hcl _ Hj). rewrite Hsp in Hcl. split.
  - intros Hne. apply Hcl, list_elem_of_filter. split; [done|]. left.
  - intros r' Hr' Hne. assert (r' = r) as -> by congruence.
    apply Hcl, list_elem_of_filter. split; [done|]. right. left.
Qed.

Lemma path_located x l q :
  seg_path x l q → (q ≤ length H)%nat → (x = q ∨ (hash_at H x, hash_at H q) ∈ J) →
  ∀ s, s ∈ l → located s.
Proof.
  revert x. induction l as [|s0 l IH]; intros x; cbn; [by intros _ _ _ s ?%not_elem_of_nil|].
  intros (Hs & <- & Hp) Hq Hj s. destruct (seg_bounds s0 Hs) as [Hb0 Hm0].
  pose proof (seg_path_le _ _ _ Hp) as [Hle _].
  assert ((hash_at H (seg_a s0), hash_at H q) ∈ J) as Hj' by (destruct Hj; [lia|done]).
  intros [->|Hin]%elem_of_cons; [by split; [|eexists; split; [exact Hj'|]]|].
  apply (IH (seg_b s0)); [done|done| |done].
  destruct (decide (seg_b s0 = q)) as [->|Hne]; [by left|right].
  apply (spawned_of s0 _ Hs Hj'). apply boundary_ne; [lia|done|done].
Qed.

(** The gap of a located segment's marker is filled by located segments. *)
Lemma marker_gap s :
  located s → ∃ r x l, H !! seg_marker s = Some r ∧ lr_prev_hash r = hash_at H (seg_marker s) ∧
    hash_before t (lr_chain_seq r) db = hash_at H x ∧ seg_path x l (seg_marker s) ∧
    ∀ s', s' ∈ l → located s' ∧ (seg_marker s ≤ seg_marker s')%nat.
Proof.
  intros [Hs ([c u] & Hj & Heq)]. cbn in Heq. subst c.
  destruct (seg_located s Hs) as (x0 & r & _ & _ & _ & _ & _ & Hr & _ & Hin).
  destruct (i_genuine _ _ _ _ _ _ HI _ _ Hr) as [Hprev _]. destruct (seg_bounds s Hs) as [_ Hm].
  destruct (gap_before _ _ Hr Hin) as (x & l & Hh & Hx & Hp & Hsw).
  exists r, x, l. split_and!; [done..|]. intros s' Hin'. split.
  - apply (path_located x l (seg_marker s)); [done|lia| |done].
    destruct (decide (x = seg_marker s)) as [|Hne]; [by left|right].
    rewrite <- Hh, <- Hprev. apply (spawned_of s u Hs Hj); [done|].
    rewrite Hh, Hprev. apply boundary_ne; [lia|lia|done].
  - destruct (seg_path_inside _ _ _ _ Hp Hin') as (Hs' & Ha' & Hb'). destruct (seg_bounds s' Hs') as [? _].
    destruct (le_lt_dec (seg_marker s) (seg_marker s')); [done|]. exfalso.
    destruct (seg_located s' Hs') as (_ & r' & _ & _ & _ & _ & _ & Hr' & _ & Hin'').
    apply (i_swept _ _ _ _ _ _ HI _ _ Hr' ); [done|]. apply Hsw. lia.
Qed.

(** ** Candidates *)

Definition entries : list IndexRow := remove_dups (omap (λ j, lookup_bridge t j.1 db) J).

Lemma entry_known x : x ∈ entries → x ∈ bridge_index db ∧ ix_tenant_id x = t.
Proof.
  unfold entries. rewrite elem_of_remove_dups, list_elem_of_omap. intros (j & _ & Hl).
  apply find_first_Some in Hl as [? Hp]. by bool_to_prop.
Qed.

(** The candidate of a locator row. *)
Lemma entry_candidate x :
  x ∈ entries → ∃ m v c, admission_row t db x = Some m ∧ from_row (ma_row m) = Ok v ∧
    candidate_from sha256 from_str m v = Some c ∧
    bridge c = {| start := ix_start_hash x; end_ := ix_end_hash x |} ∧
    marker_prev c = lr_prev_hash (ma_row m) ∧ c_id (cols (ma_row m)) = ix_marker_id x ∧
    expected_prev c = hash_before t (lr_chain_seq (ma_row m)) db.
Proof.
  intros [Hx Ht]%entry_known. destruct (i_index _ _ _ _ _ _ HI x Hx Ht) as (j & r & Hr & Hid & Hma).
  destruct Hma as (r' & m & Hr' & Hm & Hp & Hb). assert (r' = r) as -> by congruence.
  destruct (i_markers _ _ _ _ _ _ HI j r Hr Hm) as [Hin _].
  destruct (i_genuine _ _ _ _ _ _ HI j r Hr) as [_ (v & Hv & Hs)].
  assert (c_tenant_id (cols r) = t) as Htr.
  { apply list_elem_of_lookup_2, (i_tenant _ _ _ _ _ _ HI) in Hr. unfold chained_for in Hr. by bool_to_prop. }
  assert (marker_of t x db = Some r) as Hmo.
  { apply find_first_unique; [done| |].
    - cbn. rewrite Hm. by rewrite !bool_decide_eq_true_2.
    - intros q Hq Hp'. cbn in Hp'. bool_to_prop. apply (wf_same_id db); congruence. }
  assert (reason (fields v) = c_reason (cols r)) as Hreason.
  { unfold from_row in Hv. destruct (lr_row_hash r); [|done].
    destruct (invocation_hierarchy_from_row _); [|done]. by injection Hv as <-. }
  unfold admission_row. rewrite Hmo. eexists _, v, {| bridge := {| start := ix_start_hash x; end_ := ix_end_hash x |};
    expected_prev := hash_before (c_tenant_id (cols r)) (lr_chain_seq r) db; marker_prev := lr_prev_hash r |}.
  split_and!; [reflexivity|exact Hv| |done..|cbn; by rewrite Htr].
  unfold candidate_from. rewrite bool_decide_eq_false_2 by (by intros Hn).
  rewrite Hreason. unfold payload in Hp. rewrite Hp, Hb. cbn [start end_ ma_indexed_start ma_indexed_end].
  rewrite !bool_decide_eq_false_2 by (by intros Hn). cbn [orb].
  destruct (from_row_Ok _ _ Hv) as (_ & -> & _). reflexivity.
Qed.

Definition cand (m : MarkerAdmissionRow) : option RetentionBridgeCandidate :=
  match from_row (ma_row m) with Ok v => candidate_from sha256 from_str m v | Err _ => None end.

Lemma candidates_from_total ms :
  (∀ m, m ∈ ms → ∃ v, from_row (ma_row m) = Ok v) →
  candidates_from sha256 from_str ms = Ok (omap cand ms).
Proof.
  induction ms as [|m ms IH]; intros Hd; [done|]. cbn [candidates_from omap list_omap].
  unfold cand at 1. destruct (Hd m) as [v ->]; [left|]. rewrite IH by (intros; apply Hd; by right). done.
Qed.

Lemma starts_in_order (l : list IndexRow) :
  (∀ x, x ∈ l → x ∈ entries) →
  (λ c, start (bridge c)) <$> omap cand (omap (admission_row t db) l) = ix_start_hash <$> l.
Proof.
  induction l as [|x l IH]; intros Hl; [done|].
  destruct (entry_candidate x) as (m & v & c & Hm & Hv & Hc & Hb & _); [apply Hl; left|].
  cbn [omap list_omap]. rewrite Hm. cbn [omap list_omap]. unfold cand at 1. rewrite Hv, Hc.
  cbn [fmap list_fmap]. rewrite Hb. cbn. f_equal. apply IH. intros y Hy. apply Hl. by right.
Qed.

Definition cs : list RetentionBridgeCandidate := omap cand (reachable_markers t db gaps).

Lemma elem_of_reachable m :
  m ∈ reachable_markers t db gaps ↔ ∃ x, x ∈ entries ∧ admission_row t db x = Some m.
Proof. unfold reachable_markers. rewrite merge_sort_Permutation, list_elem_of_omap. done. Qed.

Lemma candidates_ok : candidates_from sha256 from_str (reachable_markers t db gaps) = Ok cs.
Proof.
  apply candidates_from_total. intros m (x & Hx & Hm)%elem_of_reachable.
  destruct (entry_candidate x Hx) as (m' & v & _ & Hm' & Hv & _). exists v. congruence.
Qed.

Lemma starts_distinct : NoDup ((λ c, start (bridge c)) <$> cs).
Proof.
  assert (cs ≡ₚ omap cand (omap (admission_row t db) entries)) as ->.
  { unfold cs, reachable_markers. apply omap_Permutation, merge_sort_Permutation. }
  rewrite starts_in_order by done. apply NoDup_fmap_2_strong; [|apply NoDup_remove_dups].
  intros x y [Hx Htx]%entry_known [Hy Hty]%entry_known Heq. apply index_unique; congruence.
Qed.

Lemma same_start i j c d :
  cs !! i = Some c → cs !! j = Some d → start (bridge c) = start (bridge d) → i = j.
Proof.
  intros Hi Hj Heq. eapply NoDup_lookup; [exact starts_distinct| |];
    rewrite list_lookup_fmap, ?Hi, ?Hj; [done|]. cbn. by rewrite Heq.
Qed.

Lemma unambiguous i : ¬ ambiguous cs i.
Proof. intros (c & j & d & Hc & Hd & Hne & Heq). apply Hne. by apply (same_start j i d c). Qed.

Lemma located_candidate s :
  located s → ∃ i c r, cs !! i = Some c ∧ bridge c = bridge_of s ∧ H !! seg_marker s = Some r ∧
    expected_prev c = hash_before t (lr_chain_seq r) db ∧ marker_prev c = lr_prev_hash r.
Proof.
  intros [Hs (j & Hj & Ha)]. destruct (seg_located s Hs) as (x & r & Hl & Ht & Hst & He & Hm & Hr & _).
  assert (x ∈ entries) as Hx.
  { unfold entries. rewrite elem_of_remove_dups, list_elem_of_omap. exists j. by rewrite Ha. }
  destruct (entry_candidate x Hx) as (m & v & c & Hadm & Hv & Hc & Hb & Hmp & _ & Hep).
  assert (ma_row m = r) as Hmr.
  { unfold admission_row in Hadm. rewrite Hm in Hadm. by injection Hadm as <-. }
  assert (c ∈ cs) as [i Hi]%list_elem_of_lookup.
  { unfold cs. apply list_elem_of_omap. exists m. split; [apply elem_of_reachable; by exists x|].
    unfold cand. by rewrite Hv. }
  exists i, c, r. rewrite <- Hmr. split_and!; [done| |by rewrite Hmr|done|done].
  rewrite Hb, Hst. unfold bridge_of. f_equal. rewrite <- (seg_end s Hs) in He. by injection He.
Qed.

(** Two segments never share a marker. *)
Lemma same_marker s s' : s ∈ segs → s' ∈ segs → seg_marker s = seg_marker s' → s = s'.
Proof.
  intros Hs Hs' Heq. destruct (seg_bounds s Hs) as [? ?], (seg_bounds s' Hs') as [? ?].
  destruct (i_segs _ _ _ _ _ _ HI s Hs) as [_ (r & m & Hr & _ & Hp & Hb)].
  destruct (i_segs _ _ _ _ _ _ HI s' Hs') as [_ (r' & m' & Hr' & _ & Hp' & Hb')].
  rewrite Heq, Hr' in Hr. injection Hr as ->. rewrite Hp' in Hp. injection Hp as ->.
  rewrite Hb' in Hb. injection Hb as Ha _.
  assert (seg_a s' = seg_a s) as Haa.
  { apply (boundaries_distinct sha256 sha256_length H (i_genuine _ _ _ _ _ _ HI) Hnc); [lia..|done]. }
  apply (i_disjoint _ _ _ _ _ _ HI s s' (seg_a s)); [done..| |]; unfold inside; lia.
Qed.

Lemma segment_bridged (B : nat → Prop) x l q :
  seg_path x l q →
  (∀ s i c, s ∈ l → cs !! i = Some c → bridge c = bridge_of s → B i) →
  (∀ s, s ∈ l → located s) → bridged_by cs B (hash_at H x) (hash_at H q).
Proof.
  revert x. induction l as [|s l IH]; intros x; cbn [seg_path].
  - intros -> _ _. constructor.
  - intros (Hs & <- & Hp) HB Hl. destruct (located_candidate s) as (i & c & r & Hi & Hb & _); [apply Hl; left|].
    eapply bridged_step; [exact Hi|by rewrite Hb|apply unambiguous|by apply (HB s i c); [left|..]|].
    rewrite Hb, seg_end by done. apply IH; [done| |].
    + intros s' i' c' Hs'. apply HB. by right.
    + intros s' Hs'. apply Hl. by right.
Qed.

Lemma located_admissible n s i c :
  (length H - seg_marker s ≤ n)%nat → located s → cs !! i = Some c → bridge c = bridge_of s →
  admissible cs i.
Proof.
  revert s i c. induction n as [|n IH]; intros s i c Hn Hloc Hi Hb A HA;
    (assert (seg_marker s < length H)%nat by (destruct Hloc as [Hs _]; by apply seg_bounds)); [lia|].
  destruct (located_candidate s Hloc) as (i' & c' & r & Hi' & Hb' & Hr & Hep & Hmp).
  assert (i' = i) as -> by (apply (same_start i' i c' c); [done..|by rewrite Hb, Hb']).
  assert (c' = c) as -> by congruence.
  apply (HA i c Hi (unambiguous i)).
  destruct (marker_gap s Hloc) as (r' & x & l & Hr' & Hprev & Hh & Hp & Hl).
  assert (r' = r) as -> by congruence. rewrite Hep, Hmp, Hh, Hprev.
  apply (segment_bridged _ x l); [done| |intros s' Hs'; by apply Hl].
  intros s' j d Hs' Hj Hd. destruct (Hl s' Hs') as [Hloc' Hle].
  destruct (decide (seg_marker s' = seg_marker s)) as [Heq|Hne].
  - left. assert (s' = s) as -> by (apply same_marker; [apply Hloc'|apply Hloc|done]).
    apply (same_start j i d c); [done..|by rewrite Hb, Hd].
  - right. apply (IH s' j d); [lia|done..].
Qed.

(** ** The walk *)

Lemma index_bridges_lookup (l : list RetentionBridge) b :
  b ∈ l → (∀ b', b' ∈ l → start b' = start b → b' = b) → index_bridges l !! start b = Some b.
Proof.
  unfold index_bridges. induction l as [|b0 l IH] using rev_ind; intros Hb Hu; [by apply not_elem_of_nil in Hb|].
  rewrite foldl_app. cbn [foldl]. destruct (decide (start b0 = start b)) as [Heq|Hne].
  - assert (b0 = b) as -> by (apply Hu; [apply elem_of_app; right; left|done]). apply lookup_insert_eq.
  - rewrite lookup_insert_ne by done. apply elem_of_app in Hb as [Hb| ->%list_elem_of_singleton]; [|done].
    apply IH; [done|]. intros b' Hb'. apply Hu, elem_of_app. by left.
Qed.

Lemma located_step s :
  located s →
  successor (index_bridges (default [] (admit_retention_bridges cs))) None (hash_at H (seg_a s))
  = Some (hash_at H (seg_b s)).
Proof.
  intros Hloc. destruct (admit_ok cs) as (l & Hadm & Hl). rewrite Hadm. change (default [] (Some l)) with l.
  destruct (located_candidate s Hloc) as (i & c & r & Hi & Hb & _).
  assert (bridge_of s ∈ l) as Hin.
  { apply Hl. exists i, c. split_and!; [done..|]. by apply (located_admissible (length H) s i c); [lia|..]. }
  unfold successor. change (hash_at H (seg_a s)) with (start (bridge_of s)).
  rewrite (index_bridges_lookup l (bridge_of s)); [by rewrite (seg_end s (proj1 Hloc))|done|].
  intros b' (j & d & Hj & <- & _)%Hl Heq. rewrite <- Hb in Heq |- *.
  assert (j = i) as -> by (by apply (same_start j i d c)). congruence.
Qed.

Lemma path_reaches x l q :
  seg_path x l q → (∀ s, s ∈ l → located s) →
  reaches (successor (index_bridges (default [] (admit_retention_bridges cs))) None) (hash_at H x) (hash_at H q).
Proof.
  revert x. induction l as [|s l IH]; intros x; cbn [seg_path].
  - intros -> _. constructor.
  - intros (Hs & <- & Hp) Hl. econstructor; [apply located_step, Hl; left|].
    apply IH; [done|]. intros s' Hs'. apply Hl. by right.
Qed.

End Gaps.

Section Window.
Context (sha256 : bytes → bytes) (from_str : string → option RetentionMarker).
Hypothesis sha256_length : ∀ m, length (sha256 m) = 32%nat.
Context (t : string) (db : Db) (H : list LogRow) (segs : list Seg).
Hypothesis Hwf : Wf db.
Hypothesis HI : Inv sha256 from_str t H segs db.
Hypothesis Hnc : ¬ collision sha256 (log_input <$> H).

Lemma chain_row_known r : r ∈ chain_rows t db → r ∈ audit_log db ∧ ∃ q, H !! q = Some r.
Proof.
  rewrite chain_rows_filter by done. intros [Hc Hr]%list_elem_of_filter.
  split; [done|]. apply list_elem_of_lookup. by apply (i_alive _ _ _ _ _ _ HI).
Qed.

Lemma intact_intro idx e rows :
  (∀ r1 row r2, rows = r1 ++ row :: r2 → linked_row idx (tail_hash e r1) row ∧ sealed_row sha256 row) →
  intact sha256 idx e rows.
Proof.
  revert e. induction rows as [|row rows IH]; intros e Hr; [done|]. cbn [intact].
  destruct (Hr [] row rows eq_refl) as [Hl Hs]. split_and!; [done..|]. apply IH.
  intros r1 row' r2 ->. rewrite <- (tail_hash_cons e). by apply (Hr (row :: r1) row' r2).
Qed.

Lemma decode_all_ok rows :
  (∀ r, r ∈ rows → r ∈ chain_rows t db) →
  ∃ vs, decode_all rows = Ok vs ∧ Forall2 (λ r v, from_row r = Ok v ∧ sealed_row sha256 v) rows vs.
Proof.
  induction rows as [|r rows IH]; intros Hr; [exists []; by split; [|constructor]|].
  destruct (chain_row_known r) as [_ [q Hq]]; [apply Hr; left|].
  destruct (i_genuine _ _ _ _ _ _ HI q r Hq) as [_ (v & Hv & Hs)].
  destruct IH as (vs & Hvs & HF); [intros; apply Hr; by right|].
  exists (v :: vs). cbn. rewrite Hv, Hvs. split; [done|]. by constructor.
Qed.

(** What the next row is expected to name is the hash before it in the table. *)
Lemma expected_hash A1 wl1 r wl2 A2 vs1 prev_head :
  chain_rows t db = A1 ++ (wl1 ++ r :: wl2) ++ A2 →
  Forall2 (λ r v, from_row r = Ok v ∧ sealed_row sha256 v) wl1 vs1 →
  prev_head = match wl1 ++ [r] with first :: _ => hash_before t (lr_chain_seq first) db | [] => None end →
  tail_hash prev_head vs1 = hash_before t (lr_chain_seq r) db.
Proof.
  intros HA HF Hp. destruct wl1 as [|r0 wl0 _] using rev_ind.
  - apply Forall2_nil_inv_l in HF as ->. by rewrite Hp.
  - apply Forall2_app_inv_l in HF as (vs0 & v0' & HF0 & HF1 & ->).
    apply Forall2_cons_inv_l in HF1 as (v0 & ? & [Hv0 _] & ->%Forall2_nil_inv_l & ->).
    rewrite tail_hash_snoc. destruct (from_row_Ok _ _ Hv0) as (<- & _).
    unfold hash_before. rewrite HA.
    replace (A1 ++ ((wl0 ++ [r0]) ++ r :: wl2) ++ A2) with ((A1 ++ wl0 ++ [r0]) ++ r :: (wl2 ++ A2))
      by (by rewrite <- !app_assoc).
    rewrite rows_before; [by rewrite app_assoc, last_snoc|].
    replace ((A1 ++ wl0 ++ [r0]) ++ r :: (wl2 ++ A2)) with (A1 ++ ((wl0 ++ [r0]) ++ r :: wl2) ++ A2)
      by (by rewrite <- !app_assoc).
    rewrite <- HA, chain_rows_filter by done. apply sorted_filter, Hwf.
Qed.

Lemma walk_intact A1 wl A2 vs prev_head bridges :
  chain_rows t db = A1 ++ wl ++ A2 →
  Forall2 (λ r v, from_row r = Ok v ∧ sealed_row sha256 v) wl vs →
  prev_head = match vs with first :: _ => hash_before t (chain_seq first) db | [] => None end →
  load_bridges sha256 from_str t db (verification_gap_jobs prev_head vs) = Ok bridges →
  intact sha256 (index_bridges bridges) prev_head vs.
Proof.
  intros HA HF Hp Hb. apply intact_intro. intros vs1 v vs2 Hvs.
  rewrite Hvs in HF. apply Forall2_app_inv_r in HF as (wl1 & wl' & HF1 & HF2 & Hwl).
  apply Forall2_cons_inv_r in HF2 as (r & wl2 & [Hv Hs] & HF2 & ->). split; [|done].
  destruct (from_row_Ok _ _ Hv) as (_ & Hprev & Hseq).
  assert (tail_hash prev_head vs1 = hash_before t (lr_chain_seq r) db) as Hexp.
  { apply (expected_hash A1 wl1 r wl2 A2); [by rewrite HA, Hwl|done|]. rewrite Hp, Hvs.
    destruct HF1 as [|r0 v0 wl0 vs0 [Hv0 _] _]; cbn; [by rewrite Hseq|].
    destruct (from_row_Ok _ _ Hv0) as (_ & _ & ->). done. }
  unfold linked_row. destruct (decide (prev_hash v = tail_hash prev_head vs1)) as [->|Hne]; [constructor|].
  assert ((tail_hash prev_head vs1, prev_hash v) ∈ verification_gap_jobs prev_head vs) as Hj.
  { apply gap_jobs_spec. by exists vs1, v, vs2. }
  destruct (chain_row_known r) as [Hin [q Hq]].
  { rewrite HA, Hwl, !elem_of_app. right. left. right. left. }
  destruct (i_genuine _ _ _ _ _ _ HI q r Hq) as [Hrq _].
  destruct (gap_before sha256 from_str t db H segs Hwf HI q r Hq Hin) as (x & l & Hh & Hx & Hpath & _).
  set (gaps := verification_gap_jobs prev_head vs) in *.
  assert (bridges = default [] (admit_retention_bridges (cs sha256 from_str t db gaps))) as ->.
  { unfold load_bridges in Hb.
    rewrite (candidates_ok sha256 from_str t db H segs Hwf HI gaps) in Hb.
    destruct gaps; [by apply not_elem_of_nil in Hj|]. by injection Hb as <-. }
  rewrite Hexp, Hprev, Hrq, Hh in *.
  apply (path_reaches sha256 from_str sha256_length t db H segs Hwf HI Hnc gaps x l q Hpath).
  intros s Hs'. apply (path_located sha256 from_str sha256_length t db H segs Hwf HI Hnc gaps x l q Hpath);
    [apply lookup_lt_Some in Hq; lia| |done].
  right. by apply (jobs_closed t db gaps).
Qed.

(** The rows of a window are adjacent in the table. *)
Lemma window_chunk after range :
  ∃ A1 A2, chain_rows t db = A1 ++ filter (λ r, in_window after range r = true) (chain_rows t db) ++ A2.
Proof.
  set (lower := λ r, match after with Some c => c <? lr_chain_seq r | None => true end &&
    match range with Some (lo, _) => lo <=? lr_chain_seq r | None => true end).
  set (upper := λ r, match range with Some (_, hi) => lr_chain_seq r <=? hi | None => true end).
  assert (StronglySorted seq_lt (chain_rows t db)) as Hs.
  { rewrite chain_rows_filter by done. apply sorted_filter, Hwf. }
  destruct (filter_suffix (λ r, lower r = true) (chain_rows t db)) as [A1 H1]; [done| |].
  { unfold lower, seq_lt. intros x y Hx Hxy. apply andb_true_iff in Hx as [Ha Hb].
    apply andb_true_iff. destruct after, range as [[??]|]; bool_to_prop; split; try done;
      apply Z.ltb_lt || apply Z.leb_le; lia. }
  destruct (filter_prefix (λ r, upper r = true) (filter (λ r, lower r = true) (chain_rows t db))) as [A2 H2].
  { by apply sorted_filter. }
  { unfold upper, seq_lt. intros x y Hy Hxy. destruct range as [[??]|]; [|done]. bool_to_prop. apply Z.leb_le. lia. }
  exists A1, A2. rewrite H1 at 1. rewrite H2 at 1. rewrite list_filter_filter. do 2 f_equal.
  apply filter_agree. intros r _. unfold in_window, lower, upper.
  destruct after, range as [[??]|]; rewrite ?andb_true_iff; intuition.
Qed.

Lemma verify_window_ok from to after range limit :
  (0 < limit)%nat →
  let n := length (filter (λ r, in_window after range r = true) (chain_rows t db)) in
  ∃ report, verify_window sha256 from_str t from to after range limit db = Ok report ∧
    first_mismatch report = None ∧ rows_walked report = (n `min` limit)%nat ∧
    truncated report = (limit <? n)%nat ∧
    status report = if (n =? 0)%nat then ChainVerify.Empty
                    else if (limit <? n)%nat then ChainVerify.Incomplete else ChainVerify.Ok.
Proof.
  intros Hlim n. destruct (window_chunk after range) as (A1 & A2 & HA).
  unfold verify_window. set (F := filter _ _) in *. set (sel := take (S limit) F).
  destruct (decode_all_ok sel) as (rows & -> & HF).
  { intros r Hr. rewrite HA, !elem_of_app. right. left. by eapply elem_of_sublist; [|apply sublist_take]. }
  assert (length rows = (n `min` S limit)%nat) as Hlen.
  { rewrite <- (Forall2_length _ _ _ HF). unfold sel. rewrite length_take. fold n. lia. }
  set (trunc := (limit <? length rows)%nat).
  assert (trunc = (limit <? n)%nat) as Htr.
  { unfold trunc. rewrite Hlen. destruct (limit <? n)%nat eqn:E; [apply Nat.ltb_lt in E; apply Nat.ltb_lt; lia|].
    apply Nat.ltb_ge in E. apply Nat.ltb_ge. lia. }
  set (walked := if trunc then take limit rows else rows).
  set (prev_head := match walked with first :: _ => hash_before t (chain_seq first) db | [] => None end).
  assert (∃ wl A3, chain_rows t db = A1 ++ wl ++ A3 ∧
    Forall2 (λ r v, from_row r = Ok v ∧ sealed_row sha256 v) wl walked ∧
    length walked = (n `min` limit)%nat) as (wl & A3 & HA' & HF' & Hwlen).
  { unfold walked. rewrite Htr. destruct (limit <? n)%nat eqn:E.
    - exists (take limit sel), (drop limit F ++ A2). split_and!.
      + rewrite HA. f_equal. rewrite app_assoc. f_equal. unfold sel. rewrite take_take.
        replace (limit `min` S limit)%nat with limit by lia. by rewrite take_drop.
      + by apply Forall2_take.
      + apply Nat.ltb_lt in E. rewrite length_take, Hlen. lia.
    - apply Nat.ltb_ge in E. exists sel, A2. split_and!; [|done|lia].
      rewrite HA at 1. do 2 f_equal. unfold sel. rewrite take_ge; [done|]. fold n. lia. }
  destruct (load_bridges _ _ _ _ _) as [bridges|err] eqn:Hb.
  2:{ exfalso. unfold load_bridges in Hb. destruct (verification_gap_jobs _ _); [done|].
      by rewrite (candidates_ok sha256 from_str t db H segs Hwf HI) in Hb. }
  pose proof (walk_intact A1 wl A3 walked prev_head bridges HA' HF' eq_refl Hb) as Hint.
  eexists. split; [reflexivity|].
  pose proof (verify_spec sha256 t from to prev_head walked bridges) as Hspec. cbv zeta in Hspec.
  unfold patch_report. cbn [first_mismatch rows_walked truncated status].
  destruct Hspec as [(Hw & -> & -> & ->)|[(Hw & -> & -> & -> & _)|(_ & r1 & row & r2 & Hw & _ & _ & Hbr)]].
  - rewrite Hw in Hwlen. cbn in Hwlen. assert (n = 0)%nat as -> by lia.
    rewrite Htr. split_and!; [done|done|done|]. by rewrite andb_false_r.
  - assert (n ≠ 0)%nat as Hn0 by (destruct walked; [done|cbn in Hwlen; lia]).
    split_and!; [done|done|done|]. apply Nat.eqb_neq in Hn0 as ->. rewrite Htr.
    destruct (limit <? n)%nat; [|done]. by rewrite bool_decide_eq_true_2.
  - exfalso. rewrite Hw in Hint. by apply (breaks_not_intact _ _ _ _ _ r2 _ Hbr).
Qed.

End Window.

(** ** Runs of the gateway on the audit tables *)

Section Runs.
Context (sha256 : bytes → bytes) (tz : Z → Z).
Context (from_str : string → option RetentionMarker) (to_reason : RetentionMarker → string).

Definition set_routing (rows : list RoutingRow) (db : Db) : Db :=
  {| audit_log := audit_log db; next_chain_seq := next_chain_seq db;
     evidence_outbox := evidence_outbox db; bridge_index := bridge_index db;
     tenant_evidence_routing := rows |}.

Inductive step : Db → Db → Prop :=
  | step_required targets f e db :
      event_ok e → step db (sink_record_required sha256 tz targets f e db).2
  | step_chained targets f e db :
      event_ok e → step db (sink_record_chained_best_effort sha256 tz targets f e db).2
  | step_best_effort f e db :
      event_ok e → step db (sink_record_best_effort tz f e db)
  | step_sweep policies f t selection cutoff guard db :
      (∀ i, 0 ≤ sf_marker_ts f i) →
      step db (run_retention_sweep_selection sha256 tz from_str to_reason policies f t selection
                 cutoff guard db).2
  | step_routing rows db : step db (set_routing rows db).

(** A run from empty tables, with every row it ever wrote. *)
Inductive execution : Db → list LogRow → Prop :=
  | run_start : execution empty_db []
  | run_step db W db' :
      execution db W → step db db' → execution db' (W ++ written db db').

(** Everything the digest was applied to. *)
Definition hashed (W : list LogRow) : list bytes :=
  log_input <$> filter (λ r, is_some (lr_row_hash r) = true) W.

Hypothesis sha256_length : ∀ m, length (sha256 m) = 32%nat.
Hypothesis tz_micros : ∀ t, 0 ≤ t → Z.quot (tz t) 1000 = Z.quot t 1000.
Hypothesis json_round_trip : ∀ m, from_str (to_reason m) = Some m.

Lemma step_good db db' : step db db' → good sha256 from_str db db'.
Proof.
  destruct 1 as [targets f e db He|targets f e db He|f e db He|policies f t sel cutoff guard db Hf|rows db].
  - unfold sink_record_required.
    pose proof (good_chained sha256 tz from_str tz_micros targets RequiredExport f e db He) as Hg.
    by destruct (insert_chained_event _ _ _ _ _ _ _).
  - by apply good_chained.
  - by apply good_unchained.
  - by apply good_sweep.
  - by apply good_untouched.
Qed.

Lemma hashed_tenant t W : log_input <$> of_tenant t W ⊆ hashed W.
Proof.
  intros x (r & -> & [Hc Hr]%list_elem_of_filter)%list_elem_of_fmap. unfold hashed.
  apply list_elem_of_fmap. exists r. split; [done|]. apply list_elem_of_filter. split; [|done].
  unfold chained_for in Hc. by bool_to_prop.
Qed.

Lemma execution_inv db W :
  execution db W → ¬ collision sha256 (hashed W) →
  Wf db ∧ ∀ t, ∃ segs, Inv sha256 from_str t (of_tenant t W) segs db.
Proof.
  induction 1 as [|db W db' Hex IH Hstep]; intros Hnc.
  - split; [by split; (constructor || intros ? ?%not_elem_of_nil)|]. intros t. exists [].
    change (of_tenant t []) with (@nil LogRow).
    split; [by intros ? ?|by intros ? ?%not_elem_of_nil|constructor|by intros ? ?%not_elem_of_nil..
           |by intros ? ?|by intros ? ?%not_elem_of_nil|by intros ? ? ? ?%not_elem_of_nil|by intros ? ?
           |by intros ? ?%not_elem_of_nil|done].
  - destruct IH as [Hwf HI].
    { intros Hc. apply Hnc. revert Hc. apply collision_mono. unfold hashed.
      rewrite filter_app, fmap_app. intros x Hx. apply elem_of_app. by left. }
    destruct (step_good _ _ Hstep Hwf) as (Hwf' & _ & Hgood). split; [done|]. intros t.
    destruct (HI t) as [segs Hsegs]. unfold of_tenant. rewrite filter_app. apply (Hgood _ _ segs Hsegs).
    intros Hc. apply Hnc. revert Hc. apply collision_mono. intros x Hx%hashed_tenant.
    unfold hashed in *. rewrite filter_app, fmap_app. apply elem_of_app. by left.
Qed.

Lemma verify_chain_ok db W t from to after limit :
  execution db W → ¬ collision sha256 (hashed W) →
  ∃ report, verify_chain sha256 from_str t from to after limit db = Ok report ∧
    first_mismatch report = None ∧
    (status report = ChainVerify.Incomplete ∧ truncated report = true ∨
     (status report = ChainVerify.Ok ∨ status report = ChainVerify.Empty) ∧ truncated report = false).
Proof.
  intros Hex Hnc. destruct (execution_inv db W Hex Hnc) as [Hwf HI]. destruct (HI t) as [segs Hsegs].
  assert (¬ collision sha256 (log_input <$> of_tenant t W)) as Hnc'.
  { intros Hc. apply Hnc. revert Hc. apply collision_mono, hashed_tenant. }
  unfold verify_chain. set (lim := Z.to_nat _). assert (0 < lim)%nat as Hlim by lia.
  assert (∀ range, ∃ report, verify_window sha256 from_str t from to after range lim db = Ok report ∧
    first_mismatch report = None ∧
    (status report = ChainVerify.Incomplete ∧ truncated report = true ∨
     (status report = ChainVerify.Ok ∨ status report = ChainVerify.Empty) ∧ truncated report = false)) as Hwin.
  { intros range. destruct (verify_window_ok sha256 from_str sha256_length t db _ segs Hwf Hsegs Hnc'
      from to after range lim Hlim) as (report & -> & Hmm & _ & Htr & Hst).
    exists report. split_and!; [done..|]. rewrite Htr, Hst. set (n := length _).
    destruct (n =? 0)%nat eqn:En, (lim <? n)%nat eqn:El; auto.
    apply Nat.eqb_eq in En. apply Nat.ltb_lt in El. lia. }
  destruct (_ || _); [|apply Hwin]. destruct (ts_range _ _ _ _); [apply Hwin|].
  eexists. split; [done|]. cbn. auto.
Qed.
End Runs.

(** C9. Honest chains verify. Start from empty tables and let the gateway run any
    sequence of recorder writes (required, chained and unchained best effort, with
    database errors, deadlines, lock contention and lost commit replies) and
    retention sweeps (any selection, cutoff and policy guard). Whatever window of
    whatever tenant is then verified, the report carries no mismatch: it is Ok,
    Empty, or Incomplete exactly when the walk was cut off. The sweeps' markers
    are found, admitted and bridge every gap. Assumes no collision among the
    inputs hashed in the run, that a timestamp column keeps microseconds, and
    that a marker's JSON parses back to it. *)
Theorem honest_chains_verify sha256 tz from_str to_reason db W t from to after limit :
  (∀ m, length (sha256 m) = 32%nat) → (∀ t, 0 ≤ t → Z.quot (tz t) 1000 = Z.quot t 1000) →
  (∀ m, from_str (to_reason m) = Some m) →
  execution sha256 tz from_str to_reason db W → ¬ collision sha256 (hashed W) →
  ∃ report, verify_chain sha256 from_str t from to after limit db = Ok report ∧
    first_mismatch report = None ∧
    (status report = ChainVerify.Incomplete ∧ truncated report = true ∨
     (status report = ChainVerify.Ok ∨ status report = ChainVerify.Empty) ∧ truncated report = false).
Proof. intros. by eapply verify_chain_ok. Qed.

(** *** A run to compute with *)

(** A polynomial checksum, padded to 32 bytes. *)
Definition checksum (m : bytes) : bytes :=
  Encoding.Encoding.le_bytes 32
    (foldl (λ acc b, N.land (acc * 257 + byte_val b + 1) 18446744073709551615)%N 7%N m).

Lemma checksum_length m : length (checksum m) = 32%nat.
Proof. apply Encoding.Encoding.length_le_bytes. Qed.

Lemma whole_micros_keeps t : 0 ≤ t → Z.quot (whole_micros t) 1000 = Z.quot t 1000.
Proof. intros _. unfold whole_micros. apply Z.quot_mul. lia. Qed.

(** A marker's text as the bits of its code number. *)
#[local] Instance deleted_row_eq_dec : EqDecision DeletedRow.
Proof. solve_decision. Defined.
#[local] Instance deleted_row_countable : Countable DeletedRow :=
  inj_countable' (λ d, (del_prev_hash d, del_row_hash d))
    (λ p, {| del_prev_hash := p.1; del_row_hash := p.2 |}) ltac:(by intros []).
#[local] Instance unchained_row_eq_dec : EqDecision DeletedUnchainedRow.
Proof. solve_decision. Defined.
#[local] Instance unchained_row_countable : Countable DeletedUnchainedRow :=
  inj_countable' (λ d, (un_id d, un_chain_seq d))
    (λ p, {| un_id := p.1; un_chain_seq := p.2 |}) ltac:(by intros []).
#[local] Instance marker_eq_dec : EqDecision RetentionMarker.
Proof. solve_decision. Defined.
#[local] Instance marker_countable : Countable RetentionMarker :=
  inj_countable'
    (λ m, (((kind m, policy m), (deleted_chain_seq_min m, deleted_chain_seq_max m)),
           (deleted_rows m, deleted_unchained_rows m)))
    (λ p, {| kind := p.1.1.1; deleted_rows := p.2.1; deleted_unchained_rows := p.2.2;
             deleted_chain_seq_min := p.1.2.1; deleted_chain_seq_max := p.1.2.2;
             policy := p.1.1.2 |}) ltac:(by intros []).

Fixpoint bits (p : positive) : string :=
  match p with
  | xH => ""
  | xO p' => String (Ascii.ascii_of_nat 48) (bits p')
  | xI p' => String (Ascii.ascii_of_nat 49) (bits p') end.
Fixpoint of_bits (s : string) : positive :=
  match s with
  | EmptyString => xH
  | String c s' => if bool_decide (c = Ascii.ascii_of_nat 49) then xI (of_bits s') else xO (of_bits s')
  end.

Lemma of_bits_bits p : of_bits (bits p) = p.
Proof. induction p as [p IH|p IH|]; cbn; by rewrite ?IH. Qed.

Definition code_reason (m : RetentionMarker) : string := bits (encode m).
Definition decode_reason (s : string) : option RetentionMarker := decode (of_bits s).

Lemma code_round_trip m : decode_reason (code_reason m) = Some m.
Proof. unfold decode_reason, code_reason. by rewrite of_bits_bits, decode_encode. Qed.

Definition calm : WriteFaults :=
  {| db_error _ _ := None; outlasts_deadline _ _ := false; lock_taken := false; seq_skip := 0;
     serialize_error := None; durable_anyway := false |}.
Definition calm_sweep : SweepFaults :=
  {| sf_error := None; sf_marker_id i := (N.of_nat i + 100)%N; sf_marker_ts _ := 5000;
     sf_seq_skip _ := 0%N; sf_commit_error := None; sf_durable_anyway := false |}.

Definition demo (n : N) (c : EvidenceCategory) : AuditEvent :=
  with_category c (new n 1000 "CallTool" Success).

Definition record (e : AuditEvent) (db : Db) : Db :=
  (sink_record_required checksum whole_micros ["siem"] calm e db).2.
Definition db1 : Db := record (demo 1 Invocation) empty_db.
Definition db2 : Db := record (demo 2 AdminMutation) db1.
Definition db3 : Db := record (demo 3 Invocation) db2.
Definition db4 : Db :=
  (run_retention_sweep_selection checksum whole_micros decode_reason code_reason [] calm_sweep
     "default" (ExactCategory "invocation") 2000 None db3).2.
Definition demo_written : list LogRow :=
  (((([] ++ written empty_db db1) ++ written db1 db2) ++ written db2 db3) ++ written db3 db4).

Lemma demo_event_ok n c : c ≠ RetentionSweep → event_ok (demo n c).
Proof. intros Hc. split; [done|vm_compute; congruence|done]. Qed.

Lemma demo_run : execution checksum whole_micros decode_reason code_reason db4 demo_written.
Proof.
  apply run_step; [|apply (step_sweep checksum whole_micros decode_reason code_reason [] calm_sweep);
    intros i; vm_compute; congruence].
  do 3 (apply run_step; [|by apply (step_required _ _ _ _ ["siem"] calm), demo_event_ok]).
  apply run_start.
Qed.

Lemma no_collision sha256 l : NoDup (sha256 <$> l) → ¬ collision sha256 l.
Proof.
  intros Hnd (m & n & [i Hi]%list_elem_of_lookup & [j Hj]%list_elem_of_lookup & Hne & Heq).
  assert (i = j) as <-; [|congruence].
  eapply NoDup_lookup; [exact Hnd| |]; rewrite list_lookup_fmap, ?Hi, ?Hj; [done|]. cbn. by rewrite Heq.
Qed.

(** The sweep takes the first and the last of three rows; two markers and the
    middle row survive, and the table verifies. *)
Lemma honest_chains_verify_witness :
  (lr_chain_seq <$> chain_rows "default" db4) = [2; 4; 5] ∧
  ∃ report, verify_chain checksum decode_reason "default" None None None 10 db4 = Ok report ∧
    first_mismatch report = None ∧
    (status report = ChainVerify.Incomplete ∧ truncated report = true ∨
     (status report = ChainVerify.Ok ∨ status report = ChainVerify.Empty) ∧ truncated report = false).
Proof.
  split; [vm_compute; reflexivity|].
  apply (honest_chains_verify checksum whole_micros decode_reason code_reason db4 demo_written);
    [exact checksum_length|exact whole_micros_keeps|exact code_round_trip|exact demo_run|].
  apply no_collision, (bool_decide_eq_true_1 _). vm_compute. reflexivity.
Defined.

End AuditSound.
