(* ===== verification/SweepPolicy.v ===== *)
(** * The retention scheduler

    Model of one scheduler tick of crates/waygate-storage/src/sweep.rs: policies
    grouped by tenant, explicit categories before the wildcard, at most ten
    batches per policy, every batch re-validated against the policy table inside
    its transaction. The sweeper is an interface ([Sweeper]); the database one is
    an instance of it, and the policy table may change between any two batches. *)

From S2P Require Import Prelude RustStr Encoding HashChain Bridges Evidence AuditLog Sweep AuditHistory AuditSteps SweepSteps AuditSound.

Module SweepPolicy.
Import HashChain.HashChain.
Import Bridges(RetentionMarker, filter_agree).
Import AuditLog.AuditLog.
Import Sweep.Sweep.
Import AuditHistory.AuditHistory.
Import AuditSteps.AuditSteps.
Import SweepSteps.SweepSteps.

(** ** Cutoffs *)

Definition nanos_per_day : Z := 86400000000000.

(** The range of [OffsetDateTime]: the years -9999 to 9999. *)
Definition min_time : Z := -377705116800000000000.
Definition max_time : Z := 253402300799999999999.

Definition retention_cutoff (now delete_after_days : Z) : option Z :=
  let cutoff := now - delete_after_days * nanos_per_day in
  if (min_time <=? cutoff) && (cutoff <=? max_time) then Some cutoff else None.

(** ** The sweeper interface *)

Class Sweeper (W : Type) := {
  if_policy_current :
    string → string → Z → RetentionPolicy → W → result SweepReport SweepError * W;
  remaining_if_policies_current :
    string → list string → Z → list RetentionPolicy → W → result SweepReport SweepError * W;
}.

Record PolicySweepStats := {
  st_policies : nat;
  st_batches : nat;
  st_markers : nat;
  st_deleted : Z;
  st_errors : nat;
  st_policy_changes : nat;
  st_backlogged : nat;
}.

Definition no_stats : PolicySweepStats :=
  {| st_policies := 0; st_batches := 0; st_markers := 0; st_deleted := 0; st_errors := 0;
     st_policy_changes := 0; st_backlogged := 0 |}.

Definition add_stats (a b : PolicySweepStats) : PolicySweepStats :=
  {| st_policies := st_policies a + st_policies b; st_batches := st_batches a + st_batches b;
     st_markers := st_markers a + st_markers b; st_deleted := (st_deleted a + st_deleted b)%Z;
     st_errors := st_errors a + st_errors b;
     st_policy_changes := st_policy_changes a + st_policy_changes b;
     st_backlogged := st_backlogged a + st_backlogged b |}%nat.

Inductive TickLogLevel := Warn | Info | Debug.

Definition tick_log_level (s : PolicySweepStats) : TickLogLevel :=
  if negb (st_errors s =? 0)%nat || negb (st_policy_changes s =? 0)%nat || negb (st_backlogged s =? 0)%nat
  then Warn
  else if negb (st_deleted s =? 0) then Info
  else Debug.

Definition RETENTION_SWEEP_MAX_BATCHES_PER_TICK : nat := 10.

Section Scheduler.
Context {W : Type} `{!Sweeper W}.

(** One more batch counted. *)
Definition count_batch (r : SweepReport) (s : PolicySweepStats) : PolicySweepStats :=
  {| st_policies := st_policies s; st_batches := S (st_batches s);
     st_markers := (st_markers s + markers_written r)%nat; st_deleted := st_deleted s + rows_deleted r;
     st_errors := st_errors s; st_policy_changes := st_policy_changes s;
     st_backlogged := st_backlogged s |}.

Definition stats_with (errors changes backlogged : nat) (s : PolicySweepStats) : PolicySweepStats :=
  {| st_policies := st_policies s; st_batches := st_batches s; st_markers := st_markers s;
     st_deleted := st_deleted s; st_errors := errors; st_policy_changes := changes;
     st_backlogged := backlogged |}.

(** [for _ in 0..RETENTION_SWEEP_MAX_BATCHES_PER_TICK] *)
Fixpoint batches (n : nat) (policy : RetentionPolicy) (snapshot : list RetentionPolicy)
    (exclusions : option (list string)) (cutoff : Z) (stats : PolicySweepStats) (w : W)
  : PolicySweepStats * W :=
  match n with
  | O => (stats_with 0 0 1 stats, w)
  | S n' =>
      let '(result, w') :=
        match exclusions with
        | Some excluded => remaining_if_policies_current (rp_tenant_id policy) excluded cutoff snapshot w
        | None => if_policy_current (rp_tenant_id policy) (rp_category policy) cutoff policy w
        end in
      match result with
      | Err (PolicyChanged _ _) => (stats_with 0 1 0 stats, w')
      | Err _ => (stats_with 1 0 0 stats, w')
      | Ok report =>
          let stats' := count_batch report stats in
          if batch_limit_reached report then batches n' policy snapshot exclusions cutoff stats' w'
          else (stats', w')
      end
  end.

Definition sweep_policy_batches (now : Z) (policy : RetentionPolicy)
    (policy_snapshot : list RetentionPolicy) (wildcard_exclusions : option (list string)) (w : W)
  : PolicySweepStats * W :=
  let stats := {| st_policies := 1; st_batches := 0; st_markers := 0; st_deleted := 0;
                  st_errors := 0; st_policy_changes := 0; st_backlogged := 0 |} in
  match retention_cutoff now (delete_after_days policy) with
  | None => (stats_with 1 0 0 stats, w)
  | Some cutoff =>
      batches RETENTION_SWEEP_MAX_BATCHES_PER_TICK policy policy_snapshot wildcard_exclusions cutoff
        stats w
  end.

Definition is_wildcard (p : RetentionPolicy) : bool := bool_decide (rp_category p = "*").

Fixpoint sweep_explicit (now : Z) (explicit snapshot : list RetentionPolicy)
    (tick : PolicySweepStats) (w : W) : PolicySweepStats * W :=
  match explicit with
  | [] => (tick, w)
  | p :: explicit' =>
      let '(s, w') := sweep_policy_batches now p snapshot None w in
      sweep_explicit now explicit' snapshot (add_stats tick s) w'
  end.

Definition sweep_tenant (now : Z) (tenant_policies : list RetentionPolicy) (tick : PolicySweepStats)
    (w : W) : PolicySweepStats * W :=
  let wildcard := find_first is_wildcard tenant_policies in
  let explicit := filter (λ p, is_wildcard p = false) tenant_policies in
  let '(tick', w') := sweep_explicit now explicit tenant_policies tick w in
  match wildcard with
  | None => (tick', w')
  | Some p =>
      let '(s, w'') := sweep_policy_batches now p tenant_policies (Some (rp_category <$> explicit)) w' in
      (add_stats tick' s, w'')
  end.

(** The tenants in key order, each with its policies in list order. *)
Definition by_tenant (policies : list RetentionPolicy) : list (list RetentionPolicy) :=
  (λ t, filter (λ p, rp_tenant_id p = t) policies)
    <$> merge_sort str_le (remove_dups (rp_tenant_id <$> policies)).

Fixpoint sweep_tenants (now : Z) (groups : list (list RetentionPolicy)) (tick : PolicySweepStats)
    (w : W) : PolicySweepStats * W :=
  match groups with
  | [] => (tick, w)
  | g :: groups' =>
      let '(tick', w') := sweep_tenant now g tick w in sweep_tenants now groups' tick' w'
  end.

(** [list] is what the store answered. *)
Definition sweep_all_policies (now : Z) (list : result (list RetentionPolicy) string) (w : W)
  : PolicySweepStats * W :=
  match list with
  | Err _ | Ok [] => (no_stats, w)
  | Ok policies => sweep_tenants now (by_tenant policies) no_stats w
  end.

End Scheduler.

(** ** The sweeper on the database *)

(** A sweep transaction that ran: the tables it found, the policy table of that
    moment, the tables it left. *)
Record SweepRun := {
  sr_before : Db;
  sr_policies : list RetentionPolicy;
  sr_after : Db;
}.

(** The tables; for each coming sweep what the policy table holds by then and what
    befalls the transaction; and the sweeps that ran, oldest first. *)
Record World := {
  tables : Db;
  ahead : list (list RetentionPolicy * SweepFaults);
  sweeps : list SweepRun;
}.

Section Pg.
Context (sha256 : bytes → bytes) (tz : Z → Z).
Context (from_str : string → option RetentionMarker) (to_reason : RetentionMarker → string).
Context (idle : SweepFaults).

Definition next_event (w : World) : list RetentionPolicy * SweepFaults :=
  match ahead w with e :: _ => e | [] => ([], idle) end.

Definition on_tables (f : list RetentionPolicy → SweepFaults → Db → result SweepReport SweepError * Db)
    (w : World) : result SweepReport SweepError * World :=
  let '(policies, faults) := next_event w in
  let '(r, db') := f policies faults (tables w) in
  (r, {| tables := db'; ahead := tail (ahead w);
         sweeps := sweeps w ++ [{| sr_before := tables w; sr_policies := policies; sr_after := db' |}] |}).

#[export] Instance pg_sweeper : Sweeper World := {
  if_policy_current t category cutoff expected :=
    on_tables (λ ps f db, sweep_if_policy_current sha256 tz from_str to_reason ps f t category cutoff
                            expected db);
  remaining_if_policies_current t excluded cutoff expected :=
    on_tables (λ ps f db, sweep_remaining_categories_if_policies_current sha256 tz from_str to_reason
                            ps f t excluded cutoff expected db);
}.

(** ** Deletions follow the policy in force *)

(** The policy that governs a row by a policy table. *)
Definition governing (policies : list RetentionPolicy) (r : LogRow) : option RetentionPolicy :=
  let mine := current_policies policies (c_tenant_id (cols r)) in
  resolve_policy (filter (λ p, is_wildcard p = false) mine) (find_first is_wildcard mine) (coalesced r).

(** The same, on the policy table: the tenant's policy for the row's category, and
    its wildcard for a category without one. *)
Definition row_category (r : LogRow) : string := default "invocation" (c_category (cols r)).

Inductive governs (policies : list RetentionPolicy) (r : LogRow) (p : RetentionPolicy) : Prop :=
  | governs_explicit : p ∈ policies → rp_tenant_id p = c_tenant_id (cols r) →
      rp_category p = row_category r → governs policies r p
  | governs_wildcard : p ∈ policies → rp_tenant_id p = c_tenant_id (cols r) → rp_category p = "*" →
      (∀ q, q ∈ policies → rp_tenant_id q = c_tenant_id (cols r) → rp_category q ≠ row_category r) →
      governs policies r p.

(** A row that a sweep may delete at time [now]: older than its policy keeps it, and
    not a retention marker. *)
Definition expired (now : Z) (policies : list RetentionPolicy) (r : LogRow) : Prop :=
  ∃ p, governs policies r p ∧ c_ts (cols r) < now - delete_after_days p * nanos_per_day ∧
    row_category r ≠ "retention_sweep".

Lemma governing_governs policies r p : governing policies r = Some p → governs policies r p.
Proof.
  unfold governing, resolve_policy. change (coalesced r) with (row_category r).
  assert (∀ q, q ∈ current_policies policies (c_tenant_id (cols r)) ↔
            rp_tenant_id q = c_tenant_id (cols r) ∧ q ∈ policies) as Hcur.
  { intros q. unfold current_policies. by rewrite merge_sort_Permutation, list_elem_of_filter. }
  destruct (find_first _ (filter _ _)) as [q|] eqn:Hf.
  - intros [= <-]. apply find_first_Some in Hf as [[_ [? ?]%Hcur]%list_elem_of_filter Hc].
    bool_to_prop. by apply governs_explicit.
  - intros [Hin Hw]%find_first_Some. apply Hcur in Hin as [? ?]. unfold is_wildcard in Hw. bool_to_prop.
    destruct (decide (row_category r = "*")) as [He|Hne]; [apply governs_explicit; congruence|].
    apply governs_wildcard; [done..|]. intros q Hq Ht Hc.
    apply find_first_None in Hf. rewrite Forall_forall in Hf.
    specialize (Hf q). rewrite bool_decide_eq_true_2 in Hf by done. discriminate Hf.
    apply list_elem_of_filter. split; [|by apply Hcur]. apply bool_decide_eq_false_2. congruence.
Qed.

Lemma retention_cutoff_Some now days cutoff :
  retention_cutoff now days = Some cutoff → cutoff = now - days * nanos_per_day.
Proof. unfold retention_cutoff. destruct (_ && _); [by intros [= <-]|done]. Qed.

Lemma governing_expired now policies r p cutoff :
  governing policies r = Some p → retention_cutoff now (delete_after_days p) = Some cutoff →
  c_ts (cols r) < cutoff → coalesced r ≠ FORBIDDEN_SWEEP_CATEGORY → expired now policies r.
Proof.
  intros Hg Hc%retention_cutoff_Some Ht Hf. exists p. split; [by apply governing_governs|].
  split; [lia|exact Hf].
Qed.

Hypothesis tz_micros : ∀ t, 0 ≤ t → Z.quot (tz t) 1000 = Z.quot t 1000.
Hypothesis json_round_trip : ∀ m, from_str (to_reason m) = Some m.

Lemma sweep_candidates_log f t label cs db x db' :
  (∀ i, 0 ≤ sf_marker_ts f i) → Wf db → cs ≠ [] →
  sweep_candidates sha256 tz from_str to_reason f t label cs db = (Ok x, db') →
  ∃ M, audit_log db' = filter (λ r, doomed t (cd_id <$> cs) r = false) (audit_log db ++ M).
Proof.
  intros Htimes Hwf Hne Hsw. unfold sweep_candidates in Hsw.
  destruct (write_markers _ _ _ _ _ _ _ _ _ _ _ _ db) as [[mids|err] tx] eqn:Hw; [|done].
  destruct (sweep_delete _ _ _ _ tx) as [[n tx']|err] eqn:Hd; [|done].
  destruct (sf_error f); [done|]. injection Hsw as _ <-.
  apply write_markers_spec in Hw as (M & X & _ & Hl & _); [|done..].
  apply sweep_delete_spec in Hd as (-> & _); [|by intros ?%fmap_nil_inv]. exists M. by rewrite Hl.
Qed.

(** A deleted row was selected, and the guard held. *)
Lemma sweep_deletes policies f t selection cutoff guard db r :
  (∀ i, 0 ≤ sf_marker_ts f i) → Wf db → r ∈ audit_log db →
  r ∉ audit_log (run_retention_sweep_selection sha256 tz from_str to_reason policies f t selection
                   cutoff (Some guard) db).2 →
  selected t selection cutoff r = true ∧ validate_policy_guard policies t guard = Ok tt.
Proof.
  intros Htimes Hwf Hr. unfold run_retention_sweep_selection.
  destruct (validate_policy_guard policies t guard) as [[]|]; [|by intros []].
  set (R := take RETENTION_SWEEP_BATCH_ROWS (query_candidates t selection cutoff db)).
  unfold sorted_candidates. fold R.
  destruct (merge_sort cd_seq_le (candidate_of <$> R)) as [|c cs] eqn:Hcs.
  { intros Hn. exfalso. apply Hn. destruct (sf_commit_error f); [destruct (sf_durable_anyway f)|]; exact Hr. }
  destruct (sweep_candidates _ _ _ _ _ _ _ _ db) as [[[m n]|err] tx] eqn:Hsw.
  - apply sweep_candidates_log in Hsw as [M HM]; [|done..].
    assert (r ∉ audit_log tx → selected t selection cutoff r = true ∧ Ok tt = @Ok unit SweepError tt) as Hsel.
    { rewrite HM, list_elem_of_filter, elem_of_app. intros Hd. split; [|done].
      destruct (doomed t (cd_id <$> c :: cs) r) eqn:Hdo; [|by destruct Hd; split; [|left]].
      rewrite <- Hcs in Hdo. assert (r ∈ R) as HrR.
      { apply (doomed_taken t db R Hwf (query_taken t selection cutoff db) r Hr). done. }
      unfold R in HrR. eapply elem_of_sublist in HrR; [|apply sublist_take].
      eapply elem_of_sublist in HrR; [|apply sublist_take].
      rewrite merge_sort_Permutation, list_elem_of_filter in HrR. by destruct HrR. }
    destruct (sf_commit_error f); [destruct (sf_durable_anyway f)|]; 
      [exact Hsel| |exact Hsel]. cbn. by intros Hn.
  - unfold sweep_candidates in Hsw. cbn [snd]. intros Hn. exfalso. apply Hn.
    assert (audit_log tx = audit_log db) as ->; [|done].
    destruct (write_markers _ _ _ _ _ _ _ _ _ _ _ _ db) as [[mids|err'] tx1]; [|by injection Hsw as _ <-].
    destruct (sweep_delete _ _ _ _ tx1) as [[n tx']|err']; [|by injection Hsw as _ <-].
    destruct (sf_error f); [by injection Hsw as _ <-|done].
Qed.

Lemma find_first_filter {A} (p q : A → bool) l :
  (∀ x, p x = true → q x = true) →
  find_first p (filter (λ x, q x = true) l) = find_first p l.
Proof.
  intros Hpq. induction l as [|x l IH]; [done|]. rewrite filter_cons. cbn [find_first].
  destruct (decide (q x = true)) as [Hq|Hq]; cbn [find_first]; destruct (p x) eqn:Hp; auto.
  by destruct Hq; apply Hpq.
Qed.

Lemma find_first_not_wildcard c l :
  c ≠ "*" →
  find_first (λ p, bool_decide (rp_category p = c)) (filter (λ p, is_wildcard p = false) l)
  = find_first (λ p, bool_decide (rp_category p = c)) l.
Proof.
  intros Hc. rewrite (filter_agree _ (λ p, negb (is_wildcard p) = true)).
  - apply (find_first_filter _ (λ p, negb (is_wildcard p))). intros p Hp. bool_to_prop.
    unfold is_wildcard. rewrite bool_decide_eq_false_2; [done|congruence].
  - intros p _. by rewrite negb_true_iff.
Qed.

(** The guard of an explicit policy: it is the one that governs its category. *)
Lemma explicit_governs policies p r :
  validate_policy_guard policies (rp_tenant_id p) (Effective (rp_category p) p) = Ok tt →
  rp_category p ≠ "*" → c_tenant_id (cols r) = rp_tenant_id p → coalesced r = rp_category p →
  governing policies r = Some p.
Proof.
  intros Hg Hc Ht Hr. unfold governing, resolve_policy. rewrite Ht, Hr.
  rewrite find_first_not_wildcard by done. cbn in Hg. case_bool_decide as Heq; [done|exact Heq].
Qed.

(** The guard of a wildcard: no explicit policy covers what it sweeps. *)
Lemma wildcard_governs policies snapshot p r :
  validate_policy_guard policies (rp_tenant_id p) (WildcardTenant snapshot) = Ok tt →
  NoDup (rp_category <$> snapshot) → find_first is_wildcard snapshot = Some p →
  c_tenant_id (cols r) = rp_tenant_id p →
  coalesced r ∉ (rp_category <$> filter (λ p, is_wildcard p = false) snapshot) →
  governing policies r = Some p.
Proof.
  intros Hg Hnd Hf Ht Hr. cbn in Hg. case_bool_decide as Hcur; [|done].
  unfold governing, resolve_policy. rewrite Ht, Hcur.
  assert (∀ q, q ∈ merge_sort category_le snapshot ↔ q ∈ snapshot) as Hel
    by (intros q; by rewrite merge_sort_Permutation).
  apply find_first_Some in Hf as [Hin Hw].
  rewrite (proj2 (find_first_None _ _)).
  - apply find_first_unique; [by apply Hel|done|]. intros q Hq Hqw. apply Hel in Hq.
    unfold is_wildcard in *. bool_to_prop. apply list_elem_of_lookup in Hq as [i Hi], Hin as [j Hj].
    assert (i = j) as <-; [|congruence].
    eapply NoDup_lookup; [exact Hnd| |]; rewrite list_lookup_fmap, ?Hi, ?Hj; [done|]. cbn. congruence.
  - apply Forall_forall. intros q [Hqw Hq]%list_elem_of_filter. apply bool_decide_eq_false_2. intros Heq.
    apply Hr, list_elem_of_fmap. exists q. split; [done|]. apply list_elem_of_filter. by rewrite <- Hel.
Qed.

(** The sweeps [runs] ran one after the other from the tables [db] to [db'], the
    policy table holding what [tables_ahead] says when each of them ran. *)
Inductive ran : list (list RetentionPolicy) → Db → list SweepRun → Db → Prop :=
  | ran_nil tables_ahead db : ran tables_ahead db [] db
  | ran_cons tables_ahead run runs db' :
      sr_policies run = default [] (head tables_ahead) →
      ran (tail tables_ahead) (sr_after run) runs db' →
      ran tables_ahead (sr_before run) (run :: runs) db'.

(** Whatever the sweep deleted was expired by the policy table of that moment. *)
Definition lawful (now : Z) (run : SweepRun) : Prop :=
  ∀ r, r ∈ audit_log (sr_before run) → r ∉ audit_log (sr_after run) → expired now (sr_policies run) r.

Lemma drop_tail {A} n (l : list A) : drop n (tail l) = drop (S n) l.
Proof. by destruct l; [destruct n|]. Qed.

Lemma ran_app ta db runs db1 runs' db2 :
  ran ta db runs db1 → ran (drop (length runs) ta) db1 runs' db2 → ran ta db (runs ++ runs') db2.
Proof.
  induction 1 as [|ta run runs db' Hp Hr IH]; [done|]. intros H2. cbn. constructor; [done|].
  apply IH. by rewrite drop_tail.
Qed.

(** A row that is gone in the end is gone through one of the sweeps. *)
Lemma ran_gone ta db runs db' r :
  ran ta db runs db' → r ∈ audit_log db → r ∉ audit_log db' →
  ∃ run, run ∈ runs ∧ r ∈ audit_log (sr_before run) ∧ r ∉ audit_log (sr_after run).
Proof.
  induction 1 as [|ta run runs db' Hp Hr IH]; [done|]. intros Hin Hn.
  destruct (decide (r ∈ audit_log (sr_after run))) as [H|H].
  - destruct (IH H Hn) as (x & Hx & ?). exists x. split; [by right|done].
  - exists run. split; [left|done].
Qed.

(** What is ahead of a world does no harm to the tables. *)
Hypothesis sha256_length : ∀ m, length (sha256 m) = 32%nat.
Hypothesis idle_times : ∀ i, 0 ≤ sf_marker_ts idle i.

Definition orderly (w : World) : Prop :=
  Wf (tables w) ∧ ∀ e, e ∈ ahead w → ∀ i, 0 ≤ sf_marker_ts e.2 i.

(** [w'] is [w] some lawful sweeps later. *)
Definition later (now : Z) (w w' : World) : Prop :=
  ∃ runs, sweeps w' = sweeps w ++ runs ∧ ran (fst <$> ahead w) (tables w) runs (tables w') ∧
    ahead w' = drop (length runs) (ahead w) ∧ orderly w' ∧ Forall (lawful now) runs.

Lemma later_refl now w : orderly w → later now w w.
Proof. intros Ho. exists []. split_and!; [by rewrite app_nil_r|constructor|done|done|constructor]. Qed.

Lemma later_trans now w1 w2 w3 : later now w1 w2 → later now w2 w3 → later now w1 w3.
Proof.
  intros (p1 & S1 & R1 & A1 & _ & F1) (p2 & S2 & R2 & A2 & O2 & F2). exists (p1 ++ p2).
  split_and!; [by rewrite S2, S1, app_assoc| | |done|by apply Forall_app].
  - eapply ran_app; [exact R1|]. by rewrite <- fmap_drop, <- A1.
  - by rewrite A2, A1, drop_drop, length_app.
Qed.

(** One guarded sweep. *)
Lemma later_sweep now t selection cutoff guard w :
  orderly w →
  (∀ ps r, validate_policy_guard ps t guard = Ok tt → selected t selection cutoff r = true →
     expired now ps r) →
  later now w (on_tables (λ ps f db, run_retention_sweep_selection sha256 tz from_str to_reason ps f t
                            selection cutoff (Some guard) db) w).2.
Proof.
  intros [Hwf Hf] Hexp. unfold on_tables. destruct (next_event w) as [ps f] eqn:He.
  assert (∀ i, 0 ≤ sf_marker_ts f i) as Htimes.
  { unfold next_event in He. destruct (ahead w) as [|e l]; simplify_eq; [done|].
    apply (Hf (ps, f)). left. }
  assert (ps = default [] (head (fst <$> ahead w))) as Hps.
  { unfold next_event in He. by destruct (ahead w); simplify_eq. }
  pose proof (good_sweep sha256 tz from_str to_reason sha256_length tz_micros json_round_trip ps f t
    selection cutoff (Some guard) (tables w) Htimes Hwf) as (Hwf' & _).
  pose proof (λ r, sweep_deletes ps f t selection cutoff guard (tables w) r Htimes Hwf) as Hdel.
  destruct (run_retention_sweep_selection _ _ _ _ _ _ _ _ _ _ _) as [res db']. cbn [snd] in *.
  set (run := {| sr_before := tables w; sr_policies := ps; sr_after := db' |}).
  exists [run]. cbn [ahead tables sweeps]. split_and!.
  - done.
  - apply (ran_cons _ run [] db'); [done|constructor].
  - by destruct (ahead w).
  - split; [done|]. cbn. intros e Hin. apply Hf. destruct (ahead w); [done|by right].
  - apply Forall_singleton. intros r Hr Hn. destruct (Hdel r Hr Hn) as [Hs Hg]. by apply Hexp.
Qed.

Lemma later_batches now n policy snapshot exclusions cutoff stats w :
  orderly w → retention_cutoff now (delete_after_days policy) = Some cutoff →
  NoDup (rp_category <$> snapshot) →
  match exclusions with
  | None => rp_category policy ≠ "*"
  | Some ex => find_first is_wildcard snapshot = Some policy ∧
               ex = rp_category <$> filter (λ p, is_wildcard p = false) snapshot
  end →
  later now w (batches n policy snapshot exclusions cutoff stats w).2.
Proof.
  intros Ho Hcut Hnd Hpol. revert w stats Ho. induction n as [|n IH]; intros w stats Ho; cbn [batches];
    [by apply later_refl|].
  assert (later now w (match exclusions with
    | Some excluded => remaining_if_policies_current (rp_tenant_id policy) excluded cutoff snapshot w
    | None => if_policy_current (rp_tenant_id policy) (rp_category policy) cutoff policy w
    end).2) as Hstep.
  { destruct exclusions as [ex|].
    - destruct Hpol as [Hw ->]. apply later_sweep; [done|]. intros ps r Hg Hs. unfold selected in Hs.
      bool_to_prop. eapply (governing_expired now ps r policy cutoff); [|done..]. by eapply wildcard_governs.
    - apply later_sweep; [done|]. intros ps r Hg Hs. unfold selected in Hs. bool_to_prop.
      eapply (governing_expired now ps r policy cutoff); [|done..]. by apply explicit_governs. }
  destruct (match exclusions with Some _ => _ | None => _ end) as [res w']. cbn [snd] in Hstep.
  destruct res as [report|[]]; [|exact Hstep..]. destruct (batch_limit_reached report); [|exact Hstep].
  eapply later_trans; [exact Hstep|]. apply IH. by destruct Hstep as (_ & _ & _ & _ & ? & _).
Qed.

Lemma later_orderly now w w' : later now w w' → orderly w'.
Proof. by intros (_ & _ & _ & _ & ? & _). Qed.

Lemma later_policy now policy snapshot exclusions w :
  orderly w → NoDup (rp_category <$> snapshot) →
  match exclusions with
  | None => rp_category policy ≠ "*"
  | Some ex => find_first is_wildcard snapshot = Some policy ∧
               ex = rp_category <$> filter (λ p, is_wildcard p = false) snapshot
  end →
  later now w (sweep_policy_batches now policy snapshot exclusions w).2.
Proof.
  intros Ho Hnd Hpol. unfold sweep_policy_batches.
  destruct (retention_cutoff _ _) eqn:Hcut; [by apply later_batches|by apply later_refl].
Qed.

Lemma later_explicit now explicit snapshot tick w :
  orderly w → NoDup (rp_category <$> snapshot) → Forall (λ p, is_wildcard p = false) explicit →
  later now w (sweep_explicit now explicit snapshot tick w).2.
Proof.
  intros Ho Hnd HF. revert tick w Ho. induction HF as [|p l Hp HF IH]; intros tick w Ho; cbn [sweep_explicit];
    [by apply later_refl|].
  pose proof (later_policy now p snapshot None w Ho Hnd) as Hl.
  destruct (sweep_policy_batches _ _ _ _ _) as [st w']. cbn [snd] in Hl.
  assert (later now w w') as Hw by (apply Hl; unfold is_wildcard in Hp; by bool_to_prop).
  eapply later_trans; [exact Hw|]. by apply IH, (later_orderly now w).
Qed.

Lemma later_tenant now group tick w :
  orderly w → NoDup (rp_category <$> group) → later now w (sweep_tenant now group tick w).2.
Proof.
  intros Ho Hnd. unfold sweep_tenant.
  pose proof (later_explicit now (filter (λ p, is_wildcard p = false) group) group tick w Ho Hnd) as He.
  destruct (sweep_explicit _ _ _ _ _) as [tick' w']. cbn [snd] in He.
  assert (later now w w') as Hw.
  { apply He. apply Forall_forall. by intros p [? _]%list_elem_of_filter. }
  destruct (find_first is_wildcard group) as [p|] eqn:Hf; [|done].
  pose proof (later_policy now p group (Some (rp_category <$> filter (λ p, is_wildcard p = false) group)) w'
    (later_orderly _ _ _ Hw) Hnd (conj Hf eq_refl)) as Hp.
  destruct (sweep_policy_batches _ _ _ _ _) as [st w'']. by eapply later_trans.
Qed.

Lemma later_tenants now groups tick w :
  orderly w → Forall (λ g, NoDup (rp_category <$> g)) groups →
  later now w (sweep_tenants now groups tick w).2.
Proof.
  intros Ho HF. revert tick w Ho. induction HF as [|g groups Hg HF IH]; intros tick w Ho; cbn [sweep_tenants];
    [by apply later_refl|].
  pose proof (later_tenant now g tick w Ho Hg) as Ht.
  destruct (sweep_tenant now g tick w) as [tick' w']. eapply later_trans; [exact Ht|].
  by apply IH, (later_orderly now w).
Qed.

Lemma groups_unique policies :
  NoDup ((λ p, (rp_tenant_id p, rp_category p)) <$> policies) →
  Forall (λ g, NoDup (rp_category <$> g)) (by_tenant policies).
Proof.
  intros Hnd. apply Forall_fmap, Forall_forall. intros t _. cbn.
  induction policies as [|p l IH]; [constructor|]. cbn in Hnd. apply NoDup_cons in Hnd as [Hn Hnd].
  rewrite filter_cons. destruct (decide (rp_tenant_id p = t)) as [<-|]; [|by apply IH].
  cbn. constructor; [|by apply IH]. intros (q & Hq & [Ht Hin]%list_elem_of_filter)%list_elem_of_fmap.
  apply Hn, list_elem_of_fmap. exists q. by rewrite Ht, Hq.
Qed.

Lemma later_tick now policies w :
  orderly w → NoDup ((λ p, (rp_tenant_id p, rp_category p)) <$> policies) →
  later now w (sweep_all_policies now (Ok policies) w).2.
Proof.
  intros Ho Hnd. unfold sweep_all_policies. destruct policies as [|p l]; [by apply later_refl|].
  apply later_tenants; [done|by apply groups_unique].
Qed.

End Pg.

(** C34. A scheduler tick deletes a row only under the policy that governs it at that
    moment. The tick works from a snapshot of the policies, and the policy table may
    change between any two of its batches. The sweep transactions of the tick run one
    after the other, the policy table holding the next of its coming contents each
    time; every audit row that one of them deletes was governed, by the table in force
    when that very transaction ran, by a policy (the tenant's explicit category, else
    its wildcard) whose cutoff it had passed, and was not a retention marker; and every
    row that is gone after the tick was deleted by one of them. *)
Theorem tick_respects_governing_policy sha256 tz from_str to_reason idle now policies w :
  (∀ m, length (sha256 m) = 32%nat) → (∀ t, 0 ≤ t → Z.quot (tz t) 1000 = Z.quot t 1000) →
  (∀ m, from_str (to_reason m) = Some m) → (∀ i, 0 ≤ sf_marker_ts idle i) → orderly w →
  NoDup ((λ p, (rp_tenant_id p, rp_category p)) <$> policies) →
  let w' := (@sweep_all_policies World (pg_sweeper sha256 tz from_str to_reason idle) now
               (Ok policies) w).2 in
  ∃ runs, sweeps w' = sweeps w ++ runs ∧ ran (fst <$> ahead w) (tables w) runs (tables w') ∧
    (∀ run r, run ∈ runs → r ∈ audit_log (sr_before run) → r ∉ audit_log (sr_after run) →
       expired now (sr_policies run) r) ∧
    (∀ r, r ∈ audit_log (tables w) → r ∉ audit_log (tables w') →
       ∃ run, run ∈ runs ∧ r ∈ audit_log (sr_before run) ∧ r ∉ audit_log (sr_after run)).
Proof.
  intros Hlen Htz Hjson Hidle Ho Hnd w'.
  pose proof (later_tick sha256 tz from_str to_reason idle Htz Hjson Hlen Hidle now policies w Ho Hnd)
    as (runs & Hs & Hran & _ & _ & Hlaw).
  exists runs. split_and!; [done|done| |].
  - intros run r Hin. rewrite Forall_forall in Hlaw. by apply Hlaw.
  - intros r. by eapply ran_gone.
Qed.

(** *** A tick to compute with *)

Import AuditSound(checksum, checksum_length, whole_micros_keeps, code_reason, decode_reason,
  code_round_trip, calm_sweep, db3, demo_run, step_required, demo_event_ok, execution, run_step,
  run_start, execution_inv, no_collision, db1, db2, calm).

Definition daily : RetentionPolicy :=
  {| rp_tenant_id := "default"; rp_category := "invocation"; delete_after_days := 1;
     created_at := 0; updated_at := 0 |}.
Definition forever : RetentionPolicy :=
  {| rp_tenant_id := "default"; rp_category := "*"; delete_after_days := 3650;
     created_at := 0; updated_at := 0 |}.

Definition demo_world : World :=
  {| tables := db3; ahead := [([daily; forever], calm_sweep); ([daily; forever], calm_sweep)];
     sweeps := [] |}.
Definition demo_now : Z := 2 * nanos_per_day.
Definition first_row : LogRow :=
  default {| cols := columns_of whole_micros demo_event; lr_chain_seq := 0; lr_prev_hash := None;
             lr_row_hash := None |} (head (audit_log db3)).

Lemma demo_run3 :
  execution checksum whole_micros decode_reason code_reason db3
    ((([] ++ written empty_db db1) ++ written db1 db2) ++ written db2 db3).
Proof.
  do 3 (apply run_step; [|by apply (step_required _ _ _ _ ["siem"] calm), demo_event_ok]).
  apply run_start.
Qed.

Lemma demo_orderly : orderly demo_world.
Proof.
  split.
  - eapply (execution_inv checksum whole_micros decode_reason code_reason);
      [exact checksum_length|exact whole_micros_keeps|exact code_round_trip|exact demo_run3|].
    apply no_collision, (bool_decide_eq_true_1 _). vm_compute. reflexivity.
  - intros e He i. cbn in He.
    apply elem_of_cons in He as [->|He]; [|apply list_elem_of_singleton in He as ->]; cbn; lia.
Qed.

(** The two invocation rows are gone, the administrative one is kept. *)
Lemma tick_respects_governing_policy_witness :
  let w' := (@sweep_all_policies World
               (pg_sweeper checksum whole_micros decode_reason code_reason calm_sweep) demo_now
               (Ok [daily; forever]) demo_world).2 in
  (lr_chain_seq <$> audit_log (tables w')) = [2; 4; 5] ∧ length (sweeps w') = 2%nat ∧
  ∃ run, run ∈ sweeps w' ∧ expired demo_now (sr_policies run) first_row.
Proof.
  intros w'. split; [vm_compute; reflexivity|]. split; [vm_compute; reflexivity|].
  destruct (tick_respects_governing_policy checksum whole_micros decode_reason code_reason calm_sweep demo_now
    [daily; forever] demo_world checksum_length whole_micros_keeps code_round_trip
    ltac:(intros i; vm_compute; congruence) demo_orderly
    ltac:(apply (bool_decide_eq_true_1 _); vm_compute; reflexivity)) as (runs & Hs & _ & Hlaw & Hgone).
  destruct (Hgone first_row) as (run & Hin & Hb & Ha).
  - apply (list_elem_of_lookup_2 _ 0%nat). vm_compute. reflexivity.
  - apply (bool_decide_eq_true_1 _). vm_compute. reflexivity.
  - exists run. split; [|exact (Hlaw run first_row Hin Hb Ha)]. fold w' in Hs. rewrite Hs. exact Hin.
Defined.

End SweepPolicy.
