(* ===== verification/Cedar.v ===== *)
(** * The Cedar engine: decision inference and caching

    Model of [CedarEngine] of crates/waygate-authz/src/cedar.rs and of its
    [AuthzEngine] implementation in lib.rs.

    Cedar itself is a third-party library ([CedarApi]: its values and the
    authorizer over the engine's policy set). What the engine gives it, the
    entities, the context and the request built from the facts, is modelled in
    full ([pass]), and so is what the engine makes of a pass: fail-closed treatment
    of erroring policies, step-up and approval inference, memoisation. These are
    stated for any pass [is_authorized]; the policy set is the lookup [policy] of a
    policy's effect, reason annotation and rendered text by id. *)

From S2P Require Import Prelude RustStr Facts DecisionCache Json.

Module Cedar.
Import DecisionCache(demo_principal, demo_tool, demo_facts, demo_wf).
Export Facts.Facts.

Inductive CedarError :=
  | Uid (uid err : string)
  | Entities (e : string)
  | BuildContext (e : string)
  | BuildRequest (e : string)
  | Eval (e : string).

Inductive Decision := DAllow | DDeny | DStepUpRequired | DApprovalRequired.
#[export] Instance Decision_eq_dec : EqDecision Decision.
Proof. solve_decision. Defined.

Record AuthzResult := {
  decision : Decision;
  reasons : list string;
  res_policy_ids : list string;
}.

Inductive AuthzOutcome := Decided (r : AuthzResult) | EngineError.

Inductive Effect := Permit | Forbid.

Record Policy := {
  effect : Effect;
  reason_annotation : option string;
  text : string;
}.

(** Cedar's response: the decision, the ids that determined it, the ids of the
    policies whose evaluation failed. *)
Record Response := {
  resp_allow : bool;
  resp_reason : list string;
  resp_errors : list string;
}.

(** [str::contains] for the substring [p]. *)
Fixpoint contains_bytes (p l : bytes) : bool :=
  match strip_prefix_bytes p l with
  | Some _ => true
  | None => match l with [] => false | _ :: l' => contains_bytes p l' end
  end.
Definition contains (p s : string) : bool := contains_bytes (as_bytes p) (as_bytes s).

Definition governs_data_plane (action_kind : string) : bool :=
  bool_decide (action_kind = "CallTool") || bool_decide (action_kind = "ReadResource")
  || bool_decide (action_kind = "ReadSkill").

Section Engine.
Context {Json : Type} (is_authorized : Facts Json → result Response CedarError)
        (policy : string → option Policy).
Implicit Types (f : Facts Json) (strict : bool).

Definition push_scope f (scope : string) : Facts Json :=
  {| principal :=
       {| pf_sub := pf_sub (principal f); pf_email := pf_email (principal f);
          pf_groups := pf_groups (principal f); pf_scopes := pf_scopes (principal f) ++ [scope];
          pf_auth_method := pf_auth_method (principal f); pf_roles := pf_roles (principal f);
          pf_scim := pf_scim (principal f) |};
     client_id := client_id f; tenant_id := tenant_id f; action := action f;
     resource := resource f; request := request f; context := context f |}.

Definition with_approval f : Facts Json :=
  {| principal := principal f; client_id := client_id f; tenant_id := tenant_id f;
     action := action f; resource := resource f; request := request f;
     context := {| approval_present := true; mfa := mfa (context f);
                   rc_time := rc_time (context f); source_ip := source_ip (context f);
                   channel := channel (context f) |} |}.

Definition has_scope f (scope : string) : bool :=
  existsb (λ s, bool_decide (s = scope)) (pf_scopes (principal f)).

(** A policy that restricts, or one that cannot be shown to be permissive. *)
Definition restricting (id : string) : bool :=
  match policy id with
  | None => true
  | Some p => match effect p with Forbid => true | Permit => false end
  end.

Definition evaluate_raw_facts f strict : result AuthzResult CedarError :=
  let? resp := is_authorized f in
  let had_eval_error := match resp_errors resp with [] => false | _ => true end in
  let restricting_policy_errored := existsb restricting (resp_errors resp) in
  if (strict && had_eval_error) || restricting_policy_errored
  then Err (Eval "policy evaluation error; failing closed")
  else Ok {| decision := if resp_allow resp then DAllow else DDeny;
             reasons := omap (λ id, policy id ≫= reason_annotation) (resp_reason resp);
             res_policy_ids := resp_reason resp |}.

Definition any_policy_references_approval (ids : list string) : bool :=
  existsb (λ id, match policy id with
                 | None => true
                 | Some p => contains "approval_present" (text p)
                 end) ids.

Definition step_up_reason (scope : string) : string :=
  "denied without `" +:+ scope +:+ "`; re-authorize with the scope to proceed".

(** The scope the action requires and the caller lacks. *)
Definition missing_scope f : option string :=
  match required_scope (action f) with
  | Some s => if has_scope f s then None else Some s
  | None => None
  end.

Definition is_allowed (r : AuthzResult) : bool := bool_decide (decision r = DAllow).

(** The approval inference, entered with the first pass's result. *)
Definition infer_approval f strict (first : AuthzResult) : result AuthzResult CedarError :=
  if governs_data_plane (kind (action f)) && negb (approval_present (context f))
     && match res_policy_ids first with [] => false | _ => true end
  then
    let approved := with_approval f in
    let? second := evaluate_raw_facts approved strict in
    if is_allowed second && negb (any_policy_references_approval (res_policy_ids second))
    then Ok {| decision := DApprovalRequired; reasons := reasons first;
               res_policy_ids := res_policy_ids first |}
    else match missing_scope f with
         | Some scope =>
             let? third := evaluate_raw_facts (push_scope approved scope) strict in
             if is_allowed third && negb (any_policy_references_approval (res_policy_ids third))
             then Ok {| decision := DStepUpRequired; reasons := [step_up_reason scope];
                        res_policy_ids := res_policy_ids first |}
             else Ok first
         | None => Ok first
         end
  else Ok first.

Definition decide_facts f strict : result AuthzResult CedarError :=
  let? first := evaluate_raw_facts f strict in
  if is_allowed first then Ok first
  else match missing_scope f with
       | Some scope =>
           let? second := evaluate_raw_facts (push_scope f scope) strict in
           if is_allowed second
           then Ok {| decision := DStepUpRequired; reasons := [step_up_reason scope];
                      res_policy_ids := res_policy_ids first |}
           else infer_approval f strict first
       | None => infer_approval f strict first
       end.

(** ** Memoisation *)

Section Cached.
Context (json_print : Json → string).
Context {K : Type} `{Countable K} (digest : bytes → K).

Definition decision_key f strict : K := digest (DecisionCache.key_stream json_print f strict).

Definition evaluate_facts_inner f strict (c : DecisionCache.Cache K AuthzResult)
  : result AuthzResult CedarError * DecisionCache.Cache K AuthzResult :=
  let key := decision_key f strict in
  match DecisionCache.get key c with
  | Some cached => (Ok cached, c)
  | None =>
      match decide_facts f strict with
      | Err e => (Err e, c)
      | Ok decided => (Ok decided, DecisionCache.insert key decided c)
      end
  end.

(** A sequence of questions answered by one engine. *)
Fixpoint answers (qs : list (Facts Json * bool)) (c : DecisionCache.Cache K AuthzResult)
  : list (result AuthzResult CedarError) * DecisionCache.Cache K AuthzResult :=
  match qs with
  | [] => ([], c)
  | (f, strict) :: qs' =>
      let '(a, c') := evaluate_facts_inner f strict c in
      let '(l, c'') := answers qs' c' in (a :: l, c'')
  end.

End Cached.

(** ** The engine interface, by an infallible and an error-preserving answer *)

Definition fail_closed : AuthzResult :=
  {| decision := DDeny; reasons := []; res_policy_ids := [] |}.

Definition evaluate_facts (answer : result AuthzResult CedarError) : AuthzResult :=
  match answer with Ok r => r | Err _ => fail_closed end.

Definition try_evaluate_facts (answer : result AuthzResult CedarError) : AuthzOutcome :=
  match answer with Ok r => Decided r | Err _ => EngineError end.

(** ** Lemmas *)

Lemma raw_decision f strict r :
  evaluate_raw_facts f strict = Ok r → decision r = DAllow ∨ decision r = DDeny.
Proof.
  unfold evaluate_raw_facts. destruct (is_authorized f) as [resp|]; [|done]. simpl.
  case_match; intros; simplify_eq; simpl. destruct (resp_allow resp); auto.
Qed.

Lemma raw_not_allowed f strict r :
  evaluate_raw_facts f strict = Ok r → is_allowed r = false → decision r = DDeny.
Proof.
  intros [Ha| ]%raw_decision Hn; [|done]. unfold is_allowed in Hn. bool_to_prop. done.
Qed.

(** An approval grant would let the call through, and no permit that would then
    allow it depends on the grant. *)
Definition grant_suffices f strict (scope : option string) : Prop :=
  approval_present (context f) = false ∧ governs_data_plane (kind (action f)) = true ∧
  ∃ flipped,
    evaluate_raw_facts (match scope with
                        | Some s => push_scope (with_approval f) s
                        | None => with_approval f
                        end) strict = Ok flipped ∧
    is_allowed flipped = true ∧ any_policy_references_approval (res_policy_ids flipped) = false.

(** The scope would let the call through. *)
Definition scope_suffices f strict (scope : string) : Prop :=
  ∃ flipped, evaluate_raw_facts (push_scope f scope) strict = Ok flipped ∧
             is_allowed flipped = true.

(** What each answer of the inference means. *)
Definition explained f strict (first r : AuthzResult) : Prop :=
  match decision r with
  | DAllow | DDeny => r = first
  | DStepUpRequired =>
      res_policy_ids r = res_policy_ids first ∧ decision first = DDeny ∧
      ∃ scope, missing_scope f = Some scope ∧
               (scope_suffices f strict scope ∨ grant_suffices f strict (Some scope))
  | DApprovalRequired =>
      res_policy_ids r = res_policy_ids first ∧ decision first = DDeny ∧
      res_policy_ids first ≠ [] ∧ grant_suffices f strict None
  end.

Lemma explained_first f strict first :
  decision first = DDeny → explained f strict first first.
Proof. intros Hd. unfold explained. by rewrite Hd. Qed.

Lemma infer_approval_explained f strict first r :
  decision first = DDeny → infer_approval f strict first = Ok r → explained f strict first r.
Proof.
  intros Hd. unfold infer_approval.
  destruct (governs_data_plane (kind (action f))) eqn:Hg; simpl;
    [|intros; simplify_eq; by apply explained_first].
  destruct (approval_present (context f)) eqn:Hap; simpl;
    [intros; simplify_eq; by apply explained_first|].
  destruct (res_policy_ids first) as [|id ids] eqn:Hids;
    [intros; simplify_eq; by apply explained_first|].
  destruct (evaluate_raw_facts (with_approval f) strict) as [second|] eqn:Hs; [|done].
  destruct (is_allowed second && _) eqn:Ha.
  { intros; simplify_eq. apply andb_true_iff in Ha as [Ha Hr%negb_true_iff].
    unfold explained. simpl. rewrite Hids. repeat split; auto. by exists second. }
  destruct (missing_scope f) as [scope|] eqn:Hm; [|intros; simplify_eq; by apply explained_first].
  destruct (evaluate_raw_facts (push_scope (with_approval f) scope) strict) as [third|] eqn:Ht;
    [|done].
  destruct (is_allowed third && _) eqn:Hb; intros; simplify_eq; [|by apply explained_first].
  apply andb_true_iff in Hb as [Hb Hr%negb_true_iff].
  unfold explained. simpl. rewrite Hids. repeat split; auto.
  exists scope. split; [done|]. right. repeat split; auto. by exists third.
Qed.

Lemma decide_facts_explained f strict r :
  decide_facts f strict = Ok r →
  ∃ first, evaluate_raw_facts f strict = Ok first ∧ explained f strict first r.
Proof.
  unfold decide_facts. destruct (evaluate_raw_facts f strict) as [first|] eqn:Hf; [|done].
  intros H. exists first. split; [done|].
  destruct (is_allowed first) eqn:Ha.
  { simplify_eq. unfold is_allowed in Ha. bool_to_prop. unfold explained. by rewrite Ha. }
  pose proof (raw_not_allowed _ _ _ Hf Ha) as Hd.
  destruct (missing_scope f) as [scope|] eqn:Hm; [|by apply infer_approval_explained].
  destruct (evaluate_raw_facts (push_scope f scope) strict) as [second|] eqn:Hs; [|done].
  destruct (is_allowed second) eqn:Hb; [|by apply infer_approval_explained].
  simplify_eq. unfold explained. simpl. repeat split; auto.
  exists scope. split; [done|]. left. by exists second.
Qed.

(** *** The cache never changes an answer *)

(** The facts without the time of the call. *)
Definition untimed f : Facts Json :=
  {| principal := principal f; client_id := client_id f; tenant_id := tenant_id f;
     action := action f; resource := resource f; request := request f;
     context := DecisionCache.keyed_context (context f) |}.

(** What the cache needs of a pass: it does not observe the time of the call. *)
Class TimeBlind := time_blind : ∀ f g, untimed f = untimed g → is_authorized f = is_authorized g.

Section CachedLemmas.
Context (json_print : Json → string).
Context {K : Type} `{Countable K} (digest : bytes → K).

Abbreviation wf := (DecisionCache.wf_facts json_print).
Abbreviation keyed := (DecisionCache.keyed_facts json_print).

Context `{!TimeBlind}.

Lemma untimed_push_scope f g scope :
  untimed f = untimed g → untimed (push_scope f scope) = untimed (push_scope g scope).
Proof. unfold untimed. intros He. injection He. intros. simpl. congruence. Qed.

Lemma untimed_with_approval f g :
  untimed f = untimed g → untimed (with_approval f) = untimed (with_approval g).
Proof.
  unfold untimed, DecisionCache.keyed_context. intros He. injection He. intros. simpl. congruence.
Qed.

Lemma raw_untimed f g strict :
  untimed f = untimed g → evaluate_raw_facts f strict = evaluate_raw_facts g strict.
Proof. intros He. unfold evaluate_raw_facts. by rewrite (time_blind f g He). Qed.

Lemma decide_untimed f g strict :
  untimed f = untimed g → decide_facts f strict = decide_facts g strict.
Proof.
  intros He. unfold decide_facts, infer_approval.
  assert (action f = action g ∧ principal f = principal g ∧
    approval_present (context f) = approval_present (context g)) as (Ha & Hp & Hc).
  { unfold untimed, DecisionCache.keyed_context in He. by injection He. }
  assert (missing_scope f = missing_scope g) as Hm.
  { unfold missing_scope, has_scope. by rewrite Ha, Hp. }
  rewrite <- Hm, <- Ha, <- Hc, (raw_untimed _ _ _ He), (raw_untimed _ _ _ (untimed_with_approval _ _ He)).
  destruct (missing_scope f) as [scope|]; [|done].
  by rewrite (raw_untimed _ _ _ (untimed_push_scope _ _ scope He)),
    (raw_untimed _ _ _ (untimed_push_scope _ _ scope (untimed_with_approval _ _ He))).
Qed.

(** The questions one engine is asked, and what about them the key rests on. *)
Context (asked : list (Facts Json * bool)).

Definition streams : list bytes := (λ q, DecisionCache.key_stream json_print q.1 q.2) <$> asked.

(** The digest of two distinct streams of these questions is the same. *)
Definition key_collision : Prop :=
  ∃ x y, x ∈ streams ∧ y ∈ streams ∧ x ≠ y ∧ digest x = digest y.

(** The SCIM attributes of the questions, which the key holds in printed form. *)
Definition attrs_asked : list Json := omap (λ q, scim_attrs <$> pf_scim (principal q.1)) asked.

Context (Hwf : Forall (λ q, wf q.1) asked).
Context (Hprint : ∀ x y, x ∈ attrs_asked → y ∈ attrs_asked → json_print x = json_print y → x = y).

#[local] Instance key_collision_dec : base.Decision key_collision.
Proof.
  destruct (decide (Exists (λ x, Exists (λ y, x ≠ y ∧ digest x = digest y) streams) streams)) as [He|He].
  - left. apply Exists_exists in He as (x & Hx & (y & Hy & Hne & Hd)%Exists_exists). by exists x, y.
  - right. intros (x & y & Hx & Hy & Hne & Hd). apply He, Exists_exists. exists x. split; [done|].
    apply Exists_exists. by exists y.
Qed.

Lemma keyed_untimed f b g d :
  (f, b) ∈ asked → (g, d) ∈ asked → keyed f = keyed g → untimed f = untimed g.
Proof.
  intros Hf Hg He. unfold untimed.
  assert (principal f = principal g) as ->.
  { assert (∀ s, pf_scim (principal f) = Some s → scim_attrs s ∈ attrs_asked) as Ha.
    { intros s Hs. apply list_elem_of_omap. exists (f, b). split; [done|]. cbn. by rewrite Hs. }
    assert (∀ s, pf_scim (principal g) = Some s → scim_attrs s ∈ attrs_asked) as Ha'.
    { intros s Hs. apply list_elem_of_omap. exists (g, d). split; [done|]. cbn. by rewrite Hs. }
    unfold DecisionCache.keyed_facts, DecisionCache.keyed_principal in He.
    destruct f as [pf ????? ?], g as [pg ????? ?]. simpl in *.
    destruct pf as [?????? sf], pg as [?????? sg]. simpl in *. injection He. intros.
    destruct sf as [[????? xf]|], sg as [[????? xg]|]; simplify_eq/=; try done.
    assert (xf = xg) as ->; [|done].
    apply Hprint; [by apply (Ha _ eq_refl)|by apply (Ha' _ eq_refl)|done]. }
  unfold DecisionCache.keyed_facts in He. injection He. intros. congruence.
Qed.

(** Every entry is the decision of every question asked with its key. *)
Definition coherent (c : DecisionCache.Cache K AuthzResult) : Prop :=
  DecisionCache.cache_ok c ∧
  ∀ f strict r, (f, strict) ∈ asked →
    DecisionCache.get (decision_key json_print digest f strict) c = Some r → decide_facts f strict = Ok r.

Lemma key_determines f g b d :
  ¬ key_collision → (f, b) ∈ asked → (g, d) ∈ asked →
  decision_key json_print digest f b = decision_key json_print digest g d →
  b = d ∧ untimed f = untimed g.
Proof.
  intros Hno Hf Hg Hk.
  assert (DecisionCache.key_stream json_print f b = DecisionCache.key_stream json_print g d) as Hs.
  { destruct (decide (DecisionCache.key_stream json_print f b = DecisionCache.key_stream json_print g d));
      [done|]. destruct Hno. eexists _, _.
    split; [apply (list_elem_of_fmap_2 _ asked (f, b) Hf)|].
    by split; [apply (list_elem_of_fmap_2 _ asked (g, d) Hg)|]. }
  rewrite Forall_forall in Hwf.
  apply DecisionCache.key_stream_inj in Hs as [-> He]; [|apply (Hwf _ Hf)|apply (Hwf _ Hg)].
  split; [done|]. by eapply keyed_untimed.
Qed.

Lemma inner_coherent f strict c :
  ¬ key_collision → coherent c → (f, strict) ∈ asked →
  (evaluate_facts_inner json_print digest f strict c).1 = decide_facts f strict ∧
  coherent (evaluate_facts_inner json_print digest f strict c).2.
Proof.
  intros Hno [Hok Hco] Hf. unfold evaluate_facts_inner.
  destruct (DecisionCache.get _ c) as [r|] eqn:Hg; simpl.
  { split; [|by split]. symmetry. by apply Hco. }
  destruct (decide_facts f strict) as [r|e] eqn:Hd; simpl; [|by split; [|split]].
  split; [done|]. split; [by apply DecisionCache.insert_ok|].
  intros g b x Hin Hx.
  destruct (decide (decision_key json_print digest g b = decision_key json_print digest f strict))
    as [Hk|Hk].
  - destruct (key_determines _ _ _ _ Hno Hin Hf Hk) as [-> Hkey]. rewrite Hk in Hx.
    rewrite (decide_untimed _ _ _ Hkey), Hd.
    rewrite DecisionCache.get_insert_eq, Hg in Hx by done. simpl in Hx. congruence.
  - apply DecisionCache.get_insert_ne in Hx; [|done..]. by apply Hco.
Qed.

Lemma answers_coherent qs c :
  ¬ key_collision → coherent c → qs ⊆ asked →
  (answers json_print digest qs c).1 = (λ q, decide_facts q.1 q.2) <$> qs ∧
  coherent (answers json_print digest qs c).2.
Proof.
  intros Hno. revert c. induction qs as [|[f strict] qs IH]; intros c Hc Hqs; [done|].
  simpl. destruct (inner_coherent f strict c Hno Hc) as [Ha Hc']; [apply Hqs; left|].
  destruct (evaluate_facts_inner json_print digest f strict c) as [a c']. simpl in *.
  destruct (IH c' Hc') as [Hl Hc'']; [intros q Hq; apply Hqs; by right|].
  destruct (answers json_print digest qs c') as [l c''].
  simpl in *. split; [by rewrite Ha, Hl|done].
Qed.

Lemma new_coherent : coherent DecisionCache.new.
Proof. split; [apply DecisionCache.new_ok|]. intros f strict r _ Hr. done. Qed.

End CachedLemmas.

(** The bound on the cache holds whatever the digest does. *)
Lemma answers_bounded json_print {K} `{Countable K} (digest : bytes → K) qs c :
  DecisionCache.cache_ok c → DecisionCache.cache_ok (answers json_print digest qs c).2.
Proof.
  revert c. induction qs as [|[f strict] qs IH]; intros c Hc; [done|]. simpl.
  assert (DecisionCache.cache_ok (evaluate_facts_inner json_print digest f strict c).2) as Hc'.
  { unfold evaluate_facts_inner. destruct (DecisionCache.get _ c); [done|].
    destruct (decide_facts f strict); [by apply DecisionCache.insert_ok|done]. }
  destruct (evaluate_facts_inner json_print digest f strict c) as [a c'].
  specialize (IH c' Hc'). by destruct (answers json_print digest qs c').
Qed.

End Engine.

(** ** A pass over the facts

    What the engine hands to the library: entities, context and request. *)

(** The values of the Cedar library that the engine builds, and the authorizer
    over the engine's policy set. A map is given as its entries, a set as its
    elements. *)
Record CedarApi := {
  EntityUid : Type;
  Entity : Type;
  EntityStore : Type;
  RestrictedExpression : Type;
  RequestContext : Type;
  CedarRequest : Type;
  uid_from_str : string → result EntityUid string;
  new_string : string → RestrictedExpression;
  new_bool : bool → RestrictedExpression;
  new_long : Z → RestrictedExpression;
  new_set : list RestrictedExpression → RestrictedExpression;
  new_record : list (string * RestrictedExpression) → result RestrictedExpression string;
  entity_with_uid : EntityUid → Entity;
  entity_new : EntityUid → list (string * RestrictedExpression) → list EntityUid → result Entity string;
  from_entities : list Entity → result EntityStore string;
  context_empty : RequestContext;
  context_from_pairs : list (string * RestrictedExpression) → result RequestContext string;
  request_new : EntityUid → EntityUid → EntityUid → RequestContext → result CedarRequest string;
  authorize : CedarRequest → EntityStore → Response;
}.

Definition map_err {A E F} (g : E → F) (r : result A E) : result A F :=
  match r with Ok x => Ok x | Err e => Err (g e) end.

(** [str::replace] of one character. *)
Definition replace (c : Ascii.ascii) (by_ : string) (s : string) : string :=
  of_bytes (concat ((λ b, if bool_decide (b = c) then as_bytes by_ else [b]) <$> as_bytes s)).

Definition backslash : Ascii.ascii := Ascii.ascii_of_N 92.
Definition quote_mark : Ascii.ascii := Ascii.ascii_of_N 34.

Definition MODEL_RESOURCE_TYPE : string := "model".
Definition MCP_RESOURCE_TYPE : string := "mcp_resource".
Definition SKILL_RESOURCE_TYPE : string := "skill_resource".

(** [Number::as_i64]: an integer text that fits; a minus sign before zero makes
    a float. *)
Definition as_i64 (v : Json.Value) : option Z :=
  match v with
  | Json.Number t =>
      match as_bytes t with
      | c :: ds =>
          if (byte_val c =? 45)%N then
            n ← Json.as_u64 (Json.Number (of_bytes ds));
            if (1 <=? n) && (n <=? 9223372036854775808) then Some (- n) else None
          else n ← Json.as_u64 v; if n <=? 9223372036854775807 then Some n else None
      | [] => None
      end
  | _ => None
  end.

Section Pass.
Context (api : CedarApi).
Implicit Types f : Facts Json.Value.

Definition make_uid (ty id : string) : result (EntityUid api) CedarError :=
  let quoted := replace quote_mark (String backslash (String quote_mark EmptyString))
                  (replace backslash (String backslash (String backslash EmptyString)) id) in
  let raw := ty +:+ "::" +:+ String quote_mark (quoted +:+ String quote_mark EmptyString) in
  map_err (Uid raw) (uid_from_str api raw).

Definition json_value_to_restricted (v : Json.Value) : option (RestrictedExpression api) :=
  match v with
  | Json.Str s => Some (new_string api s)
  | Json.Bool b => Some (new_bool api b)
  | Json.Number _ => new_long api <$> as_i64 v
  | Json.Array items => (λ l, new_set api (new_string api <$> l)) <$> mapM Json.as_str items
  | Json.Object _ | Json.Null => None
  end.

Definition resource_is_tool f : bool := bool_decide (kind (action f) = "CallTool").
Definition resource_is_model f : bool :=
  bool_decide (rf_resource_type (resource f) = Some MODEL_RESOURCE_TYPE).
Definition resource_is_mcp_resource f : bool :=
  bool_decide (rf_resource_type (resource f) = Some MCP_RESOURCE_TYPE).
Definition resource_is_skill f : bool :=
  bool_decide (rf_resource_type (resource f) = Some SKILL_RESOURCE_TYPE).

Abbreviation Attrs := (list (string * RestrictedExpression api)).

Definition string_set (l : list string) : RestrictedExpression api := new_set api (new_string api <$> l).
Definition attr (name : string) (s : string) : string * RestrictedExpression api := (name, new_string api s).
Definition opt_attr (name : string) (s : option string) : Attrs := option_list (attr name <$> s).

(** The flattened custom attributes: a record of the entries Cedar can hold,
    left out when there are none. *)
Definition scim_attrs_record (attrs : Json.Value) : Attrs :=
  match Json.as_object attrs with
  | Some obj =>
      match omap (λ kv, (λ e, (kv.1, e)) <$> json_value_to_restricted kv.2) obj with
      | [] => []
      | record => match new_record api record with
                  | Ok rec => [("scim_attrs", rec)]
                  | Err _ => []
                  end
      end
  | None => []
  end.

Definition scim_user_attrs (scim : option (ScimFacts Json.Value)) : Attrs :=
  ("scim_present", new_bool api (bool_decide (is_Some scim))) ::
  match scim with
  | Some s =>
      [attr "scim_user_name" (scim_user_name s); ("scim_active", new_bool api (scim_active s));
       ("scim_groups", string_set (scim_group_names s))] ++
      opt_attr "scim_external_id" (scim_external_id s) ++ scim_attrs_record (scim_attrs s)
  | None => []
  end.

Definition user_attrs f : Attrs :=
  let p := principal f in
  opt_attr "email" (pf_email p) ++
  [("groups", string_set (pf_groups p)); ("scopes", string_set (pf_scopes p));
   attr "auth_method" (pf_auth_method p); attr "tenant" (tenant_id f);
   ("roles", string_set (pf_roles p))] ++
  scim_user_attrs (pf_scim p).

Fixpoint group_uids (gs : list string) : result (list (EntityUid api)) CedarError :=
  match gs with
  | [] => Ok []
  | g :: gs' => let? u := make_uid "Group" g in let? l := group_uids gs' in Ok (u :: l)
  end.

(** The entity of the tool, model, resource or skill acted on, if any. *)
Definition resource_entity f (server_uid : EntityUid api) : result (list (Entity api)) CedarError :=
  let r := resource f in
  if resource_is_mcp_resource f || resource_is_skill f then
    match rf_uri r with
    | None => Err (Entities "resource facts are missing the URI")
    | Some uri =>
        let? uid := make_uid "Resource" uri in
        let skill :=
          if resource_is_skill f
          then opt_attr "source_origin" (rf_source_origin r) ++
               opt_attr "artifact_digest" (rf_artifact_digest r) ++
               opt_attr "source_tree_digest" (rf_source_tree_digest r) ++
               opt_attr "skill_uri" (rf_skill_uri r) ++
               opt_attr "revision_digest" (rf_revision_digest r) ++
               opt_attr "content_digest" (rf_content_digest r) ++
               opt_attr "source_path" (rf_source_path r) ++
               opt_attr "source_object" (rf_source_object r)
          else [] in
        let attrs := [attr "server" (rf_server r); attr "uri" uri; attr "risk" (risk_as_str (rf_risk r))] ++ skill in
        let? e := map_err Entities (entity_new api uid attrs [server_uid]) in
        Ok [e]
    end
  else if resource_is_tool f then
    let entity_type := if resource_is_model f then "Model" else "Tool" in
    let? uid := make_uid entity_type (rf_server r +:+ "." +:+ rf_tool r) in
    let attrs := [attr "server" (rf_server r); attr "name" (rf_tool r); attr "risk" (risk_as_str (rf_risk r));
                  ("side_effects", new_bool api (rf_side_effects r)); ("pii", new_bool api (rf_pii r))] ++
                 opt_attr "operation" (rf_operation r) in
    let? e := map_err Entities (entity_new api uid attrs [server_uid]) in
    Ok [e]
  else Ok [].

Definition build_entities f : result (EntityUid api * EntityStore api) CedarError :=
  let? user_uid := make_uid "User" (pf_sub (principal f)) in
  let? groups := group_uids (pf_groups (principal f)) in
  let? user_entity := map_err Entities (entity_new api user_uid (user_attrs f) groups) in
  let server := rf_server (resource f) in
  let? server_uid := make_uid "Server" server in
  let? server_entity := map_err Entities (entity_new api server_uid [attr "name" server] []) in
  let? acted_on := resource_entity f server_uid in
  let? built := map_err Entities
    (from_entities api ((entity_with_uid api <$> groups) ++ [user_entity; server_entity] ++ acted_on)) in
  Ok (user_uid, built).

Definition resource_uid f : result (EntityUid api) CedarError :=
  let r := resource f in
  if resource_is_mcp_resource f || resource_is_skill f then
    match rf_uri r with
    | None => Err (Entities "resource facts are missing the URI")
    | Some uri => make_uid "Resource" uri
    end
  else if resource_is_tool f then
    make_uid (if resource_is_model f then "Model" else "Tool") (rf_server r +:+ "." +:+ rf_tool r)
  else make_uid "Server" (rf_server r).

Definition build_context f : result (RequestContext api) CedarError :=
  let tool := bool_decide (kind (action f) = "CallTool") in
  let? email := match request f ≫= email_recipients with
                | Some e =>
                    let? rec := map_err BuildContext
                      (new_record api [("valid", new_bool api (valid e)); ("domains", string_set (domains e))]) in
                    Ok [("email_recipients", rec)]
                | None => Ok []
                end in
  let pairs :=
    (if tool then [("discovery", new_bool api (from_option discovery_only false (request f)))] else []) ++
    email ++ opt_attr "client_id" (client_id f) ++
    (if tool then [attr "channel" (channel_as_str (channel (context f)))] else []) ++
    (if governs_data_plane (kind (action f))
     then [("approval_present", new_bool api (approval_present (context f)))] else []) in
  match pairs with
  | [] => Ok (context_empty api)
  | _ => map_err BuildContext (context_from_pairs api pairs)
  end.

(** The first half of [evaluate_raw_facts]: build, ask. *)
Definition pass f : result Response CedarError :=
  let? built := build_entities f in
  let? action_uid := make_uid "Action" (kind (action f)) in
  let? resource := resource_uid f in
  let? context := build_context f in
  let? req := map_err BuildRequest (request_new api built.1 action_uid resource context) in
  Ok (authorize api req built.2).

Lemma pass_untimed f : pass f = pass (untimed f).
Proof. reflexivity. Qed.

(** Nothing the engine builds carries the time of the call. *)
#[export] Instance pass_time_blind : TimeBlind pass.
Proof. intros f g He. by rewrite (pass_untimed f), (pass_untimed g), He. Qed.

End Pass.

(** ** A concrete policy set

    A permit for everybody, a step-up forbid without the high scope, an approval
    forbid on side effects, and a forbid that fails on a missing e-mail. *)

Definition demo_policy (id : string) : option Policy :=
  if bool_decide (id = "base") then Some {| effect := Permit; reason_annotation := None;
    text := "permit (principal, action, resource);" |}
  else if bool_decide (id = "step-up") then Some {| effect := Forbid;
    reason_annotation := Some "high risk"; text := "forbid unless scope" |}
  else if bool_decide (id = "approval") then Some {| effect := Forbid;
    reason_annotation := Some "needs approval";
    text := "forbid unless context.approval_present" |}
  else if bool_decide (id = "mail") then Some {| effect := Forbid; reason_annotation := None;
    text := "forbid when principal.email like" |}
  else None.

Definition demo_pass (f : Facts unit) : result Response CedarError :=
  let step_up := if has_scope f "mcp:invoke:high" then [] else
    match rf_risk (resource f) with High => ["step-up"] | _ => [] end in
  let approval := if approval_present (context f) then [] else
    if rf_side_effects (resource f) then ["approval"] else [] in
  let errors := match pf_email (principal f) with None => ["mail"] | Some _ => [] end in
  let forbids := step_up ++ approval in
  match forbids with
  | [] => Ok {| resp_allow := true; resp_reason := ["base"]; resp_errors := errors |}
  | _ => Ok {| resp_allow := false; resp_reason := forbids; resp_errors := errors |}
  end.


Example demo_stacked :
  decision <$> match decide_facts demo_pass demo_policy (demo_facts [] High true) false with
               | Ok r => Some r | Err _ => None end = Some DStepUpRequired.
Proof. reflexivity. Qed.

(** ** Properties *)

(** Every verdict of the engine is explained by what single passes say. An
    allow or a denial is the first pass's own answer. A step-up answer is given
    only on a denied call whose caller lacks the required scope, when adding that
    scope, or that scope and an approval, would allow it. An approval answer is
    given only on a denied data-plane call without approval where some forbid
    fired and the approval alone would allow it, by permits that do not
    themselves mention approval: an approval removes a restriction and never
    substitutes for a permit. Both name the forbids of the first pass. *)
Theorem verdicts_explained {Json} (is_authorized : Facts Json → result Response CedarError)
    policy f strict r :
  decide_facts is_authorized policy f strict = Ok r →
  ∃ first, evaluate_raw_facts is_authorized policy f strict = Ok first ∧
           explained is_authorized policy f strict first r.
Proof. apply decide_facts_explained. Qed.

Lemma verdicts_explained_witness :
  ∃ r first, decide_facts demo_pass demo_policy (demo_facts [] Low true) false = Ok r ∧
    decision r = DApprovalRequired ∧
    explained demo_pass demo_policy (demo_facts [] Low true) false first r.
Proof.
  destruct (verdicts_explained demo_pass demo_policy (demo_facts [] Low true) false
    {| decision := DApprovalRequired; reasons := ["needs approval"];
       res_policy_ids := ["approval"] |}) as (first & _ & He); [vm_compute; reflexivity|].
  eexists _, first. split; [|split; [|exact He]]; vm_compute; reflexivity.
Defined.

(** Fail closed: if a forbid, or a policy that cannot be identified, fails to
    evaluate (any policy in strict mode), the engine has no decision for the
    call: it never allows it, and reports an engine error to callers that can
    tell the two apart. *)
Theorem erroring_forbid_fails_closed {Json} (is_authorized : Facts Json → result Response CedarError)
    policy f strict resp :
  is_authorized f = Ok resp →
  existsb (restricting policy) (resp_errors resp) = true ∨ (strict = true ∧ resp_errors resp ≠ []) →
  let answer := decide_facts is_authorized policy f strict in
  evaluate_facts answer = fail_closed ∧ try_evaluate_facts answer = EngineError.
Proof.
  intros Ha Hr. simpl. unfold decide_facts, evaluate_raw_facts. rewrite Ha.
  assert (((strict && match resp_errors resp with [] => false | _ => true end)
           || existsb (restricting policy) (resp_errors resp)) = true) as ->; [|done].
  apply orb_true_iff. destruct Hr as [->|[-> Hn]]; [by right|left]. by destruct (resp_errors resp).
Qed.

Definition no_mail : Facts unit := build_call_facts (demo_principal None []) (demo_tool Low false).

Lemma erroring_forbid_fails_closed_witness :
  evaluate_facts (decide_facts demo_pass demo_policy no_mail false) = fail_closed
  ∧ try_evaluate_facts (decide_facts demo_pass demo_policy no_mail false) = EngineError.
Proof.
  apply (erroring_forbid_fails_closed demo_pass demo_policy no_mail false
    {| resp_allow := true; resp_reason := ["base"]; resp_errors := ["mail"] |});
    [reflexivity|left; reflexivity].
Defined.

(** *** The library, to compute with

    Values are their text; the authorizer allows unless the call lacks an approval
    or the tool is of high risk. *)

Definition demo_api : CedarApi :=
  {| EntityUid := string; Entity := list (string * string); EntityStore := list (string * string);
     RestrictedExpression := string; RequestContext := list (string * string);
     CedarRequest := list (string * string);
     uid_from_str := Ok; new_string := id; new_bool := λ b, if b then "true" else "false";
     new_long := λ _, "long"; new_set := String.concat ","; new_record := λ l, Ok (String.concat ";" l.*2);
     entity_with_uid := λ _, []; entity_new := λ _ attrs _, Ok attrs;
     from_entities := λ l, Ok (concat l); context_empty := []; context_from_pairs := Ok;
     request_new := λ _ _ _ ctx, Ok ctx;
     authorize := λ ctx attrs,
       let step_up := if bool_decide (("risk", "high") ∈ attrs) then ["step-up"] else [] in
       let approval := if bool_decide (("approval_present", "true") ∈ ctx) then [] else ["approval"] in
       {| resp_allow := bool_decide (step_up ++ approval = []);
          resp_reason := match step_up ++ approval with [] => ["base"] | l => l end;
          resp_errors := [] |} |}.

(** A digest of 61 bits. *)
Definition demo_digest (b : bytes) : N :=
  foldl (λ a c, (a * 257 + byte_val c + 1) mod (2 ^ 61 - 1))%N 7%N b.

Definition demo_question (risk : RiskTier) (at_ : time) (approved : bool) : Facts Json.Value :=
  {| principal := {| pf_sub := "alice"; pf_email := None; pf_groups := ["ops"]; pf_scopes := [];
                     pf_auth_method := "oauth"; pf_roles := [];
                     pf_scim := Some {| scim_user_id := "u1"; scim_user_name := "alice"; scim_external_id := None;
                                        scim_active := true; scim_group_names := [];
                                        scim_attrs := Json.Object [("dept", Json.Str "eng")] |} |};
     client_id := None; tenant_id := "acme"; action := {| kind := "CallTool"; required_scope := None |};
     resource := resource (demo_facts [] risk true); request := None;
     context := {| approval_present := approved; mfa := false; rc_time := at_; source_ip := None;
                   channel := Direct |} |}.

Definition demo_print (v : Json.Value) : string := "{dept:eng}".

Definition demo_questions : list (Facts Json.Value * bool) :=
  [(demo_question Low 1 false, false); (demo_question Low 2 false, false); (demo_question High 3 true, false);
   (demo_question Low 4 true, false); (demo_question Low 5 true, true)].

(** C36. The cache never changes an answer: a fresh engine answers every sequence of
    questions exactly as if it decided each of them anew, whatever is evicted and
    although the key leaves out the time of the call, unless the digest maps two
    distinct key streams of these very questions to the same key; it holds at most
    4096 decisions in any case. A decision is computed from what the engine builds of
    the facts, entities, context and request, and from what the Cedar library makes
    of them, whatever that is. The questions are within the bounds of their Rust
    types, and no two SCIM attribute values among them print alike. *)
Theorem cache_is_transparent (api : CedarApi) policy json_print {K} `{Countable K} (digest : bytes → K)
    (qs : list (Facts Json.Value * bool)) :
  Forall (λ q, DecisionCache.wf_facts json_print q.1) qs →
  (∀ x y, x ∈ attrs_asked qs → y ∈ attrs_asked qs → json_print x = json_print y → x = y) →
  let '(l, c) := answers (pass api) policy json_print digest qs DecisionCache.new in
  (l = (λ q, decide_facts (pass api) policy q.1 q.2) <$> qs ∨ key_collision json_print digest qs) ∧
  (length (DecisionCache.order c) ≤ 4096)%nat.
Proof.
  intros Hqs Hprint.
  pose proof (answers_bounded (pass api) policy json_print digest qs _ DecisionCache.new_ok) as Hb.
  pose proof (answers_coherent (pass api) policy json_print digest qs Hqs Hprint qs DecisionCache.new) as Ha.
  destruct (answers (pass api) policy json_print digest qs DecisionCache.new) as [l c]. simpl in *.
  split; [|by destruct Hb].
  destruct (key_collision_dec json_print digest qs) as [Hc|Hc]; [by right|left].
  by apply Ha; [|apply new_coherent|].
Qed.

Lemma demo_questions_wf : Forall (λ q, DecisionCache.wf_facts demo_print q.1) demo_questions.
Proof. repeat constructor. Qed.

Lemma demo_no_collision : ¬ key_collision demo_print demo_digest demo_questions.
Proof.
  intros (x & y & Hx & Hy & Hne & Hd). revert x Hx y Hy Hne Hd.
  apply (Forall_forall (λ x, ∀ y, y ∈ streams demo_print demo_questions → x ≠ y → demo_digest x = demo_digest y → False)).
  assert (Forall (λ x, Forall (λ y, x = y ∨ demo_digest x ≠ demo_digest y) (streams demo_print demo_questions))
    (streams demo_print demo_questions)) as Hall.
  { apply (bool_decide_unpack _). vm_compute. exact I. }
  eapply Forall_impl; [exact Hall|]. intros x Hx y Hy Hne Hd. rewrite Forall_forall in Hx.
  by destruct (Hx y Hy).
Qed.

(** The second answer is the first one, from the cache, although it was asked later. *)
Lemma cache_is_transparent_witness :
  let l := (answers (pass demo_api) demo_policy demo_print demo_digest demo_questions DecisionCache.new).1 in
  l = (λ q, decide_facts (pass demo_api) demo_policy q.1 q.2) <$> demo_questions ∧
  (l !! 0%nat, l !! 3%nat) =
    (Some (Ok {| decision := DApprovalRequired; reasons := ["needs approval"]; res_policy_ids := ["approval"] |}),
     Some (Ok {| decision := DAllow; reasons := []; res_policy_ids := ["base"] |})).
Proof.
  split; [|vm_compute; reflexivity].
  pose proof (cache_is_transparent demo_api demo_policy demo_print demo_digest demo_questions
    demo_questions_wf) as Hc.
  destruct (answers _ _ _ _ _ _) as [l c]. cbn [fst].
  destruct Hc as [[Hl|Hk] _].
  - intros x y Hx Hy _. cbn in Hx, Hy. set_solver.
  - exact Hl.
  - destruct (demo_no_collision Hk).
Defined.

End Cedar.
