(* ===== verification/CedarGate.v ===== *)
(** * The Cedar gate and the reloadable engine registry

    Model of crates/waygate-authz/src/gate.rs ([CedarGate], which turns engine
    answers into gate verdicts), of the fact bridge of cedar.rs ([facts_from]),
    and of [ReloadableCedar] of lib.rs (tenant-selected engines swapped on
    reload). Metrics and tracing are left out. *)

From S2P Require Import Prelude RustStr Facts Authz Cedar DecisionCache BreakGlass.

Module CedarGate.
Export Authz.
Import Cedar.
Import DecisionCache(demo_facts).

(** [slice::join] *)
Fixpoint join (sep : string) (l : list string) : string :=
  match l with
  | [] => ""
  | [x] => x
  | x :: l' => x +:+ sep +:+ join sep l'
  end.

(** ** Actions and resources *)

Inductive Action :=
  | ListTools | SearchTools
  | CallTool (name : string) (risk : RiskTier)
  | ListResources
  | ReadResource (uri : string)
  | ListSkills
  | FetchSkillResource (uri : string)
  | ReadSkill (uri : string)
  | AdminManagePolicies | AdminManageServers | AdminViewTelemetry
  | GrantCrossAppAccess.

Record SkillSpec := {
  ss_source_origin : string;
  ss_artifact_digest : string;
  ss_source_tree_digest : option string;
  ss_skill_uri : option string;
  ss_resource_uri : option string;
  ss_revision_digest : option string;
  ss_content_digest : option string;
  ss_source_path : option string;
  ss_source_object : option string;
}.

Record ToolSpec := {
  ts_server : string;
  ts_name : string;
  ts_risk : RiskTier;
  ts_side_effects : bool;
  ts_pii : bool;
  ts_operation : option string;
}.

Inductive ResourceSpec :=
  | Server (name : string)
  | Tool (t : ToolSpec)
  | McpResource (server uri : string) (risk : RiskTier)
  | Skill (s : SkillSpec).

Definition action_kind (a : Action) : string :=
  match a with
  | ListTools => "ListTools"
  | SearchTools => "SearchTools"
  | CallTool _ _ => "CallTool"
  | ListResources => "ListResources"
  | ReadResource _ => "ReadResource"
  | ListSkills => "ListSkills"
  | FetchSkillResource _ => "FetchSkillResource"
  | ReadSkill _ => "ReadSkill"
  | AdminManagePolicies => "AdminManagePolicies"
  | AdminManageServers => "AdminManageServers"
  | AdminViewTelemetry => "AdminViewTelemetry"
  | GrantCrossAppAccess => "GrantCrossAppAccess"
  end.

Definition step_up_scope_for (a : Action) (risk : RiskTier) : option string :=
  match a with
  | CallTool _ _ | ReadResource _ | ReadSkill _ => required_scope_for risk
  | _ => None
  end.

Definition CATALOG_URI : string := "skills://catalog".

(** A resource with a server, tool, risk and flags, everything else absent. *)
Definition plain_resource (server tool : string) (risk : RiskTier) (effects pii : bool)
    (uri rtype operation : option string) : ResourceFacts :=
  {| rf_server := server; rf_tool := tool; rf_risk := risk; rf_side_effects := effects;
     rf_pii := pii; rf_data_classification := None; rf_cost_class := None; rf_uri := uri;
     rf_source_origin := None; rf_artifact_digest := None; rf_source_tree_digest := None;
     rf_skill_uri := None; rf_revision_digest := None; rf_content_digest := None;
     rf_source_path := None; rf_source_object := None; rf_resource_type := rtype;
     rf_operation := operation |}.

Definition resource_facts (r : ResourceSpec) : ResourceFacts :=
  match r with
  | Server name => plain_resource name "" Low false false None None None
  | Tool t => plain_resource (ts_server t) (ts_name t) (ts_risk t) (ts_side_effects t) (ts_pii t)
                None None (ts_operation t)
  | McpResource server uri risk =>
      plain_resource server "" risk false false (Some uri) (Some MCP_RESOURCE_TYPE) None
  | Skill s =>
      {| rf_server := "gateway-skills"; rf_tool := ""; rf_risk := Low; rf_side_effects := false;
         rf_pii := false; rf_data_classification := None; rf_cost_class := None;
         rf_uri := Some (default CATALOG_URI (ss_resource_uri s));
         rf_source_origin := Some (ss_source_origin s);
         rf_artifact_digest := Some (ss_artifact_digest s);
         rf_source_tree_digest := ss_source_tree_digest s; rf_skill_uri := ss_skill_uri s;
         rf_revision_digest := ss_revision_digest s; rf_content_digest := ss_content_digest s;
         rf_source_path := ss_source_path s; rf_source_object := ss_source_object s;
         rf_resource_type := Some SKILL_RESOURCE_TYPE; rf_operation := None |}
  end.

Section Gate.
Context {Json W : Type}.

Definition facts_from (p : Principal Json) (a : Action) (r : ResourceSpec) : Facts Json :=
  let rf := resource_facts r in
  {| principal :=
       {| pf_sub := sub p; pf_email := email p; pf_groups := groups p; pf_scopes := scopes p;
          pf_auth_method := auth_method_as_str (auth_method p); pf_roles := roles p;
          pf_scim := (λ s, {| scim_user_id := sp_user_id s; scim_user_name := sp_user_name s;
                              scim_external_id := sp_external_id s; scim_active := sp_active s;
                              scim_group_names := display_name <$> sp_groups s;
                              scim_attrs := sp_attrs s |}) <$> scim p |};
     client_id := None; tenant_id := tenant p;
     action := {| kind := action_kind a; required_scope := step_up_scope_for a (rf_risk rf) |};
     resource := rf; request := None;
     context := {| approval_present := false; mfa := false; rc_time := 0; source_ip := None;
                   channel := Direct |} |}.

Definition cross_app_facts (p : Principal Json) (client server : string) : Facts Json :=
  let f := facts_from p GrantCrossAppAccess (Server server) in
  {| principal := principal f; client_id := Some client; tenant_id := tenant_id f;
     action := action f; resource := resource f; request := request f; context := context f |}.

(** ** The engine interface *)

Record AuthzEngine := {
  engine_evaluate : Facts Json → W → AuthzResult * W;
  engine_try : Facts Json → W → AuthzOutcome * W;
}.

Context (engine : AuthzEngine).

Definition engine_is_allow (p : Principal Json) (a : Action) (r : ResourceSpec) (w : W) : bool * W :=
  let '(res, w') := engine_evaluate engine (facts_from p a r) w in
  (bool_decide (decision res = DAllow), w').

(** ** The gate *)

Definition evaluate_verdict (f : Facts Json) (w : W) : AuthzVerdict * W :=
  let '(r, w') := engine_evaluate engine f w in
  (match decision r with
   | DAllow => Allow (res_policy_ids r)
   | DDeny => Deny (match res_policy_ids r with
                    | [] => "denied by baseline forbid"
                    | ids => "forbid policies: " +:+ join ", " ids
                    end) (res_policy_ids r) (reasons r)
   | DStepUpRequired =>
       StepUpRequired (default "mcp:invoke" (required_scope (action f))) (join "; " (reasons r))
         (res_policy_ids r)
   | DApprovalRequired =>
       ApprovalRequired (match reasons r with
                         | [] => "a live per-call approval grant is required"
                         | rs => join "; " rs
                         end) (res_policy_ids r)
   end, w').

Definition skill_spec (f : SkillAccessFacts) : SkillSpec :=
  {| ss_source_origin := sk_source_origin f; ss_artifact_digest := sk_artifact_digest f;
     ss_source_tree_digest := Some (sk_source_tree_digest f); ss_skill_uri := sk_skill_uri f;
     ss_resource_uri := sk_resource_uri f; ss_revision_digest := sk_revision_digest f;
     ss_content_digest := sk_content_digest f; ss_source_path := sk_source_path f;
     ss_source_object := sk_source_object f |}.

Definition authorize_skill_action (p : Principal Json) (a : Action) (f : SkillAccessFacts) (w : W)
  : AuthzVerdict * W := evaluate_verdict (facts_from p a (Skill (skill_spec f))) w.

Definition discovery_request : RequestFacts :=
  {| discovery_only := true; email_recipients := None; target_domain := None;
     recipient_count := None; destructive := None; file_paths := []; argument_hash := "" |}.

Definition discovery_facts (p : Principal Json) (t : ToolFacts) (c : InvocationChannelFact)
  : Facts Json :=
  let f := with_channel (build_call_facts p t) c in
  {| principal := principal f; client_id := client_id f; tenant_id := tenant_id f;
     action := action f; resource := resource f; request := Some discovery_request;
     context := context f |}.

(** Adding the required scope would let a built-in proceed. *)
Definition would_proceed (r : AuthzResult) : bool :=
  bool_decide (decision r = DAllow)
  || (bool_decide (decision r = DDeny) && bool_decide (res_policy_ids r = [])).

Definition builtin_step_up_or_forbid (f : Facts Json) (denied : AuthzResult) (w : W)
  : BuiltinAuthz * W :=
  let forbidden := Forbidden ("forbid policies: " +:+ join ", " (res_policy_ids denied))
                     (res_policy_ids denied) (reasons denied) in
  match missing_scope f with
  | Some scope =>
      match engine_try engine (push_scope f scope) w with
      | (Decided second, w') =>
          if would_proceed second
          then (BuiltinStepUpRequired scope (step_up_reason scope) (res_policy_ids denied), w')
          else (forbidden, w')
      | (EngineError, w') => (forbidden, w')
      end
  | None => (forbidden, w)
  end.

Definition cedar_builtin_call (p : Principal Json) (t : ToolFacts) (w : W) : BuiltinAuthz * W :=
  let f := build_call_facts p t in
  match engine_try engine f w with
  | (EngineError, w') =>
      (Indeterminate "authorization engine could not evaluate the request", w')
  | (Decided r, w') =>
      match decision r with
      | DAllow => (Proceed, w')
      | DDeny => match res_policy_ids r with
                 | [] => (Proceed, w')
                 | _ => builtin_step_up_or_forbid f r w'
                 end
      | DApprovalRequired =>
          (Forbidden ("approval-gated by policies: " +:+ join ", " (res_policy_ids r))
             (res_policy_ids r) (reasons r), w')
      | DStepUpRequired =>
          (BuiltinStepUpRequired (default "mcp:invoke" (required_scope (action f)))
             (join "; " (reasons r)) (res_policy_ids r), w')
      end
  end.

Definition CedarGate : AuthzGate Json W :=
  {| may_discover_server := λ p server, engine_is_allow p SearchTools (Server server);
     may_list_resources := λ p server, engine_is_allow p ListResources (Server server);
     authorize_resource_read := λ p server uri risk,
       evaluate_verdict (facts_from p (ReadResource uri) (McpResource server uri risk));
     authorize_skill_list := λ p f, authorize_skill_action p ListSkills f;
     authorize_skill_fetch := λ p f,
       authorize_skill_action p (FetchSkillResource (default CATALOG_URI (sk_resource_uri f))) f;
     authorize_skill_read := λ p f,
       authorize_skill_action p (ReadSkill (default CATALOG_URI (sk_resource_uri f))) f;
     authorize_tool_call := evaluate_verdict;
     probe_tool_call := λ f w, let '(v, w') := evaluate_verdict f w in (Settled v, w');
     may_call_tool := λ p t, evaluate_verdict (discovery_facts p t Direct);
     may_call_tool_on_channel := λ p t c, evaluate_verdict (discovery_facts p t c);
     authorize_builtin_call := cedar_builtin_call |}.

End Gate.
Arguments AuthzEngine Json W : clear implicits.

(** An engine that decides each question without its cache, which
    [Cedar.cache_is_transparent] shows to give the same answers. *)
Definition cedar_engine {Json W} (is_authorized : Facts Json → result Response CedarError)
    (policy : string → option Policy) : AuthzEngine Json W :=
  {| engine_evaluate := λ f w, (evaluate_facts (decide_facts is_authorized policy f false), w);
     engine_try := λ f w, (try_evaluate_facts (decide_facts is_authorized policy f true), w) |}.

#[export] Instance cedar_gate_pure {Json W} is_authorized policy :
  PureGate (CedarGate (@cedar_engine Json W is_authorized policy)).
Proof.
  split; try done. intros p t w. simpl. unfold cedar_builtin_call. cbn [engine_try cedar_engine].
  destruct (try_evaluate_facts _); [|done]. destruct (decision r); try done.
  destruct (res_policy_ids r); [done|]. unfold builtin_step_up_or_forbid.
  destruct (missing_scope _); [|done]. cbn [engine_try cedar_engine].
  destruct (try_evaluate_facts _); [|done]. by destruct (would_proceed _).
Qed.

(** ** The reloadable registry *)

Section Registry.
Context {Engine : Type}.

Record Registry := {
  reg_default : Engine;
  reg_tenants : gmap string (Engine * option string);
  tenant_generation : Z;                 (* AtomicU64 *)
}.

Definition u64_fetch_add (n : Z) : Z := (n + 1) mod 2 ^ 64.

Definition new_registry (e : Engine) : Registry :=
  {| reg_default := e; reg_tenants := ∅; tenant_generation := 0 |}.

Definition snapshot (r : Registry) : Engine := reg_default r.

Definition snapshot_for_tenant (t : string) (r : Registry) : Engine :=
  match reg_tenants r !! t with Some (e, _) => e | None => reg_default r end.

Definition reload (e : Engine) (r : Registry) : Registry :=
  {| reg_default := e; reg_tenants := reg_tenants r; tenant_generation := tenant_generation r |}.

Definition install (m : gmap string (Engine * option string)) (r : Registry) : Registry :=
  {| reg_default := reg_default r; reg_tenants := m;
     tenant_generation := u64_fetch_add (tenant_generation r) |}.

Definition replace_tenants (engines : gmap string Engine) : Registry → Registry :=
  install ((λ e, (e, None)) <$> engines).

Definition replace_tenants_if_generation (expected : Z) (engines : gmap string Engine)
    (r : Registry) : bool * Registry :=
  if tenant_generation r =? expected then (true, install ((λ e, (e, None)) <$> engines) r)
  else (false, r).

Definition tenant_entries_with_fingerprints (engines : gmap string (Engine * string))
  : gmap string (Engine * option string) := (λ x, (x.1, Some x.2)) <$> engines.

Definition replace_tenants_with_fingerprints (engines : gmap string (Engine * string))
  : Registry → Registry := install (tenant_entries_with_fingerprints engines).

Definition replace_tenants_with_fingerprints_if_generation (expected : Z)
    (engines : gmap string (Engine * string)) (r : Registry) : bool * Registry :=
  if tenant_generation r =? expected
  then (true, install (tenant_entries_with_fingerprints engines) r)
  else (false, r).

Definition remove_tenant (t : string) (r : Registry) : bool * Registry :=
  match reg_tenants r !! t with
  | Some _ => (true, install (delete t (reg_tenants r)) r)
  | None => (false, r)
  end.

Definition tenant_count (r : Registry) : nat := size (reg_tenants r).

(** Registry mutations of any task, each atomic under the write lock. *)
Inductive RegOp :=
  | RReload (e : Engine)
  | RReplace (m : gmap string Engine)
  | RReplaceFp (m : gmap string (Engine * string))
  | RReplaceIf (expected : Z) (m : gmap string Engine)
  | RReplaceFpIf (expected : Z) (m : gmap string (Engine * string))
  | RRemove (t : string).

Definition reg_exec (o : RegOp) (r : Registry) : Registry :=
  match o with
  | RReload e => reload e r
  | RReplace m => replace_tenants m r
  | RReplaceFp m => replace_tenants_with_fingerprints m r
  | RReplaceIf g m => (replace_tenants_if_generation g m r).2
  | RReplaceFpIf g m => (replace_tenants_with_fingerprints_if_generation g m r).2
  | RRemove t => (remove_tenant t r).2
  end.

Definition reg_run (h : list RegOp) (r : Registry) : Registry := foldl (λ r o, reg_exec o r) r h.

(** An operation either leaves the tenants alone or bumps the generation by one. *)
Lemma reg_exec_generation o r :
  (reg_tenants (reg_exec o r) = reg_tenants r ∧
   tenant_generation (reg_exec o r) = tenant_generation r) ∨
  tenant_generation (reg_exec o r) = u64_fetch_add (tenant_generation r).
Proof.
  destruct o; simpl; auto; unfold replace_tenants_if_generation,
    replace_tenants_with_fingerprints_if_generation, remove_tenant; case_match; auto.
Qed.

(** Fewer operations than the counter has values cannot bring it back. *)
Lemma reg_run_generation h r :
  0 ≤ tenant_generation r < 2 ^ 64 →
  ∃ k, 0 ≤ k ≤ Z.of_nat (length h) ∧
       tenant_generation (reg_run h r) = (tenant_generation r + k) mod 2 ^ 64 ∧
       (k = 0 → reg_tenants (reg_run h r) = reg_tenants r).
Proof.
  revert r. induction h as [|o h IH]; intros r Hr.
  { exists 0. simpl. rewrite Z.add_0_r, Z.mod_small by lia. repeat split; lia || auto. }
  simpl. unfold reg_run in *. simpl.
  assert (0 ≤ tenant_generation (reg_exec o r) < 2 ^ 64) as Hb.
  { destruct (reg_exec_generation o r) as [[_ ->]| ->]; [done|]. apply Z.mod_pos_bound. lia. }
  destruct (IH (reg_exec o r) Hb) as (k & Hk & Hg & Ht).
  destruct (reg_exec_generation o r) as [[Hten Hgen]|Hgen].
  - exists k. rewrite Hg, Hgen. repeat split; try lia. intros ->. rewrite Ht by done. done.
  - exists (k + 1). rewrite Hg, Hgen. unfold u64_fetch_add.
    rewrite Zplus_mod_idemp_l. repeat split; try lia. f_equal. lia.
Qed.

End Registry.
Arguments Registry Engine : clear implicits.
Arguments RegOp Engine : clear implicits.

(** ** Properties *)

(** The overlay for built-in tools fails closed: a built-in call proceeds if
    and only if the engine reached a decision and that decision is an allow or a
    denial no forbid determined. An engine error, a determining forbid, a step-up
    or an approval gate never proceeds. *)
Theorem builtin_proceeds_iff {Json W} (engine : AuthzEngine Json W) p t w w' :
  (authorize_builtin_call (CedarGate engine) p t w = (Proceed, w')) ↔
  ∃ r, engine_try engine (build_call_facts p t) w = (Decided r, w') ∧ would_proceed r = true.
Proof.
  simpl. unfold cedar_builtin_call.
  destruct (engine_try engine (build_call_facts p t) w) as [[r|] w1]; [|naive_solver].
  unfold would_proceed. split.
  - destruct (decision r) eqn:Hd; intros H; simplify_eq; [exists r; by rewrite Hd|].
    destruct (res_policy_ids r) as [|id ids] eqn:Hi; simplify_eq; [exists r; by rewrite Hd, Hi|].
    unfold builtin_step_up_or_forbid in H. destruct (missing_scope _); [|done].
    destruct (engine_try _ _ _) as [[second|] w2]; [|done]. by destruct (would_proceed second).
  - intros (r' & ? & Hp). simplify_eq. apply orb_true_iff in Hp as [Hp|Hp]; bool_to_prop.
    + by rewrite Hp.
    + by rewrite H, H0.
Qed.

(** C11. The gate the gateway runs: break-glass around the Cedar gate, on the
    Postgres token store. A tool call is allowed only if one pass of Cedar over
    the call's facts allowed it with no forbid failing to evaluate, and then
    nothing was consumed; or an eligible, single-use token was burned for it and
    the audit event naming that token was written. *)
Theorem production_gate_allows_only {Json} (is_authorized : Facts Json → result Response CedarError)
    policy (f : Facts Json) w ids w' :
  BreakGlass.keyed w →
  authorize_tool_call
    (BreakGlass.BreakGlassGate (CedarGate (cedar_engine is_authorized policy))
       BreakGlass.PgBreakGlassStore BreakGlass.pg_record) f w = (Allow ids, w') →
  (∃ resp, is_authorized f = Ok resp ∧ resp_allow resp = true ∧
           existsb (restricting policy) (resp_errors resp) = false ∧
           ids = resp_reason resp ∧ w' = w) ∨
  (∃ t reason, BreakGlass.eligible f w t ∧
     BreakGlass.tokens w !! BreakGlass.bg_id t = Some t ∧
     BreakGlass.tokens w' = <[BreakGlass.bg_id t :=
                              BreakGlass.mark_used (BreakGlass.clock w) t]> (BreakGlass.tokens w) ∧
     BreakGlass.trail w' = BreakGlass.trail w ++
       [BreakGlass.use_event f (BreakGlass.mark_used (BreakGlass.clock w) t) reason]).
Proof.
  intros Hk H. pose proof (BreakGlass.override_cases (CedarGate (cedar_engine is_authorized policy)) f w Hk) as Hs.
  rewrite H in Hs. simpl in Hs. unfold evaluate_verdict in Hs. cbn [engine_evaluate cedar_engine] in Hs.
  destruct (decide_facts is_authorized policy f false) as [r|e] eqn:Hd; simpl in Hs.
  - destruct (decision r) eqn:Hr; simpl in Hs.
    + left. destruct Hs as [? ->]. simplify_eq.
      destruct (decide_facts_explained _ _ _ _ _ Hd) as (first & Hf & He).
      unfold explained in He. rewrite Hr in He. subst first.
      unfold evaluate_raw_facts in Hf. destruct (is_authorized f) as [resp|]; [|done]. simpl in Hf.
      destruct (existsb (restricting policy) (resp_errors resp)) eqn:Hex; [done|]. simplify_eq.
      exists resp. simpl in *. destruct (resp_allow resp); by repeat split.
    + right. destruct Hs as [(_ & ? & _)|(t & ? & ? & ? & Hev)]; [done|].
      destruct (BreakGlass.evidence_up w); [|by destruct Hev]. destruct Hev. eauto 10.
    + by destruct Hs.
    + by destruct Hs.
  - right. destruct Hs as [(_ & ? & _)|(t & ? & ? & ? & Hev)]; [done|].
    destruct (BreakGlass.evidence_up w); [|by destruct Hev]. destruct Hev. eauto 10.
Qed.

Lemma production_gate_allows_only_witness :
  let w := BreakGlass.armed_world in
  ∃ w', authorize_tool_call
    (BreakGlass.BreakGlassGate (CedarGate (cedar_engine demo_pass demo_policy))
       BreakGlass.PgBreakGlassStore BreakGlass.pg_record) (demo_facts [] Low false) w
    = (Allow ["base"], w') ∧ w' = w.
Proof.
  intros w. exists w. split; [vm_compute; reflexivity|].
  destruct (production_gate_allows_only demo_pass demo_policy (demo_facts [] Low false) w ["base"] w)
    as [(resp & _ & _ & _ & _ & H)|(t & reason & H & _)].
  - apply BreakGlass.armed_keyed.
  - vm_compute. reflexivity.
  - exact H.
  - reflexivity.
Defined.

(** The generation fence: a reload that read the registry's generation, then
    awaited its database read while other tasks changed the registry, installs its
    snapshot only if no tenant mutation landed in between (short of the counter
    wrapping around), and otherwise changes nothing; once installed, each tenant
    is served its own engine or the default. *)
Theorem stale_reload_is_fenced {Engine} (r : Registry Engine) (h : list (RegOp Engine)) m ok r' :
  0 ≤ tenant_generation r < 2 ^ 64 → Z.of_nat (length h) < 2 ^ 64 →
  replace_tenants_if_generation (tenant_generation r) m (reg_run h r) = (ok, r') →
  if ok then reg_tenants (reg_run h r) = reg_tenants r ∧
             (∀ t, snapshot_for_tenant t r' = default (reg_default (reg_run h r)) (m !! t))
  else r' = reg_run h r ∧ tenant_generation (reg_run h r) ≠ tenant_generation r.
Proof.
  intros Hr Hh H. unfold replace_tenants_if_generation in H.
  destruct (reg_run_generation h r Hr) as (k & Hk & Hg & Ht).
  destruct (tenant_generation (reg_run h r) =? tenant_generation r) eqn:He; simplify_eq;
    bool_to_prop; [|done]. split.
  - apply Ht. rewrite He in Hg. destruct (decide (k = 0)) as [->|Hne]; [done|].
    destruct (Z.lt_ge_cases (tenant_generation r + k) (2 ^ 64)) as [Hlt|Hge].
    + rewrite Z.mod_small in Hg by lia. lia.
    + rewrite (Z.mod_eq _ (2 ^ 64)) in Hg by lia.
      assert ((tenant_generation r + k) / 2 ^ 64 = 1) as Hq.
      { symmetry. apply (Z.div_unique _ _ _ (tenant_generation r + k - 2 ^ 64)); lia. }
      rewrite Hq in Hg. lia.
  - intros t. unfold snapshot_for_tenant, install. simpl. rewrite lookup_fmap.
    by destruct (m !! t).
Qed.

Lemma stale_reload_is_fenced_witness :
  let r := reg_run [RReplace {["acme" := 7%nat]}] (new_registry 1%nat) in
  let h := [RReload 2%nat; RRemove "acme"] in
  ∃ r', replace_tenants_if_generation (tenant_generation r) {["acme" := 9%nat]} (reg_run h r)
        = (false, r') ∧ r' = reg_run h r.
Proof.
  intros r h. eexists. split; [vm_compute; reflexivity|].
  apply (stale_reload_is_fenced r h {["acme" := 9%nat]} false (reg_run h r)).
  - vm_compute. split; [discriminate|reflexivity].
  - reflexivity.
  - vm_compute. reflexivity.
Defined.

End CedarGate.
