(* ===== verification/Segment.v ===== *)
(** * The policy-set segmenter

    Model of crates/waygate-authz/src/segment.rs: the tokenizer that splits a
    bundle of Cedar policies into addressable fragments, its cross-check against
    Cedar's own parse and the edits built on it. The scans are the source's loops
    over byte positions; each step moves forward, so one more than the number of
    bytes is enough fuel, which the [_stops] lemmas show. Cedar's parser is the
    parameter [parse_set]: the [@id] annotations of the policies of the set, in the
    order the set yields them. *)

From Stdlib Require Import Ascii.
From stdpp Require Import pretty.
From S2P Require Import Prelude RustStr.

Module Segment.

Abbreviation range := (nat * nat)%type.

Record PolicyFragment := { id : option string; leading : range; statement : range }.

Inductive SegmentError :=
  | Parse (e : string)
  | Ambiguous
  | NotFound (id : string).

Definition quote : ascii := ascii_of_N 34.
Definition newline : ascii := ascii_of_N 10.
Definition tab : ascii := ascii_of_N 9.
Definition backslash : ascii := ascii_of_N 92.

(** [i < n && bytes[i] == c] *)
Definition at_byte (b : bytes) (i : nat) (c : ascii) : bool := bool_decide (b !! i = Some c).

(** [&content[from..to]] *)
Definition slice (b : bytes) (r : range) : bytes := take (r.2 - r.1) (drop r.1 b).

(** ** The scans *)

(** [while i < n && bytes[i] != b'\n' { i += 1 }] *)
Fixpoint to_eol (fuel : nat) (b : bytes) (i : nat) : nat :=
  match fuel with
  | O => i
  | S fuel' => match b !! i with
               | Some c => if bool_decide (c = newline) then i else to_eol fuel' b (S i)
               | None => i
               end
  end.

Fixpoint skip_trivia (fuel : nat) (b : bytes) (i : nat) : nat :=
  match fuel with
  | O => i
  | S fuel' =>
      match b !! i with
      | None => i
      | Some c =>
          if is_ascii_whitespace c then skip_trivia fuel' b (S i)
          else if bool_decide (c = "/"%char) && at_byte b (S i) "/"%char
          then skip_trivia fuel' b (to_eol (length b) b (S (S i)))
          else i
      end
  end.

Fixpoint find_statement_end (fuel : nat) (b : bytes) (i : nat) (in_string : bool) : option nat :=
  match fuel with
  | O => None
  | S fuel' =>
      match b !! i with
      | None => None
      | Some c =>
          if in_string then
            if bool_decide (c = backslash) then find_statement_end fuel' b (S (S i)) true
            else find_statement_end fuel' b (S i) (negb (bool_decide (c = quote)))
          else if bool_decide (c = quote) then find_statement_end fuel' b (S i) true
          else if bool_decide (c = "/"%char) && at_byte b (S i) "/"%char
          then find_statement_end fuel' b (to_eol (length b) b (S (S i))) false
          else if bool_decide (c = ";"%char) then Some i
          else find_statement_end fuel' b (S i) false
      end
  end.

(** [str::find] of one byte. *)
Fixpoint find_byte (c : ascii) (l : bytes) : option nat :=
  match l with
  | [] => None
  | a :: l' => if bool_decide (a = c) then Some 0%nat else S <$> find_byte c l'
  end.

(** The annotation value that starts at an [@id]: what follows is, up to white
    space, an opening parenthesis and a string literal. *)
Definition annotation_value (after : bytes) : option string :=
  match strip_prefix "(" (trim_start (of_bytes after)) with
  | None => None
  | Some rest =>
      match strip_prefix (of_bytes [quote]) (trim_start rest) with
      | None => None
      | Some rest' =>
          (λ e, of_bytes (take e (as_bytes rest'))) <$> find_byte quote (as_bytes rest')
      end
  end.

Fixpoint statement_id (fuel : nat) (b : bytes) (i : nat) (in_string : bool) : option string :=
  match fuel with
  | O => None
  | S fuel' =>
      match b !! i with
      | None => None
      | Some c =>
          if in_string then
            if bool_decide (c = backslash) then statement_id fuel' b (S (S i)) true
            else statement_id fuel' b (S i) (negb (bool_decide (c = quote)))
          else if bool_decide (c = quote) then statement_id fuel' b (S i) true
          else if bool_decide (c = "/"%char) && at_byte b (S i) "/"%char
          then statement_id fuel' b (to_eol (length b) b (S (S i))) false
          else if bool_decide (c = "@"%char) && at_byte b (S i) "i"%char
                  && at_byte b (S (S i)) "d"%char
          then match annotation_value (drop (i + 3) b) with
               | Some v => Some v
               | None => statement_id fuel' b (S i) false
               end
          else statement_id fuel' b (S i) false
      end
  end.

Fixpoint lex_from (fuel : nat) (b : bytes) (seg_start : nat) : list PolicyFragment :=
  match fuel with
  | O => []
  | S fuel' =>
      let stmt_start := skip_trivia (S (length b)) b seg_start in
      if (length b <=? stmt_start)%nat then []
      else match find_statement_end (S (length b)) b stmt_start false with
           | Some semi =>
               let stmt := slice b (stmt_start, S semi) in
               {| id := statement_id (S (length stmt)) stmt 0 false;
                  leading := (seg_start, stmt_start); statement := (stmt_start, S semi) |}
               :: lex_from fuel' b (S semi)
           | None => []
           end
  end.

Definition lex_fragments (content : string) : list PolicyFragment :=
  lex_from (S (len content)) (as_bytes content) 0.

(** [while j < n && (bytes[j] == b' ' || bytes[j] == b'\t') { j += 1 }] *)
Fixpoint skip_blanks (fuel : nat) (b : bytes) (j : nat) : nat :=
  match fuel with
  | O => j
  | S fuel' => if at_byte b j " "%char || at_byte b j tab then skip_blanks fuel' b (S j) else j
  end.

Definition trailing_comment_end (b : bytes) (i : nat) : nat :=
  let j := skip_blanks (length b) b i in
  if at_byte b j "/"%char && at_byte b (S j) "/"%char then
    let j := to_eol (length b) b j in
    if (j <? length b)%nat then S j else j
  else i.

(** ** Verified segmentation and the edits *)

Section Edits.
Context (parse_set : string → result (list (option string)) string).

(** [windows(2).any(|w| w[0] == w[1])] *)
Fixpoint adjacent_equal (l : list string) : bool :=
  match l with
  | x :: l' => match l' with
               | y :: _ => bool_decide (x = y) || adjacent_equal l'
               | [] => false
               end
  | [] => false
  end.

Definition segment_verified (content : string) : result (list PolicyFragment) SegmentError :=
  match parse_set content with
  | Err e => Err (Parse e)
  | Ok policies =>
      let cedar_ids := omap (λ p, p) policies in
      let fragments := lex_fragments content in
      let seg_ids := omap id fragments in
      if negb (bool_decide (length fragments = length policies)) then Err Ambiguous
      else
        let cedar_ids := merge_sort str_le cedar_ids in
        let seg_ids := merge_sort str_le seg_ids in
        if negb (bool_decide (seg_ids = cedar_ids)) then Err Ambiguous
        else if adjacent_equal seg_ids then Err Ambiguous
        else Ok fragments
  end.

Definition find_by_id (fragments : list PolicyFragment) (want : string)
  : result PolicyFragment SegmentError :=
  match find_first (λ f, bool_decide (id f = Some want)) fragments with
  | Some f => Ok f
  | None => Err (NotFound want)
  end.

Definition policy_statement (content want : string) : result string SegmentError :=
  let? fragments := segment_verified content in
  let? frag := find_by_id fragments want in
  Ok (of_bytes (slice (as_bytes content) (statement frag))).

Definition replace_policy (content want new_statement : string) : result string SegmentError :=
  let? fragments := segment_verified content in
  let? frag := find_by_id fragments want in
  let b := as_bytes content in
  Ok (of_bytes (take (statement frag).1 b ++ as_bytes new_statement ++ drop (statement frag).2 b)).

Definition remove_policy (content want : string) : result string SegmentError :=
  let? fragments := segment_verified content in
  let? frag := find_by_id fragments want in
  let b := as_bytes content in
  let e := trailing_comment_end b (statement frag).2 in
  Ok (of_bytes (take (leading frag).1 b ++ drop e b)).

Definition nl : string := of_bytes [newline].

Definition append_policy (content new_statement : string) : result string SegmentError :=
  let? _ := segment_verified content in
  let stmt := trim new_statement in
  if is_empty content then Ok (stmt +:+ nl)
  else
    let out := if ends_with nl content then content else content +:+ nl in
    let out := if ends_with (nl +:+ nl) out then out else out +:+ nl in
    Ok (out +:+ stmt +:+ nl).

Definition show_error (e : SegmentError) : string :=
  match e with
  | Parse e => "policy set does not parse as Cedar: " +:+ e
  | Ambiguous => "policy text could not be safely segmented per-policy (it disagrees with the parser); edit the whole bundle instead"
  | NotFound id => "no policy with @id " +:+ of_bytes [quote] +:+ id +:+ of_bytes [quote]
                     +:+ " in this bundle"
  end.

Definition quoted (s : string) : string := of_bytes [quote] +:+ s +:+ of_bytes [quote].

Definition ensure_single_policy (text : string) (expected_id : option string)
  : result unit string :=
  match segment_verified text with
  | Err e => Err ("the submitted policy text is invalid: " +:+ show_error e)
  | Ok [frag] =>
      match expected_id with
      | None => Ok ()
      | Some want =>
          match id frag with
          | Some got =>
              if bool_decide (got = want) then Ok ()
              else Err ("the edited policy's @id must stay " +:+ quoted want +:+ ", got " +:+ quoted got)
          | None => Err ("the edited policy must keep its @id(" +:+ quoted want +:+ ")")
          end
      end
  | Ok frags => Err ("expected exactly one policy, found " +:+ pretty (length frags))
  end.
End Edits.

(** ** Lemmas on the scans *)

Section Scans.
Implicit Types (b : bytes).

Lemma to_eol_bounds fuel b i :
  (i ≤ to_eol fuel b i)%nat ∧ ((i ≤ length b)%nat → (to_eol fuel b i ≤ length b)%nat).
Proof.
  revert i. induction fuel as [|fuel IH]; intros i; simpl; [lia|].
  destruct (b !! i) as [c|] eqn:Hc; [|lia]. apply lookup_lt_Some in Hc. case_bool_decide; [lia|].
  destruct (IH (S i)). lia.
Qed.

Lemma to_eol_stops fuel b i :
  (length b ≤ fuel + i)%nat →
  b !! to_eol fuel b i = None ∨ b !! to_eol fuel b i = Some newline.
Proof.
  revert i. induction fuel as [|fuel IH]; intros i Hf; simpl.
  { left. apply lookup_ge_None_2. lia. }
  destruct (b !! i) as [c|] eqn:Hc; [|by left]. case_bool_decide; [subst; by right|].
  apply IH. lia.
Qed.

Lemma at_byte_true b i c : at_byte b i c = true → b !! i = Some c ∧ (i < length b)%nat.
Proof. unfold at_byte. intros H%bool_decide_eq_true. by split; [|eapply lookup_lt_Some]. Qed.

(** A position the segmenter may cut at: no character is split there. *)
Definition boundary b (i : nat) : Prop := ∀ c, b !! i = Some c → is_continuation c = false.

(** What UTF-8 guarantees: a continuation byte follows a byte that is not ASCII. *)
Definition utf8_like b : Prop :=
  ∀ i c, b !! i = Some c → is_continuation c = true →
  ∃ j d, i = S j ∧ b !! j = Some d ∧ is_ascii_byte d = false.

Lemma boundary_start b : utf8_like b → boundary b 0.
Proof.
  intros Hu c Hc. destruct (is_continuation c) eqn:He; [|done].
  by destruct (Hu 0%nat c Hc He) as (j & d & ? & _).
Qed.

Lemma boundary_after b i c :
  utf8_like b → b !! i = Some c → is_ascii_byte c = true → boundary b (S i).
Proof.
  intros Hu Hc Ha d Hd. destruct (is_continuation d) eqn:He; [|done].
  destruct (Hu (S i) d Hd He) as (j & e & [= <-] & Hj & Hn). congruence.
Qed.

Lemma boundary_eol fuel b i : (length b ≤ fuel + i)%nat → boundary b (to_eol fuel b i).
Proof.
  intros Hf c Hc. destruct (to_eol_stops fuel b i Hf) as [H|H]; rewrite H in Hc; [done|].
  by injection Hc as <-.
Qed.

Lemma whitespace_ascii c : is_ascii_whitespace c = true → is_ascii_byte c = true.
Proof.
  unfold is_ascii_whitespace, is_ascii_byte. rewrite !orb_true_iff, !N.eqb_eq, N.ltb_lt. lia.
Qed.

Lemma skip_trivia_bounds fuel b i :
  (i ≤ length b)%nat → (i ≤ skip_trivia fuel b i ≤ length b)%nat.
Proof.
  revert i. induction fuel as [|fuel IH]; intros i Hi; simpl; [lia|].
  destruct (b !! i) as [c|] eqn:Hc; [|lia]. apply lookup_lt_Some in Hc.
  destruct (is_ascii_whitespace c); [specialize (IH (S i)); lia|].
  destruct (bool_decide (c = "/"%char) && at_byte b (S i) "/"%char) eqn:Hs; [|lia].
  apply andb_true_iff in Hs as [_ [_ Hl]%at_byte_true].
  destruct (to_eol_bounds (length b) b (S (S i))). specialize (IH (to_eol (length b) b (S (S i)))). lia.
Qed.

(** Neither white space nor a comment starts here. *)
Definition no_trivia b (i : nat) : Prop :=
  ∀ c, b !! i = Some c →
  is_ascii_whitespace c = false ∧ (bool_decide (c = "/"%char) && at_byte b (S i) "/"%char) = false.

Lemma skip_trivia_stops fuel b i :
  (length b < fuel + i)%nat → no_trivia b (skip_trivia fuel b i).
Proof.
  revert i. induction fuel as [|fuel IH]; intros i Hf; simpl.
  { intros c Hc%lookup_lt_Some. lia. }
  destruct (b !! i) as [c|] eqn:Hc; [|intros d Hd; congruence].
  destruct (is_ascii_whitespace c) eqn:Hw; [apply IH; lia|].
  destruct (bool_decide (c = "/"%char) && at_byte b (S i) "/"%char) eqn:Hs.
  - destruct (to_eol_bounds (length b) b (S (S i))). apply IH. lia.
  - intros d Hd. by simplify_eq.
Qed.

Lemma skip_trivia_boundary fuel b i :
  utf8_like b → boundary b i → boundary b (skip_trivia fuel b i).
Proof.
  intros Hu. revert i. induction fuel as [|fuel IH]; intros i Hi; simpl; [done|].
  destruct (b !! i) as [c|] eqn:Hc; [|done]. destruct (is_ascii_whitespace c) eqn:Hw.
  - eapply IH, boundary_after; [done|done|by apply whitespace_ascii].
  - destruct (_ && _); [|done]. apply IH, boundary_eol. lia.
Qed.

Lemma find_statement_end_Some fuel b i q j :
  find_statement_end fuel b i q = Some j → (i ≤ j)%nat ∧ b !! j = Some ";"%char.
Proof.
  revert i q. induction fuel as [|fuel IH]; intros i q; simpl; [done|].
  destruct (b !! i) as [c|] eqn:Hc; [|done].
  assert (Hn : ∀ k q', (i ≤ k)%nat → find_statement_end fuel b k q' = Some j →
                       (i ≤ j)%nat ∧ b !! j = Some ";"%char).
  { intros k q' Hk [? ?]%IH. split; [lia|done]. }
  destruct (to_eol_bounds (length b) b (S (S i))).
  repeat case_match; try (apply Hn; lia). intros [= <-]. bool_to_prop. subst. split; [lia|done].
Qed.

(** With enough fuel the scan does not depend on it. *)
Lemma find_statement_end_fuel fuel fuel' b i q :
  (length b < fuel + i)%nat → (length b < fuel' + i)%nat →
  find_statement_end fuel b i q = find_statement_end fuel' b i q.
Proof.
  revert fuel' i q. induction fuel as [|fuel IH]; intros [|fuel'] i q Hf Hf'; simpl;
    [done|by rewrite (lookup_ge_None_2 b i) by lia|by rewrite (lookup_ge_None_2 b i) by lia|].
  destruct (b !! i) as [c|] eqn:Hc; [|done]. destruct (to_eol_bounds (length b) b (S (S i))).
  repeat (case_match; try done); apply IH; lia.
Qed.

Lemma skip_blanks_ge fuel b j : (j ≤ skip_blanks fuel b j)%nat.
Proof.
  revert j. induction fuel as [|fuel IH]; intros j; simpl; [lia|].
  destruct (_ || _); [|lia]. specialize (IH (S j)). lia.
Qed.

Lemma trailing_comment_end_bounds b i :
  (i ≤ length b)%nat → (i ≤ trailing_comment_end b i ≤ length b)%nat.
Proof.
  intros Hi. unfold trailing_comment_end. pose proof (skip_blanks_ge (length b) b i).
  destruct (at_byte b _ _ && _) eqn:Hs; [|lia].
  apply andb_true_iff in Hs as [[_ Hl]%at_byte_true _].
  destruct (to_eol_bounds (length b) b (skip_blanks (length b) b i)).
  destruct (Nat.ltb_spec (to_eol (length b) b (skip_blanks (length b) b i)) (length b)); lia.
Qed.

Lemma trailing_comment_end_boundary b i :
  utf8_like b → boundary b i → boundary b (trailing_comment_end b i).
Proof.
  intros Hu Hi. unfold trailing_comment_end. destruct (at_byte b _ _ && _); [|done].
  set (j := skip_blanks (length b) b i).
  destruct (Nat.ltb_spec (to_eol (length b) b j) (length b)) as [Hlt|Hge].
  - destruct (to_eol_stops (length b) b j) as [H|H]; [lia| |].
    + apply lookup_ge_None in H. lia.
    + by eapply boundary_after.
  - intros c Hc%lookup_lt_Some. lia.
Qed.
End Scans.

(** ** The text of a bundle, as a grammar

    White space and whole comments; statement text up to the semicolon that ends it;
    a policy's own comment on the rest of its line. *)

Section Grammar.
Implicit Types (b : bytes).

Inductive trivia : bytes → Prop :=
  | trivia_nil : trivia []
  | trivia_space c l : is_ascii_whitespace c = true → trivia l → trivia (c :: l)
  | trivia_comment body l : newline ∉ body → trivia (newline :: l) →
      trivia ("/"%char :: "/"%char :: body ++ newline :: l).

(** No semicolon outside string literals and comments; the flag says whether the
    text starts inside a string literal, and it ends outside. *)
Inductive scanned : bool → bytes → Prop :=
  | scanned_nil : scanned false []
  | scanned_char c l : c ≠ quote → c ≠ ";"%char → (c = "/"%char → head l ≠ Some "/"%char) →
      scanned false l → scanned false (c :: l)
  | scanned_comment body l : newline ∉ body → scanned false (newline :: l) →
      scanned false ("/"%char :: "/"%char :: body ++ newline :: l)
  | scanned_open l : scanned true l → scanned false (quote :: l)
  | scanned_escape c l : scanned true l → scanned true (backslash :: c :: l)
  | scanned_literal c l : c ≠ quote → c ≠ backslash → scanned true l → scanned true (c :: l)
  | scanned_close l : scanned false l → scanned true (quote :: l).

Definition blank (c : ascii) : Prop := c = " "%char ∨ c = tab.

(** [own_comment cut rest]: of the text [cut ++ rest] after a statement, [cut] is the
    comment on the statement's own line, with the blanks before it and its newline, or
    empty when the line has none. *)
Inductive own_comment : bytes → bytes → Prop :=
  | own_line blanks body rest : Forall blank blanks → newline ∉ body →
      own_comment (blanks ++ "/"%char :: "/"%char :: body ++ [newline]) rest
  | own_last blanks body : Forall blank blanks → newline ∉ body →
      own_comment (blanks ++ "/"%char :: "/"%char :: body) []
  | own_none rest : (∀ blanks l, Forall blank blanks → rest ≠ blanks ++ "/"%char :: "/"%char :: l) →
      own_comment [] rest.

Lemma drop_lookup b i c : b !! i = Some c → drop i b = c :: drop (S i) b.
Proof. intros H. by rewrite (drop_S _ c). Qed.

Lemma lookup_drop_head b i : head (drop i b) = b !! i.
Proof. rewrite <- (Nat.add_0_r i) at 2. rewrite <- lookup_drop. by destruct (drop i b). Qed.

(** A stretch of text between two positions. *)
Lemma slice_cons b i j c : b !! i = Some c → (i < j)%nat → slice b (i, j) = c :: slice b (S i, j).
Proof.
  intros Hc Hl. unfold slice. simpl. rewrite (drop_lookup b i c Hc).
  by replace (j - i)%nat with (S (j - S i)) by lia.
Qed.

Lemma slice_nil b i j : (j ≤ i)%nat → slice b (i, j) = [].
Proof. intros H. unfold slice. simpl. by replace (j - i)%nat with O by lia. Qed.

Lemma slice_app b i j k : (i ≤ j ≤ k)%nat → slice b (i, k) = slice b (i, j) ++ slice b (j, k).
Proof.
  intros H. unfold slice. simpl. rewrite <- (take_drop (j - i) (take (k - i) (drop i b))).
  rewrite take_take, skipn_firstn_comm, drop_drop. rewrite Nat.min_l by lia.
  replace (i + (j - i))%nat with j by lia. by replace (k - i - (j - i))%nat with (k - j)%nat by lia.
Qed.

Lemma to_eol_body fuel b i : newline ∉ slice b (i, to_eol fuel b i).
Proof.
  revert i. induction fuel as [|fuel IH]; intros i; simpl; [rewrite slice_nil by lia; set_solver|].
  destruct (b !! i) as [c|] eqn:Hc; [|rewrite slice_nil by lia; set_solver].
  case_bool_decide; [rewrite slice_nil by lia; set_solver|].
  destruct (to_eol_bounds fuel b (S i)). rewrite (slice_cons b i _ c) by (done || lia).
  specialize (IH (S i)). set_solver.
Qed.

(** A comment, read from its slashes to the newline that ends it. *)
Lemma comment_slice b i j :
  at_byte b i "/"%char = true → at_byte b (S i) "/"%char = true →
  let e := to_eol (length b) b (S (S i)) in
  (e < j)%nat → b !! e = Some newline →
  slice b (i, j) = "/"%char :: "/"%char :: slice b (S (S i), e) ++ newline :: slice b (S e, j).
Proof.
  intros [H1 _]%at_byte_true [H2 _]%at_byte_true e Hj He.
  destruct (to_eol_bounds (length b) b (S (S i))) as [Hle _]. fold e in Hle.
  rewrite (slice_cons b i j _ H1), (slice_cons b (S i) j _ H2) by lia. do 2 f_equal.
  rewrite (slice_app b (S (S i)) e j) by lia. f_equal. apply slice_cons; [done|lia].
Qed.

Lemma skip_trivia_trivia fuel b i :
  (length b < fuel + i)%nat → (i ≤ length b)%nat → let j := skip_trivia fuel b i in
  (j < length b)%nat → trivia (slice b (i, j)).
Proof.
  revert i. induction fuel as [|fuel IH]; intros i Hf Hi; simpl; [lia|].
  destruct (b !! i) as [c|] eqn:Hc; [|intros; rewrite slice_nil by lia; constructor].
  pose proof (lookup_lt_Some _ _ _ Hc).
  destruct (is_ascii_whitespace c) eqn:Hw.
  - intros Hj. pose proof (skip_trivia_bounds fuel b (S i) ltac:(lia)).
    rewrite (slice_cons b i _ c) by (done || lia). constructor; [done|]. apply IH; [lia|lia|done].
  - destruct (bool_decide (c = "/"%char) && at_byte b (S i) "/"%char) eqn:Hs;
      [|intros; rewrite slice_nil by lia; constructor].
    intros Hj. apply andb_true_iff in Hs as [->%bool_decide_eq_true Hs].
    pose proof (at_byte_true _ _ _ Hs) as [_ Hl].
    destruct (to_eol_bounds (length b) b (S (S i))) as [He1 He2]. set (e := to_eol (length b) b (S (S i))) in *.
    pose proof (skip_trivia_bounds fuel b e ltac:(lia)) as Hb.
    pose proof (skip_trivia_stops fuel b e ltac:(lia)) as Hstop.
    set (j := skip_trivia fuel b e) in *.
    destruct (to_eol_stops (length b) b (S (S i))) as [Hn|Hn]; [lia|apply lookup_ge_None in Hn; fold e in Hn; lia|].
    fold e in Hn. assert (e < j)%nat.
    { destruct (decide (e = j)) as [He|]; [|lia]. exfalso. rewrite He in Hn. by destruct (Hstop _ Hn). }
    rewrite comment_slice; [|by unfold at_byte; rewrite bool_decide_eq_true_2|done|fold e; lia|done].
    fold e. apply trivia_comment; [apply to_eol_body|].
    rewrite <- (slice_cons b e j newline Hn) by lia. apply IH; [lia|lia|done].
Qed.

Lemma find_statement_end_scanned fuel b i q j :
  find_statement_end fuel b i q = Some j → scanned q (slice b (i, j)).
Proof.
  revert i q. induction fuel as [|fuel IH]; intros i q; simpl; [done|].
  destruct (b !! i) as [c|] eqn:Hc; [|done].
  assert (Hle : ∀ k q', find_statement_end fuel b k q' = Some j → (k ≤ j)%nat ∧ b !! j = Some ";"%char)
    by (intros; by eapply find_statement_end_Some).
  destruct q.
  - case_bool_decide as Hb.
    + intros H. destruct (Hle _ _ H). subst c. rewrite (slice_cons b i j backslash Hc) by lia.
      destruct (b !! S i) as [d|] eqn:Hd; [|apply lookup_ge_None in Hd; pose proof (lookup_lt_Some b j ";"%char ltac:(done)); lia].
      rewrite (slice_cons b (S i) j d Hd) by lia. constructor. by apply IH.
    + intros H. destruct (Hle _ _ H). rewrite (slice_cons b i j c Hc) by lia.
      case_bool_decide as Hq; [subst c; apply scanned_close|apply scanned_literal; [done|done|]]; by apply IH.
  - case_bool_decide as Hq.
    + intros H. destruct (Hle _ _ H). subst c. rewrite (slice_cons b i j quote Hc) by lia. apply scanned_open. by apply IH.
    + destruct (bool_decide (c = "/"%char) && at_byte b (S i) "/"%char) eqn:Hs.
      * intros H. destruct (Hle _ _ H) as [He Hj]. apply andb_true_iff in Hs as [->%bool_decide_eq_true Hs].
        set (e := to_eol (length b) b (S (S i))) in *. pose proof (lookup_lt_Some _ _ _ Hj).
        destruct (to_eol_stops (length b) b (S (S i))) as [Hn|Hn]; [lia|apply lookup_ge_None in Hn; fold e in Hn; lia|].
        fold e in Hn. assert (e < j)%nat.
        { destruct (decide (e = j)) as [Hej|]; [|lia]. rewrite Hej, Hj in Hn. discriminate Hn. }
        rewrite comment_slice; [|by unfold at_byte; rewrite bool_decide_eq_true_2|done|fold e; lia|done].
        fold e. apply scanned_comment; [apply to_eol_body|].
        rewrite <- (slice_cons b e j newline Hn) by lia. by apply IH.
      * destruct (bool_decide_reflect (c = ";"%char)) as [|Hsemi]; [intros [= <-]; rewrite slice_nil by lia; constructor|].
        intros H. destruct (Hle _ _ H) as [He Hj]. rewrite (slice_cons b i j c Hc) by lia.
        apply scanned_char; [done|done| |by apply IH].
        intros ->. rewrite bool_decide_eq_true_2 in Hs by done. simpl in Hs.
        unfold at_byte in Hs. apply bool_decide_eq_false in Hs.
        destruct (decide (S i = j)) as [<-|]; [rewrite slice_nil by lia; done|].
        destruct (b !! S i) as [d|] eqn:Hd; [rewrite (slice_cons b (S i) j d Hd) by lia; done|].
        unfold slice. simpl. rewrite drop_ge by (by apply lookup_ge_None). by rewrite take_nil.
Qed.

Lemma drop_cons_inv b i c l : drop i b = c :: l → b !! i = Some c ∧ drop (S i) b = l ∧ (i < length b)%nat.
Proof.
  intros H. assert (b !! i = Some c) as Hc by (by rewrite <- lookup_drop_head, H).
  split; [done|]. split; [|by eapply lookup_lt_Some]. rewrite (drop_lookup b i c Hc) in H. congruence.
Qed.

Lemma to_eol_exact fuel b i body l :
  newline ∉ body → drop i b = body ++ newline :: l → (length b ≤ fuel + i)%nat →
  to_eol fuel b i = (i + length body)%nat.
Proof.
  revert fuel i. induction body as [|c body IH]; intros fuel i Hn Hd Hf;
    destruct (drop_cons_inv _ _ _ _ Hd) as (Hc & Hd' & Hl); destruct fuel as [|fuel]; try lia; simpl; rewrite Hc.
  - rewrite bool_decide_eq_true_2 by done. lia.
  - rewrite bool_decide_eq_false_2 by (intros ->; set_solver). rewrite (IH fuel (S i)); [lia|set_solver|done|lia].
Qed.

(** The scan finds the semicolon after any scanned text. *)
Lemma find_statement_end_complete q code :
  scanned q code → ∀ fuel b i rest, drop i b = code ++ ";"%char :: rest → (length b < fuel + i)%nat →
  find_statement_end fuel b i q = Some (i + length code)%nat.
Proof.
  induction 1 as [|c l Hq Hs Hsl _ IH|body l Hn _ IH|l _ IH|c l _ IH|c l Hq Hb _ IH|l _ IH];
    intros fuel b i rest Hd Hf; destruct (drop_cons_inv _ _ _ _ Hd) as (Hc & Hd1 & Hl);
    destruct fuel as [|fuel]; try lia; cbn [find_statement_end]; rewrite Hc.
  - cbn. f_equal. lia.
  - rewrite (bool_decide_eq_false_2 (c = quote)), (bool_decide_eq_false_2 (c = ";"%char)) by done.
    assert (bool_decide (c = "/"%char) && at_byte b (S i) "/"%char = false) as ->.
    { apply andb_false_iff. destruct (decide (c = "/"%char)) as [Hc'|]; [right|left; by apply bool_decide_eq_false_2].
      apply bool_decide_eq_false_2. rewrite <- lookup_drop_head, Hd1. specialize (Hsl Hc'). by destruct l. }
    rewrite (IH fuel b (S i) rest Hd1) by lia. simpl. f_equal. lia.
  - cbn [app] in Hd1. destruct (drop_cons_inv _ _ _ _ Hd1) as (Hc1 & Hd2 & Hl1).
    rewrite (bool_decide_eq_false_2 (_ = quote)) by done.
    rewrite (bool_decide_eq_true_2 ("/"%char = _)) by done. unfold at_byte at 1. rewrite bool_decide_eq_true_2 by done.
    cbn [andb]. change (drop (S (S i)) b = (body ++ newline :: l) ++ ";"%char :: rest) in Hd2.
    rewrite <- app_assoc in Hd2. change (drop (S (S i)) b = body ++ newline :: (l ++ ";"%char :: rest)) in Hd2.
    rewrite (to_eol_exact _ _ _ _ _ Hn Hd2) by lia.
    rewrite (IH fuel b _ rest); [simpl; rewrite length_app; simpl; f_equal; lia| |lia].
    rewrite <- drop_drop, Hd2, drop_app_length. done.
  - rewrite (bool_decide_eq_true_2 (quote = quote)) by done.
    rewrite (IH fuel b (S i) rest Hd1) by lia. simpl. f_equal. lia.
  - cbn [app] in Hd1. destruct (drop_cons_inv _ _ _ _ Hd1) as (_ & Hd2 & _).
    rewrite (bool_decide_eq_true_2 (backslash = backslash)) by done.
    rewrite (IH fuel b (S (S i)) rest Hd2) by lia. simpl. f_equal. lia.
  - rewrite (bool_decide_eq_false_2 (c = backslash)), (bool_decide_eq_false_2 (c = quote)) by done. cbn [negb].
    rewrite (IH fuel b (S i) rest Hd1) by lia. simpl. f_equal. lia.
  - rewrite (bool_decide_eq_false_2 (quote = backslash)), (bool_decide_eq_true_2 (quote = quote)) by done. cbn [negb].
    rewrite (IH fuel b (S i) rest Hd1) by lia. simpl. f_equal. lia.
Qed.

Lemma find_statement_end_trivia fuel b i :
  find_statement_end (S (length b)) b (skip_trivia fuel b i) false
  = find_statement_end (S (length b)) b i false.
Proof.
  revert i. induction fuel as [|fuel IH]; intros i; [done|]. cbn [skip_trivia].
  destruct (b !! i) as [c|] eqn:Hc; [|done]. destruct (is_ascii_whitespace c) eqn:Hw.
  - rewrite IH. rewrite (find_statement_end_fuel (S (length b)) (length b)) by lia.
    cbn [find_statement_end]. rewrite Hc.
    assert (c ≠ quote ∧ c ≠ "/"%char ∧ c ≠ ";"%char) as (? & ? & ?)
      by (split_and!; intros ->; by vm_compute in Hw).
    by rewrite !bool_decide_eq_false_2.
  - destruct (_ && _) eqn:Hs; [|done]. rewrite IH.
    destruct (to_eol_bounds (length b) b (S (S i))).
    rewrite (find_statement_end_fuel (S (length b)) (length b)) by lia.
    cbn [find_statement_end]. rewrite Hc, Hs. apply andb_true_iff in Hs as [->%bool_decide_eq_true _].
    by rewrite bool_decide_eq_false_2.
Qed.

Lemma skip_blanks_blank fuel b j : Forall blank (slice b (j, skip_blanks fuel b j)).
Proof.
  revert j. induction fuel as [|fuel IH]; intros j; simpl; [rewrite slice_nil by lia; constructor|].
  destruct (at_byte b j " "%char || at_byte b j tab) eqn:Hs; [|rewrite slice_nil by lia; constructor].
  pose proof (skip_blanks_ge fuel b (S j)).
  apply orb_true_iff in Hs as [[Hc _]%at_byte_true|[Hc _]%at_byte_true];
    rewrite (slice_cons b j _ _ Hc) by lia; (constructor; [|apply IH]); [by left|by right].
Qed.

Lemma skip_blanks_exact fuel b i blanks l :
  Forall blank blanks → drop i b = blanks ++ "/"%char :: l → (length b ≤ fuel + i)%nat →
  skip_blanks fuel b i = (i + length blanks)%nat.
Proof.
  intros Hb. revert fuel i. induction Hb as [|c blanks Hc _ IH]; intros fuel i Hd Hf;
    destruct (drop_cons_inv _ _ _ _ Hd) as (Hi & Hd1 & Hl); destruct fuel as [|fuel]; try lia; simpl.
  - unfold at_byte. rewrite Hi. rewrite !bool_decide_eq_false_2 by done. simpl. lia.
  - assert (at_byte b i " "%char || at_byte b i tab = true) as ->.
    { apply orb_true_iff. destruct Hc as [->| ->]; [left|right]; by apply bool_decide_eq_true_2. }
    rewrite (IH fuel (S i) Hd1) by lia. lia.
Qed.

(** What removal cuts after a statement is the statement's own comment. *)
Lemma trailing_comment_own b i :
  (i ≤ length b)%nat →
  own_comment (slice b (i, trailing_comment_end b i)) (drop (trailing_comment_end b i) b).
Proof.
  intros Hi. unfold trailing_comment_end. pose proof (skip_blanks_ge (length b) b i) as Hge.
  pose proof (skip_blanks_blank (length b) b i) as Hbl. set (j := skip_blanks (length b) b i) in *.
  destruct (at_byte b j "/"%char && at_byte b (S j) "/"%char) eqn:Hs.
  - apply andb_true_iff in Hs as [[H1 L1]%at_byte_true [H2 L2]%at_byte_true].
    destruct (to_eol_bounds (length b) b j) as [Hle Hub]. specialize (Hub ltac:(lia)).
    pose proof (to_eol_body (length b) b j) as Hbody.
    destruct (to_eol_stops (length b) b j ltac:(lia)) as [He|He]; set (e := to_eol (length b) b j) in *.
    + apply lookup_ge_None in He. assert (e = length b) as Hlen by lia.
      rewrite (proj2 (Nat.ltb_ge _ _)) by lia. rewrite (slice_app b i j e) by lia.
      rewrite (slice_cons b j e _ H1), (slice_cons b (S j) e _ H2) in * by lia.
      rewrite drop_ge by lia. apply own_last; [done|set_solver].
    + pose proof (lookup_lt_Some _ _ _ He). rewrite (proj2 (Nat.ltb_lt _ _)) by lia.
      assert (S j < e)%nat.
      { destruct (decide (e = j)) as [Hx|]; [rewrite Hx, H1 in He; discriminate He|].
        destruct (decide (e = S j)) as [Hx|]; [rewrite Hx, H2 in He; discriminate He|lia]. }
      rewrite (slice_app b i j (S e)), (slice_app b j e (S e)) by lia.
      rewrite (slice_cons b j e _ H1), (slice_cons b (S j) e _ H2) in * by lia.
      rewrite (slice_cons b e (S e) _ He), (slice_nil b (S e) (S e)) by lia. cbn [app].
      apply own_line; [done|set_solver].
  - rewrite slice_nil by lia. apply own_none. intros blanks l Hb Hd.
    assert (j = i + length blanks)%nat as Hj by (eapply skip_blanks_exact; [done|done|lia]).
    assert (drop j b = "/"%char :: "/"%char :: l) as Hd2.
    { rewrite Hj, <- drop_drop, Hd, drop_app_length. done. }
    destruct (drop_cons_inv _ _ _ _ Hd2) as (C1 & Hd3 & _). destruct (drop_cons_inv _ _ _ _ Hd3) as (C2 & _ & _).
    unfold at_byte in Hs. by rewrite !bool_decide_eq_true_2 in Hs.
Qed.

End Grammar.

(** ** Lemmas on segmentation *)

Section Tiling.
Implicit Types (b : bytes) (f : PolicyFragment).

(** The fragments cover the content from [start] on without gap or overlap: trivia
    up to a byte that is none, then a statement, which ends with its semicolon and has
    none before it outside strings and comments. *)
Fixpoint tiles b (start : nat) (frags : list PolicyFragment) : Prop :=
  match frags with
  | [] => True
  | f :: frags' =>
      ∃ s e, leading f = (start, s) ∧ statement f = (s, e)
        ∧ (start ≤ s < e)%nat ∧ (e ≤ length b)%nat
        ∧ trivia (slice b (start, s)) ∧ no_trivia b s
        ∧ scanned false (slice b (s, pred e)) ∧ b !! pred e = Some ";"%char ∧ tiles b e frags'
  end.

(** Where the last statement ends. *)
Fixpoint covered (start : nat) (frags : list PolicyFragment) : nat :=
  match frags with [] => start | f :: frags' => covered (statement f).2 frags' end.

Lemma lex_from_tiles fuel b start :
  (start ≤ length b)%nat → tiles b start (lex_from fuel b start).
Proof.
  revert start. induction fuel as [|fuel IH]; intros start Hs; [done|].
  cbn [lex_from]. set (s := skip_trivia _ b start).
  pose proof (skip_trivia_bounds (S (length b)) b start Hs) as Hb. fold s in Hb.
  destruct (Nat.leb_spec (length b) s); [done|].
  destruct (find_statement_end _ b s false) as [semi|] eqn:He; [|done].
  pose proof (find_statement_end_scanned _ _ _ _ _ He) as Hsc.
  apply find_statement_end_Some in He as [Hle Hsemi]. pose proof (lookup_lt_Some _ _ _ Hsemi).
  exists s, (S semi). split; [done|]. split; [done|]. split; [lia|]. split; [lia|].
  split; [apply skip_trivia_trivia; lia|]. split; [apply skip_trivia_stops; lia|].
  split; [done|]. split; [done|]. apply IH. lia.
Qed.

(** The lexer stops only where no complete statement is left. *)
Lemma lex_from_stops fuel b start code rest :
  (length b < fuel + start)%nat → (start ≤ length b)%nat →
  drop (covered start (lex_from fuel b start)) b = code ++ ";"%char :: rest → ¬ scanned false code.
Proof.
  revert start. induction fuel as [|fuel IH]; intros start Hf Hs; [lia|].
  cbn [lex_from]. pose proof (find_statement_end_trivia (S (length b)) b start) as Htr.
  destruct (Nat.leb_spec (length b) (skip_trivia (S (length b)) b start)) as [Hge|Hlt].
  { intros Hd Hsc. cbn [covered] in Hd.
    rewrite (find_statement_end_complete _ _ Hsc (S (length b)) b start rest Hd) in Htr by lia.
    apply find_statement_end_Some in Htr as [Hle Hc%lookup_lt_Some]. lia. }
  destruct (find_statement_end _ b (skip_trivia (S (length b)) b start) false) as [semi|] eqn:He.
  - apply find_statement_end_Some in He as [Hle Hsemi]. pose proof (lookup_lt_Some _ _ _ Hsemi).
    pose proof (skip_trivia_bounds (S (length b)) b start Hs). apply IH; lia.
  - intros Hd Hsc. cbn [covered] in Hd.
    by rewrite (find_statement_end_complete _ _ Hsc (S (length b)) b start rest Hd) in Htr by lia.
Qed.

Lemma slice_split b s e : (s ≤ e ≤ length b)%nat → drop s b = slice b (s, e) ++ drop e b.
Proof.
  intros H. unfold slice. simpl. rewrite <- (take_drop (e - s) (drop s b)) at 1.
  rewrite drop_drop. by replace (s + (e - s))%nat with e by lia.
Qed.

Definition piece b f : bytes := slice b (leading f) ++ slice b (statement f).

Lemma tiles_concat b start frags :
  (start ≤ length b)%nat → tiles b start frags →
  drop start b = concat (piece b <$> frags) ++ drop (covered start frags) b.
Proof.
  revert start. induction frags as [|f frags IH]; intros start Hs; simpl; [done|].
  intros (s & e & Hl & Hst & ? & ? & _ & _ & _ & _ & Ht). unfold piece at 1. rewrite Hl, Hst. simpl.
  rewrite (slice_split b start s) by lia. rewrite (slice_split b s e) by lia.
  rewrite (IH e) by (done || lia). by rewrite !(assoc_L (++)).
Qed.

Lemma tiles_elem b start frags f :
  tiles b start frags → f ∈ frags →
  ((statement f).1 < (statement f).2 ≤ length b)%nat
  ∧ ((leading f).1 ≤ (statement f).1)%nat ∧ (leading f).2 = (statement f).1.
Proof.
  revert start. induction frags as [|g frags IH]; intros start; simpl; [by intros _ ?%elem_of_nil|].
  intros (s & e & Hl & Hst & ? & ? & _ & _ & _ & _ & Ht) [->|Hin]%elem_of_cons.
  - rewrite Hl, Hst. simpl. lia.
  - by apply (IH e).
Qed.

(** Every position a fragment is cut at splits no character. *)
Lemma lex_from_boundaries fuel b start f :
  utf8_like b → boundary b start → (start ≤ length b)%nat → f ∈ lex_from fuel b start →
  boundary b (leading f).1 ∧ boundary b (statement f).1 ∧ boundary b (statement f).2.
Proof.
  intros Hu. revert start. induction fuel as [|fuel IH]; intros start Hb Hs; [by intros ?%elem_of_nil|].
  cbn [lex_from]. destruct (Nat.leb _ _); [by intros ?%elem_of_nil|].
  destruct (find_statement_end _ _ _ _) as [semi|] eqn:He; [|by intros ?%elem_of_nil].
  apply find_statement_end_Some in He as [Hle Hsemi]. pose proof (lookup_lt_Some _ _ _ Hsemi).
  assert (Hnext : boundary b (S semi)) by (by eapply boundary_after).
  intros [->|Hin]%elem_of_cons; cbn [leading statement fst snd].
  - split; [done|]. split; [by apply skip_trivia_boundary|done].
  - by apply (IH (S semi)).
Qed.

Lemma adjacent_equal_NoDup l :
  StronglySorted str_le l → adjacent_equal l = false → NoDup l.
Proof.
  induction 1 as [|x l Hs IH Hx]; simpl; [constructor|]. destruct l as [|y l]; [intros _; apply NoDup_singleton|].
  intros [Hne Hadj]%orb_false_iff. apply bool_decide_eq_false in Hne. constructor; [|by apply IH].
  rewrite elem_of_cons. intros [->|Hin]; [done|]. apply Hne. apply (anti_symm str_le).
  - rewrite Forall_forall in Hx. apply Hx. by left.
  - inversion_clear Hs. rewrite Forall_forall in *. by eapply H0.
Qed.
End Tiling.

Section Verified.
Context (parse_set : string → result (list (option string)) string).

Lemma segment_verified_Ok content frags :
  segment_verified parse_set content = Ok frags →
  frags = lex_fragments content ∧ NoDup (omap id frags)
  ∧ ∃ policies, parse_set content = Ok policies ∧ length frags = length policies
                ∧ omap id frags ≡ₚ omap (λ p, p) policies.
Proof.
  unfold segment_verified. destruct (parse_set content) as [policies|]; [|done].
  destruct (bool_decide (length _ = length policies)) eqn:Hlen; [|done].
  destruct (bool_decide (merge_sort str_le _ = _)) eqn:Hids; [|done]. simpl.
  destruct (adjacent_equal _) eqn:Hadj; [done|]. intros [= <-]. bool_to_prop.
  split; [done|]. split.
  - rewrite <- (merge_sort_Permutation str_le).
    apply adjacent_equal_NoDup; [apply (StronglySorted_merge_sort str_le)|done].
  - exists policies. split; [done|]. split; [done|].
    rewrite <- (merge_sort_Permutation str_le (omap id _)), Hids. apply merge_sort_Permutation.
Qed.

(** Distinct ids: the fragment found is the fragment named. *)
Lemma find_by_id_elem frags f want :
  NoDup (omap id frags) → f ∈ frags → id f = Some want → find_by_id frags want = Ok f.
Proof.
  intros Hnd Hin Hid. unfold find_by_id.
  enough (find_first (λ g, bool_decide (id g = Some want)) frags = Some f) as -> by done.
  induction frags as [|g frags IH]; [by apply elem_of_nil in Hin|]. simpl.
  apply elem_of_cons in Hin as [<-|Hin]; [by rewrite bool_decide_eq_true_2|].
  case_bool_decide as Hg; [|apply IH; [|done]; simpl in Hnd; destruct (id g); [by inversion Hnd|done]].
  simpl in Hnd. rewrite Hg in Hnd. apply NoDup_cons in Hnd as [Hn _].
  destruct Hn. apply list_elem_of_omap. by exists f.
Qed.

(** The content around an addressable policy, and the edits of that policy. *)
Lemma edit_split content frags f want :
  segment_verified parse_set content = Ok frags → f ∈ frags → id f = Some want →
  let b := as_bytes content in
  ∃ pre lead stmt cut rest,
    content = pre +:+ lead +:+ stmt +:+ cut +:+ rest
    ∧ as_bytes lead = slice b (leading f) ∧ as_bytes stmt = slice b (statement f)
    ∧ policy_statement parse_set content want = Ok stmt
    ∧ (∀ new, replace_policy parse_set content want new = Ok (pre +:+ lead +:+ new +:+ cut +:+ rest))
    ∧ remove_policy parse_set content want = Ok (pre +:+ rest)
    ∧ own_comment (as_bytes cut) (as_bytes rest).
Proof.
  intros Hv Hin Hid b. destruct (segment_verified_Ok _ _ Hv) as (-> & Hnd & _).
  pose proof (lex_from_tiles (S (len content)) b 0 ltac:(lia)) as Ht.
  destruct (tiles_elem _ _ _ _ Ht Hin) as (Hr & Hl & Hls).
  set (e := trailing_comment_end b (statement f).2).
  pose proof (trailing_comment_end_bounds b (statement f).2 ltac:(lia)) as He. fold e in He.
  pose proof (trailing_comment_own b (statement f).2 ltac:(lia)) as Hown. fold e in Hown.
  destruct (statement f) as [st en] eqn:Hst, (leading f) as [ls le] eqn:Hlead. simpl in *. subst le.
  exists (of_bytes (take ls b)), (of_bytes (slice b (ls, st))), (of_bytes (slice b (st, en))),
    (of_bytes (slice b (en, e))), (of_bytes (drop e b)).
  assert (Happ : ∀ x y, of_bytes x +:+ of_bytes y = of_bytes (x ++ y))
    by (intros; apply as_bytes_inj; by rewrite as_bytes_app, !as_of_bytes).
  assert (Htake : take st b = take ls b ++ slice b (ls, st)).
  { unfold slice. simpl. rewrite <- (take_drop ls (take st b)), take_take, skipn_firstn_comm.
    by rewrite Nat.min_l by lia. }
  unfold policy_statement, replace_policy, remove_policy. rewrite Hv.
  rewrite (find_by_id_elem _ f want Hnd Hin Hid), Hst, Hlead. simpl. fold b e. rewrite !as_of_bytes, !Happ.
  rewrite <- !slice_split by lia. split_and!; try done.
  - rewrite take_drop. symmetry. apply of_as_bytes.
  - intros new. f_equal. apply as_bytes_inj. rewrite !as_bytes_app, !as_of_bytes, Htake. by rewrite <- app_assoc.
Qed.
End Verified.

(** ** The theorems *)

(** C40. Segmentation is faithful and edits are local. When a bundle segments, its
    fragments tile the content exactly: each is trivia (white space and whole
    comments), then a statement that ends with its semicolon and has no other one
    outside string literals and comments; what follows the last fragment holds no
    complete statement; the number of statements and their ids are those Cedar's
    parser reports and no id repeats. For every addressable policy the content falls
    into five parts: what precedes, the trivia before the statement, the statement
    shown, the comment on the rest of the statement's own line (blanks, the comment
    and its newline, nothing when there is none), and the rest. Replacing the policy
    changes the statement only; removing it keeps exactly what precedes and the rest.
    (The trivia before a statement starts right after the previous semicolon, so a
    comment on the previous policy's line goes with it.) On UTF-8 content no cut
    splits a character, so none of the slices can panic. *)
Theorem segmentation_is_faithful parse_set content frags :
  segment_verified parse_set content = Ok frags →
  let b := as_bytes content in
  tiles b 0 frags
  ∧ b = concat (piece b <$> frags) ++ drop (covered 0 frags) b
  ∧ (∀ code rest, drop (covered 0 frags) b = code ++ ";"%char :: rest → ¬ scanned false code)
  ∧ NoDup (omap id frags)
  ∧ (∃ policies, parse_set content = Ok policies ∧ length frags = length policies
                 ∧ omap id frags ≡ₚ omap (λ p, p) policies)
  ∧ (∀ f want, f ∈ frags → id f = Some want →
       ∃ pre lead stmt cut rest,
         content = pre +:+ lead +:+ stmt +:+ cut +:+ rest
         ∧ as_bytes lead = slice b (leading f) ∧ as_bytes stmt = slice b (statement f)
         ∧ policy_statement parse_set content want = Ok stmt
         ∧ (∀ new, replace_policy parse_set content want new = Ok (pre +:+ lead +:+ new +:+ cut +:+ rest))
         ∧ remove_policy parse_set content want = Ok (pre +:+ rest)
         ∧ own_comment (as_bytes cut) (as_bytes rest))
  ∧ (utf8_like b → ∀ f, f ∈ frags →
       boundary b (leading f).1 ∧ boundary b (statement f).1 ∧ boundary b (statement f).2
       ∧ boundary b (trailing_comment_end b (statement f).2)).
Proof.
  intros Hv b. destruct (segment_verified_Ok _ _ _ Hv) as (Hf & Hnd & Hp).
  assert (Hlex : frags = lex_from (S (length b)) b 0) by done.
  assert (Ht : tiles b 0 frags) by (rewrite Hlex; apply lex_from_tiles; lia).
  split; [done|]. split; [apply (tiles_concat b 0 frags); [lia|done]|].
  split; [intros code rest; rewrite Hlex; apply lex_from_stops; lia|]. split; [done|]. split; [done|].
  split; [intros f want Hin Hid; by eapply edit_split|].
  intros Hu f Hin. rewrite Hlex in Hin.
  destruct (lex_from_boundaries (S (length b)) b 0 f Hu (boundary_start _ Hu) ltac:(lia) Hin)
    as (? & ? & ?). repeat split; try done. by apply trailing_comment_end_boundary.
Qed.

(** A parser that agrees with the tokenizer. *)
Definition agreeing (s : string) : result (list (option string)) string :=
  Ok (id <$> lex_fragments s).

Definition at_id (name : string) : string := "@id(" +:+ quoted name +:+ ")".

Definition demo_bundle : string :=
  "// both" +:+ nl +:+ at_id "a" +:+ " permit(principal, action, resource); "
  +:+ at_id "b" +:+ " forbid(principal, action, resource);" +:+ nl.

Lemma segmentation_is_faithful_witness :
  ∃ frags, segment_verified agreeing demo_bundle = Ok frags
  ∧ tiles (as_bytes demo_bundle) 0 frags ∧ omap id frags = ["a"; "b"].
Proof.
  destruct (segment_verified agreeing demo_bundle) as [frags|] eqn:He; [|by vm_compute in He].
  exists frags. split; [done|]. split; [apply (segmentation_is_faithful _ _ _ He)|].
  vm_compute in He. injection He as <-. reflexivity.
Defined.

(** An accepted edit can drop a neighbouring policy: a replacement that ends
    in a line comment is exactly one policy with the expected id, yet spliced in
    front of a policy on the same line it comments that policy out, here a forbid,
    and the bundle still segments. *)
Theorem accepted_edit_drops_a_neighbour :
  let edit := at_id "a" +:+ " permit(principal, action, resource); // reviewed" in
  omap id (lex_fragments demo_bundle) = ["a"; "b"]
  ∧ ensure_single_policy agreeing edit (Some "a") = Ok ()
  ∧ ∃ out frags, replace_policy agreeing demo_bundle "a" edit = Ok out
      ∧ segment_verified agreeing out = Ok frags ∧ omap id frags = ["a"].
Proof.
  intros edit. split; [vm_compute; reflexivity|]. split; [vm_compute; reflexivity|].
  eexists _, _. split; [vm_compute; reflexivity|]. split; vm_compute; reflexivity.
Qed.

End Segment.
