(* ===== verification/Quota.v ===== *)
(** * Token-bucket rate limiting

    Model of crates/waygate-quota/src/lib.rs (the Postgres quota service) and
    store.rs (administration of policies) over the tables of migrations 0025 and
    0110.

    Token counts are [f64] and [DOUBLE PRECISION]. The service is defined over a
    class [Float8] of the operations it uses; the properties that hold under
    rounding assume only order laws of finite floating-point numbers, those that
    are about exact quantities are stated for rationals.

    A consuming check runs in one transaction that keeps every bucket row it
    writes locked until it ends, in policy-id order, so it is one atomic step. *)

From S2P Require Import Prelude RustStr.
From Stdlib Require Import QArith Qround Qminmax Lqa.
From stdpp Require Import prelude.
Global Open Scope Z_scope.

Module Quota.

(** ** Numbers *)

Class Float8 (F : Type) := {
  f_of_Z : Z → F;
  f_add : F → F → F;
  f_sub : F → F → F;
  f_mul : F → F → F;
  f_div : F → F → F;
  f_leb : F → F → bool;
  f_ceil : F → F;
  f_to_Z : F → Z;          (* [as u32] of a number already in range *)
  f_seconds : Z → F;       (* a signed duration in seconds *)
}.

Section Ops.
Context `{Float8 F}.

Definition f_ltb (x y : F) : bool := negb (f_leb y x).
(** SQL [LEAST]. *)
Definition least (x y : F) : F := if f_leb x y then x else y.
(** [f64::clamp] *)
Definition f_clamp (x lo hi : F) : F :=
  if f_ltb x lo then lo else if f_ltb hi x then hi else x.

End Ops.

(** ** Scopes and actions *)

Inductive QuotaScope := STenant | SPrincipal | SClient | SServer | STool.
Inductive QuotaAction := Call | SideEffectingCall | CostBearing | Discovery.
#[export] Instance QuotaScope_eq_dec : EqDecision QuotaScope.
Proof. solve_decision. Defined.
#[export] Instance QuotaAction_eq_dec : EqDecision QuotaAction.
Proof. solve_decision. Defined.

Definition scope_as_str (s : QuotaScope) : string :=
  match s with
  | STenant => "tenant" | SPrincipal => "principal" | SClient => "client"
  | SServer => "server" | STool => "tool"
  end.

Definition action_as_str (a : QuotaAction) : string :=
  match a with
  | Call => "call" | SideEffectingCall => "side_effecting_call"
  | CostBearing => "cost_bearing" | Discovery => "discovery"
  end.

Inductive RateLimitStoreError :=
  | Sqlx
  | Conflict
  | InvalidShape (reason : string).

Definition parse_scope (s : string) : result QuotaScope RateLimitStoreError :=
  if bool_decide (s = "tenant") then Ok STenant
  else if bool_decide (s = "principal") then Ok SPrincipal
  else if bool_decide (s = "client") then Ok SClient
  else if bool_decide (s = "server") then Ok SServer
  else if bool_decide (s = "tool") then Ok STool
  else Err (InvalidShape ("unknown scope: " +:+ s)).

Definition parse_action (s : string) : result QuotaAction RateLimitStoreError :=
  if bool_decide (s = "call") then Ok Call
  else if bool_decide (s = "side_effecting_call") then Ok SideEffectingCall
  else if bool_decide (s = "cost_bearing") then Ok CostBearing
  else if bool_decide (s = "discovery") then Ok Discovery
  else Err (InvalidShape ("unknown action: " +:+ s)).

Record QuotaContext := {
  ctx_tenant_id : string;
  ctx_principal_sub : option string;
  ctx_client_id : option string;
  ctx_server : string;
  ctx_fq_tool : string;
}.

Inductive QuotaError :=
  | QSqlx
  | RateLimited (policy_id : uuid) (name : string) (retry_after_seconds : Z).

Section Service.
Context `{Float8 F}.

(** ** Tables *)

Record PolicyRow := {
  pr_id : uuid;
  pr_tenant_id : string;
  pr_name : string;
  pr_scope : string;
  pr_scope_value : option string;
  pr_bucket_capacity : Z;
  pr_refill_per_second : F;
  pr_action : string;
  pr_created_at : time;
  pr_updated_at : time;
}.

Record Counter := { tokens_remaining : F; last_refill : time }.

Record Db := {
  policies : gmap uuid PolicyRow;
  counters : gmap (uuid * string) Counter;
}.

Definition with_counters (db : Db) m : Db := {| policies := policies db; counters := m |}.

(** ** Policy matching *)

Record ApplicablePolicy := {
  ap_policy_id : uuid;
  ap_name : string;
  ap_scope : string;
  ap_bucket_key : string;
  ap_capacity : F;
  ap_refill : F;
}.

(** The bucket a scope resolves to in this call; [None] skips the policy. *)
Definition bucket_key (ctx : QuotaContext) (scope : string) : option string :=
  if bool_decide (scope = "tenant") then Some (ctx_tenant_id ctx)
  else if bool_decide (scope = "principal") then ctx_principal_sub ctx
  else if bool_decide (scope = "client") then ctx_client_id ctx
  else if bool_decide (scope = "server") then Some (ctx_server ctx)
  else if bool_decide (scope = "tool") then Some (ctx_fq_tool ctx)
  else None.

Definition resolve (ctx : QuotaContext) (r : PolicyRow) : option ApplicablePolicy :=
  match bucket_key ctx (pr_scope r) with
  | None => None
  | Some key =>
      let app := {| ap_policy_id := pr_id r; ap_name := pr_name r; ap_scope := pr_scope r;
                    ap_bucket_key := key; ap_capacity := f_of_Z (pr_bucket_capacity r);
                    ap_refill := pr_refill_per_second r |} in
      match pr_scope_value r with
      | Some required => if bool_decide (required = key) then Some app else None
      | None => Some app
      end
  end.

Definition by_id (a b : PolicyRow) : Prop := (pr_id a ≤ pr_id b)%N.
#[export] Instance by_id_dec a b : Decision (by_id a b).
Proof. unfold by_id. apply _. Defined.
#[export] Instance by_id_total : Total by_id.
Proof. intros a b. unfold by_id. lia. Qed.
#[export] Instance by_id_trans : Transitive by_id.
Proof. intros a b c. unfold by_id. lia. Qed.

Definition policy_rows (db : Db) : list PolicyRow := (map_to_list (policies db)).*2.

Definition selected (ctx : QuotaContext) (actions : list QuotaAction) (r : PolicyRow) : bool :=
  bool_decide (pr_tenant_id r = ctx_tenant_id ctx)
  && bool_decide (pr_action r ∈ action_as_str <$> actions).

Definition applicable_policies (ctx : QuotaContext) (actions : list QuotaAction) (db : Db)
  : list ApplicablePolicy :=
  omap (resolve ctx)
    (merge_sort by_id (filter (λ r, selected ctx actions r = true) (policy_rows db))).

(** ** The bucket arithmetic *)

Definition one : F := f_of_Z 1.
Definition zero : F := f_of_Z 0.

(** [LEAST($3, tokens_remaining + EXTRACT(EPOCH FROM (now() - last_refill)) * $4)] *)
Definition tokens_now (app : ApplicablePolicy) (c : Counter) (now : time) : F :=
  least (ap_capacity app)
    (f_add (tokens_remaining c) (f_mul (f_seconds (now - last_refill c)) (ap_refill app))).

Definition bucket (app : ApplicablePolicy) : uuid * string := (ap_policy_id app, ap_bucket_key app).

(** The conditional upsert: the new counter, [None] when the [WHERE] fails. *)
Definition debit (app : ApplicablePolicy) (now : time) (m : gmap (uuid * string) Counter)
  : option Counter :=
  match m !! bucket app with
  | None => Some {| tokens_remaining := f_sub (ap_capacity app) one; last_refill := now |}
  | Some c =>
      if f_leb one (tokens_now app c now)
      then Some {| tokens_remaining := f_sub (tokens_now app c now) one; last_refill := now |}
      else None
  end.

Definition compute_retry_after_seconds (clock : time) (cur : option Counter) (refill : F) : Z :=
  match cur with
  | None => 1
  | Some c =>
      let elapsed := f_seconds (clock - last_refill c) in
      if f_leb refill zero then 3600
      else
        let needed := f_sub one (f_add (tokens_remaining c) (f_mul elapsed refill)) in
        if f_leb needed zero then 1
        else f_to_Z (f_clamp (f_ceil (f_div needed refill)) one (f_of_Z 3600))
  end.

(** ** The consuming check *)

(** The debits of the transaction in policy order; the first denial carries the
    state the failing upsert saw. *)
Fixpoint debit_all (now : time) (apps : list ApplicablePolicy)
    (m : gmap (uuid * string) Counter)
  : result (gmap (uuid * string) Counter) (ApplicablePolicy * gmap (uuid * string) Counter) :=
  match apps with
  | [] => Ok m
  | app :: rest =>
      match debit app now m with
      | None => Err (app, m)
      | Some c => debit_all now rest (<[bucket app := c]> m)
      end
  end.

Definition check_and_consume (clock now : time) (ctx : QuotaContext) (actions : list QuotaAction)
    (db : Db) : result unit QuotaError * Db :=
  match actions with
  | [] => (Ok tt, db)
  | _ =>
      match applicable_policies ctx actions db with
      | [] => (Ok tt, db)
      | apps =>
          match debit_all now apps (counters db) with
          | Ok m => (Ok tt, with_counters db m)
          | Err (app, m) =>
              (Err (RateLimited (ap_policy_id app) (ap_name app)
                      (compute_retry_after_seconds clock (m !! bucket app) (ap_refill app))), db)
          end
      end
  end.

(** ** The advisory probe *)

(** The policy denies even after a second of refill. *)
Definition probe_denies (now : time) (app : ApplicablePolicy) (db : Db) : bool :=
  match counters db !! bucket app with
  | None => false
  | Some c => f_ltb (f_add (tokens_now app c now) (ap_refill app)) one
  end.

Fixpoint probe_all (clock now : time) (apps : list ApplicablePolicy) (db : Db)
  : result unit QuotaError :=
  match apps with
  | [] => Ok tt
  | app :: rest =>
      if probe_denies now app db
      then Err (RateLimited (ap_policy_id app) (ap_name app)
                  (compute_retry_after_seconds clock (counters db !! bucket app) (ap_refill app)))
      else probe_all clock now rest db
  end.

Definition check (clock now : time) (ctx : QuotaContext) (actions : list QuotaAction) (db : Db)
  : result unit QuotaError :=
  match actions with
  | [] => Ok tt
  | _ => probe_all clock now (applicable_policies ctx actions db) db
  end.

(** ** Lemmas *)

(** Rows are stored under their ids. *)
Definition keyed (db : Db) : Prop := ∀ id r, policies db !! id = Some r → pr_id r = id.

Lemma policy_rows_ids db : keyed db → NoDup (pr_id <$> policy_rows db).
Proof.
  intros Hk. unfold policy_rows. rewrite <- list_fmap_compose.
  assert (pr_id ∘ snd <$> map_to_list (policies db) = (map_to_list (policies db)).*1) as ->;
    [|apply NoDup_fst_map_to_list].
  apply list_fmap_ext. intros i [id r] Hi%list_elem_of_lookup_2%elem_of_map_to_list. by apply Hk.
Qed.

Lemma resolve_id ctx r app : resolve ctx r = Some app → ap_policy_id app = pr_id r.
Proof.
  unfold resolve. destruct (bucket_key ctx (pr_scope r)); [|done].
  destruct (pr_scope_value r); [case_bool_decide|]; intros; by simplify_eq.
Qed.

Lemma omap_resolve_ids ctx l :
  sublist (ap_policy_id <$> omap (resolve ctx) l) (pr_id <$> l).
Proof.
  induction l as [|r l IH]; [constructor|]. cbn [omap list_omap].
  destruct (resolve ctx r) as [app|] eqn:Hr; rewrite ?fmap_cons; [|by apply sublist_cons].
  rewrite (resolve_id _ _ _ Hr). by apply sublist_skip.
Qed.

Lemma NoDup_fmap_filter {A B} (f : A → B) (P : A → Prop) `{∀ x, Decision (P x)} l :
  NoDup (f <$> l) → NoDup (f <$> filter P l).
Proof.
  induction l as [|x l IH]; [done|]. rewrite fmap_cons, filter_cons. intros [Hn Hnd]%NoDup_cons.
  case_decide; [|by apply IH]. rewrite fmap_cons. apply NoDup_cons. split; [|by apply IH].
  intros (y & Hy & [_ Hin]%list_elem_of_filter)%list_elem_of_fmap. apply Hn. rewrite Hy.
  by apply list_elem_of_fmap_2.
Qed.

(** The policies of a call have pairwise distinct ids, hence distinct buckets,
    in ascending id order. *)
Lemma applicable_NoDup ctx actions db :
  keyed db → NoDup (ap_policy_id <$> applicable_policies ctx actions db).
Proof.
  intros Hk. eapply sublist_NoDup; [|apply omap_resolve_ids].
  rewrite merge_sort_Permutation. by apply NoDup_fmap_filter, policy_rows_ids.
Qed.

Lemma StronglySorted_sublist_N (l k : list N) :
  sublist l k → StronglySorted N.le k → StronglySorted N.le l.
Proof.
  induction 1 as [|x l k Hs IH|x l k Hs IH]; intros Hk; [constructor|..];
    inversion Hk as [|? ? Hk' Hall]; subst; auto.
  constructor; [by apply IH|]. rewrite Forall_forall in *. intros y Hy. apply Hall.
  by eapply elem_of_submseteq, sublist_submseteq.
Qed.

Lemma applicable_sorted ctx actions db :
  StronglySorted N.le (ap_policy_id <$> applicable_policies ctx actions db).
Proof.
  eapply StronglySorted_sublist_N; [apply omap_resolve_ids|].
  assert (StronglySorted by_id (merge_sort by_id
    (filter (λ r, selected ctx actions r = true) (policy_rows db)))) as Hs
    by (apply StronglySorted_merge_sort; apply _).
  induction Hs as [|r l _ IH Hall]; [constructor|]. rewrite fmap_cons. constructor; [done|].
  apply Forall_fmap. eapply Forall_impl; [exact Hall|done].
Qed.

Lemma debit_insert_ne a b now c m :
  ap_policy_id a ≠ ap_policy_id b → debit b now (<[bucket a := c]> m) = debit b now m.
Proof.
  intros Hne. unfold debit. rewrite lookup_insert_ne; [done|]. unfold bucket. congruence.
Qed.

Lemma debit_all_Ok now apps m m' :
  NoDup (ap_policy_id <$> apps) → debit_all now apps m = Ok m' →
  (∀ app, app ∈ apps → ∃ c, debit app now m = Some c ∧ m' !! bucket app = Some c) ∧
  (∀ k, (∀ app, app ∈ apps → bucket app ≠ k) → m' !! k = m !! k).
Proof.
  revert m. induction apps as [|a apps IH]; intros m Hnd Hd; simpl in Hd.
  { simplify_eq. split; [intros ? Hin; inversion Hin|done]. }
  destruct (debit a now m) as [c|] eqn:Ha; [|done].
  rewrite fmap_cons in Hnd. apply NoDup_cons in Hnd as [Hn Hnd].
  destruct (IH _ Hnd Hd) as [Hin Hout]. split.
  - intros app [->|Happ]%elem_of_cons.
    + exists c. split; [done|]. rewrite Hout; [apply lookup_insert_eq|].
      intros b Hb He. apply Hn. assert (ap_policy_id b = ap_policy_id a) as <-
        by (unfold bucket in He; congruence). by apply list_elem_of_fmap_2.
    + destruct (Hin app Happ) as (c' & Hc & Hm). exists c'. split; [|done].
      rewrite debit_insert_ne in Hc; [done|]. intros He. apply Hn. rewrite He.
      by apply list_elem_of_fmap_2.
  - intros k Hk. rewrite Hout.
    + rewrite lookup_insert_ne; [done|]. apply Hk. left.
    + intros app Happ. apply Hk. by right.
Qed.

Lemma debit_all_Err now apps m app m' :
  NoDup (ap_policy_id <$> apps) → debit_all now apps m = Err (app, m') →
  ∃ l1 l2, apps = l1 ++ app :: l2 ∧ Forall (λ a, is_Some (debit a now m)) l1 ∧
           debit app now m = None ∧ m' !! bucket app = m !! bucket app.
Proof.
  revert m. induction apps as [|a apps IH]; intros m Hnd Hd; simpl in Hd; [done|].
  rewrite fmap_cons in Hnd. apply NoDup_cons in Hnd as [Hn Hnd].
  destruct (debit a now m) as [c|] eqn:Ha; [|simplify_eq; by exists [], apps].
  destruct (IH _ Hnd Hd) as (l1 & l2 & -> & Hall & Hdn & Hm).
  assert (∀ b, b ∈ l1 ++ app :: l2 → ap_policy_id a ≠ ap_policy_id b) as Hne.
  { intros b Hb He. apply Hn. rewrite He. by apply list_elem_of_fmap_2. }
  exists (a :: l1), l2. split; [done|].
  assert (app ∈ l1 ++ app :: l2) as Hin by (apply elem_of_app; right; left).
  repeat split.
  - constructor; [by eexists|]. rewrite Forall_forall in *. intros b Hb.
    rewrite <- (debit_insert_ne a b now c); [by apply Hall|]. apply Hne, elem_of_app. by left.
  - rewrite <- (debit_insert_ne a app now c); auto.
  - rewrite Hm, lookup_insert_ne; [done|]. unfold bucket. intros ?. by destruct (Hne app Hin); congruence.
Qed.

(** The policies a call is checked against. *)
Definition governing (ctx : QuotaContext) (actions : list QuotaAction) (db : Db)
  : list ApplicablePolicy :=
  match actions with [] => [] | _ => applicable_policies ctx actions db end.

(** The consuming check in one equation. *)
Lemma check_and_consume_eq clock now ctx actions db :
  check_and_consume clock now ctx actions db =
  match debit_all now (governing ctx actions db) (counters db) with
  | Ok m => (Ok tt, with_counters db m)
  | Err (app, m) =>
      (Err (RateLimited (ap_policy_id app) (ap_name app)
              (compute_retry_after_seconds clock (m !! bucket app) (ap_refill app))), db)
  end.
Proof.
  unfold check_and_consume, governing. destruct actions; [by destruct db|].
  destruct (applicable_policies _ _ _); [by destruct db|done].
Qed.

Lemma governing_NoDup ctx actions db :
  keyed db → NoDup (ap_policy_id <$> governing ctx actions db).
Proof. unfold governing. destruct actions; [constructor|apply applicable_NoDup]. Qed.

Lemma governing_policy ctx actions db app :
  keyed db → app ∈ governing ctx actions db →
  ∃ r, policies db !! ap_policy_id app = Some r ∧ resolve ctx r = Some app.
Proof.
  intros Hk. unfold governing. destruct actions as [|a l]; [intros Hin; inversion Hin|].
  unfold applicable_policies. intros (r & Hr & Hres)%list_elem_of_omap.
  rewrite merge_sort_Permutation, list_elem_of_filter in Hr. destruct Hr as [_ Hr].
  unfold policy_rows in Hr. apply list_elem_of_fmap in Hr as ([id x] & -> & Hr%elem_of_map_to_list).
  exists x. simpl in *. rewrite (resolve_id _ _ _ Hres), (Hk id x Hr). done.
Qed.

Lemma resolve_limits ctx r app :
  resolve ctx r = Some app →
  ap_capacity app = f_of_Z (pr_bucket_capacity r) ∧ ap_refill app = pr_refill_per_second r.
Proof.
  unfold resolve. destruct (bucket_key ctx (pr_scope r)); [|done].
  destruct (pr_scope_value r); [case_bool_decide|]; intros; by simplify_eq.
Qed.

(** ** Histories with fixed policies *)

Record Request := {
  rq_clock : time;                   (* the gateway's clock *)
  rq_now : time;                     (* the database's transaction time *)
  rq_ctx : QuotaContext;
  rq_actions : list QuotaAction;
}.

Definition serve (q : Request) (db : Db) : result unit QuotaError * Db :=
  check_and_consume (rq_clock q) (rq_now q) (rq_ctx q) (rq_actions q) db.

Fixpoint serve_all (qs : list Request) (db : Db) : list (result unit QuotaError) * Db :=
  match qs with
  | [] => ([], db)
  | q :: qs' =>
      let '(a, db') := serve q db in
      let '(l, db'') := serve_all qs' db' in (a :: l, db'')
  end.

Lemma serve_policies q db : policies (serve q db).2 = policies db.
Proof.
  unfold serve. rewrite check_and_consume_eq. by destruct (debit_all _ _ _) as [|[]].
Qed.

(** A counter after a request: untouched, or the result of one debit. *)
Lemma serve_counter q db k c :
  keyed db → counters (serve q db).2 !! k = Some c →
  counters db !! k = Some c ∨
  ∃ app, app ∈ governing (rq_ctx q) (rq_actions q) db ∧ bucket app = k ∧
         (serve q db).1 = Ok tt ∧ debit app (rq_now q) (counters db) = Some c.
Proof.
  intros Hk. unfold serve. rewrite check_and_consume_eq.
  destruct (debit_all (rq_now q) _ (counters db)) as [m|[app m]] eqn:Hd; simpl; [|by left].
  destruct (debit_all_Ok _ _ _ _ (governing_NoDup _ _ _ Hk) Hd) as [Hin Hout]. intros Hc.
  destruct (decide (Exists (λ a, bucket a = k) (governing (rq_ctx q) (rq_actions q) db))) as [He|He].
  - apply Exists_exists in He as (app & Happ & Hb). right. exists app. subst k.
    destruct (Hin app Happ) as (c' & Hdeb & Hm). by simplify_eq.
  - left. rewrite <- Hout; [done|]. intros app Happ Hb. apply He, Exists_exists. eauto.
Qed.

(** ** Order laws of finite floating-point numbers *)

Class FloatOrder := {
  f_le_refl x : f_leb x x = true;
  f_le_trans x y z : f_leb x y = true → f_leb y z = true → f_leb x z = true;
  f_le_total x y : f_leb x y = false → f_leb y x = true;
  f_one_le_of_Z n : 1 ≤ n → f_leb one (f_of_Z n) = true;
  f_sub_one_nonneg x : f_leb one x = true → f_leb zero (f_sub x one) = true;
  f_sub_one_mono x y : f_leb x y = true → f_leb (f_sub x one) (f_sub y one) = true;
}.

Context `{!FloatOrder}.

Lemma least_le_l x y : f_leb (least x y) x = true.
Proof. unfold least. destruct (f_leb x y) eqn:Hl; [apply f_le_refl|by apply f_le_total]. Qed.

(** Every counter of a policy is between none and one less than its capacity. *)
Definition in_bounds (db : Db) : Prop :=
  ∀ id key c r, counters db !! (id, key) = Some c → policies db !! id = Some r →
    f_leb zero (tokens_remaining c) = true ∧
    f_leb (tokens_remaining c) (f_sub (f_of_Z (pr_bucket_capacity r)) one) = true.

Lemma debit_bounds app now m c n :
  1 ≤ n → ap_capacity app = f_of_Z n → debit app now m = Some c →
  f_leb zero (tokens_remaining c) = true ∧
  f_leb (tokens_remaining c) (f_sub (f_of_Z n) one) = true.
Proof.
  intros Hn Hcap. unfold debit. destruct (m !! bucket app) as [c0|].
  - destruct (f_leb one (tokens_now app c0 now)) eqn:Ht; [|done]. intros ?; simplify_eq. simpl.
    split; [by apply f_sub_one_nonneg|]. apply f_sub_one_mono. rewrite <- Hcap. apply least_le_l.
  - intros ?; simplify_eq. simpl. rewrite Hcap.
    split; [by apply f_sub_one_nonneg, f_one_le_of_Z|apply f_sub_one_mono, f_le_refl].
Qed.

Lemma serve_bounds q db :
  keyed db → (∀ id r, policies db !! id = Some r → 1 ≤ pr_bucket_capacity r) →
  in_bounds db → in_bounds (serve q db).2.
Proof.
  intros Hk Hcap Hb id key c r Hc Hr. rewrite serve_policies in Hr.
  destruct (serve_counter _ _ _ _ Hk Hc) as [Hold|(app & Happ & Hbk & _ & Hd)]; [by eapply Hb|].
  destruct (governing_policy _ _ _ _ Hk Happ) as (r' & Hr' & Hres).
  assert (ap_policy_id app = id) as Hid by (unfold bucket in Hbk; congruence).
  rewrite Hid in Hr'. simplify_eq. destruct (resolve_limits _ _ _ Hres) as [Hcp _].
  eapply debit_bounds; eauto.
Qed.

End Service.
Arguments PolicyRow F : clear implicits.
Arguments Counter F : clear implicits.
Arguments Db F : clear implicits.
Arguments ApplicablePolicy F : clear implicits.

(** ** Exact arithmetic *)

#[export] Instance Q_float8 : Float8 Q := {|
  f_of_Z := inject_Z;
  f_add := Qplus;
  f_sub := Qminus;
  f_mul := Qmult;
  f_div := Qdiv;
  f_leb := Qle_bool;
  f_ceil := λ x, inject_Z (Qceiling x);
  f_to_Z := Qfloor;
  f_seconds := λ d, Qmake d 1000000000;
|}.

#[export] Instance Q_order : FloatOrder (F := Q).
Proof.
  split; intros; simpl in *; rewrite ?Qle_bool_iff in *; try lra.
  - destruct (Qlt_le_dec y x) as [Hl|Hl]; [lra|]. apply Qle_bool_iff in Hl. congruence.
  - unfold one. simpl. rewrite <- Zle_Qle. lia.
  - unfold one, zero in *. simpl in *. change (inject_Z 1) with 1%Q in *. change (inject_Z 0) with 0%Q. lra.
Qed.

Section Exact.
Local Open Scope Q_scope.

Lemma least_spec (x y : Q) :
  least x y <= x ∧ least x y <= y ∧ (least x y = x ∨ least x y = y).
Proof.
  unfold least. simpl. destruct (Qle_bool x y) eqn:Hl.
  - apply Qle_bool_iff in Hl. repeat split; [lra|done|by left].
  - assert (¬ x <= y) by (rewrite <- Qle_bool_iff; congruence). repeat split; [lra|lra|by right].
Qed.

Definition secs (d : Z) : Q := Qmake d 1000000000.

Lemma secs_add d e : secs (d + e) == secs d + secs e.
Proof. unfold secs, Qeq. simpl. lia. Qed.

Lemma secs_nonneg d : (0 ≤ d)%Z → 0 <= secs d.
Proof. unfold secs, Qle. simpl. lia. Qed.

Lemma secs_mono d e : (d ≤ e)%Z → secs d <= secs e.
Proof. unfold secs, Qle. simpl. lia. Qed.

Lemma secs_one : secs 1000000000 == 1.
Proof. reflexivity. Qed.

(** Tokens in a bucket of the given limits at time [t]. *)
Definition available (cap refill : Q) (o : option (Counter Q)) (t : time) : Q :=
  match o with
  | None => cap
  | Some c => least cap (tokens_remaining c + secs (t - last_refill c) * refill)
  end.

Lemma available_cap cap refill o t : available cap refill o t <= cap.
Proof. destruct o; simpl; [apply least_spec|lra]. Qed.

Lemma accrues (t t' last : time) (refill : Q) :
  secs (t' - last) * refill == secs (t - last) * refill + secs (t' - t) * refill.
Proof.
  replace (t' - last)%Z with ((t - last) + (t' - t))%Z by lia. rewrite secs_add. ring.
Qed.

Lemma available_grows cap refill o t t' :
  0 <= refill → (t ≤ t')%Z →
  available cap refill o t' <= available cap refill o t + secs (t' - t) * refill.
Proof.
  intros Hr Ht. assert (0 <= secs (t' - t) * refill) as Hp.
  { apply Qmult_le_0_compat; [apply secs_nonneg; lia|done]. }
  destruct o as [c|]; simpl; [|lra].
  pose proof (accrues t t' (last_refill c) refill).
  destruct (least_spec cap (tokens_remaining c + secs (t' - last_refill c) * refill)) as (H1 & H2 & _).
  destruct (least_spec cap (tokens_remaining c + secs (t - last_refill c) * refill)) as (_ & _ & [->| ->]); lra.
Qed.

(** The counter of a bucket is sane at time [t]. *)
Definition sane (o : option (Counter Q)) (t : time) : Prop :=
  match o with
  | None => True
  | Some c => 0 <= tokens_remaining c ∧ (last_refill c ≤ t)%Z
  end.

Lemma available_nonneg cap refill o t :
  0 <= cap → 0 <= refill → sane o t → 0 <= available cap refill o t.
Proof.
  intros Hc Hr Hs. destruct o as [c|]; simpl; [|done]. destruct Hs as [Ht Hl].
  assert (0 <= secs (t - last_refill c) * refill).
  { apply Qmult_le_0_compat; [apply secs_nonneg; lia|done]. }
  destruct (least_spec cap (tokens_remaining c + secs (t - last_refill c) * refill)) as (_ & _ & [->| ->]); lra.
Qed.

(** The request charges this bucket. *)
Definition charges (key : uuid * string) (q : Request) (db : Db Q) : bool :=
  bool_decide (Exists (λ a, bucket a = key) (governing (rq_ctx q) (rq_actions q) db)).

(** Requests served that were charged to this bucket. *)
Fixpoint spent (key : uuid * string) (qs : list Request) (db : Db Q) : nat :=
  match qs with
  | [] => 0
  | q :: qs' =>
      let '(a, db') := serve q db in
      ((if is_ok a && charges key q db then 1 else 0) + spent key qs' db')%nat
  end.

(** The transaction times do not decrease, from [t0] to [t1]. *)
Fixpoint chain (t0 : time) (qs : list Request) (t1 : time) : Prop :=
  match qs with
  | [] => (t0 ≤ t1)%Z
  | q :: qs' => (t0 ≤ rq_now q)%Z ∧ chain (rq_now q) qs' t1
  end.

Lemma chain_le t0 qs t1 : chain t0 qs t1 → (t0 ≤ t1)%Z.
Proof.
  revert t0. induction qs as [|q qs IH]; intros t0 Hc; simpl in Hc; [done|].
  destruct Hc as [? ?%IH]. lia.
Qed.

Section Bucket.
Context (id : uuid) (key : string) (row : PolicyRow Q).
Abbreviation cap := (inject_Z (pr_bucket_capacity row)).
Abbreviation refill := (pr_refill_per_second row).
Abbreviation here db := (counters db !! (id, key)).

(** The limits in force: the row is stored, as the table's checks demand. *)
Definition limited (db : Db Q) : Prop :=
  keyed db ∧ policies db !! id = Some row ∧ (1 ≤ pr_bucket_capacity row)%Z ∧ 0 < refill.

Lemma limited_serve q db : limited db → limited (serve q db).2.
Proof.
  intros (Hk & Hr & ? & ?). unfold limited, keyed. rewrite serve_policies. by repeat split.
Qed.

(** One request: what it takes from the bucket is gone from it. *)
Lemma serve_available q db :
  limited db → sane (here db) (rq_now q) →
  available cap refill (here (serve q db).2) (rq_now q)
    + (if is_ok (serve q db).1 && charges (id, key) q db then 1 else 0)
  <= available cap refill (here db) (rq_now q) ∧ sane (here (serve q db).2) (rq_now q).
Proof.
  intros (Hk & Hrow & Hcap & Hrf) Hs. unfold charges, serve. rewrite check_and_consume_eq.
  destruct (debit_all (rq_now q) _ (counters db)) as [m|[app m]] eqn:Hd; simpl; [|split; [lra|done]].
  destruct (debit_all_Ok _ _ _ _ (governing_NoDup _ _ _ Hk) Hd) as [Hin Hout].
  case_bool_decide as He.
  - apply Exists_exists in He as (app & Happ & Hb).
    destruct (governing_policy _ _ _ _ Hk Happ) as (r' & Hr' & Hres).
    assert (ap_policy_id app = id) as Hid by (unfold bucket in Hb; congruence).
    rewrite Hid, Hrow in Hr'. injection Hr' as <-. destruct (resolve_limits _ _ _ Hres) as [Hc Hf].
    destruct (Hin app Happ) as (c & Hdeb & Hm). rewrite Hb in Hm. rewrite Hm.
    assert (Hone : @one Q _ = 1) by done.
    assert (secs (rq_now q - rq_now q) * refill == 0) as Hz
      by (rewrite Z.sub_diag; unfold secs, Qeq; simpl; lia).
    unfold debit in Hdeb. rewrite Hb in Hdeb. simpl in Hc.
    destruct (here db) as [c0|] eqn:Hh.
    + unfold tokens_now in Hdeb. rewrite Hc, Hf, Hone in Hdeb. simpl in Hdeb.
      change (Qmake (rq_now q - last_refill c0) 1000000000)
        with (secs (rq_now q - last_refill c0)) in Hdeb. simpl available at 2.
      destruct (Qle_bool 1 _) eqn:Hle; [|done]. apply Qle_bool_iff in Hle. injection Hdeb as <-.
      simpl. split; [|split; [lra|lia]].
      match goal with |- context [least cap (?t + secs (rq_now q - rq_now q) * refill)] =>
        destruct (least_spec cap (t + secs (rq_now q - rq_now q) * refill)) as (_ & H2 & _) end. lra.
    + rewrite Hc, Hone in Hdeb. injection Hdeb as <-. simpl.
      assert (1 <= cap) by (change 1 with (inject_Z 1); rewrite <- Zle_Qle; lia).
      split; [|split; [lra|lia]].
      match goal with |- context [least cap (?t + secs (rq_now q - rq_now q) * refill)] =>
        destruct (least_spec cap (t + secs (rq_now q - rq_now q) * refill)) as (_ & H2 & _) end. lra.
  - rewrite Hout; [split; [lra|done]|]. intros app Happ Hb. apply He, Exists_exists. eauto.
Qed.

Lemma spent_bound qs db t0 t1 :
  limited db → sane (here db) t0 → chain t0 qs t1 →
  inject_Z (Z.of_nat (spent (id, key) qs db))
  <= available cap refill (here db) t0 + secs (t1 - t0) * refill.
Proof.
  revert db t0. induction qs as [|q qs IH]; intros db t0 Hlim Hs Hc.
  - cbn [spent chain] in *. destruct Hlim as (_ & _ & Hcap & Hr).
    assert (0 <= secs (t1 - t0) * refill) by
      (apply Qmult_le_0_compat; [apply secs_nonneg; lia|lra]).
    assert (1 <= cap) by (change 1 with (inject_Z 1); rewrite <- Zle_Qle; lia).
    assert (0 <= available cap refill (here db) t0) by (apply available_nonneg; [lra|lra|done]).
    change (inject_Z (Z.of_nat 0)) with 0. lra.
  - destruct Hc as [Ht Hc].
    assert (sane (here db) (rq_now q)) as Hs'.
    { destruct (here db); [|done]. destruct Hs. split; [done|lia]. }
    destruct (serve_available q db Hlim Hs') as [Hav Hs''].
    specialize (IH _ _ (limited_serve q db Hlim) Hs'' Hc).
    assert (0 <= refill) as Hr by (destruct Hlim as (_ & _ & _ & ?); lra).
    pose proof (available_grows cap refill (here db) t0 (rq_now q) Hr Ht) as Hg.
    pose proof (accrues (rq_now q) t1 t0 refill) as Hacc.
    cbn [spent]. destruct (serve q db) as [a db']. cbn [fst snd] in *.
    rewrite Nat2Z.inj_add, inject_Z_plus.
    destruct (is_ok a && charges (id, key) q db);
      [change (inject_Z (Z.of_nat 1)) with 1|change (inject_Z (Z.of_nat 0)) with 0]; lra.
Qed.

End Bucket.

(** *** The probe *)

Lemma probe_all_Err clock now apps db e :
  probe_all clock now apps db = Err e → ∃ app, app ∈ apps ∧ probe_denies now app db = true.
Proof.
  induction apps as [|a apps IH]; simpl; [done|].
  destruct (probe_denies now a db) eqn:Hd.
  - intros _. exists a. split; [left|done].
  - intros (app & ? & ?)%IH. exists app. split; [by right|done].
Qed.

(** A bucket the probe denies has no token within the next second. *)
Lemma probe_denies_debit now now' app (db : Db Q) :
  1 <= ap_capacity app → 0 < ap_refill app → (now ≤ now' ≤ now + nanos_per_sec)%Z →
  probe_denies now app db = true → debit app now' (counters db) = None.
Proof.
  intros Hcap Hr Hn. unfold probe_denies, debit.
  destruct (counters db !! bucket app) as [c|]; [|done]. unfold f_ltb.
  change (@one Q _) with 1 in *. intros Hp%negb_true_iff.
  assert (tokens_now app c now + ap_refill app < 1) as Hlt.
  { apply Qnot_le_lt. intros Hle%Qle_bool_iff. simpl in Hp, Hle. congruence. }
  unfold tokens_now in *. simpl in *.
  change (Qmake (now - last_refill c) 1000000000) with (secs (now - last_refill c)) in *.
  change (Qmake (now' - last_refill c) 1000000000) with (secs (now' - last_refill c)) in *.
  pose proof (accrues now now' (last_refill c) (ap_refill app)) as Hacc.
  assert (secs (now' - now) * ap_refill app <= 1 * ap_refill app) as Hone.
  { apply Qmult_le_compat_r; [|lra]. rewrite <- secs_one. apply secs_mono.
    unfold nanos_per_sec in Hn. lia. }
  destruct (least_spec (ap_capacity app)
    (tokens_remaining c + secs (now - last_refill c) * ap_refill app)) as (_ & _ & [He|He]);
    rewrite He in Hlt; [lra|].
  destruct (least_spec (ap_capacity app)
    (tokens_remaining c + secs (now' - last_refill c) * ap_refill app)) as (_ & H2 & _).
  match goal with |- (if ?b then _ else _) = None => destruct b eqn:Hb end; [|done].
  apply Qle_bool_iff in Hb. lra.
Qed.

(** *** Retry-After *)

Lemma clamp_ceil k :
  Qfloor (f_clamp (inject_Z k) one (f_of_Z 3600)) = Z.max 1 (Z.min 3600 k).
Proof.
  assert (∀ a b, f_leb (inject_Z a) (inject_Z b) = (a <=? b)%Z) as Hb.
  { intros a b. simpl. unfold Qle_bool. simpl. by rewrite !Z.mul_1_r. }
  unfold f_clamp, f_ltb. change (@one Q _) with (inject_Z 1).
  change (f_of_Z 3600 : Q) with (inject_Z 3600). rewrite !Hb.
  destruct (Z.leb_spec 1 k); cbn [negb]; [|rewrite Qfloor_Z; lia].
  destruct (Z.leb_spec k 3600); cbn [negb]; rewrite Qfloor_Z; lia.
Qed.

Lemma retry_after_adequate clock (c : Counter Q) refill :
  0 < refill →
  let r := compute_retry_after_seconds clock (Some c) refill in
  (1 ≤ r ≤ 3600)%Z ∧
  ((r < 3600)%Z → 1 <= tokens_remaining c
                       + secs (clock + r * nanos_per_sec - last_refill c) * refill).
Proof.
  intros Hr. unfold compute_retry_after_seconds.
  change (f_seconds (clock - last_refill c) : Q) with (secs (clock - last_refill c)).
  change (@zero Q _) with 0. cbn [f_leb f_sub f_add f_mul f_div f_ceil f_to_Z Q_float8].
  change (@one Q _) with 1.
  assert (Qle_bool refill 0 = false) as ->.
  { destruct (Qle_bool refill 0) eqn:Hb; [|done]. apply Qle_bool_iff in Hb. lra. }
  set (held := tokens_remaining c + secs (clock - last_refill c) * refill).
  assert (∀ n, tokens_remaining c + secs (clock + n * nanos_per_sec - last_refill c) * refill
               == held + inject_Z n * refill) as Hlater.
  { intros n. rewrite (accrues clock). unfold held.
    assert (secs (clock + n * nanos_per_sec - clock) == inject_Z n) as Hn.
    { unfold secs, Qeq, nanos_per_sec. simpl. lia. }
    rewrite Hn. ring. }
  destruct (Qle_bool (1 - held) 0) eqn:Hneed.
  - apply Qle_bool_iff in Hneed. split; [lia|]. intros _. rewrite Hlater.
    change (inject_Z 1) with 1. lra.
  - change (f_clamp (inject_Z (Qceiling ((1 - held) / refill))) 1 (f_of_Z 3600))
      with (f_clamp (inject_Z (Qceiling ((1 - held) / refill))) one (f_of_Z 3600)).
    rewrite clamp_ceil. split; [lia|]. intros Hlt. rewrite Hlater.
    set (k := Qceiling ((1 - held) / refill)) in *.
    assert ((1 - held) / refill <= inject_Z (Z.max 1 (Z.min 3600 k))) as Hk.
    { eapply Qle_trans; [apply Qle_ceiling|]. fold k. rewrite <- Zle_Qle. lia. }
    apply (Qmult_le_compat_r _ _ refill) in Hk; [|lra].
    rewrite Qmult_comm, Qmult_div_r in Hk by lra. lra.
Qed.

End Exact.


(** ** Administration of policies *)

Section Store.
Context `{Float8 F}.

Record RateLimitPolicy := {
  rl_id : uuid;
  rl_tenant_id : string;
  rl_name : string;
  rl_scope : QuotaScope;
  rl_scope_value : option string;
  rl_bucket_capacity : Z;
  rl_refill_per_second : F;
  rl_action : QuotaAction;
  rl_created_at : time;
  rl_updated_at : time;
}.

Definition inactive_reason (scope : QuotaScope) (action : QuotaAction) : option string :=
  if bool_decide (scope = SClient) then
    Some "Client-scoped quotas are not enforced. Delete this policy and choose a supported scope."
  else if bool_decide (action = CostBearing) then
    Some "Cost-bearing quotas are not enforced. Delete this policy and choose a supported action."
  else None.

Definition row_to_policy (r : PolicyRow F) : result RateLimitPolicy RateLimitStoreError :=
  let? scope := parse_scope (pr_scope r) in
  let? action := parse_action (pr_action r) in
  Ok {| rl_id := pr_id r; rl_tenant_id := pr_tenant_id r; rl_name := pr_name r;
        rl_scope := scope; rl_scope_value := pr_scope_value r;
        rl_bucket_capacity := pr_bucket_capacity r;
        rl_refill_per_second := pr_refill_per_second r; rl_action := action;
        rl_created_at := pr_created_at r; rl_updated_at := pr_updated_at r |}.

(** The table's [CHECK] constraints on limits and scope shape. *)
Definition row_checks (r : PolicyRow F) : bool :=
  (0 <? pr_bucket_capacity r) && f_ltb zero (pr_refill_per_second r)
  && (if bool_decide (pr_scope r = "tenant") then bool_decide (pr_scope_value r = None)
      else bool_decide (pr_scope_value r ≠ None)).

(** The unique index [(tenant_id, scope, COALESCE(scope_value, ''), action)]. *)
Definition index_key (r : PolicyRow F) : string * string * string * string :=
  (pr_tenant_id r, pr_scope r, default "" (pr_scope_value r), pr_action r).

(** [check_message] is the database's text for a violated check. *)
Definition create (check_message : string) (now : time) (id : uuid) (tenant name : string)
    (scope : QuotaScope) (scope_value : option string) (capacity : Z) (refill : F)
    (action : QuotaAction) (db : Db F) : result RateLimitPolicy RateLimitStoreError * Db F :=
  match inactive_reason scope action with
  | Some reason => (Err (InvalidShape reason), db)
  | None =>
      let r := {| pr_id := id; pr_tenant_id := tenant; pr_name := name;
                  pr_scope := scope_as_str scope; pr_scope_value := scope_value;
                  pr_bucket_capacity := capacity; pr_refill_per_second := refill;
                  pr_action := action_as_str action; pr_created_at := now;
                  pr_updated_at := now |} in
      if negb (row_checks r) then (Err (InvalidShape check_message), db)
      else if bool_decide (is_Some (policies db !! id))
              || existsb (λ x, bool_decide (index_key x = index_key r)) (policy_rows db)
      then (Err Conflict, db)
      else (row_to_policy r,
            {| policies := <[id := r]> (policies db); counters := counters db |})
  end.

Definition policy_where (tenant : string) (id : uuid) (db : Db F) : option (PolicyRow F) :=
  match policies db !! id with
  | Some r => if bool_decide (pr_tenant_id r = tenant) then Some r else None
  | None => None
  end.

Definition get (tenant : string) (id : uuid) (db : Db F)
  : result (option RateLimitPolicy) RateLimitStoreError :=
  match policy_where tenant id db with
  | None => Ok None
  | Some r => let? p := row_to_policy r in Ok (Some p)
  end.

(** [ORDER BY created_at ASC, id ASC] *)
Definition oldest_first (a b : PolicyRow F) : Prop :=
  pr_created_at a < pr_created_at b ∨
  (pr_created_at a = pr_created_at b ∧ (pr_id a ≤ pr_id b)%N).
#[export] Instance oldest_first_dec a b : Decision (oldest_first a b).
Proof. unfold oldest_first. apply _. Defined.

Fixpoint convert_all (l : list (PolicyRow F)) : result (list RateLimitPolicy) RateLimitStoreError :=
  match l with
  | [] => Ok []
  | r :: l' => let? p := row_to_policy r in let? ps := convert_all l' in Ok (p :: ps)
  end.

Definition list_policies (tenant : string) (db : Db F)
  : result (list RateLimitPolicy) RateLimitStoreError :=
  convert_all (merge_sort oldest_first (filter (λ r, pr_tenant_id r = tenant) (policy_rows db))).

Definition update (now : time) (tenant : string) (id : uuid) (capacity : option Z)
    (refill : option F) (db : Db F) : result (option RateLimitPolicy) RateLimitStoreError * Db F :=
  match policy_where tenant id db with
  | None => (Ok None, db)
  | Some r =>
      if bool_decide (pr_scope r ≠ "client") && bool_decide (pr_action r ≠ "cost_bearing")
      then
        let r' := {| pr_id := pr_id r; pr_tenant_id := pr_tenant_id r; pr_name := pr_name r;
                     pr_scope := pr_scope r; pr_scope_value := pr_scope_value r;
                     pr_bucket_capacity := default (pr_bucket_capacity r) capacity;
                     pr_refill_per_second := default (pr_refill_per_second r) refill;
                     pr_action := pr_action r; pr_created_at := pr_created_at r;
                     pr_updated_at := now |} in
        if negb (row_checks r') then (Err Sqlx, db)
        else (let? p := row_to_policy r' in Ok (Some p),
              {| policies := <[id := r']> (policies db); counters := counters db |})
      else
        (match row_to_policy r with
         | Err e => Err e
         | Ok p => match inactive_reason (rl_scope p) (rl_action p) with
                   | Some reason => Err (InvalidShape reason)
                   | None => Ok None
                   end
         end, db)
  end.

(** Deleting policies deletes their counters ([ON DELETE CASCADE]). *)
Definition drop_policies (doomed : PolicyRow F → bool) (db : Db F) : Db F :=
  {| policies := filter (λ x, doomed x.2 = false) (policies db);
     counters := filter (λ x, match policies db !! x.1.1 with
                              | Some r => doomed r
                              | None => false
                              end = false) (counters db) |}.

Definition delete (tenant : string) (id : uuid) (db : Db F) : bool * Db F :=
  match policy_where tenant id db with
  | Some _ => (true, drop_policies (λ r, bool_decide (pr_tenant_id r = tenant)
                                         && bool_decide (pr_id r = id)) db)
  | None => (false, db)
  end.

Definition delete_all_for_tenant (tenant : string) (db : Db F) : nat * Db F :=
  (length (filter (λ r, pr_tenant_id r = tenant) (policy_rows db)),
   drop_policies (λ r, bool_decide (pr_tenant_id r = tenant)) db).

(** ** The store's invariant *)

(** Rows under their ids, satisfying the checks, unique in the index; every
    counter belongs to a stored policy. *)
Record db_ok (db : Db F) : Prop := {
  ok_keyed : keyed db;
  ok_checks : ∀ id r, policies db !! id = Some r → row_checks r = true;
  ok_index : ∀ id1 id2 r1 r2, policies db !! id1 = Some r1 → policies db !! id2 = Some r2 →
               index_key r1 = index_key r2 → id1 = id2;
  ok_counters : ∀ id k, is_Some (counters db !! (id, k)) → is_Some (policies db !! id);
}.

Lemma policy_rows_elem (db : Db F) id r : policies db !! id = Some r → r ∈ policy_rows db.
Proof.
  intros Hr. unfold policy_rows. apply list_elem_of_fmap. exists (id, r).
  split; [done|]. by apply elem_of_map_to_list.
Qed.

(** Storing a row under its id, its index key shared by no other row. *)
Lemma insert_policy_ok db id r :
  db_ok db → pr_id r = id → row_checks r = true →
  (∀ id' r', policies db !! id' = Some r' → index_key r' = index_key r → id' = id) →
  db_ok {| policies := <[id := r]> (policies db); counters := counters db |}.
Proof.
  intros [Hk Hc Hi Hn] Hid Hrc Hfree. split.
  - intros i x. simpl. intros [[<- <-]|[_ Hx]]%lookup_insert_Some; [done|by apply Hk].
  - intros i x. simpl. intros [[<- <-]|[_ Hx]]%lookup_insert_Some; [done|by eapply Hc].
  - intros i j x y. simpl.
    intros [[<- <-]|[? Hx]]%lookup_insert_Some [[<- <-]|[? Hy]]%lookup_insert_Some He; [done|..].
    + symmetry. by eapply Hfree.
    + by eapply Hfree.
    + by eapply Hi.
  - intros i k Hik. simpl. destruct (decide (i = id)) as [->|]; [by rewrite lookup_insert_eq|].
    rewrite lookup_insert_ne by done. by eapply Hn.
Qed.

Lemma create_ok msg now id tenant name scope value capacity refill action db :
  db_ok db → db_ok (create msg now id tenant name scope value capacity refill action db).2.
Proof.
  intros Hok. unfold create. destruct (inactive_reason scope action); [done|].
  set (r := Build_PolicyRow _ _ _ _ _ _ _ _ _ _).
  destruct (row_checks r) eqn:Hrc; simpl; [|done].
  destruct (bool_decide (is_Some (policies db !! id)) || _) eqn:Hex; simpl; [done|].
  bool_to_prop. apply insert_policy_ok; try done. intros id' r' Hr' He.
  assert (existsb (λ x, bool_decide (index_key x = index_key r)) (policy_rows db) = true);
    [|congruence].
  apply existsb_exists. exists r'. split; [by eapply list_elem_of_In, policy_rows_elem|].
  by apply bool_decide_eq_true.
Qed.

Lemma policy_where_Some tenant id (db : Db F) r :
  policy_where tenant id db = Some r → policies db !! id = Some r ∧ pr_tenant_id r = tenant.
Proof.
  unfold policy_where. destruct (policies db !! id); [|done]. case_bool_decide; [|done].
  intros; by simplify_eq.
Qed.

Lemma update_ok now tenant id capacity refill db :
  db_ok db → db_ok (update now tenant id capacity refill db).2.
Proof.
  intros Hok. unfold update. destruct (policy_where tenant id db) as [r|] eqn:Hw; [|done].
  apply policy_where_Some in Hw as [Hr _]. destruct (_ && _); [|done].
  match goal with |- context [row_checks ?x] => set (r' := x) end.
  destruct (row_checks r') eqn:Hrc; simpl; [|done].
  apply insert_policy_ok; try done; [exact (ok_keyed _ Hok id r Hr)|].
  intros i x Hx He. eapply (ok_index _ Hok); eauto.
Qed.

Lemma drop_policies_ok doomed db : db_ok db → db_ok (drop_policies doomed db).
Proof.
  intros [Hk Hc Hi Hn]. unfold drop_policies. split; simpl.
  - intros i x [Hx _]%map_lookup_filter_Some. by apply Hk.
  - intros i x [Hx _]%map_lookup_filter_Some. by eapply Hc.
  - intros i j x y [Hx _]%map_lookup_filter_Some [Hy _]%map_lookup_filter_Some. by eapply Hi.
  - intros i k [c [Hc' Hd]%map_lookup_filter_Some]. simpl in Hd.
    destruct (Hn i k ltac:(by eexists)) as [r Hr]. rewrite Hr in Hd.
    exists r. apply map_lookup_filter_Some. done.
Qed.

Lemma serve_ok q db : db_ok db → db_ok (serve q db).2.
Proof.
  intros Hok. pose proof Hok as [Hk Hc Hi Hn]. split.
  - unfold keyed. by rewrite serve_policies.
  - by rewrite serve_policies.
  - by rewrite serve_policies.
  - intros id k [c Hck]. rewrite serve_policies.
    destruct (serve_counter _ _ _ _ Hk Hck) as [Hold|(app & Happ & Hb & _)]; [by eapply Hn|].
    destruct (governing_policy _ _ _ _ Hk Happ) as (r & Hr & _).
    unfold bucket in Hb. simplify_eq. by eexists.
Qed.

(** The operations of the store and the service, as values. *)
Inductive Op :=
  | OCreate (msg : string) (now : time) (id : uuid) (tenant name : string) (scope : QuotaScope)
      (value : option string) (capacity : Z) (refill : F) (action : QuotaAction)
  | OUpdate (now : time) (tenant : string) (id : uuid) (capacity : option Z) (refill : option F)
  | ODelete (tenant : string) (id : uuid)
  | ODeleteAll (tenant : string)
  | OServe (q : Request).

Definition exec (o : Op) (db : Db F) : Db F :=
  match o with
  | OCreate msg now id tenant name scope value capacity refill action =>
      (create msg now id tenant name scope value capacity refill action db).2
  | OUpdate now tenant id capacity refill => (update now tenant id capacity refill db).2
  | ODelete tenant id => (delete tenant id db).2
  | ODeleteAll tenant => (delete_all_for_tenant tenant db).2
  | OServe q => (serve q db).2
  end.

Lemma exec_ok o db : db_ok db → db_ok (exec o db).
Proof.
  intros Hok. destruct o; simpl; [by apply create_ok|by apply update_ok| | |by apply serve_ok].
  - unfold delete. destruct (policy_where tenant id db); [by apply drop_policies_ok|done].
  - by apply drop_policies_ok.
Qed.

End Store.
Arguments Op F : clear implicits.

(** ** The contract of a consuming check, on the policy rows *)

Section Contract.
Context `{Float8 F}.
Implicit Types (db : Db F) (r : PolicyRow F).

(** The bucket a scope names in a call. *)
Inductive scope_bucket (ctx : QuotaContext) : string → string → Prop :=
  | SbTenant : scope_bucket ctx "tenant" (ctx_tenant_id ctx)
  | SbPrincipal s : ctx_principal_sub ctx = Some s → scope_bucket ctx "principal" s
  | SbClient s : ctx_client_id ctx = Some s → scope_bucket ctx "client" s
  | SbServer : scope_bucket ctx "server" (ctx_server ctx)
  | SbTool : scope_bucket ctx "tool" (ctx_fq_tool ctx).

(** Row [r] limits the call at bucket [key]. *)
Record governs (ctx : QuotaContext) (actions : list QuotaAction) (db : Db F)
    (r : PolicyRow F) (key : string) : Prop := {
  gv_row : policies db !! pr_id r = Some r;
  gv_tenant : pr_tenant_id r = ctx_tenant_id ctx;
  gv_action : ∃ a, a ∈ actions ∧ pr_action r = action_as_str a;
  gv_key : scope_bucket ctx (pr_scope r) key;
  gv_value : ∀ v, pr_scope_value r = Some v → v = key;
}.

(** What a bucket holds at [now]: the whole capacity at first use, afterwards
    what was left plus the refill since, never more than the capacity. *)
Definition holds (r : PolicyRow F) (cur : option (Counter F)) (now : time) : F :=
  match cur with
  | None => f_of_Z (pr_bucket_capacity r)
  | Some c =>
      least (f_of_Z (pr_bucket_capacity r))
        (f_add (tokens_remaining c)
           (f_mul (f_seconds (now - last_refill c)) (pr_refill_per_second r)))
  end.

(** A bucket in use that holds less than one token. *)
Definition exhausted (r : PolicyRow F) (cur : option (Counter F)) (now : time) : Prop :=
  is_Some cur ∧ f_leb (f_of_Z 1) (holds r cur now) = false.

Lemma bucket_key_scope ctx scope key :
  bucket_key ctx scope = Some key ↔ scope_bucket ctx scope key.
Proof.
  split.
  - unfold bucket_key. repeat case_bool_decide; intros; simplify_eq; by constructor.
  - by destruct 1.
Qed.

Lemma resolve_Some ctx r app :
  resolve ctx r = Some app ↔
  scope_bucket ctx (pr_scope r) (ap_bucket_key app) ∧
  (∀ v, pr_scope_value r = Some v → v = ap_bucket_key app) ∧
  app = {| ap_policy_id := pr_id r; ap_name := pr_name r; ap_scope := pr_scope r;
           ap_bucket_key := ap_bucket_key app; ap_capacity := f_of_Z (pr_bucket_capacity r);
           ap_refill := pr_refill_per_second r |}.
Proof.
  unfold resolve. rewrite <- bucket_key_scope. destruct (bucket_key ctx (pr_scope r)) as [k|]; [|naive_solver].
  destruct (pr_scope_value r) as [v|]; [case_bool_decide; subst|];
    (split; [intros; simplify_eq/=; naive_solver|]); intros (? & Hv & He); simplify_eq; try naive_solver.
  - by rewrite He.
  - by rewrite He.
Qed.

Lemma governing_elem ctx actions db app :
  keyed db →
  app ∈ governing ctx actions db ↔
  ∃ r, governs ctx actions db r (ap_bucket_key app) ∧ resolve ctx r = Some app.
Proof.
  intros Hk. assert (app ∈ governing ctx actions db ↔ app ∈ applicable_policies ctx actions db) as ->.
  { destruct actions; [|done]. simpl. split; [intros Hin; inversion Hin|].
    intros (r & Hr & _)%list_elem_of_omap. rewrite merge_sort_Permutation, list_elem_of_filter in Hr.
    destruct Hr as [Hs _]. unfold selected in Hs. bool_to_prop. simpl in *. set_solver. }
  unfold applicable_policies. rewrite list_elem_of_omap. apply base.exist_proper. intros r.
  rewrite merge_sort_Permutation, list_elem_of_filter. split.
  - intros [[Hs Hr] Hres]. split; [|done]. pose proof Hres as (Hsc & Hv & _)%resolve_Some.
    unfold selected in Hs. bool_to_prop. unfold policy_rows in Hr.
    apply list_elem_of_fmap in Hr as ([id x] & -> & Hr%elem_of_map_to_list). simpl in *.
    split; try done; [by rewrite (Hk id x Hr)|]. set_solver.
  - intros [[Hr Ht (a & Ha & Hact) _ _] Hres]. split; [|done]. split.
    + unfold selected. rewrite !bool_decide_eq_true_2; [done| |done]. set_solver.
    + unfold policy_rows. apply list_elem_of_fmap. exists (pr_id r, r).
      split; [done|]. by apply elem_of_map_to_list.
Qed.

(** A row that governs is among the policies the call is checked against. *)
Lemma governs_governing ctx actions db r key :
  keyed db → governs ctx actions db r key →
  ∃ app, app ∈ governing ctx actions db ∧ resolve ctx r = Some app ∧
         bucket app = (pr_id r, key) ∧ ap_policy_id app = pr_id r.
Proof.
  intros Hk Hg.
  set (app := {| ap_policy_id := pr_id r; ap_name := pr_name r; ap_scope := pr_scope r;
                 ap_bucket_key := key; ap_capacity := f_of_Z (pr_bucket_capacity r);
                 ap_refill := pr_refill_per_second r |} : ApplicablePolicy F).
  assert (resolve ctx r = Some app) as Hres by (apply resolve_Some; destruct Hg; done).
  exists app. split; [|done]. apply governing_elem; [done|]. by exists r.
Qed.

Lemma governing_sorted ctx actions db :
  StronglySorted N.le (ap_policy_id <$> governing ctx actions db).
Proof. unfold governing. destruct actions; [constructor|apply applicable_sorted]. Qed.

Lemma lower_is_before (l1 l2 : list (ApplicablePolicy F)) app app' :
  StronglySorted N.le (ap_policy_id <$> l1 ++ app :: l2) → app' ∈ l1 ++ app :: l2 →
  (ap_policy_id app' < ap_policy_id app)%N → app' ∈ l1.
Proof.
  rewrite fmap_app, fmap_cons. intros Hs Hin Hlt.
  apply elem_of_app in Hin as [?|[->|Hin]%elem_of_cons]; [done|lia|].
  apply StronglySorted_app_1_r in Hs. inversion Hs as [|? ? _ Hall]; subst.
  rewrite Forall_fmap, Forall_forall in Hall. specialize (Hall _ Hin). simpl in Hall. lia.
Qed.

(** The upsert in terms of what the bucket holds. *)
Lemma debit_holds ctx r app now m :
  resolve ctx r = Some app →
  debit app now m =
  if decide (exhausted r (m !! bucket app) now) then None
  else Some {| tokens_remaining := f_sub (holds r (m !! bucket app) now) (f_of_Z 1);
               last_refill := now |}.
Proof.
  intros (_ & _ & ->)%resolve_Some. unfold debit, exhausted, holds, tokens_now, one. simpl.
  destruct (m !! _) as [c|]; [|case_decide as Hd; [by destruct Hd as [[? ?] _]|done]].
  destruct (f_leb _ _); case_decide as Hd; try done; [by destruct Hd|]. destruct Hd. by split.
Qed.

End Contract.

(** ** Properties *)

(** C15. A consuming check is all or nothing, on the policy rows that govern the
    call (the tenant's rows for one of the actions whose scope names a bucket in
    this call, of the row's own value where it has one). A bucket holds its
    capacity at first use, and otherwise what was left plus the refill since the
    last debit, capped at the capacity. If the check succeeds, no governing bucket
    was exhausted (in use and below one token), each is left with exactly one token
    less than it held, stamped now, and no other counter and no policy changes; if
    it is denied, nothing at all changes, and the error names the governing policy
    with the lowest id whose bucket is exhausted. Policy rows are stored under
    their ids. *)
Theorem consume_all_or_nothing `{Float8 F} clock now ctx actions (db : Db F) :
  keyed db →
  match check_and_consume clock now ctx actions db with
  | (Ok _, db') =>
      policies db' = policies db ∧
      (∀ r key, governs ctx actions db r key →
         let cur := counters db !! (pr_id r, key) in
         ¬ exhausted r cur now ∧
         counters db' !! (pr_id r, key) =
           Some {| tokens_remaining := f_sub (holds r cur now) (f_of_Z 1); last_refill := now |}) ∧
      (∀ k, (∀ r key, governs ctx actions db r key → (pr_id r, key) ≠ k) →
         counters db' !! k = counters db !! k)
  | (Err e, db') =>
      db' = db ∧
      ∃ r key, governs ctx actions db r key ∧
        exhausted r (counters db !! (pr_id r, key)) now ∧
        (∀ r' key', governs ctx actions db r' key' → (pr_id r' < pr_id r)%N →
           ¬ exhausted r' (counters db !! (pr_id r', key')) now) ∧
        e = RateLimited (pr_id r) (pr_name r)
              (compute_retry_after_seconds clock (counters db !! (pr_id r, key))
                 (pr_refill_per_second r))
  end.
Proof.
  intros Hk. rewrite check_and_consume_eq.
  pose proof (governing_NoDup ctx actions db Hk) as Hnd.
  destruct (debit_all now (governing ctx actions db) (counters db)) as [m|[app m]] eqn:Hd.
  - destruct (debit_all_Ok _ _ _ _ Hnd Hd) as [Hin Hout]. split; [done|]. split.
    + intros r key Hg. destruct (governs_governing _ _ _ _ _ Hk Hg) as (app & Ha & Hres & Hb & _).
      destruct (Hin app Ha) as (c & Hc & Hm). rewrite (debit_holds _ _ _ _ _ Hres) in Hc.
      rewrite Hb in Hc, Hm. case_decide; simplify_eq/=. done.
    + intros k Hno. apply Hout. intros app (r & Hg & Hres)%governing_elem; [|done].
      pose proof (resolve_id _ _ _ Hres) as Hid. unfold bucket. rewrite Hid. by apply Hno.
  - destruct (debit_all_Err _ _ _ _ _ Hnd Hd) as (l1 & l2 & He & Hall & Hdn & Hm).
    split; [done|]. assert (app ∈ governing ctx actions db) as Ha by (rewrite He; set_solver).
    apply governing_elem in Ha as (r & Hg & Hres); [|done].
    pose proof (resolve_id _ _ _ Hres) as Hid. pose proof Hres as (_ & _ & Happ)%resolve_Some.
    assert (bucket app = (pr_id r, ap_bucket_key app)) as Hb by (unfold bucket; by rewrite Hid).
    rewrite (debit_holds _ _ _ _ _ Hres), Hb in Hdn. rewrite Hm, Hb.
    exists r, (ap_bucket_key app). split; [done|]. case_decide as Hex; [|done]. split; [done|].
    split; [|by rewrite Happ].
    intros r' key' Hg' Hlt Hex'.
    destruct (governs_governing _ _ _ _ _ Hk Hg') as (app' & Ha' & Hres' & Hb' & Hid').
    assert (app' ∈ l1) as Hl1.
    { eapply lower_is_before; [|rewrite <- He; exact Ha'|lia].
      rewrite <- He. apply governing_sorted. }
    rewrite Forall_forall in Hall. destruct (Hall app' Hl1) as [c Hc].
    rewrite (debit_holds _ _ _ _ _ Hres'), Hb' in Hc. by case_decide.
Qed.

Definition demo_row (id : uuid) (scope : QuotaScope) (value : option string) (capacity : Z)
    (refill : Q) : PolicyRow Q :=
  {| pr_id := id; pr_tenant_id := "acme"; pr_name := "p"; pr_scope := scope_as_str scope;
     pr_scope_value := value; pr_bucket_capacity := capacity; pr_refill_per_second := refill;
     pr_action := "call"; pr_created_at := 0; pr_updated_at := 0 |}.

(** Ten calls for the tenant, two for one server, a tenth of a token a second. *)
Definition demo_db : Db Q :=
  {| policies := <[1%N := demo_row 1 STenant None 10 (1 # 10)]>
                   (<[2%N := demo_row 2 SServer (Some "github") 2 (1 # 10)]> ∅);
     counters := ∅ |}.

Definition demo_ctx (server : string) : QuotaContext :=
  {| ctx_tenant_id := "acme"; ctx_principal_sub := Some "alice"; ctx_client_id := None;
     ctx_server := server; ctx_fq_tool := server +:+ ".x" |}.

Definition demo_request (t : time) : Request :=
  {| rq_clock := t; rq_now := t; rq_ctx := demo_ctx "github"; rq_actions := [Call] |}.

(** Two calls use up the server's bucket. *)
Definition drained : Db Q :=
  (serve_all [demo_request 0; demo_request (5 * nanos_per_sec)] demo_db).2.

Lemma demo_policies_keyed (db : Db Q) : policies db = policies demo_db → keyed db.
Proof.
  intros Hp id r. rewrite Hp. simpl. intros [[<- <-]|[_ Hr]]%lookup_insert_Some; [done|].
  apply lookup_insert_Some in Hr as [[<- <-]|[_ Hr]]; [done|]. by rewrite lookup_empty in Hr.
Qed.

Lemma demo_limits id r :
  policies demo_db !! id = Some r → 1 ≤ pr_bucket_capacity r ∧ (0 < pr_refill_per_second r)%Q.
Proof.
  simpl. intros [[_ <-]|[_ Hr]]%lookup_insert_Some; [by split|].
  apply lookup_insert_Some in Hr as [[_ <-]|[_ Hr]]; [by split|]. by rewrite lookup_empty in Hr.
Qed.

Lemma demo_keyed : keyed demo_db.
Proof. by apply demo_policies_keyed. Qed.
Lemma drained_keyed : keyed drained.
Proof. apply demo_policies_keyed. vm_compute. reflexivity. Qed.

Lemma consume_all_or_nothing_witness :
  ∃ e, check_and_consume 6000000000 6000000000 (demo_ctx "github") [Call] drained = (Err e, drained)
       ∧ e = RateLimited 2 "p" 4.
Proof.
  pose proof (consume_all_or_nothing 6000000000 6000000000 (demo_ctx "github") [Call] drained
    drained_keyed) as H. cbn zeta in H.
  destruct (check_and_consume 6000000000 6000000000 (demo_ctx "github") [Call] drained)
    as [[u|e] db'] eqn:Hc; [vm_compute in Hc; discriminate Hc|].
  destruct H as (-> & _). exists e. split; [reflexivity|].
  vm_compute in Hc. injection Hc as <-. reflexivity.
Defined.

(** The rate a policy promises is kept: over any run of requests with
    non-decreasing transaction times between two instants, whatever other policies
    they fall under, the requests served at the expense of one bucket number at
    most its capacity plus the refill over that interval. *)
Theorem token_bucket_rate id key (row : PolicyRow Q) (db : Db Q) qs t0 t1 :
  limited id row db → sane (counters db !! (id, key)) t0 → chain t0 qs t1 →
  (inject_Z (Z.of_nat (spent (id, key) qs db))
   <= inject_Z (pr_bucket_capacity row) + secs (t1 - t0) * pr_refill_per_second row)%Q.
Proof.
  intros Hl Hs Hc. eapply Qle_trans; [by apply (spent_bound id key row)|].
  apply Qplus_le_compat; [apply available_cap|apply Qle_refl].
Qed.

Lemma token_bucket_rate_witness :
  (inject_Z (Z.of_nat (spent (2%N, "github")
     [demo_request 0; demo_request 5000000000; demo_request 6000000000;
      demo_request 20000000000] demo_db))
   <= inject_Z 2 + secs 20000000000 * (1 # 10))%Q
  ∧ spent (2%N, "github") [demo_request 0; demo_request 5000000000; demo_request 6000000000;
      demo_request 20000000000] demo_db = 3%nat.
Proof.
  split; [|vm_compute; reflexivity].
  apply (token_bucket_rate 2 "github" (demo_row 2 SServer (Some "github") 2 (1 # 10)) demo_db
    [demo_request 0; demo_request 5000000000; demo_request 6000000000; demo_request 20000000000]
    0 20000000000).
  - split; [apply demo_keyed|]. split; [reflexivity|]. split; [discriminate|reflexivity].
  - exact I.
  - repeat split; discriminate.
Defined.

(** Buckets stay within bounds under rounding too: with order laws only of
    the numbers, whatever the requests and the clocks do, every counter of a
    policy stays between zero and one less than its capacity. *)
Theorem counters_stay_in_bounds `{FloatOrder F} (qs : list Request) (db : Db F) :
  keyed db → (∀ id r, policies db !! id = Some r → 1 ≤ pr_bucket_capacity r) →
  in_bounds db → in_bounds (serve_all qs db).2.
Proof.
  revert db. induction qs as [|q qs IH]; intros db Hk Hcap Hb; simpl; [done|].
  pose proof (serve_bounds q db Hk Hcap Hb) as Hb'. pose proof (serve_policies q db) as Hp.
  destruct (serve q db) as [a db']. simpl in *.
  assert (in_bounds (serve_all qs db').2) as Hr.
  { apply IH; [unfold keyed; by rewrite Hp|by rewrite Hp|done]. }
  by destruct (serve_all qs db').
Qed.

Lemma counters_stay_in_bounds_witness :
  in_bounds (serve_all [demo_request 0; demo_request 5; demo_request (-7)] demo_db).2.
Proof.
  apply (counters_stay_in_bounds [demo_request 0; demo_request 5; demo_request (-7)] demo_db).
  - apply demo_keyed.
  - apply demo_limits.
  - intros id k c r Hc. simpl in Hc. by rewrite lookup_empty in Hc.
Defined.

(** The advisory probe never refuses early what the consuming check would
    serve: if the probe denies a call, the consuming check denies it too, without
    touching any bucket, at every transaction time within the following second. *)
Theorem probe_denial_is_final_for_a_second clock clock' now now' ctx actions (db : Db Q) e :
  keyed db →
  (∀ id r, policies db !! id = Some r →
     1 ≤ pr_bucket_capacity r ∧ (0 < pr_refill_per_second r)%Q) →
  now ≤ now' ≤ now + nanos_per_sec →
  check clock now ctx actions db = Err e →
  ∃ e', check_and_consume clock' now' ctx actions db = (Err e', db).
Proof.
  intros Hk Hlim Hn Hc. rewrite check_and_consume_eq.
  assert (∃ app, app ∈ governing ctx actions db ∧ probe_denies now app db = true) as (app & Happ & Hp).
  { unfold check, governing in *. destruct actions; [done|]. by eapply probe_all_Err. }
  destruct (governing_policy _ _ _ _ Hk Happ) as (r & Hr & Hres).
  destruct (Hlim _ _ Hr) as [Hcap Hrf]. destruct (resolve_limits _ _ _ Hres) as [Hc1 Hc2].
  assert (debit app now' (counters db) = None) as Hd.
  { apply (probe_denies_debit now); try done; [|by rewrite Hc2].
    rewrite Hc1. simpl. change 1%Q with (inject_Z 1). rewrite <- Zle_Qle. done. }
  destruct (debit_all now' _ (counters db)) as [m|[a m]] eqn:Hall; [|by eexists].
  destruct (debit_all_Ok _ _ _ _ (governing_NoDup _ _ _ Hk) Hall) as [Hin _].
  destruct (Hin app Happ) as (c & Hs & _). congruence.
Qed.

Lemma probe_denial_is_final_for_a_second_witness :
  ∃ e', check_and_consume 0 6500000000 (demo_ctx "github") [Call] drained = (Err e', drained).
Proof.
  apply (probe_denial_is_final_for_a_second 6000000000 0 6000000000 6500000000 (demo_ctx "github")
    [Call] drained (RateLimited 2 "p" 4)).
  - apply drained_keyed.
  - assert (policies drained = policies demo_db) as -> by (vm_compute; reflexivity).
    apply demo_limits.
  - unfold nanos_per_sec. split; discriminate.
  - vm_compute. reflexivity.
Defined.

(** The Retry-After hint is between one second and an hour, and a client that
    waits it out finds a token, unless the hint was capped at the hour, if nobody
    else takes it meanwhile and the two clocks agree. *)
Theorem retry_after_is_adequate clock (c : Counter Q) (refill cap : Q) :
  (0 < refill)%Q → (1 <= cap)%Q →
  let r := compute_retry_after_seconds clock (Some c) refill in
  1 ≤ r ≤ 3600 ∧ (r < 3600 → (1 <= available cap refill (Some c) (clock + r * nanos_per_sec))%Q).
Proof.
  intros Hr Hcap. cbn zeta. destruct (retry_after_adequate clock c refill Hr) as [Hb Ha].
  split; [done|]. intros Hlt. specialize (Ha Hlt). unfold available.
  destruct (least_spec cap (tokens_remaining c + secs (clock
    + compute_retry_after_seconds clock (Some c) refill * nanos_per_sec - last_refill c) * refill)%Q)
    as (_ & _ & [->| ->]); done.
Qed.

Lemma retry_after_is_adequate_witness :
  1 ≤ compute_retry_after_seconds 6000000000
        (Some {| tokens_remaining := (1 # 2)%Q; last_refill := 5000000000 |}) (1 # 10)%Q ≤ 3600
  ∧ compute_retry_after_seconds 6000000000
      (Some {| tokens_remaining := (1 # 2)%Q; last_refill := 5000000000 |}) (1 # 10)%Q = 4.
Proof.
  split; [|vm_compute; reflexivity].
  apply (retry_after_is_adequate 6000000000
    {| tokens_remaining := (1 # 2)%Q; last_refill := 5000000000 |} (1 # 10) 2);
    [reflexivity|discriminate].
Defined.

(** The tables stay consistent: under any interleaving of administration and
    consumption, rows stay under their own ids, satisfy the limits' checks, are
    unique per tenant, scope, value and action, and no counter outlives its
    policy. *)
Theorem quota_tables_invariant `{Float8 F} (ops : list (Op F)) (db : Db F) :
  db_ok db → db_ok (foldl (λ db o, exec o db) db ops).
Proof. revert db. induction ops as [|o ops IH]; intros db Hok; [done|]. by apply IH, exec_ok. Qed.

Lemma quota_tables_invariant_witness :
  db_ok (foldl (λ db o, exec o db) {| policies := ∅; counters := ∅ |}
    [OCreate "check" 0 1 "acme" "p" STenant None 10 (1 # 10)%Q Call; OServe (demo_request 0);
     ODelete "acme" 1]).
Proof.
  apply quota_tables_invariant. split; simpl.
  - intros i r Hr. simpl in Hr. by rewrite lookup_empty in Hr.
  - intros i r Hr. by rewrite lookup_empty in Hr.
  - intros i j x y Hx. by rewrite lookup_empty in Hx.
  - intros i k [c Hc]. by rewrite lookup_empty in Hc.
Defined.

End Quota.
