(* ===== verification/Pipeline.v ===== *)
(** * The invocation pipeline: collaborators, context and monad

    The default invocation service (crates/waygate-mcp/src/invocation) awaits other
    components at every stage. Each such call is a constructor of [Seam]; a stage
    is a program over the context of one call that performs seams and may fail
    with an [InvocationError] ([M]). Nothing is assumed of the answers, so what is
    proved of every run holds whatever the catalogue, the gate, the stores and the
    upstream do.

    The fields [resolve_tool] fills in (snapshot, effective facts, operation) are
    not optional here: the context exists from that stage on, which is the
    invariant the source's accessors assert. *)

From S2P Require Import Prelude RustStr HashChain Facts Authz Evidence Quota Interact EmailRecipients ToolSnapshot Validation Continuation InvocationTypes Retained.

Module Pipeline.
Import HashChain.HashChain(Uuid, InvocationHierarchy).
Export Interact.Interact InvocationTypes.InvocationTypes Retained.Retained.
Export Authz.Authz(AuthzVerdict, Allow, Deny, StepUpRequired, ApprovalRequired, is_allow, policy_ids).
Export Evidence.Evidence(AuditEvent, AuditOutcome, Success, ExecutionError, Denied, StepUpNeeded, AuditMode, BestEffort, FailClosed).
Import Quota.Quota(QuotaContext, QuotaAction, QuotaError).

(** ** Stages *)

Inductive InvocationStage :=
  | ResolveTool | ValidateInput | ExtractFacts | Authorize | CheckProfileRestrictions
  | PrepareOutputValidation | CheckQuota | CheckApproval | RecordPreCall | PrepareFileInputs
  | Dispatch | InspectResponse | PrepareFileOutputs | ValidateOutput | RecordOutcome.

#[export] Instance InvocationStage_eq_dec : EqDecision InvocationStage.
Proof. solve_decision. Defined.

Definition ALL : list InvocationStage :=
  [ResolveTool; ValidateInput; ExtractFacts; Authorize; CheckProfileRestrictions;
   PrepareOutputValidation; CheckQuota; CheckApproval; RecordPreCall; PrepareFileInputs;
   Dispatch; InspectResponse; PrepareFileOutputs; ValidateOutput; RecordOutcome].

(** ** What is exchanged with the collaborators *)

Inductive CachedValidator := ReadyValidator (v : Validator) | InvalidSchema.

Record GrantExecutionBinding := {
  gb_execution_id : Uuid;
  gb_source_digest : string;
  gb_call_id : Uuid;
}.

Record GrantLookup := {
  gl_tenant_id : string;
  gl_principal_sub : string;
  gl_principal_issuer : string;
  gl_client_id : option string;
  gl_tool_id : uuid;
  gl_argument_hash : string;
  gl_execution_binding : option GrantExecutionBinding;
}.

Record ApprovalGrant := { grant_id : uuid; grant_approver : string }.

Record NewInvocationRequest := {
  nr_tenant : string;
  nr_principal_issuer : string;
  nr_principal_sub : string;
  nr_tool_id : uuid;
  nr_server : string;
  nr_tool : string;
  nr_behavior_hash : string;
  nr_argument_hash : string;
  nr_summary : ApprovalSummary;
  nr_argument_values : list (string * Value);
  nr_undisclosed_fields : Z;
}.

Record InspectionContext := {
  ic_tenant : string;
  ic_principal_sub : option string;
  ic_server : string;
  ic_tool : string;
  ic_risk : RiskTier;
  ic_pii_classified : bool;
}.

Inductive Decision :=
  | Pass
  | Block (reason : string)
  | Redact (redacted : CallToolResult) (findings_count : Z).

Record FileInputContext := {
  fi_principal : option (Principal Value);
  fi_server : string;
  fi_tool : string;
  fi_invocation_id : Uuid;
  fi_admitted_contract : InvocationContractIdentity;
  fi_compiled_input_schema : option Validator;
}.

Record FileOutputContext := {
  fo_principal : option (Principal Value);
  fo_server : string;
  fo_tool : string;
  fo_invocation_id : Uuid;
}.

Record PreparedFileOutput := {
  po_result : CallToolResult;
  po_batch_id : option string;
  po_file_count : Z;
}.

Record RetainedFileBody := {
  rb_upstream_uri : string;
  rb_media_type : string;
  rb_bytes : bytes;
  rb_sensitive : bool;
}.

Record PreparedRetainedFile := {
  pr_file : FileValue;
  pr_batch_id : string;
  pr_file_count : Z;
}.

Record ResourceClaim := {
  uri_prefix : string;
  claim_risk : RiskTier;
}.

Inductive ReadError :=
  | Mcp (e : ErrorData)
  | Transport.

(** One dispatch: what leaves for the upstream and the contract it is bound to. *)
Record DispatchCall := {
  dc_server : string;
  dc_tool : string;
  dc_arguments : option (list (string * Value));
  dc_principal : option (Principal Value);
  dc_admitted : InvocationContractIdentity;
  dc_input_responses : option (list (string * Value));
  dc_request_state : option string;
  dc_caller_capabilities : option ClientCapabilities;
  dc_approval_gated : bool;
  dc_task_binding : option string;
}.

(** ** The seams *)

Inductive Seam :=
  | EnterStage (s : InvocationStage)
  | Fresh                                             (* a new event id and the clock *)
  | TraceId
  | ResolveInvocationTool (tenant server tool : string)
  | InlineThreshold
  | MayDiscoverServer (p : Principal Value) (server : string)
  | RecordChained (e : AuditEvent)
  | RecordRequired (e : AuditEvent)
  | CompileSchema (tool_id : uuid) (key : string) (schema : Value)
  | AuthorizeToolCall (f : Facts Value)
  | CheckAndConsume (q : QuotaContext) (actions : list QuotaAction)
  | ClaimGrant (l : GrantLookup)
  | RetainPending (r : NewInvocationRequest)
  | NotifyApproval (n : HitlApprovalNeeded)
  | TaskBindingOf (server : string)
  | AdmitFiles (schema : option Value) (v : option Validator) (args : option (list (string * Value)))
      (responses : option (list (string * Value))) (keys : list string)
  | AdmitDispatch (d : AdmittedDispatch)
  | DeliverFiles (f : FileInputContext) (schema : option Value) (args : option (list (string * Value)))
  | DeliverContinuation (f : FileInputContext) (responses : list (string * Value)) (keys : list string)
  | DispatchTool (d : DispatchCall)
  | RoutingClaims
  | ResourceClaims (server : string)
  | AuthorizeResourceRead (p : Principal Value) (server uri : string) (risk : RiskTier)
  | ReadResource (server uri : string) (limit : Z)
  | Inspect (inspector : string) (ic : InspectionContext) (r : CallToolResult)
  | PrepareFiles (f : FileOutputContext) (r : CallToolResult)
  | PrepareRetained (f : FileOutputContext) (b : RetainedFileBody)
  | PublishFiles (batch_id : string) (file_count : Z)
  | DiscardFiles (batch_id : string)
  | UnixTime
  | Seal (c : SealedContinuation)
  | Unseal (sealed : string)
  | RegisterTask (r : TaskRoute) (t : Task)
  | InvokeModel (server tool : string) (args : option (list (string * Value))).

#[export] Instance Seam_effect : Effect Seam := λ s,
  match s with
  | EnterStage _ | RecordChained _ | NotifyApproval _ | DiscardFiles _ => unit
  | Fresh => (Uuid * time)%type
  | TraceId => string
  | ResolveInvocationTool _ _ _ => ResolvedInvocationTool
  | InlineThreshold => result (option Z) ErrorData
  | MayDiscoverServer _ _ => bool
  | RecordRequired _ => bool
  | CompileSchema _ _ _ => CachedValidator
  | AuthorizeToolCall _ => AuthzVerdict
  | CheckAndConsume _ _ => result unit QuotaError
  | ClaimGrant _ => result (option ApprovalGrant) unit
  | RetainPending _ => option uuid
  | TaskBindingOf _ => option string
  | AdmitFiles _ _ _ _ _ => (result unit ErrorData * option (list (string * Value)))%type
  | AdmitDispatch _ => result unit InvocationError
  | DeliverFiles _ _ _ => (result bool ErrorData * option (list (string * Value)))%type
  | DeliverContinuation _ _ _ => (result unit ErrorData * list (string * Value))%type
  | DispatchTool _ => (result CallToolResponse ErrorData * Z)%type
  | RoutingClaims => list (string * ResourceClaim)
  | ResourceClaims _ => list ResourceClaim
  | AuthorizeResourceRead _ _ _ _ => AuthzVerdict
  | ReadResource _ _ _ => result (list ResourceContents) ReadError
  | Inspect _ _ _ => Decision
  | PrepareFiles _ _ => result PreparedFileOutput ErrorData
  | PrepareRetained _ _ => result PreparedRetainedFile ErrorData
  | PublishFiles _ _ => result unit ErrorData
  | UnixTime => Z
  | Seal _ => result string string
  | Unseal _ => option SealedContinuation
  | RegisterTask _ _ => result Task ErrorData
  | InvokeModel _ _ _ => result InvocationResponse InvocationError
  end.

(** ** Configuration of the service *)

Record LlmResolver := {
  owns_server : string → bool;
  resolves : string → string → bool;
}.

Record Service := {
  platform : Platform;
  audit_mode : AuditMode;
  llm : option LlmResolver;
  has_quota : bool;
  has_catalog_store : bool;
  has_pending_store : bool;
  has_notifier : bool;
  has_file_input : bool;
  has_file_output : bool;
  retained_response_max_bytes : option Z;
  has_sealer : bool;
  has_task_router : bool;
  inspectors : list string;
  (* third-party functions *)
  validate : Validator → Value → option Validation.ValidationError;
  json_pointer : string → Value → option Value;
  delivery_validator : Validator;
  upstream_display : ErrorData → string;
  supports_tasks : ClientCapabilities → bool;
  TASKS_EXTENSION_ID : string;
  MISSING_CAPABILITY_CODE : Z;
  RESOURCE_NOT_FOUND_CODE : Z;
  from_str : string → option Value;
  base64_decode : string → option bytes;
  pause_value : InputRequiredResult → option Value;
  task_value : CreateTaskResult → option Value;
  result_value : CallToolResult → option Value;
  block_value : ContentBlock → option Value;
  contract_string : InvocationContractIdentity → string;
  redact_secrets : Value → Value;
}.

(** ** One call *)

(** What does not change during a call. *)
Record CallInfo := {
  ci_principal : option (Principal Value);
  ci_server : string;
  ci_tool : string;
  ci_invocation_id : Uuid;
  ci_task_action : option string;
  ci_acting_agent : option string;
  ci_hierarchy : option InvocationHierarchy;
  ci_approval_binding : option InvocationApprovalBinding;
  ci_materialization_limit : option Z;
  ci_delivery : ResponseDelivery;
}.

Record Ctx := {
  cx_snapshot : InvocationToolSnapshot;
  cx_effective_facts : ToolFacts;
  cx_operation : option string;
  cx_operation_classified : bool;
  cx_threshold : option Z;
  cx_pip_facts : option (Facts Value);
  cx_arguments : option (list (string * Value));
  cx_count_adjustment : option CountAdjustment;
  cx_input_responses : option (list (string * Value));
  cx_request_state : option string;
  cx_caller_capabilities : option ClientCapabilities;
  cx_task_binding : option string;
  cx_latency_ms : option Z;
  cx_authz_policy_ids : list string;
  cx_pending_redactions : list (string * Z);
  cx_retained_response : option RecoveredResponse;
  cx_retained_operation_succeeded : bool;
  cx_cedar_approval_policies : option (list string);
  cx_policy_gated_grant_consumed : bool;
  cx_digest : string;
  cx_deliverable_keys : option (list string);
  cx_compiled_input_validator : option Validator;
  cx_task_origin : option TaskRoute;
}.

Definition set_snapshot (v : InvocationToolSnapshot) (c : Ctx) : Ctx :=
  {| cx_snapshot := v; cx_effective_facts := cx_effective_facts c;
     cx_operation := cx_operation c; cx_operation_classified := cx_operation_classified c;
     cx_threshold := cx_threshold c; cx_pip_facts := cx_pip_facts c;
     cx_arguments := cx_arguments c; cx_count_adjustment := cx_count_adjustment c;
     cx_input_responses := cx_input_responses c; cx_request_state := cx_request_state c;
     cx_caller_capabilities := cx_caller_capabilities c; cx_task_binding := cx_task_binding c;
     cx_latency_ms := cx_latency_ms c; cx_authz_policy_ids := cx_authz_policy_ids c;
     cx_pending_redactions := cx_pending_redactions c;
     cx_retained_response := cx_retained_response c;
     cx_retained_operation_succeeded := cx_retained_operation_succeeded c;
     cx_cedar_approval_policies := cx_cedar_approval_policies c;
     cx_policy_gated_grant_consumed := cx_policy_gated_grant_consumed c;
     cx_digest := cx_digest c; cx_deliverable_keys := cx_deliverable_keys c;
     cx_compiled_input_validator := cx_compiled_input_validator c;
     cx_task_origin := cx_task_origin c |}.

Definition set_pip_facts (v : option (Facts Value)) (c : Ctx) : Ctx :=
  {| cx_snapshot := cx_snapshot c; cx_effective_facts := cx_effective_facts c;
     cx_operation := cx_operation c; cx_operation_classified := cx_operation_classified c;
     cx_threshold := cx_threshold c; cx_pip_facts := v; cx_arguments := cx_arguments c;
     cx_count_adjustment := cx_count_adjustment c; cx_input_responses := cx_input_responses c;
     cx_request_state := cx_request_state c;
     cx_caller_capabilities := cx_caller_capabilities c; cx_task_binding := cx_task_binding c;
     cx_latency_ms := cx_latency_ms c; cx_authz_policy_ids := cx_authz_policy_ids c;
     cx_pending_redactions := cx_pending_redactions c;
     cx_retained_response := cx_retained_response c;
     cx_retained_operation_succeeded := cx_retained_operation_succeeded c;
     cx_cedar_approval_policies := cx_cedar_approval_policies c;
     cx_policy_gated_grant_consumed := cx_policy_gated_grant_consumed c;
     cx_digest := cx_digest c; cx_deliverable_keys := cx_deliverable_keys c;
     cx_compiled_input_validator := cx_compiled_input_validator c;
     cx_task_origin := cx_task_origin c |}.

Definition set_arguments (v : option (list (string * Value))) (c : Ctx) : Ctx :=
  {| cx_snapshot := cx_snapshot c; cx_effective_facts := cx_effective_facts c;
     cx_operation := cx_operation c; cx_operation_classified := cx_operation_classified c;
     cx_threshold := cx_threshold c; cx_pip_facts := cx_pip_facts c; cx_arguments := v;
     cx_count_adjustment := cx_count_adjustment c; cx_input_responses := cx_input_responses c;
     cx_request_state := cx_request_state c;
     cx_caller_capabilities := cx_caller_capabilities c; cx_task_binding := cx_task_binding c;
     cx_latency_ms := cx_latency_ms c; cx_authz_policy_ids := cx_authz_policy_ids c;
     cx_pending_redactions := cx_pending_redactions c;
     cx_retained_response := cx_retained_response c;
     cx_retained_operation_succeeded := cx_retained_operation_succeeded c;
     cx_cedar_approval_policies := cx_cedar_approval_policies c;
     cx_policy_gated_grant_consumed := cx_policy_gated_grant_consumed c;
     cx_digest := cx_digest c; cx_deliverable_keys := cx_deliverable_keys c;
     cx_compiled_input_validator := cx_compiled_input_validator c;
     cx_task_origin := cx_task_origin c |}.

Definition set_count_adjustment (v : option CountAdjustment) (c : Ctx) : Ctx :=
  {| cx_snapshot := cx_snapshot c; cx_effective_facts := cx_effective_facts c;
     cx_operation := cx_operation c; cx_operation_classified := cx_operation_classified c;
     cx_threshold := cx_threshold c; cx_pip_facts := cx_pip_facts c;
     cx_arguments := cx_arguments c; cx_count_adjustment := v;
     cx_input_responses := cx_input_responses c; cx_request_state := cx_request_state c;
     cx_caller_capabilities := cx_caller_capabilities c; cx_task_binding := cx_task_binding c;
     cx_latency_ms := cx_latency_ms c; cx_authz_policy_ids := cx_authz_policy_ids c;
     cx_pending_redactions := cx_pending_redactions c;
     cx_retained_response := cx_retained_response c;
     cx_retained_operation_succeeded := cx_retained_operation_succeeded c;
     cx_cedar_approval_policies := cx_cedar_approval_policies c;
     cx_policy_gated_grant_consumed := cx_policy_gated_grant_consumed c;
     cx_digest := cx_digest c; cx_deliverable_keys := cx_deliverable_keys c;
     cx_compiled_input_validator := cx_compiled_input_validator c;
     cx_task_origin := cx_task_origin c |}.

Definition set_input_responses (v : option (list (string * Value))) (c : Ctx) : Ctx :=
  {| cx_snapshot := cx_snapshot c; cx_effective_facts := cx_effective_facts c;
     cx_operation := cx_operation c; cx_operation_classified := cx_operation_classified c;
     cx_threshold := cx_threshold c; cx_pip_facts := cx_pip_facts c;
     cx_arguments := cx_arguments c; cx_count_adjustment := cx_count_adjustment c;
     cx_input_responses := v; cx_request_state := cx_request_state c;
     cx_caller_capabilities := cx_caller_capabilities c; cx_task_binding := cx_task_binding c;
     cx_latency_ms := cx_latency_ms c; cx_authz_policy_ids := cx_authz_policy_ids c;
     cx_pending_redactions := cx_pending_redactions c;
     cx_retained_response := cx_retained_response c;
     cx_retained_operation_succeeded := cx_retained_operation_succeeded c;
     cx_cedar_approval_policies := cx_cedar_approval_policies c;
     cx_policy_gated_grant_consumed := cx_policy_gated_grant_consumed c;
     cx_digest := cx_digest c; cx_deliverable_keys := cx_deliverable_keys c;
     cx_compiled_input_validator := cx_compiled_input_validator c;
     cx_task_origin := cx_task_origin c |}.

Definition set_request_state (v : option string) (c : Ctx) : Ctx :=
  {| cx_snapshot := cx_snapshot c; cx_effective_facts := cx_effective_facts c;
     cx_operation := cx_operation c; cx_operation_classified := cx_operation_classified c;
     cx_threshold := cx_threshold c; cx_pip_facts := cx_pip_facts c;
     cx_arguments := cx_arguments c; cx_count_adjustment := cx_count_adjustment c;
     cx_input_responses := cx_input_responses c; cx_request_state := v;
     cx_caller_capabilities := cx_caller_capabilities c; cx_task_binding := cx_task_binding c;
     cx_latency_ms := cx_latency_ms c; cx_authz_policy_ids := cx_authz_policy_ids c;
     cx_pending_redactions := cx_pending_redactions c;
     cx_retained_response := cx_retained_response c;
     cx_retained_operation_succeeded := cx_retained_operation_succeeded c;
     cx_cedar_approval_policies := cx_cedar_approval_policies c;
     cx_policy_gated_grant_consumed := cx_policy_gated_grant_consumed c;
     cx_digest := cx_digest c; cx_deliverable_keys := cx_deliverable_keys c;
     cx_compiled_input_validator := cx_compiled_input_validator c;
     cx_task_origin := cx_task_origin c |}.

Definition set_caller_capabilities (v : option ClientCapabilities) (c : Ctx) : Ctx :=
  {| cx_snapshot := cx_snapshot c; cx_effective_facts := cx_effective_facts c;
     cx_operation := cx_operation c; cx_operation_classified := cx_operation_classified c;
     cx_threshold := cx_threshold c; cx_pip_facts := cx_pip_facts c;
     cx_arguments := cx_arguments c; cx_count_adjustment := cx_count_adjustment c;
     cx_input_responses := cx_input_responses c; cx_request_state := cx_request_state c;
     cx_caller_capabilities := v; cx_task_binding := cx_task_binding c;
     cx_latency_ms := cx_latency_ms c; cx_authz_policy_ids := cx_authz_policy_ids c;
     cx_pending_redactions := cx_pending_redactions c;
     cx_retained_response := cx_retained_response c;
     cx_retained_operation_succeeded := cx_retained_operation_succeeded c;
     cx_cedar_approval_policies := cx_cedar_approval_policies c;
     cx_policy_gated_grant_consumed := cx_policy_gated_grant_consumed c;
     cx_digest := cx_digest c; cx_deliverable_keys := cx_deliverable_keys c;
     cx_compiled_input_validator := cx_compiled_input_validator c;
     cx_task_origin := cx_task_origin c |}.

Definition set_task_binding (v : option string) (c : Ctx) : Ctx :=
  {| cx_snapshot := cx_snapshot c; cx_effective_facts := cx_effective_facts c;
     cx_operation := cx_operation c; cx_operation_classified := cx_operation_classified c;
     cx_threshold := cx_threshold c; cx_pip_facts := cx_pip_facts c;
     cx_arguments := cx_arguments c; cx_count_adjustment := cx_count_adjustment c;
     cx_input_responses := cx_input_responses c; cx_request_state := cx_request_state c;
     cx_caller_capabilities := cx_caller_capabilities c; cx_task_binding := v;
     cx_latency_ms := cx_latency_ms c; cx_authz_policy_ids := cx_authz_policy_ids c;
     cx_pending_redactions := cx_pending_redactions c;
     cx_retained_response := cx_retained_response c;
     cx_retained_operation_succeeded := cx_retained_operation_succeeded c;
     cx_cedar_approval_policies := cx_cedar_approval_policies c;
     cx_policy_gated_grant_consumed := cx_policy_gated_grant_consumed c;
     cx_digest := cx_digest c; cx_deliverable_keys := cx_deliverable_keys c;
     cx_compiled_input_validator := cx_compiled_input_validator c;
     cx_task_origin := cx_task_origin c |}.

Definition set_latency_ms (v : option Z) (c : Ctx) : Ctx :=
  {| cx_snapshot := cx_snapshot c; cx_effective_facts := cx_effective_facts c;
     cx_operation := cx_operation c; cx_operation_classified := cx_operation_classified c;
     cx_threshold := cx_threshold c; cx_pip_facts := cx_pip_facts c;
     cx_arguments := cx_arguments c; cx_count_adjustment := cx_count_adjustment c;
     cx_input_responses := cx_input_responses c; cx_request_state := cx_request_state c;
     cx_caller_capabilities := cx_caller_capabilities c; cx_task_binding := cx_task_binding c;
     cx_latency_ms := v; cx_authz_policy_ids := cx_authz_policy_ids c;
     cx_pending_redactions := cx_pending_redactions c;
     cx_retained_response := cx_retained_response c;
     cx_retained_operation_succeeded := cx_retained_operation_succeeded c;
     cx_cedar_approval_policies := cx_cedar_approval_policies c;
     cx_policy_gated_grant_consumed := cx_policy_gated_grant_consumed c;
     cx_digest := cx_digest c; cx_deliverable_keys := cx_deliverable_keys c;
     cx_compiled_input_validator := cx_compiled_input_validator c;
     cx_task_origin := cx_task_origin c |}.

Definition set_authz_policy_ids (v : list string) (c : Ctx) : Ctx :=
  {| cx_snapshot := cx_snapshot c; cx_effective_facts := cx_effective_facts c;
     cx_operation := cx_operation c; cx_operation_classified := cx_operation_classified c;
     cx_threshold := cx_threshold c; cx_pip_facts := cx_pip_facts c;
     cx_arguments := cx_arguments c; cx_count_adjustment := cx_count_adjustment c;
     cx_input_responses := cx_input_responses c; cx_request_state := cx_request_state c;
     cx_caller_capabilities := cx_caller_capabilities c; cx_task_binding := cx_task_binding c;
     cx_latency_ms := cx_latency_ms c; cx_authz_policy_ids := v;
     cx_pending_redactions := cx_pending_redactions c;
     cx_retained_response := cx_retained_response c;
     cx_retained_operation_succeeded := cx_retained_operation_succeeded c;
     cx_cedar_approval_policies := cx_cedar_approval_policies c;
     cx_policy_gated_grant_consumed := cx_policy_gated_grant_consumed c;
     cx_digest := cx_digest c; cx_deliverable_keys := cx_deliverable_keys c;
     cx_compiled_input_validator := cx_compiled_input_validator c;
     cx_task_origin := cx_task_origin c |}.

Definition set_pending_redactions (v : list (string * Z)) (c : Ctx) : Ctx :=
  {| cx_snapshot := cx_snapshot c; cx_effective_facts := cx_effective_facts c;
     cx_operation := cx_operation c; cx_operation_classified := cx_operation_classified c;
     cx_threshold := cx_threshold c; cx_pip_facts := cx_pip_facts c;
     cx_arguments := cx_arguments c; cx_count_adjustment := cx_count_adjustment c;
     cx_input_responses := cx_input_responses c; cx_request_state := cx_request_state c;
     cx_caller_capabilities := cx_caller_capabilities c; cx_task_binding := cx_task_binding c;
     cx_latency_ms := cx_latency_ms c; cx_authz_policy_ids := cx_authz_policy_ids c;
     cx_pending_redactions := v; cx_retained_response := cx_retained_response c;
     cx_retained_operation_succeeded := cx_retained_operation_succeeded c;
     cx_cedar_approval_policies := cx_cedar_approval_policies c;
     cx_policy_gated_grant_consumed := cx_policy_gated_grant_consumed c;
     cx_digest := cx_digest c; cx_deliverable_keys := cx_deliverable_keys c;
     cx_compiled_input_validator := cx_compiled_input_validator c;
     cx_task_origin := cx_task_origin c |}.

Definition set_retained_response (v : option RecoveredResponse) (c : Ctx) : Ctx :=
  {| cx_snapshot := cx_snapshot c; cx_effective_facts := cx_effective_facts c;
     cx_operation := cx_operation c; cx_operation_classified := cx_operation_classified c;
     cx_threshold := cx_threshold c; cx_pip_facts := cx_pip_facts c;
     cx_arguments := cx_arguments c; cx_count_adjustment := cx_count_adjustment c;
     cx_input_responses := cx_input_responses c; cx_request_state := cx_request_state c;
     cx_caller_capabilities := cx_caller_capabilities c; cx_task_binding := cx_task_binding c;
     cx_latency_ms := cx_latency_ms c; cx_authz_policy_ids := cx_authz_policy_ids c;
     cx_pending_redactions := cx_pending_redactions c; cx_retained_response := v;
     cx_retained_operation_succeeded := cx_retained_operation_succeeded c;
     cx_cedar_approval_policies := cx_cedar_approval_policies c;
     cx_policy_gated_grant_consumed := cx_policy_gated_grant_consumed c;
     cx_digest := cx_digest c; cx_deliverable_keys := cx_deliverable_keys c;
     cx_compiled_input_validator := cx_compiled_input_validator c;
     cx_task_origin := cx_task_origin c |}.

Definition set_retained_operation_succeeded (v : bool) (c : Ctx) : Ctx :=
  {| cx_snapshot := cx_snapshot c; cx_effective_facts := cx_effective_facts c;
     cx_operation := cx_operation c; cx_operation_classified := cx_operation_classified c;
     cx_threshold := cx_threshold c; cx_pip_facts := cx_pip_facts c;
     cx_arguments := cx_arguments c; cx_count_adjustment := cx_count_adjustment c;
     cx_input_responses := cx_input_responses c; cx_request_state := cx_request_state c;
     cx_caller_capabilities := cx_caller_capabilities c; cx_task_binding := cx_task_binding c;
     cx_latency_ms := cx_latency_ms c; cx_authz_policy_ids := cx_authz_policy_ids c;
     cx_pending_redactions := cx_pending_redactions c;
     cx_retained_response := cx_retained_response c; cx_retained_operation_succeeded := v;
     cx_cedar_approval_policies := cx_cedar_approval_policies c;
     cx_policy_gated_grant_consumed := cx_policy_gated_grant_consumed c;
     cx_digest := cx_digest c; cx_deliverable_keys := cx_deliverable_keys c;
     cx_compiled_input_validator := cx_compiled_input_validator c;
     cx_task_origin := cx_task_origin c |}.

Definition set_cedar_approval_policies (v : option (list string)) (c : Ctx) : Ctx :=
  {| cx_snapshot := cx_snapshot c; cx_effective_facts := cx_effective_facts c;
     cx_operation := cx_operation c; cx_operation_classified := cx_operation_classified c;
     cx_threshold := cx_threshold c; cx_pip_facts := cx_pip_facts c;
     cx_arguments := cx_arguments c; cx_count_adjustment := cx_count_adjustment c;
     cx_input_responses := cx_input_responses c; cx_request_state := cx_request_state c;
     cx_caller_capabilities := cx_caller_capabilities c; cx_task_binding := cx_task_binding c;
     cx_latency_ms := cx_latency_ms c; cx_authz_policy_ids := cx_authz_policy_ids c;
     cx_pending_redactions := cx_pending_redactions c;
     cx_retained_response := cx_retained_response c;
     cx_retained_operation_succeeded := cx_retained_operation_succeeded c;
     cx_cedar_approval_policies := v;
     cx_policy_gated_grant_consumed := cx_policy_gated_grant_consumed c;
     cx_digest := cx_digest c; cx_deliverable_keys := cx_deliverable_keys c;
     cx_compiled_input_validator := cx_compiled_input_validator c;
     cx_task_origin := cx_task_origin c |}.

Definition set_policy_gated_grant_consumed (v : bool) (c : Ctx) : Ctx :=
  {| cx_snapshot := cx_snapshot c; cx_effective_facts := cx_effective_facts c;
     cx_operation := cx_operation c; cx_operation_classified := cx_operation_classified c;
     cx_threshold := cx_threshold c; cx_pip_facts := cx_pip_facts c;
     cx_arguments := cx_arguments c; cx_count_adjustment := cx_count_adjustment c;
     cx_input_responses := cx_input_responses c; cx_request_state := cx_request_state c;
     cx_caller_capabilities := cx_caller_capabilities c; cx_task_binding := cx_task_binding c;
     cx_latency_ms := cx_latency_ms c; cx_authz_policy_ids := cx_authz_policy_ids c;
     cx_pending_redactions := cx_pending_redactions c;
     cx_retained_response := cx_retained_response c;
     cx_retained_operation_succeeded := cx_retained_operation_succeeded c;
     cx_cedar_approval_policies := cx_cedar_approval_policies c;
     cx_policy_gated_grant_consumed := v; cx_digest := cx_digest c;
     cx_deliverable_keys := cx_deliverable_keys c;
     cx_compiled_input_validator := cx_compiled_input_validator c;
     cx_task_origin := cx_task_origin c |}.

Definition set_digest (v : string) (c : Ctx) : Ctx :=
  {| cx_snapshot := cx_snapshot c; cx_effective_facts := cx_effective_facts c;
     cx_operation := cx_operation c; cx_operation_classified := cx_operation_classified c;
     cx_threshold := cx_threshold c; cx_pip_facts := cx_pip_facts c;
     cx_arguments := cx_arguments c; cx_count_adjustment := cx_count_adjustment c;
     cx_input_responses := cx_input_responses c; cx_request_state := cx_request_state c;
     cx_caller_capabilities := cx_caller_capabilities c; cx_task_binding := cx_task_binding c;
     cx_latency_ms := cx_latency_ms c; cx_authz_policy_ids := cx_authz_policy_ids c;
     cx_pending_redactions := cx_pending_redactions c;
     cx_retained_response := cx_retained_response c;
     cx_retained_operation_succeeded := cx_retained_operation_succeeded c;
     cx_cedar_approval_policies := cx_cedar_approval_policies c;
     cx_policy_gated_grant_consumed := cx_policy_gated_grant_consumed c; cx_digest := v;
     cx_deliverable_keys := cx_deliverable_keys c;
     cx_compiled_input_validator := cx_compiled_input_validator c;
     cx_task_origin := cx_task_origin c |}.

Definition set_deliverable_keys (v : option (list string)) (c : Ctx) : Ctx :=
  {| cx_snapshot := cx_snapshot c; cx_effective_facts := cx_effective_facts c;
     cx_operation := cx_operation c; cx_operation_classified := cx_operation_classified c;
     cx_threshold := cx_threshold c; cx_pip_facts := cx_pip_facts c;
     cx_arguments := cx_arguments c; cx_count_adjustment := cx_count_adjustment c;
     cx_input_responses := cx_input_responses c; cx_request_state := cx_request_state c;
     cx_caller_capabilities := cx_caller_capabilities c; cx_task_binding := cx_task_binding c;
     cx_latency_ms := cx_latency_ms c; cx_authz_policy_ids := cx_authz_policy_ids c;
     cx_pending_redactions := cx_pending_redactions c;
     cx_retained_response := cx_retained_response c;
     cx_retained_operation_succeeded := cx_retained_operation_succeeded c;
     cx_cedar_approval_policies := cx_cedar_approval_policies c;
     cx_policy_gated_grant_consumed := cx_policy_gated_grant_consumed c;
     cx_digest := cx_digest c; cx_deliverable_keys := v;
     cx_compiled_input_validator := cx_compiled_input_validator c;
     cx_task_origin := cx_task_origin c |}.

Definition set_compiled_input_validator (v : option Validator) (c : Ctx) : Ctx :=
  {| cx_snapshot := cx_snapshot c; cx_effective_facts := cx_effective_facts c;
     cx_operation := cx_operation c; cx_operation_classified := cx_operation_classified c;
     cx_threshold := cx_threshold c; cx_pip_facts := cx_pip_facts c;
     cx_arguments := cx_arguments c; cx_count_adjustment := cx_count_adjustment c;
     cx_input_responses := cx_input_responses c; cx_request_state := cx_request_state c;
     cx_caller_capabilities := cx_caller_capabilities c; cx_task_binding := cx_task_binding c;
     cx_latency_ms := cx_latency_ms c; cx_authz_policy_ids := cx_authz_policy_ids c;
     cx_pending_redactions := cx_pending_redactions c;
     cx_retained_response := cx_retained_response c;
     cx_retained_operation_succeeded := cx_retained_operation_succeeded c;
     cx_cedar_approval_policies := cx_cedar_approval_policies c;
     cx_policy_gated_grant_consumed := cx_policy_gated_grant_consumed c;
     cx_digest := cx_digest c; cx_deliverable_keys := cx_deliverable_keys c;
     cx_compiled_input_validator := v; cx_task_origin := cx_task_origin c |}.

Definition set_task_origin (v : option TaskRoute) (c : Ctx) : Ctx :=
  {| cx_snapshot := cx_snapshot c; cx_effective_facts := cx_effective_facts c;
     cx_operation := cx_operation c; cx_operation_classified := cx_operation_classified c;
     cx_threshold := cx_threshold c; cx_pip_facts := cx_pip_facts c;
     cx_arguments := cx_arguments c; cx_count_adjustment := cx_count_adjustment c;
     cx_input_responses := cx_input_responses c; cx_request_state := cx_request_state c;
     cx_caller_capabilities := cx_caller_capabilities c; cx_task_binding := cx_task_binding c;
     cx_latency_ms := cx_latency_ms c; cx_authz_policy_ids := cx_authz_policy_ids c;
     cx_pending_redactions := cx_pending_redactions c;
     cx_retained_response := cx_retained_response c;
     cx_retained_operation_succeeded := cx_retained_operation_succeeded c;
     cx_cedar_approval_policies := cx_cedar_approval_policies c;
     cx_policy_gated_grant_consumed := cx_policy_gated_grant_consumed c;
     cx_digest := cx_digest c; cx_deliverable_keys := cx_deliverable_keys c;
     cx_compiled_input_validator := cx_compiled_input_validator c; cx_task_origin := v |}.

(** ** The monad *)

Definition M (A : Type) : Type := Ctx → prog Seam (result A InvocationError * Ctx).

#[export] Instance M_ret : MRet M := λ A a c, Ret (Ok a, c).
#[export] Instance M_bind : MBind M := λ A B f m c,
  pbind (m c) (λ '(r, c), match r with Ok a => f a c | Err e => Ret (Err e, c) end).

Definition fail {A} (e : InvocationError) : M A := λ c, Ret (Err e, c).
Definition ask {A} (f : Ctx → A) : M A := λ c, Ret (Ok (f c), c).
Definition modify (f : Ctx → Ctx) : M unit := λ c, Ret (Ok tt, f c).
Definition perform (s : Seam) : M (answer s) := λ c, pbind (call s) (λ x, Ret (Ok x, c)).
Definition lift {A} (p : prog Seam A) : M A := λ c, pbind p (λ x, Ret (Ok x, c)).
Definition of_result {A} (r : result A InvocationError) : M A := λ c, Ret (r, c).

(** [match stage().await]: the outcome as a value. *)
Definition attempt {A} (m : M A) : M (result A InvocationError) := λ c,
  pbind (m c) (λ '(r, c), Ret (Ok r, c)).

Definition unless (b : bool) (m : M unit) : M unit := if b then mret tt else m.

End Pipeline.
