(* ===== verification/PipelineLogic.v ===== *)
(** * Reasoning about pipeline stages

    Inversion of runs of the stage monad, and three judgements that compose along it:
    [emits] bounds the seams a stage may use, [keeps] names a part of the context it leaves
    alone, [within] lists the stages it may enter, in order. [stage_tac] walks a stage's
    definition with the lemmas of the judgement at hand. *)

From S2P Require Import Prelude Interact ToolSnapshot Quota Pipeline.

Module PipelineLogic.
Import Pipeline.Pipeline.

Abbreviation events := (list (event Seam)).

Definition mruns {A} (m : M A) (c : Ctx) (t : events) (r : result A InvocationError) (c' : Ctx) : Prop :=
  runs (m c) t (r, c').

(** ** Inversion *)

Lemma mruns_ret {A} (a : A) c t r c' : mruns (mret a) c t r c' → t = [] ∧ r = Ok a ∧ c' = c.
Proof. intros [-> [= -> ->]]%runs_ret_inv. done. Qed.

Lemma mruns_fail {A} e c t (r : result A InvocationError) c' :
  mruns (fail e) c t r c' → t = [] ∧ r = Err e ∧ c' = c.
Proof. intros [-> [= -> ->]]%runs_ret_inv. done. Qed.

Lemma mruns_ask {A} (f : Ctx → A) c t r c' : mruns (ask f) c t r c' → t = [] ∧ r = Ok (f c) ∧ c' = c.
Proof. intros [-> [= -> ->]]%runs_ret_inv. done. Qed.

Lemma mruns_modify f c t r c' : mruns (modify f) c t r c' → t = [] ∧ r = Ok tt ∧ c' = f c.
Proof. intros [-> [= -> ->]]%runs_ret_inv. done. Qed.

Lemma mruns_of_result {A} (x : result A InvocationError) c t r c' :
  mruns (of_result x) c t r c' → t = [] ∧ r = x ∧ c' = c.
Proof. intros [-> [= -> ->]]%runs_ret_inv. done. Qed.

Lemma mruns_perform s c t r c' :
  mruns (perform s) c t r c' → ∃ x, t = [Event s x] ∧ r = Ok x ∧ c' = c.
Proof.
  intros (x & t' & -> & Hr)%runs_call_inv. apply runs_ret_inv in Hr as [-> [= -> ->]]. eauto.
Qed.

Lemma mruns_lift {A} (p : prog Seam A) c t r c' :
  mruns (lift p) c t r c' → ∃ a, runs p t a ∧ r = Ok a ∧ c' = c.
Proof.
  intros (t1 & t2 & a & -> & Hp & Hr)%runs_bind. apply runs_ret_inv in Hr as [-> [= -> ->]].
  rewrite app_nil_r. eauto.
Qed.

Lemma mruns_attempt {A} (m : M A) c t r c' :
  mruns (attempt m) c t r c' → ∃ x, r = Ok x ∧ mruns m c t x c'.
Proof.
  intros (t1 & t2 & [x c1] & -> & Hm & Hr)%runs_bind. apply runs_ret_inv in Hr as [-> [= -> ->]].
  rewrite app_nil_r. eauto.
Qed.

Lemma mruns_bind {A B} (m : M A) (f : A → M B) c t r c' :
  mruns (m ≫= f) c t r c' →
  (∃ e, r = Err e ∧ mruns m c t (Err e) c') ∨
  (∃ t1 t2 a c1, t = t1 ++ t2 ∧ mruns m c t1 (Ok a) c1 ∧ mruns (f a) c1 t2 r c').
Proof.
  intros (t1 & t2 & [x c1] & -> & Hm & Hr)%runs_bind. destruct x as [a|e].
  - right. eauto 10.
  - apply runs_ret_inv in Hr as [-> [= -> ->]]. left. rewrite app_nil_r. eauto.
Qed.

Lemma mruns_bind_ok {A B} (m : M A) (f : A → M B) c t b c' :
  mruns (m ≫= f) c t (Ok b) c' →
  ∃ t1 t2 a c1, t = t1 ++ t2 ∧ mruns m c t1 (Ok a) c1 ∧ mruns (f a) c1 t2 (Ok b) c'.
Proof. intros [(e & [=] & _)|?]%mruns_bind. done. Qed.

(** ** Which seams a stage uses *)

Definition emits {A} (Q : event Seam → Prop) (m : M A) : Prop :=
  ∀ c t r c', mruns m c t r c' → Forall Q t.

Definition pemits {A} (Q : event Seam → Prop) (p : prog Seam A) : Prop := ∀ t a, runs p t a → Forall Q t.

Section Emits.
Context (Q : event Seam → Prop).

Lemma emits_bind {A B} (m : M A) (f : A → M B) : emits Q m → (∀ a, emits Q (f a)) → emits Q (m ≫= f).
Proof.
  intros Hm Hf c t r c' [(e & _ & H)|(t1 & t2 & a & c1 & -> & H1 & H2)]%mruns_bind; [by eapply Hm|].
  apply Forall_app. split; [by eapply Hm|by eapply Hf].
Qed.
Lemma emits_ret {A} (a : A) : emits Q (mret a).
Proof. intros c t r c' (-> & _ & _)%mruns_ret. constructor. Qed.
Lemma emits_fail {A} e : emits Q (fail e : M A).
Proof. intros c t r c' (-> & _ & _)%mruns_fail. constructor. Qed.
Lemma emits_ask {A} (f : Ctx → A) : emits Q (ask f).
Proof. intros c t r c' (-> & _ & _)%mruns_ask. constructor. Qed.
Lemma emits_modify f : emits Q (modify f).
Proof. intros c t r c' (-> & _ & _)%mruns_modify. constructor. Qed.
Lemma emits_of_result {A} (x : result A InvocationError) : emits Q (of_result x).
Proof. intros c t r c' (-> & _ & _)%mruns_of_result. constructor. Qed.
Lemma emits_attempt {A} (m : M A) : emits Q m → emits Q (attempt m).
Proof. intros Hm c t r c' (x & -> & H)%mruns_attempt. by eapply Hm. Qed.
Lemma emits_perform s : (∀ x, Q (Event s x)) → emits Q (perform s).
Proof. intros Hs c t r c' (x & -> & _ & _)%mruns_perform. by constructor. Qed.
Lemma emits_lift {A} (p : prog Seam A) : pemits Q p → emits Q (lift p).
Proof. intros Hp c t r c' (a & H & _)%mruns_lift. by eapply Hp. Qed.
Lemma pemits_bind {A B} (p : prog Seam A) (f : A → prog Seam B) :
  pemits Q p → (∀ a, pemits Q (f a)) → pemits Q (pbind p f).
Proof.
  intros Hp Hf t b (t1 & t2 & a & -> & H1 & H2)%runs_bind. apply Forall_app.
  split; [by eapply Hp|by eapply Hf].
Qed.
Lemma pemits_ret {A} (a : A) : pemits Q (Ret a).
Proof. intros t b [-> _]%runs_ret_inv. constructor. Qed.
Lemma pemits_call s : (∀ x, Q (Event s x)) → pemits Q (call s).
Proof.
  intros Hs t b (x & t' & -> & Hr)%runs_call_inv. apply runs_ret_inv in Hr as [-> ->]. by constructor.
Qed.
End Emits.

(** ** What a stage leaves alone *)

Definition keeps {A B} (f : Ctx → B) (m : M A) : Prop := ∀ c t r c', mruns m c t r c' → f c' = f c.

Section Keeps.
Context {C : Type} (f : Ctx → C).

Lemma keeps_bind {A B} (m : M A) (k : A → M B) : keeps f m → (∀ a, keeps f (k a)) → keeps f (m ≫= k).
Proof.
  intros Hm Hk c t r c' [(e & _ & H)|(t1 & t2 & a & c1 & -> & H1 & H2)]%mruns_bind; [by eapply Hm|].
  etrans; [by eapply Hk|by eapply Hm].
Qed.
Lemma keeps_ret {A} (a : A) : keeps f (mret a).
Proof. by intros c t r c' (_ & _ & ->)%mruns_ret. Qed.
Lemma keeps_fail {A} e : keeps f (fail e : M A).
Proof. by intros c t r c' (_ & _ & ->)%mruns_fail. Qed.
Lemma keeps_ask {A} (g : Ctx → A) : keeps f (ask g).
Proof. by intros c t r c' (_ & _ & ->)%mruns_ask. Qed.
Lemma keeps_modify g : (∀ c, f (g c) = f c) → keeps f (modify g).
Proof. intros Hg c t r c' (_ & _ & ->)%mruns_modify. apply Hg. Qed.
Lemma keeps_of_result {A} (x : result A InvocationError) : keeps f (of_result x).
Proof. by intros c t r c' (_ & _ & ->)%mruns_of_result. Qed.
Lemma keeps_attempt {A} (m : M A) : keeps f m → keeps f (attempt m).
Proof. intros Hm c t r c' (x & -> & H)%mruns_attempt. by eapply Hm. Qed.
Lemma keeps_perform s : keeps f (perform s).
Proof. by intros c t r c' (x & _ & _ & ->)%mruns_perform. Qed.
Lemma keeps_lift {A} (p : prog Seam A) : keeps f (lift p).
Proof. by intros c t r c' (a & _ & _ & ->)%mruns_lift. Qed.
End Keeps.

(** ** How a stage fails *)

(** The error of a failed run, with the trace that led to it. *)
Definition errs {A} (E : events → InvocationError → Prop) (m : M A) : Prop :=
  ∀ c t e c', mruns m c t (Err e) c' → E t e.

Section Errs.
Context (E : events → InvocationError → Prop).

Lemma errs_bind {A B} (m : M A) (f : A → M B) : (∀ t1 t2 e, E t2 e → E (t1 ++ t2) e) →
  errs E m → (∀ a, errs E (f a)) → errs E (m ≫= f).
Proof.
  intros Hmono Hm Hf c t e c' [(e' & [= ->] & H)|(t1 & t2 & a & c1 & -> & H1 & H2)]%mruns_bind; [by eapply Hm|].
  apply Hmono. by eapply Hf.
Qed.
Lemma errs_ret {A} (a : A) : errs E (mret a).
Proof. by intros c t e c' (_ & [=] & _)%mruns_ret. Qed.
Lemma errs_fail {A} e : E [] e → errs E (fail e : M A).
Proof. by intros He c t e' c' (-> & [= ->] & _)%mruns_fail. Qed.
Lemma errs_ask {A} (f : Ctx → A) : errs E (ask f).
Proof. by intros c t e c' (_ & [=] & _)%mruns_ask. Qed.
Lemma errs_modify f : errs E (modify f).
Proof. by intros c t e c' (_ & [=] & _)%mruns_modify. Qed.
Lemma errs_attempt {A} (m : M A) : errs E (attempt m).
Proof. by intros c t e c' (x & [=] & _)%mruns_attempt. Qed.
Lemma errs_perform s : errs E (perform s).
Proof. by intros c t e c' (x & _ & [=] & _)%mruns_perform. Qed.
Lemma errs_lift {A} (p : prog Seam A) : errs E (lift p).
Proof. by intros c t e c' (x & _ & [=] & _)%mruns_lift. Qed.
End Errs.

(** ** Which stages are entered *)

Definition stages (t : events) : list InvocationStage :=
  omap (λ e, match ev_call e with EnterStage s => Some s | _ => None end) t.

Definition within {A} (l : list InvocationStage) (m : M A) : Prop :=
  ∀ c t r c', mruns m c t r c' → sublist (stages t) l.

Definition enters_none (e : event Seam) : Prop := match ev_call e with EnterStage _ => False | _ => True end.

Lemma stages_app t1 t2 : stages (t1 ++ t2) = stages t1 ++ stages t2.
Proof. apply omap_app. Qed.

Lemma quiet_stages t : Forall enters_none t → stages t = [].
Proof.
  induction 1 as [|e t He _ IH]; [done|]. unfold stages in *. simpl. unfold enters_none in He.
  by destruct (ev_call e).
Qed.

Lemma within_quiet {A} (m : M A) : emits enters_none m → within [] m.
Proof. intros Hm c t r c' H. rewrite (quiet_stages t); [done|by eapply Hm]. Qed.

Lemma within_bind {A B} l1 l2 (m : M A) (f : A → M B) :
  within l1 m → (∀ a, within l2 (f a)) → within (l1 ++ l2) (m ≫= f).
Proof.
  intros Hm Hf c t r c' [(e & _ & H)|(t1 & t2 & a & c1 & -> & H1 & H2)]%mruns_bind.
  - apply sublist_inserts_r. by eapply Hm.
  - rewrite stages_app. apply sublist_app; [by eapply Hm|by eapply Hf].
Qed.

Lemma within_attempt {A} l (m : M A) : within l m → within l (attempt m).
Proof. intros Hm c t r c' (x & -> & H)%mruns_attempt. by eapply Hm. Qed.

Lemma within_weaken {A} l l' (m : M A) : within l m → sublist l l' → within l' m.
Proof. intros Hm Hl c t r c' H. etrans; [by eapply Hm|done]. Qed.

Lemma within_enter s : within [s] (perform (EnterStage s)).
Proof. intros c t r c' (x & -> & _ & _)%mruns_perform. done. Qed.

(** The stages of a run that succeeds, and of one that fails. *)
Definition enters {A} (lo le : list InvocationStage) (m : M A) : Prop :=
  ∀ c t r c', mruns m c t r c' → sublist (stages t) (if is_ok r then lo else le).

Lemma within_enters {A} l (m : M A) : within l m → enters l l m.
Proof. intros Hm c t r c' H. destruct (is_ok r); by eapply Hm. Qed.

Lemma enters_bind {A B} lo1 le1 lo2 le2 le (m : M A) (f : A → M B) :
  enters lo1 le1 m → (∀ a, enters lo2 le2 (f a)) → sublist le1 le → sublist (lo1 ++ le2) le →
  enters (lo1 ++ lo2) le (m ≫= f).
Proof.
  intros Hm Hf H1 H2 c t r c' [(e & -> & H)|(t1 & t2 & a & c1 & -> & Hm1 & Hf2)]%mruns_bind.
  - etrans; [apply (Hm _ _ _ _ H)|done].
  - rewrite stages_app. pose proof (Hm _ _ _ _ Hm1) as S1. pose proof (Hf _ _ _ _ _ Hf2) as S2. simpl in S1.
    destruct (is_ok r); [by apply sublist_app|]. etrans; [by apply sublist_app|done].
Qed.

(** ** Kinds of seams *)

Inductive kind :=
  | KStage | KClock | KResolve | KDiscover | KRecord | KRequired | KCompile | KAuthorize | KQuota | KClaim
  | KHold | KTask | KFileAdmit | KFileIn | KAdmit | KDispatch | KRead | KInspect | KFileOut | KSeal | KModel.
#[export] Instance kind_eq_dec : EqDecision kind.
Proof. solve_decision. Defined.

Definition kind_of (s : Seam) : kind :=
  match s with
  | EnterStage _ => KStage
  | Fresh | TraceId | UnixTime => KClock
  | ResolveInvocationTool _ _ _ | InlineThreshold => KResolve
  | MayDiscoverServer _ _ => KDiscover
  | RecordChained _ => KRecord
  | RecordRequired _ => KRequired
  | CompileSchema _ _ _ => KCompile
  | AuthorizeToolCall _ => KAuthorize
  | CheckAndConsume _ _ => KQuota
  | ClaimGrant _ => KClaim
  | RetainPending _ | NotifyApproval _ => KHold
  | TaskBindingOf _ | RegisterTask _ _ => KTask
  | AdmitFiles _ _ _ _ _ => KFileAdmit
  | DeliverFiles _ _ _ | DeliverContinuation _ _ _ => KFileIn
  | AdmitDispatch _ => KAdmit
  | DispatchTool _ => KDispatch
  | RoutingClaims | ResourceClaims _ | AuthorizeResourceRead _ _ _ _ | ReadResource _ _ _ => KRead
  | Inspect _ _ _ => KInspect
  | PrepareFiles _ _ | PrepareRetained _ _ | PublishFiles _ _ | DiscardFiles _ => KFileOut
  | Seal _ | Unseal _ => KSeal
  | InvokeModel _ _ _ => KModel
  end.

(** Only seams of the given kinds. *)
Definition only (l : list kind) (e : event Seam) : Prop := bool_decide (kind_of (ev_call e) ∈ l) = true.
Definition never (k : kind) (e : event Seam) : Prop := kind_of (ev_call e) ≠ k.

Lemma only_never l k t : k ∉ l → Forall (only l) t → Forall (never k) t.
Proof.
  intros Hk Ht. eapply Forall_impl; [exact Ht|]. intros e He%bool_decide_eq_true Heq. by rewrite Heq in He.
Qed.

Lemma emits_weaken {A} (Q R : event Seam → Prop) (m : M A) : emits Q m → (∀ e, Q e → R e) → emits R m.
Proof. intros Hm HQ c t r c' H. eapply Forall_impl; [by eapply Hm|done]. Qed.

Lemma emits_only {A} l l' (m : M A) : emits (only l) m → bool_decide (l ⊆ l') = true → emits (only l') m.
Proof.
  intros Hm Hl%bool_decide_eq_true. apply (emits_weaken (only l)); [done|].
  intros e He%bool_decide_eq_true. apply bool_decide_eq_true. set_solver.
Qed.

Lemma never_enters t : Forall (never KStage) t → Forall enters_none t.
Proof.
  intros Ht. eapply Forall_impl; [exact Ht|]. intros e He. unfold never in He. unfold enters_none.
  by destruct (ev_call e).
Qed.

Lemma emits_never {A} l k (m : M A) : emits (only l) m → bool_decide (k ∉ l) = true → emits (never k) m.
Proof. intros Hm Hk%bool_decide_eq_true c t r c' H. eapply only_never; [done|by eapply Hm]. Qed.

Lemma quiet_within {A} l (m : M A) : emits (only l) m → bool_decide (KStage ∉ l) = true → within [] m.
Proof.
  intros Hm Hl. apply within_quiet. intros c t r c' H. apply never_enters.
  eapply (emits_never l KStage m); done.
Qed.

(** ** Refusals *)

(** An answer by which a collaborator refuses the call. *)
Definition refuses (e : event Seam) : bool :=
  match e with
  | Event s x =>
      match s return answer s → bool with
      | ResolveInvocationTool _ _ _ => λ x, match x with ToolSnapshot.Ready _ => false | _ => true end
      | AuthorizeToolCall _ => λ x, match x with Allow _ | ApprovalRequired _ _ => false | _ => true end
      | CheckAndConsume _ _ => λ x, match x with Err (Quota.Quota.RateLimited _ _ _) => true | _ => false end
      | ClaimGrant _ => λ x, match x with Ok (Some _) => false | _ => true end
      | RecordRequired _ => λ x, negb x
      | AdmitFiles _ _ _ _ _ => λ x, negb (is_ok x.1)
      | _ => λ _, false
      end x
  end.

(** What may still happen after a refusal: rows, the clock, the hold for an approver and the
    question whether the server may be named. *)
Definition aftermath : list kind := [KClock; KRecord; KHold; KDiscover].

Definition is_row (e : event Seam) : Prop := kind_of (ev_call e) = KRecord.

(** The run fails with one of the given errors. *)
Definition fails_with {A} (E : InvocationError → Prop) (r : result A InvocationError) : Prop :=
  match r with Ok _ => False | Err er => E er end.

(** The stage fails with such an error and only leaves evidence; when [w], a row of the denial. *)
Definition aborts {A} (w : bool) (E : InvocationError → Prop) (m : M A) : Prop :=
  ∀ c t r c', mruns m c t r c' → fails_with E r ∧ Forall (only aftermath) t ∧ (w = true → Exists is_row t).

(** A refusal ends the stage with the error that reports it; one that [w] selects is followed by a row. *)
Definition halts {A} (w : event Seam → bool) (R : event Seam → InvocationError → Prop) (m : M A) : Prop :=
  ∀ c t r c' a e b, mruns m c t r c' → t = a ++ e :: b → refuses e = true →
    fails_with (R e) r ∧ Forall (only aftermath) b ∧ (w e = true → Exists is_row b).

Definition accepting (e : event Seam) : Prop := refuses e = false.

Lemma aborts_fail {A} (E : InvocationError → Prop) e : E e → aborts false E (fail e : M A).
Proof. intros He c t r c' (-> & -> & _)%mruns_fail. done. Qed.
Lemma aborts_bind {A B} E (m : M A) (k : A → M B) : emits (only aftermath) m → errs (λ _ _, False) m →
  (∀ a, aborts false E (k a)) → aborts false E (m ≫= k).
Proof.
  intros Hm Hn Hk c t r c' [(e & -> & H)|(t1 & t2 & a & c1 & -> & H1 & H2)]%mruns_bind.
  - by apply Hn in H.
  - destruct (Hk _ _ _ _ _ H2) as (Hr & Ht & _). split_and!; [done| |done]. apply Forall_app. split; [by eapply Hm|done].
Qed.

Section Halts.
Context (w : event Seam → bool) (R : event Seam → InvocationError → Prop).

Lemma halts_accepting {A} (m : M A) : emits accepting m → halts w R m.
Proof.
  intros Hm c t r c' a e b H -> Hr. apply Hm in H. apply Forall_app in H as [_ [He _]%Forall_cons_1].
  unfold accepting in He. congruence.
Qed.
Lemma halts_bind {A B} (m : M A) (k : A → M B) : halts w R m → (∀ a, halts w R (k a)) → halts w R (m ≫= k).
Proof.
  intros Hm Hk c t r c' a e b [(e' & -> & H)|(t1 & t2 & x & c1 & -> & H1 & H2)]%mruns_bind Ht Hr.
  - by destruct (Hm _ _ _ _ a e b H Ht Hr) as (He & Hb & Hrow).
  - apply app_eq_inv in Ht as [(k1 & -> & Ht)|(k1 & -> & Ht)].
    + destruct k1 as [|e' k1]; simplify_eq/=; [by eapply (Hk _ _ _ _ _ [])|].
      by destruct (Hm _ _ _ _ a e' k1 H1 eq_refl Hr).
    + by eapply Hk.
Qed.
Lemma halts_perform {B} s (k : answer s → M B) :
  (∀ x, refuses (Event s x) = true → aborts (w (Event s x)) (R (Event s x)) (k x)) → (∀ x, emits accepting (k x)) →
  halts w R (perform s ≫= k).
Proof.
  intros Hb Hq c t r c' a e b H Ht Hr. apply runs_call_inv in H as (x & t' & -> & H).
  destruct a as [|e' a]; simplify_eq/=; [by apply (Hb x) in H|]. apply Hq in H.
  apply Forall_app in H as [_ [He _]%Forall_cons_1]. unfold accepting in He. congruence.
Qed.
End Halts.

(** ** Automation *)

Create HintDb stages discriminated.

#[export] Hint Resolve emits_ret emits_fail emits_ask emits_modify emits_of_result pemits_ret
  errs_ret errs_ask errs_modify errs_attempt errs_lift keeps_ret keeps_fail keeps_ask keeps_of_result keeps_perform keeps_lift : stages.

Ltac sub_list :=
  simpl; solve [reflexivity | apply sublist_nil_l | apply sublist_skip; sub_list | apply sublist_cons; sub_list].

Ltac stage_step :=
  intros; cbn beta iota;
  match goal with
  | |- emits _ (match ?x with _ => _ end) => destruct x eqn:?
  | |- pemits _ (match ?x with _ => _ end) => destruct x eqn:?
  | |- keeps _ (match ?x with _ => _ end) => destruct x eqn:?
  | |- emits _ (perform ?s) => refine (emits_perform _ s _)
  | |- pemits _ (call ?s) => refine (pemits_call _ s _)
  | |- emits _ _ => first [apply emits_bind | apply emits_attempt | apply emits_lift]
  | |- pemits _ _ => apply pemits_bind
  | |- errs _ (match ?x with _ => _ end) => destruct x eqn:?
  | Hm : ∀ t1 t2 e, ?E t2 e → ?E (t1 ++ t2) e |- errs ?E (_ ≫= _) => apply (errs_bind E _ _ Hm)
  | |- errs ?E (perform ?s) => exact (errs_perform E s)
  | |- errs _ (fail _) => apply errs_fail
  | |- keeps _ _ => first [apply keeps_bind | apply keeps_attempt | apply keeps_modify]
  end.

Ltac stage_tac := repeat first [progress (eauto 1 with stages; try done) | stage_step]; try done.

(** One inversion of a run in the context. *)
Ltac run_step :=
  match goal with
  | H : mruns (mbind _ _) _ _ (Ok _) _ |- _ =>
      apply mruns_bind_ok in H as (? & ? & ? & ? & ? & ? & ?); subst; cbn beta iota in *
  | H : mruns (mret _) _ _ _ _ |- _ => apply mruns_ret in H as (? & ? & ?); simplify_eq
  | H : mruns (fail _) _ _ _ _ |- _ => apply mruns_fail in H as (? & ? & ?); simplify_eq
  | H : mruns (ask _) _ _ _ _ |- _ => apply mruns_ask in H as (? & ? & ?); simplify_eq
  | H : mruns (modify _) _ _ _ _ |- _ => apply mruns_modify in H as (? & ? & ?); simplify_eq
  | H : mruns (of_result _) _ _ _ _ |- _ => apply mruns_of_result in H as (? & ? & ?); simplify_eq
  | H : mruns (perform ?s) ?c ?t ?r ?c' |- _ =>
      apply (mruns_perform s c t r c') in H as (? & ? & ? & ?); simplify_eq
  | H : mruns (lift _) _ _ _ _ |- _ => apply mruns_lift in H as (? & ? & ? & ?); simplify_eq
  | H : mruns (attempt _) _ _ _ _ |- _ => apply mruns_attempt in H as (? & ? & ?); simplify_eq
  end.

Ltac run_cases :=
  repeat first
    [ run_step
    | match goal with H : mruns (match ?x with _ => _ end) _ _ _ _ |- _ => destruct x eqn:? end ].

End PipelineLogic.
