(* ===== verification/InvocationGates.v ===== *)
(** * The invocation pipeline: resolution and gates

    Model of the stages before dispatch in crates/waygate-mcp/src/invocation: mod.rs
    (resolve_tool, validate_input, extract_facts, authorize, check_quota,
    check_profile_restrictions, prepare_output_validation, record_pre_call),
    catalog_resolution.rs, validation.rs, approval.rs, and the admissions of mrtr.rs, files.rs
    and tasks.rs. Log lines and metrics are left out. *)

From stdpp Require Import pretty.
From S2P Require Import Prelude RustStr HashChain Facts Authz Evidence Quota Interact EmailRecipients SchemaHash ToolSnapshot ApprovalView Validation Continuation InvocationTypes Retained Pipeline.
Local Open Scope Z_scope.

Module InvocationGates.
Export Pipeline.Pipeline.
Export Evidence.Evidence(EvidenceCategory, Invocation, new, with_category, with_principal, with_tool,
  with_risk, with_pii, with_reason, with_trace_id, with_policies, with_latency_ms, with_decision_inputs,
  with_acting_agent, with_invocation_hierarchy, with_tenant, with_target, with_operation, with_outcome,
  with_id, ev_reason).
Export HashChain.HashChain(is_some).
Import Quota.Quota(QuotaContext, QuotaAction, QuotaError, Build_QuotaContext, SideEffectingCall, QSqlx, RateLimited).

Section Gates.
Context (S : Service) (I : CallInfo).

Definition P : Platform := platform S.
Definition fq : string := ci_server I +:+ "." +:+ ci_tool I.

(** ** Evidence *)

Definition audit_event (operation : option string) (action : string) (o : AuditOutcome)
  : prog Seam AuditEvent :=
  pbind (call Fresh) (λ '(id, now),
    Ret (with_operation operation
           (with_invocation_hierarchy (ci_hierarchy I)
              (with_acting_agent (ci_acting_agent I)
                 (new id now (default action (ci_task_action I)) o))))).

(** [audit_event] on the context, further builders, [record_chained_best_effort]. *)
Definition record (action : string) (o : AuditOutcome) (build : Ctx → AuditEvent → AuditEvent)
  : M unit :=
  c ← ask id;
  e ← lift (audit_event (cx_operation c) action o);
  perform (RecordChained (build c e)).

Definition on_call (e : AuditEvent) : AuditEvent :=
  with_tool (ci_server I) (ci_tool I) (with_principal (ci_principal I) e).

(** The builders every classified row of the tool plane carries. *)
Definition classified (c : Ctx) (e : AuditEvent) : AuditEvent :=
  with_pii (tf_pii (cx_effective_facts c))
    (with_risk (tf_risk (cx_effective_facts c)) (on_call e)).

Definition denied (reason : string) (c : Ctx) (e : AuditEvent) : AuditEvent :=
  with_reason reason (classified c (with_category Invocation e)).

Definition decision_inputs (f : ToolFacts) : list string * option string * list string * option bool :=
  match ci_principal I with
  | Some p => (scopes p, Some (auth_method_as_str (auth_method p)), roles p, Some (tf_side_effects f))
  | None => ([], None, [], None)
  end.

Definition with_inputs (i : list string * option string * list string * option bool)
    (e : AuditEvent) : AuditEvent :=
  let '(scopes, method, roles, side_effects) := i in
  with_decision_inputs scopes method roles side_effects e.

(** ** Stage 1: resolution *)

Definition may_disclose_server (server : string) : prog Seam bool :=
  match ci_principal I with
  | None => Ret true
  | Some p => if profile_blocks_server p server then Ret false else call (MayDiscoverServer p server)
  end.

Definition record_resolution (o : AuditOutcome) (server tool reason trace_id : string) : prog Seam unit :=
  pbind (audit_event None "CallTool" o) (λ e,
    call (RecordChained (with_trace_id trace_id (with_reason reason
      (with_tool server tool (with_principal (ci_principal I) e)))))).

Definition server_block (r : ToolRefusal) : option string :=
  match r with
  | ServerQuarantined => Some "server quarantined"
  | ServerRetired => Some "server retired"
  | _ => None
  end.

Definition refusal_error (server tool : string) (reason : ToolRefusal) : prog Seam InvocationError :=
  pbind (call TraceId) (λ trace_id,
  pbind (record_resolution Denied server tool ("refused:" +:+ refusal_code reason) trace_id) (λ _,
  let absent := EToolUnavailable (server +:+ "." +:+ tool) trace_id in
  match server_block reason with
  | None => Ret absent
  | Some block =>
      pbind (may_disclose_server server) (λ b,
        Ret (if b then EForbidden block [] [] (Some trace_id) else absent))
  end)).

Definition catalog_unavailable_error (server tool : string) (reason : TemporaryUnavailability)
  : prog Seam InvocationError :=
  pbind (call TraceId) (λ trace_id,
  pbind (record_resolution ExecutionError server tool ("unavailable:" +:+ unavailable_code reason) trace_id)
    (λ _,
  pbind (may_disclose_server server) (λ b,
    Ret (if negb b then EToolUnavailable (server +:+ "." +:+ tool) trace_id
         else EUpstream (internal_error
                ("the governed tool catalog is unavailable; retry the request (trace id " +:+ trace_id +:+ ")")
                (Some (Object [("error", Str "catalog_unavailable"); ("retryable", Bool true);
                               ("trace_id", Str trace_id)]))))))).

(** The context a call has once its snapshot is admitted. *)
Definition initial_ctx (s : InvocationToolSnapshot) (resolution : OperationResolution)
    (threshold : option Z) (arguments : option (list (string * Value)))
    (responses : option (list (string * Value))) (state : option string)
    (capabilities : option ClientCapabilities) : Ctx :=
  {| cx_snapshot := s; cx_effective_facts := facts_for s arguments;
     cx_operation := or_requested resolution; cx_operation_classified := or_classified resolution;
     cx_threshold := threshold; cx_pip_facts := None; cx_arguments := arguments;
     cx_count_adjustment := None; cx_input_responses := responses; cx_request_state := state;
     cx_caller_capabilities := capabilities; cx_task_binding := None; cx_latency_ms := None;
     cx_authz_policy_ids := []; cx_pending_redactions := []; cx_retained_response := None;
     cx_retained_operation_succeeded := false; cx_cedar_approval_policies := None;
     cx_policy_gated_grant_consumed := false; cx_digest := ""; cx_deliverable_keys := None;
     cx_compiled_input_validator := None; cx_task_origin := None |}.

Definition normalized (s : InvocationToolSnapshot) (arguments : option (list (string * Value)))
  : result (option (list (string * Value))) string :=
  match arguments with
  | None => Ok None
  | Some a => let? a := normalize_arguments P s a in Ok (Some a)
  end.

Definition admit_snapshot (s : InvocationToolSnapshot) (threshold : option Z)
    (arguments responses : option (list (string * Value))) (state : option string)
    (capabilities : option ClientCapabilities) : result Ctx InvocationError :=
  match normalized s arguments with
  | Err m => Err (EInvalidArguments m)
  | Ok arguments =>
      let resolution := resolve_operation s arguments in
      if or_inadmissible resolution then
        Err (EInvalidArguments ("`" +:+ default "operation" (discriminator s) +:+
          "` selects an operation this server will not carry: an operation name is 1 to 256 printable ASCII characters and contains no spaces"))
      else Ok (initial_ctx s resolution threshold arguments responses state capabilities)
  end.

Definition tenant_of : string := from_option tenant DEFAULT_TENANT (ci_principal I).

Definition inline_threshold (s : InvocationToolSnapshot) : prog Seam (result (option Z) ErrorData) :=
  if is_some (ci_principal I) && bool_decide (ci_delivery I = DeliverFile) then
    match inline_response_threshold_bytes s with
    | Some v => Ret (Ok (Some v))
    | None => if has_file_output S then call InlineThreshold else Ret (Ok None)
    end
  else Ret (Ok None).

Definition resolve_tool (arguments responses : option (list (string * Value))) (state : option string)
    (capabilities : option ClientCapabilities) : prog Seam (result Ctx InvocationError) :=
  pbind (call (ResolveInvocationTool tenant_of (ci_server I) (ci_tool I))) (λ resolved,
  match resolved with
  | Ready s =>
      pbind (inline_threshold s) (λ threshold,
      match threshold with
      | Err e => Ret (Err (EUpstream e))
      | Ok threshold => Ret (admit_snapshot s threshold arguments responses state capabilities)
      end)
  | Refused server tool reason => pbind (refusal_error server tool reason) (λ e, Ret (Err e))
  | Unavailable server tool reason => pbind (catalog_unavailable_error server tool reason) (λ e, Ret (Err e))
  end).

(** ** The authority ceiling *)

Definition refusal_row (reason : string) (_ : Ctx) (e : AuditEvent) : AuditEvent :=
  with_reason reason (on_call e).

Definition record_contract_drift_refusal : M unit :=
  record "CallTool" Denied (refusal_row "operation contract changed during execution").

Definition read_only_reason : string :=
  "operation is not admitted under the read-only authority ceiling".

Definition record_read_only_refusal : M unit := record "CallTool" Denied (refusal_row read_only_reason).

Definition record_read_only_operation_refusal : M unit :=
  record "CallTool" Denied (refusal_row
    "dispatch tool has no reviewed classification for this operation, so the read-only authority ceiling does not admit it").

Definition enforce_invocation_mode (mode : InvocationMode) (c : Ctx) : result unit InvocationError :=
  if negb (bool_decide (mode = ReadOnly)) then Ok tt
  else if negb (admitted_by_read_only_ceiling (facts (cx_snapshot c))) then Err (EReadOnlyRequired fq)
  else match discriminator (cx_snapshot c) with
       | None => Ok tt
       | Some d =>
           if negb (cx_operation_classified c) then
             Err (EReadOnlyOperationRequired fq d (default "<none>" (cx_operation c)))
           else Ok tt
       end.

(** ** Stage 2: input validation *)

Definition check_value_against_validator (v : Validator) (value : Value) (schema : option Value)
  : option string :=
  match validate S v value with
  | None => None
  | Some first => Some (Validation.sanitize_validation_error (to_string P) (json_pointer S) pretty first schema)
  end.

Definition record_input_validation_denial (reason : string) : M unit :=
  record "CallTool" Denied (denied reason).

Definition has_object_root (schema : Value) : bool :=
  match as_object schema with
  | None => false
  | Some o => bool_decide ((field "type" o ≫= as_str) = Some "object")
  end.

(** The schema to compile with the key the cache knows it by. *)
Definition input_compilation (s : InvocationToolSnapshot) : option (uuid * string * Value) :=
  match authority s, input_schema s with
  | Catalog tool_id schema_hash, Some schema => Some (tool_id, schema_hash, schema)
  | ManifestFallback _ _, Some schema => Some (0%N, "manifest:" +:+ fq, schema)
  | _, _ => None
  end.

Definition schema_unavailable (s : InvocationToolSnapshot) : bool :=
  input_schema_unavailable s ||
  match authority s, input_schema s with Catalog _ _, None => true | _, _ => false end.

Definition refuse_input {A} (reason : string) (e : InvocationError) : M A :=
  record_input_validation_denial reason;; fail e.

Definition validate_input : M unit :=
  s ← ask cx_snapshot;
  if schema_unavailable s then
    refuse_input "admitted input schema is unavailable" (EInputSchemaInvalid fq)
  else if match input_schema s with Some schema => negb (has_object_root schema) | None => false end then
    refuse_input "admitted input schema is invalid" (EInputSchemaInvalid fq)
  else
    match input_compilation s with
    | None => mret tt
    | Some (tool_id, key, schema) =>
        compiled ← perform (CompileSchema tool_id key schema);
        match compiled with
        | InvalidSchema => refuse_input "admitted input schema is invalid" (EInputSchemaInvalid fq)
        | ReadyValidator v =>
            modify (set_compiled_input_validator (Some v));;
            arguments ← ask cx_arguments;
            match check_value_against_validator v (Object (default [] arguments)) (input_schema s) with
            | None => mret tt
            | Some reason =>
                refuse_input ("input schema violation: " +:+ reason) (EInputSchemaViolation fq reason)
            end
        end
    end.

(** ** Stage 3: facts *)

Definition with_request (r : RequestFacts) (op : option string) (f : Facts Value) : Facts Value :=
  let res := resource f in
  {| principal := principal f; client_id := client_id f; tenant_id := tenant_id f; action := action f;
     resource :=
       {| rf_server := rf_server res; rf_tool := rf_tool res; rf_risk := rf_risk res;
          rf_side_effects := rf_side_effects res; rf_pii := rf_pii res;
          rf_data_classification := rf_data_classification res; rf_cost_class := rf_cost_class res;
          rf_uri := rf_uri res; rf_source_origin := rf_source_origin res;
          rf_artifact_digest := rf_artifact_digest res;
          rf_source_tree_digest := rf_source_tree_digest res; rf_skill_uri := rf_skill_uri res;
          rf_revision_digest := rf_revision_digest res; rf_content_digest := rf_content_digest res;
          rf_source_path := rf_source_path res; rf_source_object := rf_source_object res;
          rf_resource_type := rf_resource_type res; rf_operation := op |};
     request := Some r; context := context f |}.

Definition argument_digest (args : option (list (string * Value))) : string :=
  SchemaHash.argument_hash (sha256 P) (to_string P) args.

Definition request_facts (args : option (list (string * Value))) : RequestFacts :=
  {| discovery_only := false; email_recipients := Some (EmailRecipients.from_arguments args);
     target_domain := None; recipient_count := None; destructive := None; file_paths := [];
     Facts.argument_hash := argument_digest args |}.

(** The facts the gate decides on, for a caller, a context's classification and arguments. *)
Definition call_facts (p : Principal Value) (c : Ctx) : Facts Value :=
  with_request (request_facts (cx_arguments c)) (cx_operation c)
    (with_channel (build_call_facts p (cx_effective_facts c)) Direct).

Definition extract_facts : M unit :=
  match ci_principal I with
  | None => mret tt
  | Some p => modify (λ c, set_pip_facts (Some (call_facts p c)) c)
  end.

(** ** Stage 4: authorization *)

Definition decided (ids : list string) (f : Facts Value) (p : Principal Value) (reason : string)
    (e : AuditEvent) : AuditEvent :=
  with_reason reason
    (with_decision_inputs (scopes p) (Some (auth_method_as_str (auth_method p))) (roles p)
       (Some (rf_side_effects (resource f)))
       (with_policies ids
          (with_pii (rf_pii (resource f))
             (with_risk (rf_risk (resource f)) (on_call (with_category Invocation e)))))).

(** The accessor; [extract_facts] has filled the field whenever a stage reads it. *)
Definition pip_facts (p : Principal Value) (c : Ctx) : Facts Value :=
  default (call_facts p c) (cx_pip_facts c).

Definition authorize : M unit :=
  match ci_principal I with
  | None => mret tt
  | Some p =>
      f ← ask (pip_facts p);
      verdict ← perform (AuthorizeToolCall f);
      match verdict with
      | Allow ids => modify (set_authz_policy_ids ids)
      | Deny reason ids reasons =>
          record "CallTool" Denied (λ _, decided ids f p reason);;
          fail (EForbidden reason ids reasons None)
      | StepUpRequired scope reason ids =>
          record "CallTool" StepUpNeeded (λ _, decided ids f p ("scope " +:+ scope +:+ ": " +:+ reason));;
          fail (EStepUpRequired scope reason)
      | ApprovalRequired reason ids =>
          modify (λ c, set_cedar_approval_policies (Some ids) (set_authz_policy_ids ids c))
      end
  end.

(** ** Stage 5: profile restrictions *)

Definition evaluate_profile_restrictions (r : ApiKeyProfileRestrictions) (server tool : string)
  : result unit InvocationError :=
  let servers := default [] (allowed_servers r) in
  if negb (bool_decide (servers = [])) && negb (existsb (λ s, bool_decide (s = server)) servers) then
    Err (EProfileServerNotAllowed (profile_id r) (profile_name r) server)
  else
    let tools := default [] (allowed_tools r) in
    let name := server +:+ "." +:+ tool in
    if negb (bool_decide (tools = [])) && negb (existsb (λ t, bool_decide (t = name)) tools) then
      Err (EProfileToolNotAllowed (profile_id r) (profile_name r) name)
    else Ok tt.

Definition profile_target (e : InvocationError) : string * string :=
  match e with
  | EProfileServerNotAllowed _ _ server => ("server", server)
  | EProfileToolNotAllowed _ _ tool => ("tool", tool)
  | _ => ("unknown", "")
  end.

Definition check_profile_restrictions : M unit :=
  match ci_principal I ≫= api_key_profile_restrictions with
  | None => mret tt
  | Some r =>
      match evaluate_profile_restrictions r (ci_server I) (ci_tool I) with
      | Ok _ => mret tt
      | Err e =>
          let '(kind, target) := profile_target e in
          record "CallTool" Denied (denied
            ("profile_restricts_" +:+ kind +:+ " by `" +:+ profile_name r +:+ "` (" +:+ profile_id r +:+
             "); requested=" +:+ target));;
          fail e
      end
  end.

(** ** Stage 6: output validation is prepared *)

Definition prepare_output_validation : M unit :=
  s ← ask cx_snapshot;
  match authority s, output_schema s with
  | Catalog tool_id schema_hash, Some schema =>
      compiled ← perform (CompileSchema tool_id schema_hash schema);
      match compiled with
      | ReadyValidator v => modify (λ c, set_snapshot (set_output_validator v (cx_snapshot c)) c)
      | InvalidSchema =>
          record "CallTool" Denied (denied "approved output schema is invalid");;
          fail (EToolSchemaInvalid fq)
      end
  | _, _ => mret tt
  end.

(** ** Continuations *)

Definition approval_gated (c : Ctx) : bool :=
  tf_requires_approval (cx_effective_facts c) || is_some (cx_cedar_approval_policies c).

Definition refuse_continuation_inputs_when_approval_gated : M unit :=
  c ← ask id;
  if negb (approval_gated c) then mret tt
  else if is_some (cx_input_responses c) || is_some (cx_request_state c) then
    fail (EInvalidArguments ("`" +:+ fq +:+
      "` requires human approval and is single-round: the approved call carries no `inputResponses` or `requestState`; retry with exactly the approved arguments"))
  else mret tt.

Definition call_identity (c : Ctx) : CallIdentity :=
  {| id_server := ci_server I; id_tool := ci_tool I; id_digest := cx_digest c;
     id_contract := contract_string S (contract_identity P (cx_snapshot c)) |}.

Definition verify_continuation : M unit :=
  modify (λ c, set_digest (argument_digest (cx_arguments c)) c);;
  c ← ask id;
  match has_sealer S, cx_request_state c, ci_principal I with
  | true, Some sealed, Some p =>
      claims ← perform (Unseal sealed);
      now ← perform UnixTime;
      match open (λ _, claims) now p (call_identity c) sealed (default [] (cx_input_responses c)).*1 with
      | Ok verified =>
          modify (λ c, set_deliverable_keys (Some (verified_keys verified))
                         (set_request_state (upstream_state verified) c))
      | Err _ =>
          fail (EInvalidArguments ("`" +:+ fq +:+
            "` received continuation state this gateway did not issue for this caller and tool; retry the original request"))
      end
  | _, _, _ => mret tt
  end.

(** ** File admission *)

Fixpoint schema_declares_file_inputs (schema : Value) : bool :=
  match schema with
  | Object o => contains_key "x-mcp-file" o || existsb (λ kv, schema_declares_file_inputs kv.2) o
  | Array items => existsb schema_declares_file_inputs items
  | _ => false
  end.

Definition record_file_admission_refusal (e : ErrorData) : M unit :=
  record "CallTool" Denied (denied ("file input refused before dispatch: " +:+ message e)).

(** The schema handed to admission, or [None] when nothing has to be admitted. *)
Definition admission_schema (c : Ctx) : option (option Value) :=
  match input_schema (cx_snapshot c) with
  | Some schema =>
      if schema_declares_file_inputs schema then Some (Some schema)
      else if is_some (cx_input_responses c) then Some None else None
  | None => if is_some (cx_input_responses c) then Some None else None
  end.

Definition admit_file_inputs : M unit :=
  c ← ask id;
  if negb (has_file_input S) then mret tt
  else match admission_schema c with
       | None => mret tt
       | Some schema =>
           r ← perform (AdmitFiles schema (cx_compiled_input_validator c) (cx_arguments c)
                          (cx_input_responses c) (default [] (cx_deliverable_keys c)));
           let '(outcome, arguments) := r in
           modify (set_arguments arguments);;
           match outcome with
           | Ok _ => mret tt
           | Err e => record_file_admission_refusal e;; fail (EUpstream e)
           end
       end.

(** ** Tasks *)

(** [extensions.remove] on the caller's capabilities; the extension map is ordered by key. *)
Definition without_tasks (caps : ClientCapabilities) : ClientCapabilities :=
  {| elicitation := elicitation caps;
     extensions := List.filter (λ kv, negb (bool_decide (kv.1 = TASKS_EXTENSION_ID S))) <$> extensions caps |}.

Definition operation_arguments (c : Ctx) : list (string * Value) :=
  match discriminator (cx_snapshot c) with
  | None => []
  | Some key =>
      match cx_arguments c ≫= field key with
      | Some v => [(key, v)]
      | None => []
      end
  end.

Definition task_binding_of : prog Seam (option string) :=
  if has_task_router S && is_some (ci_principal I) then call (TaskBindingOf (ci_server I)) else Ret None.

Definition prepare_task_origin : M unit :=
  c ← ask id;
  if negb (from_option (supports_tasks S) false (cx_caller_capabilities c)) then mret tt
  else
    binding ← lift task_binding_of;
    match binding, ci_principal I with
    | Some binding, Some p =>
        modify (λ c, set_task_binding (Some binding)
          (set_task_origin
             (Some (new_route p (ci_server I) (ci_tool I) binding (contract_identity P (cx_snapshot c))
                      (operation_arguments c)
                      (default (request_facts (cx_arguments c)) (request (pip_facts p c))))) c))
    | _, _ => modify (λ c, set_caller_capabilities (without_tasks <$> cx_caller_capabilities c) c)
    end.

(** ** Stage 7: quota *)

Definition quota_actions (f : ToolFacts) : list QuotaAction :=
  if tf_side_effects f then [Quota.Quota.Call; SideEffectingCall] else [Quota.Quota.Call].

Definition quota_context (p : Principal Value) : QuotaContext :=
  {| Quota.Quota.ctx_tenant_id := tenant p; Quota.Quota.ctx_principal_sub := Some (sub p);
     Quota.Quota.ctx_client_id := None; Quota.Quota.ctx_server := ci_server I;
     Quota.Quota.ctx_fq_tool := fq |}.

Definition check_quota : M unit :=
  match has_quota S, ci_principal I with
  | true, Some p =>
      f ← ask cx_effective_facts;
      r ← perform (CheckAndConsume (quota_context p) (quota_actions f));
      match r with
      | Ok _ => mret tt
      | Err (RateLimited policy_id name retry) =>
          record "CallTool" Denied (denied
            ("rate_limited by policy `" +:+ name +:+ "` (" +:+ uuid_hyphenated policy_id +:+
             "); retry_after_seconds=" +:+ pretty retry));;
          fail (ERateLimited policy_id name retry)
      | Err QSqlx => mret tt
      end
  | _, _ => mret tt
  end.

(** ** Stage 8: approval *)

Definition approval_refusal (reason : string) (satisfiable : bool) : InvocationError :=
  EApprovalRequired fq reason satisfiable.

Definition schema_properties (s : InvocationToolSnapshot) : list string :=
  default [] (schema ← input_schema s; fields ← (get "properties" schema ≫= as_object); Some fields.*1).

Definition summary_of (c : Ctx) : ApprovalSummary :=
  {| as_description := published_definition (cx_snapshot c) ≫= tool_description;
     affected_fields :=
       List.filter (λ name, from_option (contains_key name) false (cx_arguments c))
         (schema_properties (cx_snapshot c)) |}.

Definition approval_needed (p : Principal Value) (behavior_hash arg_hash : string) (c : Ctx)
  : HitlApprovalNeeded :=
  {| pending_request_id := None; hn_summary := summary_of c; hn_tenant_id := tenant p;
     hn_principal_sub := sub p; hn_principal_issuer := issuer p; hn_server := ci_server I;
     hn_tool := ci_tool I; hn_argument_hash := arg_hash; hn_behavior_hash := behavior_hash |}.

Definition with_request_id (id : option uuid) (n : HitlApprovalNeeded) : HitlApprovalNeeded :=
  {| pending_request_id := id; hn_summary := hn_summary n; hn_tenant_id := hn_tenant_id n;
     hn_principal_sub := hn_principal_sub n; hn_principal_issuer := hn_principal_issuer n;
     hn_server := hn_server n; hn_tool := hn_tool n; hn_argument_hash := hn_argument_hash n;
     hn_behavior_hash := hn_behavior_hash n |}.

Definition pending_request (p : Principal Value) (tool_id : uuid) (behavior_hash arg_hash : string)
    (c : Ctx) : NewInvocationRequest :=
  let fields := schema_properties (cx_snapshot c) in
  let arguments := Object (default [] (cx_arguments c)) in
  {| nr_tenant := tenant p; nr_principal_issuer := issuer p; nr_principal_sub := sub p;
     nr_tool_id := tool_id; nr_server := ci_server I; nr_tool := ci_tool I;
     nr_behavior_hash := behavior_hash; nr_argument_hash := arg_hash; nr_summary := summary_of c;
     nr_argument_values :=
       default [] (as_object (ApprovalView.approval_view (redact_secrets S) arguments
                                (sensitive_input (cx_snapshot c)) fields));
     nr_undisclosed_fields :=
       ApprovalView.undisclosed_fields arguments (sensitive_input (cx_snapshot c)) fields |}.

Definition grant_lookup (p : Principal Value) (tool_id : uuid) (behavior_hash : string) (c : Ctx)
  : GrantLookup :=
  {| gl_tenant_id := tenant p; gl_principal_sub := sub p; gl_principal_issuer := issuer p;
     gl_client_id := None; gl_tool_id := tool_id;
     gl_argument_hash :=
       approval_binding_hash (sha256 P) behavior_hash (argument_digest (cx_arguments c));
     gl_execution_binding :=
       (λ b, {| gb_execution_id := execution_id b; gb_source_digest := source_digest b;
                gb_call_id := ab_call_id b |}) <$> ci_approval_binding I |}.

(** No grant matched: the request is retained for an approver, who is notified. *)
Definition hold_for_approval (p : Principal Value) (tool_id : uuid) (behavior_hash : string) : M unit :=
  c ← ask id;
  let arg_hash := argument_digest (cx_arguments c) in
  request_id ← (if negb (is_some (ci_approval_binding I)) && has_pending_store S
                then perform (RetainPending (pending_request p tool_id behavior_hash arg_hash c))
                else mret None : M (option uuid));
  (if has_notifier S
   then perform (NotifyApproval (with_request_id request_id (approval_needed p behavior_hash arg_hash c)))
   else mret tt : M unit);;
  fail (approval_refusal "tool requires human approval; no matching grant" true).

Definition claim (p : Principal Value) (tool_id : uuid) (behavior_hash : string) : M unit :=
  c ← ask id;
  r ← perform (ClaimGrant (grant_lookup p tool_id behavior_hash c));
  match r with
  | Ok (Some _) =>
      if is_some (cx_cedar_approval_policies c) then modify (set_policy_gated_grant_consumed true)
      else mret tt
  | Ok None => hold_for_approval p tool_id behavior_hash
  | Err _ => fail (approval_refusal "approval store unavailable" false)
  end.

(** Neither authority asks for a grant. *)
Definition no_approval_needed (c : Ctx) : bool :=
  negb (is_some (cx_cedar_approval_policies c)) &&
  tf_requires_approval_known (cx_effective_facts c) &&
  negb (tf_requires_approval (cx_effective_facts c)).

Definition approval_authority_unknown (a : ResolutionAuthority) : bool :=
  match a with ManifestFallback false _ => true | _ => false end.

Definition check_approval_inner : M unit :=
  c ← ask id;
  if approval_authority_unknown (authority (cx_snapshot c)) then
    fail (approval_refusal "approval authority unavailable" false)
  else if no_approval_needed c then mret tt
  else
    match ci_principal I with
    | None => fail (approval_refusal "HITL approval requires an authenticated principal" false)
    | Some p =>
        if negb (has_catalog_store S) then fail (approval_refusal "approval store unavailable" false)
        else
          match authority (cx_snapshot c) with
          | Catalog tool_id schema_hash => claim p tool_id schema_hash
          | ManifestFallback known _ =>
              fail (approval_refusal
                (if known then "approval-required manifest tool has no authoritative catalog identity"
                 else "approval authority unavailable") false)
          | SyntheticModel =>
              fail (approval_refusal "synthetic model has no approval-grant identity" false)
          end
    end.

Definition check_approval : M unit :=
  r ← attempt check_approval_inner;
  (match r with
   | Err (EApprovalRequired _ reason _) =>
       record "CallTool" Denied (λ c e,
         with_reason ((if is_some (cx_cedar_approval_policies c) then "approval required by policy"
                       else "approval required") +:+ ": " +:+ reason)
           (with_inputs (decision_inputs (cx_effective_facts c))
              (with_policies (cx_authz_policy_ids c) (classified c (with_category Invocation e)))))
   | _ => mret tt
   end : M unit);;
  of_result r.

(** ** Stage 9: evidence before dispatch *)

Definition record_pre_call : M unit :=
  c ← ask id;
  match audit_mode S with
  | BestEffort => mret tt
  | FailClosed =>
      if negb (tf_side_effects (cx_effective_facts c)) then mret tt
      else
        e ← lift (audit_event (cx_operation c) "CallTool" Success);
        stored ← perform (RecordRequired
          (with_reason "pre_call"
             (with_inputs (decision_inputs (cx_effective_facts c))
                (with_policies (cx_authz_policy_ids c) (classified c (with_category Invocation e))))));
        if (stored : bool) then mret tt else fail (EAuditUnavailable "evidence backend unavailable")
  end.

End Gates.

End InvocationGates.
