(* ===== verification/InvocationResponse.v ===== *)
(** * The invocation pipeline: dispatch, response and orchestration

    Model of the stages from dispatch on in crates/waygate-mcp/src/invocation (mod.rs, files.rs,
    mrtr.rs, tasks.rs, result_trust.rs, retained_response.rs, outcome.rs) and of [invoke], which
    composes all of them. The inference plane is one seam ([InvokeModel]). The catalogue's default
    [call_tool_response_processed] (catalog.rs) is the composition of the dispatch seam with the
    retained-response processor. *)

From Stdlib Require Import Ascii.
From stdpp Require Import pretty.
From S2P Require Import Prelude RustStr HashChain Facts Authz Evidence Interact SchemaHash ToolSnapshot Validation Continuation InvocationTypes Retained Pipeline InvocationGates.
Local Open Scope Z_scope.

Module InvocationResponse.
Export InvocationGates.InvocationGates.

(** [CallToolResult::structured] *)
Definition structured (to_string : Value → string) (v : Value) : CallToolResult :=
  {| content := [Text (to_string v)]; structured_content := Some v; is_error := Some false; meta := None;
     result_type := None |}.

Section Response.
Context (S : Service) (I : CallInfo).
Local Abbreviation P := (P S).
Local Abbreviation fq := (fq I).
Local Abbreviation record := (record I).
Local Abbreviation text_of := (to_string P).

(** ** Delivery of file inputs *)

Definition file_input_context (c : Ctx) : FileInputContext :=
  {| fi_principal := ci_principal I; fi_server := ci_server I; fi_tool := ci_tool I;
     fi_invocation_id := ci_invocation_id I;
     fi_admitted_contract := contract_identity P (cx_snapshot c);
     fi_compiled_input_schema := cx_compiled_input_validator c |}.

Definition deliver_continuation : M unit :=
  c ← ask id;
  match default [] (cx_deliverable_keys c), cx_input_responses c with
  | _ :: _ as keys, Some responses =>
      r ← perform (DeliverContinuation (file_input_context c) responses keys);
      let '(outcome, responses) := r in
      modify (set_input_responses (Some responses));;
      match outcome with
      | Ok _ => mret tt
      | Err e => fail (EUpstream e)
      end
  | _, _ => mret tt
  end.

Definition prepare_and_validate_file_inputs : M unit :=
  if negb (has_file_input S) then mret tt
  else
    c ← ask id;
    r ← perform (DeliverFiles (file_input_context c) (input_schema (cx_snapshot c)) (cx_arguments c));
    let '(outcome, arguments) := r in
    modify (set_arguments arguments);;
    match outcome with
    | Err e => fail (EUpstream e)
    | Ok rewritten =>
        (if (rewritten : bool) then validate_input S I else mret tt : M unit);;
        deliver_continuation
    end.

(** ** Encoded sizes *)

Definition encoded_len_at_most (v : option Value) (limit : Z) : result (option Z) unit :=
  match v with
  | None => Err tt
  | Some v =>
      let n := Z.of_nat (len (text_of v)) in
      Ok (if limit <? n then None else Some n)
  end.

Definition encoded_len_within (v : option Value) (limit : Z) : result bool unit :=
  let? n := encoded_len_at_most v limit in Ok (is_some n).

Definition fits (v : option Value) (limit : Z) : bool :=
  match encoded_len_within v limit with Ok b => b | Err _ => false end.

(** ** Retained responses *)

Definition is_reserved_file_uri (uri : string) : bool :=
  match split_once ":"%char uri with
  | Some (scheme, _) => bool_decide (to_ascii_lowercase scheme = "mcp-file")
  | None => false
  end.

Definition deny_retained_resource {A} (reason : string) : M A :=
  record "ResponseDelivery" Denied (λ c e, with_reason reason (classified I c e));;
  fail (EForbidden reason [] [] None).

(** The byte budget of a recovery and whether the body is handed over inline. *)
Definition recovery_budget (declared : Z) : option Z * bool :=
  let file_limit := if has_file_output S then retained_response_max_bytes S else None in
  let materialize := bool_decide (ci_delivery I = Materialize) &&
                     from_option (λ limit, declared <=? limit) false (ci_materialization_limit I) in
  (if materialize then ci_materialization_limit I
   else match file_limit with
        | Some l => Some l
        | None => if bool_decide (ci_delivery I = Materialize) then ci_materialization_limit I else None
        end, materialize).

Definition fleet_claims : prog Seam (list (string * ResourceClaim)) :=
  pbind (call RoutingClaims) (λ claims,
  match claims with
  | [] => pbind (call (ResourceClaims (ci_server I))) (λ own, Ret ((λ c, (ci_server I, c)) <$> own))
  | _ => Ret claims
  end).

(** [max_by_key(severity)]: the last of the most severe. *)
Definition most_severe (risks : list RiskTier) : option RiskTier :=
  foldl (λ acc r, match acc with
                  | Some a => if severity r <? severity a then Some a else Some r
                  | None => Some r
                  end) None risks.

Definition matching_claims (uri : string) (claims : list (string * ResourceClaim))
  : list (string * ResourceClaim) := List.filter (λ sc, starts_with (uri_prefix sc.2) uri) claims.

(** Which risk the read is decided at, or why the resource is not this server's to read. *)
Definition resource_risk (uri : string) (claims : list (string * ResourceClaim)) : result RiskTier string :=
  let matching := matching_claims uri claims in
  if existsb (λ sc, negb (bool_decide (sc.1 = ci_server I))) matching then
    Err "retained connector response is owned by another upstream's declared resource prefix"
  else match most_severe ((λ sc, claim_risk sc.2) <$> matching) with
       | Some r => Ok r
       | None =>
           if negb (existsb (λ sc, bool_decide (sc.1 = ci_server I)) claims) then Ok Low
           else Err "retained connector response is outside the server's declared resource prefixes"
       end.

Definition verdict_reason (v : AuthzVerdict) : string * list string :=
  match v with
  | Allow _ => ("retained resource read authorized", [])
  | Deny reason _ reasons => (reason, reasons)
  | StepUpRequired _ reason _ | ApprovalRequired reason _ => (reason, [])
  end.

(** The read of the retained resource is decided and recorded on its own. *)
Definition authorize_retained_read (p : Principal Value) (uri : string) (risk : RiskTier) : M unit :=
  visible ← perform (MayDiscoverServer p (ci_server I));
  if negb visible then deny_retained_resource "retained connector response server is not discoverable"
  else if profile_blocks_resources p (ci_server I) then
    deny_retained_resource ("API key profile does not allow native resources on `" +:+ ci_server I +:+ "`")
  else
    verdict ← perform (AuthorizeResourceRead p (ci_server I) uri risk);
    let '(reason, reasons) := verdict_reason verdict in
    record "ReadResource" (if is_allow verdict then Success else Denied) (λ _ e,
      with_operation None
        (with_decision_inputs (scopes p) (Some (auth_method_as_str (auth_method p))) (roles p) None
           (with_reason reason (with_policies (policy_ids verdict) (with_risk risk
              (with_target uri (with_tool (ci_server I) "resources/read"
                 (with_tenant (tenant p) (with_principal (Some p) e)))))))));;
    if is_allow verdict then mret tt else fail (EForbidden reason (policy_ids verdict) reasons None).

Definition RESPONSE_MATERIALIZATION_LIMIT_ERROR : string := "gateway_response_materialization_limit".

Definition read_failure (t : RetainedResponse) (limit : Z) (e : ReadError) : InvocationError :=
  match e with
  | Transport => recovery_failure t
  | Mcp e =>
      if bool_decide (error_label e = Some RESPONSE_MATERIALIZATION_LIMIT_ERROR) then
        EResponseMaterializationLimit fq (u64_saturating_add limit 1) limit
      else if bool_decide (error_label e = Some "bounded_resource_read_unsupported") then
        recovery_error t "bounded_resource_read_unsupported"
      else if code e =? RESOURCE_NOT_FOUND_CODE S then
        recovery_error t "retained_response_resource_unavailable"
      else recovery_failure t
  end.

Definition hydration_failure (t : RetainedResponse) (limit : Z) (e : RetainedResponseError)
  : InvocationError :=
  match e with
  | MaterializationLimit n => EResponseMaterializationLimit fq n limit
  | _ => recovery_failure t
  end.

Definition read_limit (limit : Z) : Z := u64_saturating_add (Z.min u64_max (limit * 6)) 4096.

(** The resource is read, the result hydrated and the recovered body kept with the call. *)
Definition read_retained (t : RetainedResponse) (limit : Z) (materialize : bool) (r : CallToolResult)
  : M CallToolResult :=
  read ← perform (ReadResource (ci_server I) (rr_uri t) (read_limit limit));
  match read with
  | Err e => fail (read_failure t limit e)
  | Ok contents =>
      match resource_bytes (base64_decode S) contents, hydrate (from_str S) (base64_decode S) r t contents limit with
      | Err _, _ => fail (recovery_failure t)
      | Ok _, Err e => fail (hydration_failure t limit e)
      | Ok bytes, Ok hydrated =>
          let encoded_fits :=
            from_option (fits (structured_content hydrated)) false (ci_materialization_limit I) in
          modify (set_retained_response (Some
            {| target := t; original := r; body_bytes := bytes;
               body_value := default Null (structured_content hydrated ≫= get "data");
               binary := is_blob contents;
               file_delivery := negb materialize || is_blob contents || negb encoded_fits |}));;
          mret hydrated
      end
  end.

Definition recover_target (t : RetainedResponse) (r : CallToolResult) : M CallToolResult :=
  modify (set_retained_operation_succeeded true);;
  if is_reserved_file_uri (rr_uri t) then
    deny_retained_resource "retained connector response uses the reserved gateway file URI namespace"
  else
    let '(budget, materialize) := recovery_budget (declared_bytes t) in
    match budget with
    | None =>
        fail (EUpstream (internal_error "retained response requires configured gateway file storage"
          (Some (Object [("error", Str "retained_response_storage_unavailable")]))))
    | Some budget =>
        let limit := Z.min budget MAX_RETAINED_BODY_BYTES in
        if limit <? declared_bytes t then fail (EResponseMaterializationLimit fq (declared_bytes t) limit)
        else
          claims ← lift fleet_claims;
          match resource_risk (rr_uri t) claims with
          | Err reason => deny_retained_resource reason
          | Ok risk =>
              (match ci_principal I with
               | None => mret tt
               | Some p => authorize_retained_read p (rr_uri t) risk
               end : M unit);;
              read_retained t limit materialize r
          end
    end.

(** Delivery metadata is the gateway's own: what the upstream wrote there is dropped. *)
Definition drop_delivery_meta (r : CallToolResult) : CallToolResult :=
  set_meta (remove RETAINED_DELIVERY_META_KEY <$> meta r) r.

Definition recover_retained_response (r : CallToolResult) : M CallToolResult :=
  let r := drop_delivery_meta r in
  match recognize r with
  | Err e =>
      fail (EUpstream (internal_error (retained_error_text e)
        (Some (Object [("error", Str "retained_response_invalid_envelope")]))))
  | Ok None => mret r
  | Ok (Some t) => recover_target t r
  end.

Definition failure_reason (e : InvocationError) : string :=
  match e with
  | EUpstream e =>
      match error_label e with
      | Some l =>
          if bool_decide (l ∈ ["retained_response_storage_unavailable";
                               "retained_response_resource_unavailable";
                               "retained_response_invalid_envelope"; "bounded_resource_read_unsupported"])
          then l else RECOVERY_FAILED_ERROR
      | None => RECOVERY_FAILED_ERROR
      end
  | e => error_kind e
  end.

(** [RetainedResponseProcessor::process] *)
Definition process (r : CallToolResult) : M CallToolResult :=
  let envelope := match recognize r with Ok None => None | _ => Some r end in
  outcome ← attempt (recover_retained_response r);
  f ← ask cx_effective_facts;
  match outcome, envelope with
  | Err e, Some envelope =>
      if tf_side_effects f then
        modify (set_retained_operation_succeeded true);;
        mret (delivery_failure text_of (failure_reason e) envelope)
      else fail e
  | Err e, None => fail e
  | Ok r, _ => mret r
  end.

(** ** Stage 10: dispatch *)

(** Ordinary continuations are withheld from an approval-gated call; tasks stay available. *)
Definition narrowed_capabilities (c : Ctx) : option ClientCapabilities :=
  if approval_gated c then
    if from_option (supports_tasks S) false (cx_caller_capabilities c) then
      Some {| elicitation := false; extensions := Some [(TASKS_EXTENSION_ID S, Object [])] |}
    else None
  else cx_caller_capabilities c.

(** The arguments that leave, with the adjustment reported when a count was clamped. *)
Definition outgoing_arguments (c : Ctx) : option (list (string * Value)) * option CountAdjustment :=
  match cx_arguments c with
  | None => (None, None)
  | Some args =>
      match clamp_count P (cx_snapshot c) args with
      | Some (adjustment, clamped) => (Some clamped, Some adjustment)
      | None => (Some args, None)
      end
  end.

Definition dispatch_call (c : Ctx) : DispatchCall :=
  {| dc_server := ci_server I; dc_tool := ci_tool I; dc_arguments := (outgoing_arguments c).1;
     dc_principal := ci_principal I; dc_admitted := contract_identity P (cx_snapshot c);
     dc_input_responses := cx_input_responses c; dc_request_state := cx_request_state c;
     dc_caller_capabilities := narrowed_capabilities c; dc_approval_gated := approval_gated c;
     dc_task_binding := cx_task_binding c |}.

(** The request state and responses move into the call; the capabilities stay for the pause. *)
Definition take_for_dispatch (c : Ctx) : Ctx :=
  set_caller_capabilities (narrowed_capabilities c)
    (set_count_adjustment (outgoing_arguments c).2
       (set_arguments None (set_input_responses None (set_request_state None c)))).

Definition dispatch : M CallToolResponse :=
  c ← ask id;
  modify take_for_dispatch;;
  r ← perform (DispatchTool (dispatch_call c));
  let '(response, latency) := r in
  outcome ← attempt (match response with
                     | Err e => fail (EUpstream e)
                     | Ok (Complete r) => r ← process r; mret (Complete r)
                     | Ok other => mret other
                     end : M CallToolResponse);
  modify (set_latency_ms (Some latency));;
  of_result outcome.

(** ** Result trust *)

Definition TRUST_ANNOTATIONS_KEY : string := "io.modelcontextprotocol/trust-annotations".

Record ResultTrust := { sensitive : bool; untrusted : bool }.
Inductive ResultTrustError := TrustMissing | TrustMalformed.

Definition trust_error_text (e : ResultTrustError) : string :=
  match e with
  | TrustMissing => "result trust annotations are missing"
  | TrustMalformed => "result trust annotations must contain explicit sensitive and untrusted booleans"
  end.

Definition parse_trust (r : CallToolResult) : result ResultTrust ResultTrustError :=
  match (meta r ≫= field TRUST_ANNOTATIONS_KEY) ≫= as_object with
  | None => Err TrustMissing
  | Some trust =>
      match field "sensitive" trust ≫= as_bool, field "untrusted" trust ≫= as_bool with
      | Some s, Some u => Ok {| sensitive := s; untrusted := u |}
      | _, _ => Err TrustMalformed
      end
  end.

Definition response_audit_action (c : Ctx) : string :=
  if tf_side_effects (cx_effective_facts c) && cx_retained_operation_succeeded c then "ResponseDelivery"
  else "CallTool".

(** [audit_event(response_audit_action(), Denied)] with the classification. *)
Definition record_response_denial (reason : string) : M unit :=
  c ← ask id;
  record (response_audit_action c) Denied (λ c e, with_reason reason (classified I c e)).

Definition block_response {A} (inspector reason : string) : M A :=
  record_response_denial ("response inspector `" +:+ inspector +:+ "` blocked");;
  fail (EResponseInspectionBlocked fq inspector reason).

Definition trust_refusal (r : CallToolResult) (anticipated : bool) : option string :=
  match parse_trust r with
  | Ok t => if sensitive t && negb anticipated then
              Some "result sensitivity exceeds the admitted tool contract"
            else None
  | Err e => Some (trust_error_text e)
  end.

Definition enforce_trust (r : CallToolResult) (anticipated : bool) : M unit :=
  match trust_refusal r anticipated with
  | None => mret tt
  | Some reason => block_response "trust-annotations" reason
  end.

Definition enforce_claims (r : CallToolResult) : M unit :=
  s ← ask cx_snapshot;
  if annotation_claims_enforced s then enforce_trust r (anticipated_sensitive_output s) else mret tt.

(** ** Stage 11: inspection *)

Definition inspection_context (c : Ctx) : InspectionContext :=
  {| ic_tenant := tenant_of I; ic_principal_sub := sub <$> ci_principal I; ic_server := ci_server I;
     ic_tool := ci_tool I; ic_risk := tf_risk (cx_effective_facts c);
     ic_pii_classified := tf_pii (cx_effective_facts c) |}.

Fixpoint run_inspectors (ic : InspectionContext) (names : list string) (working : CallToolResult)
  : M CallToolResult :=
  match names with
  | [] => mret working
  | name :: names =>
      d ← perform (Inspect name ic working);
      match d with
      | Pass => run_inspectors ic names working
      | Redact redacted findings =>
          modify (λ c, set_pending_redactions (cx_pending_redactions c ++ [(name, findings)]) c);;
          run_inspectors ic names redacted
      | Block reason => block_response name reason
      end
  end.

Definition inspect_response (r : CallToolResult) : M CallToolResult :=
  ic ← ask inspection_context;
  enforce_claims r;;
  run_inspectors ic (inspectors S) r.

(** ** Stage 12: output validation *)

Definition response_output_validator (c : Ctx) (r : CallToolResult) : option Validator :=
  if cx_retained_operation_succeeded c &&
     from_option (contains_key RETAINED_DELIVERY_META_KEY) false (meta r) then Some (delivery_validator S)
  else output_validator (cx_snapshot c).

Definition output_violation (c : Ctx) (r : CallToolResult) : option string :=
  v ← structured_content r;
  validator ← response_output_validator c r;
  check_value_against_validator S validator v None.

Definition validate_output (result : result CallToolResult InvocationError) : M unit :=
  match result with
  | Err _ => mret tt
  | Ok r =>
      c ← ask id;
      match output_violation c r with
      | None => mret tt
      | Some reason =>
          record_response_denial "output schema violation";;
          fail (EOutputSchemaViolation fq reason)
      end
  end.

End Response.
End InvocationResponse.
