(* ===== verification/Invoke.v ===== *)
(** * The invocation pipeline: pauses, file outputs, outcome rows and [invoke]

    The rest of crates/waygate-mcp/src/invocation: the admission of upstream pauses (mrtr.rs) and
    tasks (tasks.rs), file outputs and large inline results (files.rs), the outcome row (mod.rs,
    outcome.rs, retained_response.rs), and [invoke] with its stage order. *)

From stdpp Require Import pretty.
From S2P Require Import Prelude RustStr HashChain Facts Authz Evidence Interact SchemaHash ToolSnapshot Validation Continuation InvocationTypes Retained Pipeline InvocationGates InvocationResponse.
Local Open Scope Z_scope.

Module Invoke.
Export InvocationResponse.InvocationResponse.
Import HashChain.HashChain(Uuid, InvocationHierarchy, parent_execution_id, call_id).

#[export] Instance ContentBlock_eq_dec : EqDecision ContentBlock.
Proof. solve_decision. Defined.

Section Tail.
Context (S : Service) (I : CallInfo).
Local Abbreviation P := (P S).
Local Abbreviation fq := (fq I).
Local Abbreviation record := (record I).
Local Abbreviation text_of := (to_string P).

(** ** Pauses *)

Definition APPROVAL_INPUT_REQUEST_KEY : string := "gateway:approval".

Definition pause_collides_with_reserved_key (p : InputRequiredResult) : bool :=
  from_option (λ rs, bool_decide (APPROVAL_INPUT_REQUEST_KEY ∈ rs.*1)) false (input_requests p).

Definition reserved_key_collision_error : InvocationError :=
  EUpstream (internal_error ("upstream `" +:+ ci_server I +:+ "` paused with the reserved `" +:+
    APPROVAL_INPUT_REQUEST_KEY +:+
    "` input-request key, which the gateway uses for its own approval ask; the pause cannot be relayed") None).

Definition request_refusal (caller : ClientCapabilities) (r : InputRequest) : option (string * string) :=
  match r with
  | Elicitation _ =>
      if elicitation caller then None
      else Some ("elicitation", "the caller did not declare the elicitation capability; retry from a client that declares it")
  | CreateMessage _ =>
      Some ("sampling", "this gateway does not relay sampling input requests (deprecated in MCP 2026-07-28)")
  | ListRoots _ =>
      Some ("roots", "this gateway does not relay roots input requests (deprecated in MCP 2026-07-28)")
  | UnknownRequest _ => Some ("unknown", "the input request kind is not recognized")
  end.

Definition unanswerable_input_request (p : InputRequiredResult) (caller : option ClientCapabilities)
  : option (string * string) :=
  match caller with
  | None => Some ("input_required",
      "this caller cannot receive an input_required result (it requires the 2026-07-28 multi-round-trip flow)")
  | Some caller => head (omap (λ kr, request_refusal caller kr.2) (default [] (input_requests p)))
  end.

Fixpoint inspect_view (ic : InspectionContext) (names : list string) (view : CallToolResult) : M unit :=
  match names with
  | [] => mret tt
  | name :: names =>
      d ← perform (Inspect name ic view);
      match d with
      | Pass => inspect_view ic names view
      | Block reason => block_response I name reason
      | Redact _ findings =>
          block_response I name (pretty findings +:+
            " finding(s) in an input_required pause, which cannot be redacted and forwarded")
      end
  end.

Definition inspect_pause (p : InputRequiredResult) : M unit :=
  s ← ask cx_snapshot;
  if negb (annotation_claims_enforced s) && bool_decide (inspectors S = []) then mret tt
  else
    match pause_value S p with
    | None => fail (EUpstream (internal_error
        "upstream input_required pause could not be serialized for inspection" None))
    | Some v =>
        let view := set_meta (pause_meta p) (structured text_of v) in
        enforce_claims I view;;
        ic ← ask (inspection_context I);
        inspect_view ic (inspectors S) view
    end.

Definition set_request_state_of (s : option string) (p : InputRequiredResult) : InputRequiredResult :=
  {| input_requests := input_requests p; request_state := s; pause_meta := pause_meta p |}.

Definition seal_pause_state (p : InputRequiredResult) : M InputRequiredResult :=
  c ← ask id;
  match has_sealer S, ci_principal I with
  | true, Some who =>
      now ← perform UnixTime;
      sealed ← perform (Seal (seal_claims now who (call_identity S I c) (input_requests p) (request_state p)));
      match sealed with
      | Ok sealed => mret (set_request_state_of (Some sealed) p)
      | Err _ => fail (EUpstream (internal_error "continuation state could not be sealed" None))
      end
  | _, _ => mret p
  end.

Definition admit_pause (p : InputRequiredResult) : M InputRequiredResult :=
  c ← ask id;
  if approval_gated c then
    fail (EUpstream (internal_error ("`" +:+ fq +:+
      "` requires human approval and is single-round, but the upstream paused mid-call; the claimed grant was consumed by this attempt — obtain a new grant before retrying") None))
  else if bool_decide (default [] (input_requests p) = []) && negb (is_some (request_state p)) then
    fail (EUpstream (internal_error ("upstream `" +:+ ci_server I +:+
      "` paused with neither input requests nor request state; the pause cannot make progress and was not relayed") None))
  else if pause_collides_with_reserved_key p then fail reserved_key_collision_error
  else match unanswerable_input_request p (cx_caller_capabilities c) with
       | Some (capability, detail) =>
           fail (EUpstream {| code := MISSING_CAPABILITY_CODE S;
             message := "`" +:+ fq +:+ "` paused for client-side input that cannot round-trip: " +:+ detail;
             data := Some (Object [("error", Str "missing_required_client_capability");
                                   ("capability", Str capability)]) |})
       | None => inspect_pause p;; seal_pause_state p
       end.

(** ** Outcome rows *)

Definition outcome_base (c : Ctx) (e : AuditEvent) : AuditEvent :=
  with_latency_ms (default 0 (cx_latency_ms c))
    (with_inputs (decision_inputs I (cx_effective_facts c))
       (with_policies (cx_authz_policy_ids c) (classified I c e))).

Definition record_pause_relay : M unit :=
  record "CallTool" Success (λ c e,
    with_reason "upstream paused for client input (input_required); awaiting retry"
      (outcome_base c (with_category Invocation e))).

Definition delivery_suffix (r : CallToolResult) : option string :=
  match ((meta r ≫= field RETAINED_DELIVERY_META_KEY) ≫= get "delivery_status") ≫= as_str with
  | Some s =>
      if bool_decide (s = "file") then Some "response attachment published"
      else if bool_decide (s = "unavailable") then
        Some "operation succeeded; response attachment unavailable; do not redispatch"
      else None
  | None => None
  end.

(** The event [record_delivery_outcome] writes. *)
Definition delivery_row (r : CallToolResult) (e : AuditEvent) : AuditEvent :=
  match delivery_suffix r with
  | Some suffix =>
      with_reason (match ev_reason e with
                   | Some reason => reason +:+ "; " +:+ suffix
                   | None => suffix
                   end) e
  | None => e
  end.

Definition policy_gated_base (c : Ctx) (e : AuditEvent) : AuditEvent :=
  let base := with_id (ci_invocation_id I) (outcome_base c e) in
  if cx_policy_gated_grant_consumed c then
    with_reason "policy-gated effect: approval grant consumed" base
  else base.

Definition upstream_reason (e : ErrorData) : string :=
  if is_recovery_failure e then "retained connector response recovery failed" else upstream_display S e.

(** The row of an outcome; errors whose stage wrote its own row have none. *)
Definition outcome_row (result : result CallToolResult InvocationError) (c : Ctx)
  : option (AuditEvent → AuditEvent) :=
  match result with
  | Ok output => Some (λ e, delivery_row output (policy_gated_base c e))
  | Err (EUpstream err) =>
      Some (λ e, with_reason (if cx_policy_gated_grant_consumed c then
                                "policy-gated effect: upstream error: " +:+ upstream_reason err
                              else upstream_reason err)
                   (with_outcome ExecutionError (policy_gated_base c e)))
  | Err (EResponseMaterializationLimit tool n limit) =>
      Some (λ e, with_reason ("retained response for `" +:+ tool +:+ "` is at least " +:+ pretty n +:+
                              " bytes, exceeding the caller's " +:+ pretty limit +:+
                              "-byte materialization budget")
                   (with_outcome ExecutionError (policy_gated_base c e)))
  | Err _ => None
  end.

Definition record_outcome (result : result CallToolResult InvocationError) : M unit :=
  c ← ask id;
  match outcome_row result c with
  | Some row => record "CallTool" Success (λ _, row)
  | None => mret tt
  end.

Fixpoint record_redactions (l : list (string * Z)) : M unit :=
  match l with
  | [] => mret tt
  | (inspector, findings) :: l =>
      record "CallTool" Success (λ c e,
        with_reason ("response inspector `" +:+ inspector +:+ "` redacted " +:+ pretty findings +:+ " finding(s)")
          (with_policies (cx_authz_policy_ids c) (classified I c e)));;
      record_redactions l
  end.

Definition flush_pending_redactions : M unit :=
  pending ← ask cx_pending_redactions;
  modify (set_pending_redactions []);;
  record_redactions pending.

(** ** Large inline results *)

Definition mirrors_structured (text : string) (v : Value) : bool :=
  bool_decide (text_of v = text) ||
  match from_str S text with Some w => value_eq w v | None => false end.

Definition block_mirrors (v : Value) (b : ContentBlock) : bool :=
  match b with Text t => mirrors_structured t v | _ => false end.

(** [Unmirrored] serializes like the result without the mirroring blocks. *)
Definition fits_without_mirror (r : CallToolResult) (threshold : Z) : bool :=
  match structured_content r with
  | None => false
  | Some v =>
      if negb (existsb (block_mirrors v) (content r)) then false
      else fits S (result_value S (set_content (List.filter (λ b, negb (block_mirrors v b)) (content r)) r))
             threshold
  end.

Fixpoint preview_blocks (structured : option Value) (budget : Z) (blocks : list ContentBlock)
  : list ContentBlock :=
  match blocks with
  | [] => []
  | Text t as b :: blocks =>
      if from_option (mirrors_structured t) false structured then preview_blocks structured budget blocks
      else match encoded_len_at_most S (block_value S b) budget with
           | Ok (Some n) => Text t :: preview_blocks structured (budget - n) blocks
           | _ => []
           end
  | _ :: blocks => preview_blocks structured budget blocks
  end.

Definition upstream_preview (r : CallToolResult) (withhold_text : bool) (threshold : Z) : list ContentBlock :=
  if withhold_text then [] else preview_blocks (structured_content r) threshold (content r).

Definition inline_delivery_failure (compact : CallToolResult) (e : ErrorData) : M CallToolResult :=
  f ← ask cx_effective_facts;
  if tf_side_effects f then
    modify (set_pending_redactions []);;
    mret (delivery_failure text_of "inline_response_delivery_failed" compact)
  else fail (EUpstream e).

Definition file_output_context : FileOutputContext :=
  {| fo_principal := ci_principal I; fo_server := ci_server I; fo_tool := ci_tool I;
     fo_invocation_id := ci_invocation_id I |}.

Definition trust_meta (sensitive untrusted : bool) : list (string * Value) :=
  [(TRUST_ANNOTATIONS_KEY, Object [("sensitive", Bool sensitive); ("untrusted", Bool untrusted)])].

Definition block_text (b : ContentBlock) : option string := match b with Text t => Some t | _ => None end.

(** The envelope that stands for a result saved as a file. *)
Definition inline_envelope (r : CallToolResult) (file : FileValue) (labels : list (string * Value))
    (withhold : bool) (threshold size : Z) : CallToolResult :=
  let compact := attach text_of (FileDelivery file) (set_meta (Some labels) (success [])) in
  let preview := upstream_preview r withhold threshold in
  let compact := match omap block_text preview with
                 | [] => compact
                 | texts => attach_preview (Validation.join (String.String (Ascii.ascii_of_nat 10) (String.String (Ascii.ascii_of_nat 10) "")) texts) compact
                 end in
  set_content (preview ++
    [Text ("The complete result (" +:+ pretty size +:+
           " bytes of JSON) is saved as a gateway file, linked below.");
     ResourceLink (fv_uri file) "Complete tool result" (Some "application/json")]) compact.

(** The result is saved, and its envelope replaces it once the file is published. *)
Definition save_inline_result (r : CallToolResult) (body : bytes) (threshold : Z) : M CallToolResult :=
  f ← ask cx_effective_facts;
  let trust := match parse_trust r with Ok t => Some t | Err _ => None end in
  let is_sensitive := from_option sensitive (tf_pii f) trust in
  let labels := trust_meta is_sensitive (from_option untrusted true trust) in
  let unreadable_label := negb (is_some trust) &&
                          from_option (contains_key TRUST_ANNOTATIONS_KEY) false (meta r) in
  prepared ← perform (PrepareRetained file_output_context
    {| rb_upstream_uri := "gateway-response:" +:+ uuid_hyphenated (ci_invocation_id I);
       rb_media_type := "application/json"; rb_bytes := body; rb_sensitive := is_sensitive || tf_pii f |});
  match prepared with
  | Err e => inline_delivery_failure (set_meta (Some labels) (success [])) e
  | Ok prepared =>
      let compact := inline_envelope r (pr_file prepared) labels
                       (is_sensitive || tf_pii f || unreadable_label) threshold (Z.of_nat (length body)) in
      if negb (from_option (λ v, negb (is_some (validate S (delivery_validator S) v))) false
                 (structured_content compact)) then
        perform (DiscardFiles (pr_batch_id prepared));;
        inline_delivery_failure (success []) (internal_error "retained delivery descriptor is invalid" None)
      else
        published ← perform (PublishFiles (pr_batch_id prepared) (pr_file_count prepared));
        match published with
        | Ok _ => mret compact
        | Err e => perform (DiscardFiles (pr_batch_id prepared));; inline_delivery_failure (success []) e
        end
  end.

Definition retain_large_inline_result (r : CallToolResult) : M CallToolResult :=
  c ← ask id;
  match cx_threshold c with
  | None => mret r
  | Some threshold =>
      if negb (has_file_output S) || negb (bool_decide (ci_delivery I = DeliverFile)) ||
         negb (is_some (ci_principal I)) || bool_decide (is_error r = Some true) ||
         negb (is_some (structured_content r)) then mret r
      else
        match result_value S r with
        | None => inline_delivery_failure (success [])
                    (internal_error "tool response could not be encoded" None)
        | Some v =>
            if fits S (Some v) threshold || fits_without_mirror r threshold then mret r
            else save_inline_result r (as_bytes (text_of v)) threshold
        end
  end.

(** ** File outputs *)

(** What a stage leaves: the outcome so far and the batch it staged. *)
Definition Staged : Type := result CallToolResult InvocationError * option (string * Z).

(** A confirmed mutation reports its delivery as failed instead of reporting an error. *)
Definition delivery_lost (reason : string) : M (result CallToolResult InvocationError) :=
  modify (set_pending_redactions []);;
  mret (Ok (delivery_failure text_of reason (success []))).

Definition set_payload_bytes (n : Z) (v : Value) : Value :=
  match v with
  | Object o =>
      let payload := match field "payload" o with Some (Object p) => p | _ => [] end in
      Object (insert "payload" (Object (insert "bytes" (json_u64 n) payload)) o)
  | v => v
  end.

(** The compact result that links the staged body. *)
Definition link_file (rec : RecoveredResponse) (prepared : PreparedRetainedFile) (byte_count : Z)
    (compacted : CallToolResult) : CallToolResult :=
  let compacted :=
    match structured_content compacted with
    | Some root =>
        let root := set_payload_bytes (default byte_count (fv_size (pr_file prepared))) root in
        set_content [Text (text_of root)] (set_structured (Some root) compacted)
    | None => compacted
    end in
  let attached := attach text_of (FileDelivery (pr_file prepared)) compacted in
  set_content (content attached ++
    [ResourceLink (fv_uri (pr_file prepared)) "Complete connector response"
       (Some (media_type (target rec)))]) attached.

Definition stage_body (rec : RecoveredResponse) (r : CallToolResult) (body : result bytes InvocationError)
  : M (result PreparedRetainedFile InvocationError) :=
  match body with
  | Err e => mret (Err e)
  | Ok body =>
      if has_file_output S then
        prepared ← perform (PrepareRetained file_output_context
          {| rb_upstream_uri := rr_uri (target rec); rb_media_type := media_type (target rec);
             rb_bytes := body;
             rb_sensitive := match parse_trust r with Ok t => sensitive t | Err _ => false end |});
        mret (match prepared with Ok p => Ok p | Err e => Err (EUpstream e) end)
      else mret (Err (EUpstream (internal_error "retained response file storage is unavailable" None)))
  end.

Definition deliver_recovered (rec : RecoveredResponse) (r : CallToolResult) : M Staged :=
  f ← ask cx_effective_facts;
  let body := inspected_bytes text_of (base64_decode S) rec r in
  let byte_count := match body with Ok b => Z.of_nat (length b) | Err _ => 0 end in
  let compacted := compact text_of pretty rec r in
  staged ← stage_body rec r body;
  match staged with
  | Ok prepared =>
      mret (Ok (link_file rec prepared byte_count compacted),
            Some (pr_batch_id prepared, pr_file_count prepared))
  | Err e =>
      if tf_side_effects f then
        modify (set_pending_redactions []);;
        mret (Ok (delivery_failure text_of "retained_response_staging_failed" compacted), None)
      else mret (Err e, None)
  end.

(** A response recovered during dispatch. *)
Definition stage_recovered (rec : option RecoveredResponse) (result : result CallToolResult InvocationError)
  : M Staged :=
  f ← ask cx_effective_facts;
  match rec, result with
  | Some rec, Ok r => if file_delivery rec then deliver_recovered rec r else mret (Ok r, None)
  | Some _, Err e =>
      if tf_side_effects f then x ← delivery_lost (error_kind e); mret (x, None) else mret (Err e, None)
  | None, result => mret (result, None)
  end.

(** Files an ordinary result carries. *)
Definition stage_files (retained_file_delivery : bool) (s : Staged) : M Staged :=
  match s with
  | (Ok r, _) =>
      if has_file_output S && negb retained_file_delivery then
        prepared ← perform (PrepareFiles file_output_context r);
        match prepared with
        | Ok p => mret (Ok (po_result p), (λ b, (b, po_file_count p)) <$> po_batch_id p)
        | Err e => mret (Err (EUpstream e), s.2)
        end
      else mret s
  | (Err _, _) => mret s
  end.

Definition discard_batch (batch : option (string * Z)) : M unit :=
  match batch with
  | Some (batch_id, _) => if has_file_output S then perform (DiscardFiles batch_id) else mret tt
  | None => mret tt
  end.

(** Validation of the staged outcome, then publication of its batch. *)
Definition validate_and_publish (retained : bool) (s : Staged)
  : M (result CallToolResult InvocationError) :=
  let '(result, batch) := s in
  f ← ask cx_effective_facts;
  valid ← attempt (validate_output S I result);
  match valid with
  | Err e =>
      discard_batch batch;;
      if retained && tf_side_effects f then delivery_lost (error_kind e) else fail e
  | Ok _ =>
      published ← (match batch with
                   | Some (batch_id, n) =>
                       if has_file_output S then perform (PublishFiles batch_id n) else mret (Ok tt)
                   | None => mret (Ok tt)
                   end : M (Prelude.result unit ErrorData));
      match published with
      | Err e =>
          discard_batch batch;;
          if retained && tf_side_effects f then delivery_lost "retained_response_publication_failed"
          else mret (Err (EUpstream e))
      | Ok _ =>
          match result with
          | Ok r => if retained || is_some batch then mret result
                    else attempt (retain_large_inline_result r)
          | Err _ => mret result
          end
      end
  end.

Definition enter {A} (s : InvocationStage) (m : M A) : M A := perform (EnterStage s);; m.

Definition prepare_files_and_validate_output (result : result CallToolResult InvocationError)
  : M (Prelude.result CallToolResult InvocationError) :=
  c ← ask id;
  modify (set_retained_response None);;
  let recovered := cx_retained_response c in
  let retained := is_some recovered || cx_retained_operation_succeeded c in
  let retained_file_delivery := from_option file_delivery false recovered in
  let side_effects := tf_side_effects (cx_effective_facts c) in
  early ← (if retained_file_delivery then attempt (validate_output S I result) else mret (Ok tt)
             : M (Prelude.result unit InvocationError));
  match early with
  | Err e =>
      modify (set_pending_redactions []);;
      if side_effects then mret (Ok (delivery_failure text_of (error_kind e) (success []))) else fail e
  | Ok _ =>
      staged ← enter PrepareFileOutputs
        (s ← stage_recovered recovered result; stage_files retained_file_delivery s);
      staged ← (match staged with
                | (Err e, batch) =>
                    if retained && side_effects then x ← delivery_lost (error_kind e); mret (x, batch)
                    else mret staged
                | _ => mret staged
                end : M Staged);
      enter ValidateOutput (validate_and_publish retained staged)
  end.

(** ** Tasks *)

Definition task_error (m : string) : InvocationError := EUpstream (invalid_params m None).

(** [CallToolResult]'s equality; the order of object members does not count. *)
Definition opt_value_eq (a b : option Value) : bool :=
  match a, b with
  | Some a, Some b => value_eq a b
  | None, None => true
  | _, _ => false
  end.

Definition result_eq (a b : CallToolResult) : bool :=
  bool_decide (content a = content b) && opt_value_eq (structured_content a) (structured_content b) &&
  bool_decide (is_error a = is_error b) && opt_value_eq (Object <$> meta a) (Object <$> meta b) &&
  bool_decide (result_type a = result_type b).

Definition inspect_task_metadata (v : Value) (m : option (list (string * Value))) : M unit :=
  let original := set_meta m (structured text_of v) in
  inspected ← inspect_response S I original;
  if result_eq inspected original then mret tt
  else fail (task_error "task metadata cannot be redacted safely; response withheld").

Definition admit_upstream_task (t : CreateTaskResult) : M CreateTaskResult :=
  route ← ask cx_task_origin;
  modify (set_task_origin None);;
  match route with
  | None => fail (EUpstream (internal_error
      "upstream returned a task envelope without negotiated gateway task support" None))
  | Some route =>
      match task_value S t with
      | None => fail (task_error "invalid upstream task")
      | Some v =>
          inspect_task_metadata v (created_meta t);;
          registered ← perform (RegisterTask route (created_task t));
          match registered with
          | Err e => fail (EUpstream e)
          | Ok task => mret {| created_task := task; created_meta := created_meta t |}
          end
      end
  end.

(** ** Orchestration *)

Definition stage (s : InvocationStage) (m : M unit) : M unit := enter s m.

(** The gates, in the order of [invoke]. *)
Definition gates (mode : InvocationMode) (expected : option InvocationContractIdentity) : M unit :=
  c ← ask id;
  (if from_option (λ e, negb (bool_decide (contract_identity P (cx_snapshot c) = e))) false expected then
     record_contract_drift_refusal I;;
     fail (EInvalidArguments ("operation contract changed during execution: " +:+ fq))
   else mret tt : M unit);;
  (match enforce_invocation_mode I mode c with
   | Ok _ => mret tt
   | Err (EReadOnlyOperationRequired _ _ _ as e) => record_read_only_operation_refusal I;; fail e
   | Err e => record_read_only_refusal I;; fail e
   end : M unit);;
  stage ValidateInput (validate_input S I);;
  stage ExtractFacts (extract_facts S I);;
  stage Authorize (authorize S I);;
  stage CheckProfileRestrictions (check_profile_restrictions I);;
  stage PrepareOutputValidation (prepare_output_validation I);;
  refuse_continuation_inputs_when_approval_gated I;;
  verify_continuation S I;;
  admit_file_inputs S I;;
  prepare_task_origin S I;;
  stage CheckQuota (check_quota S I);;
  stage CheckApproval (check_approval S I);;
  stage RecordPreCall (record_pre_call S I).

(** An error after the gates is recorded before it is returned. *)
Definition or_record (m : M unit) : M unit :=
  r ← attempt m;
  match r with
  | Ok _ => mret tt
  | Err e => enter RecordOutcome (record_outcome (Err e));; fail e
  end.

Definition dispatch_admission (admission : bool) : M unit :=
  if admission then
    c ← ask id;
    r ← perform (AdmitDispatch {| ad_side_effects := tf_side_effects (cx_effective_facts c);
                                  ad_contract := contract_identity P (cx_snapshot c) |});
    of_result r
  else mret tt.

(** Inspection, file outputs, validation and the outcome row of a tool result. *)
Definition finish (result : result CallToolResult InvocationError) : M InvocationResponse :=
  adjustment ← ask cx_count_adjustment;
  (match result with Ok _ => modify (set_count_adjustment None) | Err _ => mret tt end : M unit);;
  let result := match result, adjustment with
                | Ok r, Some a => Ok (attach_adjustment text_of a r)
                | result, _ => result
                end in
  result ← enter InspectResponse
    (match result with
     | Ok r => attempt (inspect_response S I r)
     | Err e => mret (Err e)
     end : M (Prelude.result CallToolResult InvocationError));
  result ← prepare_files_and_validate_output result;
  (if is_ok result then flush_pending_redactions else mret tt : M unit);;
  enter RecordOutcome (record_outcome result);;
  r ← of_result result;
  mret (Unary r).

(** What is done with the outcome of the dispatch. *)
Definition after_dispatch (response : result CallToolResponse InvocationError) : M InvocationResponse :=
  match response with
  | Err e => finish (Err e)
  | Ok (Complete r) => finish (Ok r)
  | Ok (PausedFor p) =>
      admitted ← attempt (admit_pause p);
      match admitted with
      | Ok p => enter RecordOutcome record_pause_relay;; mret (InputRequired p)
      | Err refusal => finish (Err refusal)
      end
  | Ok (TaskCreated t) =>
      admitted ← attempt (admit_upstream_task t);
      record_outcome (match admitted with Ok _ => Ok (success []) | Err e => Err e end);;
      t ← of_result admitted;
      mret (TaskEnvelope t)
  | Ok OtherResponse =>
      finish (Err (EUpstream (internal_error
        "upstream dispatch produced an unsupported response variant" None)))
  end.

Definition respond : M InvocationResponse :=
  response ← enter Dispatch (attempt (dispatch S I));
  after_dispatch response.

Definition governed (mode : InvocationMode) (expected : option InvocationContractIdentity)
    (admission : bool) : M InvocationResponse :=
  gates mode expected;;
  or_record (dispatch_admission admission);;
  enter PrepareFileInputs (or_record (prepare_and_validate_file_inputs S I));;
  respond.

(** The MCP path of [invoke]. *)
Definition invoke_tool (req : InvocationRequest) : prog Seam (Prelude.result InvocationResponse InvocationError) :=
  pbind (call (EnterStage ResolveTool)) (λ _,
  pbind (resolve_tool S I (rq_arguments req) (rq_input_responses req) (rq_request_state req)
           (rq_caller_capabilities req)) (λ r,
  match r with
  | Err e => Ret (Err e)
  | Ok c =>
      pbind (governed (rq_mode req) (rq_expected_contract req) (rq_dispatch_admission req) c)
        (λ '(r, _), Ret r)
  end)).

(** The refusal row of a call that never had a context. *)
Definition record_model_read_only_refusal : prog Seam unit :=
  pbind (audit_event I None "CallTool" Denied) (λ e,
    call (RecordChained (with_reason read_only_reason (on_call I e)))).

End Tail.

Definition call_info (principal : option (Principal Value)) (id : Uuid) (req : InvocationRequest) : CallInfo :=
  {| ci_principal := principal; ci_server := rq_server req; ci_tool := rq_tool req;
     ci_invocation_id := id; ci_task_action := None; ci_acting_agent := acting_agent req;
     ci_hierarchy := rq_hierarchy req; ci_approval_binding := rq_approval_binding req;
     ci_materialization_limit := rq_materialization_limit_bytes req;
     ci_delivery := rq_response_delivery req |}.

Definition binding_error (req : InvocationRequest) : option string :=
  match rq_approval_binding req, rq_hierarchy req with
  | None, _ => None
  | Some _, None => Some "execution-bound approval requires invocation hierarchy"
  | Some b, Some h =>
      if negb (bool_decide (execution_id b = parent_execution_id h)) ||
         negb (bool_decide (ab_call_id b = call_id h)) then
        Some "execution-bound approval does not match invocation hierarchy"
      else None
  end.

Definition invoke (S : Service) (principal : option (Principal Value)) (req : InvocationRequest)
  : prog Seam (Prelude.result InvocationResponse InvocationError) :=
  match binding_error req with
  | Some m => Ret (Err (EInvalidArguments m))
  | None =>
      pbind (call Fresh) (λ '(id, _),
      let I := call_info principal id req in
      match llm S with
      | None => invoke_tool S I req
      | Some resolver =>
          if bool_decide (rq_mode req = ReadOnly) && owns_server resolver (rq_server req) then
            pbind (record_model_read_only_refusal I) (λ _,
              Ret (Err (EReadOnlyRequired (rq_server req +:+ "." +:+ rq_tool req))))
          else if resolves resolver (rq_server req) (rq_tool req) then
            call (InvokeModel (rq_server req) (rq_tool req) (rq_arguments req))
          else if owns_server resolver (rq_server req) then
            Ret (Err (EInvalidArguments ("unknown model `" +:+ rq_tool req +:+ "`")))
          else invoke_tool S I req
      end)
  end.

End Invoke.

(** * A small deployment to run the pipeline on

    Collaborators with fixed answers: the catalogue knows one mutating tool that needs approval, the
    gate allows, a grant is live and the upstream answers. *)

Module InvokeDemo.
Export Invoke.

Definition demo_service (mode : AuditMode) (names : list string) : Service :=
  {| platform := demo_platform; audit_mode := mode; llm := None; has_quota := true;
     has_catalog_store := true; has_pending_store := true; has_notifier := true;
     has_file_input := false; has_file_output := false; retained_response_max_bytes := None;
     has_sealer := true; has_task_router := false; inspectors := names; validate := λ _ _, None;
     json_pointer := λ _ _, None; delivery_validator := {| compiled_from := Null |};
     upstream_display := message; supports_tasks := λ _, false; TASKS_EXTENSION_ID := "tasks";
     MISSING_CAPABILITY_CODE := -32003; RESOURCE_NOT_FOUND_CODE := -32002; from_str := λ _, None;
     base64_decode := λ _, None; pause_value := λ _, Some Null; task_value := λ _, Some Null;
     result_value := λ _, Some Null; block_value := λ _, Some Null; contract_string := λ _, "contract";
     redact_secrets := id |}.

(** What varies: the snapshot the catalogue answers with, the gate's verdict, the grant, the
    inspectors' decision. *)
Record Answers := {
  an_tool : ResolvedInvocationTool;
  an_verdict : AuthzVerdict;
  an_grant : option ApprovalGrant;
  an_decision : Decision;
}.

Definition demo_answer (a : Answers) (s : Seam) : answer s :=
  match s with
  | EnterStage _ | RecordChained _ | NotifyApproval _ | DiscardFiles _ => tt
  | Fresh => (1%N, 0)
  | TraceId => "trace"
  | ResolveInvocationTool _ _ _ => an_tool a
  | InlineThreshold => Ok None
  | MayDiscoverServer _ _ => true
  | RecordRequired _ => true
  | CompileSchema _ _ schema => ReadyValidator {| compiled_from := schema |}
  | AuthorizeToolCall _ => an_verdict a
  | CheckAndConsume _ _ => Ok tt
  | ClaimGrant _ => Ok (an_grant a)
  | RetainPending _ => Some 5%N
  | TaskBindingOf _ => None
  | AdmitFiles _ _ args _ _ => (Ok tt, args)
  | AdmitDispatch _ => Ok tt
  | DeliverFiles _ _ args => (Ok false, args)
  | DeliverContinuation _ responses _ => (Ok tt, responses)
  | DispatchTool _ => (Ok (Complete (success [Text "sent"])), 3)
  | RoutingClaims => []
  | ResourceClaims _ => []
  | AuthorizeResourceRead _ _ _ _ => Allow []
  | ReadResource _ _ _ => Ok []
  | Inspect _ _ _ => an_decision a
  | PrepareFiles _ r => Ok {| po_result := r; po_batch_id := None; po_file_count := 0 |}
  | PrepareRetained _ _ => Err (internal_error "no storage" None)
  | PublishFiles _ _ => Ok tt
  | UnixTime => 0
  | Seal _ => Ok "sealed"
  | Unseal _ => None
  | RegisterTask _ t => Ok t
  | InvokeModel _ _ _ => Ok (ModelResponse Null)
  end.

Definition demo_request (server : string) : InvocationRequest :=
  {| rq_server := server; rq_tool := "send"; rq_arguments := Some [("to", Str "a@b.test")];
     rq_metadata := ∅; rq_mode := Unrestricted; rq_expected_contract := None; rq_hierarchy := None;
     rq_approval_binding := None; rq_materialization_limit_bytes := None;
     rq_response_delivery := DeliverFile; rq_input_responses := None; rq_request_state := None;
     rq_caller_capabilities := None; rq_dispatch_admission := true |}.

Definition demo_answers : Answers :=
  {| an_tool := Ready (demo_snapshot true true); an_verdict := Allow ["permit"];
     an_grant := Some {| grant_id := 9; grant_approver := "bob" |}; an_decision := Pass |}.

Definition demo_run (a : Answers) (names : list string)
  : result InvocationResponse InvocationError * list (event Seam) :=
  (interp (λ e w, (demo_answer a e, w))
     (invoke (demo_service FailClosed names) (Some (Continuation.demo_principal "alice")) (demo_request "mail")) tt).1.

Lemma demo_runs a names :
  runs (invoke (demo_service FailClosed names) (Some (Continuation.demo_principal "alice")) (demo_request "mail"))
    (demo_run a names).2 (demo_run a names).1.
Proof.
  unfold demo_run. destruct (interp _ _ tt) as [[r t] w] eqn:E. simpl. by eapply interp_runs.
Qed.

(** The dispatch of the demonstration run and its answer. *)
Definition demo_dispatch : DispatchCall :=
  {| dc_server := "mail"; dc_tool := "send"; dc_arguments := Some [("to", Str "a@b.test")];
     dc_principal := Some (Continuation.demo_principal "alice");
     dc_admitted := contract_identity demo_platform (demo_snapshot true true);
     dc_input_responses := None; dc_request_state := None; dc_caller_capabilities := None;
     dc_approval_gated := true; dc_task_binding := None |}.

Definition demo_reply : answer (DispatchTool demo_dispatch) := (Ok (Complete (success [Text "sent"])), 3).

Lemma demo_dispatched : Event (DispatchTool demo_dispatch) demo_reply ∈ (demo_run demo_answers ["pii"]).2.
Proof. apply (list_elem_of_lookup_2 _ 20). vm_compute. reflexivity. Qed.

End InvokeDemo.
