(* ===== verification/InvokeSpec.v ===== *)
(** * What the invocation pipeline guarantees *)

From S2P Require Import Prelude RustStr Facts Authz Evidence Quota Interact SchemaHash ToolSnapshot Continuation InvocationTypes Retained Pipeline PipelineLogic InvocationGates InvocationResponse Invoke.

Module InvokeSpec.
Import Invoke.InvokeDemo PipelineLogic.PipelineLogic.

(** ** The seams of each stage *)

Section Seams.
Context (S : Service) (I : CallInfo).

Lemma record_emits l a o b : bool_decide ([KClock; KRecord] ⊆ l) = true → emits (only l) (record I a o b).
Proof. apply emits_only. unfold record, audit_event. stage_tac. Qed.
Hint Extern 1 (emits (only _) (record _ _ _ _)) => apply record_emits; reflexivity : stages.

Lemma validate_input_emits : emits (only [KClock; KRecord; KCompile]) (validate_input S I).
Proof. unfold validate_input, refuse_input, record_input_validation_denial. stage_tac. Qed.

Lemma authorize_emits : emits (only [KClock; KRecord; KAuthorize]) (authorize S I).
Proof. unfold authorize. stage_tac. Qed.

Lemma check_profile_restrictions_emits : emits (only [KClock; KRecord]) (check_profile_restrictions I).
Proof. unfold check_profile_restrictions. stage_tac. Qed.

Lemma prepare_output_validation_emits : emits (only [KClock; KRecord; KCompile]) (prepare_output_validation I).
Proof. unfold prepare_output_validation. stage_tac. Qed.

Lemma refuse_continuation_emits : emits (only []) (refuse_continuation_inputs_when_approval_gated I).
Proof. unfold refuse_continuation_inputs_when_approval_gated. stage_tac. Qed.

Lemma verify_continuation_emits : emits (only [KClock; KSeal]) (verify_continuation S I).
Proof. unfold verify_continuation. stage_tac. Qed.

Lemma admit_file_inputs_emits : emits (only [KClock; KRecord; KFileAdmit]) (admit_file_inputs S I).
Proof. unfold admit_file_inputs, record_file_admission_refusal. stage_tac. Qed.

Lemma prepare_task_origin_emits : emits (only [KTask]) (prepare_task_origin S I).
Proof. unfold prepare_task_origin, task_binding_of. stage_tac. Qed.

Lemma check_quota_emits : emits (only [KClock; KRecord; KQuota]) (check_quota S I).
Proof. unfold check_quota. stage_tac. Qed.

Lemma check_approval_emits : emits (only [KClock; KRecord; KClaim; KHold]) (check_approval S I).
Proof. unfold check_approval, check_approval_inner, claim, hold_for_approval. stage_tac. Qed.

Lemma record_pre_call_emits : emits (only [KClock; KRequired]) (record_pre_call S I).
Proof. unfold record_pre_call, audit_event. stage_tac. Qed.

Lemma record_outcome_emits r : emits (only [KClock; KRecord]) (record_outcome S I r).
Proof. unfold record_outcome. stage_tac. Qed.

Lemma block_response_emits {A} i r : emits (only [KClock; KRecord]) (block_response I i r : M A).
Proof. unfold block_response, record_response_denial. stage_tac. Qed.

Lemma run_inspectors_emits ic l r : emits (only [KClock; KRecord; KInspect]) (run_inspectors I ic l r).
Proof.
  revert r. induction l as [|n l IH]; intros r; simpl; [apply emits_ret|].
  apply emits_bind; [by refine (emits_perform _ (Inspect _ _ _) _)|]. intros [|reason|red k]; [apply IH| |].
  - eapply emits_only; [apply block_response_emits|done].
  - apply emits_bind; [apply emits_modify|]. intros _. apply IH.
Qed.

Lemma inspect_view_emits ic l r : emits (only [KClock; KRecord; KInspect]) (inspect_view I ic l r).
Proof.
  induction l as [|n l IH]; simpl; [apply emits_ret|].
  apply emits_bind; [by refine (emits_perform _ (Inspect _ _ _) _)|]. intros [|reason|red k]; [apply IH| |];
    (eapply emits_only; [apply block_response_emits|done]).
Qed.

Lemma record_redactions_emits l : emits (only [KClock; KRecord]) (record_redactions I l).
Proof.
  induction l as [|[n k] l IH]; simpl; [apply emits_ret|]. apply emits_bind; [by apply record_emits|].
  intros _. apply IH.
Qed.

Lemma enforce_claims_emits r : emits (only [KClock; KRecord]) (enforce_claims I r).
Proof.
  unfold enforce_claims, enforce_trust. apply emits_bind; [apply emits_ask|]. intros s.
  repeat case_match; (apply emits_ret || apply block_response_emits).
Qed.

Definition tail_kinds : list kind :=
  [KClock; KRecord; KDiscover; KRead; KInspect; KFileOut; KTask; KSeal; KCompile; KFileIn; KAdmit].

Lemma tail_only {A} l (m : M A) : emits (only l) m → bool_decide (l ⊆ tail_kinds) = true → emits (only tail_kinds) m.
Proof. apply emits_only. Qed.

Lemma process_emits r : emits (only tail_kinds) (process S I r).
Proof.
  unfold process, recover_retained_response, recover_target, read_retained, authorize_retained_read,
    deny_retained_resource, fleet_claims. stage_tac.
Qed.

Lemma inspect_response_emits r : emits (only tail_kinds) (inspect_response S I r).
Proof.
  unfold inspect_response. apply emits_bind; [apply emits_ask|]. intros ic.
  apply emits_bind; [by eapply tail_only; [apply enforce_claims_emits|]|]. intros _.
  by eapply tail_only; [apply run_inspectors_emits|].
Qed.

Lemma validate_output_emits r : emits (only tail_kinds) (validate_output S I r).
Proof. unfold validate_output, record_response_denial. stage_tac. Qed.

Lemma prepare_files_emits : emits (only tail_kinds) (prepare_and_validate_file_inputs S I).
Proof.
  unfold prepare_and_validate_file_inputs, deliver_continuation.
  pose proof (tail_only _ _ validate_input_emits eq_refl). stage_tac.
Qed.

Lemma admit_pause_emits p : emits (only tail_kinds) (admit_pause S I p).
Proof.
  unfold admit_pause, inspect_pause, seal_pause_state.
  pose proof (λ v, tail_only _ _ (enforce_claims_emits v) eq_refl).
  pose proof (λ ic l v, tail_only _ _ (inspect_view_emits ic l v) eq_refl). stage_tac.
Qed.

Lemma admit_upstream_task_emits t : emits (only tail_kinds) (admit_upstream_task S I t).
Proof.
  unfold admit_upstream_task, inspect_task_metadata. pose proof inspect_response_emits. stage_tac.
Qed.

Lemma retain_large_emits r : emits (only tail_kinds) (retain_large_inline_result S I r).
Proof. unfold retain_large_inline_result, save_inline_result, inline_delivery_failure. stage_tac. Qed.

Lemma staged_output_emits result :
  emits (only (KStage :: tail_kinds)) (prepare_files_and_validate_output S I result).
Proof.
  pose proof (λ r, emits_only _ (KStage :: tail_kinds) _ (validate_output_emits r) eq_refl).
  pose proof (λ r, emits_only _ (KStage :: tail_kinds) _ (retain_large_emits r) eq_refl).
  unfold prepare_files_and_validate_output, enter, stage_recovered, stage_files, deliver_recovered, stage_body,
    delivery_lost, validate_and_publish, discard_batch. stage_tac.
Qed.

Lemma finish_emits result : emits (only (KStage :: tail_kinds)) (finish S I result).
Proof.
  pose proof staged_output_emits. pose proof record_redactions_emits.
  pose proof (λ r, emits_only _ (KStage :: tail_kinds) _ (inspect_response_emits r) eq_refl).
  pose proof (λ r, emits_only _ (KStage :: tail_kinds) _ (record_outcome_emits r) eq_refl).
  pose proof (λ l, emits_only _ (KStage :: tail_kinds) _ (record_redactions_emits l) eq_refl).
  unfold finish, enter, flush_pending_redactions. stage_tac.
Qed.

End Seams.

(** ** What a passed gate shows *)

Lemma ask_bind {A B} (f : Ctx → A) (k : A → M B) c t r c' :
  mruns (ask f ≫= k) c t r c' → mruns (k (f c)) c t r c'.
Proof. done. Qed.
Lemma ask_id_bind {B} (k : Ctx → M B) c t r c' : mruns (ask id ≫= k) c t r c' → mruns (k c) c t r c'.
Proof. done. Qed.
Lemma modify_bind {B} f (k : unit → M B) c t r c' : mruns (modify f ≫= k) c t r c' → mruns (k tt) (f c) t r c'.
Proof. done. Qed.
Lemma perform_bind {B} s (k : answer s → M B) c t r c' : mruns (perform s ≫= k) c t r c' →
  ∃ x t', t = Event s x :: t' ∧ mruns (k x) c t' r c'.
Proof. intros (x & t' & -> & H)%runs_call_inv. eauto. Qed.

Definition asks_approval (v : AuthzVerdict) : bool :=
  match v with ApprovalRequired _ _ => true | _ => false end.

(** A verdict that lets the call go on, at once or with a grant. *)
Definition permits (v : AuthzVerdict) : bool := is_allow v || asks_approval v.

Section Passed.
Context (S : Service) (I : CallInfo).

Lemma authorize_passed p c t c' : ci_principal I = Some p → mruns (authorize S I) c t (Ok tt) c' →
  ∃ v, Event (AuthorizeToolCall (pip_facts S p c)) v ∈ t ∧ permits v = true ∧
    is_some (cx_cedar_approval_policies c') = is_some (cx_cedar_approval_policies c) || asks_approval v.
Proof.
  intros Hp H. unfold authorize in H. rewrite Hp in H. run_cases; eexists; (split; [apply list_elem_of_here|]).
  - split; [done|]. simpl. by rewrite orb_false_r.
  - split; [done|]. simpl. by rewrite orb_true_r.
Qed.

Lemma extract_facts_passed p c t c' : ci_principal I = Some p → mruns (extract_facts S I) c t (Ok tt) c' →
  c' = set_pip_facts (Some (call_facts S p c)) c.
Proof. intros Hp H. unfold extract_facts in H. rewrite Hp in H. by run_cases. Qed.

Lemma profile_passed p c t c' : ci_principal I = Some p → mruns (check_profile_restrictions I) c t (Ok tt) c' →
  ∀ r, api_key_profile_restrictions p = Some r → evaluate_profile_restrictions r (ci_server I) (ci_tool I) = Ok tt.
Proof.
  intros Hp H r Hr. unfold check_profile_restrictions in H. rewrite Hp in H. simpl in H. rewrite Hr in H.
  destruct (evaluate_profile_restrictions r (ci_server I) (ci_tool I)) as [[]|e]; [done|]. by run_cases.
Qed.

(** The admitted input schema is available and describes an object, it was compiled under its key, and
    the validator accepts the arguments. *)
Definition input_checked (s : InvocationToolSnapshot) (args : option (list (string * Value))) (t : events) : Prop :=
  let accepted tool_id key schema :=
    ∃ v, Event (CompileSchema tool_id key schema) (ReadyValidator v) ∈ t ∧ validate S v (Object (default [] args)) = None in
  input_schema_unavailable s = false ∧
  (∀ schema, input_schema s = Some schema → has_object_root schema = true) ∧
  match authority s with
  | Catalog tool_id h => ∃ schema, input_schema s = Some schema ∧ accepted tool_id h schema
  | ManifestFallback _ _ => ∀ schema, input_schema s = Some schema → accepted 0%N ("manifest:" +:+ fq I) schema
  | SyntheticModel => True
  end.

(** An approved output schema was compiled before the call. *)
Definition output_prepared (s : InvocationToolSnapshot) (t : events) : Prop :=
  ∀ tool_id h schema, authority s = Catalog tool_id h → output_schema s = Some schema →
    ∃ v, Event (CompileSchema tool_id h schema) (ReadyValidator v) ∈ t.

(** The state sent on: what the sealed continuation carried for this caller, tool, contract and these
    arguments, or the caller's own where there is nothing to open it with. *)
Definition state_verified (contract : InvocationContractIdentity) (args : option (list (string * Value)))
    (responses : option (list (string * Value))) (state sent : option string) (t : events) : Prop :=
  match has_sealer S, state, ci_principal I with
  | true, Some sealed, Some p =>
      ∃ claims now verified, Event (Unseal sealed) claims ∈ t ∧ Event UnixTime now ∈ t ∧
        open (λ _, claims) now p
          {| id_server := ci_server I; id_tool := ci_tool I; id_digest := argument_digest S args;
             id_contract := contract_string S contract |} sealed (default [] responses).*1 = Ok verified ∧
        sent = upstream_state verified
  | _, _, _ => sent = state
  end.

(** The arguments after file admission: unchanged where nothing declares a file, and otherwise the ones
    the file service admitted for these. *)
Definition files_admitted (s : InvocationToolSnapshot) (args0 args : option (list (string * Value))) (t : events) : Prop :=
  (args = args0 ∧ (has_file_input S = true → from_option schema_declares_file_inputs false (input_schema s) = false)) ∨
  (has_file_input S = true ∧
   ∃ schema v responses keys, Event (AdmitFiles schema v args0 responses keys) (Ok tt, args) ∈ t).

(** The arguments that are sent: the admitted ones, with their files delivered and validated again if
    delivery rewrote them. *)
Definition files_delivered (s : InvocationToolSnapshot) (args sent : option (list (string * Value))) (t : events) : Prop :=
  if has_file_input S then
    ∃ ctx rewritten, Event (DeliverFiles ctx (input_schema s) args) (Ok rewritten, sent) ∈ t ∧
      (rewritten = true → input_checked s sent t)
  else sent = args.

Lemma input_checked_mono s args t t' : t ⊆ t' → input_checked s args t → input_checked s args t'.
Proof.
  intros Hsub (Hu & Ho & Ha). split_and!; [done|done|]. destruct (authority s); [| |done].
  - destruct Ha as (schema & Hs & v & Hv & Hok). eauto 10.
  - intros schema Hs. destruct (Ha schema Hs) as (v & Hv & Hok). eauto.
Qed.
Lemma output_prepared_mono s t t' : t ⊆ t' → output_prepared s t → output_prepared s t'.
Proof. intros Hsub H tid h schema Ha Ho. destruct (H tid h schema Ha Ho) as (v & Hv). eauto. Qed.
Lemma state_verified_mono k args resp st sent t t' : t ⊆ t' → state_verified k args resp st sent t → state_verified k args resp st sent t'.
Proof.
  intros Hsub. unfold state_verified. destruct (has_sealer S), st, (ci_principal I); try done.
  intros (claims & now & verified & H1 & H2 & H3). exists claims, now, verified. auto.
Qed.
Lemma files_admitted_mono s a b t t' : t ⊆ t' → files_admitted s a b t → files_admitted s a b t'.
Proof. intros Hsub [H|(Hf & schema & v & resp & keys & H)]; [by left|right]. eauto 10. Qed.
Lemma files_delivered_mono s a b t t' : t ⊆ t' → files_delivered s a b t → files_delivered s a b t'.
Proof.
  intros Hsub. unfold files_delivered. destruct (has_file_input S); [|done]. intros (ctx & rw & H & Hrw). exists ctx, rw.
  eauto using input_checked_mono.
Qed.

Lemma check_value_none v value schema : check_value_against_validator S v value schema = None → validate S v value = None.
Proof. unfold check_value_against_validator. by destruct (validate S v value). Qed.

Lemma validate_input_passed c t c' : mruns (validate_input S I) c t (Ok tt) c' → input_checked (cx_snapshot c) (cx_arguments c) t.
Proof.
  intros H. unfold validate_input in H. apply ask_bind in H.
  destruct (schema_unavailable (cx_snapshot c)) eqn:Hu; [unfold refuse_input in H; by run_cases|].
  unfold schema_unavailable in Hu. apply orb_false_iff in Hu as [Hu Ha].
  destruct (input_schema (cx_snapshot c)) as [schema|] eqn:Hs; unfold input_checked; rewrite Hs; (split; [done|]).
  - destruct (has_object_root schema) eqn:Ho; cbn [negb] in H; [|unfold refuse_input in H; by run_cases].
    split; [by intros ? [= <-]|]. unfold input_compilation in H. rewrite Hs in H.
    destruct (authority (cx_snapshot c)) as [tid h|k h|]; [| |done];
      apply perform_bind in H as (x & t' & -> & H); (destruct x as [v|]; [|unfold refuse_input in H; by run_cases]);
      apply modify_bind, ask_bind in H; cbn [cx_arguments set_compiled_input_validator] in H;
      (destruct (check_value_against_validator S v _ _) eqn:Hc; [unfold refuse_input in H; by run_cases|]);
      apply check_value_none in Hc; [exists schema; split; [done|]|intros ? [= <-]]; exists v; (split; [by left|done]).
  - split; [done|]. by destruct (authority (cx_snapshot c)).
Qed.

Lemma output_passed c t c' : mruns (prepare_output_validation I) c t (Ok tt) c' → output_prepared (cx_snapshot c) t.
Proof.
  intros H tid h schema Ha Ho. unfold prepare_output_validation in H. apply ask_bind in H. rewrite Ha, Ho in H.
  apply perform_bind in H as (x & t' & -> & H). destruct x as [v|]; [exists v; by left|by run_cases].
Qed.

Lemma state_passed c t c' : mruns (verify_continuation S I) c t (Ok tt) c' →
  state_verified (contract_identity (P S) (cx_snapshot c)) (cx_arguments c) (cx_input_responses c) (cx_request_state c)
    (cx_request_state c') t.
Proof.
  intros H. unfold verify_continuation in H. apply modify_bind, ask_id_bind in H. unfold state_verified.
  change (cx_request_state (set_digest (argument_digest S (cx_arguments c)) c)) with (cx_request_state c) in H.
  destruct (has_sealer S), (cx_request_state c) as [sealed|] eqn:Hst, (ci_principal I) as [p|];
    try (by apply mruns_ret in H as (_ & _ & ->)).
  apply perform_bind in H as (claims & t1 & -> & H). apply perform_bind in H as (now & t2 & -> & H).
  destruct (open _ _ _ _ _ _) as [verified|] eqn:Hopen; [|by run_cases]. apply mruns_modify in H as (-> & _ & ->).
  exists claims, now, verified. split_and!; [by left|right; by left|exact Hopen|done].
Qed.

Lemma files_passed c t c' : mruns (admit_file_inputs S I) c t (Ok tt) c' →
  files_admitted (cx_snapshot c) (cx_arguments c) (cx_arguments c') t.
Proof.
  intros H. unfold admit_file_inputs in H. apply ask_id_bind in H. unfold files_admitted.
  destruct (has_file_input S); cbn [negb] in H; [|apply mruns_ret in H as (_ & _ & ->); by left].
  destruct (admission_schema c) as [schema|] eqn:Hs.
  - apply perform_bind in H as ([out args] & t' & -> & H). apply modify_bind in H. destruct out as [[]|e]; [|by run_cases].
    apply mruns_ret in H as (_ & _ & ->). right. split; [done|]. eexists _, _, _, _. by left.
  - apply mruns_ret in H as (_ & _ & ->). left. split; [done|]. intros _. unfold admission_schema in Hs.
    destruct (input_schema (cx_snapshot c)) as [sc|]; [|done]. simpl. by destruct (schema_declares_file_inputs sc).
Qed.

Lemma quota_passed p c t c' : ci_principal I = Some p → has_quota S = true →
  mruns (check_quota S I) c t (Ok tt) c' →
  ∃ q, Event (CheckAndConsume (quota_context I p) (quota_actions (cx_effective_facts c))) q ∈ t ∧
    match q with Err (Quota.Quota.RateLimited _ _ _) => False | _ => True end.
Proof.
  intros Hp Hq H. unfold check_quota in H. rewrite Hp, Hq in H. run_cases; eexists; (split; [apply list_elem_of_here|done]).
Qed.

Lemma approval_passed c t c' : mruns (check_approval S I) c t (Ok tt) c' →
  no_approval_needed c = true ∨
  ∃ p tool_id h g, ci_principal I = Some p ∧ authority (cx_snapshot c) = Catalog tool_id h ∧
    Event (ClaimGrant (grant_lookup S I p tool_id h c)) (Ok (Some g)) ∈ t.
Proof.
  intros H. unfold check_approval in H. run_cases. unfold check_approval_inner in *. run_cases; auto.
  right. unfold claim, hold_for_approval in *. run_cases; eexists _, _, _, _; (do 2 (split; [done|]));
    rewrite ?app_nil_l, ?app_nil_r; apply list_elem_of_here.
Qed.

Lemma pre_call_passed c t c' : audit_mode S = FailClosed → tf_side_effects (cx_effective_facts c) = true →
  mruns (record_pre_call S I) c t (Ok tt) c' → ∃ e, Event (RecordRequired e) true ∈ t.
Proof.
  intros Hm Hs H. unfold record_pre_call in H. rewrite Hm in H.
  apply mruns_bind_ok in H as (t1 & t2 & c0 & c1 & -> & H1 & H). run_step. rewrite Hs in H. run_cases.
  eexists. rewrite ?app_nil_l, ?app_nil_r. apply elem_of_app. right. apply list_elem_of_here.
Qed.


(** ** What the gates leave alone *)

Definition fixed (c : Ctx) :=
  (contract_identity (P S) (cx_snapshot c), authority (cx_snapshot c), clamp_count (P S) (cx_snapshot c),
   cx_effective_facts c, cx_operation c).
Definition schemas (c : Ctx) :=
  (input_schema (cx_snapshot c), input_schema_unavailable (cx_snapshot c), output_schema (cx_snapshot c), authority (cx_snapshot c)).
Definition continuation (c : Ctx) := (cx_input_responses c, cx_request_state c).
Definition cedar (c : Ctx) := cx_cedar_approval_policies c.
Definition frame (c : Ctx) := (fixed c, cx_arguments c, continuation c, cedar c, schemas c).

Lemma record_keeps {B} (f : Ctx → B) a o b : keeps f (record I a o b).
Proof. unfold record. stage_tac. Qed.
Hint Resolve record_keeps : stages.

Lemma validate_input_keeps : keeps frame (validate_input S I).
Proof. unfold validate_input, refuse_input, record_input_validation_denial. stage_tac. Qed.
Lemma authorize_keeps : keeps (λ c, (fixed c, cx_arguments c, continuation c, schemas c)) (authorize S I).
Proof. unfold authorize. stage_tac. Qed.
Lemma profile_keeps : keeps frame (check_profile_restrictions I).
Proof. unfold check_profile_restrictions. stage_tac. Qed.
Lemma prepare_output_keeps : keeps frame (prepare_output_validation I).
Proof. unfold prepare_output_validation. stage_tac. Qed.
Lemma verify_keeps : keeps (λ c, (fixed c, cx_arguments c, cx_input_responses c, cedar c, schemas c)) (verify_continuation S I).
Proof. unfold verify_continuation. stage_tac. Qed.
Lemma admit_files_keeps : keeps (λ c, (fixed c, continuation c, cedar c, schemas c)) (admit_file_inputs S I).
Proof. unfold admit_file_inputs, record_file_admission_refusal. stage_tac. Qed.
Lemma task_origin_keeps : keeps frame (prepare_task_origin S I).
Proof. unfold prepare_task_origin. stage_tac. Qed.
Lemma quota_keeps : keeps frame (check_quota S I).
Proof. unfold check_quota. stage_tac. Qed.
Lemma approval_keeps : keeps frame (check_approval S I).
Proof. unfold check_approval, check_approval_inner, claim, hold_for_approval. stage_tac. Qed.
Lemma pre_call_keeps : keeps frame (record_pre_call S I).
Proof. unfold record_pre_call. stage_tac. Qed.
Lemma prepare_files_keeps : keeps (λ c, (fixed c, cedar c, cx_request_state c, schemas c)) (prepare_and_validate_file_inputs S I).
Proof.
  unfold prepare_and_validate_file_inputs, deliver_continuation, validate_input, refuse_input,
    record_input_validation_denial. stage_tac.
Qed.

(** ** The gates together *)

Lemma stage_passed s (m : M unit) c t c' : mruns (stage s m) c t (Ok tt) c' →
  ∃ x t', t = Event (EnterStage s) x :: t' ∧ mruns m c t' (Ok tt) c'.
Proof. intros H. unfold stage, enter in H. run_step. run_step. eauto. Qed.

Lemma verify_keeps_none c t r c' : cx_request_state c = None → mruns (verify_continuation S I) c t r c' →
  continuation c' = continuation c.
Proof.
  intros Hn H. unfold verify_continuation in H. apply mruns_bind in H as [(e & -> & H)|(t1 & t2 & a & c1 & -> & H1 & H)].
  { apply mruns_modify in H as (_ & [=] & _). }
  apply mruns_modify in H1 as (-> & _ & ->).
  apply mruns_bind in H as [(e & -> & H)|(t3 & t4 & c2 & c3 & -> & H2 & H)].
  { apply mruns_ask in H as (_ & [=] & _). }
  apply mruns_ask in H2 as (-> & [= ->] & ->). simpl in H. rewrite Hn in H.
  destruct (has_sealer S); by apply mruns_ret in H as (_ & _ & ->).
Qed.

Lemma single_round_passed c t c' : mruns (refuse_continuation_inputs_when_approval_gated I) c t (Ok tt) c' →
  c' = c ∧ (approval_gated c = true → continuation c = (None, None)).
Proof.
  intros H. unfold refuse_continuation_inputs_when_approval_gated in H. run_cases; (split; [done|]).
  - intros Hg. by rewrite Hg in *.
  - intros _. unfold continuation. destruct (cx_input_responses _), (cx_request_state _); done.
Qed.

Record passed (mode : InvocationMode) (expected : option InvocationContractIdentity) (c : Ctx) (t : events)
    (c' : Ctx) : Prop := {
  passed_fixed : fixed c' = fixed c;
  passed_expected e : expected = Some e → contract_identity (P S) (cx_snapshot c) = e;
  passed_mode : enforce_invocation_mode I mode c = Ok tt;
  passed_caller p : ci_principal I = Some p →
    (∃ v, Event (AuthorizeToolCall (call_facts S p c)) v ∈ t ∧ permits v = true ∧
       is_some (cedar c') = asks_approval v) ∧
    (∀ r, api_key_profile_restrictions p = Some r →
       evaluate_profile_restrictions r (ci_server I) (ci_tool I) = Ok tt) ∧
    (has_quota S = true →
     ∃ q, Event (CheckAndConsume (quota_context I p) (quota_actions (cx_effective_facts c))) q ∈ t ∧
       match q with Err (Quota.Quota.RateLimited _ _ _) => False | _ => True end);
  passed_grant : no_approval_needed c' = true ∨
    ∃ p tool_id h g, ci_principal I = Some p ∧ authority (cx_snapshot c) = Catalog tool_id h ∧
      Event (ClaimGrant (grant_lookup S I p tool_id h c')) (Ok (Some g)) ∈ t;
  passed_single_round : approval_gated c' = true → continuation c' = (None, None);
  passed_evidence : audit_mode S = FailClosed → tf_side_effects (cx_effective_facts c) = true →
    ∃ e, Event (RecordRequired e) true ∈ t;
  passed_input : input_checked (cx_snapshot c) (cx_arguments c) t;
  passed_output : output_prepared (cx_snapshot c) t;
  passed_state : state_verified (contract_identity (P S) (cx_snapshot c)) (cx_arguments c) (cx_input_responses c)
    (cx_request_state c) (cx_request_state c') t;
  passed_files : files_admitted (cx_snapshot c) (cx_arguments c) (cx_arguments c') t;
  passed_schemas : schemas c' = schemas c;
}.

Lemma extract_facts_keeps : keeps frame (extract_facts S I).
Proof. unfold extract_facts. stage_tac. Qed.

Lemma call_facts_frame p c c' : frame c' = frame c → call_facts S p c' = call_facts S p c.
Proof. unfold frame, fixed, call_facts. intros [=]. congruence. Qed.

Lemma authorize_cedar c t c' : mruns (authorize S I) c t (Ok tt) c' → ci_principal I = None → c' = c.
Proof. intros H Hp. unfold authorize in H. rewrite Hp in H. by run_cases. Qed.

(** The verdict a passed authorization rests on, as a property of the gates' contexts. *)
Lemma authorized_by c c3 c4 c5 t4 t5 p : ci_principal I = Some p → cedar c = None → frame c3 = frame c →
  mruns (extract_facts S I) c3 t4 (Ok tt) c4 → mruns (authorize S I) c4 t5 (Ok tt) c5 →
  ∃ v, Event (AuthorizeToolCall (call_facts S p c)) v ∈ t5 ∧ permits v = true ∧
    is_some (cedar c5) = asks_approval v.
Proof.
  intros Hp Hc Hf H4 H5. pose proof (extract_facts_passed _ _ _ _ Hp H4) as ->.
  destruct (authorize_passed p _ t5 c5 Hp H5) as (v & Hv & Hpv & Hcv). exists v.
  unfold pip_facts in Hv. simpl in Hv. rewrite (call_facts_frame p c c3) in Hv by done.
  split_and!; [done|done|]. unfold cedar. rewrite Hcv. simpl.
  assert (cx_cedar_approval_policies c3 = None) as ->; [|done].
  change (cedar c3 = None). unfold frame in Hf. congruence.
Qed.

Lemma drift_passed expected c t c' :
  mruns (if from_option (λ e, negb (bool_decide (contract_identity (P S) (cx_snapshot c) = e))) false expected then
           record_contract_drift_refusal I;;
           fail (EInvalidArguments ("operation contract changed during execution: " +:+ fq I))
         else mret tt) c t (Ok tt) c' →
  c' = c ∧ ∀ e, expected = Some e → contract_identity (P S) (cx_snapshot c) = e.
Proof.
  intros H. destruct expected as [e|]; simpl in H; [|run_cases; naive_solver].
  destruct (bool_decide (contract_identity (P S) (cx_snapshot c) = e)) eqn:E; simpl in H; run_cases.
  bool_to_prop. naive_solver.
Qed.

Lemma mode_passed mode c t c' :
  mruns (match enforce_invocation_mode I mode c with
         | Ok _ => mret tt
         | Err (EReadOnlyOperationRequired _ _ _ as e) => record_read_only_operation_refusal I;; fail e
         | Err e => record_read_only_refusal I;; fail e
         end) c t (Ok tt) c' →
  c' = c ∧ enforce_invocation_mode I mode c = Ok tt.
Proof.
  intros H. destruct (enforce_invocation_mode I mode c) as [[]|e]; [by run_cases|].
  destruct e; by run_cases.
Qed.

Lemma effective_fixed c c' : fixed c' = fixed c → cx_effective_facts c' = cx_effective_facts c.
Proof. unfold fixed. congruence. Qed.
Lemma authority_fixed c c' : fixed c' = fixed c → authority (cx_snapshot c') = authority (cx_snapshot c).
Proof. unfold fixed. congruence. Qed.
Lemma contract_fixed c c' : fixed c' = fixed c →
  contract_identity (P S) (cx_snapshot c') = contract_identity (P S) (cx_snapshot c).
Proof. intros H. exact (f_equal (λ x, x.1.1.1.1) H). Qed.
Lemma clamp_fixed c c' : fixed c' = fixed c → clamp_count (P S) (cx_snapshot c') = clamp_count (P S) (cx_snapshot c).
Proof. intros H. exact (f_equal (λ x, x.1.1.2) H). Qed.
Lemma approval_gated_frame c c' : fixed c = fixed c' → cedar c = cedar c' → approval_gated c = approval_gated c'.
Proof. unfold approval_gated, fixed, cedar. intros [=] ->. congruence. Qed.
Lemma no_approval_frame c c' : fixed c = fixed c' → cedar c = cedar c' → no_approval_needed c = no_approval_needed c'.
Proof. unfold no_approval_needed, fixed, cedar. intros [=] ->. congruence. Qed.
Lemma grant_lookup_frame p id h c c' : cx_arguments c = cx_arguments c' →
  grant_lookup S I p id h c = grant_lookup S I p id h c'.
Proof. unfold grant_lookup. by intros ->. Qed.

Lemma input_checked_schemas c c' args t : schemas c = schemas c' → input_checked (cx_snapshot c) args t → input_checked (cx_snapshot c') args t.
Proof. unfold schemas, input_checked. by intros [= -> -> _ ->]. Qed.
Lemma output_prepared_schemas c c' t : schemas c = schemas c' → output_prepared (cx_snapshot c) t → output_prepared (cx_snapshot c') t.
Proof. unfold schemas, output_prepared. by intros [= _ _ -> ->]. Qed.
Lemma files_admitted_schemas c c' a b t : schemas c = schemas c' → files_admitted (cx_snapshot c) a b t → files_admitted (cx_snapshot c') a b t.
Proof. unfold schemas, files_admitted. by intros [= -> _ _ _]. Qed.
Lemma files_delivered_schemas c c' a b t : schemas c = schemas c' → files_delivered (cx_snapshot c) a b t → files_delivered (cx_snapshot c') a b t.
Proof.
  intros Hs. unfold files_delivered. destruct (has_file_input S); [|done]. intros (ctx & rw & H & Hrw). exists ctx, rw.
  split; [by injection Hs as <- _ _ _|]. intros Ht. by apply (input_checked_schemas c), Hrw.
Qed.

(** An event known to be in a part of a trace is in the trace. *)
Ltac in_trace := rewrite ?elem_of_app, ?elem_of_cons, ?elem_of_app; tauto.

(** The first step of a run, its trace and the context after it. *)
Ltac peel H t c Hs :=
  let rest := fresh "rest" in
  apply mruns_bind_ok in H as (t & ? & [] & c & -> & Hs & rest); rename rest into H; cbn beta iota in H.
Ltac peel_stage H t c Hs :=
  let u := fresh "u" in let Hu := fresh "Hu" in
  peel H u c Hu; apply stage_passed in Hu as (? & t & -> & Hs).

Lemma gates_passed mode expected c t c' : cedar c = None → mruns (gates S I mode expected) c t (Ok tt) c' →
  passed mode expected c t c'.
Proof.
  intros Hc H. unfold gates in H. apply mruns_bind_ok in H as (t0 & ? & a & c0 & -> & H0 & H).
  apply mruns_ask in H0 as (-> & [= ->] & ->). cbn beta iota in H.
  peel H t1 c1 H1. peel H t2 c2 H2. peel_stage H t3 c3 H3. peel_stage H t4 c4 H4.
  peel_stage H t5 c5 H5. peel_stage H t6 c6 H6. peel_stage H t7 c7 H7. peel H t8 c8 H8.
  peel H t9 c9 H9. peel H t10 c10 H10. peel H t11 c11 H11. peel_stage H t12 c12 H12.
  peel_stage H t13 c13 H13. apply stage_passed in H as (? & t14 & -> & H14).
  apply drift_passed in H1 as [-> Hexp]. apply mode_passed in H2 as [-> Hmode].
  pose proof (validate_input_keeps _ _ _ _ H3) as K3. pose proof (extract_facts_keeps _ _ _ _ H4) as K4.
  pose proof (authorize_keeps _ _ _ _ H5) as K5. pose proof (profile_keeps _ _ _ _ H6) as K6.
  pose proof (prepare_output_keeps _ _ _ _ H7) as K7. apply single_round_passed in H8 as [-> Hsingle].
  pose proof (verify_keeps _ _ _ _ H9) as K9. pose proof (admit_files_keeps _ _ _ _ H10) as K10.
  pose proof (task_origin_keeps _ _ _ _ H11) as K11. pose proof (quota_keeps _ _ _ _ H12) as K12.
  pose proof (approval_keeps _ _ _ _ H13) as K13. pose proof (pre_call_keeps _ _ _ _ H14) as K14.
  assert (F : fixed c7 = fixed c ∧ fixed c11 = fixed c ∧ fixed c12 = fixed c ∧ fixed c13 = fixed c ∧
              fixed c' = fixed c) by (unfold frame in *; split_and!; congruence).
  assert (D : cedar c5 = cedar c' ∧ cedar c7 = cedar c' ∧ cedar c12 = cedar c')
    by (unfold frame in *; split_and!; congruence).
  assert (A : cx_arguments c12 = cx_arguments c' ∧ cx_arguments c10 = cx_arguments c' ∧
              cx_arguments c9 = cx_arguments c ∧ continuation c' = continuation c9)
    by (unfold frame in *; split_and!; congruence).
  assert (G : schemas c6 = schemas c ∧ schemas c9 = schemas c ∧ schemas c' = schemas c ∧ cx_arguments c7 = cx_arguments c ∧
              continuation c7 = continuation c) by (unfold frame in *; split_and!; congruence).
  destruct G as (G6 & G9 & G' & B7 & C7).
  destruct F as (F7 & F11 & F12 & F13 & F'), D as (D5 & D7 & D12), A as (A12 & A10 & A9 & A').
  split; [done|done|done| | | | | | | | |done].
  - intros p Hp. split_and!.
    + rewrite <- D5. destruct (authorized_by c c3 c4 c5 t4 t5 p Hp Hc K3 H4 H5) as (v & Hv & Hr).
      exists v. split; [in_trace|done].
    + by eapply profile_passed.
    + intros Hq. destruct (quota_passed p c11 t12 c12 Hp Hq H12) as (q & Hin & Hok).
      rewrite (effective_fixed _ _ F11) in Hin. exists q. split; [in_trace|done].
  - destruct (approval_passed c12 t13 c13 H13) as [Hn|(p & tid & h & g & Hp & Ha & Hin)].
    + left. rewrite <- (no_approval_frame c12 c'); [done|congruence|done].
    + right. exists p, tid, h, g. rewrite (authority_fixed _ _ F12) in Ha. split_and!; [done|done|].
      rewrite <- (grant_lookup_frame _ _ _ c12) by done. in_trace.
  - intros Hg. rewrite <- (approval_gated_frame c7) in Hg by congruence. pose proof (Hsingle Hg) as Hs.
    rewrite A', (verify_keeps_none c7 t9 (Ok tt) c9); [done|by injection Hs|done].
  - intros Hm Hs. rewrite <- (effective_fixed _ _ F13) in Hs.
    destruct (pre_call_passed c13 t14 c' Hm Hs H14) as (e & Hin). exists e. in_trace.
  - eapply input_checked_mono; [|by apply (validate_input_passed c t3 c3)]. intros e He. in_trace.
  - eapply output_prepared_mono; [|by eapply (output_prepared_schemas c6), output_passed]. intros e He. in_trace.
  - apply state_passed in H9. rewrite (contract_fixed _ _ F7), B7 in H9. injection C7 as Cr Cs. rewrite Cr, Cs in H9.
    injection A' as Ar As. rewrite As. eapply state_verified_mono; [|exact H9]. intros e He. in_trace.
  - apply files_passed in H10. rewrite A9, A10 in H10.
    eapply files_admitted_mono; [|by apply (files_admitted_schemas c9)]. intros e He. in_trace.
Qed.

(** ** Where the dispatch is *)

Definition gate_kinds : list kind :=
  [KStage; KClock; KRecord; KCompile; KAuthorize; KSeal; KFileAdmit; KTask; KQuota; KClaim; KHold; KRequired].

Lemma gate_only {A} l (m : M A) : emits (only l) m → bool_decide (l ⊆ gate_kinds) = true → emits (only gate_kinds) m.
Proof. apply emits_only. Qed.

Lemma gates_emits mode expected : emits (only gate_kinds) (gates S I mode expected).
Proof.
  pose proof (gate_only _ _ (validate_input_emits S I) eq_refl).
  pose proof (gate_only _ _ (authorize_emits S I) eq_refl).
  pose proof (gate_only _ _ (check_profile_restrictions_emits I) eq_refl).
  pose proof (gate_only _ _ (prepare_output_validation_emits I) eq_refl).
  pose proof (gate_only _ _ (refuse_continuation_emits I) eq_refl).
  pose proof (gate_only _ _ (verify_continuation_emits S I) eq_refl).
  pose proof (gate_only _ _ (admit_file_inputs_emits S I) eq_refl).
  pose proof (gate_only _ _ (prepare_task_origin_emits S I) eq_refl).
  pose proof (gate_only _ _ (check_quota_emits S I) eq_refl).
  pose proof (gate_only _ _ (check_approval_emits S I) eq_refl).
  pose proof (gate_only _ _ (record_pre_call_emits S I) eq_refl).
  unfold gates, stage, enter, record_contract_drift_refusal, record_read_only_operation_refusal,
    record_read_only_refusal, extract_facts. stage_tac; by apply record_emits.
Qed.

Definition post_kinds : list kind := KStage :: tail_kinds.

Lemma post_only {A} l (m : M A) : emits (only l) m → bool_decide (l ⊆ post_kinds) = true → emits (only post_kinds) m.
Proof. apply emits_only. Qed.

Lemma or_record_emits m : emits (only post_kinds) m → emits (only post_kinds) (or_record S I m).
Proof.
  intros Hm. pose proof (λ r, post_only _ _ (record_outcome_emits S I r) eq_refl).
  unfold or_record, enter. stage_tac.
Qed.

Lemma preparation_emits admission :
  emits (only post_kinds) (or_record S I (dispatch_admission S admission)) ∧
  emits (only post_kinds) (enter PrepareFileInputs (or_record S I (prepare_and_validate_file_inputs S I))).
Proof.
  split.
  - apply or_record_emits. unfold dispatch_admission. stage_tac.
  - unfold enter. apply emits_bind; [by apply emits_perform|]. intros _.
    apply or_record_emits. eapply post_only; [apply prepare_files_emits|done].
Qed.


Lemma only_post e : only tail_kinds e → only post_kinds e.
Proof. unfold only. rewrite !bool_decide_eq_true. unfold post_kinds. set_solver. Qed.

(** What follows the dispatch. *)
Lemma after_dispatch_emits (a : result CallToolResponse InvocationError) :
  emits (only post_kinds) (after_dispatch S I a).
Proof.
  pose proof (finish_emits S I). pose proof (λ p, post_only _ _ (admit_pause_emits S I p) eq_refl).
  pose proof (λ t, post_only _ _ (admit_upstream_task_emits S I t) eq_refl).
  pose proof (λ r, post_only _ _ (record_outcome_emits S I r) eq_refl).
  unfold after_dispatch, enter, record_pause_relay. destruct a as [[r|p|t|]|e]; stage_tac; by apply record_emits.
Qed.

Lemma dispatch_trace c t r c' : mruns (dispatch S I) c t r c' →
  ∃ y t', t = Event (DispatchTool (dispatch_call S I c)) y :: t' ∧ Forall (only tail_kinds) t'.
Proof.
  intros H%ask_bind%modify_bind%perform_bind. destruct H as (y & t' & -> & H). exists y, t'. split; [done|].
  revert H. generalize (take_for_dispatch S (id c)). intros c0 H. revert H.
  match goal with |- mruns ?m _ _ _ _ → _ => assert (Hm : emits (only tail_kinds) m) end.
  { destruct y as [response latency]. pose proof (process_emits S I). stage_tac. }
  apply Hm.
Qed.

Lemma respond_trace c t r c' : mruns (respond S I) c t r c' →
  ∃ x y t', t = Event (EnterStage Dispatch) x :: Event (DispatchTool (dispatch_call S I c)) y :: t' ∧
    Forall (only post_kinds) t'.
Proof.
  intros H. unfold respond, enter in H.
  apply mruns_bind in H as [(e & -> & H)|(t1 & t2 & a & c1 & -> & H1 & H)].
  - apply perform_bind in H as (x & t' & -> & H). by apply mruns_attempt in H as (z & [=] & _).
  - apply perform_bind in H1 as (x & t' & -> & H1). apply mruns_attempt in H1 as (z & [= ->] & H1).
    apply dispatch_trace in H1 as (y & t3 & -> & Ht3). exists x, y, (t3 ++ t2). split; [done|].
    apply Forall_app. split; [eapply Forall_impl; [exact Ht3|]; apply only_post|].
    revert H. apply after_dispatch_emits.
Qed.

Lemma no_dispatch d x t : Forall (never KDispatch) t → Event (DispatchTool d) x ∈ t → False.
Proof. rewrite Forall_forall. intros H Hin. by apply (H _ Hin). Qed.

Lemma gate_quiet t : Forall (only gate_kinds) t → Forall (never KDispatch) t.
Proof. apply only_never, (bool_decide_unpack _). done. Qed.
Lemma post_quiet t : Forall (only post_kinds) t → Forall (never KDispatch) t.
Proof. apply only_never, (bool_decide_unpack _). done. Qed.

Lemma or_record_passed m c t c' : mruns (or_record S I m) c t (Ok tt) c' → mruns m c t (Ok tt) c'.
Proof.
  intros H. unfold or_record in H. apply mruns_bind_ok in H as (t1 & t2 & a & c1 & -> & H1 & H).
  apply mruns_attempt in H1 as (z & [= ->] & H1). destruct z as [[]|e]; run_cases. by rewrite app_nil_r.
Qed.

Lemma admission_passed b c t c' : mruns (dispatch_admission S b) c t (Ok tt) c' → c' = c ∧
  (b = true → Event (AdmitDispatch {| ad_side_effects := tf_side_effects (cx_effective_facts c);
                                      ad_contract := contract_identity (P S) (cx_snapshot c) |}) (Ok tt) ∈ t).
Proof.
  intros H. unfold dispatch_admission in H. destruct b; [|apply mruns_ret in H as (_ & _ & ->); by split].
  apply ask_id_bind, perform_bind in H as (x & t' & -> & H). destruct x as [[]|]; [|by run_cases].
  apply mruns_of_result in H as (-> & _ & ->). split; [done|]. intros _. by left.
Qed.

Lemma deliver_keeps : keeps (λ c, cx_arguments c) (deliver_continuation S I).
Proof. unfold deliver_continuation. stage_tac. Qed.

Lemma prepare_files_passed c t c' : mruns (prepare_and_validate_file_inputs S I) c t (Ok tt) c' →
  (fixed c', cedar c', cx_request_state c') = (fixed c, cedar c, cx_request_state c) ∧
  files_delivered (cx_snapshot c) (cx_arguments c) (cx_arguments c') t ∧
  (cx_input_responses c = None → cx_input_responses c' = None).
Proof.
  intros H. split; [pose proof (prepare_files_keeps _ _ _ _ H) as Hk; congruence|]. unfold prepare_and_validate_file_inputs in H.
  unfold files_delivered. destruct (has_file_input S) eqn:Hf; cbn [negb] in H; [|by apply mruns_ret in H as (_ & _ & ->)].
  apply ask_id_bind, perform_bind in H as ([[b|e] args] & t' & -> & H); apply modify_bind in H; [|by run_cases].
  apply mruns_bind_ok in H as (t1 & t2 & a & c1 & -> & H1 & H).
  assert (cx_arguments c1 = args ∧ cx_input_responses c1 = cx_input_responses c) as [Ha Hi].
  { destruct b; [|by apply mruns_ret in H1 as (_ & _ & ->)]. apply validate_input_keeps in H1.
    unfold frame, continuation in H1. simpl in H1. split; congruence. }
  pose proof (deliver_keeps _ _ _ _ H) as Hd. cbn beta in Hd. rewrite Hd, Ha. split.
  - eexists _, b. split; [by left|]. intros ->. destruct a. apply validate_input_passed in H1.
    eapply input_checked_mono; [|exact H1]. intros x Hx. right. by apply elem_of_app; left.
  - intros Hn. unfold deliver_continuation in H. apply ask_id_bind in H. rewrite Hi, Hn in H.
    destruct (default [] (cx_deliverable_keys c1)); apply mruns_ret in H as (_ & _ & ->); congruence.
Qed.

Lemma unique_dispatch a b (e e' : event Seam) : Forall (never KDispatch) (a ++ b) →
  kind_of (ev_call e) = KDispatch → e ∈ a ++ e' :: b → e = e'.
Proof.
  rewrite Forall_forall. intros HQ Hk [Hin|[->|Hin]%elem_of_cons]%elem_of_app; [|done|];
    exfalso; apply (HQ e); [rewrite elem_of_app; auto|done|rewrite elem_of_app; auto|done].
Qed.

(** A dispatch of the governed part comes after passed gates and is the only one. *)
Lemma governed_trace mode expected admission c t r c' d x : cedar c = None →
  mruns (governed S I mode expected admission) c t r c' → Event (DispatchTool d) x ∈ t →
  ∃ t1 t2 t3 c1 c2, t = t1 ++ t2 ++ Event (DispatchTool d) x :: t3 ∧ passed mode expected c t1 c1 ∧
    Forall (never KDispatch) (t1 ++ t2 ++ t3) ∧ Forall (only post_kinds) t3 ∧ d = dispatch_call S I c2 ∧
    (fixed c2, cedar c2, cx_request_state c2) = (fixed c1, cedar c1, cx_request_state c1) ∧
    files_delivered (cx_snapshot c1) (cx_arguments c1) (cx_arguments c2) t2 ∧
    (cx_input_responses c1 = None → cx_input_responses c2 = None) ∧
    (admission = true → Event (AdmitDispatch {| ad_side_effects := tf_side_effects (cx_effective_facts c1);
                                                ad_contract := contract_identity (P S) (cx_snapshot c1) |}) (Ok tt) ∈ t2).
Proof.
  intros Hc H Hin. unfold governed in H. destruct (preparation_emits admission) as [E2 E3].
  apply mruns_bind in H as [(e & _ & H)|(t1 & u1 & [] & c1 & -> & H1 & H)].
  { exfalso. eapply no_dispatch, Hin. apply gate_quiet. by eapply gates_emits. }
  apply mruns_bind in H as [(e & _ & H)|(t2 & u2 & [] & c2 & -> & H2 & H)].
  { exfalso. eapply no_dispatch, Hin. apply Forall_app. split; [eapply gate_quiet, gates_emits, H1|].
    eapply post_quiet, E2, H. }
  apply mruns_bind in H as [(e & _ & H)|(t3 & u3 & [] & c3 & -> & H3 & H)].
  { exfalso. eapply no_dispatch, Hin. rewrite !Forall_app. split_and!; [eapply gate_quiet, gates_emits, H1| |].
    - eapply post_quiet, E2, H2. - eapply post_quiet, E3, H. }
  pose proof (gates_emits _ _ _ _ _ _ H1) as Q1. pose proof (E2 _ _ _ _ H2) as Q2. pose proof (E3 _ _ _ _ H3) as Q3.
  apply or_record_passed, admission_passed in H2 as [-> Hadm].
  unfold enter in H3. apply perform_bind in H3 as (y & t4 & -> & H3).
  apply or_record_passed, prepare_files_passed in H3 as (Hk & Hn & Hr).
  apply respond_trace in H as (z & w & t5 & -> & Q5).
  set (pre := t2 ++ (Event (EnterStage PrepareFileInputs) y :: t4) ++ [Event (EnterStage Dispatch) z]).
  assert (Q : Forall (never KDispatch) ((t1 ++ pre) ++ t5)).
  { unfold pre. rewrite !Forall_app. split_and!; [by apply gate_quiet|by apply post_quiet|by apply post_quiet| |by apply post_quiet].
    by repeat constructor. }
  replace (t1 ++ t2 ++ _) with ((t1 ++ pre) ++ Event (DispatchTool (dispatch_call S I c3)) w :: t5) in *
    by (unfold pre; by rewrite <- !(assoc_L app)).
  pose proof (unique_dispatch _ _ (Event (DispatchTool d) x) _ Q eq_refl Hin) as He.
  exists t1, pre, t5, c1, c3. split_and!; [by rewrite He, <- (assoc_L app)|by apply gates_passed| |done| |done| |done|].
  - by rewrite (assoc_L app).
  - apply (f_equal ev_call) in He. by injection He.
  - eapply files_delivered_mono; [|exact Hn]. intros e Hx. unfold pre. rewrite !elem_of_app, !elem_of_cons. tauto.
  - intros Ha. unfold pre. apply elem_of_app. left. by apply Hadm.
Qed.

(** ** Resolution *)

Lemma resolution_emits a b st caps : pemits (only [KClock; KRecord; KResolve; KDiscover]) (resolve_tool S I a b st caps).
Proof.
  unfold resolve_tool, inline_threshold, refusal_error, catalog_unavailable_error, record_resolution,
    may_disclose_server, audit_event. stage_tac.
Qed.

Lemma resolution_passed a b st caps t c : runs (resolve_tool S I a b st caps) t (Ok c) →
  ∃ s th, Event (ResolveInvocationTool (tenant_of I) (ci_server I) (ci_tool I)) (Ready s) ∈ t ∧
    admit_snapshot S s th a b st caps = Ok c.
Proof.
  intros (t0 & t' & x & -> & H0 & H)%runs_bind. apply runs_call_inv in H0 as (x0 & t0' & -> & H0).
  apply runs_ret_inv in H0 as [-> ->]. destruct x0 as [s|srv tl rs|srv tl rs].
  - apply runs_bind in H as (t1 & t2 & th & -> & H1 & H). destruct th as [th|e]; apply runs_ret_inv in H as [-> H].
    + exists s, th. split; [apply list_elem_of_here|done].
    + done.
  - apply runs_bind in H as (t1 & t2 & e & -> & H1 & H). by apply runs_ret_inv in H as [-> H].
  - apply runs_bind in H as (t1 & t2 & e & -> & H1 & H). by apply runs_ret_inv in H as [-> H].
Qed.

Lemma admitted_ctx s th a b st caps c : admit_snapshot S s th a b st caps = Ok c →
  cedar c = None ∧ cx_snapshot c = s ∧ cx_effective_facts c = facts_for s (cx_arguments c) ∧
  normalized S s a = Ok (cx_arguments c) ∧ cx_input_responses c = b ∧ cx_request_state c = st.
Proof.
  unfold admit_snapshot. destruct (normalized S s a) as [args|]; [|done]. case_match; [done|]. by intros [= <-].
Qed.

End Passed.

(** ** Every dispatch is governed *)

(** What has happened before a dispatch [d] of the request, in the trace [before]. *)
Definition governed_dispatch (S : Service) (principal : option (Principal Value)) (req : InvocationRequest)
    (before : events) (d : DispatchCall) : Prop :=
  ∃ id s threshold c args sent,
    let I := call_info principal id req in
    Event (ResolveInvocationTool (tenant_of I) (rq_server req) (rq_tool req)) (Ready s) ∈ before ∧
    admit_snapshot S s threshold (rq_arguments req) (rq_input_responses req) (rq_request_state req)
      (rq_caller_capabilities req) = Ok c ∧
    (dc_server d, dc_tool d, dc_principal d) = (rq_server req, rq_tool req, principal) ∧
    dc_admitted d = contract_identity (P S) s ∧
    (∀ e, rq_expected_contract req = Some e → dc_admitted d = e) ∧
    (rq_mode req = ReadOnly → admitted_by_read_only_ceiling (facts s) = true ∧
       (is_some (discriminator s) = true → cx_operation_classified c = true)) ∧
    (∀ p, principal = Some p →
       (∃ v, Event (AuthorizeToolCall (call_facts S p c)) v ∈ before ∧ permits v = true ∧
          dc_approval_gated d = tf_requires_approval (cx_effective_facts c) || asks_approval v) ∧
       (∀ r, api_key_profile_restrictions p = Some r →
          evaluate_profile_restrictions r (rq_server req) (rq_tool req) = Ok tt) ∧
       (has_quota S = true →
        ∃ q, Event (CheckAndConsume (quota_context I p) (quota_actions (cx_effective_facts c))) q ∈ before ∧
          match q with Err (Quota.Quota.RateLimited _ _ _) => False | _ => True end)) ∧
    (dc_approval_gated d || negb (tf_requires_approval_known (cx_effective_facts c)) = true →
       ∃ p tool_id h g, principal = Some p ∧ authority s = Catalog tool_id h ∧
         Event (ClaimGrant (grant_lookup S I p tool_id h (set_arguments args c))) (Ok (Some g)) ∈ before) ∧
    (dc_approval_gated d = true → dc_input_responses d = None ∧ dc_request_state d = None) ∧
    (audit_mode S = FailClosed → tf_side_effects (cx_effective_facts c) = true →
       ∃ e, Event (RecordRequired e) true ∈ before) ∧
    input_checked S I s (cx_arguments c) before ∧ output_prepared s before ∧
    state_verified S I (dc_admitted d) (cx_arguments c) (rq_input_responses req) (rq_request_state req)
      (dc_request_state d) before ∧
    files_admitted S s (cx_arguments c) args before ∧ files_delivered S I s args sent before ∧
    dc_arguments d = (outgoing_arguments S (set_arguments sent c)).1 ∧
    (rq_dispatch_admission req = true →
       Event (AdmitDispatch {| ad_side_effects := tf_side_effects (cx_effective_facts c); ad_contract := dc_admitted d |})
         (Ok tt) ∈ before).

Lemma governed_mono S principal req before before' d : before ⊆ before' →
  governed_dispatch S principal req before d → governed_dispatch S principal req before' d.
Proof.
  intros Hsub (id & s & th & c & args & sent & H1 & H2 & H3 & H4 & H5 & H6 & H7 & H8 & H9 & H10 & H11 & H12 & H13 & H14 & H15 & H16 & H17).
  exists id, s, th, c, args, sent.
  split_and!; [by apply Hsub|done|done|done|done|done| | |done| |by eapply input_checked_mono|by eapply output_prepared_mono
              |by eapply state_verified_mono|by eapply files_admitted_mono|by eapply files_delivered_mono|done|by auto].
  - intros p Hp. destruct (H7 p Hp) as ((v & Hv & Hr) & Hprof & Hq). split_and!; [eauto|done|].
    intros Hquota. destruct (Hq Hquota) as (q & Hin & Hok). eauto.
  - intros Hg. destruct (H8 Hg) as (p & tid & h & g & Hp & Ha & Hin). eauto 10.
  - intros Hm Hs. destruct (H10 Hm Hs) as (e & He). eauto.
Qed.

Lemma mode_facts I mode c : enforce_invocation_mode I mode c = Ok tt → mode = ReadOnly →
  admitted_by_read_only_ceiling (facts (cx_snapshot c)) = true ∧
  (is_some (discriminator (cx_snapshot c)) = true → cx_operation_classified c = true).
Proof.
  unfold enforce_invocation_mode. intros H ->. rewrite bool_decide_true in H by done. simpl in H.
  destruct (admitted_by_read_only_ceiling (facts (cx_snapshot c))); [|done]. simpl in H. split; [done|].
  destruct (discriminator (cx_snapshot c)); [|done]. by destruct (cx_operation_classified c).
Qed.

Lemma grant_needed c : approval_gated c || negb (tf_requires_approval_known (cx_effective_facts c)) = true →
  no_approval_needed c = false.
Proof.
  unfold approval_gated, no_approval_needed.
  destruct (is_some (cx_cedar_approval_policies c)), (tf_requires_approval (cx_effective_facts c)),
    (tf_requires_approval_known (cx_effective_facts c)); done.
Qed.

Lemma outgoing_frame S c c' : fixed S c = fixed S c' → cx_arguments c = cx_arguments c' →
  outgoing_arguments S c = outgoing_arguments S c'.
Proof. intros Hf Ha. unfold outgoing_arguments. by rewrite (clamp_fixed S _ _ Hf), Ha. Qed.

Lemma passed_governs S principal id req s th c t c1 c2 before : let I := call_info principal id req in
  Event (ResolveInvocationTool (tenant_of I) (rq_server req) (rq_tool req)) (Ready s) ∈ before →
  (∀ e, e ∈ t → e ∈ before) →
  admit_snapshot S s th (rq_arguments req) (rq_input_responses req) (rq_request_state req)
    (rq_caller_capabilities req) = Ok c →
  passed S I (rq_mode req) (rq_expected_contract req) c t c1 →
  (fixed S c2, cedar c2, cx_request_state c2) = (fixed S c1, cedar c1, cx_request_state c1) →
  files_delivered S I (cx_snapshot c1) (cx_arguments c1) (cx_arguments c2) before →
  (cx_input_responses c1 = None → cx_input_responses c2 = None) →
  (rq_dispatch_admission req = true →
     Event (AdmitDispatch {| ad_side_effects := tf_side_effects (cx_effective_facts c1);
                             ad_contract := contract_identity (P S) (cx_snapshot c1) |}) (Ok tt) ∈ before) →
  governed_dispatch S principal req before (dispatch_call S I c2).
Proof.
  intros I Hres Hsub Hadm Hp Hk Hfile Hresp Hdisp.
  assert (Hf2 : fixed S c2 = fixed S c1) by exact (f_equal (λ x, x.1.1) Hk).
  assert (Hc2 : cedar c2 = cedar c1) by exact (f_equal (λ x, x.1.2) Hk).
  assert (Hs2 : cx_request_state c2 = cx_request_state c1) by exact (f_equal snd Hk). clear Hk.
  destruct (admitted_ctx S s th _ _ _ _ c Hadm) as (Hced & Hsnap & _ & _ & Hcr & Hcs).
  assert (F2 : fixed S c2 = fixed S c) by (rewrite Hf2; apply Hp).
  assert (G : approval_gated c2 = approval_gated c1) by (by apply (approval_gated_frame S)).
  assert (E : cx_effective_facts c2 = cx_effective_facts c) by (by apply (effective_fixed S)).
  exists id, s, th, c, (cx_arguments c1), (cx_arguments c2). split_and!; [done|done|done| | | | | | | | | | | | | |].
  - simpl. by rewrite (contract_fixed S _ _ F2), Hsnap.
  - intros e He. rewrite <- (passed_expected _ _ _ _ _ _ _ Hp e He). apply (contract_fixed S _ _ F2).
  - intros Hm. rewrite <- Hsnap. exact (mode_facts _ _ _ (passed_mode _ _ _ _ _ _ _ Hp) Hm).
  - intros p Hpr. destruct (passed_caller _ _ _ _ _ _ _ Hp p Hpr) as ((v & Hv & Hok & Hcv) & Hprof & Hq).
    split_and!; [|done|].
    + exists v. split_and!; [by apply Hsub|done|]. simpl. unfold approval_gated.
      change (cx_cedar_approval_policies c2) with (cedar c2). by rewrite E, Hc2, Hcv.
    + intros Hquota. destruct (Hq Hquota) as (q & Hin & Hlim). eauto.
  - simpl. rewrite G. intros Hg. rewrite <- (effective_fixed S c c1) in Hg by apply Hp.
    apply grant_needed in Hg. destruct (passed_grant _ _ _ _ _ _ _ Hp) as [Hn|(p & tid & h & g & Hpr & Ha & Hin)]; [congruence|].
    exists p, tid, h, g. rewrite <- Hsnap. split_and!; [done|done|].
    rewrite (grant_lookup_frame _ _ _ _ _ _ c1) by done. by apply Hsub.
  - simpl. rewrite G. intros Hg. pose proof (passed_single_round _ _ _ _ _ _ _ Hp Hg) as [= H1 H2].
    split; [by apply Hresp|congruence].
  - intros Hm Hs. destruct (passed_evidence _ _ _ _ _ _ _ Hp Hm Hs) as (e & He). eauto.
  - rewrite <- Hsnap. eapply input_checked_mono; [exact Hsub|apply Hp].
  - rewrite <- Hsnap. eapply output_prepared_mono; [exact Hsub|apply Hp].
  - cbn [dc_admitted dc_request_state dispatch_call]. rewrite (contract_fixed S _ _ F2), Hs2, <- Hcr, <- Hcs.
    eapply state_verified_mono; [exact Hsub|apply Hp].
  - rewrite <- Hsnap. eapply files_admitted_mono; [exact Hsub|apply Hp].
  - rewrite <- Hsnap. apply (files_delivered_schemas S I c1); [apply Hp|done].
  - simpl. f_equal. by apply outgoing_frame.
  - intros Hd. specialize (Hdisp Hd). rewrite (effective_fixed S c c1) in Hdisp by apply Hp.
    cbn [dc_admitted dispatch_call]. by rewrite (contract_fixed S c1 c2).
Qed.

Lemma invoke_tool_governed S principal id req t r d x : let I := call_info principal id req in
  runs (invoke_tool S I req) t r → Event (DispatchTool d) x ∈ t →
  ∃ before after, t = before ++ Event (DispatchTool d) x :: after ∧
    Forall (never KDispatch) (before ++ after) ∧ Forall (only post_kinds) after ∧ governed_dispatch S principal req before d.
Proof.
  intros I H Hd. unfold invoke_tool in H. apply runs_call_inv in H as (y & t' & -> & H).
  apply runs_bind in H as (t1 & t2 & res & -> & H1 & H).
  assert (Q1 : Forall (never KDispatch) (Event (EnterStage ResolveTool) y :: t1)).
  { constructor; [done|]. eapply (only_never [KClock; KRecord; KResolve; KDiscover]);
      [by apply (bool_decide_unpack _)|by eapply resolution_emits]. }
  destruct res as [c|e]; [|apply runs_ret_inv in H as [-> _]; rewrite app_nil_r in Hd; by destruct (no_dispatch _ _ _ Q1 Hd)].
  apply resolution_passed in H1 as (s & th & Hres & Hadm). apply runs_bind in H as (t3 & t4 & [r' c'] & -> & H & H4).
  apply runs_ret_inv in H4 as [-> ->]. rewrite app_nil_r in Hd |- *.
  destruct (admitted_ctx S s th _ _ _ _ c Hadm) as (Hced & Hsnap & Heff & Hnorm & _ & _).
  assert (Hd3 : Event (DispatchTool d) x ∈ t3).
  { change (Event (DispatchTool d) x ∈ (Event (EnterStage ResolveTool) y :: t1) ++ t3) in Hd.
    apply elem_of_app in Hd as [Hd|Hd]; [by destruct (no_dispatch _ _ _ Q1 Hd)|done]. }
  destruct (governed_trace S I _ _ _ c t3 r' c' d x Hced H Hd3)
    as (u1 & u2 & u3 & c1 & c2 & -> & Hp & Q & Q3 & -> & Hfix & Hfile & Hresp & Hdisp).
  exists ((Event (EnterStage ResolveTool) y :: t1) ++ u1 ++ u2), u3. split_and!.
  - simpl. by rewrite <- !(assoc_L app).
  - rewrite <- (assoc_L app), Forall_app. split; [done|]. by rewrite <- (assoc_L app).
  - done.
  - assert (∀ e, e ∈ t1 ∨ e ∈ u1 ∨ e ∈ u2 → e ∈ (Event (EnterStage ResolveTool) y :: t1) ++ u1 ++ u2) as Hin.
    { intros e. rewrite !elem_of_app, elem_of_cons. tauto. }
    eapply (passed_governs S principal id req s th c u1 c1 c2); try done; [by auto|intros e He; by auto| |by auto].
    eapply files_delivered_mono; [|exact Hfile]. intros e He. by auto.
Qed.

(** A run that does not take the tool path hands over to the inference plane or refuses. *)
Definition other_kinds : list kind := [KClock; KRecord; KModel].

Lemma other_quiet t : Forall (only other_kinds) t → Forall (never KDispatch) t.
Proof. apply only_never, (bool_decide_unpack _). done. Qed.

Lemma invoke_trace S principal req t r : runs (invoke S principal req) t r →
  Forall (only other_kinds) t ∨
  ∃ y t', t = Event Fresh y :: t' ∧ runs (invoke_tool S (call_info principal y.1 req) req) t' r.
Proof.
  unfold invoke. destruct (binding_error req) as [m|]; [intros [-> _]%runs_ret_inv; left; constructor|].
  intros (t0 & t' & y & -> & H0 & H)%runs_bind. apply runs_call_inv in H0 as (y0 & t0' & -> & H0).
  apply runs_ret_inv in H0 as [-> ->]. destruct y0 as [id now].
  destruct (llm S) as [resolver|]; [|right; by exists (id, now), t'].
  repeat case_match; simplify_eq; try (right; by exists (id, now), t'); left; (constructor; [done|]); revert H.
  - match goal with |- runs ?p _ _ → _ => assert (Hp : pemits (only other_kinds) p) by (unfold record_model_read_only_refusal, audit_event; stage_tac) end.
    apply Hp.
  - match goal with |- runs ?p _ _ → _ => assert (Hp : pemits (only other_kinds) p) by stage_tac end. apply Hp.
  - intros [-> _]%runs_ret_inv. constructor.
Qed.



End InvokeSpec.
