(* ===== verification/InvokeOrder.v ===== *)
(** * Refusals end a call, and stages run in their documented order *)

From S2P Require Import Prelude RustStr Facts Authz Evidence Quota Interact SchemaHash ToolSnapshot Continuation InvocationTypes Retained Pipeline PipelineLogic InvocationGates InvocationResponse Invoke InvokeSpec.

Module InvokeOrder.
Import Invoke.InvokeDemo PipelineLogic.PipelineLogic InvokeSpec.InvokeSpec.

(** ** Refusals *)

Definition refusing_kinds : list kind := [KResolve; KAuthorize; KQuota; KClaim; KRequired; KFileAdmit].

Lemma refusing_kind e : refuses e = true → kind_of (ev_call e) ∈ refusing_kinds.
Proof. destruct e as [s x]. destruct s; try done; intros _; apply (bool_decide_unpack _); done. Qed.

Lemma accepting_only l t : bool_decide (Forall (λ k, k ∉ refusing_kinds) l) = true →
  Forall (only l) t → Forall accepting t.
Proof.
  intros Hl%bool_decide_eq_true Ht. eapply Forall_impl; [exact Ht|]. intros e He%bool_decide_eq_true.
  unfold accepting. destruct (refuses e) eqn:E; [|done]. apply refusing_kind in E.
  rewrite Forall_forall in Hl. by destruct (Hl _ He).
Qed.

Lemma halts_only {A} w R l (m : M A) : emits (only l) m →
  bool_decide (Forall (λ k, k ∉ refusing_kinds) l) = true → halts w R m.
Proof. intros Hm Hl. apply halts_accepting. intros c t r c' H. eapply accepting_only; [done|by eapply Hm]. Qed.

(** Refusals with a row of their own: all but a failed required record. *)
Definition row_due (e : event Seam) : bool := negb (bool_decide (kind_of (ev_call e) = KRequired)).

(** The error a refusal is reported as, for the tool named [tool]. *)
Definition reported (tool : string) (e : event Seam) (er : InvocationError) : Prop :=
  match ev_call e as s return answer s → Prop with
  | ResolveInvocationTool _ _ _ => λ x,
      match x with
      | Ready _ => False
      | Refused srv tl reason => ∃ id, er = EToolUnavailable (srv +:+ "." +:+ tl) id ∨
          ∃ block, server_block reason = Some block ∧ er = EForbidden block [] [] (Some id)
      | Unavailable srv tl _ => ∃ id, er = EToolUnavailable (srv +:+ "." +:+ tl) id ∨
          er = EUpstream (internal_error
                 ("the governed tool catalog is unavailable; retry the request (trace id " +:+ id +:+ ")")
                 (Some (Object [("error", Str "catalog_unavailable"); ("retryable", Bool true); ("trace_id", Str id)])))
      end
  | AuthorizeToolCall _ => λ x,
      match x with
      | Deny reason ids reasons => er = EForbidden reason ids reasons None
      | StepUpRequired scope reason _ => er = EStepUpRequired scope reason
      | _ => False
      end
  | CheckAndConsume _ _ => λ x, match x with Err (Quota.Quota.RateLimited id name retry) => er = ERateLimited id name retry | _ => False end
  | ClaimGrant _ => λ x,
      match x with
      | Ok (Some _) => False
      | Ok None => er = EApprovalRequired tool "tool requires human approval; no matching grant" true
      | Err _ => er = EApprovalRequired tool "approval store unavailable" false
      end
  | RecordRequired _ => λ x, er = EAuditUnavailable "evidence backend unavailable"
  | AdmitFiles _ _ _ _ _ => λ x, match x.1 with Ok _ => False | Err d => er = EUpstream d end
  | _ => λ _, False
  end (ev_answer e).

Section Halts.
Context (S : Service) (I : CallInfo).
Notation told := (reported (fq I)).

Lemma record_row a o b c t r c' : mruns (record I a o b) c t r c' → Exists is_row t.
Proof.
  intros H. unfold record in H. apply ask_bind in H.
  apply mruns_bind in H as [(e1 & -> & H)|(t1 & t2 & x & c1 & -> & H1 & H)].
  - by apply mruns_lift in H as (? & _ & [=] & _).
  - apply (mruns_perform (RecordChained _)) in H as (y & -> & _ & _). apply Exists_app. right. by constructor.
Qed.

Lemma record_total a o b c t r c' : mruns (record I a o b) c t r c' → r = Ok tt ∧ c' = c.
Proof.
  intros H. unfold record in H. apply ask_bind in H.
  apply mruns_bind in H as [(e1 & -> & H)|(t1 & t2 & x & c1 & -> & H1 & H)].
  - by apply mruns_lift in H as (? & _ & [=] & _).
  - apply mruns_lift in H1 as (? & _ & _ & ->).
    apply (mruns_perform (RecordChained _)) in H as (y & _ & -> & ->). by destruct y.
Qed.

Lemma record_aborts {A} w E a o b (m : M A) : aborts false E m → aborts w E (record I a o b ;; m).
Proof.
  intros Hm c t r c' H.
  assert (errs (λ _ _, False) (record I a o b)) as Hn by (by intros c0 t0 e0 c0' [[=] _]%record_total).
  destruct (aborts_bind E (record I a o b) (λ _, m)) with (1 := record_emits I aftermath a o b eq_refl) (2 := Hn)
    (3 := λ _ : unit, Hm) (4 := H) as (Hr & Ht & _). split_and!; [done|done|]. intros _.
  apply mruns_bind in H as [(e1 & -> & H)|(t1 & t2 & x & c1 & -> & H1 & H)]; [by eapply record_row|].
  apply Exists_app. left. by eapply record_row.
Qed.

Ltac accept := apply halts_accepting; solve [stage_tac].

Lemma authorize_halts : halts row_due told (authorize S I).
Proof.
  unfold authorize. destruct (ci_principal I) as [p|]; [|accept]. apply halts_bind; [accept|]. intros f.
  refine (halts_perform _ _ (AuthorizeToolCall f) _ _ _); [|intros x; stage_tac].
  intros [ids|rs ids rss|sc rs ids|rs ids]; try done; intros _; by apply record_aborts, aborts_fail.
Qed.

Lemma quota_halts : halts row_due told (check_quota S I).
Proof.
  unfold check_quota. destruct (has_quota S), (ci_principal I) as [p|]; try accept.
  apply halts_bind; [accept|]. intros f. refine (halts_perform _ _ (CheckAndConsume _ _) _ _ _); [|intros x; stage_tac].
  intros [u|[|id n rt]]; try done; intros _. by apply record_aborts, aborts_fail.
Qed.

Lemma file_admission_halts : halts row_due told (admit_file_inputs S I).
Proof.
  unfold admit_file_inputs, record_file_admission_refusal. apply halts_bind; [accept|]. intros c.
  case_match; [accept|]. case_match; [|accept].
  refine (halts_perform _ _ (AdmitFiles _ _ _ _ _) _ _ _); [|intros x; stage_tac].
  intros [[u|e] args]; try done; intros _. cbn beta iota. intros c1 t r c' Hm%modify_bind.
  refine (record_aborts _ _ _ _ _ _ (aborts_fail _ _ _) _ _ _ _ Hm). done.
Qed.

Lemma hold_aborts p id h : aborts false (λ er, er = EApprovalRequired (fq I) "tool requires human approval; no matching grant" true)
  (hold_for_approval S I p id h).
Proof.
  assert (∀ t1 t2 : events, InvocationError → False → False) as Hmono by done.
  unfold hold_for_approval. apply aborts_bind; [apply emits_ask|apply errs_ask|]. intros c. apply aborts_bind; [stage_tac|by stage_tac|].
  intros rid. apply aborts_bind; [stage_tac|by stage_tac|]. intros _. by apply aborts_fail.
Qed.

Lemma claim_halts : halts (λ _, false) told (check_approval_inner S I).
Proof.
  unfold check_approval_inner. apply halts_bind; [accept|]. intros c.
  do 2 (case_match; [accept|]). destruct (ci_principal I) as [p|]; [|accept].
  case_match; [accept|]. destruct (authority (cx_snapshot c)) as [id h|k h|]; [|accept..].
  unfold claim. apply halts_bind; [accept|]. intros c1. refine (halts_perform _ _ (ClaimGrant _) _ _ _).
  - intros [[g|]|e]; try done; intros _; [apply hold_aborts|by apply aborts_fail].
  - intros x. unfold hold_for_approval. stage_tac.
Qed.

(** Every refusal of the approval stage names itself. *)
Lemma approval_errors c t e c' : mruns (check_approval_inner S I) c t (Err e) c' →
  ∃ tool reason sat, e = EApprovalRequired tool reason sat.
Proof.
  revert c t e c'. set (E := λ (_ : events) e, ∃ tool reason sat, e = EApprovalRequired tool reason sat).
  change (errs E (check_approval_inner S I)).
  assert (∀ t1 t2 e, E t2 e → E (t1 ++ t2) e) by done. assert (∀ r b, E [] (approval_refusal I r b)) by (intros; eexists _, _, _; done).
  unfold check_approval_inner, claim, hold_for_approval. stage_tac; auto.
Qed.

(** [check_approval] adds its row to a refusal and returns it. *)
Lemma approval_halts : halts row_due told (check_approval S I).
Proof.
  intros c t r c' a e b H Ht Hr. unfold check_approval in H.
  apply mruns_bind in H as [(e1 & -> & H)|(t1 & t2 & x & c1 & -> & H1 & H)].
  { by apply mruns_attempt in H as (z & [=] & _). }
  apply mruns_attempt in H1 as (z & [= ->] & H1).
  assert (Q : Forall (only aftermath) t2 ∧ r = z ∧ (is_ok z = false → Exists is_row t2)).
  { apply mruns_bind in H as [(e2 & -> & H)|(t3 & t4 & y & c2 & -> & H2 & H)].
    - destruct z as [u|er]; [by apply mruns_ret in H as (_ & [=] & _)|].
      destruct (approval_errors _ _ _ _ H1) as (? & ? & ? & ->). by apply record_total in H as [[=] _].
    - apply mruns_of_result in H as (-> & -> & _). rewrite app_nil_r.
      destruct z as [u|er]; [by apply mruns_ret in H2 as (-> & _ & _)|].
      destruct (approval_errors _ _ _ _ H1) as (? & ? & ? & ->). split_and!; [|done|intros _; by eapply record_row].
      revert H2. by apply record_emits. }
  destruct Q as (Q & -> & Hrow). apply app_eq_inv in Ht as [(k1 & -> & Ht)|(k1 & -> & Ht)].
  - destruct k1 as [|e' k1]; simplify_eq/=.
    + apply Forall_cons in Q as [He _]. exfalso. apply refusing_kind in Hr. apply bool_decide_eq_true in He.
      revert He Hr. unfold aftermath, refusing_kinds. rewrite !elem_of_cons, !elem_of_nil. intuition congruence.
    + destruct (claim_halts _ _ _ _ a e' k1 H1 eq_refl Hr) as (Hz & Hk & _). split_and!; [done|by apply Forall_app|].
      intros _. apply Exists_app. right. apply Hrow. by destruct z.
  - subst t2. apply Forall_app in Q as [_ [He _]%Forall_cons_1]. exfalso. apply refusing_kind in Hr.
    apply bool_decide_eq_true in He. revert He Hr. unfold aftermath, refusing_kinds.
    rewrite !elem_of_cons, !elem_of_nil. intuition congruence.
Qed.

Lemma pre_call_halts : halts row_due told (record_pre_call S I).
Proof.
  unfold record_pre_call. apply halts_bind; [accept|]. intros c.
  destruct (audit_mode S); [accept|]. case_match; [accept|].
  apply halts_bind; [eapply (halts_only _ _ [KClock]); [unfold audit_event; stage_tac|done]|]. intros e.
  refine (halts_perform _ _ (RecordRequired _) _ _ _); [|intros x; stage_tac].
  intros [|]; try done; intros _. by apply aborts_fail.
Qed.

Lemma stage_halts w R s m : halts w R m → halts w R (stage s m).
Proof. intros Hm. unfold stage, enter. apply halts_bind; [accept|]. done. Qed.

Lemma gates_halt mode expected : halts row_due told (gates S I mode expected).
Proof.
  unfold gates. apply halts_bind; [apply halts_accepting, emits_ask|]. intros c.
  repeat match goal with |- halts _ _ (_ ≫= _) => apply halts_bind; [|intros _] end;
    try match goal with |- halts _ _ (stage _ _) => apply stage_halts end;
    try (apply authorize_halts || apply quota_halts || apply approval_halts || apply pre_call_halts ||
         apply file_admission_halts).
  - apply halts_accepting. unfold record_contract_drift_refusal. stage_tac.
  - apply halts_accepting. unfold record_read_only_operation_refusal, record_read_only_refusal. stage_tac.
  - by eapply halts_only; [apply validate_input_emits|].
  - apply halts_accepting. unfold extract_facts. stage_tac.
  - by eapply halts_only; [apply check_profile_restrictions_emits|].
  - by eapply halts_only; [apply prepare_output_validation_emits|].
  - by eapply halts_only; [apply refuse_continuation_emits|].
  - by eapply halts_only; [apply verify_continuation_emits|].
  - by eapply halts_only; [apply prepare_task_origin_emits|].
Qed.

Lemma files_accept : emits accepting (prepare_and_validate_file_inputs S I).
Proof.
  unfold prepare_and_validate_file_inputs, deliver_continuation.
  assert (emits accepting (validate_input S I)).
  { intros c t r c' H. eapply accepting_only; [|by eapply validate_input_emits]. done. }
  stage_tac.
Qed.

Lemma or_record_accepts m : emits accepting m → emits accepting (or_record S I m).
Proof.
  intros Hm. unfold or_record, enter.
  assert (∀ r, emits accepting (record_outcome S I r)).
  { intros r0 c t r c' H. eapply accepting_only; [|by eapply record_outcome_emits]. done. }
  stage_tac.
Qed.

Lemma governed_halts mode expected admission : halts row_due told (governed S I mode expected admission).
Proof.
  unfold governed. apply halts_bind; [apply gates_halt|]. intros _.
  apply halts_bind; [apply halts_accepting, or_record_accepts; unfold dispatch_admission; stage_tac|]. intros _.
  apply halts_bind.
  { apply stage_halts, halts_accepting, or_record_accepts, files_accept. }
  intros _. apply halts_accepting. intros c t r c' H. apply respond_trace in H as (x & y & t' & -> & Ht).
  do 2 (constructor; [done|]). by apply (accepting_only post_kinds).
Qed.

Lemma refusal_emits srv tl rs : pemits (only aftermath) (refusal_error I srv tl rs).
Proof. unfold refusal_error, record_resolution, may_disclose_server, audit_event. stage_tac. Qed.
Lemma unavailable_emits srv tl rs : pemits (only aftermath) (catalog_unavailable_error I srv tl rs).
Proof. unfold catalog_unavailable_error, record_resolution, may_disclose_server, audit_event. stage_tac. Qed.

Lemma resolution_row o srv tl rs tid t x : runs (record_resolution I o srv tl rs tid) t x → Exists is_row t.
Proof.
  intros (t1 & t2 & e & -> & _ & H)%runs_bind. apply runs_call_inv in H as (y & t' & -> & _).
  apply Exists_app. right. by constructor.
Qed.
Lemma refusal_row_written srv tl rs t e : runs (refusal_error I srv tl rs) t e → Exists is_row t.
Proof.
  intros (t1 & t2 & tid & -> & _ & H)%runs_bind. apply runs_bind in H as (t3 & t4 & u & -> & H & _).
  apply Exists_app. right. apply Exists_app. left. by eapply resolution_row.
Qed.
Lemma unavailable_row_written srv tl rs t e : runs (catalog_unavailable_error I srv tl rs) t e → Exists is_row t.
Proof.
  intros (t1 & t2 & tid & -> & _ & H)%runs_bind. apply runs_bind in H as (t3 & t4 & u & -> & H & _).
  apply Exists_app. right. apply Exists_app. left. by eapply resolution_row.
Qed.

Lemma refusal_reported srv tl rs t er : runs (refusal_error I srv tl rs) t er →
  ∃ id, er = EToolUnavailable (srv +:+ "." +:+ tl) id ∨ ∃ block, server_block rs = Some block ∧ er = EForbidden block [] [] (Some id).
Proof.
  intros (t1 & t2 & id & -> & _ & H)%runs_bind. apply runs_bind in H as (t3 & t4 & u & -> & _ & H). exists id.
  destruct (server_block rs) as [block|]; [|apply runs_ret_inv in H as [_ ->]; by left].
  apply runs_bind in H as (t5 & t6 & d & -> & _ & H). apply runs_ret_inv in H as [_ ->]. destruct d; eauto.
Qed.
Lemma unavailable_reported srv tl rs t er : runs (catalog_unavailable_error I srv tl rs) t er →
  ∃ id, er = EToolUnavailable (srv +:+ "." +:+ tl) id ∨
    er = EUpstream (internal_error
           ("the governed tool catalog is unavailable; retry the request (trace id " +:+ id +:+ ")")
           (Some (Object [("error", Str "catalog_unavailable"); ("retryable", Bool true); ("trace_id", Str id)]))).
Proof.
  intros (t1 & t2 & id & -> & _ & H)%runs_bind. apply runs_bind in H as (t3 & t4 & u & -> & _ & H). exists id.
  apply runs_bind in H as (t5 & t6 & d & -> & _ & H). apply runs_ret_inv in H as [_ ->]. destruct d; eauto.
Qed.

(** Resolution: the catalogue's refusal is reported, and followed by rows only. *)
Lemma resolution_halts a b st caps t r t1 e t2 : runs (resolve_tool S I a b st caps) t r → t = t1 ++ e :: t2 →
  refuses e = true → fails_with (told e) r ∧ Forall (only aftermath) t2 ∧ Exists is_row t2.
Proof.
  intros (t0 & t' & x & -> & H0 & H)%runs_bind Ht Hr. apply runs_call_inv in H0 as (x0 & t0' & -> & H0).
  apply runs_ret_inv in H0 as [-> ->]. cbn [app] in Ht.
  destruct t1 as [|e1 t1]; cbn [app] in Ht; [injection Ht as <- ->|injection Ht as <- ->].
  - destruct x0 as [s|srv tl rs|srv tl rs]; [done| |];
      apply runs_bind in H as (u1 & u2 & er & -> & H1 & H); apply runs_ret_inv in H as [-> ->];
      rewrite app_nil_r; revert H1.
    + intros H1. split_and!; [by eapply refusal_reported|by eapply refusal_emits|by eapply refusal_row_written].
    + intros H1. split_and!; [by eapply unavailable_reported|by eapply unavailable_emits|by eapply unavailable_row_written].
  - exfalso. assert (Hq : Forall accepting (t1 ++ e :: t2)).
    { destruct x0 as [s|srv tl rs|srv tl rs];
        [revert H; match goal with |- runs ?p _ _ → _ => assert (Hp : pemits accepting p) end;
         [unfold inline_threshold; stage_tac|apply Hp]| |];
        apply runs_bind in H as (u1 & u2 & er & -> & H1 & H); apply runs_ret_inv in H as [-> ->];
        rewrite app_nil_r; (eapply (accepting_only aftermath); [done|]);
        [by eapply refusal_emits|by eapply unavailable_emits]. }
    apply Forall_app in Hq as [_ [He _]%Forall_cons_1]. unfold accepting in He. congruence.
Qed.

Lemma invoke_tool_halts req t r a e b : runs (invoke_tool S I req) t r → t = a ++ e :: b → refuses e = true →
  fails_with (told e) r ∧ Forall (only aftermath) b ∧ (row_due e = true → Exists is_row b).
Proof.
  intros (y & t' & -> & H)%runs_call_inv Ht Hr. destruct a as [|e0 a]; cbn [app] in Ht; injection Ht as <- ->; [done|].
  apply runs_bind in H as (t1 & t2 & res & Ht & H1 & H).
  assert (Hgov : ∀ k, t2 = k ++ e :: b → fails_with (told e) r ∧ Forall (only aftermath) b ∧ (row_due e = true → Exists is_row b)).
  { intros k ->. destruct res as [c|er]; [|by apply runs_ret_inv in H as [?%symmetry%app_cons_not_nil _]].
    apply runs_bind in H as (t3 & t4 & [r' c'] & Ht3 & H & H4). apply runs_ret_inv in H4 as [-> ->].
    rewrite app_nil_r in Ht3. by eapply governed_halts. }
  apply app_eq_inv in Ht as [(k & -> & Ht)|(k & -> & Ht)]; [by eapply Hgov|].
  destruct k as [|e1 k]; [by apply (Hgov [])|]. injection Ht as <- ->.
  destruct (resolution_halts _ _ _ _ _ _ a e k H1 eq_refl Hr) as (Hres & Hk & Hrow).
  destruct res as [c|er]; [done|]. apply runs_ret_inv in H as [-> ->]. rewrite app_nil_r. auto.
Qed.

End Halts.

(** ** Nothing is dispatched before a refusal *)

(** The only dispatch of a trace splits it in one way. *)
Lemma dispatch_split (a b c d : events) x y : a ++ x :: b = c ++ y :: d → Forall (never KDispatch) (c ++ d) →
  kind_of (ev_call x) = KDispatch → b = d.
Proof.
  rewrite Forall_forall. intros Ht Hn Hx. apply app_eq_inv in Ht as [(k & -> & Ht)|(k & -> & Ht)];
    (destruct k as [|z k]; [by injection Ht|]); injection Ht as Hz ->; exfalso.
  - apply (Hn x); [|done]. rewrite !elem_of_app, elem_of_cons. auto.
  - subst z. apply (Hn x); [|done]. rewrite !elem_of_app, elem_of_cons. auto.
Qed.

Lemma refusal_before_dispatch S principal id req t r a e b : runs (invoke_tool S (call_info principal id req) req) t r →
  t = a ++ e :: b → refuses e = true → Forall (never KDispatch) a.
Proof.
  intros H -> Hr. apply Forall_forall. intros [s x] Hin Hk. destruct s; try done.
  destruct (invoke_tool_governed S principal id req _ r d x H) as (c & f & Ht & Hn & Hf & _).
  { apply elem_of_app. by left. }
  apply list_elem_of_split in Hin as (a1 & a2 & ->). rewrite <- app_assoc in Ht. cbn [app] in Ht.
  apply dispatch_split in Ht as <-; [|done|done]. apply accepting_only in Hf; [|done].
  apply Forall_app in Hf as [_ [He _]%Forall_cons_1]. unfold accepting in He. congruence.
Qed.

(** ** Errors after the dispatch *)

(** The errors a call can end in once it was dispatched. *)
Definition late (e : InvocationError) : bool :=
  match e with
  | EUpstream _ | EForbidden _ _ _ _ | EOutputSchemaViolation _ _ | EResponseInspectionBlocked _ _ _
  | EResponseMaterializationLimit _ _ _ => true
  | _ => false
  end.

Definition late_result {A} (r : result A InvocationError) : Prop := match r with Ok _ => True | Err e => late e = true end.

(** The stage fails late if it fails, and what it returns satisfies [V]. *)
Definition yields {A} (V : A → Prop) (m : M A) : Prop :=
  ∀ c t r c', mruns m c t r c' → match r with Ok a => V a | Err e => late e = true end.

Lemma yields_bind {A B} (V : A → Prop) (W : B → Prop) (m : M A) k : yields V m → (∀ a, V a → yields W (k a)) → yields W (m ≫= k).
Proof.
  intros Hm Hk c t r c' [(e & -> & H)|(t1 & t2 & a & c1 & -> & H1 & H2)]%mruns_bind; [by apply Hm in H|].
  apply Hm in H1. by apply (Hk a H1) in H2.
Qed.
Lemma yields_ret {A} (V : A → Prop) a : V a → yields V (mret a).
Proof. by intros Ha c t r c' (_ & -> & _)%mruns_ret. Qed.
Lemma yields_fail {A} (V : A → Prop) e : late e = true → yields V (fail e).
Proof. by intros He c t r c' (_ & -> & _)%mruns_fail. Qed.
Lemma yields_ask {A} (f : Ctx → A) : yields (λ _, True) (ask f).
Proof. by intros c t r c' (_ & -> & _)%mruns_ask. Qed.
Lemma yields_modify f : yields (λ _, True) (modify f).
Proof. by intros c t r c' (_ & -> & _)%mruns_modify. Qed.
Lemma yields_perform s : yields (λ _, True) (perform s).
Proof. by intros c t r c' (x & _ & -> & _)%mruns_perform. Qed.
Lemma yields_lift {A} (q : prog Seam A) : yields (λ _, True) (lift q).
Proof. by intros c t r c' (x & _ & -> & _)%mruns_lift. Qed.
Lemma yields_of_result {A} (x : result A InvocationError) : late_result x → yields (λ _, True) (of_result x).
Proof. intros Hx c t r c' (_ & -> & _)%mruns_of_result. by destruct x. Qed.
Lemma yields_attempt {A} (V : A → Prop) (m : M A) : yields V m → yields late_result (attempt m).
Proof. intros Hm c t r c' (x & -> & H)%mruns_attempt. apply Hm in H. by destruct x. Qed.
Lemma yields_true {A} (V : A → Prop) (m : M A) : yields V m → yields (λ _, True) m.
Proof. intros Hm c t r c' H. apply Hm in H. by destruct r. Qed.

Ltac late_step :=
  intros; cbn beta iota;
  match goal with
  | |- yields _ (match ?x with _ => _ end) => destruct x eqn:?
  | |- yields _ (attempt _ ≫= _) => apply (yields_bind late_result); [apply (yields_attempt (λ _, True))|]
  | |- yields _ (attempt _) => apply (yields_attempt (λ _, True))
  | |- yields _ (_ ≫= _) => apply (yields_bind (λ _, True))
  | |- yields (λ _, True) (perform ?s) => exact (yields_perform s)
  | |- yields _ (ask _) => apply yields_ask
  | |- yields _ (modify _) => apply yields_modify
  | |- yields _ (lift _) => apply yields_lift
  | |- yields _ (mret _) => apply yields_ret
  | |- yields _ (fail _) => apply yields_fail
  | |- yields _ (of_result _) => apply yields_of_result
  end; try done.

Ltac late_tac := repeat first [progress eauto 1 | late_step]; try done.

Section Late.
Context (S : Service) (I : CallInfo).

Lemma record_yields a o b : yields (λ _, True) (record I a o b).
Proof. by intros c t r c' [-> _]%record_total. Qed.
Hint Resolve record_yields : core.

Lemma process_yields r : yields (λ _, True) (process S I r).
Proof.
  assert (∀ A (V : A → Prop) reason, yields V (deny_retained_resource I reason : M A)).
  { intros A V reason. unfold deny_retained_resource. late_tac. }
  assert (∀ p u k, yields (λ _, True) (authorize_retained_read I p u k)).
  { intros. unfold authorize_retained_read. late_tac. }
  assert (∀ t l b x, yields (λ _, True) (read_retained S I t l b x)).
  { intros t l b x. unfold read_retained, read_failure, hydration_failure, recovery_failure, recovery_error. late_tac; by repeat case_match. }
  unfold process, recover_retained_response, recover_target. late_tac.
Qed.

Lemma block_yields {A} (V : A → Prop) n r : yields V (block_response I n r : M A).
Proof. unfold block_response, record_response_denial. late_tac. Qed.
Hint Resolve block_yields : core.

Lemma claims_yield r : yields (λ _, True) (enforce_claims I r).
Proof. unfold enforce_claims, enforce_trust. late_tac. Qed.

Lemma inspectors_yield ic l r : yields (λ _, True) (run_inspectors I ic l r).
Proof. revert r. induction l as [|n l IH]; intros r; cbn [run_inspectors]; late_tac. Qed.

Lemma view_yields ic l r : yields (λ _, True) (inspect_view I ic l r).
Proof. induction l as [|n l IH]; cbn [inspect_view]; late_tac. Qed.
Hint Resolve process_yields claims_yield inspectors_yield view_yields : core.

Lemma inspect_yields r : yields (λ _, True) (inspect_response S I r).
Proof. unfold inspect_response. late_tac. Qed.

Lemma output_yields r : yields (λ _, True) (validate_output S I r).
Proof. unfold validate_output, record_response_denial. late_tac. Qed.

Lemma dispatch_yields : yields (λ _, True) (dispatch S I).
Proof. unfold dispatch. late_tac. Qed.

Lemma pause_yields p : yields (λ _, True) (admit_pause S I p).
Proof. unfold admit_pause, inspect_pause, seal_pause_state. late_tac. Qed.

Lemma outcome_yields r : yields (λ _, True) (record_outcome S I r).
Proof. unfold record_outcome. late_tac. Qed.

Lemma redactions_yield l : yields (λ _, True) (record_redactions I l).
Proof. induction l as [|[n k] l IH]; cbn [record_redactions]; late_tac. Qed.
Hint Resolve inspect_yields output_yields dispatch_yields pause_yields outcome_yields redactions_yield : core.

Lemma task_yields t : yields (λ _, True) (admit_upstream_task S I t).
Proof. unfold admit_upstream_task, inspect_task_metadata. late_tac. Qed.

Lemma inline_yields r : yields (λ _, True) (retain_large_inline_result S I r).
Proof. unfold retain_large_inline_result, save_inline_result, inline_delivery_failure. late_tac. Qed.
Hint Resolve task_yields inline_yields : core.

Definition staged_late (s : Staged) : Prop := late_result s.1.

Lemma yields_bind_late {A B} (W : B → Prop) (m : M (result A InvocationError)) k :
  yields late_result m → (∀ a, late_result a → yields W (k a)) → yields W (m ≫= k).
Proof. apply yields_bind. Qed.

Lemma lost_yields reason : yields late_result (delivery_lost S reason).
Proof. unfold delivery_lost. late_tac. Qed.

Lemma body_late rec r : late_result (inspected_bytes (to_string (P S)) (base64_decode S) rec r).
Proof. unfold inspected_bytes, recovery_failure, recovery_error. by repeat case_match. Qed.

Lemma stage_body_yields rec r body : late_result body → yields late_result (stage_body S I rec r body).
Proof. intros Hb. unfold stage_body. late_tac. by case_match. Qed.

Lemma deliver_yields rec r : yields staged_late (deliver_recovered S I rec r).
Proof.
  unfold deliver_recovered. apply (yields_bind (λ _, True)); [apply yields_ask|]. intros f _.
  apply yields_bind_late; [apply stage_body_yields, body_late|]. intros [p|e] He; [by apply yields_ret|]. late_tac.
Qed.

Lemma recovered_yields rec r : late_result r → yields staged_late (stage_recovered S I rec r).
Proof.
  intros Hr. unfold stage_recovered. apply (yields_bind (λ _, True)); [apply yields_ask|]. intros f _.
  destruct rec as [rec|], r as [r|e]; [| |by apply yields_ret..].
  - case_match; [apply deliver_yields|by apply yields_ret].
  - case_match; [|by apply yields_ret]. apply yields_bind_late; [apply lost_yields|]. intros x Hx. by apply yields_ret.
Qed.

Lemma files_yield b st : staged_late st → yields staged_late (stage_files S I b st).
Proof. intros Hs. unfold stage_files. destruct st as [[r|e] batch]; [|by apply yields_ret]. late_tac. Qed.

Lemma discard_yields b : yields (λ _, True) (discard_batch S b).
Proof. unfold discard_batch. late_tac. Qed.

Lemma publish_yields b st : staged_late st → yields late_result (validate_and_publish S I b st).
Proof.
  pose proof lost_yields. pose proof discard_yields. intros Hs. destruct st as [res batch]. cbn in Hs. unfold validate_and_publish. late_tac.
Qed.

Lemma staged_yields result : late_result result → yields late_result (prepare_files_and_validate_output S I result).
Proof.
  intros Hr. unfold prepare_files_and_validate_output, enter. do 2 (apply (yields_bind (λ _, True)); [late_tac|]; intros ? _).
  cbv zeta. apply yields_bind_late; [late_tac|]. intros [[]|e] He; [|late_tac].
  apply (yields_bind staged_late).
  { apply (yields_bind (λ _, True)); [late_tac|]. intros _ _. apply (yields_bind staged_late); [by apply recovered_yields|].
    intros st Hst. by apply files_yield. }
  intros st Hst. apply (yields_bind staged_late).
  { destruct st as [[r|er] batch]; [by apply yields_ret|]. case_match; [|by apply yields_ret].
    apply yields_bind_late; [apply lost_yields|]. intros x Hx. by apply yields_ret. }
  intros st' Hst'. apply (yields_bind (λ _, True)); [late_tac|]. intros _ _. by apply publish_yields.
Qed.

Lemma finish_yields result : late_result result → yields (λ _, True) (finish S I result).
Proof.
  intros Hr. unfold finish, enter, flush_pending_redactions. do 2 (apply (yields_bind (λ _, True)); [late_tac|]; intros ? _). cbv zeta.
  apply yields_bind_late.
  { late_tac; repeat case_match; simplify_eq; done. }
  intros x Hx. apply yields_bind_late; [by apply staged_yields|]. intros y Hy. late_tac.
Qed.

Lemma after_yields response : late_result response → yields (λ _, True) (after_dispatch S I response).
Proof.
  intros Hr. unfold after_dispatch, record_pause_relay, enter. destruct response as [[r|p|t|]|e]; try by apply finish_yields.
  - apply yields_bind_late; [late_tac|]. intros [q|er] Hq; [late_tac|by apply finish_yields].
  - apply yields_bind_late; [late_tac|]. intros x Hx. late_tac.
Qed.

Lemma respond_yields : yields (λ _, True) (respond S I).
Proof.
  unfold respond, enter. apply yields_bind_late; [|intros x Hx; by apply after_yields].
  apply (yields_bind (λ _, True)); [late_tac|]. late_tac.
Qed.

(** A dispatched call fails late. *)
Lemma governed_late mode expected admission c t r c' d x : mruns (governed S I mode expected admission) c t r c' →
  Event (DispatchTool d) x ∈ t → late_result r.
Proof.
  intros H Hin. unfold governed in H. destruct (preparation_emits S I admission) as [E2 E3].
  apply mruns_bind in H as [(e & _ & H)|(t1 & u1 & [] & c1 & -> & H1 & H)].
  { destruct (no_dispatch _ _ _ (gate_quiet _ (gates_emits _ _ _ _ _ _ _ _ H)) Hin). }
  apply elem_of_app in Hin as [Hin|Hin]; [destruct (no_dispatch _ _ _ (gate_quiet _ (gates_emits _ _ _ _ _ _ _ _ H1)) Hin)|].
  apply mruns_bind in H as [(e & _ & H)|(t2 & u2 & [] & c2 & -> & H2 & H)].
  { destruct (no_dispatch _ _ _ (post_quiet _ (E2 _ _ _ _ H)) Hin). }
  apply elem_of_app in Hin as [Hin|Hin]; [destruct (no_dispatch _ _ _ (post_quiet _ (E2 _ _ _ _ H2)) Hin)|].
  apply mruns_bind in H as [(e & _ & H)|(t3 & u3 & [] & c3 & -> & H3 & H)].
  { destruct (no_dispatch _ _ _ (post_quiet _ (E3 _ _ _ _ H)) Hin). }
  apply respond_yields in H. by destruct r.
Qed.

Lemma invoke_tool_late req t r d x : runs (invoke_tool S I req) t r → Event (DispatchTool d) x ∈ t → late_result r.
Proof.
  intros (y & t' & -> & H)%runs_call_inv Hin. apply elem_of_cons in Hin as [Hin|Hin]; [by apply (f_equal ev_call) in Hin|].
  apply runs_bind in H as (t1 & t2 & res & -> & H1 & H).
  apply elem_of_app in Hin as [Hin|Hin].
  { apply resolution_emits in H1. eapply (only_never _ KDispatch) in H1; [|by apply (bool_decide_unpack _)]. destruct (no_dispatch _ _ _ H1 Hin). }
  destruct res as [c|er]; [|apply runs_ret_inv in H as [-> _]; by apply not_elem_of_nil in Hin].
  apply runs_bind in H as (t3 & t4 & [r' c'] & -> & H & H4). apply runs_ret_inv in H4 as [-> ->]. rewrite app_nil_r in Hin.
  by eapply governed_late.
Qed.

End Late.



(** ** Stage order *)

Section Order.
Context (S : Service) (I : CallInfo).

Definition gate_stages : list InvocationStage :=
  [ValidateInput; ExtractFacts; Authorize; CheckProfileRestrictions; PrepareOutputValidation; CheckQuota;
   CheckApproval; RecordPreCall].
Definition response_stages : list InvocationStage :=
  [InspectResponse; PrepareFileOutputs; ValidateOutput; RecordOutcome].

Lemma stage_within s l m : emits (only l) m → bool_decide (KStage ∉ l) = true → within [s] (stage s m).
Proof.
  intros Hm Hl. unfold stage, enter. apply (within_bind [s] []); [apply within_enter|]. intros _.
  by eapply quiet_within.
Qed.

Lemma gates_within mode expected : within gate_stages (gates S I mode expected).
Proof.
  unfold gates. apply (within_bind []); [eapply (quiet_within []); [stage_tac|done]|]. intros c.
  apply (within_bind []); [eapply (quiet_within [KClock; KRecord]); [unfold record_contract_drift_refusal; stage_tac|done]|]. intros _.
  apply (within_bind []); [eapply (quiet_within [KClock; KRecord]);
    [unfold record_read_only_operation_refusal, record_read_only_refusal; stage_tac|done]|]. intros _.
  apply (within_bind [ValidateInput]); [by eapply stage_within; [apply validate_input_emits|]|]. intros _.
  apply (within_bind [ExtractFacts]); [by apply (stage_within _ []); [unfold extract_facts; stage_tac|]|]. intros _.
  apply (within_bind [Authorize]); [by eapply stage_within; [apply authorize_emits|]|]. intros _.
  apply (within_bind [CheckProfileRestrictions]); [by eapply stage_within; [apply check_profile_restrictions_emits|]|]. intros _.
  apply (within_bind [PrepareOutputValidation]); [by eapply stage_within; [apply prepare_output_validation_emits|]|]. intros _.
  apply (within_bind []); [by eapply quiet_within; [apply refuse_continuation_emits|]|]. intros _.
  apply (within_bind []); [by eapply quiet_within; [apply verify_continuation_emits|]|]. intros _.
  apply (within_bind []); [by eapply quiet_within; [apply admit_file_inputs_emits|]|]. intros _.
  apply (within_bind []); [by eapply quiet_within; [apply prepare_task_origin_emits|]|]. intros _.
  apply (within_bind [CheckQuota]); [by eapply stage_within; [apply check_quota_emits|]|]. intros _.
  apply (within_bind [CheckApproval]); [by eapply stage_within; [apply check_approval_emits|]|]. intros _.
  by eapply stage_within; [apply record_pre_call_emits|].
Qed.

Lemma outcome_within r : within [] (record_outcome S I r).
Proof. by eapply quiet_within; [apply record_outcome_emits|]. Qed.

(** A recorded failure: the outcome stage, and only when the work failed. *)
Lemma or_record_enters m : within [] m → enters [] [RecordOutcome] (or_record S I m).
Proof.
  intros Hm. unfold or_record. apply (enters_bind [] [] [] [RecordOutcome]); [by apply within_enters, within_attempt| |sub_list..].
  intros [[]|e].
  - intros c t r c' (-> & -> & _)%mruns_ret. done.
  - intros c t r c' H. unfold enter in H.
    apply mruns_bind in H as [(e1 & -> & H)|(t1 & t2 & x & c1 & -> & H1 & H)].
    + apply perform_bind in H as (y & t' & -> & H). apply outcome_within in H. simpl. by apply sublist_skip.
    + apply perform_bind in H1 as (y & t' & -> & H1). apply outcome_within in H1. apply mruns_fail in H as (-> & -> & _).
      rewrite app_nil_r. simpl. by apply sublist_skip.
Qed.

Lemma enter_within {A} s l (m : M A) : within l m → within (s :: l) (enter s m).
Proof. intros Hm. unfold enter. apply (within_bind [s]); [apply within_enter|]. done. Qed.

Lemma tail_within {A} (m : M A) : emits (only tail_kinds) m → within [] m.
Proof. intros Hm. by eapply quiet_within. Qed.

Lemma staged_output_within r : within [PrepareFileOutputs; ValidateOutput] (prepare_files_and_validate_output S I r).
Proof.
  unfold prepare_files_and_validate_output. apply (within_bind []); [apply tail_within, emits_ask|]. intros c.
  apply (within_bind []); [apply tail_within, emits_modify|]. intros _.
  apply (within_bind []).
  { apply tail_within. pose proof (validate_output_emits S I). stage_tac. }
  intros [u|e].
  - apply (within_bind [PrepareFileOutputs]).
    { apply enter_within, tail_within. unfold stage_recovered, stage_files, deliver_recovered, stage_body, delivery_lost. stage_tac. }
    intros st. apply (within_bind []); [apply tail_within; unfold delivery_lost; stage_tac|]. intros st2.
    apply enter_within, tail_within. pose proof (validate_output_emits S I). pose proof (retain_large_emits S I).
    unfold validate_and_publish, discard_batch, delivery_lost. stage_tac.
  - apply (within_weaken []); [|apply sublist_nil_l]. apply tail_within. stage_tac.
Qed.

Lemma finish_within r : within response_stages (finish S I r).
Proof.
  unfold finish. apply (within_bind []); [apply tail_within, emits_ask|]. intros adj.
  apply (within_bind []); [apply tail_within; stage_tac|]. intros _.
  apply (within_bind [InspectResponse]).
  { apply enter_within, tail_within. pose proof (inspect_response_emits S I). stage_tac. }
  intros r1. apply (within_bind [PrepareFileOutputs; ValidateOutput]); [apply staged_output_within|]. intros r2.
  apply (within_bind []).
  { eapply (quiet_within [KClock; KRecord]); [|done]. unfold flush_pending_redactions.
    pose proof (record_redactions_emits I). stage_tac. }
  intros _. apply (within_bind [RecordOutcome]); [apply enter_within, outcome_within|]. intros _.
  apply tail_within. stage_tac.
Qed.

Lemma after_dispatch_within a : within response_stages (after_dispatch S I a).
Proof.
  unfold after_dispatch. destruct a as [[r|p|t|]|e]; try apply finish_within.
  - apply (within_bind []); [apply within_attempt, tail_within, admit_pause_emits|]. intros [p'|e]; [|apply finish_within].
    apply (within_weaken [RecordOutcome]); [|sub_list].
    apply (within_bind [RecordOutcome] []); [|intros _; apply tail_within; stage_tac].
    apply enter_within. by eapply quiet_within; [unfold record_pause_relay; apply (record_emits I [KClock; KRecord])|].
  - apply (within_weaken []); [|apply sublist_nil_l]. apply tail_within.
    pose proof (admit_upstream_task_emits S I). pose proof (λ r, emits_only _ tail_kinds _ (record_outcome_emits S I r) eq_refl).
    stage_tac.
Qed.

Lemma governed_within mode expected admission : within (drop 1 ALL) (governed S I mode expected admission).
Proof.
  unfold governed. intros c t r c' H.
  assert (Hen : enters (gate_stages ++ [] ++ [PrepareFileInputs] ++ Dispatch :: response_stages) (drop 1 ALL)
                  (governed S I mode expected admission)); [|specialize (Hen c t r c' H); by destruct (is_ok r)].
  unfold governed. eapply (enters_bind gate_stages _ _ (drop 9 ALL)); [apply within_enters, gates_within| |sub_list..].
  intros _. eapply (enters_bind [] [RecordOutcome] _ (drop 9 ALL)).
  { apply or_record_enters, tail_within. unfold dispatch_admission. stage_tac. }
  2, 3: sub_list.
  intros _. eapply (enters_bind [PrepareFileInputs] [PrepareFileInputs; RecordOutcome] _ (drop 10 ALL)).
  { unfold enter. apply (enters_bind [PrepareFileInputs] [] [] [RecordOutcome]).
    - intros c0 t0 r0 c0' (x & -> & -> & _)%mruns_perform. done.
    - intros _. apply or_record_enters, tail_within, prepare_files_emits.
    - sub_list.
    - sub_list. }
  2, 3: sub_list.
  intros _. apply within_enters. unfold respond.
  apply (within_bind [Dispatch]); [|intros a; apply after_dispatch_within].
  apply enter_within, within_attempt. intros c0 t0 r0 c0' (y & t' & -> & Ht)%dispatch_trace. simpl.
  rewrite (quiet_stages t'); [done|]. by apply never_enters, (only_never tail_kinds); [apply (bool_decide_unpack _)|].
Qed.

End Order.

(** The stages a run enters, in the order of [InvocationStage::ALL], each at most once. *)
Definition documented_order (t : events) : Prop := sublist (stages t) ALL.

(** The stages a run of [invoke] enters are a subsequence of the documented order: whatever
    the collaborators answer, no stage is entered twice or out of order. *)
Theorem stages_in_order (S : Service) (principal : option (Principal Value)) (req : InvocationRequest)
    (t : events) (r : result InvocationResponse InvocationError)
    (Hrun : runs (invoke S principal req) t r) : documented_order t.
Proof.
  unfold documented_order.
  destruct (invoke_trace S principal req t r Hrun) as [Hq|(y & t' & -> & H)].
  - rewrite (quiet_stages t); [apply sublist_nil_l|].
    by apply never_enters, (only_never other_kinds); [apply (bool_decide_unpack _)|].
  - apply runs_call_inv in H as (z & t0 & -> & H). apply runs_bind in H as (t1 & t2 & res & -> & H1 & H).
    simpl. apply sublist_skip. fold (stages (t1 ++ t2)). rewrite stages_app.
    rewrite (quiet_stages t1); [|eapply never_enters, (only_never [KClock; KRecord; KResolve; KDiscover]),
      resolution_emits; [by apply (bool_decide_unpack _)|exact H1]].
    destruct res as [c|e]; [|by apply runs_ret_inv in H as [-> _]; apply sublist_nil_l].
    apply runs_bind in H as (t3 & t4 & [r' c'] & -> & H & H4). apply runs_ret_inv in H4 as [-> _].
    rewrite app_nil_r. by eapply governed_within.
Qed.

Lemma stages_in_order_witness :
  stages (demo_run demo_answers ["pii"]).2 = ALL ∧ documented_order (demo_run demo_answers ["pii"]).2.
Proof.
  split; [vm_compute; reflexivity|]. eapply stages_in_order. apply demo_runs.
Defined.

End InvokeOrder.
