(* ===== verification/Agent.v ===== *)
(** * The bounded agent loop

    Model of crates/waygate-agent/src/lib.rs and run.rs: the loop that alternates
    model turns and governed tool calls. The four trait seams of the crate (model,
    tool dispatch, approval gate, event sink) are records of state-passing
    operations on a world [W] the loop never looks into; every theorem quantifies
    over their implementations. [serde_json::Value] is the parameter [Json]. *)

From S2P Require Import Prelude RustStr.

Module Agent.

(** ** Canonical messages (crates/waygate-llm-translate/src/canonical.rs) *)

Section Data.
Context {Json : Type}.

Inductive Role := System | User | Assistant | Tool.

Inductive ContentPart :=
  | Text (text : string)
  | ImageUrl (url : string)
  | ToolUse (id name arguments : string)
  | ToolResultPart (tool_call_id content : string)
  | Reasoning (item : Json).

Record CanonicalMessage := { role : Role; content : list ContentPart }.

Record CanonicalTool := {
  ct_name : string;
  ct_description : option string;
  ct_parameters : Json;
  ct_strict : option bool;
}.

(** ** The loop's vocabulary *)

Record AgentToolCall := { tc_id : string; tc_name : string; tc_arguments : string }.

Record ModelTurn := {
  assistant : CanonicalMessage;
  tool_calls : list AgentToolCall;
  usage_tokens : Z;
}.

(** [ModelTurn::text] *)
Definition turn_text (t : ModelTurn) : string :=
  foldr (λ p acc, match p with Text s => s +:+ acc | _ => acc end) ""
    (content (assistant t)).

Record AgentTool := { definition : CanonicalTool; side_effects : bool }.
Record ToolOutcome := { to_content : string; is_error : bool }.

Inductive ApprovalDecision := Approved | Rejected (reason : string).

Inductive AgentEvent :=
  | AssistantText (text : string)
  | ToolCallEvent (name arguments : string)
  | ApprovalRequested (id name arguments : string)
  | ApprovalRejected (name reason : string)
  | ToolResultEvent (name content : string) (is_error : bool).

Inductive AgentError := Model (e : string) | Dispatch (e : string).

Record AgentRunConfig := {
  max_steps : Z;
  max_tool_calls : Z;
  token_budget : option Z;
}.

Inductive StopReason := StepCapReached | ToolCallCapReached | BudgetExceeded.

Inductive AgentOutcome :=
  | Done (text : string) (steps tool_calls : Z)
  | Stopped (reason : StopReason) (steps tool_calls : Z).

Definition not_executed_label (r : StopReason) : string :=
  match r with
  | ToolCallCapReached => "NOT EXECUTED: tool-call cap reached for this run"
  | BudgetExceeded => "NOT EXECUTED: token budget exceeded for this run"
  | StepCapReached => "NOT EXECUTED: step cap reached for this run"
  end.

(** The message [push_tool_result] appends. *)
Definition tool_result (c : AgentToolCall) (text : string) : CanonicalMessage :=
  {| role := Tool; content := [ToolResultPart (tc_id c) text] |}.

Definition push_tool_result (tr : list CanonicalMessage) (c : AgentToolCall) (text : string)
  : list CanonicalMessage := tr ++ [tool_result c text].

(** The [HashMap] collected from the offered tools: a later duplicate wins. *)
Definition side_effects_of (tools : list AgentTool) : gmap string bool :=
  foldl (λ m t, <[ct_name (definition t) := side_effects t]> m) ∅ tools.

Definition gated (m : gmap string bool) (name : string) : bool := default true (m !! name).
End Data.
Arguments ContentPart : clear implicits.
Arguments CanonicalMessage : clear implicits.
Arguments CanonicalTool : clear implicits.
Arguments ModelTurn : clear implicits.
Arguments AgentTool : clear implicits.

(** ** The trait seams *)

Section Seams.
Context {Json W : Type}.

Record AgentModel := {
  complete : list (CanonicalMessage Json) → list (CanonicalTool Json) → W →
             result (ModelTurn Json) AgentError * W;
}.

Record AgentToolDispatch := {
  approval_preview : string → string → string;
  available_tools : W → result (list (AgentTool Json)) AgentError * W;
  call_tool : string → string → W → result ToolOutcome AgentError * W;
}.

Record ApprovalGate := { authorize : AgentToolCall → W → ApprovalDecision * W }.
Record AgentEventSink := { emit : AgentEvent → W → W }.

Definition AllowAllApproval : ApprovalGate := {| authorize _ w := (Approved, w) |}.
Definition NullEventSink : AgentEventSink := {| emit _ w := w |}.

(** ** The loop *)

Context (model : AgentModel) (dispatch : AgentToolDispatch)
        (approval : ApprovalGate) (events : AgentEventSink).
Context (config : AgentRunConfig).

(** The mutable state of a run: the transcript and the world behind the seams. *)
Abbreviation St := (list (CanonicalMessage Json) * W)%type.

Definition over_budget (tokens_used : Z) : bool :=
  match token_budget config with Some budget => budget <? tokens_used | None => false end.

(** Executing one call that no cap stopped. *)
Definition attempt (effects : gmap string bool) (call : AgentToolCall) (s : St)
  : result unit AgentError * St :=
  let '(tr, w) := s in
  let preview := approval_preview dispatch (tc_name call) (tc_arguments call) in
  let w := emit events (ToolCallEvent (tc_name call) preview) w in
  let '(verdict, w) :=
    if gated effects (tc_name call)
    then authorize approval call
           (emit events (ApprovalRequested (tc_id call) (tc_name call) preview) w)
    else (Approved, w) in
  match verdict with
  | Rejected reason =>
      let text := "REJECTED by operator: " +:+ reason in
      let w := emit events (ApprovalRejected (tc_name call) reason) w in
      (Ok (), (push_tool_result tr call text,
               emit events (ToolResultEvent (tc_name call) text true) w))
  | Approved =>
      let '(outcome, w) := call_tool dispatch (tc_name call) (tc_arguments call) w in
      match outcome with
      | Err e => (Err e, (tr, w))
      | Ok o =>
          (Ok (), (push_tool_result tr call (to_content o),
                   emit events (ToolResultEvent (tc_name call) (to_content o) (is_error o)) w))
      end
  end.

(** The loop over one turn's calls, with the stop flag and the call counter. *)
Fixpoint run_calls (effects : gmap string bool) (calls : list AgentToolCall)
    (stop : option StopReason) (made : Z) (s : St)
  : result (option StopReason * Z) AgentError * St :=
  match calls with
  | [] => (Ok (stop, made), s)
  | call :: calls' =>
      let stop := match stop with
                  | None => if max_tool_calls config <=? made then Some ToolCallCapReached else None
                  | Some r => Some r
                  end in
      match stop with
      | Some reason =>
          let label := not_executed_label reason in
          let s' := (push_tool_result s.1 call label,
                     emit events (ToolResultEvent (tc_name call) label true) s.2) in
          run_calls effects calls' stop made s'
      | None =>
          match attempt effects call s with
          | (Err e, s') => (Err e, s')
          | (Ok _, s') => run_calls effects calls' None (made + 1) s'
          end
      end
  end.

(** [for step in 1..=max_steps], [fuel] counting the steps that remain. *)
Fixpoint run_steps (effects : gmap string bool) (tool_defs : list (CanonicalTool Json))
    (fuel : nat) (step made tokens : Z) (s : St) : result AgentOutcome AgentError * St :=
  match fuel with
  | O => (Ok (Stopped StepCapReached (Z.max (max_steps config) 1) made), s)
  | S fuel' =>
      let '(tr, w) := s in
      match complete model tr tool_defs w with
      | (Err e, w) => (Err e, (tr, w))
      | (Ok turn, w) =>
          let tokens := u64_saturating_add tokens (usage_tokens turn) in
          let tr := tr ++ [assistant turn] in
          let text := turn_text turn in
          let w := if is_empty text then w else emit events (AssistantText text) w in
          let over := over_budget tokens in
          match tool_calls turn with
          | [] => (Ok (if over then Stopped BudgetExceeded step made else Done text step made),
                   (tr, w))
          | calls =>
              match run_calls effects calls (if over then Some BudgetExceeded else None) made
                      (tr, w) with
              | (Err e, s') => (Err e, s')
              | (Ok (Some reason, made'), s') => (Ok (Stopped reason step made'), s')
              | (Ok (None, made'), s') =>
                  run_steps effects tool_defs fuel' (step + 1) made' tokens s'
              end
          end
      end
  end.

Definition run_agent (tr : list (CanonicalMessage Json)) (w : W)
  : result AgentOutcome AgentError * St :=
  match available_tools dispatch w with
  | (Err e, w) => (Err e, (tr, w))
  | (Ok tools, w) =>
      run_steps (side_effects_of tools) (definition <$> tools)
        (Z.to_nat (Z.max (max_steps config) 1)) 1 0 0 (tr, w)
  end.
End Seams.
Arguments AgentModel : clear implicits.
Arguments AgentToolDispatch : clear implicits.
Arguments ApprovalGate : clear implicits.
Arguments AgentEventSink : clear implicits.
Arguments attempt : simpl never.

(** ** The trace of a run

    The seams of any implementation, recording what the loop asks of them. *)

Section Trace.
Context {Json W : Type}.

Inductive Entry :=
  | Listed (r : result (list (AgentTool Json)) AgentError)
  | Turned (r : result (ModelTurn Json) AgentError)
  | Asked (call : AgentToolCall) (d : ApprovalDecision)
  | Called (name arguments : string) (r : result ToolOutcome AgentError)
  | Emitted (e : AgentEvent).

Definition logged {A} (entry : A → Entry) (op : W → A * W) (w : W * list Entry)
  : A * (W * list Entry) :=
  let '(a, w') := op w.1 in (a, (w', entry a :: w.2)).

Definition logged_model (m : AgentModel Json W) : AgentModel Json (W * list Entry) :=
  {| complete tr defs := logged Turned (complete m tr defs) |}.
Definition logged_dispatch (d : AgentToolDispatch Json W) : AgentToolDispatch Json (W * list Entry) :=
  {| approval_preview := approval_preview d;
     available_tools := logged Listed (available_tools d);
     call_tool n a := logged (Called n a) (call_tool d n a) |}.
Definition logged_approval (g : ApprovalGate W) : ApprovalGate (W * list Entry) :=
  {| authorize c := logged (Asked c) (authorize g c) |}.
Definition logged_sink (k : AgentEventSink W) : AgentEventSink (W * list Entry) :=
  {| emit e w := (emit k e w.1, Emitted e :: w.2) |}.

(** Readings of a log, newest entry first. *)
Fixpoint turns (l : list Entry) : Z :=
  match l with [] => 0 | Turned _ :: l' => 1 + turns l' | _ :: l' => turns l' end.

Fixpoint attempts (l : list Entry) : Z :=
  match l with
  | [] => 0
  | Emitted (ToolCallEvent _ _) :: l' => 1 + attempts l'
  | _ :: l' => attempts l'
  end.

Fixpoint executions (l : list Entry) : Z :=
  match l with [] => 0 | Called _ _ _ :: l' => 1 + executions l' | _ :: l' => executions l' end.

Fixpoint spent (l : list Entry) : Z :=
  match l with
  | [] => 0
  | Turned (Ok t) :: l' => u64_saturating_add (spent l') (usage_tokens t)
  | _ :: l' => spent l'
  end.

(** The turns the model answered, newest first. *)
Fixpoint answers (l : list Entry) : list (ModelTurn Json) :=
  match l with
  | [] => []
  | Turned (Ok t) :: l' => t :: answers l'
  | _ :: l' => answers l'
  end.

Fixpoint offered (l : list Entry) : gmap string bool :=
  match l with
  | [] => ∅
  | Listed (Ok tools) :: _ => side_effects_of tools
  | _ :: l' => offered l'
  end.

(** What must hold of the past when the loop does something. *)
Definition admissible (config : AgentRunConfig) (e : Entry) (l : list Entry) : Prop :=
  match e with
  | Turned _ => turns l < Z.max (max_steps config) 1 ∧ over_budget config (spent l) = false
  | Emitted (ToolCallEvent _ _) =>
      attempts l < max_tool_calls config ∧ over_budget config (spent l) = false
  | Asked _ _ => over_budget config (spent l) = false
  | Called n a _ =>
      over_budget config (spent l) = false
      ∧ (∃ t id rest, answers l = t :: rest
           ∧ {| tc_id := id; tc_name := n; tc_arguments := a |} ∈ tool_calls t)
      ∧ (gated (offered l) n = true →
         ∃ id l', l = Asked {| tc_id := id; tc_name := n; tc_arguments := a |} Approved :: l')
      ∧ executions l < attempts l
  | _ => True
  end.

Fixpoint lawful (config : AgentRunConfig) (l : list Entry) : Prop :=
  match l with
  | [] => True
  | e :: l' => admissible config e l' ∧ lawful config l'
  end.
End Trace.
Arguments Entry : clear implicits.

(** ** Lemmas on the logged loop *)

Section TraceLemmas.
Context {Json W : Type}.
Context (model : AgentModel Json W) (dispatch : AgentToolDispatch Json W)
        (approval : ApprovalGate W) (events : AgentEventSink W).
Context (config : AgentRunConfig).
Implicit Types (l : list (Entry Json)) (w : W) (tr : list (CanonicalMessage Json)).

(** The readings that only a model turn or the tool listing changes. *)
Definition same_turns l l' : Prop :=
  turns l' = turns l ∧ spent l' = spent l ∧ answers l' = answers l ∧ offered l' = offered l.

(** The state between two calls of a turn whose calls include [calls]. *)
Definition mid_turn (calls : list AgentToolCall) l : Prop :=
  lawful config l ∧ executions l ≤ attempts l
  ∧ ∃ t rest, answers l = t :: rest ∧ ∀ c, c ∈ calls → c ∈ tool_calls t.

(** The dispatch seam answered a call with this error. *)
Definition raised (e : AgentError) : Prop :=
  ∃ n a w w', call_tool dispatch n a w = (Err e, w').

Abbreviation lattempt :=
  (attempt (logged_dispatch dispatch) (logged_approval approval) (logged_sink events)).
Abbreviation lrun_calls :=
  (run_calls (logged_dispatch dispatch) (logged_approval approval) (logged_sink events) config).
Abbreviation lrun_steps :=
  (run_steps (logged_model model) (logged_dispatch dispatch) (logged_approval approval)
     (logged_sink events) config).
Abbreviation lrun :=
  (run_agent (logged_model model) (logged_dispatch dispatch) (logged_approval approval)
     (logged_sink events) config).

(** Discharge the readings of a log extended by known entries. *)
Ltac settle :=
  unfold mid_turn, same_turns, push_tool_result; simpl;
  repeat match goal with |- _ ∧ _ => split end; try done; try lia; try congruence; unfold raised; eauto 8.

Lemma attempt_lawful call calls tr w l r tr' w' l' :
  lattempt (offered l) call (tr, (w, l)) = (r, (tr', (w', l'))) →
  mid_turn (call :: calls) l → over_budget config (spent l) = false →
  attempts l < max_tool_calls config →
  mid_turn calls l' ∧ same_turns l l' ∧ attempts l' = attempts l + 1
  ∧ match r with
    | Ok _ => ∃ text, tr' = tr ++ [tool_result call text]
    | Err e => tr' = tr ∧ raised e
    end.
Proof.
  intros Hrun (Hlaw & Hex & t & rest & Hans & Hin) Hover Hcap.
  assert (Hcall : call ∈ tool_calls t) by (apply Hin; left).
  assert (Hcalls : ∀ c, c ∈ calls → c ∈ tool_calls t) by (intros c Hc; apply Hin; by right).
  unfold attempt in Hrun. cbn [logged_sink logged_dispatch logged_approval emit authorize call_tool
    approval_preview] in Hrun. unfold logged in Hrun. cbn [fst snd] in Hrun.
  destruct call as [id n a]. cbn [tc_id tc_name tc_arguments] in *.
  destruct (gated (offered l) n) eqn:Hg.
  - destruct (authorize approval _ _) as [d wa] eqn:Ha. destruct d as [|reason]; simpl in Hrun.
    + destruct (call_tool dispatch n a wa) as [o wc] eqn:Hc.
      destruct o as [o|e]; simpl in Hrun; injection Hrun as <- <- <- <-; settle.
    + injection Hrun as <- <- <- <-. settle.
  - simpl in Hrun. destruct (call_tool dispatch n a _) as [o wc] eqn:Hc.
    destruct o as [o|e]; simpl in Hrun; injection Hrun as <- <- <- <-; settle.
Qed.

(** Tool results that answer [calls] in order. *)
Definition answering (calls : list AgentToolCall) (msgs : list (CanonicalMessage Json)) : Prop :=
  Forall2 (λ c m, ∃ text, m = tool_result c text) calls msgs.

(** What the stop flag means to the log. *)
Definition stop_ok (stop : option StopReason) l : Prop :=
  match stop with
  | None => over_budget config (spent l) = false
  | Some ToolCallCapReached => max_tool_calls config ≤ attempts l
  | Some BudgetExceeded => over_budget config (spent l) = true
  | Some StepCapReached => False
  end.

(** How the calls of a turn end: every call answered, with the stop flag telling
    why the run must end, or an aborted prefix. *)
Definition calls_end (calls : list AgentToolCall) tr l' (r : result (option StopReason * Z) AgentError)
    tr' : Prop :=
  match r with
  | Ok (stop, made) =>
      made = attempts l' ∧ (∃ msgs, tr' = tr ++ msgs ∧ answering calls msgs) ∧ stop_ok stop l'
  | Err e => raised e ∧ ∃ answered rest msgs,
      calls = answered ++ rest ∧ rest ≠ [] ∧ tr' = tr ++ msgs ∧ answering answered msgs
  end.

Lemma calls_end_cons call calls tr text l' r tr' :
  calls_end calls (tr ++ [tool_result call text]) l' r tr' →
  calls_end (call :: calls) tr l' r tr'.
Proof.
  unfold calls_end. destruct r as [[stop made]|e].
  - intros (? & (msgs & -> & ?) & ?). split; [done|]. split; [|done].
    exists (tool_result call text :: msgs). rewrite <- app_assoc. split; [done|].
    constructor; eauto.
  - intros (? & dn & rest & msgs & -> & ? & -> & ?). split; [done|].
    exists (call :: dn), rest, (tool_result call text :: msgs).
    rewrite <- app_assoc. repeat split; auto. constructor; eauto.
Qed.

Lemma mid_turn_weaken calls calls' l :
  calls' ⊆ calls → mid_turn calls l → mid_turn calls' l.
Proof.
  intros Hsub (? & ? & t & rest & ? & Hin). split; [done|]. split; [done|].
  exists t, rest. split; [done|]. intros c Hc. apply Hin, Hsub, Hc.
Qed.

Lemma run_calls_lawful calls stop made tr w l r tr' w' l' :
  lrun_calls (offered l) calls stop made (tr, (w, l)) = (r, (tr', (w', l'))) →
  mid_turn calls l → made = attempts l → stop_ok stop l →
  mid_turn [] l' ∧ same_turns l l' ∧ calls_end calls tr l' r tr'.
Proof.
  revert stop made tr w l. induction calls as [|call calls IH];
    intros stop made tr w l Hrun Hmid -> Hstop; simpl in Hrun.
  { injection Hrun as <- <- <- <-. split; [done|]. split; [done|].
    split; [done|]. split; [exists []; rewrite app_nil_r; by repeat constructor|done]. }
  set (stop' := match stop with
                | None => if max_tool_calls config <=? attempts l then Some ToolCallCapReached else None
                | Some r0 => Some r0 end) in Hrun.
  assert (Hs : stop_ok stop' l ∧ (stop' = None → attempts l < max_tool_calls config)).
  { unfold stop'. destruct stop as [[]|]; try done.
    destruct (Z.leb_spec (max_tool_calls config) (attempts l)); by repeat split; auto. }
  clearbody stop'. destruct Hs as (Hs1 & Hs2). destruct stop' as [reason|].
  - set (label := not_executed_label reason) in Hrun.
    set (l1 := Emitted (ToolResultEvent (tc_name call) label true) :: l) in Hrun.
    change (offered l) with (offered l1) in Hrun.
    eapply (mid_turn_weaken _ calls) in Hmid; [|set_solver].
    eapply IH in Hrun; [|by destruct Hmid as (? & ? & ?); repeat split|done..].
    destruct Hrun as (? & ? & Hr). split; [done|]. split; [done|]. by eapply calls_end_cons.
  - destruct (lattempt (offered l) call (tr, (w, l))) as [ra [tra [wa la]]] eqn:Ha.
    destruct (attempt_lawful _ _ _ _ _ _ _ _ _ Ha Hmid Hs1 (Hs2 eq_refl))
      as (Hmida & (Ht & Hsp & Han & Hof) & Hat & Htr). destruct ra as [u|e].
    + rewrite <- Hat, <- Hof in Hrun. eapply IH in Hrun; [|try done..]; [|by simpl; rewrite Hsp].
      destruct Hrun as (? & (? & ? & ? & ?) & Hr). split; [done|].
      split; [unfold same_turns; repeat split; congruence|]. destruct Htr as [text ->].
      by eapply calls_end_cons.
    + injection Hrun as <- <- <- <-.
      split; [by eapply mid_turn_weaken; [|done]; set_solver|]. split; [done|].
      destruct Htr as [-> Hr]. split; [done|].
      exists [], (call :: calls), []. rewrite app_nil_r. repeat split; auto. constructor.
Qed.

(** The messages of finished turns: what the model said, then one result per call. *)
Definition turn_block (t : ModelTurn Json) (msgs : list (CanonicalMessage Json)) : Prop :=
  ∃ results, msgs = assistant t :: results ∧ answering (tool_calls t) results.

(** [tr] is [tr0] followed by the blocks of the turns [ts], newest first. *)
Definition exchanged tr0 (ts : list (ModelTurn Json)) tr : Prop :=
  ∃ blocks, tr = tr0 ++ concat blocks ∧ Forall2 turn_block (reverse ts) blocks.

(** [tr] ends inside a turn, some of whose calls have no result. *)
Definition aborted tr0 (ts : list (ModelTurn Json)) tr : Prop :=
  ∃ t older tr1 answered rest msgs,
    ts = t :: older ∧ exchanged tr0 older tr1
    ∧ tool_calls t = answered ++ rest ∧ rest ≠ []
    ∧ tr = tr1 ++ assistant t :: msgs ∧ answering answered msgs.

Definition reports (o : AgentOutcome) l : Prop :=
  match o with
  | Done text steps made =>
      steps = turns l ∧ made = attempts l ∧ over_budget config (spent l) = false
      ∧ ∃ t older, answers l = t :: older ∧ tool_calls t = [] ∧ text = turn_text t
  | Stopped reason steps made =>
      steps = turns l ∧ made = attempts l
      ∧ match reason with
        | StepCapReached => steps = Z.max (max_steps config) 1
        | ToolCallCapReached => max_tool_calls config ≤ made
        | BudgetExceeded => over_budget config (spent l) = true
        end
  end.

Definition run_end tr0 l (r : result AgentOutcome AgentError) tr : Prop :=
  match r with
  | Ok o => exchanged tr0 (answers l) tr ∧ reports o l
  | Err e => exchanged tr0 (answers l) tr ∨ (aborted tr0 (answers l) tr ∧ raised e)
  end.

Lemma exchanged_snoc tr0 t ts tr msgs :
  exchanged tr0 ts tr → answering (tool_calls t) msgs →
  exchanged tr0 (t :: ts) (tr ++ assistant t :: msgs).
Proof.
  intros (blocks & -> & Hb) Hm. exists (blocks ++ [assistant t :: msgs]).
  rewrite concat_app, reverse_cons, app_assoc. simpl. rewrite app_nil_r. split; [done|].
  apply Forall2_app; [done|]. repeat constructor. by exists msgs.
Qed.

#[local] Arguments run_calls : simpl never.

Lemma run_steps_lawful fuel effects defs step made tokens tr0 tr w l r tr' w' l' :
  lrun_steps effects defs fuel step made tokens (tr, (w, l)) = (r, (tr', (w', l'))) →
  effects = offered l → lawful config l → executions l ≤ attempts l →
  step = turns l + 1 → made = attempts l → tokens = spent l →
  over_budget config (spent l) = false → exchanged tr0 (answers l) tr →
  turns l + Z.of_nat fuel = Z.max (max_steps config) 1 →
  lawful config l' ∧ executions l' ≤ attempts l' ∧ run_end tr0 l' r tr'.
Proof.
  revert effects step made tokens tr w l. induction fuel as [|fuel IH];
    intros effects step made tokens tr w l Hrun -> Hlaw Hex -> -> -> Hov Hexch Hfuel; simpl in Hrun.
  { injection Hrun as <- <- <- <-. repeat split; try done; lia. }
  unfold logged in Hrun. simpl in Hrun.
  destruct (complete model tr defs w) as [[turn|e] w1] eqn:Hc; simpl in Hrun; last first.
  { injection Hrun as <- <- <- <-. repeat split; try done; [lia|]. by left. }
  set (l1 := Turned (Ok turn) :: l) in Hrun.
  assert (∃ w2 l2, (if is_empty (turn_text turn) then (w1, l1)
      else (emit events (AssistantText (turn_text turn)) w1,
            Emitted (AssistantText (turn_text turn)) :: l1)) = (w2, l2)
      ∧ same_turns l1 l2 ∧ lawful config l2 ∧ executions l2 = executions l
      ∧ attempts l2 = attempts l) as (w2 & l2 & Hw & Hsame & Hlaw2 & Hex2 & Hat2).
  { destruct (is_empty _); eexists _, _; (split; [done|]); unfold same_turns; simpl;
      repeat split; try done; lia. }
  rewrite Hw in Hrun. destruct Hsame as (Ht & Hs & Ha & Ho). simpl in Ht, Hs, Ha, Ho.
  rewrite <- Hs, <- Hat2, <- Ho in Hrun. rewrite <- Hat2, <- Hex2 in Hex. clear Hw Hat2 Hex2.
  destruct (tool_calls turn) as [|c cs] eqn:Hcalls.
  { injection Hrun as <- <- <- <-. split; [done|]. split; [done|]. split.
    - rewrite Ha. apply exchanged_snoc; [done|]. rewrite Hcalls. constructor.
    - destruct (over_budget config (spent l2)) eqn:?; simpl; repeat split; try done; try lia.
      by exists turn, (answers l). }
  destruct (lrun_calls _ _ _ _ _) as [rc [trc [wc lc]]] eqn:Hcr.
  apply run_calls_lawful in Hcr as (Hmid & (Ht3 & Hs3 & Ha3 & Ho3) & Hend);
    [|split; [done|]; split; [done|]; exists turn, (answers l); by rewrite Hcalls|done
     |by destruct (over_budget config (spent l2)) eqn:?].
  destruct Hmid as (Hlaw3 & Hex3 & _). destruct rc as [[stop made']|e].
  - destruct Hend as (-> & (msgs & -> & Hm) & Hstop). rewrite <- app_assoc in Hrun. simpl in Hrun.
    assert (Hnew : exchanged tr0 (answers lc) (tr ++ assistant turn :: msgs)).
    { rewrite Ha3, Ha. apply exchanged_snoc; [done|]. by rewrite Hcalls. }
    destruct stop as [reason|].
    + injection Hrun as <- <- <- <-. split; [done|]. split; [done|]. split; [done|].
      destruct reason; simpl in *; repeat split; try done; lia.
    + rewrite <- Hs3 in Hrun. eapply IH; [exact Hrun|..]; try done; try lia; congruence.
  - injection Hrun as <- <- <- <-. split; [done|]. split; [done|]. right.
    destruct Hend as (? & dn & rest & msgs & Hsplit & Hne & -> & Hm). split; [|done].
    exists turn, (answers l), tr, dn, rest, msgs. rewrite <- app_assoc, Ha3, Hcalls. by repeat split.
Qed.

(** The configuration's integers are unsigned. *)
Definition config_ok : Prop :=
  0 ≤ max_tool_calls config ∧ match token_budget config with Some b => 0 ≤ b | None => True end.

Lemma run_agent_lawful tr w r tr' w' l' :
  config_ok → lrun tr (w, []) = (r, (tr', (w', l'))) →
  lawful config l' ∧ executions l' ≤ attempts l' ∧ run_end tr l' r tr'.
Proof.
  intros [_ Hb] Hrun. unfold run_agent in Hrun. simpl in Hrun. unfold logged in Hrun. simpl in Hrun.
  assert (Hnil : exchanged tr [] tr) by (exists []; by rewrite app_nil_r).
  destruct (available_tools dispatch w) as [[tools|e] w1]; simpl in Hrun.
  - eapply (run_steps_lawful _ _ _ _ _ _ tr) in Hrun; try done; [|simpl; lia].
    unfold over_budget. destruct (token_budget config); [|done]. apply Z.ltb_ge. simpl. lia.
  - injection Hrun as <- <- <- <-. split; [done|]. split; [done|]. by left.
Qed.
End TraceLemmas.

Section Lawful.
Context {Json : Type} (config : AgentRunConfig).
Implicit Types (l : list (Entry Json)).

Lemma lawful_split l post e pre :
  lawful config l → l = post ++ e :: pre → admissible config e pre.
Proof.
  intros Hl ->. induction post as [|x post IH]; simpl in Hl; [apply Hl|]. apply IH, Hl.
Qed.

Lemma lawful_bounds l :
  config_ok config → lawful config l →
  turns l ≤ Z.max (max_steps config) 1 ∧ attempts l ≤ max_tool_calls config.
Proof.
  intros [Hc _]. induction l as [|e l IH]; simpl; [lia|]. intros [Ha Hl]. specialize (IH Hl).
  destruct e as [| | | |[]]; simpl in *; lia.
Qed.
End Lawful.

(** ** A run to look at: a gated tool, a free tool and a failing one *)

Definition call (id name : string) : AgentToolCall :=
  {| tc_id := id; tc_name := name; tc_arguments := "{}" |}.

Definition says (parts : list (ContentPart unit)) (calls : list AgentToolCall) (usage : Z)
  : ModelTurn unit :=
  {| assistant := {| role := Assistant; content := parts |}; tool_calls := calls;
     usage_tokens := usage |}.

Definition demo_tools : list (AgentTool unit) :=
  [{| definition := {| ct_name := "send"; ct_description := None; ct_parameters := ();
                       ct_strict := None |}; side_effects := true |};
   {| definition := {| ct_name := "read"; ct_description := None; ct_parameters := ();
                       ct_strict := None |}; side_effects := false |}].

(** The world counts the model turns taken. *)
Definition demo_model (script : list (ModelTurn unit)) : AgentModel unit nat :=
  {| complete _ _ w := (from_option Ok (Err (Model "script ended")) (script !! w), S w) |}.

Definition demo_dispatch : AgentToolDispatch unit nat :=
  {| approval_preview _ a := a;
     available_tools w := (Ok demo_tools, w);
     call_tool n _ w :=
       (if bool_decide (n = "down") then Err (Dispatch "unreachable")
        else Ok {| to_content := "ok"; is_error := false |}, w) |}.

Definition demo_approval : ApprovalGate nat :=
  {| authorize c w := (if bool_decide (tc_id c = "2") then Rejected "no" else Approved, w) |}.

Definition demo_config : AgentRunConfig :=
  {| max_steps := 4; max_tool_calls := 3; token_budget := Some 100 |}.

Definition demo_script : list (ModelTurn unit) :=
  [says [Text "working"] [call "1" "send"; call "2" "send"; call "3" "read"] 40;
   says [Text "done"] [] 40].

Definition demo_run (script : list (ModelTurn unit)) :=
  run_agent (logged_model (demo_model script)) (logged_dispatch demo_dispatch)
    (logged_approval demo_approval) (logged_sink NullEventSink) demo_config [] (0%nat, []).

Definition demo_log : list (Entry unit) := (demo_run demo_script).2.2.2.

Lemma demo_config_ok : config_ok demo_config.
Proof. split; simpl; lia. Qed.

(** A dispatch failure ends the run with calls of the last turn unanswered. *)
Example dispatch_error_leaves_calls_open :
  let t := says [] [call "1" "read"; call "4" "down"; call "3" "read"] 1 in
  let '(r, (tr, _)) := demo_run [t] in
  r = Err (Dispatch "unreachable") ∧ tr = [assistant t; tool_result (call "1" "read") "ok"].
Proof. vm_compute. split; reflexivity. Qed.

(** ** The theorems *)

(** The loop is bounded whatever its seams do: a run asks the model at most
    [max 1 max_steps] times, announces at most [max_tool_calls] tool calls and
    executes no more than it announces; the outcome reports exactly the turns
    taken and the calls announced, with a stop reason that holds. *)
Theorem agent_is_bounded {Json W} (model : AgentModel Json W) dispatch approval events config
    tr (w : W) r tr' w' l :
  config_ok config →
  run_agent (logged_model model) (logged_dispatch dispatch) (logged_approval approval)
    (logged_sink events) config tr (w, []) = (r, (tr', (w', l))) →
  turns l ≤ Z.max (max_steps config) 1
  ∧ executions l ≤ attempts l ≤ max_tool_calls config
  ∧ ∀ o, r = Ok o → reports config o l.
Proof.
  intros Hc Hrun. destruct (run_agent_lawful _ _ _ _ _ _ _ _ _ _ _ Hc Hrun) as (Hl & He & Hend).
  destruct (lawful_bounds _ _ Hc Hl). repeat split; try done. intros o ->. apply Hend.
Qed.

Lemma agent_is_bounded_witness :
  turns demo_log ≤ 4 ∧ executions demo_log ≤ attempts demo_log ≤ 3
  ∧ ∀ o, Ok (Done "done" 2 3) = Ok (E := AgentError) o → reports demo_config o demo_log.
Proof.
  apply (agent_is_bounded (demo_model demo_script) demo_dispatch demo_approval NullEventSink
           demo_config [] 0%nat (Ok (Done "done" 2 3)) (demo_run demo_script).2.1 2%nat);
    [apply demo_config_ok|vm_compute; reflexivity].
Defined.

(** C13. No side effect without approval: whenever the loop executes a tool that
    is marked side-effecting, or that was not offered at all, the very last thing
    it did was to ask the approval gate about that tool with those arguments, and
    the gate approved; and the executed call is one the model's latest turn asked
    for. *)
Theorem side_effects_are_approved {Json W} (model : AgentModel Json W) dispatch approval events
    config tr (w : W) r tr' w' l post name args outcome pre :
  config_ok config →
  run_agent (logged_model model) (logged_dispatch dispatch) (logged_approval approval)
    (logged_sink events) config tr (w, []) = (r, (tr', (w', l))) →
  l = post ++ Called name args outcome :: pre →
  (offered pre !! name ≠ Some false →
   ∃ id pre', pre = Asked {| tc_id := id; tc_name := name; tc_arguments := args |} Approved :: pre')
  ∧ ∃ t id older, answers pre = t :: older
      ∧ {| tc_id := id; tc_name := name; tc_arguments := args |} ∈ tool_calls t.
Proof.
  intros Hc Hrun Hsplit. destruct (run_agent_lawful _ _ _ _ _ _ _ _ _ _ _ Hc Hrun) as (Hl & _ & _).
  destruct (lawful_split _ _ _ _ _ Hl Hsplit) as (_ & Hasked & Hg & _). split; [|done].
  intros Hn. apply Hg. unfold gated. destruct (offered pre !! name) as [[]|]; done.
Qed.

Lemma side_effects_are_approved_witness :
  (offered (drop 12 demo_log) !! "send" ≠ Some false →
   ∃ id pre', drop 12 demo_log = Asked {| tc_id := id; tc_name := "send"; tc_arguments := "{}" |}
                                   Approved :: pre')
  ∧ ∃ t id older, answers (drop 12 demo_log) = t :: older
      ∧ {| tc_id := id; tc_name := "send"; tc_arguments := "{}" |} ∈ tool_calls t.
Proof.
  apply (side_effects_are_approved (demo_model demo_script) demo_dispatch demo_approval NullEventSink
           demo_config [] 0%nat (Ok (Done "done" 2 3)) (demo_run demo_script).2.1 2%nat demo_log
           (take 11 demo_log) "send" "{}" (Ok {| to_content := "ok"; is_error := false |}));
    [apply demo_config_ok|vm_compute; reflexivity|vm_compute; reflexivity].
Defined.

(** The token budget is hard: once the (saturating) sum of the usage the
    model reported exceeds it, the loop takes no further turn, asks for no
    approval and executes no tool, and the run does not report [Done]. *)
Theorem token_budget_is_hard {Json W} (model : AgentModel Json W) dispatch approval events config
    tr (w : W) r tr' w' l :
  config_ok config →
  run_agent (logged_model model) (logged_dispatch dispatch) (logged_approval approval)
    (logged_sink events) config tr (w, []) = (r, (tr', (w', l))) →
  (∀ post e pre, l = post ++ e :: pre → over_budget config (spent pre) = true →
     match e with Turned _ | Asked _ _ | Called _ _ _ => False | _ => True end)
  ∧ (∀ text steps made, r = Ok (Done text steps made) → over_budget config (spent l) = false).
Proof.
  intros Hc Hrun. destruct (run_agent_lawful _ _ _ _ _ _ _ _ _ _ _ Hc Hrun) as (Hl & _ & Hend).
  split.
  - intros post e pre Hs Hov. pose proof (lawful_split _ _ _ _ _ Hl Hs) as Ha.
    destruct e; simpl in Ha; try done; naive_solver congruence.
  - intros text steps made ->. apply Hend.
Qed.

Lemma token_budget_is_hard_witness :
  let t := says [Text "hm"] [call "1" "read"] 101 in
  let l := (demo_run [t]).2.2.2 in
  (∀ post e pre, l = post ++ e :: pre → over_budget demo_config (spent pre) = true →
     match e with Turned _ | Asked _ _ | Called _ _ _ => False | _ => True end)
  ∧ (∀ text steps made, Ok (Stopped BudgetExceeded 1 0) = Ok (E := AgentError) (Done text steps made) →
       over_budget demo_config (spent l) = false).
Proof.
  intros t l.
  apply (token_budget_is_hard (demo_model [t]) demo_dispatch demo_approval NullEventSink
           demo_config [] 0%nat (Ok (Stopped BudgetExceeded 1 0)) (demo_run [t]).2.1 1%nat);
    [apply demo_config_ok|vm_compute; reflexivity].
Defined.

(** The transcript stays well formed: a run that returns an outcome extends
    it, turn by turn, with the model's message followed by one tool result per
    requested call, in order and under the call's id. A run that fails has either
    done the same or stopped inside its last turn, the answered calls being a
    proper prefix of those requested; the latter happens only when the dispatch
    seam itself returned the error. *)
Theorem transcript_is_answered {Json W} (model : AgentModel Json W) dispatch approval events config
    tr (w : W) r tr' w' l :
  config_ok config →
  run_agent (logged_model model) (logged_dispatch dispatch) (logged_approval approval)
    (logged_sink events) config tr (w, []) = (r, (tr', (w', l))) →
  match r with
  | Ok _ => exchanged tr (answers l) tr'
  | Err e => exchanged tr (answers l) tr' ∨ (aborted tr (answers l) tr' ∧ raised dispatch e)
  end.
Proof.
  intros Hc Hrun. destruct (run_agent_lawful _ _ _ _ _ _ _ _ _ _ _ Hc Hrun) as (_ & _ & Hend).
  destruct r; [apply Hend|done].
Qed.

Lemma transcript_is_answered_witness :
  exchanged [] (answers demo_log) (demo_run demo_script).2.1.
Proof.
  apply (transcript_is_answered (demo_model demo_script) demo_dispatch demo_approval NullEventSink
           demo_config [] 0%nat (Ok (Done "done" 2 3)) (demo_run demo_script).2.1 2%nat);
    [apply demo_config_ok|vm_compute; reflexivity].
Defined.

End Agent.
