(* ===== verification/AgentRuntime.v ===== *)
(** * The agent's production seams

    Model of crates/waygate-agent-runtime: the resolution of an agent's allowlist
    into model-facing tools and their governed dispatch ([UpstreamAgentDispatch]),
    the narrowing of the human's principal ([effective_principal]) and the in-chat
    approval rendezvous ([ChatApprovalRegistry], [ChatApprovalGate]).

    The tool catalogue, the read built-ins and the invocation pipeline are the
    seams the crate is given: a lookup of admitted snapshots, a table of built-ins
    and two state-passing calls. JSON parsing and printing are parameters. *)

From Stdlib Require Import Ascii.
From stdpp Require Import pretty.
From S2P Require Import Prelude RustStr Json Facts Agent.

Module AgentRuntime.
Import Facts.Facts Agent Json.

(** [str::split_once('.')] *)
Fixpoint split_dot (l : bytes) : option (bytes * bytes) :=
  match l with
  | [] => None
  | a :: l' => if bool_decide (a = "."%char) then Some ([], l')
               else match split_dot l' with
                    | Some (x, y) => Some (a :: x, y)
                    | None => None
                    end
  end.

Definition split_once_dot (s : string) : option (string * string) :=
  match split_dot (as_bytes s) with
  | Some (x, y) => Some (of_bytes x, of_bytes y)
  | None => None
  end.

(** ** Model-facing names *)

Definition MAX_TOOL_NAME_LEN : nat := 64.

Definition name_char (a : Ascii.ascii) : bool :=
  is_ascii_alphanumeric a || bool_decide (a = "_"%char) || bool_decide (a = "-"%char).

(** [chars().map(..)]: one character of the result per character of the source;
    the bytes that continue a multi-byte character add nothing. *)
Definition encode_name (l : bytes) : bytes :=
  (λ a, if name_char a then a else "_"%char) <$> filter (λ a, is_continuation a = false) l.

(** [for i in 1..]: the first free candidate, searched for [fuel] steps. *)
Fixpoint free_name (base : string) (taken : gset string) (fuel : nat) (i : N) : option string :=
  match fuel with
  | O => None
  | S fuel' =>
      let cand := base +:+ "_" +:+ pretty i in
      if bool_decide (cand ∈ taken) then free_name base taken fuel' (i + 1) else Some cand
  end.

(** One more step than there are taken names is enough, see [sanitize_total]. *)
Definition sanitize_tool_name (fq : string) (taken : gset string)
  : option (string * gset string) :=
  let s := take MAX_TOOL_NAME_LEN (encode_name (as_bytes fq)) in
  let s := match s with [] => ["_"%char] | _ => s end in
  let name :=
    if bool_decide (of_bytes s ∈ taken)
    then free_name (of_bytes (take (MAX_TOOL_NAME_LEN - 4) s)) taken (S (size taken)) 1
    else Some (of_bytes s) in
  match name with
  | Some n => Some (n, {[n]} ∪ taken)
  | None => None
  end.

(** ** Narrowing the principal *)

Section Narrow.
Context {J : Type}.

Definition LLM_SERVER : string := "llm".

Definition restricts (r : ApiKeyProfileRestrictions) : bool :=
  bool_decide (is_Some (populated (allowed_servers r)))
  || bool_decide (is_Some (populated (allowed_tools r))).

(** [Vec::dedup]: drops consecutive repetitions. *)
Fixpoint dedup (l : list string) : list string :=
  match l with
  | x :: l' => match l' with
               | y :: _ => if bool_decide (x = y) then dedup l' else x :: dedup l'
               | [] => [x]
               end
  | [] => []
  end.

(** The agent's operational surface: its allowlist and its own model. *)
Definition agent_servers (allowed : list string) : list string :=
  dedup (merge_sort str_le (omap (λ fq, fst <$> split_once_dot fq) allowed ++ [LLM_SERVER])).

Definition agent_surface (id name : string) (allowed : list string) (model_alias : string)
  : ApiKeyProfileRestrictions :=
  {| profile_id := id; profile_name := name;
     allowed_servers := Some (agent_servers allowed);
     allowed_tools := Some (allowed ++ [LLM_SERVER +:+ "." +:+ model_alias]) |}.

Definition narrow_restrictions (existing : option ApiKeyProfileRestrictions)
    (allowed : list string) (model_alias : string) : option ApiKeyProfileRestrictions :=
  match existing with
  | Some r => if restricts r then Some r
              else Some (agent_surface (profile_id r) (profile_name r) allowed model_alias)
  | None => Some (agent_surface "gateway-agent" "agent-allowlist" allowed model_alias)
  end.

Definition effective_principal (human : Principal J) (allowed : list string) (model_alias : string)
  : Principal J :=
  {| sub := sub human; email := email human; groups := groups human; issuer := issuer human;
     scopes := scopes human; tenant := tenant human; auth_method := auth_method human;
     raw_token := raw_token human; scim := scim human;
     enrichment_blocked := enrichment_blocked human; roles := roles human;
     api_key_profile_restrictions :=
       narrow_restrictions (api_key_profile_restrictions human) allowed model_alias |}.
End Narrow.

(** ** Resolving the allowlist *)

Section Dispatch.
Context {J W Contract : Type}.

Record AssistReadTool := {
  art_name : string;
  art_description : string;
  art_input_schema : list (string * Value);
  art_side_effects : bool;
}.

(** What [resolve] reads of an admitted [InvocationToolSnapshot]: the published
    definition; the behaviour claims, present when both annotations and metadata
    are and [Some None] when they do not parse; the facts and the identity. *)
Record Snapshot := {
  published_definition : option (option string * list (string * Value));
  input_claim : option (option bool);
  snap_side_effects : bool;
  contract_identity : Contract;
}.

Record ResolvedTool := {
  sensitive_input : bool;
  model_name : string;
  rt_server : string;
  rt_tool : string;
  rt_side_effects : bool;
  expected_contract : option Contract;
  rt_definition : CanonicalTool Value;
  builtin : bool;
}.

Definition builtin_index (tools : list AssistReadTool) : gmap string AssistReadTool :=
  foldl (λ m t, <[art_name t := t]> m) ∅ tools.

Section Resolve.
Context (builtins : gmap string AssistReadTool).
(** [pool.resolve_invocation_tool] when it is [Ready]. *)
Context (snapshot_of : string → string → option Snapshot).

(** The tool an allowlist entry stands for, before it is given a name. *)
Definition candidate (server tool : string) (fq : string) : option (string → ResolvedTool) :=
  if starts_with "gateway-" server
  then match builtins !! fq with
       | Some rt => Some (λ name,
           {| sensitive_input := false; model_name := name; rt_server := server; rt_tool := tool;
              rt_side_effects := art_side_effects rt; expected_contract := None;
              rt_definition :=
                {| ct_name := name;
                   ct_description := if is_empty (art_description rt) then None
                                     else Some (art_description rt);
                   ct_parameters := Object (art_input_schema rt); ct_strict := None |};
              builtin := true |})
       | None => None
       end
  else match snapshot_of server tool with
       | Some snap =>
           match published_definition snap with
           | Some (description, schema) => Some (λ name,
               {| sensitive_input := match input_claim snap with
                                     | None => false
                                     | Some None => true
                                     | Some (Some b) => b
                                     end;
                  model_name := name; rt_server := server; rt_tool := tool;
                  rt_side_effects := snap_side_effects snap;
                  expected_contract := Some (contract_identity snap);
                  rt_definition := {| ct_name := name; ct_description := description;
                                      ct_parameters := Object schema; ct_strict := None |};
                  builtin := false |})
           | None => None
           end
       | None => None
       end.

Fixpoint resolve (allowed : list string) (taken : gset string) : option (list ResolvedTool) :=
  match allowed with
  | [] => Some []
  | fq :: allowed' =>
      match split_once_dot fq with
      | None => resolve allowed' taken
      | Some (server, tool) =>
          match candidate server tool fq with
          | None => resolve allowed' taken
          | Some build =>
              match sanitize_tool_name fq taken with
              | None => None
              | Some (name, taken') =>
                  match resolve allowed' taken' with
                  | Some tools => Some (build name :: tools)
                  | None => None
                  end
              end
          end
      end
  end.
End Resolve.

(** ** Dispatching a call *)

Record InvocationRequest := {
  ir_server : string;
  ir_tool : string;
  ir_arguments : list (string * Value);
  ir_acting_agent : string;
  ir_expected_contract : option Contract;
}.

Inductive InvocationResponse :=
  | Unary (v : Value) | UnaryValue (v : Value)
  | Realtime | RealtimeCall | Media | Stream | InputRequired | Task.

Context (parse : string → result Value string) (print : Value → string).
(** The serialised result of the read built-ins' seam, absent when not wired. *)
Context (assist : option (string → list (string * Value) → Principal J → W → result Value string * W)).
Context (invoke : Principal J → InvocationRequest → W → result InvocationResponse string * W).
Context (principal : Principal J) (acting_agent : string) (tools : list ResolvedTool).

Definition lookup_tool (name : string) : option ResolvedTool :=
  find_first (λ t, bool_decide (model_name t = name)) tools.

Definition call_result_to_outcome (v : Value) : ToolOutcome :=
  let is_error := default false (get "isError" v ≫= as_bool) in
  let texts := omap (λ part,
    if bool_decide ((get "type" part ≫= as_str) = Some "text") then get "text" part ≫= as_str
    else None) (default [] (get "content" v ≫= as_array)) in
  let content :=
    match texts with
    | [] =>
        let structured := match get "structuredContent" v with
                          | Some s => if is_null s then None else Some s
                          | None => None
                          end in
        let chosen := match structured with Some s => Some s | None => get "content" v end in
        match chosen with Some c => print c | None => "(empty tool result)" end
    | _ => foldr (λ t acc, t +:+ acc) "" texts
    end in
  {| to_content := content; is_error := is_error |}.

Definition refusal (text : string) : ToolOutcome := {| to_content := text; is_error := true |}.

Definition parse_arguments (arguments : string) : result (list (string * Value)) ToolOutcome :=
  if is_empty (trim arguments) then Ok []
  else match parse arguments with
       | Ok (Object m) => Ok m
       | Ok _ => Err (refusal "tool arguments must be a JSON object")
       | Err e => Err (refusal ("invalid tool arguments JSON: " +:+ e))
       end.

Definition outcome_of_response (r : result InvocationResponse string) : ToolOutcome :=
  match r with
  | Ok (Unary v) => call_result_to_outcome v
  | Ok (UnaryValue v) => {| to_content := print v; is_error := false |}
  | Ok Realtime | Ok RealtimeCall | Ok Media | Ok Stream =>
      refusal "tool returned an unexpected streaming response"
  | Ok InputRequired | Ok Task =>
      refusal "tool paused for interactive input this agent cannot provide"
  | Err e => refusal ("tool call denied or failed: " +:+ e)
  end.

Definition upstream_call_tool (name arguments : string) (w : W)
  : result ToolOutcome AgentError * W :=
  match lookup_tool name with
  | None => (Ok (refusal ("tool `" +:+ name +:+ "` is not in this agent's allowlist")), w)
  | Some rt =>
      match parse_arguments arguments with
      | Err o => (Ok o, w)
      | Ok args =>
          if builtin rt
          then match assist with
               | None => (Ok (refusal "read built-in access is not configured on this gateway"), w)
               | Some call =>
                   let fq := rt_server rt +:+ "." +:+ rt_tool rt in
                   match call fq args principal w with
                   | (Ok v, w') => (Ok (call_result_to_outcome v), w')
                   | (Err e, w') => (Ok (refusal ("tool call denied or failed: " +:+ e)), w')
                   end
               end
          else
            let req := {| ir_server := rt_server rt; ir_tool := rt_tool rt; ir_arguments := args;
                          ir_acting_agent := acting_agent;
                          ir_expected_contract := expected_contract rt |} in
            let '(r, w') := invoke principal req w in (Ok (outcome_of_response r), w')
      end
  end.

Definition upstream_approval_preview (name arguments : string) : string :=
  match lookup_tool name with
  | None => "Tool is not available for dispatch."
  | Some t =>
      if sensitive_input t then
        let parsed := match parse arguments with Ok v => Some v | Err _ => None end in
        let declared := match get "properties" (ct_parameters (rt_definition t)) ≫= as_object with
                        | Some fields => fields.*1
                        | None => []
                        end in
        let fields := filter (λ k, is_Some (parsed ≫= get k)) declared in
        print (Object [("description", of_opt_str (ct_description (rt_definition t)));
                       ("affected_fields", Array (Str <$> fields));
                       ("input", Str "[REDACTED:SENSITIVE_INPUT]")])
      else arguments
  end.

Definition UpstreamAgentDispatch : AgentToolDispatch Value W :=
  {| approval_preview := upstream_approval_preview;
     available_tools w :=
       (Ok ((λ t, {| definition := rt_definition t; side_effects := rt_side_effects t |}) <$> tools), w);
     call_tool := upstream_call_tool |}.
End Dispatch.
Arguments Snapshot : clear implicits.
Arguments ResolvedTool : clear implicits.
Arguments InvocationRequest : clear implicits.

(** ** Lemmas on names *)

Section Names.

Lemma split_dot_Some l x y : split_dot l = Some (x, y) → l = x ++ "."%char :: y.
Proof.
  revert x. induction l as [|a l IH]; intros x; simpl; [done|]. case_bool_decide.
  - intros [= <- <-]. by subst.
  - destruct (split_dot l) as [[x' y']|]; [|done]. intros [= <- <-]. simpl. f_equal. by apply IH.
Qed.

Lemma split_once_dot_Some s x y : split_once_dot s = Some (x, y) → s = x +:+ "." +:+ y.
Proof.
  unfold split_once_dot. destruct (split_dot (as_bytes s)) as [[u v]|] eqn:He; [|done].
  intros [= <- <-]. apply split_dot_Some in He. apply as_bytes_inj.
  by rewrite !as_bytes_app, !as_of_bytes, He.
Qed.

(** The names the model providers accept. *)
Definition valid_name (n : string) : Prop := n ≠ "" ∧ Forall (λ a, name_char a = true) (as_bytes n).

Lemma pretty_N_go_chars x s :
  Forall (λ a, name_char a = true) (as_bytes s) →
  Forall (λ a, name_char a = true) (as_bytes (pretty_N_go x s)).
Proof.
  revert s. induction (N.lt_wf_0 x) as [x _ IH]; intros s Hs.
  destruct (decide (0 < x)%N) as [Hx|Hx].
  - rewrite pretty_N_go_step by done. apply IH; [by apply N.div_lt|].
    change (as_bytes (String (pretty_N_char (x `mod` 10)) s))
      with (pretty_N_char (x `mod` 10) :: as_bytes s).
    constructor; [|done]. unfold pretty_N_char. by repeat case_match.
  - by replace x with 0%N by lia.
Qed.

Lemma pretty_chars (x : N) : Forall (λ a, name_char a = true) (as_bytes (pretty x)).
Proof.
  unfold pretty, pretty_N. case_decide; [by repeat constructor|]. by apply pretty_N_go_chars.
Qed.

Lemma pretty_short (x : N) : (x < 1000)%N → (length (as_bytes (pretty x)) ≤ 3)%nat.
Proof.
  intros Hx.
  assert (Hall : forallb (λ k, Nat.leb (length (as_bytes (pretty (N.of_nat k)))) 3) (seq 0 1000) = true)
    by (vm_compute; reflexivity).
  rewrite forallb_forall in Hall. rewrite <- (N2Nat.id x). apply Nat.leb_le, Hall, in_seq. lia.
Qed.

Lemma encode_name_chars l : Forall (λ a, name_char a = true) (encode_name l).
Proof.
  unfold encode_name. apply Forall_fmap, Forall_forall. intros a _. simpl.
  destruct (name_char a) eqn:?; done.
Qed.

Definition cand (base : string) (i : N) : string := base +:+ "_" +:+ pretty i.

Lemma free_name_Some base taken fuel i n :
  free_name base taken fuel i = Some n →
  n ∉ taken ∧ ∃ j, (i ≤ j < i + N.of_nat fuel)%N ∧ n = cand base j.
Proof.
  revert i. induction fuel as [|fuel IH]; intros i; simpl; [done|]. case_bool_decide as Hin.
  - intros (Hn & j & Hj & ->)%IH. split; [done|]. exists j. split; [lia|done].
  - intros [= <-]. split; [done|]. exists i. split; [lia|done].
Qed.

Lemma free_name_None base taken fuel i :
  free_name base taken fuel i = None →
  ∀ k, (k < fuel)%nat → cand base (i + N.of_nat k) ∈ taken.
Proof.
  revert i. induction fuel as [|fuel IH]; intros i; simpl; [lia|]. case_bool_decide as Hin; [|done].
  intros H [|k] Hk.
  - by replace (i + N.of_nat 0)%N with i by lia.
  - replace (i + N.of_nat (S k))%N with (i + 1 + N.of_nat k)%N by lia. apply IH; [done|lia].
Qed.

Lemma cand_inj base i j : cand base i = cand base j → i = j.
Proof.
  unfold cand. intros H. apply (f_equal as_bytes) in H. rewrite !as_bytes_app in H.
  apply app_inv_head in H. apply app_inv_head in H. by apply as_bytes_inj, (inj pretty) in H.
Qed.

(** More candidates than taken names: one of them is free. *)
Lemma free_name_total base taken i : is_Some (free_name base taken (S (size taken)) i).
Proof.
  destruct (free_name base taken (S (size taken)) i) eqn:He; [done|exfalso].
  pose proof (free_name_None _ _ _ _ He) as Hin.
  set (l := (λ k, cand base (i + N.of_nat k)) <$> seq 0 (S (size taken))).
  assert (Hnd : NoDup l).
  { apply (NoDup_fmap_2_strong _); [|apply NoDup_seq]. intros x y _ _ Heq%cand_inj. lia. }
  assert (Hsub : l ⊆ elements taken).
  { intros n (k & -> & Hk%elem_of_seq)%list_elem_of_fmap. apply elem_of_elements, Hin. lia. }
  apply (NoDup_submseteq _ _ Hnd) in Hsub. apply submseteq_length in Hsub.
  unfold l in Hsub. rewrite length_fmap, length_seq in Hsub. unfold size, set_size in Hsub. simpl in Hsub. lia.
Qed.

Lemma cand_valid base i :
  Forall (λ a, name_char a = true) (as_bytes base) → valid_name (cand base i).
Proof.
  intros Hb. unfold cand. split.
  - intros H. apply (f_equal as_bytes) in H. rewrite !as_bytes_app in H.
    by destruct (as_bytes base).
  - rewrite !as_bytes_app. apply Forall_app. split; [done|]. apply Forall_app.
    split; [by repeat constructor|apply pretty_chars].
Qed.

Lemma cand_length base i :
  (length (as_bytes base) ≤ 60)%nat → (i < 1000)%N → (length (as_bytes (cand base i)) ≤ 64)%nat.
Proof.
  intros Hb Hi%pretty_short. unfold cand. rewrite !as_bytes_app, !length_app. simpl in *. lia.
Qed.

Lemma sanitize_total fq taken :
  ∃ n, sanitize_tool_name fq taken = Some (n, {[n]} ∪ taken) ∧ n ∉ taken ∧ valid_name n
       ∧ ((size taken < 999)%nat → (length (as_bytes n) ≤ MAX_TOOL_NAME_LEN)%nat).
Proof.
  unfold sanitize_tool_name, MAX_TOOL_NAME_LEN.
  set (s0 := take 64 (encode_name (as_bytes fq))).
  set (s := match s0 with [] => ["_"%char] | _ => s0 end).
  assert (Hc0 : Forall (λ a, name_char a = true) s0) by apply Forall_take, encode_name_chars.
  assert (Hlen0 : (length s0 ≤ 64)%nat) by (unfold s0; rewrite length_take; lia).
  assert (Hc : Forall (λ a, name_char a = true) s)
    by (unfold s; destruct s0; [by repeat constructor|done]).
  assert (Hlen : (length s ≤ 64)%nat) by (unfold s; destruct s0; simpl in *; lia).
  assert (Hne : s ≠ []) by (unfold s; by destruct s0).
  clearbody s. clear s0 Hc0 Hlen0. case_bool_decide as Hin.
  - set (base := of_bytes (take (64 - 4) s)).
    assert (Hb : as_bytes base = take 60 s) by (unfold base; by rewrite as_of_bytes).
    destruct (free_name_total base taken 1) as [n Hn].
    destruct (free_name_Some _ _ _ _ _ Hn) as (Hfree & j & Hj & ->).
    exists (cand base j). rewrite Hn. split; [done|]. split; [done|]. split.
    + apply cand_valid. rewrite Hb. by apply Forall_take.
    + intros Hsz. apply cand_length; [rewrite Hb, length_take; lia|lia].
  - exists (of_bytes s). split; [done|]. split; [done|]. split; [split|].
    + intros H. apply (f_equal as_bytes) in H. by rewrite as_of_bytes in H.
    + by rewrite as_of_bytes.
    + by rewrite as_of_bytes.
Qed.
End Names.

(** ** Lemmas on resolution *)

Section ResolveLemmas.
Context {Contract : Type}.
Context (builtins : gmap string AssistReadTool).
Context (snapshot_of : string → string → option (Snapshot Contract)).
Implicit Types (t : ResolvedTool Contract).

(** What stands behind a resolved tool's side-effect fact. *)
Definition vouched t : Prop :=
  if builtin t
  then ∃ b, builtins !! (rt_server t +:+ "." +:+ rt_tool t) = Some b
            ∧ rt_side_effects t = art_side_effects b
  else ∃ snap, snapshot_of (rt_server t) (rt_tool t) = Some snap
            ∧ rt_side_effects t = snap_side_effects snap
            ∧ expected_contract t = Some (contract_identity snap).

Lemma candidate_vouched server tool fq build name :
  split_once_dot fq = Some (server, tool) →
  candidate builtins snapshot_of server tool fq = Some build →
  vouched (build name) ∧ model_name (build name) = name
  ∧ ct_name (rt_definition (build name)) = name
  ∧ fq = rt_server (build name) +:+ "." +:+ rt_tool (build name).
Proof.
  intros Hs%split_once_dot_Some. unfold candidate, vouched. destruct (starts_with _ _).
  - destruct (builtins !! fq) as [b|] eqn:Hb; [|done]. intros [= <-]. simpl.
    repeat split; try done. exists b. by rewrite <- Hs.
  - destruct (snapshot_of server tool) as [snap|] eqn:Hsn; [|done].
    destruct (published_definition snap) as [[d sc]|]; [|done]. intros [= <-]. simpl.
    repeat split; try done. by exists snap.
Qed.

Definition well_resolved (allowed : list string) t : Prop :=
  vouched t ∧ valid_name (model_name t) ∧ ct_name (rt_definition t) = model_name t
  ∧ rt_server t +:+ "." +:+ rt_tool t ∈ allowed.

Lemma resolve_total allowed taken :
  ∃ tools, resolve builtins snapshot_of allowed taken = Some tools
    ∧ NoDup (model_name <$> tools) ∧ Forall (well_resolved allowed) tools
    ∧ Forall (λ t, model_name t ∉ taken) tools
    ∧ ((size taken + length allowed < 1000)%nat →
       Forall (λ t, (length (as_bytes (model_name t)) ≤ MAX_TOOL_NAME_LEN)%nat) tools).
Proof.
  revert taken. induction allowed as [|fq allowed IH]; intros taken; simpl.
  { exists []. repeat split; constructor. }
  assert (Hskip : ∀ tools, Forall (well_resolved allowed) tools →
                           Forall (well_resolved (fq :: allowed)) tools).
  { intros tools Hw. eapply Forall_impl; [exact Hw|]. intros t (? & ? & ? & ?).
    split; [done|]. split; [done|]. split; [done|]. by apply list_elem_of_further. }
  destruct (split_once_dot fq) as [[server tool]|] eqn:Hs; last first.
  { destruct (IH taken) as (tools & ? & ? & ? & ? & Hl). exists tools.
    repeat split; auto. intros ?; apply Hl; lia. }
  destruct (candidate builtins snapshot_of server tool fq) as [build|] eqn:Hcand; last first.
  { destruct (IH taken) as (tools & ? & ? & ? & ? & Hl). exists tools.
    repeat split; auto. intros ?; apply Hl; lia. }
  destruct (sanitize_total fq taken) as (n & -> & Hfree & Hv & Hlen).
  destruct (IH ({[n]} ∪ taken)) as (tools & -> & Hnd & Hw & Hnt & Hl).
  destruct (candidate_vouched _ _ _ _ n Hs Hcand) as (Hvo & Hn & Hct & Hfq).
  exists (build n :: tools). split; [done|]. split; [|split; [|split]].
  - rewrite fmap_cons, Hn. constructor; [|done]. intros (t & -> & Ht)%list_elem_of_fmap.
    rewrite Forall_forall in Hnt. apply (Hnt t Ht). set_solver.
  - constructor; [|by apply Hskip]. split; [done|]. split; [by rewrite Hn|].
    split; [by rewrite Hn, Hct|]. rewrite <- Hfq. apply list_elem_of_here.
  - constructor; [by rewrite Hn|]. eapply Forall_impl; [exact Hnt|]. set_solver.
  - intros Hsz. constructor; [rewrite Hn; apply Hlen; lia|]. apply Hl.
    rewrite size_union by set_solver. rewrite size_singleton. lia.
Qed.
End ResolveLemmas.

(** ** Lemmas on dispatch *)

(** The later of two insertions wins; with distinct names every fact survives. *)
Lemma side_effects_foldl (tools : list (AgentTool Value)) (m : gmap string bool) name :
  NoDup ((λ t, ct_name (definition t)) <$> tools) →
  foldl (λ m t, <[ct_name (definition t) := side_effects t]> m) m tools !! name
  = match find_first (λ t, bool_decide (ct_name (definition t) = name)) tools with
    | Some t => Some (side_effects t)
    | None => m !! name
    end.
Proof.
  revert m. induction tools as [|t tools IH]; intros m; simpl; [done|].
  intros [Hn Hnd]%NoDup_cons. rewrite IH by done. case_bool_decide as He.
  - subst name. destruct (find_first _ tools) as [t'|] eqn:Hf; [|by rewrite lookup_insert_eq].
    apply find_first_Some in Hf as [Hin Hb]. apply bool_decide_eq_true in Hb.
    destruct Hn. apply list_elem_of_fmap. by exists t'.
  - destruct (find_first _ tools); [done|]. by rewrite lookup_insert_ne.
Qed.

Section DispatchLemmas.
Context {J W Contract : Type}.
Context (parse : string → result Value string) (print : Value → string).
Context (assist : option (string → list (string * Value) → Principal J → W → result Value string * W)).
Context (invoke : Principal J → InvocationRequest Contract → W → result InvocationResponse string * W).
Context (principal : Principal J) (acting_agent : string) (tools : list (ResolvedTool Contract)).

Abbreviation dispatch :=
  (UpstreamAgentDispatch parse print assist invoke principal acting_agent tools).

(** The tools as the loop sees them. *)
Definition offering : list (AgentTool Value) :=
  (λ t, {| definition := rt_definition t; side_effects := rt_side_effects t |}) <$> tools.

(** One governed call and nothing else. *)
Definition governed (t : ResolvedTool Contract) (w w' : W) : Prop :=
  ∃ args,
    if builtin t
    then ∃ call r, assist = Some call
                   ∧ call (rt_server t +:+ "." +:+ rt_tool t) args principal w = (r, w')
    else ∃ r, invoke principal
           {| ir_server := rt_server t; ir_tool := rt_tool t; ir_arguments := args;
              ir_acting_agent := acting_agent; ir_expected_contract := expected_contract t |} w
         = (r, w').

Lemma call_tool_Ok name args w : ∃ o, (upstream_call_tool parse print assist invoke principal
    acting_agent tools name args w).1 = Ok o.
Proof.
  unfold upstream_call_tool. destruct (lookup_tool tools name) as [t|]; [|by eexists].
  destruct (parse_arguments parse args); [|by eexists]. destruct (builtin t).
  - destruct assist as [call|]; [|by eexists]. destruct (call _ _ _ _) as [[] ?]; by eexists.
  - destruct (invoke _ _ _). by eexists.
Qed.

Lemma call_tool_governed name args w t :
  lookup_tool tools name = Some t →
  let w' := (upstream_call_tool parse print assist invoke principal acting_agent tools
               name args w).2 in
  w' = w ∨ governed t w w'.
Proof.
  intros Hl. unfold upstream_call_tool, governed. rewrite Hl.
  destruct (parse_arguments parse args) as [m|]; [|by left]. destruct (builtin t).
  - destruct assist as [call|]; [|by left]. right. exists m, call.
    destruct (call _ _ _ _) as [[v|e] w'] eqn:Hc; by eexists.
  - right. exists m. destruct (invoke _ _ _) as [r w'] eqn:Hi. by eexists.
Qed.

Lemma gated_lookup name :
  NoDup (model_name <$> tools) →
  Forall (λ t, ct_name (rt_definition t) = model_name t) tools →
  gated (side_effects_of offering) name
  = match lookup_tool tools name with Some t => rt_side_effects t | None => true end.
Proof.
  intros Hnd Hct. unfold gated, side_effects_of, offering, lookup_tool.
  assert (Heq : (λ t, ct_name (definition t)) <$> ((λ t : ResolvedTool Contract,
      {| definition := rt_definition t; side_effects := rt_side_effects t |}) <$> tools)
    = model_name <$> tools).
  { rewrite <- list_fmap_compose. apply list_fmap_ext. intros i t Ht. simpl.
    rewrite Forall_forall in Hct. apply Hct. by apply list_elem_of_lookup_2 in Ht. }
  rewrite side_effects_foldl by (by rewrite Heq). clear Heq Hnd.
  induction Hct as [|t l Ht Hct IH]; simpl; [by rewrite lookup_empty|].
  rewrite Ht. case_bool_decide; [done|exact IH].
Qed.
End DispatchLemmas.

(** ** Lemmas on narrowing *)

Section NarrowLemmas.
Context {J : Type}.

Lemma elem_of_dedup x l : x ∈ dedup l ↔ x ∈ l.
Proof.
  induction l as [|y l IH]; [done|]. simpl. destruct l as [|z l]; [done|].
  case_bool_decide as He; [subst; rewrite IH; set_solver|]. rewrite !elem_of_cons, IH.
  by rewrite elem_of_cons.
Qed.

Lemma elem_of_agent_servers server allowed :
  server ∈ agent_servers allowed ↔
  server = LLM_SERVER ∨ ∃ fq tool, fq ∈ allowed ∧ split_once_dot fq = Some (server, tool).
Proof.
  unfold agent_servers. rewrite elem_of_dedup, merge_sort_Permutation, elem_of_app.
  rewrite list_elem_of_omap, list_elem_of_singleton. split; [|intros [->|(fq & t & ? & He)]].
  - intros [(fq & Hin & He)| ->]; [|by left]. right. apply fmap_Some in He as ([x t] & Hs & ->). eauto.
  - by right.
  - left. exists fq. by rewrite He.
Qed.

Lemma existsb_eq (x : string) l : existsb (λ c, bool_decide (c = x)) l = true ↔ x ∈ l.
Proof.
  rewrite existsb_exists. split.
  - intros (y & Hin & He%bool_decide_eq_true). subst. by apply list_elem_of_In.
  - intros Hin. exists x. split; [by apply list_elem_of_In|by apply bool_decide_eq_true].
Qed.

Definition unrestricted (p : Principal J) : Prop :=
  match api_key_profile_restrictions p with None => True | Some r => restricts r = false end.

Lemma restricted_kept (human : Principal J) allowed model_alias :
  ¬ unrestricted human → effective_principal human allowed model_alias = human.
Proof.
  unfold unrestricted. destruct human as [? ? ? ? ? ? ? ? ? ? ? r]; simpl.
  unfold effective_principal; simpl. destruct r as [r|]; simpl; [|naive_solver].
  by destruct (restricts r).
Qed.

Lemma unrestricted_blocks_nothing (human : Principal J) server tool :
  unrestricted human →
  profile_blocks_server human server = false ∧ profile_blocks_tool human server tool = false
  ∧ profile_blocks_resources human server = false.
Proof.
  unfold unrestricted, restricts, profile_blocks_resources, profile_blocks_server, profile_blocks_tool.
  destruct (api_key_profile_restrictions human) as [r|]; [|done]. simpl.
  intros [H1 H2]%orb_false_iff. apply bool_decide_eq_false in H1, H2.
  destruct (allowed_servers r) as [[|]|], (allowed_tools r) as [[|]|]; simpl in *;
    try done; exfalso; first [by apply H1; eexists|by apply H2; eexists].
Qed.

Lemma unrestricted_surface (human : Principal J) allowed model_alias :
  unrestricted human →
  ∃ id name, api_key_profile_restrictions (effective_principal human allowed model_alias)
             = Some (agent_surface id name allowed model_alias).
Proof.
  unfold unrestricted. simpl. destruct (api_key_profile_restrictions human) as [r|]; simpl.
  - intros ->. by eexists _, _.
  - intros _. by eexists _, _.
Qed.

Lemma surface_tool (p : Principal J) id name allowed model_alias server tool :
  api_key_profile_restrictions p = Some (agent_surface id name allowed model_alias) →
  profile_blocks_tool p server tool = false ↔
  server +:+ "." +:+ tool ∈ allowed ++ [LLM_SERVER +:+ "." +:+ model_alias].
Proof.
  intros Hp. unfold profile_blocks_tool. rewrite Hp. cbn [allowed_tools agent_surface].
  rewrite <- existsb_eq. destruct allowed; simpl; by rewrite negb_false_iff.
Qed.

Lemma populated_app (l : list string) x : populated (Some (l ++ [x])) = Some (l ++ [x]).
Proof. by destruct l. Qed.

Lemma surface_server (p : Principal J) id name allowed model_alias server :
  api_key_profile_restrictions p = Some (agent_surface id name allowed model_alias) →
  profile_blocks_server p server = false ↔ server ∈ agent_servers allowed.
Proof.
  intros Hp. unfold profile_blocks_server. rewrite Hp.
  cbn [allowed_servers allowed_tools agent_surface]. rewrite populated_app.
  assert (Hne : populated (Some (agent_servers allowed)) = Some (agent_servers allowed)).
  { assert (LLM_SERVER ∈ agent_servers allowed) by (apply elem_of_agent_servers; by left).
    destruct (agent_servers allowed); [by apply not_elem_of_nil in H|done]. }
  rewrite Hne. destruct (existsb (λ c, bool_decide (c = server)) _) eqn:He; simpl.
  - apply existsb_eq in He. split; [done|]. intros _. apply negb_false_iff, existsb_exists.
    apply elem_of_agent_servers in He as [->|(fq & tool & Hin & Hs%split_once_dot_Some)].
    + exists (LLM_SERVER +:+ "." +:+ model_alias). split; [apply in_or_app; right; by left|].
      apply bool_decide_eq_true. exists model_alias. by apply strip_prefix_Some.
    + exists fq. split; [apply in_or_app; left; by apply list_elem_of_In|].
      apply bool_decide_eq_true. exists tool. apply strip_prefix_Some.
      apply as_bytes_inj. by rewrite Hs, !as_bytes_app, <- (assoc_L (++)).
  - split; [done|]. intros Hin%existsb_eq. congruence.
Qed.
End NarrowLemmas.

(** ** The theorems *)

(** An agent never exceeds its human: whatever server, tool or resource the
    human's profile blocks stays blocked for the agent's principal, whose
    identity, tenant, scopes, groups and roles are the human's. When the human is
    unrestricted, the agent may call exactly its allowlisted tools and its own
    model, reach exactly their servers, and read no native resource. *)
Theorem agent_principal_only_narrows {J} (human : Principal J) allowed model_alias :
  let agent := effective_principal human allowed model_alias in
  (∀ server tool,
     (profile_blocks_server human server = true → profile_blocks_server agent server = true)
     ∧ (profile_blocks_tool human server tool = true → profile_blocks_tool agent server tool = true)
     ∧ (profile_blocks_resources human server = true → profile_blocks_resources agent server = true))
  ∧ (sub agent, tenant agent, scopes agent, groups agent, roles agent, auth_method agent)
    = (sub human, tenant human, scopes human, groups human, roles human, auth_method human)
  ∧ (unrestricted human → ∀ server tool,
      (profile_blocks_tool agent server tool = false ↔
         server +:+ "." +:+ tool ∈ allowed ++ [LLM_SERVER +:+ "." +:+ model_alias])
      ∧ (profile_blocks_server agent server = false ↔
           server = LLM_SERVER ∨ ∃ fq t, fq ∈ allowed ∧ split_once_dot fq = Some (server, t))
      ∧ profile_blocks_resources agent server = true).
Proof.
  intros agent. split; [|split; [done|]].
  - intros server tool.
    assert (Hd : unrestricted human ∨ ¬ unrestricted human).
    { unfold unrestricted. destruct (api_key_profile_restrictions human) as [r|]; [|by left].
      destruct (restricts r); [by right|by left]. }
    destruct Hd as [Hu|Hu].
    + destruct (unrestricted_blocks_nothing human server tool Hu) as (-> & -> & ->). done.
    + unfold agent. by rewrite (restricted_kept _ allowed model_alias Hu).
  - intros Hu server tool. destruct (unrestricted_surface human allowed model_alias Hu)
      as (id & name & Hp). fold agent in Hp. split; [by eapply surface_tool|]. split.
    + rewrite surface_server by done. apply elem_of_agent_servers.
    + unfold profile_blocks_resources. destruct (profile_blocks_server agent server); [done|].
      rewrite Hp. simpl. by destruct allowed.
Qed.


(** What the operator approves is what runs. Resolving an allowlist always
    ends, and gives each offered tool a valid name (at most 64 bytes below a
    thousand entries) that no other offered tool has. The loop's side-effect table
    therefore gates a name by the fact of exactly the tool the dispatch will run:
    an allowlisted one, whose fact comes from the built-in or from the admitted
    snapshot whose contract is pinned into the call; a name that was not offered
    is gated, refused and changes nothing. A dispatched call never fails the run. *)
Theorem gate_and_dispatch_agree {J W Contract} parse print assist invoke (p : Principal J)
    acting_agent builtins (snapshot_of : string → string → option (Snapshot Contract)) allowed :
  ∃ tools, resolve builtins snapshot_of allowed ∅ = Some tools
  ∧ NoDup (model_name <$> tools) ∧ Forall (λ t, valid_name (model_name t)) tools
  ∧ ((length allowed < 1000)%nat →
     Forall (λ t, (length (as_bytes (model_name t)) ≤ MAX_TOOL_NAME_LEN)%nat) tools)
  ∧ ∀ name args (w : W),
    let d := UpstreamAgentDispatch parse print assist invoke p acting_agent tools in
    let '(r, w') := call_tool d name args w in
    (∃ o, r = Ok o)
    ∧ match lookup_tool tools name with
      | None => gated (side_effects_of (offering tools)) name = true ∧ w' = w
      | Some t =>
          gated (side_effects_of (offering tools)) name = rt_side_effects t
          ∧ rt_server t +:+ "." +:+ rt_tool t ∈ allowed ∧ vouched builtins snapshot_of t
          ∧ (w' = w ∨ governed assist invoke p acting_agent t w w')
      end.
Proof.
  destruct (resolve_total builtins snapshot_of allowed ∅) as (tools & Hr & Hnd & Hw & _ & Hl).
  exists tools. split; [done|]. split; [done|]. rewrite Forall_forall in Hw.
  split; [apply Forall_forall; intros t Ht; apply (Hw t Ht)|]. split; [exact Hl|].
  intros name args w d. destruct (call_tool d name args w) as [r w'] eqn:Hc.
  pose proof (call_tool_Ok parse print assist invoke p acting_agent tools name args w) as Hok.
  pose proof (call_tool_governed parse print assist invoke p acting_agent tools name args w) as Hg.
  change (upstream_call_tool parse print assist invoke p acting_agent tools name args w)
    with (call_tool d name args w) in Hok, Hg. rewrite Hc in Hok, Hg. split; [exact Hok|].
  rewrite gated_lookup by (try done; apply Forall_forall; intros t Ht; apply (Hw t Ht)).
  destruct (lookup_tool tools name) as [t|] eqn:Hlk.
  - destruct (find_first_Some _ _ _ Hlk) as [Hin _]. destruct (Hw t Hin) as (? & _ & _ & ?).
    repeat split; try done. by apply Hg.
  - split; [done|]. simpl in Hc. unfold upstream_call_tool in Hc. rewrite Hlk in Hc. congruence.
Qed.

(** In production no tool call is left unanswered: whatever the model, the
    approval gate, the catalogue and the pipeline do, a run over the resolved
    dispatch, failed runs included, extends the transcript by complete turns only,
    each requested call with its result. *)
Theorem production_transcript_is_answered {J W Contract} model parse print assist invoke
    (p : Principal J) acting_agent (tools : list (ResolvedTool Contract)) approval events config
    tr (w : W) r tr' w' l :
  config_ok config →
  run_agent (logged_model model)
    (logged_dispatch (UpstreamAgentDispatch parse print assist invoke p acting_agent tools))
    (logged_approval approval) (logged_sink events) config tr (w, []) = (r, (tr', (w', l))) →
  exchanged tr (answers l) tr'.
Proof.
  intros Hc Hrun. destruct (run_agent_lawful _ _ _ _ _ _ _ _ _ _ _ Hc Hrun) as (_ & _ & Hend).
  destruct r as [o|e]; [apply Hend|]. destruct Hend as [H|[_ (n & a & w0 & w1 & Hcall)]]; [done|].
  destruct (call_tool_Ok parse print assist invoke p acting_agent tools n a w0) as [o Ho].
  simpl in Hcall. by rewrite Hcall in Ho.
Qed.

Definition demo_human : Principal unit :=
  {| sub := "alice"; email := None; groups := []; issuer := "idp"; scopes := [];
     tenant := "acme"; auth_method := Oauth; raw_token := None; scim := None;
     enrichment_blocked := None; roles := []; api_key_profile_restrictions := None |}.

Definition demo_model : AgentModel Value unit :=
  {| complete tr _ w :=
       (match tr with
        | [] => Ok {| assistant := {| role := Assistant; content := [] |};
                      tool_calls := [{| tc_id := "1"; tc_name := "rm"; tc_arguments := "{}" |}];
                      usage_tokens := 5 |}
        | _ => Err (Model "rate limited")
        end, w) |}.

Lemma production_transcript_is_answered_witness :
  exchanged (Json := Value) [] [{| assistant := {| role := Assistant; content := [] |};
                   tool_calls := [{| tc_id := "1"; tc_name := "rm"; tc_arguments := "{}" |}];
                   usage_tokens := 5 |}]
    [{| role := Assistant; content := [] |};
     tool_result {| tc_id := "1"; tc_name := "rm"; tc_arguments := "{}" |}
       "tool `rm` is not in this agent's allowlist"].
Proof.
  apply (production_transcript_is_answered (J := unit) (Contract := unit) demo_model
    (λ _, Err "no parser") (λ _, "") None (λ _ _ w, (Err "no upstream", w)) demo_human
    "agent:demo" [] AllowAllApproval NullEventSink
    {| max_steps := 4; max_tool_calls := 3; token_budget := None |}
    [] () (Err (Model "rate limited")) _ ()
    [Turned (Err (Model "rate limited"));
     Emitted (ToolResultEvent "rm" "tool `rm` is not in this agent's allowlist" true);
     Called "rm" "{}" (Ok (refusal "tool `rm` is not in this agent's allowlist"));
     Asked {| tc_id := "1"; tc_name := "rm"; tc_arguments := "{}" |} Approved;
     Emitted (ApprovalRequested "1" "rm" "Tool is not available for dispatch.");
     Emitted (ToolCallEvent "rm" "Tool is not available for dispatch.");
     Turned (Ok {| assistant := {| role := Assistant; content := [] |};
                   tool_calls := [{| tc_id := "1"; tc_name := "rm"; tc_arguments := "{}" |}];
                   usage_tokens := 5 |});
     Listed (Ok [])]);
    [split; simpl; [lia|done]|vm_compute; reflexivity].
Defined.

End AgentRuntime.
