(* ===== verification/ChatApprovals.v ===== *)
(** * The in-chat approval rendezvous

    Model of crates/waygate-agent-runtime/src/chat_approvals.rs
    ([ChatApprovalRegistry]) and of [ChatApprovalGate] of agent_runtime.rs. The
    registry's mutex makes each method one atomic step; the one-shot channels of
    tokio are modelled with both of their ends, since dropping an end is how a
    cancelled or timed-out call is told. A gate's [authorize] is a task that parks,
    waits and returns, interleaved in any order with the operators' decisions and
    with the other gates. *)

From S2P Require Import Prelude RustStr Agent.

Module ChatApprovals.
Import Agent.

(** ** One-shot channels *)

Record Channel := { value : option ApprovalDecision; tx_live : bool; rx_live : bool }.

Definition drop_tx (ch : Channel) : Channel :=
  {| value := value ch; tx_live := false; rx_live := rx_live ch |}.
Definition drop_rx (ch : Channel) : Channel :=
  {| value := value ch; tx_live := tx_live ch; rx_live := false |}.

(** [Sender::send] consumes the sender; it fails when the receiver is gone. *)
Definition send (d : ApprovalDecision) (ch : Channel) : bool * Channel :=
  if rx_live ch then (true, {| value := Some d; tx_live := false; rx_live := true |})
  else (false, drop_tx ch).

(** Polling the receiver: [None] while it is pending, then the value, or an error
    when the sender was dropped without one. *)
Definition poll (ch : Channel) : option (result ApprovalDecision unit) :=
  match value ch with
  | Some d => Some (Ok d)
  | None => if tx_live ch then None else Some (Err ())
  end.

(** ** The registry *)

Abbreviation Key := (uuid * string)%type.

Record Pending := { tx : nat; p_tenant : string; p_user_sub : string }.

(** The slots and the channels behind them, numbered as they are created. *)
Record Registry := {
  slots : gmap (N * string) Pending;
  chans : gmap nat Channel;
  next : nat;
}.

Definition on_chan (f : Channel → Channel) (c : nat) (r : Registry) : Registry :=
  {| slots := slots r; chans := alter f c (chans r); next := next r |}.

(** Removing a slot drops the sender it holds. *)
Definition drop_slot (k : N * string) (r : Registry) : Registry :=
  match slots r !! k with
  | Some p => on_chan drop_tx (tx p) {| slots := delete k (slots r); chans := chans r; next := next r |}
  | None => r
  end.

Definition register (session : N) (call_id tenant user_sub : string) (r : Registry)
  : nat * Registry :=
  let r := drop_slot (session, call_id) r in
  let c := next r in
  (c, {| slots := <[(session, call_id) := {| tx := c; p_tenant := tenant; p_user_sub := user_sub |}]>
                    (slots r);
         chans := <[c := {| value := None; tx_live := true; rx_live := true |}]> (chans r);
         next := S c |}).

Definition cancel (session : N) (call_id : string) (r : Registry) : Registry :=
  drop_slot (session, call_id) r.

Definition resolve (session : N) (call_id tenant user_sub : string) (d : ApprovalDecision)
    (r : Registry) : bool * Registry :=
  let key := (session, call_id) in
  match slots r !! key with
  | Some p =>
      if bool_decide (p_tenant p = tenant) && bool_decide (p_user_sub p = user_sub)
      then match chans r !! tx p with
           | Some ch =>
               let '(ok, ch') := send d ch in
               (ok, {| slots := delete key (slots r); chans := <[tx p := ch']> (chans r);
                       next := next r |})
           | None => (false, r)
           end
      else (false, r)
  | None => (false, r)
  end.

(** ** The gate *)

Record ChatApprovalGate := { session_id : N; g_tenant : string; g_user_sub : string }.

Inductive Phase := Waiting | Expired | Answered (d : ApprovalDecision).

(** One call of [authorize]: the gate, the call's id, its receiver. *)
Record Task := { gate : ChatApprovalGate; call_id : string; rx : nat; phase : Phase }.

Definition with_phase (t : Task) (p : Phase) : Task :=
  {| gate := gate t; call_id := call_id t; rx := rx t; phase := p |}.

Record Sys := { reg : Registry; tasks : list Task }.

Inductive Event :=
  | Parked (i : nat) (g : ChatApprovalGate) (call : string)
  | Resolved (session : N) (call tenant user : string) (d : ApprovalDecision) (answer : bool)
  | TimedOut (i : nat)
  | Returned (i : nat) (d : ApprovalDecision).

(** The decision [authorize] makes of a receiver that is ready. *)
Definition gate_decision (r : result ApprovalDecision unit) : ApprovalDecision :=
  match r with Ok d => d | Err _ => Rejected "approval was cancelled" end.

Definition timed_out : ApprovalDecision := Rejected "approval timed out — no operator response".

Inductive step (s : Sys) : Event → Sys → Prop :=
  | step_park g call c r' :
      register (session_id g) call (g_tenant g) (g_user_sub g) (reg s) = (c, r') →
      step s (Parked (length (tasks s)) g call)
        {| reg := r';
           tasks := tasks s ++ [{| gate := g; call_id := call; rx := c; phase := Waiting |}] |}
  | step_resolve session call tenant user d b r' :
      resolve session call tenant user d (reg s) = (b, r') →
      step s (Resolved session call tenant user d b) {| reg := r'; tasks := tasks s |}
  | step_ready i t ch r :
      tasks s !! i = Some t → phase t = Waiting →
      chans (reg s) !! rx t = Some ch → poll ch = Some r →
      step s (Returned i (gate_decision r))
        {| reg := on_chan drop_rx (rx t) (reg s);
           tasks := <[i := with_phase t (Answered (gate_decision r))]> (tasks s) |}
  | step_timeout i t ch :
      tasks s !! i = Some t → phase t = Waiting →
      chans (reg s) !! rx t = Some ch → poll ch = None →
      step s (TimedOut i)
        {| reg := on_chan drop_rx (rx t) (reg s);
           tasks := <[i := with_phase t Expired]> (tasks s) |}
  | step_cancel i t :
      tasks s !! i = Some t → phase t = Expired →
      step s (Returned i timed_out)
        {| reg := cancel (session_id (gate t)) (call_id t) (reg s);
           tasks := <[i := with_phase t (Answered timed_out)]> (tasks s) |}.

Inductive run : Sys → list Event → Sys → Prop :=
  | run_nil s : run s [] s
  | run_snoc s tr s' e s'' : run s tr s' → step s' e s'' → run s (tr ++ [e]) s''.

Definition start : Sys := {| reg := {| slots := ∅; chans := ∅; next := 0 |}; tasks := [] |}.

(** ** The invariant of every run *)

(** Call [i] was parked, and its owner then decided it. *)
Definition decided (i : nat) (d : ApprovalDecision) (tr : list Event) : Prop :=
  ∃ a g call b c,
    tr = a ++ Parked i g call :: b
           ++ Resolved (session_id g) call (g_tenant g) (g_user_sub g) d true :: c.

Definition parked (i : nat) (t : Task) (tr : list Event) : Prop :=
  Parked i (gate t) (call_id t) ∈ tr.

Record coherent (tr : list Event) (s : Sys) : Prop := {
  co_parked i t : tasks s !! i = Some t → parked i t tr ∧ (rx t < next (reg s))%nat;
  co_inj i j t u : tasks s !! i = Some t → tasks s !! j = Some u → rx t = rx u → i = j;
  co_slot k p : slots (reg s) !! k = Some p →
    ∃ i t, tasks s !! i = Some t ∧ rx t = tx p ∧ k = (session_id (gate t), call_id t)
           ∧ p_tenant p = g_tenant (gate t) ∧ p_user_sub p = g_user_sub (gate t);
  co_value i t ch d : tasks s !! i = Some t → chans (reg s) !! rx t = Some ch →
    value ch = Some d → decided i d tr;
  co_chan i t : tasks s !! i = Some t → is_Some (chans (reg s) !! rx t);
  co_fresh c : (next (reg s) ≤ c)%nat → chans (reg s) !! c = None;
}.

Lemma decided_snoc i d tr e : decided i d tr → decided i d (tr ++ [e]).
Proof.
  intros (a & g & call & b & c & ->). exists a, g, call, b, (c ++ [e]).
  by rewrite <- (assoc_L (++)), <- app_comm_cons, <- (assoc_L (++)), <- app_comm_cons.
Qed.

Lemma parked_snoc i t tr e : parked i t tr → parked i t (tr ++ [e]).
Proof. unfold parked. rewrite elem_of_app. by left. Qed.

(** A step that changes no slot into a fresh one, no receiver and no value. *)
Lemma coherent_frame tr e s r' ts' :
  coherent tr s →
  (∀ i t', ts' !! i = Some t' → ∃ t, tasks s !! i = Some t ∧ gate t' = gate t
     ∧ call_id t' = call_id t ∧ rx t' = rx t) →
  (∀ i t, tasks s !! i = Some t → ∃ t', ts' !! i = Some t' ∧ gate t' = gate t
     ∧ call_id t' = call_id t ∧ rx t' = rx t) →
  next r' = next (reg s) →
  (∀ k p, slots r' !! k = Some p → slots (reg s) !! k = Some p) →
  (∀ c, value <$> chans r' !! c = value <$> chans (reg s) !! c) →
  coherent (tr ++ [e]) {| reg := r'; tasks := ts' |}.
Proof.
  intros [Hp Hi Hs Hv Hx Hf] Hback Hfwd Hn Hsl Hch. split; simpl.
  - intros i t' (t & Ht & Hg & Hc & Hr)%Hback. destruct (Hp i t Ht).
    rewrite Hn, Hr. split; [|done]. apply parked_snoc. unfold parked. by rewrite Hg, Hc.
  - intros i j t' u' (t & Ht & _ & _ & Hrt)%Hback (u & Hu & _ & _ & Hru)%Hback Heq.
    apply (Hi i j t u); congruence.
  - intros k p Hk%Hsl. destruct (Hs k p Hk) as (i & t & Ht & Hr & -> & Hte & Hu).
    destruct (Hfwd i t Ht) as (t' & Ht' & Hg & Hc & Hr').
    exists i, t'. rewrite Hg, Hc, Hr'. done.
  - intros i t' ch d (t & Ht & _ & _ & Hr)%Hback Hc Hval. apply decided_snoc.
    specialize (Hch (rx t')). rewrite Hc, Hr in Hch.
    destruct (chans (reg s) !! rx t) as [ch0|] eqn:Hc0; simplify_eq/=.
    eapply Hv; [exact Ht|exact Hc0|congruence].
  - intros i t' (t & Ht & _ & _ & Hr)%Hback. destruct (Hx i t Ht) as [ch Hc].
    specialize (Hch (rx t')). rewrite Hr, Hc in Hch. rewrite Hr.
    destruct (chans r' !! rx t); [by eexists|done].
  - intros c Hc. rewrite Hn in Hc. specialize (Hf c Hc). specialize (Hch c). rewrite Hf in Hch.
    by destruct (chans r' !! c).
Qed.

Lemma on_chan_value f c r c' :
  (∀ ch, value (f ch) = value ch) → value <$> chans (on_chan f c r) !! c' = value <$> chans r !! c'.
Proof.
  intros Hf. simpl. destruct (decide (c = c')) as [<-|Hne]; [|by rewrite lookup_alter_ne].
  rewrite lookup_alter_eq. destruct (chans r !! c); simpl; by rewrite ?Hf.
Qed.

Lemma drop_slot_spec k r :
  next (drop_slot k r) = next r ∧ slots (drop_slot k r) = delete k (slots r)
  ∧ ∀ c, value <$> chans (drop_slot k r) !! c = value <$> chans r !! c.
Proof.
  unfold drop_slot. destruct (slots r !! k) as [p|] eqn:Hk.
  - split; [done|]. split; [done|]. intros c. by rewrite on_chan_value.
  - repeat split. by rewrite delete_id.
Qed.

(** The tasks after one of them changed phase. *)
Lemma phase_back (ts : list Task) i t p j t' :
  ts !! i = Some t → <[i := with_phase t p]> ts !! j = Some t' →
  ∃ u, ts !! j = Some u ∧ gate t' = gate u ∧ call_id t' = call_id u ∧ rx t' = rx u.
Proof.
  intros Hi. destruct (decide (i = j)) as [<-|Hne].
  - rewrite list_lookup_insert_eq by (by eapply lookup_lt_Some). intros [= <-]. by exists t.
  - rewrite list_lookup_insert_ne by done. intros Hj. by exists t'.
Qed.

Lemma phase_fwd (ts : list Task) i t p j u :
  ts !! i = Some t → ts !! j = Some u →
  ∃ t', <[i := with_phase t p]> ts !! j = Some t'
        ∧ gate t' = gate u ∧ call_id t' = call_id u ∧ rx t' = rx u.
Proof.
  intros Hi Hj. destruct (decide (i = j)) as [<-|Hne].
  - rewrite list_lookup_insert_eq by (by eapply lookup_lt_Some). simplify_eq. by eexists.
  - rewrite list_lookup_insert_ne by done. by exists u.
Qed.

(** A new task with a new channel behind a new slot. *)
Lemma coherent_new tr s g call :
  coherent tr s → Parked (length (tasks s)) g call ∈ tr →
  coherent tr
    {| reg := {| slots := <[(session_id g, call) :=
                   {| tx := next (reg s); p_tenant := g_tenant g; p_user_sub := g_user_sub g |}]>
                     (slots (reg s));
                 chans := <[next (reg s) := {| value := None; tx_live := true; rx_live := true |}]>
                     (chans (reg s));
                 next := S (next (reg s)) |};
       tasks := tasks s ++ [{| gate := g; call_id := call; rx := next (reg s); phase := Waiting |}] |}.
Proof.
  intros [Hp Hi Hs Hv Hx Hf] Hpark.
  assert (Hcases : ∀ i t, (tasks s ++ [{| gate := g; call_id := call; rx := next (reg s);
      phase := Waiting |}]) !! i = Some t →
    tasks s !! i = Some t ∨ (i = length (tasks s)
      ∧ t = {| gate := g; call_id := call; rx := next (reg s); phase := Waiting |})).
  { intros i t [|(? & Hl)]%lookup_app_Some; [by left|]. right.
    apply list_lookup_singleton_Some in Hl as [? <-]. split; [lia|done]. }
  split; simpl.
  - intros i t [Ht|[-> ->]]%Hcases; [|simpl; split; [done|lia]].
    destruct (Hp i t Ht). split; [done|lia].
  - intros i j t u [Ht|[-> ->]]%Hcases [Hu|[-> ->]]%Hcases; simpl; intros Heq.
    + by apply (Hi i j t u).
    + destruct (Hp i t Ht). lia.
    + destruct (Hp j u Hu). lia.
    + done.
  - intros k p. destruct (decide (k = (session_id g, call))) as [->|Hne].
    + rewrite lookup_insert_eq. intros [= <-]. simpl.
      exists (length (tasks s)). eexists. rewrite list_lookup_middle by done. by repeat split.
    + rewrite lookup_insert_ne by done. intros (i & t & Ht & ?)%Hs. exists i, t.
      split; [|done]. by apply lookup_app_l_Some.
  - intros i t ch d [Ht|[-> ->]]%Hcases; simpl; last first.
    { rewrite lookup_insert_eq. by intros [= <-]. }
    destruct (Hp i t Ht). rewrite lookup_insert_ne by lia. eauto.
  - intros i t [Ht|[-> ->]]%Hcases; simpl; [|by rewrite lookup_insert_eq].
    destruct (Hp i t Ht). rewrite lookup_insert_ne by lia. eauto.
  - intros c Hc. rewrite lookup_insert_ne by lia. apply Hf. lia.
Qed.

Lemma coherent_resolve tr s session call tenant user d b r' :
  coherent tr s → resolve session call tenant user d (reg s) = (b, r') →
  coherent (tr ++ [Resolved session call tenant user d b]) {| reg := r'; tasks := tasks s |}.
Proof.
  intros Hco. pose proof Hco as [Hp Hi Hs Hv Hx Hf]. unfold resolve.
  assert (Hsame : ∀ e, coherent (tr ++ [e]) {| reg := reg s; tasks := tasks s |}).
  { intros e. apply (coherent_frame _ _ s); try done; eauto. }
  destruct (slots (reg s) !! (session, call)) as [p|] eqn:Hk; [|by intros [= <- <-]].
  destruct (bool_decide (p_tenant p = tenant) && bool_decide (p_user_sub p = user)) eqn:Hown;
    [|by intros [= <- <-]]. bool_to_prop. subst tenant user.
  destruct (chans (reg s) !! tx p) as [ch|] eqn:Hch; [|by intros [= <- <-]].
  unfold send. destruct (rx_live ch); intros [= <- <-].
  - destruct (Hs _ _ Hk) as (i & t & Ht & Hr & Hkey & Hte & Hu). injection Hkey as -> ->.
    split; simpl.
    + intros j u Hj. destruct (Hp j u Hj). split; [by apply parked_snoc|done].
    + exact Hi.
    + intros k q [_ Hq]%lookup_delete_Some. by apply Hs.
    + intros j u ch' d' Hj. destruct (decide (tx p = rx u)) as [Heq|Hne].
      * rewrite Heq, lookup_insert_eq. intros [= <-] [= <-].
        assert (j = i) as -> by (apply (Hi j i u t); congruence).
        destruct (Hp i t Ht) as [(a & c & ->)%list_elem_of_split _].
        exists a, (gate t), (call_id t), c, []. rewrite Hte, Hu.
        by rewrite <- (assoc_L (++)), <- app_comm_cons.
      * rewrite lookup_insert_ne by done. intros Hc Hval. apply decided_snoc. by eapply Hv.
    + intros j u Hj. destruct (decide (tx p = rx u)) as [->|Hne];
        [by rewrite lookup_insert_eq|rewrite lookup_insert_ne by done; eauto].
    + intros c Hc. rewrite lookup_insert_ne; [by apply Hf|]. intros <-. rewrite Hf in Hch; done.
  - apply (coherent_frame _ _ s); try done; eauto; simpl.
    + by intros k q [_ Hq]%lookup_delete_Some.
    + intros c. destruct (decide (tx p = c)) as [<-|Hne]; [|by rewrite lookup_insert_ne].
      by rewrite lookup_insert_eq, Hch.
Qed.

Lemma step_coherent tr s e s' :
  coherent tr s → step s e s' → coherent (tr ++ [e]) s'.
Proof.
  intros Hco Hstep. destruct Hstep as [g call c r' Hreg|session call tenant user d b r' Hres
    |i t ch r Ht Hph Hch Hpoll|i t ch Ht Hph Hch Hpoll|i t Ht Hph].
  - destruct (drop_slot_spec (session_id g, call) (reg s)) as (Hn & Hsl & Hch).
    unfold register in Hreg. injection Hreg as <- <-.
    apply (coherent_new _ {| reg := drop_slot (session_id g, call) (reg s); tasks := tasks s |}).
    + apply (coherent_frame _ _ s); try done; eauto. rewrite Hsl.
      by intros k p [_ ?]%lookup_delete_Some.
    + apply elem_of_app. right. by left.
  - by eapply coherent_resolve.
  - apply (coherent_frame _ _ s); try done; eauto using phase_back, phase_fwd.
    intros c. by rewrite on_chan_value.
  - apply (coherent_frame _ _ s); try done; eauto using phase_back, phase_fwd.
    intros c. by rewrite on_chan_value.
  - destruct (drop_slot_spec (session_id (gate t), call_id t) (reg s)) as (Hn & Hsl & Hch).
    apply (coherent_frame _ _ s); try done; eauto using phase_back, phase_fwd.
    unfold cancel. rewrite Hsl. by intros k p [_ ?]%lookup_delete_Some.
Qed.

(** ** One decision releases at most one call *)

Fixpoint total {A} (f : A → nat) (l : list A) : nat :=
  match l with [] => 0 | x :: l' => (f x + total f l')%nat end.

Lemma total_app {A} (f : A → nat) l k : total f (l ++ k) = (total f l + total f k)%nat.
Proof. induction l; simpl; lia. Qed.

Lemma total_insert {A} (f : A → nat) l i x y :
  l !! i = Some x → (total f (<[i := y]> l) + f x = total f l + f y)%nat.
Proof.
  revert i. induction l as [|z l IH]; intros [|i] H; simplify_eq/=; [lia|].
  specialize (IH i H). lia.
Qed.

(** Two weights that differ at the one element marked [m] only. *)
Lemma total_mark {A} (f g : A → nat) (m : A → bool) l :
  (∀ x, g x ≤ f x + (if m x then 1 else 0))%nat →
  (∀ i j x y, l !! i = Some x → l !! j = Some y → m x = true → m y = true → i = j) →
  (total g l ≤ total f l + 1)%nat.
Proof.
  intros Hfg. assert (Hno : ∀ k, Forall (λ x, m x = false) k → (total g k ≤ total f k)%nat).
  { induction 1 as [|x k Hx Hk IH]; simpl; [lia|]. specialize (Hfg x). rewrite Hx in Hfg. lia. }
  induction l as [|x l IH]; intros Huniq; simpl; [lia|]. pose proof (Hfg x) as Hx.
  destruct (m x) eqn:Hm.
  - assert (Forall (λ y, m y = false) l) as Hl%Hno; [|lia]. apply Forall_lookup. intros j y Hy.
    destruct (m y) eqn:Hmy; [|done]. by specialize (Huniq 0%nat (S j) x y eq_refl Hy Hm Hmy).
  - assert (total g l ≤ total f l + 1)%nat; [|lia]. apply IH. intros i j a b Ha Hb Hma Hmb.
    by specialize (Huniq (S i) (S j) a b Ha Hb Hma Hmb) as [= ->].
Qed.

Definition approval_event (e : Event) : nat :=
  match e with Resolved _ _ _ _ Approved true => 1 | _ => 0 end.
Definition release_event (e : Event) : nat :=
  match e with Returned _ Approved => 1 | _ => 0 end.

(** A waiting task whose channel holds an approval. *)
Definition holds (m : gmap nat Channel) (t : Task) : nat :=
  match phase t, m !! rx t ≫= value with Waiting, Some Approved => 1 | _, _ => 0 end.

Lemma holds_value m m' t :
  value <$> m !! rx t = value <$> m' !! rx t → holds m t = holds m' t.
Proof.
  intros Hv. unfold holds. assert (m !! rx t ≫= value = m' !! rx t ≫= value) as ->; [|done].
  destruct (m !! rx t), (m' !! rx t); simpl in *; congruence.
Qed.

Lemma total_holds m m' ts :
  (∀ c, value <$> m !! c = value <$> m' !! c) → total (holds m) ts = total (holds m') ts.
Proof. intros Hm. induction ts as [|t ts IH]; simpl; [done|]. by rewrite IH, (holds_value m m'). Qed.

Lemma resolve_holds tr s session call tenant user d b r' :
  coherent tr s → resolve session call tenant user d (reg s) = (b, r') →
  (total (holds (chans r')) (tasks s) ≤ total (holds (chans (reg s))) (tasks s)
     + approval_event (Resolved session call tenant user d b))%nat.
Proof.
  intros Hco. unfold resolve. destruct (slots (reg s) !! _) as [p|]; [|intros [= <- <-]; simpl; lia].
  destruct (_ && _); [|intros [= <- <-]; simpl; lia].
  destruct (chans (reg s) !! tx p) as [ch|] eqn:Hch; [|intros [= <- <-]; simpl; lia].
  unfold send. destruct (rx_live ch); intros [= <- <-]; cbn [chans].
  - set (m' := <[tx p := _]> (chans (reg s))). destruct d as [|reason]; simpl approval_event.
    + apply (total_mark _ _ (λ t, bool_decide (rx t = tx p))).
      * intros t. unfold m', holds. case_bool_decide as Ht; [destruct (phase t); repeat case_match; lia|].
        rewrite lookup_insert_ne by done. lia.
      * intros i j t u Ht Hu Hmt%bool_decide_eq_true Hmu%bool_decide_eq_true.
        eapply (co_inj _ _ Hco); eauto; congruence.
    + rewrite Nat.add_0_r. assert (Hle : ∀ t, (holds m' t ≤ holds (chans (reg s)) t)%nat).
      { intros t. unfold m', holds. destruct (decide (tx p = rx t)) as [->|Hne];
          [rewrite lookup_insert_eq; destruct (phase t); simpl; lia|by rewrite lookup_insert_ne]. }
      induction (tasks s) as [|t ts IH]; simpl; [lia|]. specialize (Hle t). lia.
  - rewrite (total_holds _ (chans (reg s))); [simpl; lia|]. intros c.
    destruct (decide (tx p = c)) as [<-|Hne]; [|by rewrite lookup_insert_ne].
    by rewrite lookup_insert_eq, Hch.
Qed.

Lemma step_releases tr s e s' :
  coherent tr s → step s e s' →
  (release_event e + total (holds (chans (reg s'))) (tasks s')
   ≤ approval_event e + total (holds (chans (reg s))) (tasks s))%nat.
Proof.
  intros Hco Hstep. destruct Hstep as [g call c r' Hreg|session call tenant user d b r' Hres
    |i t ch r Ht Hph Hch Hpoll|i t ch Ht Hph Hch Hpoll|i t Ht Hph]; simpl reg; simpl tasks.
  - destruct (drop_slot_spec (session_id g, call) (reg s)) as (Hn & _ & Hv).
    unfold register in Hreg. injection Hreg as <- <-. rewrite total_app. cbn [chans].
    assert (Hnew : ∀ t, rx t ≠ next (reg s) → ∀ x,
        holds (<[next (drop_slot (session_id g, call) (reg s)) := x]>
                 (chans (drop_slot (session_id g, call) (reg s)))) t = holds (chans (reg s)) t).
    { intros t Hne x. apply holds_value. rewrite Hn, lookup_insert_ne by done. apply Hv. }
    assert (Hts : ∀ x, total (holds (<[next (drop_slot (session_id g, call) (reg s)) := x]>
        (chans (drop_slot (session_id g, call) (reg s))))) (tasks s)
      = total (holds (chans (reg s))) (tasks s)).
    { intros x. assert (Hr : Forall (λ t, rx t ≠ next (reg s)) (tasks s)).
      { apply Forall_lookup. intros i t Hi. destruct (co_parked _ _ Hco i t Hi). lia. }
      induction Hr as [|t ts Hr Hrs IH]; simpl; [done|]. by rewrite IH, Hnew. }
    rewrite Hts. simpl. unfold holds. simpl. rewrite lookup_insert_eq. simpl. lia.
  - pose proof (resolve_holds _ _ _ _ _ _ _ _ _ Hco Hres). simpl release_event. lia.
  - rewrite (total_holds (chans (on_chan drop_rx (rx t) (reg s))) (chans (reg s)))
      by (intros; by apply on_chan_value).
    pose proof (total_insert (holds (chans (reg s))) _ _ _ (with_phase t (Answered (gate_decision r))) Ht) as Hi.
    unfold holds in Hi at 2 4. simpl in Hi. rewrite Hph, Hch in Hi. simpl in Hi.
    unfold poll in Hpoll. destruct (value ch) as [[]|]; [..|destruct (tx_live ch)]; simplify_eq/=; lia.
  - rewrite (total_holds (chans (on_chan drop_rx (rx t) (reg s))) (chans (reg s)))
      by (intros; by apply on_chan_value).
    pose proof (total_insert (holds (chans (reg s))) _ _ _ (with_phase t Expired) Ht) as Hi.
    unfold holds in Hi at 4. simpl in *. lia.
  - destruct (drop_slot_spec (session_id (gate t), call_id t) (reg s)) as (_ & _ & Hv).
    unfold cancel. rewrite (total_holds _ (chans (reg s))) by done.
    pose proof (total_insert (holds (chans (reg s))) _ _ _ (with_phase t (Answered timed_out)) Ht) as Hi.
    unfold holds in Hi at 4. simpl in *. lia.
Qed.

(** Every approval a task returned was decided before. *)
Definition justified (tr : list Event) : Prop :=
  ∀ pre i post, tr = pre ++ Returned i Approved :: post → decided i Approved pre.

Lemma start_coherent : coherent [] start.
Proof. split; simpl; intros; by rewrite ?lookup_nil, ?lookup_empty in *. Qed.

Lemma run_justified s tr s' :
  run s tr s' → s = start → coherent tr s' ∧ justified tr.
Proof.
  induction 1 as [s|s tr s' e s'' Hrun IH Hstep]; intros ->.
  { split; [apply start_coherent|]. intros pre i post H. by destruct pre. }
  destruct (IH eq_refl) as [Hco Hj]. split; [by eapply step_coherent|].
  intros pre i post Heq. destruct (list_eq_nil_dec post) as [->|Hne].
  - apply app_inj_tail in Heq as [-> ->]. inversion Hstep as [| |? t ch r Ht Hph Hch Hpoll| |]; subst.
    eapply (co_value _ _ Hco); [exact Ht|exact Hch|].
    unfold poll in Hpoll. destruct (value ch) as [d|]; [|by destruct (tx_live ch); simplify_eq].
    injection Hpoll as <-. simpl in *. congruence.
  - destruct (exists_last Hne) as (post' & x & ->).
    rewrite app_comm_cons, (assoc_L (++)) in Heq. apply app_inj_tail in Heq as [-> _]. by eapply Hj.
Qed.

Lemma run_releases s tr s' :
  run s tr s' → s = start →
  coherent tr s'
  ∧ (total release_event tr + total (holds (chans (reg s'))) (tasks s')
     ≤ total approval_event tr)%nat.
Proof.
  induction 1 as [s|s tr s' e s'' Hrun IH Hstep]; intros ->; [split; [apply start_coherent|done]|].
  destruct (IH eq_refl) as [Hco Hle]. split; [by eapply step_coherent|].
  pose proof (step_releases _ _ _ _ Hco Hstep). rewrite !total_app. simpl. lia.
Qed.

(** ** Two turns that reuse a call id, and one impostor *)

Definition alice (session : N) : ChatApprovalGate :=
  {| session_id := session; g_tenant := "acme"; g_user_sub := "alice" |}.

Definition demo_events : list Event :=
  [Parked 0 (alice 1) "c1"; Parked 1 (alice 2) "c1";
   Resolved 1 "c1" "acme" "mallory" Approved false;
   Resolved 2 "c1" "acme" "alice" Approved true;
   Returned 1 Approved; TimedOut 0; Returned 0 timed_out].

Lemma demo_reachable : ∃ s, run start demo_events s.
Proof.
  eexists. change demo_events with ((((((([] ++ [Parked 0 (alice 1) "c1"])
    ++ [Parked 1 (alice 2) "c1"]) ++ [Resolved 1 "c1" "acme" "mallory" Approved false])
    ++ [Resolved 2 "c1" "acme" "alice" Approved true]) ++ [Returned 1 (gate_decision (Ok Approved))])
    ++ [TimedOut 0]) ++ [Returned 0 timed_out]).
  eapply run_snoc; [eapply run_snoc; [eapply run_snoc; [eapply run_snoc;
    [eapply run_snoc; [eapply run_snoc; [eapply run_snoc; [apply run_nil|]|]|]|]|]|]|].
  - by apply (step_park start (alice 1) "c1").
  - refine (step_park _ (alice 2) "c1" _ _ _). reflexivity.
  - apply step_resolve. reflexivity.
  - apply step_resolve. reflexivity.
  - eapply step_ready; reflexivity.
  - eapply step_timeout; reflexivity.
  - eapply step_cancel; reflexivity.
Qed.

(** ** The theorems *)

(** Only the owner releases a call. In any interleaving of gates, decisions,
    cancellations and timeouts: when a gate's [authorize] returns [Approved], its
    call had been parked and then approved by a [resolve] for that session and
    call made as the very tenant and user the gate belongs to; the number of calls
    released never exceeds the number of successful approvals; and a [resolve] by
    anyone else, like one for an unknown call, answers [false] and changes nothing. *)
Theorem only_the_owner_releases tr s :
  run start tr s →
  (∀ pre i post, tr = pre ++ Returned i Approved :: post → decided i Approved pre)
  ∧ (total release_event tr ≤ total approval_event tr)%nat
  ∧ (∀ session call tenant user d,
       (∀ p, slots (reg s) !! (session, call) = Some p →
             p_tenant p ≠ tenant ∨ p_user_sub p ≠ user) →
       resolve session call tenant user d (reg s) = (false, reg s)).
Proof.
  intros Hrun. split; [by apply (run_justified _ _ _ Hrun)|]. split.
  - destruct (run_releases _ _ _ Hrun eq_refl). lia.
  - intros session call tenant user d Hno. unfold resolve.
    destruct (slots (reg s) !! (session, call)) as [p|] eqn:Hk; [|done].
    destruct (Hno p eq_refl) as [H|H]; [by rewrite (bool_decide_eq_false_2 _ H)|].
    by rewrite (bool_decide_eq_false_2 _ H), andb_false_r.
Qed.

Lemma only_the_owner_releases_witness :
  decided 1 Approved (take 4 demo_events)
  ∧ (total release_event demo_events ≤ total approval_event demo_events)%nat.
Proof.
  destruct demo_reachable as [s Hs]. destruct (only_the_owner_releases demo_events s Hs) as (H1 & H2 & _).
  split; [|exact H2]. apply (H1 _ 1%nat [TimedOut 0; Returned 0 timed_out]). reflexivity.
Defined.

(** No gate hangs: from every reachable state, every unfinished [authorize]
    returns within two steps of its own, whatever the operators do not do. *)
Theorem gate_never_hangs tr s i t :
  run start tr s → tasks s !! i = Some t →
  ∃ own s' t' d, run s own s' ∧ (length own ≤ 2)%nat
    ∧ tasks s' !! i = Some t' ∧ phase t' = Answered d.
Proof.
  intros Hrun Ht. destruct (run_justified _ _ _ Hrun eq_refl) as [Hco _].
  assert (Hset : ∀ u, <[i := u]> (tasks s) !! i = Some u)
    by (intros u; by eapply list_lookup_insert_eq, lookup_lt_Some).
  destruct (phase t) as [| |d] eqn:Hph.
  - destruct (co_chan _ _ Hco i t Ht) as [ch Hch]. destruct (poll ch) as [r|] eqn:Hp.
    + eexists ([] ++ [_]), _, _, (gate_decision r).
      split; [eapply run_snoc; [apply run_nil|by eapply step_ready]|]. split; [simpl; lia|].
      simpl. by rewrite Hset.
    + eexists (([] ++ [_]) ++ [_]), _, _, timed_out. split.
      { eapply run_snoc; [eapply run_snoc; [apply run_nil|by eapply step_timeout]|].
        eapply step_cancel; [apply Hset|done]. }
      split; [simpl; lia|]. simpl. rewrite list_insert_insert_eq. by rewrite Hset.
  - eexists ([] ++ [_]), _, _, timed_out.
    split; [eapply run_snoc; [apply run_nil|by eapply step_cancel]|]. split; [simpl; lia|].
    simpl. by rewrite Hset.
  - exists [], s, t, d. split; [apply run_nil|]. split; [simpl; lia|done].
Qed.

Lemma gate_never_hangs_witness :
  ∃ s t own s' t' d, run start [Parked 0 (alice 1) "c1"] s ∧ tasks s !! 0%nat = Some t
    ∧ run s own s' ∧ (length own ≤ 2)%nat ∧ tasks s' !! 0%nat = Some t' ∧ phase t' = Answered d.
Proof.
  eassert (run start ([] ++ [Parked 0 (alice 1) "c1"]) _) as Hrun
    by (eapply run_snoc; [apply run_nil|by apply (step_park start (alice 1) "c1")]).
  destruct (gate_never_hangs _ _ 0%nat
    {| gate := alice 1; call_id := "c1"; rx := 0; phase := Waiting |} Hrun eq_refl)
    as (own & s' & t' & d & H).
  eexists _, _, own, s', t', d. split; [exact Hrun|]. split; [reflexivity|exact H].
Defined.

End ChatApprovals.
