(* ===== verification/Cimd.v ===== *)
(** * Client metadata documents: redirect URI matching

    The pure part of [waygate-as/src/cimd.rs]: the shape of a client id, the
    validation of a fetched document and [match_redirect_uri] with its pattern
    parser and its glob matcher. URL parsing is the [url] crate's and a
    parameter; fetching, caching and the address guard are not modelled. *)

From S2P Require Import Prelude RustStr.
From Stdlib Require Import Ascii.

Module Cimd.

(** ** Characters of a string: a leading byte with its continuation bytes *)

Fixpoint chars (l : bytes) : list bytes :=
  match l with
  | [] => []
  | a :: l' =>
      match chars l' with
      | (b :: w) :: ws => if is_continuation b then (a :: b :: w) :: ws else [a] :: (b :: w) :: ws
      | ws => [a] :: ws
      end
  end.

(** ** [glob_match] *)

Definition star_char : bytes := ["*"%char].
Definition any_char : bytes := ["?"%char].

(** One row of the table: [prev] is [dp[i-1]], [left] is [dp[i][j-1]]. *)
Fixpoint dp_cells (c : bytes) (left : bool) (prev : list bool) (t : list bytes) : list bool :=
  match prev, t with
  | diag :: (up :: _) as prev', x :: t =>
      let cell := if bool_decide (c = star_char) then up || left
                  else if bool_decide (c = any_char) then diag
                  else bool_decide (c = x) && diag in
      cell :: dp_cells c cell prev' t
  | _, _ => []
  end.

Definition dp_row (c : bytes) (prev : list bool) (t : list bytes) : list bool :=
  let first := bool_decide (c = star_char) && default false (head prev) in
  first :: dp_cells c first prev t.

Fixpoint dp_rows (p : list bytes) (prev : list bool) (t : list bytes) : list bool :=
  match p with
  | [] => prev
  | c :: p => dp_rows p (dp_row c prev t) t
  end.

Definition glob_chars (p t : list bytes) : bool :=
  default false (last (dp_rows p (true :: replicate (length t) false) t)).

Definition glob_match (pattern target : string) : bool :=
  glob_chars (chars (as_bytes pattern)) (chars (as_bytes target)).

Definition fnmatch_path (path pattern : string) : bool :=
  let path := if is_empty path then "/" else path in
  let pattern := if is_empty pattern then "/" else pattern in
  if bool_decide (pattern = "/") then true else glob_match pattern path.

Definition path_has_dot_segments (path : string) : bool :=
  existsb (λ seg, let lower := to_ascii_lowercase seg in
             bool_decide (lower ∈ ["."; ".."; "%2e"; "%2e%2e"])) (split "/"%char path).

(** ** Patterns *)

Inductive PatternPort := DefaultPort | Wildcard | Explicit (p : Z).

Record PatternParts := {
  pat_scheme : string;
  pat_host : string;
  pat_port : PatternPort;
  pat_path : string;
  pat_query : option string;
}.

(** [str::split_once] with a string. *)
Fixpoint split_once_str (sep l : bytes) : option (bytes * bytes) :=
  match strip_prefix_bytes sep l with
  | Some rest => Some ([], rest)
  | None => match l with
            | [] => None
            | a :: l' => (λ '(x, y), (a :: x, y)) <$> split_once_str sep l'
            end
  end.

(** The part before the first byte of [p], and the rest from that byte on. *)
Fixpoint cut_at (p : ascii → bool) (l : bytes) : bytes * bytes :=
  match l with
  | [] => ([], [])
  | a :: l' => if p a then ([], l) else let '(x, y) := cut_at p l' in (a :: x, y)
  end.

(** [str::rsplit_once] *)
Fixpoint rsplit_once (c : ascii) (l : bytes) : option (bytes * bytes) :=
  match l with
  | [] => None
  | a :: l' =>
      match rsplit_once c l' with
      | Some (x, y) => Some (a :: x, y)
      | None => if bool_decide (a = c) then Some ([], l') else None
      end
  end.

(** [rsplit(c).next()] *)
Definition last_part (c : ascii) (l : bytes) : bytes :=
  match rsplit_once c l with Some (_, y) => y | None => l end.

Definition decimal (l : bytes) : Z :=
  foldl (λ a d, 10 * a + (Z.of_N (byte_val d) - 48)) 0 l.

(** [str::parse::<u16>]: digits with an optional plus sign, in range. *)
Definition parse_u16 (l : bytes) : option Z :=
  let ds := match l with a :: l' => if bool_decide (a = "+"%char) then l' else l | [] => [] end in
  match ds with
  | [] => None
  | _ => if forallb is_ascii_digit ds && (decimal ds <=? 65535) then Some (decimal ds) else None
  end.

Definition parse_pattern_port (l : bytes) : option PatternPort :=
  if bool_decide (l = ["*"%char]) then Some Wildcard else Explicit <$> parse_u16 l.

(** [to_ascii_lowercase] of a slice. *)
Definition lower (l : bytes) : string := of_bytes (to_ascii_lowercase_byte <$> l).

Definition parse_host_port (l : bytes) : option (string * PatternPort) :=
  match l with
  | a :: rest6 =>
      if bool_decide (a = "["%char) then
        '(host, after) ← split_once_bytes "]"%char rest6;
        match after with
        | b :: raw => if bool_decide (b = ":"%char) then port ← parse_pattern_port raw; Some (lower host, port)
                      else Some (lower host, DefaultPort)
        | [] => Some (lower host, DefaultPort)
        end
      else match rsplit_once ":"%char l with
           | Some ([], _) => None
           | Some (h, p) => port ← parse_pattern_port p; Some (lower h, port)
           | None => Some (lower l, DefaultPort)
           end
  | [] => Some ("", DefaultPort)
  end.

(** [PatternParts::parse] *)
Definition parse (pattern : string) : option PatternParts :=
  let l := as_bytes pattern in
  if bool_decide ("#"%char ∈ l) then None
  else
    '(scheme, rest) ← split_once_str (as_bytes "://") l;
    match scheme with
    | [] => None
    | _ =>
        let '(authority, path_and_query) := cut_at (λ a, bool_decide (a = "/"%char ∨ a = "?"%char)) rest in
        '(host, port) ← parse_host_port (last_part "@"%char authority);
        let '(path, query) := match split_once_bytes "?"%char path_and_query with
                              | Some (p, q) => (p, Some (of_bytes q))
                              | None => (path_and_query, None)
                              end in
        Some {| pat_scheme := lower scheme; pat_host := host; pat_port := port;
                pat_path := match path with [] => "/" | _ => of_bytes path end; pat_query := query |}
    end.

Definition default_port_for_scheme (scheme : string) : option Z :=
  if bool_decide (scheme = "https") then Some 443 else if bool_decide (scheme = "http") then Some 80 else None.

(** ** URIs *)

(** What [Url::parse] returns, by its accessors. *)
Record Url := {
  scheme : string;
  username : string;
  password : option string;
  host_str : option string;
  port_or_known_default : option Z;
  url_path : string;
  query : option string;
  fragment : option string;
}.

Section Matching.
Context (url_parse : string → option Url).

Definition is_loopback (host : string) : bool := bool_decide (host ∈ ["localhost"; "127.0.0.1"; "::1"]).

Definition port_ok (pat : PatternParts) (host : string) (u : Url) : bool :=
  match pat_port pat with
  | Wildcard => true
  | Explicit p => bool_decide (port_or_known_default u = Some p)
  | DefaultPort =>
      if is_loopback host then true
      else bool_decide (port_or_known_default u = default_port_for_scheme (pat_scheme pat))
  end.

Definition match_redirect_uri (uri pattern : string) : bool :=
  match parse pattern with
  | None => false
  | Some pat =>
      match url_parse uri with
      | None => false
      | Some u =>
          let host := to_ascii_lowercase (default "" (host_str u)) in
          is_empty (username u) && bool_decide (password u = None)
          && bool_decide (fragment u = None)
          && negb (path_has_dot_segments (url_path u))
          && bool_decide (to_ascii_lowercase (scheme u) = to_ascii_lowercase (pat_scheme pat))
          && bool_decide (host = pat_host pat)
          && port_ok pat host u
          && fnmatch_path (url_path u) (pat_path pat)
          && bool_decide (query u = pat_query pat)
      end
  end.

Definition is_cimd_client_id (client_id : string) : bool :=
  match url_parse client_id with
  | None => false
  | Some u => bool_decide (scheme u = "https") && bool_decide (is_Some (host_str u))
              && negb (bool_decide (url_path u ∈ [""; "/"]))
  end.

Record CimdDocument := {
  doc_client_id : string;
  client_name : option string;
  redirect_uris : list string;
  token_endpoint_auth_method : string;
  grant_types : list string;
  response_types : list string;
  doc_scope : option string;
  client_uri : option string;
  logo_uri : option string;
  tos_uri : option string;
  policy_uri : option string;
  software_id : option string;
  software_version : option string;
}.

Definition validate_redirect_uri (doc : CimdDocument) (uri : string) : bool :=
  existsb (match_redirect_uri uri) (redirect_uris doc).

End Matching.

Inductive CimdError :=
  | NoRedirectUris
  | UnsupportedAuthMethod (m : string)
  | ClientIdMismatchDoc (in_doc fetch_url : string)
  | OtherCimdError (text : string).

(** [str::trim_end_matches] with a character. *)
Fixpoint drop_leading (c : ascii) (l : bytes) : bytes :=
  match l with
  | [] => []
  | a :: l' => if bool_decide (a = c) then drop_leading c l' else l
  end.

Definition trim_end_matches (c : ascii) (s : string) : string :=
  of_bytes (rev (drop_leading c (rev (as_bytes s)))).

Definition validate_doc (doc : CimdDocument) (fetch_url : string) : result unit CimdError :=
  match redirect_uris doc with
  | [] => Err NoRedirectUris
  | _ =>
      if negb (bool_decide (token_endpoint_auth_method doc = "none"))
      then Err (UnsupportedAuthMethod (token_endpoint_auth_method doc))
      else if negb (bool_decide (trim_end_matches "/"%char (doc_client_id doc) = trim_end_matches "/"%char fetch_url))
      then Err (ClientIdMismatchDoc (doc_client_id doc) fetch_url)
      else Ok tt
  end.

(** ** What a glob means

    A target matches when it splits into one piece per pattern character: any
    piece for a star, one character for a question mark, the character itself
    otherwise. *)

Definition piece_ok (c : bytes) (s : list bytes) : Prop :=
  if bool_decide (c = star_char) then True
  else if bool_decide (c = any_char) then length s = 1%nat
  else s = [c].

Definition globs (p t : list bytes) : Prop := ∃ pieces, Forall2 piece_ok p pieces ∧ concat pieces = t.

Lemma globs_nil t : globs [] t ↔ t = [].
Proof.
  split; [intros (ps & Hp & <-); by inversion Hp|]. intros ->. by exists [].
Qed.

Lemma globs_snoc p c t : globs (p ++ [c]) t ↔ ∃ t1 s, t = t1 ++ s ∧ globs p t1 ∧ piece_ok c s.
Proof.
  split.
  - intros (ps & Hp & <-). apply Forall2_app_inv_l in Hp as (p1 & p2 & H1 & H2 & ->).
    apply Forall2_cons_inv_l in H2 as (s & l & Hs & Hl & ->). apply Forall2_nil_inv_l in Hl as ->.
    exists (concat p1), s. rewrite concat_app; cbn [concat]. rewrite app_nil_r. split_and!; [done|by exists p1|done].
  - intros (t1 & s & -> & (p1 & H1 & <-) & Hs). exists (p1 ++ [s]). split.
    + apply Forall2_app; [done|]. by constructor.
    + rewrite concat_app; cbn [concat]. by rewrite app_nil_r.
Qed.

(** The recurrence the table computes. *)
Lemma globs_cell p c t x :
  globs (p ++ [c]) (t ++ [x]) ↔
  if bool_decide (c = star_char) then globs p (t ++ [x]) ∨ globs (p ++ [c]) t
  else if bool_decide (c = any_char) then globs p t
  else c = x ∧ globs p t.
Proof.
  rewrite (globs_snoc p c (t ++ [x])). unfold piece_ok. split.
  - intros (t1 & s & Ht & Hp & Hs). destruct (bool_decide (c = star_char)) eqn:E1.
    + destruct s as [|y s _] using rev_ind; [left; rewrite app_nil_r in Ht; by subst|].
      right. rewrite app_assoc in Ht. apply app_inj_tail in Ht as [-> ->]. apply globs_snoc. exists t1, s. unfold piece_ok. by rewrite E1.
    + destruct (bool_decide (c = any_char)) eqn:E2.
      * destruct s as [|y [|]]; [done| |done]. by apply app_inj_tail in Ht as [-> ->].
      * subst s. by apply app_inj_tail in Ht as [-> ->].
  - destruct (bool_decide (c = star_char)) eqn:E1.
    + intros [Hp|(t1 & s & -> & Hp & Hs)%globs_snoc]; [exists (t ++ [x]), []; by rewrite app_nil_r|].
      exists t1, (s ++ [x]). by rewrite app_assoc.
    + destruct (bool_decide (c = any_char)) eqn:E2; [intros Hp; by exists t, [x]|].
      intros [-> Hp]. by exists t, [x].
Qed.

Lemma globs_first p c : globs (p ++ [c]) [] ↔ c = star_char ∧ globs p [].
Proof.
  rewrite globs_snoc. unfold piece_ok. split.
  - intros (t1 & s & Ht & Hp & Hs). symmetry in Ht. apply app_nil in Ht as [-> ->].
    repeat case_bool_decide; done.
  - intros [-> Hp]. exists [], []. by rewrite bool_decide_true.
Qed.

Lemma cells_spec p c t2 : ∀ t1 left prev,
  length prev = S (length t2) →
  (∀ k b, prev !! k = Some b → b = true ↔ globs p (t1 ++ take k t2)) →
  (left = true ↔ globs (p ++ [c]) t1) →
  length (dp_cells c left prev t2) = length t2 ∧
  ∀ k b, dp_cells c left prev t2 !! k = Some b → b = true ↔ globs (p ++ [c]) (t1 ++ take (S k) t2).
Proof.
  induction t2 as [|x t2 IH]; intros t1 left prev Hlen Hprev Hleft.
  { destruct prev as [|? [|]]; done. }
  destruct prev as [|diag [|up prev]]; [done..|]. cbn [dp_cells].
  set (cell := if bool_decide (c = star_char) then up || left else _).
  assert (Hcell : cell = true ↔ globs (p ++ [c]) (t1 ++ [x])).
  { pose proof (Hprev 0%nat diag eq_refl) as H0. pose proof (Hprev 1%nat up eq_refl) as H1.
    cbn in H0, H1. rewrite app_nil_r in H0. rewrite take_0 in H1. rewrite globs_cell. subst cell. repeat case_bool_decide.
    - by rewrite orb_true_iff, H1, Hleft.
    - done.
    - cbn. rewrite H0. naive_solver.
    - naive_solver. }
  destruct (IH (t1 ++ [x]) cell (up :: prev)) as [Hl Hk].
  - cbn in *. lia.
  - intros k b Hb. rewrite <- app_assoc. apply (Hprev (S k) b Hb).
  - done.
  - split; [exact (f_equal S Hl)|]. intros [|k] b Hb; cbn in Hb.
    + injection Hb as <-. cbn. by rewrite take_0.
    + rewrite (Hk k b Hb). by rewrite <- app_assoc.
Qed.

Lemma rows_spec q t : ∀ p prev,
  length prev = S (length t) → (∀ k b, prev !! k = Some b → b = true ↔ globs p (take k t)) →
  length (dp_rows q prev t) = S (length t) ∧
  ∀ k b, dp_rows q prev t !! k = Some b → b = true ↔ globs (p ++ q) (take k t).
Proof.
  induction q as [|c q IH]; intros p prev Hlen Hprev; cbn [dp_rows]; [by rewrite app_nil_r|].
  destruct prev as [|d prev]; [done|].
  assert (Hfirst : (bool_decide (c = star_char) && d) = true ↔ globs (p ++ [c]) []).
  { rewrite globs_first, andb_true_iff, bool_decide_eq_true, (Hprev 0%nat d eq_refl). by rewrite take_0. }
  destruct (cells_spec p c t [] (bool_decide (c = star_char) && d) (d :: prev)) as [Hl Hk]; [done..|].
  destruct (IH (p ++ [c]) (dp_row c (d :: prev) t)) as [H1 H2].
  - exact (f_equal S Hl).
  - intros [|k] b Hb; unfold dp_row in Hb; cbn in Hb; [injection Hb as <-; by rewrite take_0|]. by apply Hk.
  - split; [done|]. intros k b Hb. rewrite (H2 k b Hb). by rewrite <- app_assoc.
Qed.

(** The glob matcher's table computes exactly the declarative matching: a
    target matches when it splits into one piece per pattern character, any
    piece for a star, one character for a question mark, the character itself
    otherwise. *)
Theorem glob_match_is_matching (pattern target : string) :
  glob_match pattern target = true ↔ globs (chars (as_bytes pattern)) (chars (as_bytes target)).
Proof.
  unfold glob_match, glob_chars. set (p := chars (as_bytes pattern)). set (t := chars (as_bytes target)).
  destruct (rows_spec p t [] (true :: replicate (length t) false)) as [Hl Hk].
  { cbn. by rewrite length_replicate. }
  { intros [|k] b Hb; cbn in Hb; rewrite globs_nil.
    - injection Hb as <-. by rewrite take_0.
    - apply lookup_replicate in Hb as [-> Hlt]. split; [done|]. intros Ht.
      apply (f_equal length) in Ht. rewrite length_take, length_nil in Ht. lia. }
  rewrite last_lookup, Hl. cbn [Nat.pred].
  destruct (dp_rows p (true :: replicate (length t) false) t !! length t) as [b|] eqn:E.
  - cbn. rewrite (Hk _ _ E). by rewrite take_ge.
  - apply lookup_ge_None in E. lia.
Qed.

End Cimd.
