(* ===== verification/OauthStore.v ===== *)
(** * The authorization server's tables

    [OauthStore] of [waygate-as/src/store.rs] and the consent tables
    ([consent.rs], [consent_pending.rs]), with the schema of migration 0003:
    primary keys refuse a second row, a refresh row's [rotated_from] refers to a
    row of the table and is set to NULL when that row is deleted. A statement or
    transaction is one atomic step on the tables, except [revoke_chain]: under
    READ COMMITTED its recursive query reads one snapshot and the update that
    follows revokes the rows of that snapshot, so it is a read and a write. *)

From S2P Require Import Prelude RustStr Json.

Module OauthStore.
Import Json.

(** [TIMESTAMPTZ] keeps microseconds. *)
Definition timestamptz (t : time) : time := t - t mod 1000.

Inductive StoreError := Sqlx | JsonError.

(** ** Values *)

Record Transaction := {
  txn_id : string;
  txn_client_id : string;
  client_redirect_uri : string;
  client_state : option string;
  txn_code_challenge : string;
  code_challenge_method : string;
  txn_scopes : list string;
  txn_resource : option string;
  proxy_code_verifier : string;
  txn_expires_at : time;
}.

Record IssuedCode := {
  code : string;
  code_client_id : string;
  redirect_uri : string;
  code_challenge : string;
  code_scopes : list string;
  code_sub : string;
  code_email : option string;
  code_groups : list string;
  upstream_tokens_ciphertext : option string;
  code_expires_at : time;
  code_tenant_id : string;
}.

Record RefreshToken := {
  token : string;
  rt_sub : string;
  rt_email : option string;
  rt_groups : list string;
  rt_scopes : list string;
  rt_client_id : string;
  rotated_from : option string;
  rt_expires_at : time;
  revoked_at : option time;
  rt_tenant_id : string;
}.

Record PendingConsent := {
  pc_token : string;
  pc_tenant_id : string;
  pc_principal_sub : string;
  pc_principal_email : option string;
  pc_principal_groups : list string;
  pc_client_id : string;
  pc_client_redirect_uri : string;
  pc_client_state : option string;
  pc_code_challenge : string;
  pc_scopes : list string;
  pc_upstream_tokens_ciphertext : string;
  pc_key_id : string;
  pc_access_expires_at : time;
  pc_expires_at : time;
}.

Record NewConsentGrant := {
  ng_tenant_id : string;
  ng_principal_sub : string;
  ng_client_id : string;
  ng_scopes : list string;
  ng_expires_at : option time;
}.

(** A row of [oauth_consent] under its unique key. *)
Record ConsentGrant := {
  cg_scopes : list string;
  cg_granted_at : time;
  cg_expires_at : option time;
  cg_revoked_at : option time;
}.

(** ** Rows: the array columns are JSON *)

Definition strings_json (l : list string) : Value := Array (Str <$> l).

Definition json_to_str_vec (v : Value) : list string :=
  match v with Array items => omap as_str items | _ => [] end.

Record TransactionRow := {
  tr_txn_id : string;
  tr_client_id : string;
  tr_client_redirect_uri : string;
  tr_client_state : option string;
  tr_code_challenge : string;
  tr_code_challenge_method : string;
  tr_scopes : Value;
  tr_resource : option string;
  tr_proxy_code_verifier : string;
  tr_expires_at : time;
}.

Record IssuedCodeRow := {
  cr_code : string;
  cr_client_id : string;
  cr_redirect_uri : string;
  cr_code_challenge : string;
  cr_scopes : Value;
  cr_sub : string;
  cr_email : option string;
  cr_groups : Value;
  cr_upstream_tokens_ciphertext : option string;
  cr_expires_at : time;
  cr_tenant_id : string;
}.

Record RefreshTokenRow := {
  rr_token : string;
  rr_sub : string;
  rr_email : option string;
  rr_groups : Value;
  rr_scopes : Value;
  rr_client_id : string;
  rr_rotated_from : option string;
  rr_issued_at : time;
  rr_expires_at : time;
  rr_revoked_at : option time;
  rr_tenant_id : string;
}.

Definition transaction_row (t : Transaction) : TransactionRow := {|
  tr_txn_id := txn_id t; tr_client_id := txn_client_id t;
  tr_client_redirect_uri := client_redirect_uri t; tr_client_state := client_state t;
  tr_code_challenge := txn_code_challenge t; tr_code_challenge_method := code_challenge_method t;
  tr_scopes := strings_json (txn_scopes t); tr_resource := txn_resource t;
  tr_proxy_code_verifier := proxy_code_verifier t; tr_expires_at := timestamptz (txn_expires_at t) |}.

Definition transaction_of_row (r : TransactionRow) : Transaction := {|
  txn_id := tr_txn_id r; txn_client_id := tr_client_id r;
  client_redirect_uri := tr_client_redirect_uri r; client_state := tr_client_state r;
  txn_code_challenge := tr_code_challenge r; code_challenge_method := tr_code_challenge_method r;
  txn_scopes := json_to_str_vec (tr_scopes r); txn_resource := tr_resource r;
  proxy_code_verifier := tr_proxy_code_verifier r; txn_expires_at := tr_expires_at r |}.

Definition code_row (c : IssuedCode) : IssuedCodeRow := {|
  cr_code := code c; cr_client_id := code_client_id c; cr_redirect_uri := redirect_uri c;
  cr_code_challenge := code_challenge c; cr_scopes := strings_json (code_scopes c); cr_sub := code_sub c;
  cr_email := code_email c; cr_groups := strings_json (code_groups c);
  cr_upstream_tokens_ciphertext := upstream_tokens_ciphertext c;
  cr_expires_at := timestamptz (code_expires_at c); cr_tenant_id := code_tenant_id c |}.

Definition code_of_row (r : IssuedCodeRow) : IssuedCode := {|
  code := cr_code r; code_client_id := cr_client_id r; redirect_uri := cr_redirect_uri r;
  code_challenge := cr_code_challenge r; code_scopes := json_to_str_vec (cr_scopes r); code_sub := cr_sub r;
  code_email := cr_email r; code_groups := json_to_str_vec (cr_groups r);
  upstream_tokens_ciphertext := cr_upstream_tokens_ciphertext r;
  code_expires_at := cr_expires_at r; code_tenant_id := cr_tenant_id r |}.

(** The INSERT of [insert_refresh] and [rotate_refresh]: [issued_at] defaults to now and
    [revoked_at] to NULL. *)
Definition refresh_row (now : time) (r : RefreshToken) : RefreshTokenRow := {|
  rr_token := token r; rr_sub := rt_sub r; rr_email := rt_email r;
  rr_groups := strings_json (rt_groups r); rr_scopes := strings_json (rt_scopes r);
  rr_client_id := rt_client_id r; rr_rotated_from := rotated_from r;
  rr_issued_at := timestamptz now; rr_expires_at := timestamptz (rt_expires_at r);
  rr_revoked_at := None; rr_tenant_id := rt_tenant_id r |}.

Definition refresh_of_row (r : RefreshTokenRow) : RefreshToken := {|
  token := rr_token r; rt_sub := rr_sub r; rt_email := rr_email r;
  rt_groups := json_to_str_vec (rr_groups r); rt_scopes := json_to_str_vec (rr_scopes r);
  rt_client_id := rr_client_id r; rotated_from := rr_rotated_from r;
  rt_expires_at := rr_expires_at r; revoked_at := rr_revoked_at r; rt_tenant_id := rr_tenant_id r |}.

(** ** Tables *)

Record Db := {
  oauth_transactions : gmap string TransactionRow;
  oauth_codes : gmap string IssuedCodeRow;
  oauth_refresh_tokens : gmap string RefreshTokenRow;
  oauth_consent_pending : gmap string PendingConsent;
  oauth_consent : gmap (string * string * string) ConsentGrant;
  id_jag_jti : gmap string time;
}.

Definition empty_db : Db := {|
  oauth_transactions := ∅; oauth_codes := ∅; oauth_refresh_tokens := ∅;
  oauth_consent_pending := ∅; oauth_consent := ∅; id_jag_jti := ∅ |}.

Definition with_transactions (m : gmap string TransactionRow) (db : Db) : Db := {|
  oauth_transactions := m; oauth_codes := oauth_codes db;
  oauth_refresh_tokens := oauth_refresh_tokens db; oauth_consent_pending := oauth_consent_pending db;
  oauth_consent := oauth_consent db; id_jag_jti := id_jag_jti db |}.
Definition with_codes (m : gmap string IssuedCodeRow) (db : Db) : Db := {|
  oauth_transactions := oauth_transactions db; oauth_codes := m;
  oauth_refresh_tokens := oauth_refresh_tokens db; oauth_consent_pending := oauth_consent_pending db;
  oauth_consent := oauth_consent db; id_jag_jti := id_jag_jti db |}.
Definition with_refresh (m : gmap string RefreshTokenRow) (db : Db) : Db := {|
  oauth_transactions := oauth_transactions db; oauth_codes := oauth_codes db;
  oauth_refresh_tokens := m; oauth_consent_pending := oauth_consent_pending db;
  oauth_consent := oauth_consent db; id_jag_jti := id_jag_jti db |}.
Definition with_pending (m : gmap string PendingConsent) (db : Db) : Db := {|
  oauth_transactions := oauth_transactions db; oauth_codes := oauth_codes db;
  oauth_refresh_tokens := oauth_refresh_tokens db; oauth_consent_pending := m;
  oauth_consent := oauth_consent db; id_jag_jti := id_jag_jti db |}.
Definition with_consent (m : gmap (string * string * string) ConsentGrant) (db : Db) : Db := {|
  oauth_transactions := oauth_transactions db; oauth_codes := oauth_codes db;
  oauth_refresh_tokens := oauth_refresh_tokens db; oauth_consent_pending := oauth_consent_pending db;
  oauth_consent := m; id_jag_jti := id_jag_jti db |}.
Definition with_jtis (m : gmap string time) (db : Db) : Db := {|
  oauth_transactions := oauth_transactions db; oauth_codes := oauth_codes db;
  oauth_refresh_tokens := oauth_refresh_tokens db; oauth_consent_pending := oauth_consent_pending db;
  oauth_consent := oauth_consent db; id_jag_jti := m |}.

(** INSERT: refused when the primary key is taken. *)
Definition insert_key {V} (k : string) (v : V) (m : gmap string V) : option (gmap string V) :=
  match m !! k with Some _ => None | None => Some (<[k := v]> m) end.

(** DELETE … WHERE key = $1 AND expires_at > now() RETURNING *)
Definition take_live {V} (expires_at : V → time) (now : time) (k : string) (m : gmap string V)
  : option V * gmap string V :=
  match m !! k with
  | Some v => if now <? expires_at v then (Some v, delete k m) else (None, m)
  | None => (None, m)
  end.

(** ** Transactions and codes *)

Definition insert_transaction (t : Transaction) (db : Db) : result unit StoreError * Db :=
  match insert_key (txn_id t) (transaction_row t) (oauth_transactions db) with
  | Some m => (Ok tt, with_transactions m db)
  | None => (Err Sqlx, db)
  end.

Definition take_transaction (now : time) (id : string) (db : Db) : result (option Transaction) StoreError * Db :=
  let '(row, m) := take_live tr_expires_at now id (oauth_transactions db) in
  (Ok (transaction_of_row <$> row), with_transactions m db).

Definition insert_code (c : IssuedCode) (db : Db) : result unit StoreError * Db :=
  match insert_key (code c) (code_row c) (oauth_codes db) with
  | Some m => (Ok tt, with_codes m db)
  | None => (Err Sqlx, db)
  end.

Definition take_code (now : time) (c : string) (db : Db) : result (option IssuedCode) StoreError * Db :=
  let '(row, m) := take_live cr_expires_at now c (oauth_codes db) in
  (Ok (code_of_row <$> row), with_codes m db).

(** ** Refresh tokens *)

(** The foreign key of [rotated_from]. *)
Definition refers (r : RefreshToken) (m : gmap string RefreshTokenRow) : bool :=
  match rotated_from r with
  | Some p => bool_decide (is_Some (m !! p))
  | None => true
  end.

Definition insert_refresh_row (now : time) (r : RefreshToken) (m : gmap string RefreshTokenRow)
  : option (gmap string RefreshTokenRow) :=
  if refers r m then insert_key (token r) (refresh_row now r) m else None.

Definition insert_refresh (now : time) (r : RefreshToken) (db : Db) : result unit StoreError * Db :=
  match insert_refresh_row now r (oauth_refresh_tokens db) with
  | Some m => (Ok tt, with_refresh m db)
  | None => (Err Sqlx, db)
  end.

Definition find_refresh (t : string) (db : Db) : result (option RefreshToken) StoreError :=
  Ok (refresh_of_row <$> oauth_refresh_tokens db !! t).

Definition set_revoked (now : time) (r : RefreshTokenRow) : RefreshTokenRow := {|
  rr_token := rr_token r; rr_sub := rr_sub r; rr_email := rr_email r; rr_groups := rr_groups r;
  rr_scopes := rr_scopes r; rr_client_id := rr_client_id r; rr_rotated_from := rr_rotated_from r;
  rr_issued_at := rr_issued_at r; rr_expires_at := rr_expires_at r;
  rr_revoked_at := Some (timestamptz now); rr_tenant_id := rr_tenant_id r |}.

Definition unrevoked (r : RefreshTokenRow) : bool :=
  match rr_revoked_at r with None => true | Some _ => false end.

(** UPDATE … SET revoked_at = now() WHERE p AND revoked_at IS NULL *)
Definition revoke_where (now : time) (p : RefreshTokenRow → bool) (m : gmap string RefreshTokenRow)
  : gmap string RefreshTokenRow :=
  (λ r, if p r && unrevoked r then set_revoked now r else r) <$> m.

Definition matching (p : RefreshTokenRow → bool) (m : gmap string RefreshTokenRow) : Z :=
  Z.of_nat (size (filter (λ kv, p kv.2 && unrevoked kv.2 = true) m)).

Definition revoke_refresh (now : time) (t : string) (db : Db) : result bool StoreError * Db :=
  let p r := bool_decide (rr_token r = t) in
  (Ok (0 <? matching p (oauth_refresh_tokens db)),
   with_refresh (revoke_where now p (oauth_refresh_tokens db)) db).

(** The recursive query of [revoke_chain]: each round joins the rows rotated from the last. *)
Definition rotated_rows (s : gset string) (m : gmap string RefreshTokenRow) : gset string :=
  dom (filter (λ kv, match rr_rotated_from kv.2 with
                     | Some p => bool_decide (p ∈ s)
                     | None => false
                     end = true) m).

Fixpoint chain_rounds (n : nat) (s : gset string) (m : gmap string RefreshTokenRow) : gset string :=
  match n with
  | O => ∅
  | S n => s ∪ chain_rounds n (rotated_rows s m) m
  end.

Definition read_chain (leaked : string) (db : Db) : gset string :=
  let m := oauth_refresh_tokens db in
  chain_rounds (S (size m)) (dom (filter (λ kv, kv.1 = leaked) m)) m.

(** The update of [revoke_chain]. *)
Definition revoke_tokens (now : time) (s : gset string) (db : Db) : result Z StoreError * Db :=
  let p r := bool_decide (rr_token r ∈ s) in
  (Ok (matching p (oauth_refresh_tokens db)),
   with_refresh (revoke_where now p (oauth_refresh_tokens db)) db).

Definition rotate_refresh (now : time) (predecessor : string) (successor : RefreshToken) (db : Db)
  : result bool StoreError * Db :=
  let m := oauth_refresh_tokens db in
  let p r := bool_decide (rr_token r = predecessor) in
  if matching p m =? 0 then (Ok false, db)
  else match insert_refresh_row now successor (revoke_where now p m) with
       | Some m => (Ok true, with_refresh m db)
       | None => (Err Sqlx, db)
       end.

Definition revoke_by_client_sub (now : time) (client_id sub : string) (db : Db) : result Z StoreError * Db :=
  let p r := bool_decide (rr_client_id r = client_id) && bool_decide (rr_sub r = sub)
             && (now <? rr_expires_at r) in
  (Ok (matching p (oauth_refresh_tokens db)),
   with_refresh (revoke_where now p (oauth_refresh_tokens db)) db).

(** ** Replay markers *)

(** INSERT … ON CONFLICT (jti) DO NOTHING *)
Definition claim_id_jag_jti (jti : string) (expires_at : time) (db : Db) : result bool StoreError * Db :=
  match id_jag_jti db !! jti with
  | Some _ => (Ok false, db)
  | None => (Ok true, with_jtis (<[jti := timestamptz expires_at]> (id_jag_jti db)) db)
  end.

(** ** Pending consents and grants *)

Definition pending_row (p : PendingConsent) : PendingConsent := {|
  pc_token := pc_token p; pc_tenant_id := pc_tenant_id p; pc_principal_sub := pc_principal_sub p;
  pc_principal_email := pc_principal_email p; pc_principal_groups := pc_principal_groups p;
  pc_client_id := pc_client_id p; pc_client_redirect_uri := pc_client_redirect_uri p;
  pc_client_state := pc_client_state p; pc_code_challenge := pc_code_challenge p; pc_scopes := pc_scopes p;
  pc_upstream_tokens_ciphertext := pc_upstream_tokens_ciphertext p; pc_key_id := pc_key_id p;
  pc_access_expires_at := timestamptz (pc_access_expires_at p);
  pc_expires_at := timestamptz (pc_expires_at p) |}.

Definition insert_pending (p : PendingConsent) (db : Db) : result unit StoreError * Db :=
  match insert_key (pc_token p) (pending_row p) (oauth_consent_pending db) with
  | Some m => (Ok tt, with_pending m db)
  | None => (Err Sqlx, db)
  end.

Definition get_pending (now : time) (t : string) (db : Db) : result (option PendingConsent) StoreError :=
  Ok (fst (take_live pc_expires_at now t (oauth_consent_pending db))).

Definition take_pending (now : time) (t : string) (db : Db) : result (option PendingConsent) StoreError * Db :=
  let '(row, m) := take_live pc_expires_at now t (oauth_consent_pending db) in (Ok row, with_pending m db).

Definition upsert_consent (now : time) (g : NewConsentGrant) (db : Db) : result unit StoreError * Db :=
  (Ok tt, with_consent (<[(ng_tenant_id g, ng_principal_sub g, ng_client_id g) :=
     {| cg_scopes := ng_scopes g; cg_granted_at := timestamptz now;
        cg_expires_at := timestamptz <$> ng_expires_at g; cg_revoked_at := None |}]> (oauth_consent db)) db).

Definition set_grant_revoked (now : time) (g : ConsentGrant) : ConsentGrant := {|
  cg_scopes := cg_scopes g; cg_granted_at := cg_granted_at g; cg_expires_at := cg_expires_at g;
  cg_revoked_at := Some (timestamptz now) |}.

Definition revoke_consent (now : time) (tenant sub client : string) (db : Db) : result bool StoreError * Db :=
  match oauth_consent db !! (tenant, sub, client) with
  | Some g => match cg_revoked_at g with
              | None => (Ok true, with_consent (<[(tenant, sub, client) := set_grant_revoked now g]> (oauth_consent db)) db)
              | Some _ => (Ok false, db)
              end
  | None => (Ok false, db)
  end.

Definition find_active (now : time) (tenant sub client : string) (db : Db) : result (option ConsentGrant) StoreError :=
  Ok (g ← oauth_consent db !! (tenant, sub, client);
      match cg_revoked_at g, cg_expires_at g with
      | None, None => Some g
      | None, Some t => if now <? t then Some g else None
      | Some _, _ => None
      end).

(** ** The sweeper: one statement per table, rows with [expires_at < now()] *)

Definition sweep {V} (expires_at : V → time) (now : time) (m : gmap string V) : gmap string V :=
  filter (λ kv, (expires_at kv.2 <? now) = false) m.

(** ON DELETE SET NULL *)
Definition clear_dangling (m : gmap string RefreshTokenRow) (r : RefreshTokenRow) : RefreshTokenRow := {|
  rr_token := rr_token r; rr_sub := rr_sub r; rr_email := rr_email r; rr_groups := rr_groups r;
  rr_scopes := rr_scopes r; rr_client_id := rr_client_id r;
  rr_rotated_from := (p ← rr_rotated_from r; if bool_decide (is_Some (m !! p)) then Some p else None);
  rr_issued_at := rr_issued_at r; rr_expires_at := rr_expires_at r;
  rr_revoked_at := rr_revoked_at r; rr_tenant_id := rr_tenant_id r |}.

Definition sweep_refresh (now : time) (m : gmap string RefreshTokenRow) : gmap string RefreshTokenRow :=
  let kept := sweep rr_expires_at now m in clear_dangling kept <$> kept.

Inductive Swept := Transactions | Codes | RefreshTokens | ConsentPending | IdJagJti.

Definition sweep_expired (now : time) (t : Swept) (db : Db) : result Z StoreError * Db :=
  match t with
  | Transactions =>
      let m := sweep tr_expires_at now (oauth_transactions db) in
      (Ok (Z.of_nat (size (oauth_transactions db) - size m)), with_transactions m db)
  | Codes =>
      let m := sweep cr_expires_at now (oauth_codes db) in
      (Ok (Z.of_nat (size (oauth_codes db) - size m)), with_codes m db)
  | RefreshTokens =>
      let m := sweep_refresh now (oauth_refresh_tokens db) in
      (Ok (Z.of_nat (size (oauth_refresh_tokens db) - size m)), with_refresh m db)
  | ConsentPending =>
      let m := sweep pc_expires_at now (oauth_consent_pending db) in
      (Ok (Z.of_nat (size (oauth_consent_pending db) - size m)), with_pending m db)
  | IdJagJti =>
      let m := sweep id now (id_jag_jti db) in
      (Ok (Z.of_nat (size (id_jag_jti db) - size m)), with_jtis m db)
  end.

(** ** Columns round trip *)

Lemma strings_json_back l : json_to_str_vec (strings_json l) = l.
Proof. induction l as [|s l IH]; [done|]. cbn. f_equal. exact IH. Qed.

End OauthStore.
