(* ===== verification/OauthFlow.v ===== *)
(** * The authorization server: the authorize, callback and consent endpoints

    [waygate-as/src/authorize.rs], [callback.rs] and [consent_screen.rs], each
    handler a program over the seams of this file: the tables of [OauthStore],
    the clock, the random source and the collaborators that are not part of the
    crate (document fetching, the upstream identity provider, token signing,
    encryption, the evidence recorder). A program fixes the order of the calls
    and what each carries; nothing is assumed of the answers here. *)

From S2P Require Import Prelude RustStr Encoding HashChain Json Facts Evidence Interact Cimd OauthStore.
From Stdlib Require Import Ascii.

Module OauthFlow.
Import HashChain.HashChain Evidence.Evidence Json.Json Facts.Facts Interact.Interact Cimd.Cimd OauthStore.OauthStore.

(** ** Configuration *)

Record AsConfig := {
  public_url : string;
  audience : string;
  upstream_issuer : string;
  identity_issuer : string;
  access_token_ttl : Z;
  refresh_token_ttl : Z;
  transaction_ttl : Z;
  code_ttl : Z;
  allowed_scopes : list string;
  require_explicit_consent : bool;
  idjag_ttl : Z;
  idjag_require_scim : bool;
  idjag_allowed_audiences : list string;
  idjag_known_resources : list string;
  idjag_trusted_issuers : list string;
}.

Definition issuer_url (cfg : AsConfig) : string := trim_end_matches "/"%char (public_url cfg).
Definition absolute (cfg : AsConfig) (path : string) : string := issuer_url cfg +:+ path.

Definition seconds (n : Z) : duration := n * nanos_per_sec.

(** ** What is exchanged with the collaborators *)

Record UpstreamTokens := {
  ut_access_token : string;
  ut_refresh_token : option string;
  ut_id_token : option string;
  ut_expires_in : option Z;
  ut_scope : option string;
}.

Record NewSessionRow := {
  ns_sub : string;
  ns_upstream_issuer : string;
  ns_tokens_ciphertext : string;
  ns_key_id : string;
  ns_access_expires_at : time;
}.

Record ConfidentialClient := { cc_client_id : string; cc_secret_hash : option string; cc_jwks : option Value }.

Record AccessTokenClaims := {
  at_iss : string;
  at_sub : string;
  at_aud : string;
  at_iat : Z;
  at_exp : Z;
  at_email : option string;
  at_groups : list string;
  at_scope : string;
  at_client_id : option string;
  at_tenant : option string;
}.

Record IdJagClaims := {
  ij_jti : string;
  ij_iss : string;
  ij_sub : string;
  ij_email : option string;
  ij_aud : string;
  ij_resource : string;
  ij_client_id : string;
  ij_iat : Z;
  ij_exp : Z;
  ij_scope : string;
  ij_tenant : option string;
}.

Record ResolvedSubject := { rs_principal : Principal Value; rs_client_id : option string }.

(** ** The seams *)

Inductive Seam :=
  | InsertTransaction (t : Transaction)
  | TakeTransaction (id : string)
  | InsertCode (c : IssuedCode)
  | TakeCode (c : string)
  | InsertRefresh (r : RefreshToken)
  | FindRefresh (t : string)
  | ReadChain (t : string)
  | RevokeTokens (s : gset string)
  | RotateRefresh (predecessor : string) (successor : RefreshToken)
  | RevokeByClientSub (client_id sub : string)
  | ClaimIdJagJti (jti : string) (expires_at : time)
  | InsertPending (p : PendingConsent)
  | GetPending (t : string)
  | TakePending (t : string)
  | UpsertConsent (g : NewConsentGrant)
  | FindActive (tenant sub client : string)
  | RevokeConsent (tenant sub client : string)
  | SweepExpired (t : Swept)
  | UpsertSession (r : NewSessionRow)
  | GetClient (id : string)
  | Clock
  | RandomToken
  | NewPkcePair
  | FetchCimd (client_id : string)
  | ExchangeCode (code verifier : string)
  | ValidateIdToken (t : string)
  | EncryptTokens (t : UpstreamTokens)
  | SignAccessToken (c : AccessTokenClaims)
  | SignIdJag (c : IdJagClaims)
  | ResolveSubject (kind t : string)
  | Enrich (p : Principal Value)
  | AuthorizeCrossApp (p : Principal Value) (client_id resource : string)
  | VerifySelfIdJag (assertion : string)
  | VerifyPeerIdJag (assertion : string)
  | NewEvent
  | RecordChained (e : AuditEvent).

#[global] Instance seam_effect : Effect Seam := λ s,
  match s with
  | InsertTransaction _ | InsertCode _ | InsertRefresh _ | InsertPending _ | UpsertConsent _
  | UpsertSession _ => result unit StoreError
  | TakeTransaction _ => result (option Transaction) StoreError
  | TakeCode _ => result (option IssuedCode) StoreError
  | FindRefresh _ => result (option RefreshToken) StoreError
  | ReadChain _ => result (gset string) StoreError
  | RevokeTokens _ | RevokeByClientSub _ _ | SweepExpired _ => result Z StoreError
  | RotateRefresh _ _ | ClaimIdJagJti _ _ | RevokeConsent _ _ _ => result bool StoreError
  | GetPending _ | TakePending _ => result (option PendingConsent) StoreError
  | FindActive _ _ _ => result (option ConsentGrant) StoreError
  | GetClient _ => result (option ConfidentialClient) StoreError
  | Clock => time
  | RandomToken => string
  | NewPkcePair => (string * string)%type
  | FetchCimd _ => result CimdDocument CimdError
  | ExchangeCode _ _ => result UpstreamTokens string
  | ValidateIdToken _ => result (Principal Value) string
  | EncryptTokens _ => result (string * string)%type string
  | SignAccessToken _ | SignIdJag _ => result string string
  | ResolveSubject _ _ => option ResolvedSubject
  | Enrich _ => Principal Value
  | AuthorizeCrossApp _ _ _ => bool
  | VerifySelfIdJag _ => option IdJagClaims
  | VerifyPeerIdJag _ => option (IdJagClaims * string)%type
  | NewEvent => (Uuid * time)%type
  | RecordChained _ => unit
  end.

(** Programs that may fail: the [?] operator, and an early [return Err]. *)
Definition and_then {A B E} (p : prog Seam (result A E)) (k : A → prog Seam (result B E)) : prog Seam (result B E) :=
  pbind p (λ r, match r with Ok a => k a | Err e => Ret (Err e) end).

Notation "'let!' x ':=' s 'in' k" := (Call s (λ x, k))
  (at level 10, x pattern, s at level 100, k at level 200) : waygate_scope.
Notation "'let*' x ':=' p 'in' k" := (and_then p (λ x, k))
  (at level 10, x pattern, p at level 100, k at level 200) : waygate_scope.

Definition succeeds {A E} (a : A) : prog Seam (result A E) := Ret (Ok a).
Definition fails {A E} (e : E) : prog Seam (result A E) := Ret (Err e).

(** [map_err] on the answer of a call. *)
Definition map_err {A E F} (f : E → F) (r : result A E) : result A F :=
  match r with Ok a => Ok a | Err e => Err (f e) end.

(** ** Pure functions of other crates *)

Record Library := {
  lib_url_parse : string → option Url;
  lib_store_error_text : StoreError → string;
  lib_cimd_error_text : CimdError → string;
  lib_authorize_url : string → string → string;
  lib_s256 : string → string;
  lib_range_error_text : Z → string;
  lib_tokens_json : UpstreamTokens → result unit string;
  lib_peek_unverified_issuer : string → option string;
  lib_base64_decode : string → option string;
  lib_form_decode : string → string;
  lib_verify_password : string → string → bool;
  lib_claimed_issuer : string → option string;
  lib_verify_private_key_jwt : string → Value → string → list string → bool;
}.

(** [str::split_whitespace]. The words of [l], [cur] being the one that is open; every step
    consumes a byte. *)
Fixpoint words (fuel : nat) (cur l : bytes) : list bytes :=
  let flush := match cur with [] => [] | _ => [cur] end in
  match fuel with
  | O => flush
  | S fuel =>
      match l with
      | [] => flush
      | a :: l' => match ws_len l with
                   | O => words fuel (cur ++ [a]) l'
                   | n => flush ++ words fuel [] (drop n l)
                   end
      end
  end.

Definition split_whitespace (s : string) : list string :=
  let l := as_bytes s in of_bytes <$> words (S (length l)) [] l.

Section Flow.
Context (lib : Library) (cfg : AsConfig).

(** ** [audit::record] *)

Record OauthFacts := {
  of_action : string;
  of_outcome : AuditOutcome;
  of_client_id : option string;
  of_sub : option string;
  of_grant_type : option string;
  of_detail : option string;
}.

Definition format_reason (f : OauthFacts) : string :=
  "client_id=" +:+ default "?" (of_client_id f) +:+ " sub=" +:+ default "?" (of_sub f) +:+
  " grant=" +:+ default "?" (of_grant_type f) +:+
  match of_detail f with Some d => " detail=" +:+ d | None => "" end.

Definition record {A} (f : OauthFacts) (k : prog Seam A) : prog Seam A :=
  let! x := NewEvent in
  let! _ := RecordChained (with_reason (format_reason f)
              (with_category OAuthEvent (new x.1 x.2 (of_action f) (of_outcome f)))) in k.

(** ** [/oauth/authorize] *)

Record AuthorizeQuery := {
  aq_client_id : string;
  aq_redirect_uri : string;
  aq_response_type : string;
  aq_scope : option string;
  aq_state : option string;
  aq_code_challenge : string;
  aq_code_challenge_method : string;
  aq_resource : option string;
}.

Inductive AuthorizeError :=
  | UnsupportedResponseType
  | UnsupportedChallengeMethod
  | AuthorizeInvalidClient
  | InvalidRedirectUri
  | InvalidScope (s : string)
  | AuthorizeCimd (e : CimdError)
  | AuthorizeInternal (text : string).

Definition first_unknown (allowed : list string) (l : list string) : option string :=
  find_first (λ s, negb (bool_decide (s ∈ allowed))) l.

Definition parse_scopes (raw : option string) (allowed : list string) : result (list string) AuthorizeError :=
  let requested := split_whitespace (default "" raw) in
  let effective := match requested with [] => ["mcp:invoke"] | _ => requested end in
  match first_unknown allowed effective with
  | Some s => Err (InvalidScope s)
  | None => Ok effective
  end.

Definition authorize_handle (q : AuthorizeQuery) : prog Seam (result string AuthorizeError) :=
  if negb (bool_decide (aq_response_type q = "code")) then fails UnsupportedResponseType
  else if negb (bool_decide (aq_code_challenge_method q = "S256")) then fails UnsupportedChallengeMethod
  else if negb (is_cimd_client_id (lib_url_parse lib) (aq_client_id q)) then fails AuthorizeInvalidClient
  else
    let! fetched := FetchCimd (aq_client_id q) in
    match fetched with
    | Err e => fails (AuthorizeCimd e)
    | Ok doc =>
        if negb (validate_redirect_uri (lib_url_parse lib) doc (aq_redirect_uri q)) then fails InvalidRedirectUri
        else
          match parse_scopes (aq_scope q) (allowed_scopes cfg) with
          | Err e => fails e
          | Ok scopes =>
              let! pkce := NewPkcePair in
              let! id := RandomToken in
              let! now := Clock in
              let! stored := InsertTransaction {|
                txn_id := id; txn_client_id := aq_client_id q; client_redirect_uri := aq_redirect_uri q;
                client_state := aq_state q; txn_code_challenge := aq_code_challenge q;
                code_challenge_method := aq_code_challenge_method q; txn_scopes := scopes;
                txn_resource := aq_resource q; proxy_code_verifier := pkce.1;
                txn_expires_at := now + seconds (transaction_ttl cfg) |} in
              match stored with
              | Err e => fails (AuthorizeInternal (lib_store_error_text lib e))
              | Ok _ => succeeds (lib_authorize_url lib id pkce.2)
              end
          end
    end.

(** ** [/oauth/callback] *)

Record CallbackQuery := {
  cq_code : option string;
  cq_state : option string;
  cq_error : option string;
  cq_error_description : option string;
}.

Inductive CallbackError :=
  | CallbackMissingCode
  | MissingState
  | UnknownTransaction
  | MissingIdToken
  | InvalidIdToken (text : string)
  | CallbackUpstream (error description : string)
  | CallbackInternal (text : string).

Definition callback_error_text (e : CallbackError) : string :=
  match e with
  | CallbackMissingCode => "missing `code`"
  | MissingState => "missing `state`"
  | UnknownTransaction => "unknown or expired transaction"
  | MissingIdToken => "upstream id_token missing from token response"
  | InvalidIdToken t => "upstream id_token rejected: " +:+ t
  | CallbackUpstream c d => "upstream: " +:+ c +:+ ": " +:+ d
  | CallbackInternal t => "internal: " +:+ t
  end.

Definition callback_audit_action (e : CallbackError) : string :=
  match e with
  | CallbackMissingCode => "OAuthCallbackMissingCode"
  | MissingState => "OAuthCallbackMissingState"
  | UnknownTransaction => "OAuthCallbackUnknownTransaction"
  | MissingIdToken => "OAuthCallbackMissingIdToken"
  | InvalidIdToken _ => "OAuthCallbackInvalidIdToken"
  | CallbackUpstream _ _ => "OAuthCallbackUpstreamRejected"
  | CallbackInternal _ => "OAuthCallbackInternal"
  end.

Record CallbackOk := { ok_redirect : string; ok_client_id : string; ok_sub : string }.

Definition hex_upper (n : N) : ascii := if (n <? 10)%N then ascii_of_N (48 + n) else ascii_of_N (55 + n).

Definition urlencode_byte (a : ascii) : bytes :=
  if is_ascii_alphanumeric a || bool_decide (a ∈ ["-"; "_"; "."; "~"]%char) then [a]
  else ["%"%char; hex_upper (byte_val a / 16); hex_upper (byte_val a mod 16)].

Definition urlencoding_minimal (s : string) : string := of_bytes (as_bytes s ≫= urlencode_byte).

Definition separator (base : string) : string := if contains "?" base then "&" else "?".

Definition state_and_iss (state : option string) (iss : string) : string :=
  match state with Some s => "&state=" +:+ urlencoding_minimal s | None => "" end +:+
  "&iss=" +:+ urlencoding_minimal iss.

Definition build_redirect (base code : string) (state : option string) (iss : string) : string :=
  base +:+ separator base +:+ "code=" +:+ urlencoding_minimal code +:+ state_and_iss state iss.

Definition build_deny_redirect (base : string) (state : option string) (iss : string) : string :=
  base +:+ separator base +:+ "error=access_denied" +:+ state_and_iss state iss.

(** [consent_covers_request], with the answer of [find_active]. *)
Definition covers_request (grant : result (option ConsentGrant) StoreError) (txn : Transaction) : bool :=
  match grant with
  | Ok (Some g) => forallb (λ s, bool_decide (s ∈ cg_scopes g)) (txn_scopes txn)
  | _ => false
  end.

Definition access_expiry (now : time) (expires_in : option Z) : time :=
  match expires_in with
  | Some secs => if 0 <? secs then now + seconds secs else now + seconds 3600
  | None => now + seconds 3600
  end.

(** The writes of a completed callback: session, consent, code. *)
Definition grant_code (txn : Transaction) (p : Principal Value) (gw_code ciphertext key_id : string)
    (expires_at access_expires_at : time) : prog Seam (result CallbackOk CallbackError) :=
  let internal where_ e := CallbackInternal (where_ +:+ lib_store_error_text lib e) in
  let! saved := UpsertSession {| ns_sub := sub p; ns_upstream_issuer := upstream_issuer cfg;
    ns_tokens_ciphertext := ciphertext; ns_key_id := key_id; ns_access_expires_at := access_expires_at |} in
  match saved with Err e => fails (internal "upstream-session upsert: " e) | Ok _ =>
  let! granted := UpsertConsent {| ng_tenant_id := tenant p; ng_principal_sub := sub p;
    ng_client_id := txn_client_id txn; ng_scopes := txn_scopes txn; ng_expires_at := None |} in
  match granted with Err e => fails (internal "consent upsert: " e) | Ok _ =>
  let! stored := InsertCode {| code := gw_code; code_client_id := txn_client_id txn;
    redirect_uri := client_redirect_uri txn; code_challenge := txn_code_challenge txn;
    code_scopes := txn_scopes txn; code_sub := sub p; code_email := email p; code_groups := groups p;
    upstream_tokens_ciphertext := Some ciphertext; code_expires_at := expires_at;
    code_tenant_id := tenant p |} in
  match stored with Err e => fails (internal "" e) | Ok _ =>
  succeeds {| ok_redirect := build_redirect (client_redirect_uri txn) gw_code (client_state txn) (issuer_url cfg);
          ok_client_id := txn_client_id txn; ok_sub := sub p |}
  end end end.

(** The pending row of a callback that needs the consent screen. *)
Definition defer_to_screen (txn : Transaction) (p : Principal Value) (ciphertext key_id : string)
    (access_expires_at : time) : prog Seam (result CallbackOk CallbackError) :=
  let! pending_token := RandomToken in
  let! now := Clock in
  let! stored := InsertPending {| pc_token := pending_token; pc_tenant_id := tenant p;
    pc_principal_sub := sub p; pc_principal_email := email p; pc_principal_groups := groups p;
    pc_client_id := txn_client_id txn; pc_client_redirect_uri := client_redirect_uri txn;
    pc_client_state := client_state txn; pc_code_challenge := txn_code_challenge txn;
    pc_scopes := txn_scopes txn; pc_upstream_tokens_ciphertext := ciphertext; pc_key_id := key_id;
    pc_access_expires_at := access_expires_at;
    pc_expires_at := now + seconds (code_ttl cfg + 300) |} in
  match stored with
  | Err e => fails (CallbackInternal ("consent-pending insert: " +:+ lib_store_error_text lib e))
  | Ok _ => succeeds {| ok_redirect := "/oauth/consent?token=" +:+ pending_token;
                    ok_client_id := txn_client_id txn; ok_sub := sub p |}
  end.

Definition callback_handle (q : CallbackQuery) : prog Seam (result CallbackOk CallbackError) :=
  match cq_error q, cq_code q, cq_state q with
  | Some e, _, _ => fails (CallbackUpstream e (default "" (cq_error_description q)))
  | None, None, _ => fails CallbackMissingCode
  | None, Some _, None => fails MissingState
  | None, Some c, Some id =>
      let! taken := TakeTransaction id in
      match taken with
      | Err e => fails (CallbackInternal (lib_store_error_text lib e))
      | Ok None => fails UnknownTransaction
      | Ok (Some txn) =>
          let! exchanged := ExchangeCode c (proxy_code_verifier txn) in
          match exchanged with
          | Err text => fails (CallbackUpstream "upstream_token_exchange_failed" text)
          | Ok tokens =>
              match ut_id_token tokens with
              | None => fails MissingIdToken
              | Some id_token =>
                  let! validated := ValidateIdToken id_token in
                  match validated with
                  | Err text => fails (InvalidIdToken text)
                  | Ok p =>
                      match lib_tokens_json lib tokens with
                      | Err text => fails (CallbackInternal ("serialize upstream tokens: " +:+ text))
                      | Ok _ =>
                          let! encrypted := EncryptTokens tokens in
                          match encrypted with
                          | Err text => fails (CallbackInternal ("encrypt upstream tokens: " +:+ text))
                          | Ok (ciphertext, key_id) =>
                              let! now := Clock in
                              let! gw_code := RandomToken in
                              let! now' := Clock in
                              let access := access_expiry now' (ut_expires_in tokens) in
                              let go_on := grant_code txn p gw_code ciphertext key_id
                                             (now + seconds (code_ttl cfg)) access in
                              if require_explicit_consent cfg then
                                let! grant := FindActive (tenant p) (sub p) (txn_client_id txn) in
                                if covers_request grant txn then go_on
                                else defer_to_screen txn p ciphertext key_id access
                              else go_on
                          end
                      end
                  end
              end
          end
      end
  end.

Inductive Reply :=
  | Redirected (url : string)
  | Rejected (status : Z) (error description : string)
  | Page (status : Z) (title : string)
  | ConsentPage (p : PendingConsent).

Definition callback_handler (q : CallbackQuery) : prog Seam Reply :=
  pbind (callback_handle q) (λ r,
    match r with
    | Ok ok => record {| of_action := "OAuthCallbackCompleted"; of_outcome := Success;
                         of_client_id := Some (ok_client_id ok); of_sub := Some (ok_sub ok);
                         of_grant_type := None; of_detail := None |} (Ret (Redirected (ok_redirect ok)))
    | Err e => record {| of_action := callback_audit_action e; of_outcome := ExecutionError;
                         of_client_id := None; of_sub := None; of_grant_type := None;
                         of_detail := Some (callback_error_text e) |}
                 (Ret (Rejected (match e with CallbackInternal _ => 500 | _ => 400 end) (callback_error_text e) ""))
    end).

(** ** [/oauth/consent] *)

Definition consent_get (t : string) : prog Seam Reply :=
  let! got := GetPending t in
  match got with
  | Ok (Some p) => Ret (ConsentPage p)
  | Ok None => Ret (Page 404 "consent session expired")
  | Err _ => Ret (Page 500 "consent store unavailable")
  end.

Definition consent_row {A} (action : string) (o : AuditOutcome) (verb : string) (p : PendingConsent)
    (k : prog Seam A) : prog Seam A :=
  let! x := NewEvent in
  let! _ := RecordChained (with_reason
      ("consent " +:+ verb +:+ ": tenant_id=" +:+ pc_tenant_id p +:+ " principal_sub=" +:+ pc_principal_sub p +:+
       " client_id=" +:+ pc_client_id p +:+ " scopes=" +:+ String.concat " " (pc_scopes p))
      (with_tenant (match tenant_parse (pc_tenant_id p) with Ok t => t | Err _ => DEFAULT_TENANT end)
        (with_category OAuthEvent (new x.1 x.2 action o)))) in k.

Definition approve (p : PendingConsent) : prog Seam Reply :=
  let! granted := UpsertConsent {| ng_tenant_id := pc_tenant_id p; ng_principal_sub := pc_principal_sub p;
    ng_client_id := pc_client_id p; ng_scopes := pc_scopes p; ng_expires_at := None |} in
  match granted with Err _ => Ret (Page 500 "consent store unavailable") | Ok _ =>
  let! saved := UpsertSession {| ns_sub := pc_principal_sub p; ns_upstream_issuer := upstream_issuer cfg;
    ns_tokens_ciphertext := pc_upstream_tokens_ciphertext p; ns_key_id := pc_key_id p;
    ns_access_expires_at := pc_access_expires_at p |} in
  match saved with Err _ => Ret (Page 500 "session store unavailable") | Ok _ =>
  let! gw_code := RandomToken in
  let! now := Clock in
  let! stored := InsertCode {| code := gw_code; code_client_id := pc_client_id p;
    redirect_uri := pc_client_redirect_uri p; code_challenge := pc_code_challenge p;
    code_scopes := pc_scopes p; code_sub := pc_principal_sub p; code_email := pc_principal_email p;
    code_groups := pc_principal_groups p;
    upstream_tokens_ciphertext := Some (pc_upstream_tokens_ciphertext p);
    code_expires_at := now + seconds (code_ttl cfg); code_tenant_id := pc_tenant_id p |} in
  match stored with Err _ => Ret (Page 500 "oauth code store unavailable") | Ok _ =>
  consent_row "OAuthConsentApproved" Success "approved" p
    (Ret (Redirected (build_redirect (pc_client_redirect_uri p) gw_code (pc_client_state p) (issuer_url cfg))))
  end end end.

Definition consent_post (t decision : string) : prog Seam Reply :=
  let decision := to_ascii_lowercase decision in
  if negb (bool_decide (decision = "approve")) && negb (bool_decide (decision = "deny"))
  then Ret (Page 400 "bad request")
  else
    let! taken := TakePending t in
    match taken with
    | Err _ => Ret (Page 500 "consent store unavailable")
    | Ok None => Ret (Page 404 "consent session expired")
    | Ok (Some p) =>
        if bool_decide (decision = "deny") then
          consent_row "OAuthConsentDenied" Denied "denied" p
            (Ret (Redirected (build_deny_redirect (pc_client_redirect_uri p) (pc_client_state p) (issuer_url cfg))))
        else approve p
    end.

End Flow.
End OauthFlow.
