(* ===== verification/OauthToken.v ===== *)
(** * The authorization server: the token endpoint

    [waygate-as/src/token.rs] with every grant (authorization code, refresh
    token, token exchange, JWT bearer), the client authentication of
    [client_auth.rs] and the claims [IdentityIssuer] signs
    ([waygate-oidc/src/identity_jwt.rs]). *)

From S2P Require Import Prelude RustStr Encoding HashChain Json Facts Evidence Interact Cimd OauthStore OauthFlow.
From Stdlib Require Import Ascii.

Module OauthToken.
Import HashChain.HashChain Evidence.Evidence Json.Json Facts.Facts Interact.Interact Cimd.Cimd OauthStore.OauthStore
  OauthFlow.OauthFlow.

Record TokenRequest := {
  grant_type : option string;
  rq_code : option string;
  rq_redirect_uri : option string;
  rq_client_id : option string;
  rq_code_verifier : option string;
  rq_refresh_token : option string;
  rq_subject_token : option string;
  rq_subject_token_type : option string;
  rq_requested_token_type : option string;
  rq_audience : option string;
  rq_resource : option string;
  rq_scope : option string;
  rq_assertion : option string;
  rq_client_secret : option string;
  rq_client_assertion : option string;
  rq_client_assertion_type : option string;
}.

Record TokenResponse := {
  access_token : string;
  expires_in : Z;
  refresh_token : string;
  tk_scope : option string;
  tk_iss : string;
}.

Record TokenExchangeResponse := { te_access_token : string; te_scope : option string; te_expires_in : Z }.

Record RedeemResponse := {
  rd_access_token : string;
  rd_expires_in : Z;
  rd_scope : option string;
  rd_iss : string;
}.

Record Issued := { response : TokenResponse; issued_sub : string; issued_client_id : string }.

Definition GRANT_TOKEN_EXCHANGE : string := "urn:ietf:params:oauth:grant-type:token-exchange".
Definition TOKEN_TYPE_ID_JAG : string := "urn:ietf:params:oauth:token-type:id-jag".
Definition GRANT_JWT_BEARER : string := "urn:ietf:params:oauth:grant-type:jwt-bearer".
Definition CLIENT_ASSERTION_TYPE_JWT_BEARER : string := "urn:ietf:params:oauth:client-assertion-type:jwt-bearer".

Inductive TokenError :=
  | UnsupportedGrant (g : string)
  | MissingGrantType
  | MissingCode
  | MissingRedirectUri
  | MissingClientId
  | MissingCodeVerifier
  | MissingRefreshToken
  | InvalidCode
  | RedirectUriMismatch
  | ClientIdMismatch
  | PkceFailed
  | InvalidRefresh
  | MissingAssertion
  | InvalidAssertion
  | ReplayedAssertion
  | ClientAuthRequired
  | InvalidClient
  | UnsupportedTokenType
  | UntrustedAudience
  | UnknownResource
  | MissingSubjectToken
  | MissingSubjectTokenType
  | MissingAudience
  | MissingResource
  | InvalidSubjectToken
  | AccessDenied
  | Internal (text : string).

Definition token_error_text (e : TokenError) : string :=
  match e with
  | UnsupportedGrant g => "unsupported grant_type: " +:+ g
  | MissingGrantType => "missing `grant_type`"
  | MissingCode => "missing `code`"
  | MissingRedirectUri => "missing `redirect_uri`"
  | MissingClientId => "missing `client_id`"
  | MissingCodeVerifier => "missing `code_verifier`"
  | MissingRefreshToken => "missing `refresh_token`"
  | InvalidCode => "invalid_grant: code not found or expired"
  | RedirectUriMismatch => "invalid_grant: redirect_uri does not match"
  | ClientIdMismatch => "invalid_grant: client_id does not match"
  | PkceFailed => "invalid_grant: PKCE verification failed"
  | InvalidRefresh => "invalid_grant: refresh token unknown, expired, or revoked"
  | MissingAssertion => "missing `assertion`"
  | InvalidAssertion => "invalid_grant: ID-JAG assertion invalid, expired, or untrusted"
  | ReplayedAssertion => "invalid_grant: ID-JAG assertion already redeemed (replay)"
  | ClientAuthRequired => "invalid_client: client authentication required"
  | InvalidClient => "invalid_client: client authentication failed"
  | UnsupportedTokenType => "invalid_request: requested_token_type must be the ID-JAG token type"
  | UntrustedAudience => "invalid_target: audience is not a trusted Resource-AS issuer"
  | UnknownResource => "invalid_target: resource is not a known upstream"
  | MissingSubjectToken => "missing `subject_token`"
  | MissingSubjectTokenType => "missing `subject_token_type`"
  | MissingAudience => "missing `audience`"
  | MissingResource => "missing `resource`"
  | InvalidSubjectToken => "invalid_grant: subject_token invalid or not accepted"
  | AccessDenied => "access_denied: not permitted to obtain a cross-app access grant"
  | Internal t => "internal: " +:+ t
  end.

Definition audit_action (e : TokenError) : string :=
  match e with
  | UnsupportedGrant _ => "OAuthUnsupportedGrant"
  | MissingGrantType | MissingCode | MissingRedirectUri | MissingClientId | MissingCodeVerifier
  | MissingRefreshToken | MissingSubjectToken | MissingSubjectTokenType | MissingAudience
  | MissingResource | MissingAssertion => "OAuthMissingParameter"
  | UnsupportedTokenType => "OAuthUnsupportedTokenType"
  | UntrustedAudience => "OAuthUntrustedAudience"
  | UnknownResource => "OAuthUnknownResource"
  | InvalidSubjectToken => "OAuthInvalidSubjectToken"
  | InvalidAssertion => "OAuthInvalidAssertion"
  | ReplayedAssertion => "OAuthReplayedAssertion"
  | ClientAuthRequired => "OAuthClientAuthRequired"
  | InvalidClient => "OAuthInvalidClient"
  | AccessDenied => "OAuthAccessDenied"
  | InvalidCode => "OAuthInvalidCode"
  | RedirectUriMismatch => "OAuthRedirectUriMismatch"
  | ClientIdMismatch => "OAuthClientIdMismatch"
  | PkceFailed => "OAuthPkceFailed"
  | InvalidRefresh => "OAuthInvalidRefresh"
  | Internal _ => "OAuthInternal"
  end.

(** [IntoResponse for TokenError] *)
Definition error_status (e : TokenError) : Z * string :=
  match e with
  | UnsupportedGrant _ => (400, "unsupported_grant_type")
  | UnsupportedTokenType | MissingSubjectToken | MissingSubjectTokenType | MissingAudience
  | MissingResource | MissingAssertion => (400, "invalid_request")
  | AccessDenied => (403, "access_denied")
  | ClientAuthRequired | InvalidClient => (401, "invalid_client")
  | UntrustedAudience | UnknownResource => (400, "invalid_target")
  | Internal _ => (500, "server_error")
  | _ => (400, "invalid_grant")
  end.

Inductive TokenReply :=
  | Tokens (r : TokenResponse)
  | Exchanged (r : TokenExchangeResponse)
  | Redeemed (r : RedeemResponse)
  | TokenRejected (status : Z) (error description : string).

Record EmaDeps := { has_enricher : bool; has_verifier : bool; has_client_store : bool; has_peer_jwks : bool }.

(** [constant_time_eq]: the accumulated difference of the bytes. *)
Definition byte_diff (diff : N) (xy : ascii * ascii) : N :=
  N.lor diff (N.lxor (byte_val xy.1) (byte_val xy.2)).

Definition constant_time_eq (a b : bytes) : bool :=
  if negb (length a =? length b)%nat then false
  else (foldl byte_diff 0%N (combine a b) =? 0)%N.

Definition scim_blocks_request (p : Principal Value) : bool :=
  match enrichment_blocked p with
  | Some _ => true
  | None => match scim p with Some s => negb (sp_active s) | None => false end
  end.

Definition granted_scopes (requested : option string) (allowed principal_scopes : list string) : list string :=
  filter (λ s, s ∈ allowed ∧ s ∈ principal_scopes) (split_whitespace (default "" requested)).

Definition CROSS_ORG_FORBIDDEN : list string := ["mcp:admin"; "scim:write"].

Definition redeem_scopes (idjag_scope : string) (allowed : list string) (cross_org : bool) : list string :=
  filter (λ s, ¬ (cross_org = true ∧ s ∈ CROSS_ORG_FORBIDDEN))
    (filter (λ s, s ∈ allowed) (split_whitespace idjag_scope)).

Definition joined (scopes : list string) : option string :=
  match scopes with [] => None | _ => Some (String.concat " " scopes) end.

Section Token.
Context (lib : Library) (cfg : AsConfig) (ema : option EmaDeps).

(** ** [IdentityIssuer] *)

Definition mint_access_token (s : string) (e : option string) (gs : list string) (aud : string)
    (scs : list string) (client tenant : option string) : prog Seam (result string TokenError) :=
  let! now := Clock in
  let! signed := SignAccessToken {| at_iss := identity_issuer cfg; at_sub := s; at_aud := aud;
    at_iat := now / nanos_per_sec; at_exp := (now + seconds (access_token_ttl cfg)) / nanos_per_sec;
    at_email := e; at_groups := gs; at_scope := String.concat " " scs; at_client_id := client;
    at_tenant := tenant |} in
  match signed with
  | Ok t => succeeds t
  | Err text => fails (Internal ("mint access token: " +:+ text))
  end.

Definition store_err {A} (r : result A StoreError) : result A TokenError :=
  map_err (λ e, Internal (lib_store_error_text lib e)) r.

(** ** Authorization code *)

Definition mint_tokens (s : string) (e : option string) (gs scs : list string) (client tenant_id : string)
  : prog Seam (result TokenResponse TokenError) :=
  let* access := mint_access_token s e gs (audience cfg) scs (Some client) (Some tenant_id) in
  let! refresh_value := RandomToken in
  let! now := Clock in
  let! stored := InsertRefresh {| token := refresh_value; rt_sub := s; rt_email := e; rt_groups := gs;
    rt_scopes := scs; rt_client_id := client; rotated_from := None;
    rt_expires_at := now + seconds (refresh_token_ttl cfg); revoked_at := None; rt_tenant_id := tenant_id |} in
  match store_err stored with
  | Err err => fails err
  | Ok _ => succeeds {| access_token := access; expires_in := access_token_ttl cfg;
                        refresh_token := refresh_value; tk_scope := Some (String.concat " " scs);
                        tk_iss := issuer_url cfg |}
  end.

Definition check_code (ic : IssuedCode) (verifier redirect client : string) : result unit TokenError :=
  if negb (bool_decide (redirect_uri ic = redirect)) then Err RedirectUriMismatch
  else if negb (bool_decide (code_client_id ic = client)) then Err ClientIdMismatch
  else if negb (constant_time_eq (as_bytes (lib_s256 lib verifier)) (as_bytes (code_challenge ic)))
  then Err PkceFailed
  else Ok tt.

Definition handle_auth_code (req : TokenRequest) : prog Seam (result Issued TokenError) :=
  match rq_code req, rq_code_verifier req, rq_redirect_uri req, rq_client_id req with
  | None, _, _, _ => fails MissingCode
  | _, None, _, _ => fails MissingCodeVerifier
  | _, _, None, _ => fails MissingRedirectUri
  | _, _, _, None => fails MissingClientId
  | Some c, Some verifier, Some redirect, Some client =>
      let! taken := TakeCode c in
      match store_err taken with
      | Err err => fails err
      | Ok None => fails InvalidCode
      | Ok (Some ic) =>
          match check_code ic verifier redirect client with
          | Err err => fails err
          | Ok _ =>
              let* r := mint_tokens (code_sub ic) (code_email ic) (code_groups ic) (code_scopes ic)
                          (code_client_id ic) (code_tenant_id ic) in
              succeeds {| response := r; issued_sub := code_sub ic; issued_client_id := code_client_id ic |}
          end
      end
  end.

(** ** Refresh token *)

(** [revoke_chain] with [unwrap_or_default]. *)
Definition revoke_chain {A} (t : string) (k : prog Seam A) : prog Seam A :=
  let! chain := ReadChain t in
  match chain with
  | Err _ => k
  | Ok s => let! _ := RevokeTokens s in k
  end.

Definition successor_of (rt : RefreshToken) (predecessor refresh_value : string) (expires : time) : RefreshToken :=
  {| token := refresh_value; rt_sub := rt_sub rt; rt_email := rt_email rt; rt_groups := rt_groups rt;
     rt_scopes := rt_scopes rt; rt_client_id := rt_client_id rt; rotated_from := Some predecessor;
     rt_expires_at := expires; revoked_at := None; rt_tenant_id := rt_tenant_id rt |}.

Definition rotate (t : string) (rt : RefreshToken) : prog Seam (result Issued TokenError) :=
  let* access := mint_access_token (rt_sub rt) (rt_email rt) (rt_groups rt) (audience cfg) (rt_scopes rt)
                   (Some (rt_client_id rt)) (Some (rt_tenant_id rt)) in
  let! refresh_value := RandomToken in
  let! now := Clock in
  let! won := RotateRefresh t (successor_of rt t refresh_value (now + seconds (refresh_token_ttl cfg))) in
  match store_err won with
  | Err err => fails err
  | Ok false => fails InvalidRefresh
  | Ok true =>
      succeeds {| response := {| access_token := access; expires_in := access_token_ttl cfg;
                                 refresh_token := refresh_value;
                                 tk_scope := Some (String.concat " " (rt_scopes rt)); tk_iss := issuer_url cfg |};
                  issued_sub := rt_sub rt; issued_client_id := rt_client_id rt |}
  end.

Definition handle_refresh (req : TokenRequest) : prog Seam (result Issued TokenError) :=
  match rq_refresh_token req with
  | None => fails MissingRefreshToken
  | Some t =>
      let! found := FindRefresh t in
      match store_err found with
      | Err err => fails err
      | Ok None => fails InvalidRefresh
      | Ok (Some rt) =>
          match revoked_at rt with
          | Some _ => revoke_chain t (fails InvalidRefresh)
          | None =>
              let! now := Clock in
              if rt_expires_at rt <? now then fails InvalidRefresh else rotate t rt
          end
      end
  end.

Definition handle (req : TokenRequest) : prog Seam (result Issued TokenError) :=
  match grant_type req with
  | None => fails MissingGrantType
  | Some g =>
      if bool_decide (g = "authorization_code") then handle_auth_code req
      else if bool_decide (g = "refresh_token") then handle_refresh req
      else fails (UnsupportedGrant g)
  end.

(** ** Token exchange: an ID-JAG is minted *)

Definition bound_client (req : TokenRequest) (rs : ResolvedSubject) : result string TokenError :=
  match rs_client_id rs with
  | None => Err InvalidSubjectToken
  | Some authenticated =>
      match rq_client_id req with
      | Some form => if bool_decide (form = authenticated) then Ok authenticated else Err ClientIdMismatch
      | None => Ok authenticated
      end
  end.

Definition directory_member (p : Principal Value) : bool :=
  match scim p with Some s => sp_active s | None => false end.

Definition sign_id_jag (p : Principal Value) (aud resource client : string) (granted : list string)
  : prog Seam (result string TokenError) :=
  let! now := Clock in
  let! jti := RandomToken in
  let! signed := SignIdJag {| ij_jti := jti; ij_iss := identity_issuer cfg; ij_sub := sub p; ij_email := email p;
    ij_aud := aud; ij_resource := resource; ij_client_id := client; ij_iat := now / nanos_per_sec;
    ij_exp := (now + seconds (idjag_ttl cfg)) / nanos_per_sec; ij_scope := String.concat " " granted;
    ij_tenant := if bool_decide (tenant p = DEFAULT_TENANT) then None else Some (tenant p) |} in
  match signed with
  | Ok t => succeeds t
  | Err text => fails (Internal ("mint id-jag: " +:+ text))
  end.

(** The gates behind an authenticated, enriched subject. *)
Definition cross_app (p : Principal Value) (client aud resource : string) (requested : option string)
  : prog Seam (result (TokenExchangeResponse * string * string) TokenError) :=
  if scim_blocks_request p then fails AccessDenied
  else if idjag_require_scim cfg && negb (directory_member p) then fails AccessDenied
  else if negb (bool_decide (aud ∈ idjag_allowed_audiences cfg)) then fails UntrustedAudience
  else if negb (bool_decide (resource ∈ idjag_known_resources cfg)) then fails UnknownResource
  else
    let! allowed := AuthorizeCrossApp p client resource in
    if allowed : bool then
      let granted := granted_scopes requested (allowed_scopes cfg) (scopes p) in
      let* t := sign_id_jag p aud resource client granted in
      succeeds ({| te_access_token := t; te_scope := joined granted; te_expires_in := idjag_ttl cfg |}, sub p, client)
    else fails AccessDenied.

Definition mint_id_jag (req : TokenRequest)
  : prog Seam (result (TokenExchangeResponse * string * string) TokenError) :=
  match ema with
  | None => fails (UnsupportedGrant GRANT_TOKEN_EXCHANGE)
  | Some deps =>
      if negb (bool_decide (rq_requested_token_type req = Some TOKEN_TYPE_ID_JAG)) then fails UnsupportedTokenType
      else
        match rq_subject_token req, rq_subject_token_type req, rq_audience req, rq_resource req with
        | None, _, _, _ => fails MissingSubjectToken
        | _, None, _, _ => fails MissingSubjectTokenType
        | _, _, None, _ => fails MissingAudience
        | _, _, _, None => fails MissingResource
        | Some t, Some kind, Some aud, Some resource =>
            let! resolved := ResolveSubject kind t in
            match resolved with
            | None => fails InvalidSubjectToken
            | Some rs =>
                match bound_client req rs with
                | Err err => fails err
                | Ok client =>
                    if has_enricher deps then
                      let! p := Enrich (rs_principal rs) in cross_app p client aud resource (rq_scope req)
                    else cross_app (rs_principal rs) client aud resource (rq_scope req)
                end
            end
        end
  end.

(** ** JWT bearer: an ID-JAG is redeemed *)

Inductive ClientCredentials :=
  | Secret (client_id secret : string)
  | PrivateKeyJwt (assertion : string).

Definition parse_basic (header : string) : option (string * string) :=
  b64 ← (match strip_prefix "Basic " header with Some r => Some r | None => strip_prefix "basic " header end);
  s ← lib_base64_decode lib (trim b64);
  '(id, secret) ← split_once ":"%char s;
  Some (lib_form_decode lib id, lib_form_decode lib secret).

Definition extract (authorization client_id client_secret client_assertion client_assertion_type : option string)
  : option ClientCredentials :=
  match authorization ≫= parse_basic with
  | Some (id, secret) => Some (Secret id secret)
  | None =>
      let posted := match client_id, client_secret with
                    | Some id, Some secret => Some (Secret id secret)
                    | _, _ => None
                    end in
      if bool_decide (client_assertion_type = Some CLIENT_ASSERTION_TYPE_JWT_BEARER) then
        match client_assertion with Some a => Some (PrivateKeyJwt a) | None => posted end
      else posted
  end.

(** [authenticate_client]; every authentication failure becomes [InvalidClient], a storage
    failure an internal error. *)
Definition authenticate_client (creds : ClientCredentials) (audiences : list string)
  : prog Seam (result string TokenError) :=
  let registered id k :=
    let! got := GetClient id in
    match got with
    | Err e => fails (Internal ("client auth: " +:+ lib_store_error_text lib e))
    | Ok None => fails InvalidClient
    | Ok (Some c) => k c
    end in
  match creds with
  | Secret id secret =>
      registered id (λ c,
        match cc_secret_hash c with
        | None => fails InvalidClient
        | Some hash => if lib_verify_password lib secret hash then succeeds id else fails InvalidClient
        end)
  | PrivateKeyJwt assertion =>
      match lib_claimed_issuer lib assertion with
      | None => fails InvalidClient
      | Some claimed =>
          registered claimed (λ c,
            match cc_jwks c with
            | None => fails InvalidClient
            | Some jwks => if lib_verify_private_key_jwt lib assertion jwks claimed audiences
                           then succeeds claimed else fails InvalidClient
            end)
      end
  end.

(** The verified claims and the tenant the token is minted in: the assertion's own for one
    of ours, the peer record's for a peer's. *)
Definition verify_assertion (deps : EmaDeps) (assertion : string)
  : prog Seam (result (IdJagClaims * option string) TokenError) :=
  if bool_decide (lib_peek_unverified_issuer lib assertion = Some (issuer_url cfg)) then
    let! v := VerifySelfIdJag assertion in
    match v with Some c => succeeds (c, ij_tenant c) | None => fails InvalidAssertion end
  else if has_peer_jwks deps then
    let! v := VerifyPeerIdJag assertion in
    match v with Some (c, t) => succeeds (c, Some t) | None => fails InvalidAssertion end
  else fails InvalidAssertion.

(** [OffsetDateTime::from_unix_timestamp]: years up to 9999. *)
Definition timestamp_in_range (secs : Z) : bool := (-377705116800 <=? secs) && (secs <=? 253402300799).

Definition redeem_claims (c : IdJagClaims) (redeem_tenant : option string)
  : prog Seam (result (RedeemResponse * string * string) TokenError) :=
  if bool_decide (ij_resource c = audience cfg) || negb (bool_decide (ij_resource c ∈ idjag_known_resources cfg))
  then fails UnknownResource
  else if negb (timestamp_in_range (ij_exp c)) then fails (Internal ("id-jag exp out of range: " +:+ lib_range_error_text lib (ij_exp c)))
  else
    let! first := ClaimIdJagJti (ij_jti c) (seconds (ij_exp c)) in
    match store_err first with
    | Err err => fails err
    | Ok false => fails ReplayedAssertion
    | Ok true =>
        let cross_org := negb (bool_decide (ij_iss c = issuer_url cfg)) in
        let granted := redeem_scopes (ij_scope c) (allowed_scopes cfg) cross_org in
        let* access := mint_access_token (ij_sub c) (ij_email c) [] (ij_resource c) granted
                         (Some (ij_client_id c)) redeem_tenant in
        succeeds ({| rd_access_token := access; rd_expires_in := access_token_ttl cfg;
                     rd_scope := joined granted; rd_iss := issuer_url cfg |}, ij_sub c, ij_client_id c)
    end.

Definition redeem_id_jag (authorization : option string) (req : TokenRequest)
  : prog Seam (result (RedeemResponse * string * string) TokenError) :=
  match ema with
  | Some deps =>
      if negb (has_verifier deps) || negb (has_client_store deps) then fails (UnsupportedGrant GRANT_JWT_BEARER)
      else
        match rq_assertion req with
        | None => fails MissingAssertion
        | Some assertion =>
            match extract authorization (rq_client_id req) (rq_client_secret req) (rq_client_assertion req)
                    (rq_client_assertion_type req) with
            | None => fails ClientAuthRequired
            | Some creds =>
                let* client := authenticate_client creds [issuer_url cfg; absolute cfg "/oauth/token"] in
                let* v := verify_assertion deps assertion in
                if negb (bool_decide (ij_client_id v.1 = client)) then fails ClientIdMismatch
                else redeem_claims v.1 v.2
            end
        end
  | None => fails (UnsupportedGrant GRANT_JWT_BEARER)
  end.

(** ** The endpoint *)

(** The row and the reply of an outcome. *)
Definition answered {A} (action : string) (grant : option string) (claimed : option string)
    (reply : A → TokenReply) (who : A → string * string) (r : result A TokenError) : prog Seam TokenReply :=
  match r with
  | Ok a => record {| of_action := action; of_outcome := Success; of_client_id := Some (who a).2;
                      of_sub := Some (who a).1; of_grant_type := grant; of_detail := None |} (Ret (reply a))
  | Err e => record {| of_action := audit_action e; of_outcome := ExecutionError; of_client_id := claimed;
                       of_sub := None; of_grant_type := grant; of_detail := Some (token_error_text e) |}
               (Ret (TokenRejected (error_status e).1 (error_status e).2 (token_error_text e)))
  end.

Definition token_handler (authorization : option string) (req : TokenRequest) : prog Seam TokenReply :=
  if bool_decide (grant_type req = Some GRANT_TOKEN_EXCHANGE) then
    pbind (mint_id_jag req)
      (answered "OAuthIdJagIssued" (Some GRANT_TOKEN_EXCHANGE) (rq_client_id req)
         (λ a, Exchanged a.1.1) (λ a, (a.1.2, a.2)))
  else if bool_decide (grant_type req = Some GRANT_JWT_BEARER) then
    pbind (redeem_id_jag authorization req)
      (answered "OAuthJwtBearerRedeemed" (Some GRANT_JWT_BEARER) (rq_client_id req)
         (λ a, Redeemed a.1.1) (λ a, (a.1.2, a.2)))
  else
    pbind (handle req)
      (answered (if bool_decide (grant_type req = Some "refresh_token") then "OAuthTokenRefreshed" else "OAuthTokenIssued")
         (grant_type req) (rq_client_id req) (λ i, Tokens (response i)) (λ i, (issued_sub i, issued_client_id i))).

End Token.

(** ** The comparison of challenges *)

Lemma byte_diff_zero l : ∀ d, foldl byte_diff d l = 0%N ↔ d = 0%N ∧ Forall (λ xy, xy.1 = xy.2) l.
Proof.
  induction l as [|[x y] l IH]; intros d; cbn [foldl].
  { split; [intros ->; by split|by intros [-> _]]. }
  rewrite IH, Forall_cons. unfold byte_diff at 1. cbn [fst snd]. rewrite N.lor_eq_0_iff, N.lxor_eq_0_iff.
  assert (byte_val x = byte_val y ↔ x = y) as ->; [|naive_solver].
  split; [|by intros ->]. unfold byte_val. intros H. by rewrite <- (ascii_N_embedding x), <- (ascii_N_embedding y), H.
Qed.

Lemma constant_time_eq_spec a b : constant_time_eq a b = true ↔ a = b.
Proof.
  unfold constant_time_eq. destruct (Nat.eqb_spec (length a) (length b)) as [E|E]; cbn [negb].
  - rewrite N.eqb_eq, byte_diff_zero. revert b E. induction a as [|x a IH]; intros [|y b] E; cbn in E |- *; try done.
    injection E as E. rewrite Forall_cons. cbn. specialize (IH b E). naive_solver.
  - split; [done|]. by intros ->.
Qed.

End OauthToken.
