(* ===== verification/OauthRuns.v ===== *)
(** * Runs of the authorization server

    Requests run concurrently over one database. A request is a thread of one of
    the endpoint programs; a history is the sequence of the calls all threads
    made, each with its answer, in the order the database served them. A call of
    the store is served atomically at the current time, or fails: then it may or
    may not have been applied. Other calls are answered in any way. Time passes
    between calls. *)

From S2P Require Import Prelude RustStr Json Facts Evidence Interact Cimd OauthStore OauthFlow OauthToken.
From stdpp Require Import pretty.
Local Open Scope Z_scope.

Module OauthRuns.
Import Json.Json Facts.Facts Evidence.Evidence Interact.Interact Cimd.Cimd OauthStore.OauthStore OauthFlow.OauthFlow
  OauthToken.OauthToken.

(** ** Requests *)

Inductive Request :=
  | ReqAuthorize (q : AuthorizeQuery)
  | ReqCallback (q : CallbackQuery)
  | ReqConsentGet (t : string)
  | ReqConsentPost (t decision : string)
  | ReqToken (authorization : option string) (req : TokenRequest)
  | ReqRevokeSession (client_id sub : string)
  | ReqRevokeConsent (tenant sub client : string)
  | ReqSweep.

Section Runs.
Context (lib : Library) (cfg : AsConfig) (ema : option EmaDeps).

Definition quietly {A} (p : prog Seam A) : prog Seam unit := pbind p (λ _, Ret tt).

(** [OauthStore::sweep_expired]: the tables in turn; an error ends the sweep. *)
Fixpoint sweeps (l : list Swept) : prog Seam unit :=
  match l with
  | [] => Ret tt
  | t :: l => let! r := SweepExpired t in match r with Ok _ => sweeps l | Err _ => Ret tt end
  end.

Definition acts (r : Request) : prog Seam unit :=
  match r with
  | ReqAuthorize q => quietly (authorize_handle lib cfg q)
  | ReqCallback q => quietly (callback_handler lib cfg q)
  | ReqConsentGet t => quietly (consent_get t)
  | ReqConsentPost t d => quietly (consent_post cfg t d)
  | ReqToken a req => quietly (token_handler lib cfg ema a req)
  | ReqRevokeSession c s => let! _ := RevokeByClientSub c s in Ret tt
  | ReqRevokeConsent t s c => let! _ := RevokeConsent t s c in Ret tt
  | ReqSweep => sweeps [Transactions; Codes; RefreshTokens; ConsentPending; IdJagJti]
  end.

(** ** The database *)

(** How the store answers a call; [None] for a call that is not the store's. *)
Definition serve (now : time) (s : Seam) (db : Db) : option (answer s * Db) :=
  match s return option (answer s * Db) with
  | InsertTransaction t => Some (insert_transaction t db)
  | TakeTransaction id => Some (take_transaction now id db)
  | InsertCode c => Some (insert_code c db)
  | TakeCode c => Some (take_code now c db)
  | InsertRefresh r => Some (insert_refresh now r db)
  | FindRefresh t => Some (find_refresh t db, db)
  | ReadChain t => Some (Ok (read_chain t db), db)
  | RevokeTokens s => Some (revoke_tokens now s db)
  | RotateRefresh p r => Some (rotate_refresh now p r db)
  | RevokeByClientSub c s => Some (revoke_by_client_sub now c s db)
  | ClaimIdJagJti j t => Some (claim_id_jag_jti j t db)
  | InsertPending p => Some (insert_pending p db)
  | GetPending t => Some (get_pending now t db, db)
  | TakePending t => Some (take_pending now t db)
  | UpsertConsent g => Some (upsert_consent now g db)
  | FindActive t s c => Some (find_active now t s c db, db)
  | RevokeConsent t s c => Some (revoke_consent now t s c db)
  | SweepExpired t => Some (sweep_expired now t db)
  | Clock => Some (now, db)
  | _ => None
  end.

(** The answer of a store call that fails. *)
Definition failed (s : Seam) : option (answer s) :=
  match s return option (answer s) with
  | InsertTransaction _ | TakeTransaction _ | InsertCode _ | TakeCode _ | InsertRefresh _ | FindRefresh _
  | ReadChain _ | RevokeTokens _ | RotateRefresh _ _ | RevokeByClientSub _ _ | ClaimIdJagJti _ _
  | InsertPending _ | GetPending _ | TakePending _ | UpsertConsent _ | FindActive _ _ _
  | RevokeConsent _ _ _ | SweepExpired _ => Some (Err Sqlx)
  | _ => None
  end.

Record World := { clock : time; db : Db }.

(** One call of a thread. *)
Inductive answers (w : World) (s : Seam) : answer s → Db → Prop :=
  | answers_served x db' : serve (clock w) s (db w) = Some (x, db') → answers w s x db'
  | answers_failed x x' db' : failed s = Some x → serve (clock w) s (db w) = Some (x', db') →
      answers w s x (db w)
  | answers_failed_applied x x' db' : failed s = Some x → serve (clock w) s (db w) = Some (x', db') →
      answers w s x db'
  | answers_other x : serve (clock w) s (db w) = None → answers w s x (db w).

(** A history: what every thread called, in the order of the database. *)
Definition history : Type := list (nat * event Seam).

Inductive runs_to (w : World) : history → World → Prop :=
  | runs_nil : runs_to w [] w
  | runs_tick h w1 now' : runs_to w h w1 → clock w1 ≤ now' → runs_to w h {| clock := now'; db := db w1 |}
  | runs_event h w1 i s x db' : runs_to w h w1 → answers w1 s x db' →
      runs_to w (h ++ [(i, Event s x)]) {| clock := clock w1; db := db' |}.

(** The threads of a history are requests to the server. *)
Definition serves (threads : list Request) (h : history) : Prop :=
  ∀ i e, (i, e) ∈ h → ∃ r, threads !! i = Some r ∧ partial (acts r) (of_thread i h).

Lemma serves_prefix threads h1 h2 : serves threads (h1 ++ h2) → serves threads h1.
Proof.
  intros H i e Hin. destruct (H i e) as (r & Hr & Hp); [apply elem_of_app; by left|].
  exists r. split; [done|]. rewrite of_thread_app in Hp. by eapply partial_prefix.
Qed.

(** What a guard asks of a call holds of what its thread did before. *)
Lemma guarded threads (Q : Request → list (event Seam) → Seam → Prop) h1 i s x h2 :
  (∀ r, guards (acts r) (Q r) []) → serves threads (h1 ++ (i, Event s x) :: h2) →
  ∃ r, threads !! i = Some r ∧ Q r (of_thread i h1) s.
Proof.
  intros HQ H. destruct (H i (Event s x)) as (r & Hr & Hp); [apply elem_of_app; right; left|].
  exists r. split; [done|]. rewrite thread_split in Hp. by eapply (guards_sound _ _ []).
Qed.

(** Induction over a history: invariants of the world and the past. *)
Lemma runs_ind' (w0 : World) (I : history → World → Prop) :
  I [] w0 →
  (∀ h w now', runs_to w0 h w → I h w → clock w ≤ now' → I h {| clock := now'; db := db w |}) →
  (∀ h w i s x db', runs_to w0 h w → I h w → answers w s x db' →
     I (h ++ [(i, Event s x)]) {| clock := clock w; db := db' |}) →
  ∀ h w, runs_to w0 h w → I h w.
Proof. intros H0 Ht He h w H. induction H; eauto. Qed.

End Runs.

(** ** Walking through a program *)

Lemma store_err_ok {A} lib (r : result A StoreError) a : store_err lib r = Ok a → r = Ok a.
Proof. destruct r; cbn; congruence. Qed.

Ltac here := repeat (rewrite elem_of_app || rewrite elem_of_cons); tauto.

Ltac case_head p :=
  match p with
  | pbind ?q _ => case_head q
  | and_then ?q _ => case_head q
  | match ?x with _ => _ end => destruct x eqn:?
  end.

(** Walk through a program: its calls with their answers, the tests between them. *)
Ltac walk :=
  repeat first
    [ exact I
    | progress cbn [guards and_then pbind succeeds fails record answered revoke_chain sweeps]
    | match goal with |- _ ∧ (∀ _, _) => split; [try exact I|intros ?] end
    | match goal with H : store_err _ _ = Ok _ |- _ => apply store_err_ok in H; subst end
    | match goal with |- guards ?p _ _ => case_head p end ].

End OauthRuns.

(** * A small authorization server to run

    Collaborators with fixed answers and a sequential driver that runs requests to
    completion, one after another, on the tables; its histories are histories of
    the server. *)

Module OauthDemo.
Import Json.Json Facts.Facts Evidence.Evidence Interact.Interact Cimd.Cimd OauthStore.OauthStore OauthFlow.OauthFlow
  OauthToken.OauthToken OauthRuns.

Section Drive.
Context (lib : Library) (cfg : AsConfig) (ema : option EmaDeps) (oracle : nat → ∀ s, answer s).

(** One request; [n] calls were made before. *)
Fixpoint drive (i n : nat) (p : prog Seam unit) (w : World) : history * World :=
  match p with
  | Ret _ => ([], w)
  | Call s k =>
      let '(x, d) := match serve (clock w) s (db w) with
                     | Some (x, d) => (x, d)
                     | None => (oracle n s, db w)
                     end in
      let '(h, w') := drive i (S n) (k x) {| clock := clock w; db := d |} in
      ((i, Event s x) :: h, w')
  end.

Fixpoint drive_all (i n : nat) (l : list Request) (w : World) : history * World :=
  match l with
  | [] => ([], w)
  | r :: l =>
      let '(h, w') := drive i n (acts lib cfg ema r) w in
      let '(h', w'') := drive_all (S i) (n + length h) l w' in
      (h ++ h', w'')
  end.

Lemma drive_runs w0 i p : ∀ h n w, runs_to w0 h w → runs_to w0 (h ++ (drive i n p w).1) (drive i n p w).2.
Proof.
  induction p as [a|s k IH]; intros h n w Hr; cbn; [by rewrite app_nil_r|].
  destruct (serve (clock w) s (db w)) as [[x d]|] eqn:E.
  - specialize (IH x (h ++ [(i, Event s x)]) (S n) {| clock := clock w; db := d |}).
    destruct (drive i (S n) (k x) _) as [h' w'] eqn:Ed. cbn in IH |- *. rewrite <- app_assoc in IH. apply IH.
    constructor; [done|by constructor].
  - specialize (IH (oracle n s) (h ++ [(i, Event s (oracle n s))]) (S n) {| clock := clock w; db := db w |}).
    destruct (drive i (S n) (k _) _) as [h' w'] eqn:Ed. cbn in IH |- *. rewrite <- app_assoc in IH. apply IH.
    constructor; [done|by constructor].
Qed.

Lemma drive_all_runs w0 l : ∀ i n h w, runs_to w0 h w → runs_to w0 (h ++ (drive_all i n l w).1) (drive_all i n l w).2.
Proof.
  induction l as [|r l IH]; intros i n h w Hr; cbn; [by rewrite app_nil_r|].
  pose proof (drive_runs _ i (acts lib cfg ema r) _ n _ Hr) as Hd. destruct (drive _ _ _ _) as [h1 w1]. cbn in Hd.
  pose proof (IH (S i) (n + length h1)%nat _ _ Hd) as Hall. destruct (drive_all _ _ _ _) as [h2 w2]. cbn in Hall |- *.
  by rewrite app_assoc.
Qed.

Lemma drive_from_start l i n w : runs_to w (drive_all i n l w).1 (drive_all i n l w).2.
Proof. exact (drive_all_runs w l i n [] w (runs_nil w)). Qed.

Lemma drive_partial i p : ∀ n w, partial p (of_thread i (drive i n p w).1) ∧
  ∀ j, j ≠ i → of_thread j (drive i n p w).1 = [].
Proof.
  induction p as [a|s k IH]; intros n w; cbn; [split; [constructor|done]|].
  destruct (serve (clock w) s (db w)) as [[x d]|].
  - destruct (IH x (S n) {| clock := clock w; db := d |}) as [H1 H2].
    destruct (drive i (S n) (k x) _) as [h' w']. cbn in *. rewrite Nat.eqb_refl. split; [by constructor|].
    intros j Hj. apply Nat.eqb_neq in Hj as Hj'. rewrite Hj'. by apply H2.
  - destruct (IH (oracle n s) (S n) {| clock := clock w; db := db w |}) as [H1 H2].
    destruct (drive i (S n) (k _) _) as [h' w']. cbn in *. rewrite Nat.eqb_refl. split; [by constructor|].
    intros j Hj. apply Nat.eqb_neq in Hj as Hj'. rewrite Hj'. by apply H2.
Qed.

Lemma drive_all_partial l : ∀ i n w j, of_thread j (drive_all i n l w).1 = [] ∨
  ∃ r, (i ≤ j)%nat ∧ l !! (j - i)%nat = Some r ∧ partial (acts lib cfg ema r) (of_thread j (drive_all i n l w).1).
Proof.
  induction l as [|r l IH]; intros i n w j; cbn; [by left|].
  destruct (drive_partial i (acts lib cfg ema r) n w) as [H1 H2]. destruct (drive _ _ _ _) as [h1 w1]. cbn in *.
  pose proof (IH (S i) (n + length h1)%nat w1) as Hj. destruct (drive_all _ _ _ _) as [h2 w2]. cbn in *.
  rewrite of_thread_app. destruct (decide (j = i)) as [->|Hne].
  - right. exists r. rewrite Nat.sub_diag. destruct (Hj i) as [->|(? & ? & _)]; [|lia]. by rewrite app_nil_r.
  - rewrite (H2 j Hne). cbn. destruct (Hj j) as [?|(r' & Hle & Hl & Hp)]; [by left|]. right. exists r'.
    replace (j - i)%nat with (S (j - S i)) by lia. split_and!; [lia|done..].
Qed.

Lemma drive_all_serves l w : serves lib cfg ema l (drive_all 0 0 l w).1.
Proof.
  intros i e Hin%elem_of_thread. destruct (drive_all_partial l 0 0 w i) as [E|(r & _ & Hl & Hp)].
  - rewrite E in Hin. inversion Hin.
  - exists r. by rewrite Nat.sub_0_r in Hl.
Qed.

End Drive.

(** ** The deployment *)

Definition demo_url (s : string) : option Url :=
  if bool_decide (s = "https://app.test/client.json") then
    Some {| scheme := "https"; username := ""; password := None; host_str := Some "app.test"; port_or_known_default := Some 443;
            url_path := "/client.json"; query := None; fragment := None |}
  else if bool_decide (s = "https://app.test/cb") then
    Some {| scheme := "https"; username := ""; password := None; host_str := Some "app.test"; port_or_known_default := Some 443;
            url_path := "/cb"; query := None; fragment := None |}
  else None.

(** The digest is the identity: a verifier proves a challenge when they are equal. *)
Definition demo_lib : Library :=
  {| lib_url_parse := demo_url; lib_store_error_text := λ _, "store"; lib_cimd_error_text := λ _, "cimd";
     lib_authorize_url := λ id challenge, "https://idp.test/authorize?state=" +:+ id; lib_s256 := λ v, v;
     lib_range_error_text := λ _, "range"; lib_tokens_json := λ _, Ok tt;
     lib_peek_unverified_issuer := λ _, Some "https://gw.test"; lib_base64_decode := λ s, Some s;
     lib_form_decode := λ s, s; lib_verify_password := λ s h, bool_decide (s = h);
     lib_claimed_issuer := λ _, None; lib_verify_private_key_jwt := λ _ _ _ _, false |}.

Definition demo_config (consent : bool) : AsConfig :=
  {| public_url := "https://gw.test/"; audience := "https://gw.test/mcp"; upstream_issuer := "https://idp.test";
     identity_issuer := "https://gw.test"; access_token_ttl := 600; refresh_token_ttl := 86400;
     transaction_ttl := 600; code_ttl := 60; allowed_scopes := ["mcp:invoke"; "mcp:admin"];
     require_explicit_consent := consent; idjag_ttl := 300; idjag_require_scim := false;
     idjag_allowed_audiences := []; idjag_known_resources := ["https://crm.test"]; idjag_trusted_issuers := [] |}.

Definition demo_principal : Principal Value :=
  {| sub := "alice"; email := Some "alice@corp.test"; groups := ["sales"]; issuer := "https://idp.test";
     scopes := []; tenant := "corp"; auth_method := Oauth; raw_token := None; scim := None;
     enrichment_blocked := None; roles := []; api_key_profile_restrictions := None |}.

Definition demo_document : CimdDocument :=
  {| doc_client_id := "https://app.test/client.json"; client_name := Some "App"; redirect_uris := ["https://app.test/cb"];
     token_endpoint_auth_method := "none"; grant_types := ["authorization_code"; "refresh_token"];
     response_types := ["code"]; doc_scope := None; client_uri := None; logo_uri := None; tos_uri := None;
     policy_uri := None; software_id := None; software_version := None |}.

Definition demo_assertion : IdJagClaims :=
  {| ij_jti := "jag-1"; ij_iss := "https://gw.test"; ij_sub := "alice"; ij_email := None; ij_aud := "https://gw.test";
     ij_resource := "https://crm.test"; ij_client_id := "crm-app"; ij_iat := 1000; ij_exp := 1300;
     ij_scope := "mcp:invoke other"; ij_tenant := None |}.

Definition demo_oracle (n : nat) (s : Seam) : answer s :=
  match s with
  | InsertTransaction _ | InsertCode _ | InsertRefresh _ | InsertPending _ | UpsertConsent _
  | UpsertSession _ => Ok tt
  | TakeTransaction _ => Ok None
  | TakeCode _ => Ok None
  | FindRefresh _ => Ok None
  | ReadChain _ => Ok ∅
  | RevokeTokens _ | RevokeByClientSub _ _ | SweepExpired _ => Ok 0
  | RotateRefresh _ _ | ClaimIdJagJti _ _ | RevokeConsent _ _ _ => Ok false
  | GetPending _ | TakePending _ => Ok None
  | FindActive _ _ _ => Ok None
  | GetClient id => Ok (Some {| cc_client_id := id; cc_secret_hash := Some "hunter2"; cc_jwks := None |})
  | Clock => 0
  | RandomToken => "r" +:+ pretty n
  | NewPkcePair => ("verifier", "challenge")
  | FetchCimd _ => Ok demo_document
  | ExchangeCode _ _ => Ok {| ut_access_token := "a"; ut_refresh_token := None; ut_id_token := Some "id";
                              ut_expires_in := None; ut_scope := None |}
  | ValidateIdToken _ => Ok demo_principal
  | EncryptTokens _ => Ok ("ciphertext", "key")
  | SignAccessToken _ | SignIdJag _ => Ok "jwt"
  | ResolveSubject _ _ => None
  | Enrich p => p
  | AuthorizeCrossApp _ _ _ => true
  | VerifySelfIdJag _ => Some demo_assertion
  | VerifyPeerIdJag _ => None
  | NewEvent => (1%N, 0)
  | RecordChained _ => tt
  end.

Definition demo_query : AuthorizeQuery :=
  {| aq_client_id := "https://app.test/client.json"; aq_redirect_uri := "https://app.test/cb"; aq_response_type := "code";
     aq_scope := Some "mcp:invoke"; aq_state := Some "s"; aq_code_challenge := "secret"; aq_code_challenge_method := "S256";
     aq_resource := None |}.

Definition demo_callback (state : string) : CallbackQuery :=
  {| cq_code := Some "upstream"; cq_state := Some state; cq_error := None; cq_error_description := None |}.

Definition demo_grant (grant : string) : TokenRequest :=
  {| grant_type := Some grant; rq_code := None; rq_redirect_uri := None; rq_client_id := None; rq_code_verifier := None;
     rq_refresh_token := None; rq_subject_token := None; rq_subject_token_type := None; rq_requested_token_type := None;
     rq_audience := None; rq_resource := None; rq_scope := None; rq_assertion := None; rq_client_secret := None;
     rq_client_assertion := None; rq_client_assertion_type := None |}.

Definition redeem_request (c : string) : TokenRequest :=
  {| grant_type := Some "authorization_code"; rq_code := Some c; rq_redirect_uri := Some "https://app.test/cb";
     rq_client_id := Some "https://app.test/client.json"; rq_code_verifier := Some "secret";
     rq_refresh_token := None; rq_subject_token := None; rq_subject_token_type := None; rq_requested_token_type := None;
     rq_audience := None; rq_resource := None; rq_scope := None; rq_assertion := None; rq_client_secret := None;
     rq_client_assertion := None; rq_client_assertion_type := None |}.

Definition refresh_request (t : string) : TokenRequest :=
  {| grant_type := Some "refresh_token"; rq_code := None; rq_redirect_uri := None; rq_client_id := None;
     rq_code_verifier := None; rq_refresh_token := Some t; rq_subject_token := None; rq_subject_token_type := None;
     rq_requested_token_type := None; rq_audience := None; rq_resource := None; rq_scope := None; rq_assertion := None;
     rq_client_secret := None; rq_client_assertion := None; rq_client_assertion_type := None |}.

Definition assertion_request : TokenRequest :=
  {| grant_type := Some GRANT_JWT_BEARER; rq_code := None; rq_redirect_uri := None; rq_client_id := Some "crm-app";
     rq_code_verifier := None; rq_refresh_token := None; rq_subject_token := None; rq_subject_token_type := None;
     rq_requested_token_type := None; rq_audience := None; rq_resource := None; rq_scope := None;
     rq_assertion := Some "assertion"; rq_client_secret := Some "hunter2"; rq_client_assertion := None;
     rq_client_assertion_type := None |}.

Definition demo_world : World := {| clock := seconds 1000; db := empty_db |}.
Definition demo_ema : option EmaDeps :=
  Some {| has_enricher := false; has_verifier := true; has_client_store := true; has_peer_jwks := false |}.

(** A sign-in with the consent screen, the redemption of the code, a refresh, and the
    redemption of an assertion. *)
Definition demo_requests : list Request :=
  [ReqAuthorize demo_query; ReqCallback (demo_callback "r2"); ReqConsentPost "r13" "approve";
   ReqToken None (redeem_request "r21"); ReqToken None (refresh_request "r29");
   ReqToken None assertion_request].

Definition demo_history : history := (drive_all demo_lib (demo_config true) demo_ema demo_oracle 0 0 demo_requests demo_world).1.
Definition demo_end : World := (drive_all demo_lib (demo_config true) demo_ema demo_oracle 0 0 demo_requests demo_world).2.

Lemma demo_server_runs : runs_to demo_world demo_history demo_end.
Proof. apply drive_from_start. Qed.

Lemma demo_serves : serves demo_lib (demo_config true) demo_ema demo_requests demo_history.
Proof. apply drive_all_serves. Qed.

(** The claims signed by the [n]th call. *)
Definition signed (h : history) (n : nat) : option AccessTokenClaims :=
  match h !! n with
  | Some (_, Event (SignAccessToken a) _) => Some a
  | _ => None
  end.

Definition no_claims : AccessTokenClaims :=
  {| at_iss := ""; at_sub := ""; at_aud := ""; at_iat := 0; at_exp := 0; at_email := None; at_groups := [];
     at_scope := ""; at_client_id := None; at_tenant := None |}.

(** The token of the refresh and the token of the assertion. *)
Definition refreshed_claims : AccessTokenClaims := default no_claims (signed demo_history 37).
Definition crossed_claims : AccessTokenClaims := default no_claims (signed demo_history 47).

Lemma refreshed_in_demo : (4%nat, Event (SignAccessToken refreshed_claims) (Ok "jwt")) ∈ demo_history.
Proof. apply (list_elem_of_lookup_2 _ 37). vm_compute. reflexivity. Qed.

Lemma crossed_in_demo : (5%nat, Event (SignAccessToken crossed_claims) (Ok "jwt")) ∈ demo_history.
Proof. apply (list_elem_of_lookup_2 _ 47). vm_compute. reflexivity. Qed.
End OauthDemo.
