(* ===== verification/OauthTables.v ===== *)
(** * Where the rows of the authorization server come from

    Facts about histories that need only the store: a row of a table was
    inserted by an earlier call, a value that is taken was stored, and what is
    taken is gone. *)

From S2P Require Import Prelude RustStr Json Facts Evidence Interact Cimd OauthStore OauthFlow OauthToken OauthRuns.

Module OauthTables.
Import Json.Json Facts.Facts Evidence.Evidence Interact.Interact Cimd.Cimd OauthStore.OauthStore OauthFlow.OauthFlow
  OauthToken.OauthToken OauthRuns.OauthRuns.

(** ** Splitting a history at a call *)

Lemma runs_split w0 h1 i s x h2 w :
  runs_to w0 (h1 ++ (i, Event s x) :: h2) w →
  ∃ w1 db', runs_to w0 h1 w1 ∧ answers w1 s x db' ∧ clock w1 ≤ clock w.
Proof.
  intros H. remember (h1 ++ (i, Event s x) :: h2) as h eqn:Eh. revert h2 Eh.
  induction H as [|h w1 now' H IH Hle|h w1 j s' x' db' H IH Ha]; intros h2 Eh.
  - by destruct h1.
  - destruct (IH h2 Eh) as (w2 & db2 & ? & ? & ?). exists w2, db2. split_and!; [done..|]. cbn. lia.
  - destruct h2 as [|e h2 _] using rev_ind.
    + apply app_inj_tail in Eh as [-> Eh]. assert (E : Event s' x' = Event s x) by congruence.
      change (answers w1 (ev_call (Event s' x')) (ev_answer (Event s' x')) db') in Ha. rewrite E in Ha.
      exists w1, db'. cbn. split_and!; [done..|lia].
    + rewrite app_comm_cons, app_assoc in Eh. apply app_inj_tail in Eh as [-> _].
      destruct (IH h2 eq_refl) as (w2 & db2 & ? & ? & ?). exists w2, db2. by split_and!.
Qed.

(** The database the store leaves. *)
Definition after (now : time) (s : Seam) (d : Db) : Db :=
  match serve now s d with Some (_, d') => d' | None => d end.

Lemma answers_db w s x db' : answers w s x db' → db' = db w ∨ db' = after (clock w) s (db w).
Proof. unfold after. destruct 1 as [x db' H|? ? ? ? H|? ? ? ? H|]; try rewrite H; eauto. Qed.

Lemma answers_inv w s x db' : answers w s x db' →
  match serve (clock w) s (db w) with
  | Some (y, d) => (x = y ∧ db' = d) ∨ (failed s = Some x ∧ (db' = db w ∨ db' = d))
  | None => db' = db w
  end.
Proof. destruct 1 as [x db' H|? ? ? ? H|? ? ? ? H|x H]; rewrite H; eauto. Qed.

(** ** Lookups in the tables after a primitive *)

Lemma insert_key_lookup {V} k v (m m' : gmap string V) j r :
  insert_key k v m = Some m' → m' !! j = Some r → m !! j = Some r ∨ j = k ∧ r = v.
Proof.
  unfold insert_key. destruct (m !! k); [done|]. intros [= <-] Hj.
  destruct (decide (j = k)) as [->|Hjk]; [rewrite lookup_insert_eq in Hj|rewrite lookup_insert_ne in Hj by done];
    naive_solver.
Qed.

Lemma take_live_lookup {V} (ex : V → Z) now k (m : gmap string V) j r :
  (take_live ex now k m).2 !! j = Some r → m !! j = Some r.
Proof.
  unfold take_live. destruct (m !! k); [|done]. destruct (_ <? _); [|done]. cbn.
  intros [_ ?]%lookup_delete_Some. done.
Qed.

Lemma take_live_Some {V} (ex : V → Z) now k (m : gmap string V) r :
  (take_live ex now k m).1 = Some r → m !! k = Some r ∧ now < ex r ∧ (take_live ex now k m).2 = delete k m.
Proof.
  unfold take_live. destruct (m !! k) as [v|]; [|done]. destruct (Z.ltb_spec now (ex v)); [|done].
  by intros [= ->].
Qed.

Lemma sweep_lookup {V} (ex : V → Z) now (m : gmap string V) j r :
  sweep ex now m !! j = Some r → m !! j = Some r.
Proof. unfold sweep. by intros [? _]%map_lookup_filter_Some. Qed.

(** ** One call, one table *)

(** The cases of a call that can change the table looked up in [H]. *)
Ltac after_cases H :=
  unfold after in H; cbn in H;
  unfold insert_transaction, take_transaction, insert_code, take_code, insert_refresh, find_refresh,
    revoke_tokens, rotate_refresh, revoke_by_client_sub, claim_id_jag_jti, insert_pending, take_pending,
    upsert_consent, revoke_consent, sweep_expired in H;
  repeat (case_match; simplify_eq/=); try done; eauto.

(** What is left of a lookup after a primitive. *)
Ltac table_cases :=
  match goal with
  | H : insert_key _ _ _ = Some ?m, Hk : ?m !! _ = Some _ |- _ =>
      destruct (insert_key_lookup _ _ _ _ _ _ H Hk) as [?|[-> ->]]; eauto
  | H : take_live _ _ _ _ = (_, ?m), Hk : ?m !! _ = Some _ |- _ =>
      left; eapply take_live_lookup; rewrite H; exact Hk
  | Hk : sweep _ _ _ !! _ = Some _ |- _ => left; by eapply sweep_lookup
  end.

Lemma transactions_after now s d k row :
  oauth_transactions (after now s d) !! k = Some row →
  oauth_transactions d !! k = Some row ∨ ∃ t, s = InsertTransaction t ∧ k = txn_id t ∧ row = transaction_row t.
Proof. intros Hk. destruct s; after_cases Hk; table_cases. Qed.

Lemma codes_after now s d k row :
  oauth_codes (after now s d) !! k = Some row →
  oauth_codes d !! k = Some row ∨ ∃ c, s = InsertCode c ∧ k = code c ∧ row = code_row c.
Proof. intros Hk. destruct s; after_cases Hk; table_cases. Qed.

Lemma pending_after now s d k row :
  oauth_consent_pending (after now s d) !! k = Some row →
  oauth_consent_pending d !! k = Some row ∨ ∃ p, s = InsertPending p ∧ k = pc_token p ∧ row = pending_row p.
Proof. intros Hk. destruct s; after_cases Hk; table_cases. Qed.

Lemma consent_after now s d k row :
  oauth_consent (after now s d) !! k = Some row →
  (∃ row0, oauth_consent d !! k = Some row0 ∧ cg_scopes row = cg_scopes row0) ∨
  ∃ g, s = UpsertConsent g ∧ k = (ng_tenant_id g, ng_principal_sub g, ng_client_id g) ∧ cg_scopes row = ng_scopes g.
Proof.
  intros Hk. destruct s; after_cases Hk; apply lookup_insert_Some in Hk as [[<- <-]|[_ Hk]]; eauto.
Qed.

(** ** What a grant is about *)

Record Grant := {
  g_sub : string;
  g_email : option string;
  g_groups : list string;
  g_tenant : string;
  g_client : string;
  g_scopes : list string;
}.

Definition grant_of_login (txn : Transaction) (p : Principal Value) : Grant := {|
  g_sub := sub p; g_email := email p; g_groups := groups p; g_tenant := tenant p;
  g_client := txn_client_id txn; g_scopes := txn_scopes txn |}.
Definition grant_of_pending (p : PendingConsent) : Grant := {|
  g_sub := pc_principal_sub p; g_email := pc_principal_email p; g_groups := pc_principal_groups p;
  g_tenant := pc_tenant_id p; g_client := pc_client_id p; g_scopes := pc_scopes p |}.
Definition grant_of_code (c : IssuedCode) : Grant := {|
  g_sub := code_sub c; g_email := code_email c; g_groups := code_groups c; g_tenant := code_tenant_id c;
  g_client := code_client_id c; g_scopes := code_scopes c |}.
Definition grant_of_refresh (r : RefreshToken) : Grant := {|
  g_sub := rt_sub r; g_email := rt_email r; g_groups := rt_groups r; g_tenant := rt_tenant_id r;
  g_client := rt_client_id r; g_scopes := rt_scopes r |}.

Lemma code_row_grant c : grant_of_code (code_of_row (code_row c)) = grant_of_code c.
Proof. unfold grant_of_code. cbn -[json_to_str_vec strings_json]. by rewrite !strings_json_back. Qed.
Lemma refresh_row_grant now r : grant_of_refresh (refresh_of_row (refresh_row now r)) = grant_of_refresh r.
Proof. unfold grant_of_refresh. cbn -[json_to_str_vec strings_json]. by rewrite !strings_json_back. Qed.

Definition row_grant (r : RefreshTokenRow) : Grant := grant_of_refresh (refresh_of_row r).

Lemma revoke_where_lookup now p m k row :
  revoke_where now p m !! k = Some row →
  ∃ row0, m !! k = Some row0 ∧ (row = row0 ∨ row = set_revoked now row0).
Proof.
  unfold revoke_where. rewrite lookup_fmap. destruct (m !! k) as [row0|]; [|done]. cbn. intros [= <-].
  exists row0. split; [done|]. destruct (p row0 && unrevoked row0); auto.
Qed.

Lemma revoke_where_grant now p m k row :
  revoke_where now p m !! k = Some row → ∃ row0, m !! k = Some row0 ∧ row_grant row = row_grant row0.
Proof. intros (row0 & H & [->| ->])%revoke_where_lookup; eauto. Qed.

Lemma insert_refresh_row_lookup now r m m' k row :
  insert_refresh_row now r m = Some m' → m' !! k = Some row → m !! k = Some row ∨ k = token r ∧ row = refresh_row now r.
Proof. unfold insert_refresh_row. destruct (refers r m); [|done]. apply insert_key_lookup. Qed.

Lemma sweep_refresh_lookup now m k row :
  sweep_refresh now m !! k = Some row →
  ∃ row0, m !! k = Some row0 ∧ row = clear_dangling (sweep rr_expires_at now m) row0.
Proof.
  unfold sweep_refresh. rewrite lookup_fmap. destruct (sweep rr_expires_at now m !! k) as [row0|] eqn:E; [|done].
  cbn. intros [= <-]. exists row0. split; [by eapply sweep_lookup|done].
Qed.

(** The refresh token a call stores. *)
Definition inserted (s : Seam) : option RefreshToken :=
  match s with InsertRefresh r | RotateRefresh _ r => Some r | _ => None end.

Lemma refresh_after now s d k row :
  oauth_refresh_tokens (after now s d) !! k = Some row →
  (∃ row0, oauth_refresh_tokens d !! k = Some row0 ∧ row_grant row = row_grant row0) ∨
  ∃ r, inserted s = Some r ∧ k = token r ∧ row_grant row = grant_of_refresh r.
Proof.
  intros Hk. destruct s; after_cases Hk; try (left; by eapply revoke_where_grant).
  - destruct (insert_refresh_row_lookup _ _ _ _ _ _ ltac:(eassumption) Hk) as [?|[-> ->]]; eauto.
    right. exists r. split_and!; [done..|apply refresh_row_grant].
  - destruct (insert_refresh_row_lookup _ _ _ _ _ _ ltac:(eassumption) Hk) as [Hr|[-> ->]].
    + left. by eapply revoke_where_grant.
    + right. exists successor. split_and!; [done..|apply refresh_row_grant].
  - apply sweep_refresh_lookup in Hk as (row0 & H & ->). left. by exists row0.
Qed.

(** ** Histories from empty tables *)

Section History.
Context (w0 : World) (Hempty : db w0 = empty_db).

(** A row, seen through [f], goes back to a call that [src] accepts. *)
Lemma row_source `{Countable K} {R G} (tbl : Db → gmap K R) (f : R → G) (src : Seam → K → G → Prop) h w k row :
  tbl empty_db = ∅ →
  (∀ now s d k row, tbl (after now s d) !! k = Some row →
     (∃ row0, tbl d !! k = Some row0 ∧ f row = f row0) ∨ src s k (f row)) →
  runs_to w0 h w → tbl (db w) !! k = Some row → ∃ i s x, (i, Event s x) ∈ h ∧ src s k (f row).
Proof.
  intros He Hstep Hr. revert k row. induction Hr as [|h w1 now' Hr IH Hle|h w1 i s x db' Hr IH Ha]; intros k row Hk; cbn in Hk.
  - by rewrite Hempty, He in Hk.
  - by apply IH in Hk.
  - assert (Hrow : (∃ row0, tbl (db w1) !! k = Some row0 ∧ f row = f row0) ∨ src s k (f row))
      by (apply answers_db in Ha as [->| ->]; [left; by exists row|by eapply Hstep]).
    destruct Hrow as [(row0 & Hrow & ->)|Hs].
    + apply IH in Hrow as (j & s' & y & Hin & Hsrc). exists j, s', y. split; [|done]. apply elem_of_app. by left.
    + exists i, s, x. split; [|done]. apply elem_of_app. right. left.
Qed.

(** What a thread reads was stored before. *)
Lemma transaction_taken h1 w1 k t db' : runs_to w0 h1 w1 → answers w1 (TakeTransaction k) (Ok (Some t)) db' →
  ∃ i t' x, (i, Event (InsertTransaction t') x) ∈ h1 ∧ t = transaction_of_row (transaction_row t').
Proof.
  intros Hr Ha%answers_inv. cbn in Ha. unfold take_transaction in Ha.
  destruct (take_live tr_expires_at (clock w1) k (oauth_transactions (db w1))) as [row m] eqn:E.
  destruct Ha as [[Hx _]|[Hx _]]; [|done]. destruct row as [row|]; [|done]. injection Hx as ->.
  destruct (take_live_Some tr_expires_at (clock w1) k (oauth_transactions (db w1)) row) as (Hrow & _); [by rewrite E|].
  destruct (row_source oauth_transactions id (λ s _ r, ∃ t, s = InsertTransaction t ∧ r = transaction_row t) h1 w1 k row)
    as (i & s & x & Hin & t' & -> & Hid); [done| |done..|].
  2: { cbn in Hid. subst. eauto. }
  intros now s d j r Hk. destruct (transactions_after _ _ _ _ _ Hk) as [?|(? & ? & ? & ?)]; eauto.
Qed.

Lemma pending_taken h1 w1 k p db' : runs_to w0 h1 w1 → answers w1 (TakePending k) (Ok (Some p)) db' →
  ∃ i p' x, (i, Event (InsertPending p') x) ∈ h1 ∧ p = pending_row p'.
Proof.
  intros Hr Ha%answers_inv. cbn in Ha. unfold take_pending in Ha.
  destruct (take_live pc_expires_at (clock w1) k (oauth_consent_pending (db w1))) as [row m] eqn:E.
  destruct Ha as [[Hx _]|[Hx _]]; [|done]. injection Hx as <-.
  destruct (take_live_Some pc_expires_at (clock w1) k (oauth_consent_pending (db w1)) p) as (Hrow & _); [by rewrite E|].
  destruct (row_source oauth_consent_pending id (λ s _ r, ∃ t, s = InsertPending t ∧ r = pending_row t) h1 w1 k p)
    as (i & s & x & Hin & t' & -> & Hid); [done| |done..|].
  2: { cbn in Hid. subst. eauto. }
  intros now s d j r Hk. destruct (pending_after _ _ _ _ _ Hk) as [?|(? & ? & ? & ?)]; eauto.
Qed.

Lemma code_taken h1 w1 k c db' : runs_to w0 h1 w1 → answers w1 (TakeCode k) (Ok (Some c)) db' →
  ∃ i c' x, (i, Event (InsertCode c') x) ∈ h1 ∧ code c' = k ∧ c = code_of_row (code_row c').
Proof.
  intros Hr Ha%answers_inv. cbn in Ha. unfold take_code in Ha.
  destruct (take_live cr_expires_at (clock w1) k (oauth_codes (db w1))) as [row m] eqn:E.
  destruct Ha as [[Hx _]|[Hx _]]; [|done]. destruct row as [row|]; [|done]. injection Hx as ->.
  destruct (take_live_Some cr_expires_at (clock w1) k (oauth_codes (db w1)) row) as (Hrow & _); [by rewrite E|].
  destruct (row_source oauth_codes id (λ s k r, ∃ t, s = InsertCode t ∧ k = code t ∧ r = code_row t) h1 w1 k row)
    as (i & s & x & Hin & t' & -> & Hk & Hid); [done| |done..|].
  { intros now s d j r Hk. destruct (codes_after _ _ _ _ _ Hk) as [?|(c & ? & ? & ?)]; eauto. }
  cbn in Hid. subst row. by exists i, t', x.
Qed.

Lemma refresh_source h w k row : runs_to w0 h w → oauth_refresh_tokens (db w) !! k = Some row →
  ∃ i s x r, (i, Event s x) ∈ h ∧ inserted s = Some r ∧ token r = k ∧ row_grant row = grant_of_refresh r.
Proof.
  intros Hr Hrow.
  destruct (row_source oauth_refresh_tokens row_grant
    (λ s k g, ∃ r, inserted s = Some r ∧ k = token r ∧ g = grant_of_refresh r) h w k row)
    as (i & s & x & Hin & r' & Hs & -> & Hg); [done| |done..|].
  - intros now s d j row' Hk. by apply refresh_after in Hk.
  - by exists i, s, x, r'.
Qed.

Lemma refresh_found h1 w1 k r db' : runs_to w0 h1 w1 → answers w1 (FindRefresh k) (Ok (Some r)) db' →
  ∃ i s x r', (i, Event s x) ∈ h1 ∧ inserted s = Some r' ∧ token r' = k ∧ grant_of_refresh r = grant_of_refresh r'.
Proof.
  intros Hr Ha%answers_inv. cbn in Ha. unfold find_refresh in Ha. destruct Ha as [[Hx _]|[Hx _]]; [|done].
  destruct (oauth_refresh_tokens (db w1) !! k) as [row|] eqn:Hrow; [|done]. injection Hx as ->.
  by eapply refresh_source.
Qed.

Lemma grant_found h1 w1 t u c g db' : runs_to w0 h1 w1 → answers w1 (FindActive t u c) (Ok (Some g)) db' →
  oauth_consent (db w1) !! (t, u, c) = Some g.
Proof.
  intros Hr Ha%answers_inv. cbn in Ha. unfold find_active in Ha. destruct Ha as [[Hx _]|[Hx _]]; [|done].
  destruct (oauth_consent (db w1) !! (t, u, c)) as [g'|]; [|done]. cbn in Hx. repeat case_match; congruence.
Qed.

Lemma consent_source h w t u c g : runs_to w0 h w → oauth_consent (db w) !! (t, u, c) = Some g →
  ∃ i n x, (i, Event (UpsertConsent n) x) ∈ h ∧ ng_tenant_id n = t ∧ ng_principal_sub n = u ∧ ng_client_id n = c ∧
    cg_scopes g = ng_scopes n.
Proof.
  intros Hr Hg.
  destruct (row_source oauth_consent cg_scopes
    (λ s k l, ∃ n, s = UpsertConsent n ∧ k = (ng_tenant_id n, ng_principal_sub n, ng_client_id n) ∧ l = ng_scopes n)
    h w (t, u, c) g) as (i & s & x & Hin & n & -> & [= -> -> ->] & Hs); [done| |done..|].
  - intros now s d k row Hk. by apply consent_after in Hk.
  - by exists i, n, x.
Qed.

End History.
End OauthTables.
