(* ===== verification/OauthSpec.v ===== *)
(** * Every access token goes back to a login

    The calls of the endpoint programs are justified by what the same request did
    before; chained over the tables, a signed access token for the server's own
    audience leads back to a person who authenticated upstream, a client whose
    metadata document lists the redirect URI, allowed scopes, and an approval
    where consent is required. *)

From S2P Require Import Prelude RustStr Json Facts Evidence Interact Cimd OauthStore OauthFlow OauthToken OauthRuns OauthTables.

Module OauthSpec.
Import Json.Json Facts.Facts Evidence.Evidence Interact.Interact Cimd.Cimd OauthStore.OauthStore OauthFlow.OauthFlow
  OauthToken.OauthToken OauthRuns.OauthRuns OauthRuns.OauthDemo OauthTables.OauthTables.

Section Spec.
Context (lib : Library) (cfg : AsConfig) (ema : option EmaDeps).

(** ** What justifies a call *)

Definition requested (q : AuthorizeQuery) (t : Transaction) : Prop :=
  txn_client_id t = aq_client_id q ∧ client_redirect_uri t = aq_redirect_uri q ∧
  txn_code_challenge t = aq_code_challenge q.

(** A login: the transaction and the person the upstream vouched for. *)
Definition login (h : list (event Seam)) (txn : Transaction) (p : Principal Value) : Prop :=
  (∃ k, Event (TakeTransaction k) (Ok (Some txn)) ∈ h) ∧ ∃ t, Event (ValidateIdToken t) (Ok p) ∈ h.

Definition covered (h : list (event Seam)) (g : Grant) : Prop :=
  ∃ c, Event (FindActive (g_tenant g) (g_sub g) (g_client g)) (Ok (Some c)) ∈ h ∧ g_scopes g ⊆ cg_scopes c.

(** The claims of a token for the holder of a grant. *)
Definition claims_for (g : Grant) (a : AccessTokenClaims) : Prop :=
  at_sub a = g_sub g ∧ at_email a = g_email g ∧ at_groups a = g_groups g ∧
  at_scope a = String.concat " " (g_scopes g) ∧ at_client_id a = Some (g_client g) ∧
  at_tenant a = Some (g_tenant g).

(** A consent row about a grant. *)
Definition grant_key (n : NewConsentGrant) (g : Grant) : Prop :=
  ng_tenant_id n = g_tenant g ∧ ng_principal_sub n = g_sub g ∧ ng_client_id n = g_client g ∧ ng_scopes n = g_scopes g.

Definition redeemed (r : Request) (h : list (event Seam)) (ic : IssuedCode) : Prop :=
  ∃ auth req c verifier, r = ReqToken auth req ∧ rq_code req = Some c ∧ rq_code_verifier req = Some verifier ∧
    rq_redirect_uri req = Some (redirect_uri ic) ∧ rq_client_id req = Some (code_client_id ic) ∧
    lib_s256 lib verifier = code_challenge ic ∧ Event (TakeCode c) (Ok (Some ic)) ∈ h.

Definition presented (h : list (event Seam)) (k : string) (rt : RefreshToken) : Prop :=
  Event (FindRefresh k) (Ok (Some rt)) ∈ h ∧ revoked_at rt = None.

(** The credentials of the request, checked against the client's registration. *)
Definition proves (creds : ClientCredentials) (client : string) (reg : ConfidentialClient) : Prop :=
  match creds with
  | Secret id secret => id = client ∧ ∃ hash, cc_secret_hash reg = Some hash ∧ lib_verify_password lib secret hash = true
  | PrivateKeyJwt a => lib_claimed_issuer lib a = Some client ∧
      ∃ jwks, cc_jwks reg = Some jwks ∧
        lib_verify_private_key_jwt lib a jwks client [issuer_url cfg; absolute cfg "/oauth/token"] = true
  end.

Definition authenticated (r : Request) (h : list (event Seam)) (client : string) : Prop :=
  ∃ auth req creds reg, r = ReqToken auth req ∧
    extract lib auth (rq_client_id req) (rq_client_secret req) (rq_client_assertion req)
      (rq_client_assertion_type req) = Some creds ∧
    Event (GetClient client) (Ok (Some reg)) ∈ h ∧ proves creds client reg.

(** A cross-app token: a verified assertion, its marker claimed by this request. *)
Definition crossed (r : Request) (h : list (event Seam)) (a : AccessTokenClaims) : Prop :=
  ∃ c assertion granted,
    (Event (VerifySelfIdJag assertion) (Some c) ∈ h ∨
     ∃ t, Event (VerifyPeerIdJag assertion) (Some (c, t)) ∈ h ∧ at_tenant a = Some t) ∧
    Event (ClaimIdJagJti (ij_jti c) (seconds (ij_exp c))) (Ok true) ∈ h ∧
    authenticated r h (ij_client_id c) ∧
    at_sub a = ij_sub c ∧ at_groups a = [] ∧ at_client_id a = Some (ij_client_id c) ∧
    at_aud a = ij_resource c ∧ ij_resource c ∈ idjag_known_resources cfg ∧
    at_scope a = String.concat " " granted ∧ granted ⊆ allowed_scopes cfg ∧
    granted ⊆ split_whitespace (ij_scope c) ∧
    (ij_iss c ≠ issuer_url cfg → ∀ s, s ∈ granted → s ∉ CROSS_ORG_FORBIDDEN).

Definition justified (r : Request) (h : list (event Seam)) (s : Seam) : Prop :=
  match s with
  | InsertTransaction t =>
      ∃ q doc, r = ReqAuthorize q ∧ requested q t ∧ txn_scopes t ⊆ allowed_scopes cfg ∧
        Event (FetchCimd (aq_client_id q)) (Ok doc) ∈ h ∧
        validate_redirect_uri (lib_url_parse lib) doc (aq_redirect_uri q) = true
  | InsertPending p =>
      ∃ txn pr, login h txn pr ∧ grant_of_pending p = grant_of_login txn pr ∧
        pc_client_redirect_uri p = client_redirect_uri txn ∧ pc_code_challenge p = txn_code_challenge txn
  | InsertCode c =>
      (∃ txn pr, login h txn pr ∧ grant_of_code c = grant_of_login txn pr ∧
         redirect_uri c = client_redirect_uri txn ∧ code_challenge c = txn_code_challenge txn ∧
         (require_explicit_consent cfg = true → covered h (grant_of_login txn pr))) ∨
      (∃ k d p, r = ReqConsentPost k d ∧ to_ascii_lowercase d = "approve" ∧ Event (TakePending k) (Ok (Some p)) ∈ h ∧
         grant_of_code c = grant_of_pending p ∧ redirect_uri c = pc_client_redirect_uri p ∧
         code_challenge c = pc_code_challenge p)
  | UpsertConsent n =>
      (∃ txn pr, login h txn pr ∧ grant_key n (grant_of_login txn pr) ∧
         (require_explicit_consent cfg = true → covered h (grant_of_login txn pr))) ∨
      (∃ k d p, r = ReqConsentPost k d ∧ to_ascii_lowercase d = "approve" ∧ Event (TakePending k) (Ok (Some p)) ∈ h ∧
         grant_key n (grant_of_pending p))
  | InsertRefresh rt =>
      rotated_from rt = None ∧ ∃ ic, redeemed r h ic ∧ grant_of_refresh rt = grant_of_code ic
  | RotateRefresh k rt =>
      rotated_from rt = Some k ∧ ∃ rt0, presented h k rt0 ∧ grant_of_refresh rt = grant_of_refresh rt0
  | SignAccessToken a =>
      at_aud a = audience cfg ∧
        ((∃ ic, redeemed r h ic ∧ claims_for (grant_of_code ic) a) ∨
         (∃ k rt, presented h k rt ∧ claims_for (grant_of_refresh rt) a)) ∨
      at_aud a ≠ audience cfg ∧ crossed r h a
  | _ => True
  end.

Lemma parse_scopes_allowed raw allowed l : parse_scopes raw allowed = Ok l → l ⊆ allowed.
Proof.
  unfold parse_scopes, first_unknown.
  destruct (find_first _ _) eqn:E; [done|]. intros [= <-] x Hx.
  apply find_first_None in E. rewrite Forall_forall in E. pose proof (E x Hx) as H. by apply negb_false_iff, bool_decide_eq_true in H.
Qed.

Lemma covers_request_subset g txn : covers_request g txn = true →
  ∃ c, g = Ok (Some c) ∧ txn_scopes txn ⊆ cg_scopes c.
Proof.
  destruct g as [[c|]|]; [|done..]. cbn. intros H. exists c. split; [done|]. intros s Hs.
  rewrite forallb_forall in H. apply list_elem_of_In, H, bool_decide_eq_true in Hs. done.
Qed.

Lemma authorize_justified q : guards (acts lib cfg ema (ReqAuthorize q)) (justified (ReqAuthorize q)) [].
Proof.
  apply guards_bind; [|done]. unfold authorize_handle. walk.
  match goal with H : parse_scopes _ _ = Ok _, H' : negb _ = false |- _ =>
    apply parse_scopes_allowed in H; eexists q, _; split_and!; [done..|here|by apply negb_false_iff] end.
Qed.

Lemma callback_justified q : guards (acts lib cfg ema (ReqCallback q)) (justified (ReqCallback q)) [].
Proof.
  apply guards_bind; [|done]. unfold callback_handler. apply guards_bind; [|intros [] ?; walk].
  unfold callback_handle, grant_code, defer_to_screen. walk.
  all: match goal with
  | |- justified _ _ (InsertPending _) => eexists _, _; split_and!; [split; eexists; here|done..]
  | |- justified _ _ _ => left; eexists _, _; split_and!; [split; eexists; here|done..|intros ?]
  end; try congruence.
  all: match goal with H : covers_request _ _ = true |- _ => apply covers_request_subset in H as (c & -> & Hc) end;
    exists c; (split; [here|done]).
Qed.

Lemma consent_get_justified t : guards (acts lib cfg ema (ReqConsentGet t)) (justified (ReqConsentGet t)) [].
Proof. apply guards_bind; [|done]. unfold consent_get. walk. Qed.

Lemma consent_post_justified t d : guards (acts lib cfg ema (ReqConsentPost t d)) (justified (ReqConsentPost t d)) [].
Proof.
  apply guards_bind; [|done]. unfold consent_post, approve, consent_row. walk.
  all: right; eexists t, d, _; split_and!; [done| |here|done..].
  all: repeat match goal with H : context [bool_decide ?P] |- _ => destruct (bool_decide_reflect P); cbn in H end; done.
Qed.

Lemma check_code_ok ic verifier redirect client u : check_code lib ic verifier redirect client = Ok u →
  redirect_uri ic = redirect ∧ code_client_id ic = client ∧ lib_s256 lib verifier = code_challenge ic.
Proof.
  unfold check_code. repeat case_bool_decide; cbn; try done.
  destruct (constant_time_eq _ _) eqn:E; [|done]. intros _. apply constant_time_eq_spec, as_bytes_inj in E. done.
Qed.

Lemma redeem_scopes_spec scope allowed cross s : s ∈ redeem_scopes scope allowed cross →
  s ∈ allowed ∧ s ∈ split_whitespace scope ∧ (cross = true → s ∉ CROSS_ORG_FORBIDDEN).
Proof. unfold redeem_scopes. rewrite !list_elem_of_filter. tauto. Qed.

Lemma redeem_justified a req : guards (redeem_id_jag lib cfg ema a req) (justified (ReqToken a req)) [].
Proof.
  unfold redeem_id_jag, authenticate_client, verify_assertion, redeem_claims, mint_access_token. walk.
  all: cbn [fst snd] in *;
    match goal with
    | H : negb (bool_decide (ij_client_id _ = _)) = false |- _ =>
        apply negb_false_iff, bool_decide_eq_true in H; subst
    end;
    match goal with
    | H : _ || _ = false |- _ => apply orb_false_iff in H as [Hne%bool_decide_eq_false Hk%negb_false_iff%bool_decide_eq_true]
    end;
    right; (split; [exact Hne|]); eexists _, _, (redeem_scopes _ _ _); cbn;
    split_and!; [first [left; here|right; eexists; split; [here|done]]|here| |done..| | |].
  all: try (eexists _, _, _, _; split_and!; [done|eassumption|here|split; eauto]).
  all: try (intros ? ?%redeem_scopes_spec; tauto).
  all: intros Hiss ? Hs; apply redeem_scopes_spec in Hs as (_ & _ & Hs); apply Hs; by rewrite bool_decide_eq_false_2.
Qed.

Lemma token_justified a req : guards (acts lib cfg ema (ReqToken a req)) (justified (ReqToken a req)) [].
Proof.
  apply guards_bind; [|done]. unfold token_handler.
  repeat match goal with |- guards (if bool_decide ?P then _ else _) _ _ => destruct (bool_decide P) end;
    (apply guards_bind; [|intros [] ?; walk]).
  - unfold mint_id_jag. walk; unfold cross_app, sign_id_jag; walk.
  - apply redeem_justified.
  - unfold handle, handle_auth_code, handle_refresh, rotate, mint_tokens, mint_access_token. walk.
    all: try match goal with H : check_code _ _ _ _ _ = Ok _ |- _ => apply check_code_ok in H as (<- & <- & ?) end.
    + left. split; [done|]. left. eexists. split; [|done]. eexists a, req, _, _. split_and!; [done..|here].
    + split; [done|]. eexists. split; [|done]. eexists a, req, _, _. split_and!; [done..|here].
    + left. split; [done|]. right. eexists s0, _. split; [split; [here|done]|done].
    + split; [done|]. eexists. split; [split; [here|done]|done].
Qed.
Lemma calls_justified r : guards (acts lib cfg ema r) (justified r) [].
Proof.
  destruct r; [apply authorize_justified|apply callback_justified|apply consent_get_justified
    |apply consent_post_justified|apply token_justified|..]; cbn [acts]; walk.
Qed.

(** ** Over a history *)

Section Trace.
Context (threads : list Request) (w0 : World) (Hempty : db w0 = empty_db).

(** Some request of the history, with what it did. *)
Definition by_request (h : history) (P : Request → list (event Seam) → Prop) : Prop :=
  ∃ i r, threads !! i = Some r ∧ P r (of_thread i h).

(** A person approved, on the consent screen, what the grant asks for. *)
Definition approval (h : history) (t u c : string) (l : list string) : Prop :=
  by_request h (λ r e, ∃ k d p, r = ReqConsentPost k d ∧ to_ascii_lowercase d = "approve" ∧
    Event (TakePending k) (Ok (Some p)) ∈ e ∧ pc_tenant_id p = t ∧ pc_principal_sub p = u ∧ pc_client_id p = c ∧
    l ⊆ pc_scopes p).

(** The client's authorization request. *)
Definition authorized (q : AuthorizeQuery) (r : Request) (e : list (event Seam)) : Prop :=
  r = ReqAuthorize q ∧ ∃ doc, Event (FetchCimd (aq_client_id q)) (Ok doc) ∈ e ∧
    validate_redirect_uri (lib_url_parse lib) doc (aq_redirect_uri q) = true.

(** Where a grant comes from: a client with a valid redirect URI asked for allowed
    scopes, and the person it names signed in upstream. *)
Definition granted (h : history) (g : Grant) (redirect challenge : string) : Prop :=
  ∃ q txn p, by_request h (authorized q) ∧ requested q txn ∧ by_request h (λ _ e, login e txn p) ∧
    g = grant_of_login txn p ∧ redirect = aq_redirect_uri q ∧ challenge = aq_code_challenge q ∧
    g_scopes g ⊆ allowed_scopes cfg.

(** Where the server asks for consent, it was given. *)
Definition consented (h : history) (g : Grant) : Prop :=
  require_explicit_consent cfg = true → approval h (g_tenant g) (g_sub g) (g_client g) (g_scopes g).

(** A redemption of a code with the verifier of the grant's challenge. *)
Definition redemption (h : history) (g : Grant) : Prop :=
  consented h g ∧ by_request h (λ r e, ∃ ic, redeemed r e ic ∧ grant_of_code ic = g ∧
    granted h g (redirect_uri ic) (code_challenge ic)).

Lemma by_request_mono h1 h2 P Q :
  (∀ r e e', P r e → (∀ x, x ∈ e → x ∈ e') → Q r e') → by_request h1 P → by_request (h1 ++ h2) Q.
Proof.
  intros HP (i & r & Hr & H). exists i, r. split; [done|]. eapply HP; [done|]. intros x Hx.
  rewrite of_thread_app. apply elem_of_app. by left.
Qed.

Lemma approval_mono h1 h2 t u c l : approval h1 t u c l → approval (h1 ++ h2) t u c l.
Proof. apply by_request_mono. naive_solver. Qed.

Lemma consented_mono h1 h2 g : consented h1 g → consented (h1 ++ h2) g.
Proof. intros H E. by apply approval_mono, H. Qed.

Lemma granted_mono h1 h2 g re ch : granted h1 g re ch → granted (h1 ++ h2) g re ch.
Proof.
  intros (q & txn & p & Hq & Ht & Hl & -> & -> & -> & Hs). exists q, txn, p. split_and!; [|done| |done..].
  - revert Hq. apply by_request_mono. unfold authorized. naive_solver.
  - revert Hl. apply by_request_mono. unfold login. naive_solver.
Qed.

Lemma redemption_mono h1 h2 g : redemption h1 g → redemption (h1 ++ h2) g.
Proof.
  intros [Hc H]. split; [by apply consented_mono|]. revert H.
  apply by_request_mono. intros r e e' (ic & Hr & Hg & H) He. exists ic. split_and!; [|done|by apply granted_mono].
  unfold redeemed in *. naive_solver.
Qed.

Lemma serves_at h i s x : serves lib cfg ema threads h → (i, Event s x) ∈ h →
  ∃ h1 h2 r, h = h1 ++ (i, Event s x) :: h2 ∧ threads !! i = Some r ∧ justified r (of_thread i h1) s.
Proof.
  intros Hs (h1 & h2 & ->)%list_elem_of_split.
  destruct (guarded _ _ _ _ _ _ _ _ _ _ calls_justified Hs) as (r & Hr & Hj). by exists h1, h2, r.
Qed.

Lemma runs_at h w i s x : runs_to w0 h w → (i, Event s x) ∈ h →
  ∃ h1 h2 w1 db', h = h1 ++ (i, Event s x) :: h2 ∧ runs_to w0 h1 w1 ∧ answers w1 s x db'.
Proof.
  intros Hr (h1 & h2 & ->)%list_elem_of_split. destruct (runs_split _ _ _ _ _ _ _ Hr) as (w1 & db' & ? & ? & _). eauto 10.
Qed.

Lemma runs_prefix h1 h2 w : runs_to w0 (h1 ++ h2) w → ∃ w1, runs_to w0 h1 w1.
Proof.
  destruct h2 as [|[i [s x]] h2]; [rewrite app_nil_r; eauto|].
  intros (w1 & _ & ? & _)%runs_split. eauto.
Qed.

(** A transaction that is taken was stored for an authorization request. *)
Lemma transaction_authorized h w i k txn : runs_to w0 h w → serves lib cfg ema threads h →
  (i, Event (TakeTransaction k) (Ok (Some txn))) ∈ h →
  ∃ q, by_request h (authorized q) ∧ requested q txn ∧ txn_scopes txn ⊆ allowed_scopes cfg.
Proof.
  intros Hr Hs Hin. destruct (runs_at _ _ _ _ _ Hr Hin) as (h1 & h2 & w1 & db' & -> & Hr1 & Ha).
  destruct (transaction_taken w0 Hempty _ _ _ _ _ Hr1 Ha) as (j & t & x & Hj & ->).
  destruct (serves_at h1 j _ x (serves_prefix _ _ _ _ _ _ Hs) Hj) as (h3 & h4 & r & -> & Hth & q & doc & -> & Hq & Hsc & Hf & Hv).
  exists q. split_and!; [|by destruct Hq as (? & ? & ?)|cbn -[json_to_str_vec strings_json]; by rewrite strings_json_back].
  rewrite <- app_assoc. apply (by_request_mono h3 _ (authorized q)); [unfold authorized; naive_solver|].
  exists j, (ReqAuthorize q). split; [done|]. split; [done|]. by exists doc.
Qed.

(** A consent row goes back to an approval. *)
Lemma consent_approved n : require_explicit_consent cfg = true → ∀ h w t u c g, (length h < n)%nat →
  runs_to w0 h w → serves lib cfg ema threads h → oauth_consent (db w) !! (t, u, c) = Some g →
  approval h t u c (cg_scopes g).
Proof.
  intros Hreq. induction n as [|n IH]; intros h w t u c g Hn Hr Hs Hg; [lia|].
  destruct (consent_source w0 Hempty _ _ _ _ _ _ Hr Hg) as (i & m & x & Hin & <- & <- & <- & ->).
  destruct (serves_at _ _ _ _ Hs Hin) as (h1 & h2 & r & -> & Hth & Hj). apply approval_mono.
  destruct Hj as [(txn & p & _ & (-> & -> & -> & ->) & Hc)|(k & d & p & -> & Hd & Hp & (-> & -> & -> & ->))].
  - destruct (Hc Hreq) as (g' & Hg' & Hsub). apply elem_of_thread in Hg'.
    destruct (runs_prefix _ _ _ Hr) as [w1 Hr1].
    destruct (runs_at _ _ _ _ _ Hr1 Hg') as (h3 & h4 & w3 & db' & -> & Hr3 & Ha).
    apply (grant_found w0 h3) in Ha; [|done]. eapply IH in Ha as (j & r' & Hr' & k & d & p' & ? & ? & ? & ? & ? & ? & Hs'); [|..].
    + apply approval_mono. exists j, r'. split; [done|]. exists k, d, p'. split_and!; [done..|]. by etrans.
    + rewrite !length_app in Hn. cbn in Hn. lia.
    + done.
    + eapply serves_prefix. rewrite <- app_assoc in Hs. exact Hs.
  - exists i, (ReqConsentPost k d). split; [done|]. by exists k, d, p.
Qed.

(** A login is for an authorization request. *)
Lemma login_granted h w i r txn p : runs_to w0 h w → serves lib cfg ema threads h → threads !! i = Some r →
  login (of_thread i h) txn p →
  granted h (grant_of_login txn p) (client_redirect_uri txn) (txn_code_challenge txn).
Proof.
  intros Hr Hs Hth Hl. pose proof Hl as [[k Hk] _]. apply elem_of_thread in Hk.
  destruct (transaction_authorized _ _ _ _ _ Hr Hs Hk) as (q & Hq & (E1 & E2 & E3) & Hsc).
  exists q, txn, p. split_and!; try done. by exists i, r.
Qed.

Lemma pending_granted h w i k p : runs_to w0 h w → serves lib cfg ema threads h →
  (i, Event (TakePending k) (Ok (Some p))) ∈ h →
  granted h (grant_of_pending p) (pc_client_redirect_uri p) (pc_code_challenge p).
Proof.
  intros Hr Hs Hin. destruct (runs_at _ _ _ _ _ Hr Hin) as (h1 & h2 & w1 & db' & -> & Hr1 & Ha).
  destruct (pending_taken w0 Hempty _ _ _ _ _ Hr1 Ha) as (j & p' & x & Hj & ->).
  apply serves_prefix in Hs. destruct (serves_at h1 j _ x Hs Hj) as (h3 & h4 & r & -> & Hth & txn & pr & Hl & Hg & Hre & Hch).
  destruct (runs_prefix _ _ _ Hr1) as [w3 Hr3]. apply granted_mono, granted_mono.
  change (grant_of_pending (pending_row p')) with (grant_of_pending p'). cbn. rewrite Hg, Hre, Hch.
  eapply login_granted; [done|by eapply serves_prefix|done..].
Qed.

Lemma code_granted h w i k ic : runs_to w0 h w → serves lib cfg ema threads h →
  (i, Event (TakeCode k) (Ok (Some ic))) ∈ h →
  granted h (grant_of_code ic) (redirect_uri ic) (code_challenge ic) ∧ consented h (grant_of_code ic).
Proof.
  intros Hr Hs Hin. destruct (runs_at _ _ _ _ _ Hr Hin) as (h1 & h2 & w1 & db' & -> & Hr1 & Ha).
  destruct (code_taken w0 Hempty _ _ _ _ _ Hr1 Ha) as (j & c & x & Hj & _ & ->).
  apply serves_prefix in Hs. destruct (serves_at h1 j _ x Hs Hj) as (h3 & h4 & r & -> & Hth & Hc).
  destruct (runs_prefix _ _ _ Hr1) as [w3 Hr3]. apply serves_prefix in Hs.
  rewrite code_row_grant. cbn [redirect_uri code_challenge code_of_row code_row cr_redirect_uri cr_code_challenge].
  cut (granted h3 (grant_of_code c) (redirect_uri c) (code_challenge c) ∧ consented h3 (grant_of_code c)).
  { intros [? ?]. split; [by apply granted_mono, granted_mono|by apply consented_mono, consented_mono]. }
  destruct Hc as [(txn & p & Hl & -> & -> & -> & Hc)|(k' & d & p & -> & Hd & Hp & -> & -> & ->)].
  - split; [by eapply login_granted|]. intros E. destruct (Hc E) as (g & Hg & Hsub). apply elem_of_thread in Hg.
    destruct (runs_at _ _ _ _ _ Hr3 Hg) as (h5 & h6 & w5 & db5 & -> & Hr5 & Ha5).
    apply (grant_found w0 h5) in Ha5; [|done]. apply approval_mono.
    eapply consent_approved in Ha5; [|done|apply Nat.lt_succ_diag_r|done|by eapply serves_prefix].
    destruct Ha5 as (j' & r' & Hr' & k' & d & p' & ? & ? & ? & ? & ? & ? & Hs'). exists j', r'. split; [done|].
    exists k', d, p'. split_and!; [done..|]. by etrans.
  - apply elem_of_thread in Hp as Hp'. split; [by eapply pending_granted|]. intros _.
    exists j, (ReqConsentPost k' d). split; [done|]. by exists k', d, p.
Qed.

Lemma redeemed_redemption h w i r ic : runs_to w0 h w → serves lib cfg ema threads h → threads !! i = Some r →
  redeemed r (of_thread i h) ic → redemption h (grant_of_code ic).
Proof.
  intros Hr Hs Hth Hred. pose proof Hred as (_ & _ & c & _ & _ & _ & _ & _ & _ & _ & Hc).
  apply elem_of_thread in Hc. destruct (code_granted _ _ _ _ _ Hr Hs Hc) as [Hg Hcons].
  split; [done|]. exists i, r. split; [done|]. by exists ic.
Qed.

(** A refresh token, first or rotated, goes back to a redemption. *)
Lemma refresh_redemption n : ∀ h w i s x rt, (length h < n)%nat →
  runs_to w0 h w → serves lib cfg ema threads h →
  (i, Event s x) ∈ h → inserted s = Some rt → redemption h (grant_of_refresh rt).
Proof.
  induction n as [|n IH]; intros h w i s x rt Hn Hr Hs Hin Hi; [lia|].
  destruct (serves_at _ _ _ _ Hs Hin) as (h1 & h2 & r & -> & Hth & Hj).
  destruct (runs_prefix _ _ _ Hr) as [w1 Hr1]. apply serves_prefix in Hs. apply redemption_mono.
  destruct s; try done; injection Hi as ->; destruct Hj as [_ Hj].
  - destruct Hj as (ic & Hred & ->). by eapply redeemed_redemption.
  - destruct Hj as (rt0 & [Hf _] & ->). apply elem_of_thread in Hf.
    destruct (runs_at _ _ _ _ _ Hr1 Hf) as (h3 & h4 & w3 & db' & -> & Hr3 & Ha).
    destruct (refresh_found w0 Hempty _ _ _ _ _ Hr3 Ha) as (j & s' & x' & rt' & Hj & Hs' & _ & ->).
    apply redemption_mono. eapply IH; [|done|by eapply serves_prefix|done..].
    rewrite !length_app in Hn. cbn in Hn. lia.
Qed.

(** C2. Every access token the server signs for its own audience names a grant that was
    redeemed with the PKCE verifier of its challenge; the grant was asked for by a client
    whose fetched metadata document lists the redirect URI, for allowed scopes; the person
    it names was vouched for by the upstream identity provider in the request that took the
    client's transaction; and where explicit consent is required, that person approved
    these scopes for that client on the consent screen. This holds of every interleaving
    of requests, with store calls that fail, and through any number of refreshes. *)
Theorem tokens_trace_to_login h w i a x :
  runs_to w0 h w → serves lib cfg ema threads h → (i, Event (SignAccessToken a) x) ∈ h → at_aud a = audience cfg →
  ∃ g, claims_for g a ∧ redemption h g.
Proof.
  intros Hr Hs Hin Haud. destruct (serves_at _ _ _ _ Hs Hin) as (h1 & h2 & r & -> & Hth & Hj).
  destruct (runs_prefix _ _ _ Hr) as [w1 Hr1]. apply serves_prefix in Hs.
  destruct Hj as [[_ [(ic & Hred & Hc)|(k & rt & [Hf _] & Hc)]]|[Hne _]]; [..|done].
  - exists (grant_of_code ic). split; [done|]. apply redemption_mono. by eapply redeemed_redemption.
  - exists (grant_of_refresh rt). split; [done|]. apply redemption_mono. apply elem_of_thread in Hf.
    destruct (runs_at _ _ _ _ _ Hr1 Hf) as (h3 & h4 & w3 & db' & -> & Hr3 & Ha).
    destruct (refresh_found w0 Hempty _ _ _ _ _ Hr3 Ha) as (j & s' & x' & rt' & Hj & Hs' & _ & ->).
    apply redemption_mono. eapply refresh_redemption; [apply Nat.lt_succ_diag_r|done|by eapply serves_prefix|done..].
Qed.

(** C25. An access token for another audience is a cross-app token: it was signed for an
    assertion this server verified, in a request that claimed the assertion's replay
    marker first and proved to be the client the assertion names; its audience is a known
    resource, it carries no groups, its scopes are allowed here and were granted by the
    assertion, and an assertion of another issuer never gets an administrative scope. *)
Theorem cross_app_tokens_are_bounded h i a x :
  serves lib cfg ema threads h → (i, Event (SignAccessToken a) x) ∈ h → at_aud a ≠ audience cfg →
  ∃ r, threads !! i = Some r ∧ crossed r (of_thread i h) a.
Proof.
  intros Hs Hin Haud. destruct (serves_at _ _ _ _ Hs Hin) as (h1 & h2 & r & -> & Hth & Hj).
  destruct Hj as [[? _]|[_ Hc]]; [done|]. exists r. split; [done|]. rewrite thread_split.
  destruct Hc as (c & s & l & Hv & Hm & (au & req & cr & reg & ? & ? & ? & ?) & Hrest).
  assert (Hmono : ∀ e, e ∈ of_thread i h1 → e ∈ of_thread i h1 ++ Event (SignAccessToken a) x :: of_thread i h2)
    by (intros; apply elem_of_app; by left).
  exists c, s, l. split_and!; [naive_solver|naive_solver| |apply Hrest..].
  exists au, req, cr, reg. split_and!; auto.
Qed.

End Trace.
End Spec.

Lemma tokens_trace_to_login_witness :
  ∃ g, claims_for g refreshed_claims ∧ redemption demo_lib (demo_config true) demo_requests demo_history g.
Proof.
  refine (tokens_trace_to_login demo_lib (demo_config true) demo_ema demo_requests demo_world eq_refl demo_history
    demo_end 4 refreshed_claims (Ok "jwt") demo_server_runs demo_serves refreshed_in_demo _).
  vm_compute. reflexivity.
Defined.

Lemma cross_app_tokens_are_bounded_witness :
  ∃ r, demo_requests !! 5%nat = Some r ∧ crossed demo_lib (demo_config true) r (of_thread 5 demo_history) crossed_claims.
Proof.
  refine (cross_app_tokens_are_bounded demo_lib (demo_config true) demo_ema demo_requests demo_history
    5 crossed_claims (Ok "jwt") demo_serves crossed_in_demo _).
  vm_compute. discriminate.
Defined.

End OauthSpec.
