(* ===== verification/OauthCredentials.v ===== *)
(** * Credentials of the authorization server are spent once

    Transactions, authorization codes, pending consents and refresh tokens are
    issued under a random name and spent by being taken or rotated. Over any
    history, with random names that do not repeat, a credential is issued once and
    spent at most once. *)

From S2P Require Import Prelude RustStr Json Facts Evidence Interact Cimd OauthStore OauthFlow OauthToken OauthRuns OauthTables OauthSpec.

Module OauthCredentials.
Import Json.Json Facts.Facts Evidence.Evidence Interact.Interact Cimd.Cimd OauthStore.OauthStore OauthFlow.OauthFlow
  OauthToken.OauthToken OauthRuns.OauthRuns OauthRuns.OauthDemo OauthTables.OauthTables OauthSpec.OauthSpec.

Inductive Kind := KTransaction | KCode | KPending | KRefresh.

#[global] Instance Kind_eq_dec : EqDecision Kind.
Proof. solve_decision. Defined.

Definition Credential : Type := Kind * string.

(** The credential a call issues. *)
Definition issues (s : Seam) : option Credential :=
  match s with
  | InsertTransaction t => Some (KTransaction, txn_id t)
  | InsertCode c => Some (KCode, code c)
  | InsertPending p => Some (KPending, pc_token p)
  | InsertRefresh r | RotateRefresh _ r => Some (KRefresh, token r)
  | _ => None
  end.

(** The credential an answered call spends. *)
Definition spends (e : event Seam) : option Credential :=
  let '(Event s x) := e in
  match s return answer s → option Credential with
  | TakeTransaction k => λ x, match x with Ok (Some _) => Some (KTransaction, k) | _ => None end
  | TakeCode k => λ x, match x with Ok (Some _) => Some (KCode, k) | _ => None end
  | TakePending k => λ x, match x with Ok (Some _) => Some (KPending, k) | _ => None end
  | RotateRefresh k _ => λ x, match x with Ok true => Some (KRefresh, k) | _ => None end
  | _ => λ _, None
  end x.

(** The random names a history drew. *)
Definition draws (e : event Seam) : option string :=
  let '(Event s x) := e in
  match s return answer s → option string with RandomToken => λ x, Some x | _ => λ _, None end x.

(** A credential that can still be spent. *)
Definition present (d : Db) (c : Credential) : Prop :=
  match c.1 with
  | KTransaction => is_Some (oauth_transactions d !! c.2)
  | KCode => is_Some (oauth_codes d !! c.2)
  | KPending => is_Some (oauth_consent_pending d !! c.2)
  | KRefresh => ∃ row, oauth_refresh_tokens d !! c.2 = Some row ∧ rr_revoked_at row = None
  end.

#[global] Instance present_dec d c : Decision (present d c).
Proof.
  destruct c as [[] k]; unfold present; cbn; try apply _.
  destruct (oauth_refresh_tokens d !! k) as [row|]; [|right; by intros (? & ? & ?)].
  destruct (rr_revoked_at row) eqn:E; [right|left]; [|by exists row]. intros (? & [= ->] & ?). congruence.
Defined.

(** ** The tables *)

Lemma revoke_where_present now p m k row :
  revoke_where now p m !! k = Some row → rr_revoked_at row = None → ∃ row0, m !! k = Some row0 ∧ rr_revoked_at row0 = None.
Proof. intros (row0 & Hk & [->| ->])%revoke_where_lookup Hr; eauto. cbn in Hr. done. Qed.

Lemma refresh_present_after now s d k row :
  oauth_refresh_tokens (after now s d) !! k = Some row → rr_revoked_at row = None →
  (∃ row0, oauth_refresh_tokens d !! k = Some row0 ∧ rr_revoked_at row0 = None) ∨ issues s = Some (KRefresh, k).
Proof.
  intros Hk Hr. destruct s; after_cases Hk; try (left; by eapply revoke_where_present).
  - destruct (insert_refresh_row_lookup _ _ _ _ _ _ ltac:(eassumption) Hk) as [?|[-> _]]; eauto.
  - destruct (insert_refresh_row_lookup _ _ _ _ _ _ ltac:(eassumption) Hk) as [Hk'|[-> _]]; [|by right].
    left. by eapply revoke_where_present.
  - apply sweep_refresh_lookup in Hk as (row0 & Hk & ->). left. by exists row0.
Qed.

(** What becomes present was issued. *)
Lemma present_after now s d c : present (after now s d) c → present d c ∨ issues s = Some c.
Proof.
  destruct c as [[] k]; unfold present; cbn [fst snd].
  - intros [row [Hr|(t & -> & -> & _)]%transactions_after]; [left; eauto|by right].
  - intros [row [Hr|(t & -> & -> & _)]%codes_after]; [left; eauto|by right].
  - intros [row [Hr|(t & -> & -> & _)]%pending_after]; [left; eauto|by right].
  - intros (row & Hr & Hu). by eapply refresh_present_after.
Qed.

Lemma taken_gone {V} (ex : V → Z) now k (m : gmap string V) r m' :
  take_live ex now k m = (Some r, m') → m !! k = Some r ∧ m' !! k = None.
Proof.
  intros E. destruct (take_live_Some ex now k m r) as (H & _ & Hm); [by rewrite E|]. rewrite E in Hm. cbn in Hm.
  subst m'. split; [done|apply lookup_delete_eq].
Qed.

(** The rows an UPDATE of one token touches. *)
Lemma matching_pos p m : matching p m ≠ 0 → ∃ k row, m !! k = Some row ∧ p row = true ∧ rr_revoked_at row = None.
Proof.
  unfold matching. intros H. destruct (map_choose (filter (λ kv : string * RefreshTokenRow, p kv.2 && unrevoked kv.2 = true) m)) as (k & row & Hk).
  { intros E. rewrite E, map_size_empty in H. done. }
  apply map_lookup_filter_Some in Hk as [Hk [Hp Hu]%andb_true_iff]. exists k, row. split_and!; [done..|].
  cbn in Hu. unfold unrevoked in Hu. by destruct (rr_revoked_at row).
Qed.

Lemma revoke_where_revokes now p m k row : revoke_where now p m !! k = Some row → p row = true →
  (∀ r, p (set_revoked now r) = p r) → rr_revoked_at row ≠ None.
Proof.
  unfold revoke_where. rewrite lookup_fmap. destruct (m !! k) as [r|]; [|done]. cbn. intros [= <-] Hp Hset.
  destruct (p r && unrevoked r) eqn:E; [done|]. rewrite Hp in E. cbn in E. unfold unrevoked in E.
  by destruct (rr_revoked_at r).
Qed.

(** Rows are stored under their token. *)
Definition keyed (d : Db) : Prop := ∀ k row, oauth_refresh_tokens d !! k = Some row → rr_token row = k.

Lemma keyed_after now s d : keyed d → keyed (after now s d).
Proof.
  intros H k row Hk. destruct s; after_cases Hk;
    try (apply revoke_where_lookup in Hk as (row0 & Hk & [->| ->]); apply H in Hk; done).
  - destruct (insert_refresh_row_lookup _ _ _ _ _ _ ltac:(eassumption) Hk) as [Hk'|[-> ->]]; eauto.
  - destruct (insert_refresh_row_lookup _ _ _ _ _ _ ltac:(eassumption) Hk) as [Hk'|[-> ->]]; [|done].
    apply revoke_where_lookup in Hk' as (row0 & Hk' & [->| ->]); apply H in Hk'; done.
  - apply sweep_refresh_lookup in Hk as (row0 & Hk & ->). by apply H in Hk.
Qed.

Lemma insert_refresh_row_new now r m m' : insert_refresh_row now r m = Some m' → m !! token r = None.
Proof. unfold insert_refresh_row, insert_key. destruct (refers r m), (m !! token r); done. Qed.

(** A taken row: it was in its table and is gone. *)
Ltac taken Ha Hsp :=
  destruct (take_live _ _ _ _) as [row m] eqn:E;
  destruct Ha as [[-> ->]|[Hx _]]; [|by simplify_eq]; destruct row as [row|]; cbn in Hsp; simplify_eq;
  apply taken_gone in E as [E Hm]; unfold present; cbn; rewrite E, Hm; split; [by eexists|]; intros [? ?]; done.

(** What is spent was present and no longer is. *)
Lemma spent_gone w s x db' c : keyed (db w) → answers w s x db' → spends (Event s x) = Some c →
  present (db w) c ∧ ¬ present db' c.
Proof.
  intros Hkey Ha%answers_inv Hsp. destruct s; try done; cbn in Ha, Hsp |- *;
    [unfold take_transaction in Ha; taken Ha Hsp|unfold take_code in Ha; taken Ha Hsp|
    |unfold take_pending in Ha; taken Ha Hsp].
  unfold rotate_refresh in Ha. destruct (matching _ _ =? 0) eqn:E.
  { destruct Ha as [[-> _]|[Hx _]]; simplify_eq. }
  destruct (insert_refresh_row _ _ _) as [m'|] eqn:Em.
  2: { destruct Ha as [[-> _]|[Hx _]]; simplify_eq. }
  destruct Ha as [[-> ->]|[Hx _]]; simplify_eq. apply Z.eqb_neq, matching_pos in E as (k & row & Hk & Hp & Hu).
  apply bool_decide_eq_true in Hp. rewrite (Hkey _ _ Hk) in Hp. subst k. split; [by exists row|].
  intros (row' & Hk' & Hu'). cbn in Hk'.
  destruct (insert_refresh_row_lookup _ _ _ _ _ _ Em Hk') as [Hr|[Heq _]].
  - apply revoke_where_lookup in Hr as Hr0. destruct Hr0 as (row0 & Hk0 & Hor).
    eapply revoke_where_revokes in Hr; [done| |done]. apply bool_decide_eq_true.
    destruct Hor as [->| ->]; exact (Hkey _ _ Hk0).
  - apply insert_refresh_row_new in Em. unfold revoke_where in Em. rewrite lookup_fmap, <- Heq, Hk in Em. done.
Qed.

(** ** Counting over a history *)

Definition issued (c : Credential) (h : history) : nat := length (filter (λ ie, issues (ev_call ie.2) = Some c) h).
Definition spent (c : Credential) (h : history) : nat := length (filter (λ ie, spends ie.2 = Some c) h).

Lemma keyed_runs w0 h w : keyed (db w0) → runs_to w0 h w → keyed (db w).
Proof.
  intros H0 Hr. induction Hr as [|h w1 now' Hr IH Hle|h w1 i s x db' Hr IH Ha]; cbn; [done..|].
  apply answers_db in Ha as [->| ->]; [done|by apply keyed_after].
Qed.

Lemma count_snoc {A} (P : A → Prop) `{!∀ x, Decision (P x)} l x :
  length (filter P (l ++ [x])) = (length (filter P l) + if decide (P x) then 1 else 0)%nat.
Proof. rewrite list.filter_app, length_app, filter_cons, filter_nil. by destruct (decide (P x)). Qed.

Lemma empty_absent c : ¬ present empty_db c.
Proof. destruct c as [[] k]; unfold present; cbn; [by intros [? []%lookup_empty_Some]..|]. by intros (? & []%lookup_empty_Some & _). Qed.

Lemma spent_issued w0 h w c : db w0 = empty_db → runs_to w0 h w →
  (spent c h + (if decide (present (db w) c) then 1 else 0) ≤ issued c h)%nat.
Proof.
  intros H0 Hr. induction Hr as [|h w1 now' Hr IH Hle|h w1 i s x db' Hr IH Ha]; cbn [db].
  - rewrite H0, decide_False by apply empty_absent. done.
  - done.
  - unfold spent, issued, history in *. rewrite !count_snoc. cbn [snd ev_call].
    assert (Hk : keyed (db w1)) by (eapply keyed_runs; [|done]; rewrite H0; by intros ? ? ?).
    assert (Hp : present db' c → present (db w1) c ∨ issues s = Some c)
      by (apply answers_db in Ha as [->| ->]; [tauto|apply present_after]).
    destruct (decide (spends (Event s x) = Some c)) as [Hsp|Hsp].
    + destruct (spent_gone _ _ _ _ _ Hk Ha Hsp) as [Hb Hn].
      rewrite decide_True in IH by done. rewrite (decide_False (P := present db' c)) by done. lia.
    + destruct (decide (present db' c)) as [Hb|Hb]; [|lia].
      destruct (Hp Hb) as [Hb'|Hi]; [rewrite decide_True in IH by done|rewrite (decide_True (P := issues s = Some c)) by done];
        repeat case_decide; lia.
Qed.

(** ** Names are random *)

(** A request issues one credential at most, under a name it drew. *)
Definition named (h : list (event Seam)) (s : Seam) : Prop :=
  match issues s with
  | Some c => Event RandomToken c.2 ∈ h ∧ Forall (λ e, issues (ev_call e) = None) h
  | None => True
  end.

Section Fresh.
Context (lib : Library) (cfg : AsConfig) (ema : option EmaDeps).

Ltac names := walk; try (split; [here|repeat constructor]).

Lemma token_named a req : guards (token_handler lib cfg ema a req) named [].
Proof.
  unfold token_handler.
  repeat match goal with |- guards (if bool_decide ?P then _ else _) _ _ => destruct (bool_decide P) end;
    (apply guards_bind; [|intros [] ?; names]).
  - unfold mint_id_jag. walk; unfold cross_app, sign_id_jag; names.
  - unfold redeem_id_jag, authenticate_client, verify_assertion, redeem_claims, mint_access_token. names.
  - unfold handle, handle_auth_code, handle_refresh, rotate, mint_tokens, mint_access_token. names.
Qed.

Lemma calls_named r : guards (acts lib cfg ema r) named [].
Proof.
  destruct r; cbn [acts]; try (apply guards_bind; [|done]).
  - unfold authorize_handle. names.
  - unfold callback_handler. apply guards_bind; [|intros [] ?; names].
    unfold callback_handle, grant_code, defer_to_screen. names.
  - unfold consent_get. names.
  - unfold consent_post, approve, consent_row. names.
  - apply token_named.
  - names.
  - names.
  - names.
Qed.

(** The draws of a history do not repeat. *)
Definition fresh (h : history) : Prop := NoDup (omap (λ ie, draws ie.2) h).

Lemma omap_twice {A B} (f : A → option B) l x y b :
  x ∈ l → y ∈ l → x ≠ y → f x = Some b → f y = Some b → ¬ NoDup (omap f l).
Proof.
  intros Hx Hy Hne Fx Fy. induction l as [|z l IH]; [inversion Hx|]. cbn.
  apply elem_of_cons in Hx as [->|Hx], Hy as [->|Hy]; [done|..].
  - rewrite Fx, NoDup_cons. intros [Hn _]. apply Hn, list_elem_of_omap. eauto.
  - rewrite Fy, NoDup_cons. intros [Hn _]. apply Hn, list_elem_of_omap. eauto.
  - destruct (f z); [rewrite NoDup_cons; intros [_ ?]|]; naive_solver.
Qed.

Lemma issued_again threads c h j s' x' i s x :
  serves lib cfg ema threads (h ++ [(j, Event s' x')]) → fresh (h ++ [(j, Event s' x')]) →
  issues s' = Some c → (i, Event s x) ∈ h → issues s ≠ Some c.
Proof.
  intros Hs Hf Hj Hin Hi.
  destruct (guarded lib cfg ema threads (λ _, named) h j s' x' [] calls_named Hs) as (r' & _ & Hn').
  unfold named in Hn'. rewrite Hj in Hn'. destruct Hn' as [Hd Hall].
  apply serves_prefix in Hs. apply list_elem_of_split in Hin as (h1 & h2 & ->).
  destruct (guarded lib cfg ema threads (λ _, named) h1 i s x _ calls_named Hs) as (r & _ & Hn).
  unfold named in Hn. rewrite Hi in Hn. destruct Hn as [Hn _]. apply elem_of_thread in Hn, Hd.
  assert (Hij : j ≠ i).
  { intros ->. rewrite thread_split, Forall_app, Forall_cons in Hall. destruct Hall as (_ & E & _). cbn in E. congruence. }
  revert Hf. unfold fresh. apply (omap_twice _ _ (i, Event RandomToken c.2) (j, Event RandomToken c.2) c.2).
  - rewrite !elem_of_app. tauto.
  - rewrite elem_of_app. tauto.
  - congruence.
  - done.
  - done.
Qed.

Lemma fresh_prefix h1 h2 : fresh (h1 ++ h2) → fresh h1.
Proof. unfold fresh. rewrite omap_app, NoDup_app. tauto. Qed.

Lemma issued_once threads c h : serves lib cfg ema threads h → fresh h → (issued c h ≤ 1)%nat.
Proof.
  induction h as [|[j [s x]] h IH] using rev_ind; intros Hs Hf; [cbn; lia|].
  pose proof (IH (serves_prefix _ _ _ _ _ _ Hs) (fresh_prefix _ _ Hf)) as IH'.
  unfold issued, history in *. rewrite count_snoc. cbn [snd ev_call]. case_decide as Hc; [|lia].
  assert (filter (λ ie : nat * event Seam, issues (ev_call ie.2) = Some c) h = []) as ->; [|cbn; lia].
  destruct (filter _ h) as [|[i [s' x']] l] eqn:E; [done|]. exfalso.
  assert (Hin : (i, Event s' x') ∈ filter (λ ie : nat * event Seam, issues (ev_call ie.2) = Some c) h)
    by (rewrite E; left).
  apply list_elem_of_filter in Hin as [Hi Hin]. exact (issued_again _ _ _ _ _ _ _ _ _ Hs Hf Hc Hin Hi).
Qed.

Lemma omap_nodup {A B} `{EqDecision B} (f : A → option B) l :
  (∀ b, (length (filter (λ x, f x = Some b) l) ≤ 1)%nat) → NoDup (omap f l).
Proof.
  induction l as [|x l IH]; intros H; [constructor|]. cbn. destruct (f x) as [b|] eqn:E.
  - constructor.
    + intros (y & Hy & Fy)%list_elem_of_omap. specialize (H b). rewrite filter_cons_True in H by done. cbn in H.
      assert (Hin : y ∈ filter (λ x, f x = Some b) l) by (by apply list_elem_of_filter).
      destruct (filter _ l); [inversion Hin|cbn in H; lia].
    + apply IH. intros b'. specialize (H b'). rewrite filter_cons in H. case_decide; cbn in H; lia.
  - apply IH. intros b'. specialize (H b'). rewrite filter_cons_False in H by congruence. done.
Qed.

(** C4. A transaction, an authorization code, a pending consent and a refresh token are
    each spent at most once: over any interleaving of requests from an empty store, with
    store calls that fail, no two answered calls take or rotate the same credential, as
    long as the random source does not repeat itself. A code is exchanged for tokens once,
    and of two concurrent refreshes with one token, one at most gets a successor. *)
Theorem credentials_are_spent_once threads w0 h w : db w0 = empty_db →
  runs_to w0 h w → serves lib cfg ema threads h → fresh h →
  NoDup (omap (λ ie, spends ie.2) h).
Proof.
  intros H0 Hr Hs Hf. apply omap_nodup. intros c.
  pose proof (spent_issued _ _ _ c H0 Hr). pose proof (issued_once _ c _ Hs Hf). unfold spent, history in *. lia.
Qed.

End Fresh.

Lemma credentials_are_spent_once_witness :
  omap (λ ie, spends ie.2) demo_history =
    [(KTransaction, "r2"); (KPending, "r13"); (KCode, "r21"); (KRefresh, "r29")] ∧
  NoDup (omap (λ ie, spends ie.2) demo_history).
Proof.
  split; [vm_compute; reflexivity|].
  refine (credentials_are_spent_once demo_lib (demo_config true) demo_ema demo_requests demo_world demo_history demo_end
    eq_refl demo_server_runs demo_serves _).
  unfold fresh. vm_compute. apply (bool_decide_unpack _). vm_compute. exact I.
Defined.

(** ** Assertions *)

Lemma clock_monotone w h w' : runs_to w h w' → clock w ≤ clock w'.
Proof. induction 1; cbn in *; lia. Qed.

Lemma marker_after now s d jti t :
  id_jag_jti d !! jti = Some t → id_jag_jti (after now s d) !! jti = Some t ∨ t < now.
Proof.
  intros H. unfold after. destruct s; cbn; auto;
    try (unfold insert_transaction, take_transaction, insert_code, take_code, insert_refresh, rotate_refresh,
           insert_pending, take_pending, revoke_consent; repeat case_match; simplify_eq; by auto).
  - unfold claim_id_jag_jti. destruct (id_jag_jti d !! jti0) eqn:E; [by left|]. left. cbn.
    rewrite lookup_insert_ne; [done|]. congruence.
  - destruct t0; cbn; auto. destruct (Z.ltb_spec t now); [by right|]. left. unfold sweep.
    apply map_lookup_filter_Some. split; [done|]. cbn. by apply Z.ltb_ge.
Qed.

(** An assertion is redeemed once while it is valid: after one request has claimed its
    replay marker, no later claim of the same [jti] succeeds before the marker's expiry,
    whatever else runs in between, the sweeper included. *)
Theorem assertion_redeemed_once_until_exp w1 jti t db1 h w2 t' db2 :
  answers w1 (ClaimIdJagJti jti t) (Ok true) db1 →
  runs_to {| clock := clock w1; db := db1 |} h w2 →
  answers w2 (ClaimIdJagJti jti t') (Ok true) db2 → timestamptz t < clock w2.
Proof.
  intros H1 Hr H2. apply answers_inv in H1, H2. cbn in H1, H2.
  assert (Hm : id_jag_jti db1 !! jti = Some (timestamptz t)).
  { unfold claim_id_jag_jti in H1. destruct (id_jag_jti (db w1) !! jti); destruct H1 as [[? ->]|[? _]]; try done.
    cbn. apply lookup_insert_eq. }
  assert (Hinv : id_jag_jti (db w2) !! jti = Some (timestamptz t) ∨ timestamptz t < clock w2).
  { clear H2. induction Hr as [|h w now' Hr IH Hle|h w i s x db' Hr IH Ha]; cbn; [by left|destruct IH; [by left|right; lia]|].
    destruct IH as [Hk|?]; [|by right]. apply answers_db in Ha as [->| ->]; [by left|]. by apply marker_after. }
  destruct Hinv as [Hk|?]; [|done]. unfold claim_id_jag_jti in H2. rewrite Hk in H2. by destruct H2 as [[? _]|[? _]].
Qed.

Lemma assertion_redeemed_once_until_exp_witness : timestamptz (seconds 1300) < seconds 1301.
Proof.
  refine (assertion_redeemed_once_until_exp demo_world "jag-1" (seconds 1300) (with_jtis {[ "jag-1" := seconds 1300 ]} empty_db)
    [(0%nat, Event (SweepExpired IdJagJti) (Ok 1))] {| clock := seconds 1301; db := empty_db |} (seconds 1300)
    (with_jtis {[ "jag-1" := seconds 1300 ]} empty_db) _ _ _).
  - apply answers_served. vm_compute. reflexivity.
  - refine (runs_event _ [] {| clock := seconds 1301; db := with_jtis {[ "jag-1" := seconds 1300 ]} empty_db |} 0 _ _ _ _ _).
    + refine (runs_tick _ _ _ (seconds 1301) (runs_nil _) _). vm_compute. discriminate.
    + apply answers_served. vm_compute. reflexivity.
  - apply answers_served. vm_compute. reflexivity.
Defined.

(** The sweeper drops a marker when the assertion's [exp] has passed, and the verifier
    accepts the assertion for another 30 seconds: a second later the same assertion
    claims its marker again. *)
Example swept_marker_is_claimed_again :
  let now := seconds 1301 in
  let d1 := (claim_id_jag_jti "jag-1" (seconds 1300) empty_db).2 in
  let d2 := (sweep_expired now IdJagJti d1).2 in
  (claim_id_jag_jti "jag-1" (seconds 1300) d1).1 = Ok false ∧ (claim_id_jag_jti "jag-1" (seconds 1300) d2).1 = Ok true ∧
  now < seconds (1300 + 30).
Proof. vm_compute. done. Qed.

End OauthCredentials.
