(* ===== verification/OauthRotation.v ===== *)
(** * Refresh chains

    A refresh token is replaced by its successor, so the tokens of a session form a
    chain. Over any history a chain does not fork and has one live token at most;
    the recursive query of [revoke_chain] finds exactly the descendants of the
    replayed token; and a revoked session has no live token until the person signs
    in again. *)

From S2P Require Import Prelude RustStr Json Facts Evidence Interact Cimd OauthStore OauthFlow OauthToken OauthRuns OauthTables OauthSpec OauthCredentials.
From stdpp Require Import relations.
Local Open Scope Z_scope.

Module OauthRotation.
Import Json.Json Facts.Facts Evidence.Evidence Interact.Interact Cimd.Cimd OauthStore.OauthStore OauthFlow.OauthFlow
  OauthToken.OauthToken OauthRuns.OauthRuns OauthRuns.OauthDemo OauthTables.OauthTables OauthSpec.OauthSpec OauthCredentials.OauthCredentials.

Notation Rows := (gmap string RefreshTokenRow).

(** [k] was rotated from [p]. *)
Definition succ (m : Rows) (p k : string) : Prop := ∃ row, m !! k = Some row ∧ rr_rotated_from row = Some p.

Definition live (m : Rows) (k : string) : Prop := ∃ row, m !! k = Some row ∧ rr_revoked_at row = None.

(** ** The query of [revoke_chain] *)

Lemma elem_of_rotated s m k : k ∈ rotated_rows s m ↔ ∃ p, p ∈ s ∧ succ m p k.
Proof.
  unfold rotated_rows, succ. rewrite elem_of_dom. unfold is_Some. setoid_rewrite map_lookup_filter_Some. cbn. split.
  - intros (row & Hk & H). destruct (rr_rotated_from row) as [p|] eqn:E; [|done]. apply bool_decide_eq_true in H. eauto.
  - intros (p & Hp & row & Hk & E). exists row. rewrite E. by rewrite bool_decide_eq_true.
Qed.

Lemma elem_of_rounds n m : ∀ s k, k ∈ chain_rounds n s m ↔ ∃ a i, a ∈ s ∧ (i < n)%nat ∧ nsteps (succ m) i a k.
Proof.
  induction n as [|n IH]; intros s k; cbn [chain_rounds].
  - split; [by intros ?%elem_of_empty|intros (a & i & _ & ? & _); lia].
  - rewrite elem_of_union, IH. setoid_rewrite elem_of_rotated. split.
    + intros [Hk|(a & i & (p & Hp & Hs) & Hi & Hn)].
      * exists k, 0%nat. split_and!; [done|lia|constructor].
      * exists p, (S i). split_and!; [done|lia|by econstructor].
    + intros (a & [|i] & Ha & Hi & Hn); inversion Hn; subst; [by left|]. right. eexists _, i. split_and!; [eauto|lia|done].
Qed.

Lemma succ_delete m t p k : succ m p k → k ≠ t → succ (delete t m) p k.
Proof. intros (row & Hk & E) Hne. exists row. by rewrite lookup_delete_ne. Qed.

Lemma succ_weaken m t p k : succ (delete t m) p k → succ m p k.
Proof. intros (row & [_ Hk]%lookup_delete_Some & E). by exists row. Qed.

(** A path can leave its first token for good. *)
Lemma last_exit m t k : rtc (succ m) t k → k = t ∨ ∃ t', succ m t t' ∧ t' ≠ t ∧ rtc (succ (delete t m)) t' k.
Proof.
  revert k. apply (rtc_ind_r (λ k, k = t ∨ ∃ t', succ m t t' ∧ t' ≠ t ∧ rtc (succ (delete t m)) t' k)); [by left|].
  intros p k Hp Hs IH.
  destruct (decide (k = t)) as [->|Hne]; [by left|]. right. destruct IH as [->|(t' & ? & ? & Hr)].
  - exists k. split_and!; [done..|constructor].
  - exists t'. split_and!; [done..|]. eapply rtc_r; [exact Hr|]. by apply succ_delete.
Qed.

Lemma rounds_enough n : ∀ m t k, size m = n → is_Some (m !! t) → rtc (succ m) t k →
  ∃ i, (i < n)%nat ∧ nsteps (succ m) i t k.
Proof.
  induction n as [|n IH]; intros m t k Hsz [row Ht] Hr.
  { apply map_size_empty_inv in Hsz as ->. by rewrite lookup_empty in Ht. }
  apply last_exit in Hr as [->|(t' & Hs & Hne & Hr)]; [exists 0%nat; split; [lia|constructor]|].
  destruct (IH (delete t m) t' k) as (i & Hi & Hn); [rewrite map_size_delete_Some; [lia|done]| |done|].
  { destruct (succ_delete _ _ _ _ Hs Hne) as (row' & Hk & _). eauto. }
  exists (S i). split; [lia|]. econstructor; [done|]. clear -Hn. induction Hn; econstructor; eauto using succ_weaken.
Qed.

(** The query finds the token and its descendants, nothing else. *)
Lemma elem_of_read_chain t d k :
  k ∈ read_chain t d ↔ is_Some (oauth_refresh_tokens d !! t) ∧ rtc (succ (oauth_refresh_tokens d)) t k.
Proof.
  unfold read_chain. rewrite elem_of_rounds.
  assert (Hst : ∀ a, a ∈ dom (filter (λ kv : string * RefreshTokenRow, kv.1 = t) (oauth_refresh_tokens d)) ↔
    a = t ∧ is_Some (oauth_refresh_tokens d !! t)).
  { intros a. rewrite elem_of_dom. unfold is_Some. setoid_rewrite map_lookup_filter_Some. cbn. naive_solver. }
  setoid_rewrite Hst. split.
  - intros (a & i & [-> Ht] & _ & Hn). split; [done|]. apply rtc_nsteps. eauto.
  - intros [Ht Hr]. destruct (rounds_enough _ _ _ _ eq_refl Ht Hr) as (i & Hi & Hn). exists t, i. split_and!; [done..|lia|done].
Qed.

(** ** Chains do not fork *)

Record linear (m : Rows) : Prop := {
  linear_keyed : ∀ k row, m !! k = Some row → rr_token row = k;
  linear_from : ∀ p k, succ m p k → is_Some (m !! p) ∧ ¬ live m p;
  linear_inj : ∀ p k k', succ m p k → succ m p k' → k = k';
}.

Lemma linear_below m p k : linear m → succ m p k → ¬ live m p.
Proof. intros H Hs. by destruct (linear_from _ H _ _ Hs). Qed.

Lemma descendants_comparable m a k k' : linear m → rtc (succ m) a k → rtc (succ m) a k' →
  rtc (succ m) k k' ∨ rtc (succ m) k' k.
Proof.
  intros Hl Hk. revert k'. induction Hk as [|a b k Hs Hr IH]; intros k' Hk'; [by left|].
  apply rtc_inv in Hk' as [<-|(b' & Hs' & Hr')]; [right; by econstructor|].
  rewrite (linear_inj _ Hl _ _ _ Hs' Hs) in Hr'. auto.
Qed.

Lemma one_live m a k k' : linear m → rtc (succ m) a k → rtc (succ m) a k' → live m k → live m k' → k = k'.
Proof.
  intros Hl Hk Hk' L L'. destruct (descendants_comparable _ _ _ _ Hl Hk Hk') as [H|H];
    apply rtc_inv in H as [E|(b & Hs & _)]; try done; exfalso; by eapply linear_below.
Qed.

(** ** Every call keeps chains linear *)

Lemma succ_revoke now q m p k : succ (revoke_where now q m) p k ↔ succ m p k.
Proof.
  unfold succ, revoke_where. setoid_rewrite lookup_fmap. destruct (m !! k) as [row|]; cbn; [|split; by intros (? & ? & _)].
  destruct (q row && unrevoked row); split; intros (? & [= <-] & ?); eauto.
Qed.

Lemma live_revoke now q m k : live (revoke_where now q m) k → live m k.
Proof. intros (row & Hk & Hr). by eapply revoke_where_present. Qed.

Lemma linear_revoke now q m : linear m → linear (revoke_where now q m).
Proof.
  intros H. constructor.
  - intros k row (row0 & Hk & [->| ->])%revoke_where_lookup; by apply (linear_keyed _ H) in Hk.
  - intros p k Hs%succ_revoke. destruct (linear_from _ H _ _ Hs) as [[row Hp] Hn]. split; [|by intros ?%live_revoke].
    unfold revoke_where. rewrite lookup_fmap, Hp. eauto.
  - intros p k k' Hs%succ_revoke Hs'%succ_revoke. by eapply linear_inj.
Qed.

Lemma linear_insert now r m m' : linear m → insert_refresh_row now r m = Some m' →
  (∀ p, rotated_from r = Some p → ¬ live m p ∧ ∀ k, ¬ succ m p k) → linear m'.
Proof.
  intros H Hi Hp.
  assert (Hs : ∀ p k, succ m' p k → succ m p k ∨ k = token r ∧ rotated_from r = Some p).
  { intros p k (row & Hk & E). destruct (insert_refresh_row_lookup _ _ _ _ _ _ Hi Hk) as [?|[-> ->]]; [left|right]; [by exists row|done]. }
  pose proof (insert_refresh_row_new _ _ _ _ Hi) as Hnew.
  assert (Hin : ∀ p, is_Some (m !! p) → is_Some (m' !! p) ∧ (live m' p → live m p)).
  { intros p [row Hrow]. assert (p ≠ token r) by congruence. unfold insert_refresh_row, insert_key in Hi.
    destruct (refers r m); [|done]. rewrite Hnew in Hi. injection Hi as <-.
    rewrite lookup_insert_ne by done. split; [eauto|]. unfold live. by rewrite lookup_insert_ne. }
  assert (Hfk : ∀ p, rotated_from r = Some p → is_Some (m !! p)).
  { intros p E. unfold insert_refresh_row, refers in Hi. rewrite E in Hi. by case_bool_decide. }
  constructor.
  - intros k row Hk. destruct (insert_refresh_row_lookup _ _ _ _ _ _ Hi Hk) as [?|[-> ->]]; [by eapply linear_keyed|done].
  - intros p k [Hk|[-> E]]%Hs; [destruct (linear_from _ H _ _ Hk) as [Hd Hl]|destruct (Hp _ E) as [Hl _]; apply Hfk in E as Hd];
      destruct (Hin p Hd) as [? ?]; split; auto.
  - intros p k k' [Hk|[-> E]]%Hs [Hk'|[-> E']]%Hs; [by eapply linear_inj|..|done];
      exfalso; [by apply (Hp _ E') in Hk|by apply (Hp _ E) in Hk'].
Qed.

Lemma linear_sweep now m : linear m → linear (sweep_refresh now m).
Proof.
  intros H.
  assert (Hs : ∀ p k, succ (sweep_refresh now m) p k → succ m p k ∧ is_Some (sweep_refresh now m !! p)).
  { intros p k (row & Hk & E). apply sweep_refresh_lookup in Hk as (row0 & Hk & ->). cbn in E.
    destruct (rr_rotated_from row0) as [p'|] eqn:E0; [|done]. cbn in E. case_bool_decide as Hd; [|done].
    injection E as ->. split; [by exists row0|]. unfold sweep_refresh. rewrite lookup_fmap. by rewrite fmap_is_Some. }
  constructor.
  - intros k row (row0 & Hk & ->)%sweep_refresh_lookup. by apply (linear_keyed _ H) in Hk.
  - intros p k [Hk Hd]%Hs. split; [done|]. intros (row & Hp & Hr). apply sweep_refresh_lookup in Hp as (row0 & Hp & ->).
    apply (linear_below _ _ _ H Hk). by exists row0.
  - intros p k k' [Hk _]%Hs [Hk' _]%Hs. by eapply linear_inj.
Qed.

(** How the endpoints store refresh tokens. *)
Definition chained (s : Seam) : Prop :=
  match s with
  | InsertRefresh r => rotated_from r = None
  | RotateRefresh p r => rotated_from r = Some p
  | _ => True
  end.

Lemma linear_after now s d : linear (oauth_refresh_tokens d) → chained s → linear (oauth_refresh_tokens (after now s d)).
Proof.
  intros H Hc. unfold after. destruct s; cbn; try done; try by apply linear_revoke.
  - unfold insert_transaction. by repeat case_match; simplify_eq.
  - unfold take_transaction. by repeat case_match; simplify_eq.
  - unfold insert_code. by repeat case_match; simplify_eq.
  - unfold take_code. by repeat case_match; simplify_eq.
  - unfold insert_refresh. destruct (insert_refresh_row _ _ _) eqn:E; [|done]. cbn in Hc |- *.
    eapply linear_insert; [done..|]. intros p Hp. congruence.
  - unfold rotate_refresh. destruct (matching _ _ =? 0)%Z eqn:E0; [done|].
    destruct (insert_refresh_row _ _ _) eqn:E; [|done]. cbn in Hc |- *.
    apply Z.eqb_neq, matching_pos in E0 as (k & row & Hk & Hp & Hu). apply bool_decide_eq_true in Hp.
    rewrite (linear_keyed _ H _ _ Hk) in Hp. subst k.
    eapply linear_insert; [by apply linear_revoke|done|]. rewrite Hc. intros q [= <-]. split.
    + intros (row' & Hk' & Hr). eapply revoke_where_revokes in Hk' as Hn; [done| |done].
      apply revoke_where_lookup in Hk' as (row0 & Hk0 & [->| ->]); apply bool_decide_eq_true; exact (linear_keyed _ H _ _ Hk0).
    + intros k Hs%succ_revoke. apply (linear_below _ _ _ H Hs). by exists row.
  - unfold claim_id_jag_jti. by repeat case_match; simplify_eq.
  - unfold insert_pending. by repeat case_match; simplify_eq.
  - unfold take_pending. by repeat case_match; simplify_eq.
  - unfold revoke_consent. repeat case_match; simplify_eq; done.
  - destruct t; try done. by apply linear_sweep.
Qed.

Section Chains.
Context (lib : Library) (cfg : AsConfig) (ema : option EmaDeps) (threads : list Request).
Context (w0 : World) (Hempty : db w0 = empty_db).

Lemma linear_runs h w : runs_to w0 h w → serves lib cfg ema threads h → linear (oauth_refresh_tokens (db w)).
Proof.
  intros Hr. induction Hr as [|h w1 now' Hr IH Hle|h w1 i s x db' Hr IH Ha]; intros Hs.
  - rewrite Hempty. split; [by intros ? ? ?|by intros ? ? (? & ? & _)|by intros ? ? ? (? & ? & _)].
  - by apply IH.
  - pose proof (IH (serves_prefix _ _ _ _ _ _ Hs)) as Hl. cbn. apply answers_db in Ha as [->| ->]; [done|].
    apply linear_after; [done|].
    destruct (guarded lib cfg ema threads _ _ _ _ _ _ (calls_justified lib cfg ema) Hs) as (r & _ & Hj).
    destruct s; try done; by destruct Hj.
Qed.

(** C21. A session has one live refresh token at most: in every reachable state, of the
    tokens rotated, directly or through others, from the same token, only one is not
    revoked, and a token that was rotated is revoked. *)
Theorem session_has_one_live_token h w a k k' : runs_to w0 h w → serves lib cfg ema threads h →
  let m := oauth_refresh_tokens (db w) in
  rtc (succ m) a k → rtc (succ m) a k' → live m k → live m k' → k = k'.
Proof. intros Hr Hs m. apply one_live. by eapply linear_runs. Qed.

(** ** A revoked session *)

(** A live token of the client for the person. *)
Definition alive (d : Db) (client u : string) : Prop :=
  ∃ k row, oauth_refresh_tokens d !! k = Some row ∧ rr_client_id row = client ∧ rr_sub row = u ∧ rr_revoked_at row = None.

Lemma alive_after now s d client u : keyed d → alive (after now s d) client u →
  alive d client u ∨
  (∃ r, s = InsertRefresh r ∧ rt_client_id r = client ∧ rt_sub r = u) ∨
  (∃ p r, s = RotateRefresh p r ∧ rt_client_id r = client ∧ rt_sub r = u ∧ live (oauth_refresh_tokens d) p).
Proof.
  intros Hkey (k & row & Hk & Hc & Hu & Hr).
  assert (Hw : ∀ q, revoke_where now q (oauth_refresh_tokens d) !! k = Some row → alive d client u).
  { intros q (row0 & Hk0 & [->| ->])%revoke_where_lookup; [|done]. by exists k, row0. }
  assert (Hd : oauth_refresh_tokens d !! k = Some row → alive d client u) by (intros; by exists k, row).
  destruct s; after_cases Hk; try (left; by eapply Hw); try (left; by apply Hd).
  - destruct (insert_refresh_row_lookup _ _ _ _ _ _ ltac:(eassumption) Hk) as [?|[-> ->]]; [by left; exists k, row|].
    right. left. by exists r.
  - destruct (insert_refresh_row_lookup _ _ _ _ _ _ ltac:(eassumption) Hk) as [Hk'|[-> ->]]; [left; by eapply Hw|].
    right. right. exists predecessor, successor. split_and!; [done..|].
    match goal with H : (matching _ _ =? 0)%Z = false |- _ => apply Z.eqb_neq, matching_pos in H as (k & row & Hk0 & Hp & Hun) end.
    apply bool_decide_eq_true in Hp. rewrite (Hkey _ _ Hk0) in Hp. subst k. by exists row.
  - apply sweep_refresh_lookup in Hk as (row0 & Hk & ->). left. by exists k, row0.
Qed.

Lemma only_one {A} (P : A → Prop) `{!∀ x, Decision (P x)} l x y :
  (length (filter P l) ≤ 1)%nat → x ∈ l → y ∈ l → P x → P y → x = y.
Proof.
  intros Hn Hx Hy Px Py. assert (Fx : x ∈ filter P l) by (by apply list_elem_of_filter).
  assert (Fy : y ∈ filter P l) by (by apply list_elem_of_filter).
  destruct (filter P l) as [|z [|z' l']]; cbn in Hn; [inversion Fx| |lia].
  apply list_elem_of_singleton in Fx, Fy. congruence.
Qed.

(** With names that do not repeat, a token's row is the one its call stored. *)
Lemma refresh_determined h w i k rt0 row : runs_to w0 h w → serves lib cfg ema threads h → fresh h →
  (i, Event (FindRefresh k) (Ok (Some rt0))) ∈ h →
  oauth_refresh_tokens (db w) !! k = Some row → row_grant row = grant_of_refresh rt0.
Proof.
  intros Hr Hs Hf Hin Hrow. destruct (runs_at w0 _ _ _ _ _ Hr Hin) as (h1 & h2 & w1 & db' & Hh & Hr1 & Ha).
  destruct (refresh_found w0 Hempty _ _ _ _ _ Hr1 Ha) as (j & s & x & r & Hj & Hi & Ht & ->).
  destruct (refresh_source w0 Hempty _ _ _ _ Hr Hrow) as (j' & s' & x' & r' & Hj' & Hi' & Ht' & ->).
  assert (Hiss : ∀ s r, inserted s = Some r → issues s = Some (KRefresh, token r)) by (intros [] ? [=]; subst; done).
  assert (E : (j, Event s x) = (j', Event s' x')).
  { eapply (only_one (λ ie, issues (ev_call ie.2) = Some (KRefresh, k)) h); cbn.
    - exact (issued_once lib cfg ema threads _ h Hs Hf).
    - rewrite Hh. apply elem_of_app. by left.
    - done.
    - rewrite (Hiss _ _ Hi). congruence.
    - rewrite (Hiss _ _ Hi'). congruence. }
  assert (s = s') by exact (f_equal (λ ie, ev_call ie.2) E). congruence.
Qed.

Lemma runs_app w1 h2 w2 h1 : runs_to w0 h1 w1 → runs_to w1 h2 w2 → runs_to w0 (h1 ++ h2) w2.
Proof.
  intros H1 H2. induction H2 as [|h w now' H IH Hle|h w i s x db' H IH Ha]; [by rewrite app_nil_r|by constructor|].
  rewrite app_assoc. by constructor.
Qed.

Lemma classic_alive d client u : alive d client u ∨ ¬ alive d client u.
Proof.
  destruct (decide (map_Exists (λ _ row, rr_client_id row = client ∧ rr_sub row = u ∧ rr_revoked_at row = None)
    (oauth_refresh_tokens d))) as [(k & row & H)|H]; [left; exists k, row; tauto|right].
  intros (k & row & Hk & Hrow). apply H. by exists k, row.
Qed.

(** A session without a live token gets one from a new sign-in only. *)
Lemma dead_step h w i s x db' client u : runs_to w0 h w → serves lib cfg ema threads (h ++ [(i, Event s x)]) →
  fresh (h ++ [(i, Event s x)]) → answers w s x db' → ¬ alive (db w) client u → alive db' client u →
  ∃ r, s = InsertRefresh r ∧ rt_client_id r = client ∧ rt_sub r = u.
Proof.
  intros Hr Hs Hf Ha Hn Hal. apply answers_db in Ha as [->| ->]; [done|].
  assert (Hk : keyed (db w)) by (apply (keyed_runs w0 h); [rewrite Hempty; by intros ? ? ?|done]).
  destruct (alive_after _ _ _ _ _ Hk Hal) as [?|[?|(p & r & -> & <- & <- & row & Hp & Hrow)]]; [done..|]. exfalso. apply Hn.
  destruct (guarded lib cfg ema threads _ _ _ _ _ _ (calls_justified lib cfg ema) Hs) as (req & _ & _ & rt0 & [Hfind _] & Hg).
  apply elem_of_thread in Hfind. apply serves_prefix in Hs. apply fresh_prefix in Hf.
  pose proof (refresh_determined _ _ _ _ _ _ Hr Hs Hf Hfind Hp) as E. rewrite <- Hg in E.
  exists p, row. split_and!; [done|exact (f_equal g_client E)|exact (f_equal g_sub E)|done].
Qed.

(** C22. A revoked session comes back through an authorization code only: after the
    administrator's revocation of a client's session for a person, answered at a moment when
    none of the session's unrevoked tokens had expired, no refresh that was already running,
    and none that comes later, leaves a live refresh token of that client and person. If the
    session is alive again, some token request stored a first refresh token for it after the
    revocation, having redeemed with its verifier an authorization code of that very grant.
    (The code may have been issued before the revocation, which does not withdraw codes.
    Histories start from an empty database, and the values drawn for states, codes and
    tokens are pairwise distinct.) *)
Theorem revoked_session_stays_dead h1 w1 i client u n db1 h2 w2 :
  let e := (i, Event (RevokeByClientSub client u) (Ok n)) in
  runs_to w0 h1 w1 → answers w1 (RevokeByClientSub client u) (Ok n) db1 →
  runs_to {| clock := clock w1; db := db1 |} h2 w2 →
  serves lib cfg ema threads (h1 ++ e :: h2) → fresh (h1 ++ e :: h2) →
  (∀ k row, oauth_refresh_tokens (db w1) !! k = Some row → rr_client_id row = client → rr_sub row = u →
     rr_revoked_at row = None → clock w1 < rr_expires_at row) →
  alive (db w2) client u →
  ∃ ha j r x hb req ic, h2 = ha ++ (j, Event (InsertRefresh r) x) :: hb ∧
    rt_client_id r = client ∧ rt_sub r = u ∧ rotated_from r = None ∧ threads !! j = Some req ∧
    redeemed lib req (of_thread j (h1 ++ e :: ha)) ic ∧ grant_of_refresh r = grant_of_code ic.
Proof.
  intros e Hr1 Ha Hr2 Hs Hf Hexp.
  assert (Hdead : ¬ alive db1 client u).
  { apply answers_inv in Ha. cbn in Ha. destruct Ha as [[_ ->]|[Hx _]]; [|done].
    intros (k & row & Hk & Hc & Hu & Hrev). cbn in Hk.
    apply revoke_where_lookup in Hk as Hk0. destruct Hk0 as (row0 & Hk0 & [->| ->]); [|done].
    eapply revoke_where_revokes in Hk; [done| |done].
    rewrite Hc, Hu, !bool_decide_true by done. apply Z.ltb_lt. eauto. }
  assert (Hrun : runs_to w0 (h1 ++ [e]) {| clock := clock w1; db := db1 |}) by (by constructor).
  assert (Hcons : ∀ l, h1 ++ e :: l = (h1 ++ [e]) ++ l) by (intros l; by rewrite <- app_assoc).
  rewrite Hcons in Hs, Hf. setoid_rewrite Hcons.
  induction Hr2 as [|h w now' Hr2 IH Hle|h w j s x db' Hr2 IH Ha2]; intros Hal; [done|by apply IH|].
  rewrite app_assoc in Hs, Hf. cbn in Hal.
  destruct (classic_alive (db w) client u) as [Hal'|Hn].
  - destruct IH as (ha & j' & r & x' & hb & req & ic & -> & H);
      [by eapply serves_prefix|by eapply fresh_prefix|done|].
    exists ha, j', r, x', (hb ++ [(j, Event s x)]), req, ic. by rewrite <- app_assoc.
  - destruct (dead_step _ _ _ _ _ _ _ _ (runs_app _ _ _ _ Hrun Hr2) Hs Hf Ha2 Hn Hal) as (r & -> & Hc & Hu).
    destruct (guarded lib cfg ema threads _ _ _ _ _ _ (calls_justified lib cfg ema) Hs)
      as (req & Hreq & Hrot & ic & Hred & Hg).
    by exists h, j, r, x, [], req, ic.
Qed.

End Chains.

(** C26. A replayed refresh token takes its whole chain down: the tokens that are live after
    [revoke_chain] are those that were live before and are neither the replayed token nor
    rotated from it, directly or through others; the recursive query reaches every one of
    them and touches no other session. *)
Theorem replay_revokes_the_chain now t d k : keyed d →
  let m := oauth_refresh_tokens d in
  live (oauth_refresh_tokens (revoke_tokens now (read_chain t d) d).2) k ↔
  live m k ∧ ¬ (is_Some (m !! t) ∧ rtc (succ m) t k).
Proof.
  intros Hkey m. unfold m at 2 3. rewrite <- elem_of_read_chain. generalize (read_chain t d). intros c.
  unfold live. cbn. unfold revoke_where. setoid_rewrite lookup_fmap. fold m.
  destruct (m !! k) as [row|] eqn:E; cbn; [|split; [by intros (? & ? & _)|by intros [(? & ? & _) _]]].
  rewrite (Hkey _ _ E). unfold unrevoked. destruct (bool_decide_reflect (k ∈ c)); cbn.
  - split; [intros (r & Hset & Hr)|by intros [_ []]]. injection Hset as <-.
    destruct (rr_revoked_at row) eqn:Er; cbn in Hr; congruence.
  - split; [intros (r & [= <-] & Hr)|intros [(r & [= <-] & Hr) _]]; eauto.
Qed.

(** ** A session on the demonstration server *)

Lemma demo_rotated : succ (oauth_refresh_tokens (db demo_end)) "r29" "r38".
Proof. eexists. split; [vm_compute; reflexivity|reflexivity]. Qed.

Lemma demo_live : live (oauth_refresh_tokens (db demo_end)) "r38".
Proof. eexists. split; [vm_compute; reflexivity|reflexivity]. Qed.

Lemma session_has_one_live_token_witness : ¬ live (oauth_refresh_tokens (db demo_end)) "r29".
Proof.
  intros L. assert (E : "r29" = "r38"); [|discriminate].
  exact (session_has_one_live_token demo_lib (demo_config true) demo_ema demo_requests demo_world eq_refl demo_history
    demo_end "r29" "r29" "r38" demo_server_runs demo_serves (rtc_refl _ _) (rtc_once _ _ demo_rotated) L demo_live).
Defined.

Lemma demo_server_keyed : keyed (db demo_end).
Proof. apply (keyed_runs demo_world demo_history); [by intros ? ? ?|apply demo_server_runs]. Qed.

Lemma replay_revokes_the_chain_witness :
  ¬ live (oauth_refresh_tokens (revoke_tokens 0 (read_chain "r29" (db demo_end)) (db demo_end)).2) "r38".
Proof.
  intros [_ H]%(replay_revokes_the_chain 0 "r29" (db demo_end) "r38" demo_server_keyed). apply H.
  split; [vm_compute; eauto|apply rtc_once, demo_rotated].
Defined.

(** The same sign-in, then an administrator revokes the session, then its token is used. *)
Definition revoked_requests : list Request :=
  take 4 demo_requests ++ [ReqRevokeSession "https://app.test/client.json" "alice"; ReqToken None (refresh_request "r29")].

Definition run_from (i n : nat) (l : list Request) (w : World) : history * World :=
  drive_all demo_lib (demo_config true) demo_ema demo_oracle i n l w.

Definition before_revocation : history * World := run_from 0 0 (take 4 demo_requests) demo_world.
Definition revocation : result Z StoreError * Db :=
  revoke_by_client_sub (clock before_revocation.2) "https://app.test/client.json" "alice" (db before_revocation.2).
Definition after_revocation : history * World :=
  run_from 5 (S (length before_revocation.1)) (drop 5 revoked_requests)
    {| clock := clock before_revocation.2; db := revocation.2 |}.

Lemma revoked_session_stays_dead_witness :
  oauth_refresh_tokens (db before_revocation.2) !! "r29" ≫= rr_revoked_at = None ∧
  ¬ alive (db after_revocation.2) "https://app.test/client.json" "alice".
Proof.
  split; [vm_compute; reflexivity|]. intros Hal.
  assert (E : before_revocation.1 ++ (4%nat, Event (RevokeByClientSub "https://app.test/client.json" "alice") (Ok 1))
    :: after_revocation.1 = (run_from 0 0 revoked_requests demo_world).1) by (vm_compute; reflexivity).
  destruct (revoked_session_stays_dead demo_lib (demo_config true) demo_ema revoked_requests demo_world eq_refl
    before_revocation.1 before_revocation.2 4 "https://app.test/client.json" "alice" 1 revocation.2
    after_revocation.1 after_revocation.2 (drive_from_start _ _ _ _ _ _ _ _)
    ltac:(apply answers_served; vm_compute; reflexivity) (drive_from_start _ _ _ _ _ _ _ _)
    ltac:(rewrite E; apply drive_all_serves)
    ltac:(rewrite E; unfold fresh; apply (bool_decide_unpack _); vm_compute; exact I)
    ltac:(intros k row Hk _ _ _; revert k row Hk;
          change (map_Forall (λ _ row, clock before_revocation.2 < rr_expires_at row)
            (oauth_refresh_tokens (db before_revocation.2)));
          apply (bool_decide_unpack _); vm_compute; exact I) Hal)
    as (ha & j & r & x & hb & req & ic & Hh & _).
  assert (Hno : Forall (λ ie : nat * event Seam, match ev_call ie.2 with InsertRefresh _ => False | _ => True end)
    after_revocation.1) by (vm_compute; repeat constructor).
  rewrite Hh, Forall_app in Hno. destruct Hno as [_ Hno]. inversion Hno; contradiction.
Defined.

(** ** Two races the store does not close *)

Definition demo_row (t : string) (expires : time) : RefreshTokenRow :=
  {| rr_token := t; rr_sub := "alice"; rr_email := None; rr_groups := strings_json []; rr_scopes := strings_json [];
     rr_client_id := "app"; rr_rotated_from := None; rr_issued_at := 0; rr_expires_at := expires;
     rr_revoked_at := None; rr_tenant_id := "corp" |}.

Definition demo_session (expires : time) : Db := with_refresh {[ "t0" := demo_row "t0" expires ]} empty_db.

Definition demo_successor (t predecessor : string) (expires : time) : RefreshToken :=
  {| token := t; rt_sub := "alice"; rt_email := None; rt_groups := []; rt_scopes := []; rt_client_id := "app";
     rotated_from := Some predecessor; rt_expires_at := expires; revoked_at := None; rt_tenant_id := "corp" |}.

(** The unexpired hypothesis of [revoked_session_stays_dead] is needed: a refresh that read
    its token just before it expired rotates it after the revocation, which skips expired
    rows, and the session goes on. *)
Example expired_session_survives_revocation :
  let d0 := demo_session (seconds 100) in
  let d1 := (revoke_by_client_sub (seconds 101) "app" "alice" d0).2 in
  let r := rotate_refresh (seconds 102) "t0" (demo_successor "t1" "t0" (seconds 500)) d1 in
  (seconds 100 <? seconds 99) = false ∧ r.1 = Ok true ∧ alive r.2 "app" "alice".
Proof. split_and!; [done..|]. exists "t1". eexists. by split_and!. Qed.

(** [revoke_chain] revokes the rows its query saw: [t0] was rotated and is replayed; a rotation
    of [t1] that commits between the query and the update keeps its successor. *)
Example rotation_escapes_replay :
  let d0 := (rotate_refresh (seconds 5) "t0" (demo_successor "t1" "t0" (seconds 500)) (demo_session (seconds 100))).2 in
  let snapshot := read_chain "t0" d0 in
  let d1 := (rotate_refresh (seconds 10) "t1" (demo_successor "t2" "t1" (seconds 500)) d0).2 in
  let d2 := (revoke_tokens (seconds 10) snapshot d1).2 in
  ¬ live (oauth_refresh_tokens d0) "t0" ∧ succ (oauth_refresh_tokens d2) "t0" "t1" ∧
  succ (oauth_refresh_tokens d2) "t1" "t2" ∧ live (oauth_refresh_tokens d2) "t2".
Proof.
  split_and!; [intros (row & Hk & Hr); vm_compute in Hk; injection Hk as <-; discriminate|..];
    eexists; (split; [vm_compute; reflexivity|reflexivity]).
Qed.

End OauthRotation.
