(* ===== verification/ExecutionTypes.v ===== *)
(** * Code-mode executions: data and tables

    The types of [waygate-codemode/src/lib.rs] and the tables of migrations 0078 to
    0099 with their CHECK constraints: an execution row is the current state of one
    run of a program, the event rows its append-only journal. *)

From S2P Require Import Prelude RustStr HashChain Json.
From stdpp Require Import pretty.
From Stdlib Require Import Ascii.
Local Open Scope Z_scope.

Module ExecutionTypes.
Import HashChain(Uuid) Json.Json.

(** ** Vocabulary *)

Inductive ExecutionStatus :=
  | Submitted | StAdmitted | Running | WaitingForApproval | WaitingForResume | Compensating
  | Compensated | Succeeded | Failed | Cancelled | Expired | Ambiguous
  | ReconciledApplied | ReconciledNotApplied.

#[global] Instance ExecutionStatus_eq_dec : EqDecision ExecutionStatus.
Proof. solve_decision. Defined.

Definition status_as_str (s : ExecutionStatus) : string :=
  match s with
  | Submitted => "submitted" | StAdmitted => "admitted" | Running => "running"
  | WaitingForApproval => "waiting_for_approval" | WaitingForResume => "waiting_for_resume"
  | Compensating => "compensating" | Compensated => "compensated" | Succeeded => "succeeded"
  | Failed => "failed" | Cancelled => "cancelled" | Expired => "expired" | Ambiguous => "ambiguous"
  | ReconciledApplied => "reconciled_applied" | ReconciledNotApplied => "reconciled_not_applied"
  end.

Definition all_statuses : list ExecutionStatus :=
  [Submitted; StAdmitted; Running; WaitingForApproval; WaitingForResume; Compensating; Compensated;
   Succeeded; Failed; Cancelled; Expired; Ambiguous; ReconciledApplied; ReconciledNotApplied].

Definition status_parse (v : string) : option ExecutionStatus :=
  find_first (λ s, bool_decide (status_as_str s = v)) all_statuses.

Definition is_terminal (s : ExecutionStatus) : bool :=
  match s with
  | Compensated | Succeeded | Failed | Cancelled | Expired | ReconciledApplied | ReconciledNotApplied => true
  | _ => false
  end.

Inductive ExecutionEventKind :=
  | EvSubmitted | EvAdmitted | EvClaimed | EvRunning | EvStepStarted | EvConnectorCallStarted
  | EvConnectorCallSucceeded | EvConnectorCallFailed | EvArtifactEmitted | EvWaitingForApproval
  | EvWaitingForResume | EvResumed | EvCancellationRequested | EvCancelled | EvSucceeded | EvFailed
  | EvExpired | EvAmbiguous | EvReconciledApplied | EvReconciledNotApplied | EvCompensating | EvCompensated.

Definition kind_as_str (k : ExecutionEventKind) : string :=
  match k with
  | EvSubmitted => "submitted" | EvAdmitted => "admitted" | EvClaimed => "claimed" | EvRunning => "running"
  | EvStepStarted => "step_started" | EvConnectorCallStarted => "connector_call_started"
  | EvConnectorCallSucceeded => "connector_call_succeeded" | EvConnectorCallFailed => "connector_call_failed"
  | EvArtifactEmitted => "artifact_emitted" | EvWaitingForApproval => "waiting_for_approval"
  | EvWaitingForResume => "waiting_for_resume" | EvResumed => "resumed"
  | EvCancellationRequested => "cancellation_requested" | EvCancelled => "cancelled"
  | EvSucceeded => "succeeded" | EvFailed => "failed" | EvExpired => "expired" | EvAmbiguous => "ambiguous"
  | EvReconciledApplied => "reconciled_applied" | EvReconciledNotApplied => "reconciled_not_applied"
  | EvCompensating => "compensating" | EvCompensated => "compensated"
  end.

(** ** Executions *)

(** The columns an UPDATE changes. *)
Record State := {
  source : option string;
  tool_snapshot : option Value;
  sdk_contract_version : Z;
  runner_contract_version : Z;
  status : ExecutionStatus;
  terminal_reason_code : option string;
  result_metadata : option Value;
  result_payload : option Value;
  resume_context : option Value;
  claim_owner : option Uuid;
  claim_epoch : Z;
  claim_expires_at : option time;
  cancellation_requested_at : option time;
  cancellation_reason_code : option string;
  updated_at : time;
  completed_at : option time;
}.

Record Execution := {
  ex_id : Uuid;
  ex_tenant_id : string;
  ex_principal_sub : string;
  ex_principal_issuer : option string;
  ex_source_digest : string;
  ex_program_input : option Value;
  ex_execution_profile : Value;
  ex_submitted_at : time;
  ex_retention_until : time;
  ex_start_dedupe_key : option string;
  ex_state :> State;
}.

Definition with_state (f : State → State) (e : Execution) : Execution := {|
  ex_id := ex_id e; ex_tenant_id := ex_tenant_id e; ex_principal_sub := ex_principal_sub e;
  ex_principal_issuer := ex_principal_issuer e; ex_source_digest := ex_source_digest e;
  ex_program_input := ex_program_input e; ex_execution_profile := ex_execution_profile e;
  ex_submitted_at := ex_submitted_at e; ex_retention_until := ex_retention_until e;
  ex_start_dedupe_key := ex_start_dedupe_key e; ex_state := f (ex_state e) |}.

(** Groups of columns that are written together. *)
Definition set_program (src : option string) (snap : option Value) (sdk runner : Z) (s : State) : State := {|
  source := src; tool_snapshot := snap; sdk_contract_version := sdk; runner_contract_version := runner;
  status := status s; terminal_reason_code := terminal_reason_code s; result_metadata := result_metadata s;
  result_payload := result_payload s; resume_context := resume_context s; claim_owner := claim_owner s;
  claim_epoch := claim_epoch s; claim_expires_at := claim_expires_at s;
  cancellation_requested_at := cancellation_requested_at s; cancellation_reason_code := cancellation_reason_code s;
  updated_at := updated_at s; completed_at := completed_at s |}.

Definition set_outcome (st : ExecutionStatus) (reason : option string) (completed : option time) (s : State) : State := {|
  source := source s; tool_snapshot := tool_snapshot s; sdk_contract_version := sdk_contract_version s;
  runner_contract_version := runner_contract_version s; status := st; terminal_reason_code := reason;
  result_metadata := result_metadata s; result_payload := result_payload s; resume_context := resume_context s;
  claim_owner := claim_owner s; claim_epoch := claim_epoch s; claim_expires_at := claim_expires_at s;
  cancellation_requested_at := cancellation_requested_at s; cancellation_reason_code := cancellation_reason_code s;
  updated_at := updated_at s; completed_at := completed |}.

Definition set_results (metadata payload resume : option Value) (s : State) : State := {|
  source := source s; tool_snapshot := tool_snapshot s; sdk_contract_version := sdk_contract_version s;
  runner_contract_version := runner_contract_version s; status := status s;
  terminal_reason_code := terminal_reason_code s; result_metadata := metadata; result_payload := payload;
  resume_context := resume; claim_owner := claim_owner s; claim_epoch := claim_epoch s;
  claim_expires_at := claim_expires_at s; cancellation_requested_at := cancellation_requested_at s;
  cancellation_reason_code := cancellation_reason_code s; updated_at := updated_at s; completed_at := completed_at s |}.

Definition set_claim (owner : option Uuid) (epoch : Z) (expires : option time) (s : State) : State := {|
  source := source s; tool_snapshot := tool_snapshot s; sdk_contract_version := sdk_contract_version s;
  runner_contract_version := runner_contract_version s; status := status s;
  terminal_reason_code := terminal_reason_code s; result_metadata := result_metadata s;
  result_payload := result_payload s; resume_context := resume_context s; claim_owner := owner;
  claim_epoch := epoch; claim_expires_at := expires; cancellation_requested_at := cancellation_requested_at s;
  cancellation_reason_code := cancellation_reason_code s; updated_at := updated_at s; completed_at := completed_at s |}.

Definition set_cancellation (at_ : option time) (reason : option string) (s : State) : State := {|
  source := source s; tool_snapshot := tool_snapshot s; sdk_contract_version := sdk_contract_version s;
  runner_contract_version := runner_contract_version s; status := status s;
  terminal_reason_code := terminal_reason_code s; result_metadata := result_metadata s;
  result_payload := result_payload s; resume_context := resume_context s; claim_owner := claim_owner s;
  claim_epoch := claim_epoch s; claim_expires_at := claim_expires_at s; cancellation_requested_at := at_;
  cancellation_reason_code := reason; updated_at := updated_at s; completed_at := completed_at s |}.

(** The trigger [touch_updated_at]. *)
Definition touch (now : time) (s : State) : State := {|
  source := source s; tool_snapshot := tool_snapshot s; sdk_contract_version := sdk_contract_version s;
  runner_contract_version := runner_contract_version s; status := status s;
  terminal_reason_code := terminal_reason_code s; result_metadata := result_metadata s;
  result_payload := result_payload s; resume_context := resume_context s; claim_owner := claim_owner s;
  claim_epoch := claim_epoch s; claim_expires_at := claim_expires_at s;
  cancellation_requested_at := cancellation_requested_at s; cancellation_reason_code := cancellation_reason_code s;
  updated_at := now; completed_at := completed_at s |}.

(** ** Requests *)

Record NewExecution := {
  ne_id : Uuid;
  ne_tenant_id : string;
  ne_principal_sub : string;
  ne_principal_issuer : string;
  ne_source : option string;
  ne_source_digest : string;
  ne_program_input : option Value;
  ne_execution_profile : Value;
  ne_sdk_contract_version : Z;
  ne_runner_contract_version : Z;
  ne_retention_until : time;
}.

Record ExecutionClaim := { cl_execution_id : Uuid; cl_tenant_id : string; cl_owner : Uuid; cl_epoch : Z }.

Record StartExecution := {
  se_execution : NewExecution;
  se_dedupe_key : string;
  se_source_locator : option string;
  se_repeat_after : option Uuid;
  se_owner : Uuid;
  se_lease : duration;
  se_source : string;
  se_tool_snapshot : Value;
}.

Inductive StartExecutionResult :=
  | Claimed (e : Execution) (c : ExecutionClaim)
  | Existing (e : Execution)
  | RepeatUnavailable
  | RepeatNotTerminal (e : Execution).

Record RetryEquivalence := {
  re_tenant_id : string;
  re_principal_sub : string;
  re_principal_issuer : string;
  re_dedupe_key : string;
  re_source_digest : string;
  re_execution_profile : Value;
}.

Record ResumeExecution := {
  rx_tenant_id : string;
  rx_principal_sub : string;
  rx_principal_issuer : string;
  rx_id : Uuid;
  rx_owner : Uuid;
  rx_lease : duration;
  rx_expected_status : ExecutionStatus;
  rx_resume_context : Value;
  rx_expected_claim_epoch : Z;
  rx_expected_resume_context : option Value;
  rx_expected_source_digest : string;
  rx_expected_tool_snapshot : Value;
  rx_expected_sdk_contract_version : Z;
  rx_expected_runner_contract_version : Z;
  rx_next_sdk_contract_version : Z;
  rx_next_runner_contract_version : Z;
}.

Record NewExecutionEvent := {
  nv_kind : ExecutionEventKind;
  nv_step_number : option Z;
  nv_call_id : option Uuid;
  nv_attempt : option Z;
  nv_detail : Value;
}.

Record ExecutionEvent := {
  vt_id : Z;
  vt_execution_id : Uuid;
  vt_tenant_id : string;
  vt_kind : string;
  vt_step_number : option Z;
  vt_call_id : option Uuid;
  vt_attempt : option Z;
  vt_detail : Value;
  vt_created_at : time;
}.

Record ExecutionTransition := {
  tn_from : list ExecutionStatus;
  tn_to : ExecutionStatus;
  tn_event : NewExecutionEvent;
  tn_terminal_reason_code : option string;
  tn_result_metadata : option Value;
  tn_result_payload : option Value;
  tn_resume_context : option Value;
}.

Record SourceArtifactOwner := { so_tenant_id : string; so_principal_sub : string; so_principal_issuer : string }.

#[global] Instance SourceArtifactOwner_eq_dec : EqDecision SourceArtifactOwner.
Proof. solve_decision. Defined.
#[global] Instance SourceArtifactOwner_countable : Countable SourceArtifactOwner.
Proof.
  refine (inj_countable' (λ o, (so_tenant_id o, so_principal_sub o, so_principal_issuer o))
    (λ '(t, u, i), {| so_tenant_id := t; so_principal_sub := u; so_principal_issuer := i |}) _).
  by intros [].
Defined.

Record RetainedSource := { rs_source : string; rs_source_digest : string; rs_expires_at : time }.
Record SourceLocator := { sl_source_digest : string; sl_expires_at : time }.
Record DetachedExecutionSlot := { ds_principal : SourceArtifactOwner; ds_holder : Uuid }.
Record SlotRow := { sr_holder : Uuid; sr_lease_expires_at : time }.
Record AbandonedExecution := { ab_owner : SourceArtifactOwner; ab_id : Uuid }.

Record SourceRetentionLimits := { owner_bytes : Z; tenant_bytes : Z; owner_count : Z; tenant_count : Z }.

(** ** Tables *)

Record Db := {
  tenants : gset string;
  executions : gmap Uuid Execution;
  events : list ExecutionEvent;
  next_event : Z;
  locators : gmap (SourceArtifactOwner * string) SourceLocator;
  sources : gmap (SourceArtifactOwner * string) RetainedSource;
  slots : gmap SourceArtifactOwner SlotRow;
}.

Definition with_executions (m : gmap Uuid Execution) (d : Db) : Db := {|
  tenants := tenants d; executions := m; events := events d; next_event := next_event d;
  locators := locators d; sources := sources d; slots := slots d |}.
Definition with_events (l : list ExecutionEvent) (n : Z) (d : Db) : Db := {|
  tenants := tenants d; executions := executions d; events := l; next_event := n;
  locators := locators d; sources := sources d; slots := slots d |}.
Definition with_locators (m : gmap (SourceArtifactOwner * string) SourceLocator) (d : Db) : Db := {|
  tenants := tenants d; executions := executions d; events := events d; next_event := next_event d;
  locators := m; sources := sources d; slots := slots d |}.
Definition with_sources (m : gmap (SourceArtifactOwner * string) RetainedSource) (d : Db) : Db := {|
  tenants := tenants d; executions := executions d; events := events d; next_event := next_event d;
  locators := locators d; sources := m; slots := slots d |}.
Definition with_slots (m : gmap SourceArtifactOwner SlotRow) (d : Db) : Db := {|
  tenants := tenants d; executions := executions d; events := events d; next_event := next_event d;
  locators := locators d; sources := sources d; slots := m |}.

(** ** Constraints *)

Definition i64_max : Z := 2 ^ 63 - 1.

Definition is_some {A} (o : option A) : bool := match o with Some _ => true | None => false end.

(** The CHECKs of [codemode_executions]. *)
Definition row_ok (e : Execution) : bool :=
  (0 <=? claim_epoch e) && (claim_epoch e <=? i64_max)
  && Bool.eqb (is_some (claim_owner e)) (is_some (claim_expires_at e))
  && Bool.eqb (is_terminal (status e)) (is_some (completed_at e))
  && (negb (bool_decide (status e ∈ [Failed; Cancelled; Expired; Ambiguous])) || is_some (terminal_reason_code e))
  && match cancellation_reason_code e with
     | None => true
     | Some r => bool_decide (r ∈ ["cancelled_by_client"; "cancelled_by_operator"])
     end
  && negb (bool_decide (ex_start_dedupe_key e = Some "")).

Definition positive (o : option Z) : bool := match o with Some n => 0 <? n | None => true end.

Definition event_ok (v : NewExecutionEvent) : bool := positive (nv_step_number v) && positive (nv_attempt v).

(** [length(x) = 64 AND x ~ '^[0-9a-f]+$'] *)
Definition is_lower_hex (a : ascii) : bool := is_ascii_digit a || ((97 <=? byte_val a) && (byte_val a <=? 102))%N.
Definition hex_digest (s : string) : bool := (length (as_bytes s) =? 64)%nat && forallb is_lower_hex (as_bytes s).

(** ** Texts *)

Definition hex_digit (n : N) : ascii := if (n <? 10)%N then ascii_of_N (48 + n) else ascii_of_N (87 + n).

Fixpoint hex_digits (count : nat) (n : N) : bytes :=
  match count with O => [] | S c => hex_digits c (n / 16) ++ [hex_digit (n mod 16)] end.

(** [Uuid::to_string] *)
Definition uuid_text (u : Uuid) : string :=
  let l := hex_digits 32 u in
  let part (a n : nat) := of_bytes (take n (drop a l)) in
  part 0%nat 8%nat +:+ "-" +:+ part 8%nat 4%nat +:+ "-" +:+ part 12%nat 4%nat +:+ "-" +:+ part 16%nat 4%nat
    +:+ "-" +:+ part 20%nat 12%nat.

Definition num (n : Z) : Value := Number (pretty n).

(** [detail->>'key' = 'true'] *)
Definition says_true (key : string) (v : Value) : bool :=
  match get key v with
  | Some (Bool true) => true
  | Some (Str s) => bool_decide (s = "true")
  | _ => false
  end.

(** [lease_seconds], as a duration *)
Definition lease_seconds (lease : duration) : duration :=
  Z.min (Z.max (lease / nanos_per_sec) 1) i64_max * nanos_per_sec.

End ExecutionTypes.
