(* ===== verification/ExecutionStore.v ===== *)
(** * Code-mode executions: the store

    [PgExecutionStore] of [waygate-codemode/src/store.rs], operation by operation.
    Each method is one transaction on the tables of [ExecutionTypes]; an error rolls
    it back. [now] is the transaction's [now()]. What [jsonb] equality and the order
    of [FOR UPDATE SKIP LOCKED] depend on are parameters: the equality test, and the
    rows a purge finds unlocked. Identity columns may skip numbers; only their order
    is used. *)

From S2P Require Import Prelude RustStr HashChain Json OauthStore ExecutionTypes.
Local Open Scope Z_scope.

Module ExecutionStore.
Import HashChain(Uuid) Json.Json OauthStore(timestamptz) ExecutionTypes.ExecutionTypes.

Inductive StoreError := Sqlx | Conflict.

(** ** Transactions *)

Definition Tx (A : Type) : Type := Db → result (A * Db) StoreError.

Definition tx_ret {A} (a : A) : Tx A := λ d, Ok (a, d).
Definition tx_fail {A} (e : StoreError) : Tx A := λ _, Err e.
Definition tx_bind {A B} (t : Tx A) (f : A → Tx B) : Tx B := λ d,
  match t d with Ok (a, d') => f a d' | Err e => Err e end.
Definition tx_read {A} (f : Db → A) : Tx A := λ d, Ok (f d, d).

Notation "'let+' x ':=' t 'in' k" := (tx_bind t (λ x, k))
  (at level 10, x pattern, t at level 100, k at level 200) : waygate_scope.

Definition commit {A} (t : Tx A) (d : Db) : result A StoreError * Db :=
  match t d with Ok (a, d') => (Ok a, d') | Err e => (Err e, d) end.

(** UPDATE of one row by tenant and id, with RETURNING. *)
Definition update_execution (now : time) (tenant : string) (id : Uuid) (p : Execution → bool) (f : State → State)
  : Tx (option Execution) := λ d,
  match executions d !! id with
  | Some e =>
      if bool_decide (ex_tenant_id e = tenant) && p e then
        let e' := with_state (λ s, touch now (f s)) e in
        if row_ok e' then Ok (Some e', with_executions (<[id := e']> (executions d)) d) else Err Sqlx
      else Ok (None, d)
  | None => Ok (None, d)
  end.

(** INSERT of an execution: its primary key, its tenant and the CHECKs. *)
Definition insert_execution (e : Execution) : Tx unit := λ d,
  match executions d !! ex_id e with
  | Some _ => Err Sqlx
  | None =>
      if bool_decide (ex_tenant_id e ∈ tenants d) && row_ok e
      then Ok (tt, with_executions (<[ex_id e := e]> (executions d)) d) else Err Sqlx
  end.

Definition insert_event (now : time) (id : Uuid) (tenant : string) (v : NewExecutionEvent) : Tx unit := λ d,
  match executions d !! id with
  | Some e =>
      if bool_decide (ex_tenant_id e = tenant) && event_ok v then
        Ok (tt, with_events (events d ++ [{| vt_id := next_event d; vt_execution_id := id; vt_tenant_id := tenant;
                  vt_kind := kind_as_str (nv_kind v); vt_step_number := nv_step_number v; vt_call_id := nv_call_id v;
                  vt_attempt := nv_attempt v; vt_detail := nv_detail v; vt_created_at := now |}])
                (next_event d + 1) d)
      else Err Sqlx
  | None => Err Sqlx
  end.

Definition plain (k : ExecutionEventKind) (detail : Value) : NewExecutionEvent :=
  {| nv_kind := k; nv_step_number := None; nv_call_id := None; nv_attempt := None; nv_detail := detail |}.

(** ** Predicates of the WHERE clauses *)

Definition expired (t : option time) (now : time) : bool := match t with Some t => t <=? now | None => false end.
Definition unexpired (t : option time) (now : time) : bool := match t with Some t => now <? t | None => false end.
Definition is_none {A} (o : option A) : bool := negb (is_some o).

Definition owned_by (sub issuer : string) (e : Execution) : bool :=
  bool_decide (ex_principal_sub e = sub) && bool_decide (ex_principal_issuer e = Some issuer).

(** The fence of a claim. *)
Definition held (c : ExecutionClaim) (e : Execution) : bool :=
  bool_decide (claim_owner e = Some (cl_owner c)) && (claim_epoch e =? cl_epoch c).

(** The runner's token of [claim]: [claim_owner IS NULL OR claim_expires_at <= now()]. *)
Definition unclaimed (now : time) (e : Execution) : bool := is_none (claim_owner e) || expired (claim_expires_at e) now.

(** ** Retention *)

Definition RETENTION_SWEEP_BATCH_SIZE : nat := 100.

(** The rows a purge finds unlocked, oldest first. *)
Record Unlocked := {
  ul_locators : list (SourceArtifactOwner * string);
  ul_sources : list (SourceArtifactOwner * string);
  ul_completed : list Uuid;
  ul_abandoned : list Uuid;
  ul_slots : list SourceArtifactOwner;
}.

(** DELETE of a batch of the rows [p] selects. *)
Definition sweep_batch {K V} `{Countable K} (p : V → bool) (unlocked : list K) (m : gmap K V) : gmap K V :=
  let batch := take RETENTION_SWEEP_BATCH_SIZE (filter (λ k, (default false (p <$> m !! k)) = true) unlocked) in
  foldr (λ k m, delete k m) m batch.

(** The events of deleted executions go with them. *)
Definition cascade (m : gmap Uuid Execution) (l : list ExecutionEvent) : list ExecutionEvent :=
  filter (λ v, is_Some (m !! vt_execution_id v)) l.

Definition retention_over (now : time) (e : Execution) : bool := ex_retention_until e <=? now.

Definition purge_expired_state (now : time) (u : Unlocked) : Tx unit := λ d,
  let l := sweep_batch (λ r, sl_expires_at r <=? now) (ul_locators u) (locators d) in
  let s := sweep_batch (λ r, rs_expires_at r <=? now) (ul_sources u) (sources d) in
  let x := sweep_batch (λ e, retention_over now e && is_some (completed_at e)) (ul_completed u) (executions d) in
  let x := sweep_batch (λ e, retention_over now e && is_none (completed_at e) && unclaimed now e) (ul_abandoned u) x in
  let p := sweep_batch (λ r, sr_lease_expires_at r <=? now - 86400 * nanos_per_sec) (ul_slots u) (slots d) in
  Ok (tt, with_slots p (with_sources s (with_locators l
        (with_events (cascade x (events d)) (next_event d) (with_executions x d))))).

(** ** Source locators *)

Definition MAX_SOURCE_LOCATORS_PER_OWNER : Z := 256.
Definition MAX_SOURCE_LOCATORS_PER_TENANT : Z := 4096.

(** [count( * ) FILTER …] over the live rows of a tenant. *)
Definition live_locators (now : time) (p : SourceArtifactOwner * string → bool) (tenant : string)
    (m : gmap (SourceArtifactOwner * string) SourceLocator) : Z :=
  Z.of_nat (size (filter (λ kv, bool_decide (so_tenant_id kv.1.1 = tenant) && (now <? sl_expires_at kv.2) && p kv.1 = true) m)).

(** [i64::saturating_add] *)
Definition saturating_add (a b : Z) : Z := Z.min i64_max (a + b).

Definition bind_source_locator_row (now : time) (owner : SourceArtifactOwner) (locator digest : string)
    (expires_at : time) : Tx unit := λ d,
  let tenant_count := live_locators now (λ k, negb (bool_decide (k = (owner, locator)))) (so_tenant_id owner) (locators d) in
  let owner_count := live_locators now (λ k, bool_decide (k.1 = owner) && negb (bool_decide (k.2 = locator)))
                       (so_tenant_id owner) (locators d) in
  if (MAX_SOURCE_LOCATORS_PER_TENANT <? saturating_add tenant_count 1)
     || (MAX_SOURCE_LOCATORS_PER_OWNER <? saturating_add owner_count 1) then Err Conflict
  else
    let row e := {| sl_source_digest := digest; sl_expires_at := e |} in
    if negb (hex_digest locator && hex_digest digest && bool_decide (so_tenant_id owner ∈ tenants d)) then Err Sqlx
    else match locators d !! (owner, locator) with
         | None => Ok (tt, with_locators (<[(owner, locator) := row (timestamptz expires_at)]> (locators d)) d)
         | Some r =>
             if bool_decide (sl_source_digest r = digest)
             then Ok (tt, with_locators (<[(owner, locator) := row (Z.max (sl_expires_at r) (timestamptz expires_at))]> (locators d)) d)
             else Err Conflict
         end.

Definition owner_of (n : NewExecution) : SourceArtifactOwner := {|
  so_tenant_id := ne_tenant_id n; so_principal_sub := ne_principal_sub n; so_principal_issuer := ne_principal_issuer n |}.

Definition bind_source_locator_tx (now : time) (n : NewExecution) (locator : option string) : Tx unit :=
  match locator with
  | None => tx_ret tt
  | Some l => bind_source_locator_row now (owner_of n) l (ne_source_digest n) (ne_retention_until n)
  end.

Definition bind_source_locator (now : time) (u : Unlocked) (owner : SourceArtifactOwner) (locator digest : string)
    (expires_at : time) : Db → result unit StoreError * Db :=
  commit (let+ _ := purge_expired_state now u in bind_source_locator_row now owner locator digest expires_at).

Definition resolve_source_locator (now : time) (owner : SourceArtifactOwner) (locator : string) (d : Db)
  : result (option string) StoreError :=
  Ok (r ← locators d !! (owner, locator); if now <? sl_expires_at r then Some (sl_source_digest r) else None).

(** ** Retained sources *)

Definition source_usage (now : time) (p : SourceArtifactOwner * string → bool)
    (m : gmap (SourceArtifactOwner * string) RetainedSource) : Z * Z :=
  map_fold (λ k r acc, if (now <? rs_expires_at r) && p k
                       then (acc.1 + 1, acc.2 + Z.of_nat (length (as_bytes (rs_source r)))) else acc) (0, 0) m.

Definition retain_source (limits : SourceRetentionLimits) (now : time) (u : Unlocked) (owner : SourceArtifactOwner)
    (src digest : string) (retention : duration) : Db → result RetainedSource StoreError * Db :=
  commit (let+ _ := purge_expired_state now u in λ d,
    let t := source_usage now (λ k, bool_decide (so_tenant_id k.1 = so_tenant_id owner)
                                    && negb (bool_decide (k = (owner, digest)))) (sources d) in
    let o := source_usage now (λ k, bool_decide (k.1 = owner) && negb (bool_decide (k.2 = digest))) (sources d) in
    let bytes := Z.min i64_max (Z.of_nat (length (as_bytes src))) in
    if (tenant_count limits <? saturating_add t.1 1) || (tenant_bytes limits <? saturating_add t.2 bytes)
       || (owner_count limits <? saturating_add o.1 1) || (owner_bytes limits <? saturating_add o.2 bytes)
    then Err Conflict
    else if negb (hex_digest digest && bool_decide (so_tenant_id owner ∈ tenants d)) then Err Sqlx
    else
      let expires := now + lease_seconds retention in
      let row := match sources d !! (owner, digest) with
                 | None => {| rs_source := src; rs_source_digest := digest; rs_expires_at := expires |}
                 | Some r => {| rs_source := rs_source r; rs_source_digest := rs_source_digest r;
                                rs_expires_at := Z.max (rs_expires_at r) expires |}
                 end in
      Ok (row, with_sources (<[(owner, digest) := row]> (sources d)) d)).

Definition resolve_source (now : time) (owner : SourceArtifactOwner) (digest : string) (d : Db)
  : result (option RetainedSource) StoreError :=
  Ok (r ← sources d !! (owner, digest); if now <? rs_expires_at r then Some r else None).

Definition resolve_source_expiry (now : time) (owner : SourceArtifactOwner) (digest : string) (d : Db)
  : result (option time) StoreError :=
  Ok (r ← sources d !! (owner, digest); if now <? rs_expires_at r then Some (rs_expires_at r) else None).

(** [with_source_limits] *)
Definition valid_limits (l : SourceRetentionLimits) : bool :=
  negb ((owner_bytes l <=? 0) || (tenant_bytes l <? owner_bytes l) || (owner_count l <=? 0)
        || (tenant_count l <? owner_count l)).

(** ** Detached slots *)

Definition slot_ok (s : DetachedExecutionSlot) (d : Db) : bool :=
  negb (is_empty (so_principal_sub (ds_principal s))) && negb (is_empty (so_principal_issuer (ds_principal s)))
  && bool_decide (so_tenant_id (ds_principal s) ∈ tenants d).

Definition acquire_detached_slot (now : time) (s : DetachedExecutionSlot) (lease : duration) (d : Db)
  : result bool StoreError * Db :=
  if negb (slot_ok s d) then (Err Sqlx, d)
  else
    let row := {| sr_holder := ds_holder s; sr_lease_expires_at := now + lease_seconds lease |} in
    let taken := (Ok true, with_slots (<[ds_principal s := row]> (slots d)) d) in
    match slots d !! ds_principal s with
    | None => taken
    | Some r => if (sr_lease_expires_at r <=? now) || bool_decide (sr_holder r = ds_holder s) then taken else (Ok false, d)
    end.

Definition holds_slot (s : DetachedExecutionSlot) (d : Db) : bool :=
  match slots d !! ds_principal s with Some r => bool_decide (sr_holder r = ds_holder s) | None => false end.

Definition release_detached_slot (s : DetachedExecutionSlot) (d : Db) : result bool StoreError * Db :=
  if holds_slot s d then (Ok true, with_slots (delete (ds_principal s) (slots d)) d) else (Ok false, d).

Definition renew_detached_slot (now : time) (s : DetachedExecutionSlot) (lease : duration) (d : Db)
  : result bool StoreError * Db :=
  if holds_slot s d
  then (Ok true, with_slots (<[ds_principal s := {| sr_holder := ds_holder s;
                                sr_lease_expires_at := now + lease_seconds lease |}]> (slots d)) d)
  else (Ok false, d).

(** ** Submission *)

Definition submitted_event (n : NewExecution) : NewExecutionEvent :=
  plain EvSubmitted (Object [("source_digest", Str (ne_source_digest n));
    ("sdk_contract_version", num (ne_sdk_contract_version n));
    ("runner_contract_version", num (ne_runner_contract_version n))]).

Definition new_row (now : time) (n : NewExecution) (dedupe : option string) (s : State) : Execution := {|
  ex_id := ne_id n; ex_tenant_id := ne_tenant_id n; ex_principal_sub := ne_principal_sub n;
  ex_principal_issuer := Some (ne_principal_issuer n); ex_source_digest := ne_source_digest n;
  ex_program_input := ne_program_input n; ex_execution_profile := ne_execution_profile n;
  ex_submitted_at := now; ex_retention_until := timestamptz (ne_retention_until n);
  ex_start_dedupe_key := dedupe; ex_state := s |}.

Definition submitted_state (now : time) (n : NewExecution) : State := {|
  source := ne_source n; tool_snapshot := None; sdk_contract_version := ne_sdk_contract_version n;
  runner_contract_version := ne_runner_contract_version n; status := Submitted; terminal_reason_code := None;
  result_metadata := None; result_payload := None; resume_context := None; claim_owner := None; claim_epoch := 0;
  claim_expires_at := None; cancellation_requested_at := None; cancellation_reason_code := None;
  updated_at := now; completed_at := None |}.

Definition submit (now : time) (u : Unlocked) (n : NewExecution) : Db → result Execution StoreError * Db :=
  let row := new_row now n None (submitted_state now n) in
  commit (let+ _ := purge_expired_state now u in
          let+ _ := insert_execution row in
          let+ _ := insert_event now (ne_id n) (ne_tenant_id n) (submitted_event n) in
          tx_ret row).

Definition claimed_event (owner : Uuid) (epoch : Z) : NewExecutionEvent :=
  plain EvClaimed (Object [("owner", Str (uuid_text owner)); ("epoch", num epoch)]).

Definition claim_of (e : Execution) (owner : Uuid) : ExecutionClaim := {|
  cl_execution_id := ex_id e; cl_tenant_id := ex_tenant_id e; cl_owner := owner; cl_epoch := claim_epoch e |}.

Section Jsonb.
Context (jsonb_eq : Value → Value → bool).

(** The identity of retry-equivalent starts. *)
Definition equivalent (r : RetryEquivalence) (now : time) (e : Execution) : bool :=
  bool_decide (ex_tenant_id e = re_tenant_id r) && owned_by (re_principal_sub r) (re_principal_issuer r) e
  && bool_decide (ex_start_dedupe_key e = Some (re_dedupe_key r))
  && bool_decide (ex_source_digest e = re_source_digest r)
  && jsonb_eq (ex_execution_profile e) (re_execution_profile r)
  && (now <? ex_retention_until e).

(** ORDER BY submitted_at DESC, id DESC LIMIT 1 *)
Definition later (a b : Execution) : bool :=
  (ex_submitted_at b <? ex_submitted_at a)
  || ((ex_submitted_at a =? ex_submitted_at b) && (ex_id b <? ex_id a)%N).

Definition newest (l : list Execution) : option Execution :=
  foldr (λ e best, match best with
                   | Some b => if later e b then Some e else best
                   | None => Some e
                   end) None l.

Definition matching (p : Execution → bool) (d : Db) : list Execution :=
  filter (λ e, p e = true) (snd <$> map_to_list (executions d)).

Definition find_retry_equivalent (now : time) (r : RetryEquivalence) (id : option Uuid) (d : Db)
  : result (option Execution) StoreError :=
  Ok (newest (matching (λ e, equivalent r now e && match id with Some i => bool_decide (ex_id e = i) | None => true end) d)).

Definition identity_of (s : StartExecution) : RetryEquivalence :=
  let n := se_execution s in {|
  re_tenant_id := ne_tenant_id n; re_principal_sub := ne_principal_sub n;
  re_principal_issuer := ne_principal_issuer n; re_dedupe_key := se_dedupe_key s;
  re_source_digest := ne_source_digest n; re_execution_profile := ne_execution_profile n |}.

Definition started_state (now : time) (s : StartExecution) : State :=
  let n := se_execution s in {|
  source := Some (se_source s); tool_snapshot := Some (se_tool_snapshot s);
  sdk_contract_version := ne_sdk_contract_version n; runner_contract_version := ne_runner_contract_version n;
  status := Running; terminal_reason_code := None; result_metadata := None; result_payload := None;
  resume_context := None; claim_owner := Some (se_owner s); claim_epoch := 1;
  claim_expires_at := Some (now + lease_seconds (se_lease s)); cancellation_requested_at := None;
  cancellation_reason_code := None; updated_at := now; completed_at := None |}.

Definition empty_object : Value := Object [].

Definition started_events (now : time) (id : Uuid) (tenant : string) (owner : Uuid) (epoch : Z) : Tx unit :=
  let+ _ := insert_event now id tenant (plain EvAdmitted empty_object) in
  let+ _ := insert_event now id tenant (claimed_event owner epoch) in
  insert_event now id tenant (plain EvRunning empty_object).

(** The insertion of a start that found nothing to reuse. *)
Definition start_new (now : time) (s : StartExecution) : Tx StartExecutionResult :=
  let n := se_execution s in
  let row := new_row now n (Some (se_dedupe_key s)) (started_state now s) in
  let+ _ := insert_execution row in
  let+ _ := bind_source_locator_tx now n (se_source_locator s) in
  let+ _ := insert_event now (ne_id n) (ne_tenant_id n) (submitted_event n) in
  let+ _ := started_events now (ne_id n) (ne_tenant_id n) (se_owner s) 1 in
  tx_ret (Claimed row (claim_of row (se_owner s))).

Definition start_or_reuse (now : time) (u : Unlocked) (s : StartExecution)
  : Db → result StartExecutionResult StoreError * Db :=
  let n := se_execution s in
  let reuse latest := let+ _ := bind_source_locator_tx now n (se_source_locator s) in tx_ret (Existing latest) in
  commit (
    let+ _ := purge_expired_state now u in
    let+ latest := tx_read (λ d, newest (matching (equivalent (identity_of s) now) d)) in
    match latest, se_repeat_after s with
    | Some latest, None => reuse latest
    | Some latest, Some after =>
        if bool_decide (ex_id latest = after) then
          if is_terminal (status latest) then start_new now s else tx_ret (RepeatNotTerminal latest)
        else
          let+ target := tx_read (λ d, newest (matching (λ e, equivalent (identity_of s) now e
                                                              && bool_decide (ex_id e = after)) d)) in
          match target with
          | None => tx_ret RepeatUnavailable
          | Some target => if is_terminal (status target) then reuse latest else tx_ret (RepeatNotTerminal target)
          end
    | None, Some _ => tx_ret RepeatUnavailable
    | None, None => start_new now s
    end).

(** ** Claims *)

Definition claim (now : time) (tenant : string) (id owner : Uuid) (lease : duration) (src : string) (snapshot : Value)
  : Db → result (option (Execution * ExecutionClaim)) StoreError * Db :=
  commit (
    let+ row := update_execution now tenant id
        (λ e, bool_decide (status e = Submitted) && is_none (claim_owner e))
        (λ s, set_claim (Some owner) (claim_epoch s + 1) (Some (now + lease_seconds lease))
                (set_outcome Running (terminal_reason_code s) (completed_at s)
                  (set_program (Some src) (Some snapshot) (sdk_contract_version s) (runner_contract_version s) s))) in
    match row with
    | None => tx_ret None
    | Some e =>
        let+ _ := started_events now id tenant owner (claim_epoch e) in
        tx_ret (Some (e, {| cl_execution_id := id; cl_tenant_id := tenant; cl_owner := owner; cl_epoch := claim_epoch e |}))
    end).

Definition renewed (now : time) (lease : duration) (s : State) : State :=
  set_claim (claim_owner s) (claim_epoch s) (Some (now + lease_seconds lease)) s.

Definition renew (now : time) (c : ExecutionClaim) (lease : duration) : Db → result bool StoreError * Db :=
  commit (
    let+ row := update_execution now (cl_tenant_id c) (cl_execution_id c)
        (λ e, held c e && unexpired (claim_expires_at e) now && is_none (cancellation_requested_at e)
              && is_none (completed_at e)) (renewed now lease) in
    tx_ret (is_some row)).

Definition renew_effect_lease (now : time) (c : ExecutionClaim) (lease : duration) : Db → result bool StoreError * Db :=
  commit (
    let+ row := update_execution now (cl_tenant_id c) (cl_execution_id c)
        (λ e, held c e && is_none (completed_at e)) (renewed now lease) in
    tx_ret (is_some row)).

(** [IS NOT DISTINCT FROM] on [jsonb]. *)
Definition same_jsonb (a b : option Value) : bool :=
  match a, b with Some x, Some y => jsonb_eq x y | None, None => true | _, _ => false end.

Definition equals_jsonb (a : option Value) (b : Value) : bool :=
  match a with Some x => jsonb_eq x b | None => false end.

Definition resumable (now : time) (r : ResumeExecution) (e : Execution) : bool :=
  owned_by (rx_principal_sub r) (rx_principal_issuer r) e
  && bool_decide (status e = rx_expected_status r) && is_none (claim_owner e)
  && is_none (cancellation_requested_at e) && is_some (source e)
  && bool_decide (ex_source_digest e = rx_expected_source_digest r)
  && equals_jsonb (tool_snapshot e) (rx_expected_tool_snapshot r)
  && (sdk_contract_version e =? rx_expected_sdk_contract_version r)
  && (runner_contract_version e =? rx_expected_runner_contract_version r)
  && is_none (completed_at e) && (now <? ex_retention_until e)
  && (claim_epoch e =? rx_expected_claim_epoch r)
  && same_jsonb (resume_context e) (rx_expected_resume_context r).

Definition resumed (now : time) (r : ResumeExecution) (s : State) : State :=
  set_claim (Some (rx_owner r)) (claim_epoch s + 1) (Some (now + lease_seconds (rx_lease r)))
    (set_outcome Running None (completed_at s)
      (set_results (result_metadata s) (result_payload s) (Some (rx_resume_context r))
        (set_program (source s) (tool_snapshot s) (rx_next_sdk_contract_version r) (rx_next_runner_contract_version r) s))).

Definition resume (now : time) (r : ResumeExecution)
  : Db → result (option (Execution * ExecutionClaim)) StoreError * Db :=
  commit (
    let+ row := update_execution now (rx_tenant_id r) (rx_id r) (resumable now r) (resumed now r) in
    match row with
    | None => tx_ret None
    | Some e =>
        let event v := insert_event now (rx_id r) (rx_tenant_id r) v in
        let+ _ := event (claimed_event (rx_owner r) (claim_epoch e)) in
        let+ _ := event (plain EvResumed (Object [("epoch", num (claim_epoch e))])) in
        let+ _ := event (plain EvRunning empty_object) in
        tx_ret (Some (e, {| cl_execution_id := rx_id r; cl_tenant_id := rx_tenant_id r; cl_owner := rx_owner r;
                            cl_epoch := claim_epoch e |}))
    end).

(** ** The journal of a claim *)

(** SELECT 1 … FOR UPDATE *)
Definition owns (p : Execution → bool) (c : ExecutionClaim) (d : Db) : bool :=
  match executions d !! cl_execution_id c with
  | Some e => bool_decide (ex_tenant_id e = cl_tenant_id c) && held c e && p e
  | None => false
  end.

Definition append_if (now : time) (p : Execution → bool) (c : ExecutionClaim) (v : NewExecutionEvent)
  : Db → result bool StoreError * Db :=
  commit (
    let+ owned := tx_read (owns p c) in
    if owned : bool then
      let+ _ := insert_event now (cl_execution_id c) (cl_tenant_id c) v in tx_ret true
    else tx_ret false).

Definition append_event (now : time) (c : ExecutionClaim) (v : NewExecutionEvent) : Db → result bool StoreError * Db :=
  append_if now (λ e, unexpired (claim_expires_at e) now && is_none (cancellation_requested_at e)
                      && is_none (completed_at e)) c v.

Definition append_effect_outcome (now : time) (c : ExecutionClaim) (v : NewExecutionEvent)
  : Db → result bool StoreError * Db :=
  append_if now (λ e, is_none (completed_at e)) c v.

Definition releases_claim (to : ExecutionStatus) : bool :=
  is_terminal to || bool_decide (to ∈ [WaitingForApproval; WaitingForResume]).

Definition transitioned (now : time) (t : ExecutionTransition) (s : State) : State :=
  let release {A} (o : option A) := if releases_claim (tn_to t) then None else o in
  set_claim (release (claim_owner s)) (claim_epoch s) (release (claim_expires_at s))
    (set_results (tn_result_metadata t) (tn_result_payload t) (tn_resume_context t)
      (set_outcome (tn_to t) (tn_terminal_reason_code t) (if is_terminal (tn_to t) then Some now else None) s)).

Definition transition_claimed (now : time) (c : ExecutionClaim) (t : ExecutionTransition) : Tx (option Execution) :=
  update_execution now (cl_tenant_id c) (cl_execution_id c)
    (λ e, held c e && unexpired (claim_expires_at e) now
          && bool_decide (status_as_str (status e) ∈ status_as_str <$> tn_from t)
          && (bool_decide (tn_to t = Cancelled) || is_none (cancellation_requested_at e))
          && is_none (completed_at e)) (transitioned now t).

Definition transition (now : time) (c : ExecutionClaim) (t : ExecutionTransition)
  : Db → result (option Execution) StoreError * Db :=
  commit (
    let+ row := transition_claimed now c t in
    match row with
    | None => tx_ret None
    | Some e => let+ _ := insert_event now (cl_execution_id c) (cl_tenant_id c) (tn_event t) in tx_ret (Some e)
    end).

(** ** Failures, denials and cancellations *)

Definition fail_submission (now : time) (tenant : string) (id : Uuid) (v : NewExecutionEvent) (reason : string)
  : Db → result (option Execution) StoreError * Db :=
  commit (
    let+ row := update_execution now tenant id
        (λ e, bool_decide (status e = Submitted) && is_none (claim_owner e) && is_none (claim_expires_at e)
              && is_none (completed_at e))
        (λ s, set_claim None (claim_epoch s) None (set_outcome Failed (Some reason) (Some now) s)) in
    match row with
    | None => tx_ret None
    | Some e => let+ _ := insert_event now id tenant v in tx_ret (Some e)
    end).

Definition opt_str (o : option string) : Value := match o with Some s => Str s | None => Null end.

Definition deny_waiting_approval (now : time) (tenant : string) (id : Uuid) (approver : string) (reason : option string)
    (expected : option Value) : Db → result bool StoreError * Db :=
  commit (
    let+ row := update_execution now tenant id
        (λ e, bool_decide (status e = WaitingForApproval)
              && match expected with
                 | None => true
                 | Some v => equals_jsonb (resume_context e ≫= get "approval") v
                 end
              && is_none (claim_owner e) && is_none (cancellation_requested_at e) && is_none (completed_at e)
              && (now <? ex_retention_until e))
        (λ s, set_outcome Failed (Some "approval_denied") (Some now) s) in
    match row with
    | None => tx_ret false
    | Some _ =>
        let+ _ := insert_event now id tenant (plain EvFailed (Object [("reason_code", Str "approval_denied");
                    ("approver", Str approver); ("reason", opt_str reason)])) in
        tx_ret true
    end).

(** The row of a cancellation request: the first request keeps its provenance, and a row
    without a live claim is finished at once. *)
Definition cancelled (now : time) (reason_code : string) (e : Execution) (s : State) : State :=
  let first := is_none (cancellation_requested_at s) in
  let provenance := if first then Some reason_code else cancellation_reason_code s in
  let attributed := match cancellation_reason_code s with
                    | Some r => r
                    | None => if first then reason_code else "cancelled_by_client"
                    end in
  let requested := Some (default now (cancellation_requested_at s)) in
  if unclaimed now e then
    set_claim None (claim_epoch s) None
      (set_outcome Cancelled (Some attributed) (Some now) (set_cancellation requested provenance s))
  else set_cancellation requested provenance s.

Definition in_scope (owner : option (string * string)) (e : Execution) : bool :=
  match owner with Some (sub, issuer) => owned_by sub issuer e | None => true end.

Definition find_scoped (tenant : string) (id : Uuid) (owner : option (string * string)) (d : Db) : option Execution :=
  e ← executions d !! id;
  if bool_decide (ex_tenant_id e = tenant) && in_scope owner e then Some e else None.

Definition cancel_scoped (now : time) (tenant : string) (id : Uuid) (owner : option (string * string))
    (reason_code : string) (detail : Value) : Db → result (option Execution) StoreError * Db :=
  commit (
    let+ found := tx_read (find_scoped tenant id owner) in
    match found with
    | None => tx_ret None
    | Some e =>
        if is_terminal (status e) then tx_ret (Some e)
        else
          let+ row := update_execution now tenant id (λ e, is_none (completed_at e)) (cancelled now reason_code e) in
          match row with
          | None => tx_ret None
          | Some e' =>
              let+ _ := (if is_some (cancellation_requested_at e) then tx_ret tt
                         else insert_event now id tenant (plain EvCancellationRequested detail)) in
              let+ _ := (if bool_decide (status e' = Cancelled)
                         then insert_event now id tenant (plain EvCancelled
                                (Object [("reason_code", Str (default reason_code (terminal_reason_code e')))]))
                         else tx_ret tt) in
              tx_ret (Some e')
          end
    end).

Definition request_cancellation (now : time) (tenant sub issuer : string) (id : Uuid) :=
  cancel_scoped now tenant id (Some (sub, issuer)) "cancelled_by_client" empty_object.

Definition request_cancellation_for_operator (now : time) (tenant : string) (id : Uuid) (operator : string) :=
  cancel_scoped now tenant id None "cancelled_by_operator"
    (Object [("requested_by", Str "operator"); ("operator_sub", Str operator)]).

(** ** Abandonment *)

(** A side-effecting call that was started and has no outcome in the journal. *)
Definition is_outcome_of (v w : ExecutionEvent) : bool :=
  bool_decide (vt_tenant_id w = vt_tenant_id v) && bool_decide (vt_execution_id w = vt_execution_id v)
  && bool_decide (vt_call_id w = vt_call_id v) && bool_decide (vt_attempt w = vt_attempt v)
  && bool_decide (vt_kind w ∈ ["connector_call_succeeded"; "connector_call_failed"]).

Definition outcome_unknown (e : Execution) (l : list ExecutionEvent) : bool :=
  existsb (λ v, bool_decide (vt_tenant_id v = ex_tenant_id e) && bool_decide (vt_execution_id v = ex_id e)
                && bool_decide (vt_kind v = "connector_call_started") && says_true "side_effects" (vt_detail v)
                && negb (existsb (is_outcome_of v) l)) l.

Definition can_resume (now : time) (e : Execution) : bool :=
  says_true "resumable" (ex_execution_profile e) && is_some (source e) && is_some (tool_snapshot e)
  && (now <? ex_retention_until e).

Definition abandoned (now : time) (grace : duration) (e : Execution) : bool :=
  (bool_decide (status e = Submitted) && is_none (claim_owner e)
     && (ex_submitted_at e <=? now - lease_seconds grace))
  || (bool_decide (status e = Running) && is_some (claim_owner e) && expired (claim_expires_at e) now)
  || (bool_decide (status e ∈ [WaitingForApproval; WaitingForResume]) && is_none (claim_owner e)
        && retention_over now e).

Definition lapsed_reason_of (now : time) (lapsed_reason : string) (e : Execution) (l : list ExecutionEvent) : string :=
  if retention_over now e then "retention_expired"
  else if bool_decide (status e = Submitted) then "worker_never_claimed"
  else if outcome_unknown e l then "effect_outcome_unknown"
  else lapsed_reason.

Definition reconciled (now : time) (lapsed_reason : string) (e : Execution) (l : list ExecutionEvent) (s : State) : State :=
  set_claim None (claim_epoch s) None
    (if can_resume now e then
       set_outcome WaitingForResume None None
         (set_results (result_metadata s) (result_payload s)
           (Some (default (Object [("checkpoint", Null)]) (resume_context s))) s)
     else set_outcome Expired (Some (lapsed_reason_of now lapsed_reason e l)) (Some now) s).

Definition reconcile_abandoned_in (now : time) (tenant sub issuer : string) (id : Uuid) (grace : duration)
    (lapsed_reason : string) : Tx (option Execution) := λ d,
  let apply := match executions d !! id with
               | Some e => reconciled now lapsed_reason e (events d)
               | None => λ s, s
               end in
  (let+ row := update_execution now tenant id
       (λ e, owned_by sub issuer e && is_none (completed_at e) && abandoned now grace e) apply in
   match row with
   | Some e =>
       let waiting := bool_decide (status e = WaitingForResume) in
       let reason := if waiting then "worker_interrupted" else default "" (terminal_reason_code e) in
       let+ _ := insert_event now id tenant (plain (if waiting then EvWaitingForResume else EvExpired)
                   (Object [("reason_code", Str reason)])) in
       tx_ret (Some e)
   | None => tx_read (find_scoped tenant id (Some (sub, issuer)))
   end) d.

Definition reconcile_abandoned (now : time) (tenant sub issuer : string) (id : Uuid) (grace : duration)
  : Db → result (option Execution) StoreError * Db :=
  commit (reconcile_abandoned_in now tenant sub issuer id grace "worker_lease_expired").

Definition interrupt_claimed (now : time) (c : ExecutionClaim) (sub issuer : string)
  : Db → result (option Execution) StoreError * Db :=
  commit (
    let+ ended := update_execution now (cl_tenant_id c) (cl_execution_id c)
        (λ e, held c e && bool_decide (status e = Running) && is_none (completed_at e))
        (λ s, set_claim (claim_owner s) (claim_epoch s) (Some now) s) in
    match ended with
    | None => tx_ret None
    | Some _ => reconcile_abandoned_in now (cl_tenant_id c) sub issuer (cl_execution_id c) 0 "worker_interrupted"
    end).

(** ** Reads *)

Definition get_execution (tenant : string) (id : Uuid) (d : Db) : result (option Execution) StoreError :=
  Ok (find_scoped tenant id None d).

(** The runs [list_abandoned] may nominate; it returns a bounded batch of them. *)
Definition nominated (now : time) (grace : duration) (d : Db) : list AbandonedExecution :=
  omap (λ e, match ex_principal_issuer e with
             | Some issuer => if is_none (completed_at e) && abandoned now grace e
                              then Some {| ab_owner := {| so_tenant_id := ex_tenant_id e;
                                                          so_principal_sub := ex_principal_sub e;
                                                          so_principal_issuer := issuer |}; ab_id := ex_id e |}
                              else None
             | None => None
             end) (snd <$> map_to_list (executions d)).

Definition events_of (tenant : string) (id : Uuid) (d : Db) : result (list ExecutionEvent) StoreError :=
  Ok (filter (λ v, bool_decide (vt_tenant_id v = tenant) && bool_decide (vt_execution_id v = id) = true) (events d)).

(** [ExecutionStatusRecord::may_be_abandoned], on a row read at [now]. *)
Definition may_be_abandoned (now : time) (grace : duration) (e : Execution) : bool :=
  if is_some (completed_at e) then false
  else match status e with
       | Submitted => is_none (claim_owner e) && (ex_submitted_at e + grace <=? now)
       | Running => is_some (claim_owner e) && expired (claim_expires_at e) now
       | WaitingForApproval | WaitingForResume => is_none (claim_owner e) && retention_over now e
       | _ => false
       end.

Definition retention_expired (now : time) (e : Execution) : bool := is_terminal (status e) && retention_over now e.

End Jsonb.
End ExecutionStore.
