(* ===== verification/ExecutionRuns.v ===== *)
(** * Code-mode executions: histories

    The calls of the [ExecutionStore] trait as data, and histories of them against
    one database. A history is given as the order in which the transactions
    commit: rows are locked for update, so transactions on one execution are
    serialised. Every call is broken into the changes it makes to the rows and to
    the journal ([mstep]); the theorems about histories are inductions over these
    changes. *)

From S2P Require Import Prelude RustStr HashChain Json OauthStore ExecutionTypes ExecutionStore.
From stdpp Require Import relations.
Local Open Scope Z_scope.

Module ExecutionRuns.
Import HashChain(Uuid) Json.Json OauthStore(timestamptz) ExecutionTypes.ExecutionTypes ExecutionStore.ExecutionStore.

(** ** Calls *)

Inductive Op :=
  | OSubmit (n : NewExecution)
  | OStart (s : StartExecution)
  | OClaim (tenant : string) (id owner : Uuid) (lease : duration) (src : string) (snapshot : Value)
  | ORenew (c : ExecutionClaim) (lease : duration)
  | ORenewEffect (c : ExecutionClaim) (lease : duration)
  | OResume (r : ResumeExecution)
  | OAppend (c : ExecutionClaim) (v : NewExecutionEvent)
  | OAppendOutcome (c : ExecutionClaim) (v : NewExecutionEvent)
  | OTransition (c : ExecutionClaim) (t : ExecutionTransition)
  | OFailSubmission (tenant : string) (id : Uuid) (v : NewExecutionEvent) (reason : string)
  | ODeny (tenant : string) (id : Uuid) (approver : string) (reason : option string) (expected : option Value)
  | OCancel (tenant sub issuer : string) (id : Uuid)
  | OCancelOperator (tenant : string) (id : Uuid) (operator : string)
  | OReconcile (tenant sub issuer : string) (id : Uuid) (grace : duration)
  | OInterrupt (c : ExecutionClaim) (sub issuer : string)
  | OBindLocator (owner : SourceArtifactOwner) (locator digest : string) (expires : time)
  | ORetain (limits : SourceRetentionLimits) (owner : SourceArtifactOwner) (src digest : string) (retention : duration)
  | OAcquireSlot (s : DetachedExecutionSlot) (lease : duration)
  | OReleaseSlot (s : DetachedExecutionSlot)
  | ORenewSlot (s : DetachedExecutionSlot) (lease : duration).

(** The database before the first call. *)
Definition fresh_db (ts : gset string) : Db := {|
  tenants := ts; executions := ∅; events := []; next_event := 1; locators := ∅; sources := ∅; slots := ∅ |}.

(** A call, the time its transaction began and what its purge finds unlocked. *)
Record Call := { at_ : time; finds : Unlocked; op : Op }.

Inductive Reply := RError (e : StoreError) | RRefused | RDone | RIssued (c : ExecutionClaim).

Definition answer {A} (f : A → Reply) (r : result A StoreError * Db) : Reply * Db :=
  (match r.1 with Ok a => f a | Err e => RError e end, r.2).

Definition when (b : bool) : Reply := if b then RDone else RRefused.
Definition when_some {A} (o : option A) : Reply := when (is_some o).
Definition issued (o : option (Execution * ExecutionClaim)) : Reply :=
  match o with Some (_, c) => RIssued c | None => RRefused end.
Definition started (r : StartExecutionResult) : Reply :=
  match r with Claimed _ c => RIssued c | Existing _ => RDone | _ => RRefused end.

(** ** Transactions, inverted *)

(** Events written one after the other. *)
Fixpoint record_all (now : time) (id : Uuid) (tenant : string) (vs : list NewExecutionEvent) : Tx unit :=
  match vs with
  | [] => tx_ret tt
  | v :: vs => let+ _ := insert_event now id tenant v in record_all now id tenant vs
  end.

Lemma tx_bind_inv {A B} (t : Tx A) (f : A → Tx B) d b d2 :
  tx_bind t f d = Ok (b, d2) → ∃ a d1, t d = Ok (a, d1) ∧ f a d1 = Ok (b, d2).
Proof. unfold tx_bind. destruct (t d) as [[a d1]|]; naive_solver. Qed.

Lemma tx_ret_inv {A} (a b : A) d d' : tx_ret a d = Ok (b, d') → b = a ∧ d' = d.
Proof. unfold tx_ret. by intros [= -> ->]. Qed.

Lemma commit_inv {A} (t : Tx A) d r d' : commit t d = (r, d') →
  (∃ a, t d = Ok (a, d') ∧ r = Ok a) ∨ (∃ x, r = Err x ∧ d' = d).
Proof. unfold commit. destruct (t d) as [[a d1]|]; intros [= <- <-]; eauto. Qed.

Lemma update_inv now tenant id p f d r d' : update_execution now tenant id p f d = Ok (r, d') →
  (r = None ∧ d' = d)
  ∨ ∃ e, executions d !! id = Some e ∧ ex_tenant_id e = tenant ∧ p e = true
      ∧ r = Some (with_state (λ _, touch now (f e)) e) ∧ row_ok (with_state (λ _, touch now (f e)) e) = true
      ∧ d' = with_executions (<[id := with_state (λ _, touch now (f e)) e]> (executions d)) d.
Proof.
  unfold update_execution. destruct (executions d !! id) as [e|] eqn:He; [|intros [= <- <-]; auto].
  destruct (bool_decide (ex_tenant_id e = tenant) && p e) eqn:Hp; [|intros [= <- <-]; auto].
  change (with_state (λ s, touch now (f s)) e) with (with_state (λ _, touch now (f e)) e).
  destruct (row_ok _) eqn:Hok; [|done]. intros [= <- <-]. right. exists e. bool_to_prop. by split_and!.
Qed.

Lemma record_all_app now id tenant vs ws d d1 d2 :
  record_all now id tenant vs d = Ok (tt, d1) → record_all now id tenant ws d1 = Ok (tt, d2) →
  record_all now id tenant (vs ++ ws) d = Ok (tt, d2).
Proof.
  revert d. induction vs as [|v vs IH]; intros d; cbn; [by intros [= <-]|].
  intros (a & d0 & H0 & H1)%tx_bind_inv H2. unfold tx_bind. rewrite H0. eauto.
Qed.

Lemma record_one now id tenant v d d' : insert_event now id tenant v d = Ok (tt, d') →
  record_all now id tenant [v] d = Ok (tt, d').
Proof. intros H. cbn. unfold tx_bind. by rewrite H. Qed.

Ltac inv_tx := repeat match goal with
  | u : unit |- _ => destruct u
  | H : commit _ _ = _ |- _ => apply commit_inv in H as [(? & H & ?)|(? & ? & ?)]
  | H : tx_bind _ _ _ = Ok _ |- _ => apply tx_bind_inv in H as (? & ? & ? & H)
  | H : tx_ret _ _ = Ok _ |- _ => apply tx_ret_inv in H as [? ?]
  | H : tx_read _ _ = Ok _ |- _ => injection H as ? ?
  | H : update_execution _ _ _ _ _ _ = Ok _ |- _ =>
      apply update_inv in H as [[? ?]|(? & ? & ? & ? & ? & ? & ?)]
  | H : insert_event _ _ _ _ _ = Ok _ |- _ => apply record_one in H
  | H1 : record_all ?n ?i ?t ?vs ?d = Ok (tt, ?d1), H2 : record_all ?n ?i ?t ?ws ?d1 = Ok (tt, ?d2) |- _ =>
      pose proof (record_all_app _ _ _ _ _ _ _ _ H1 H2); clear H1 H2
  | _ => progress (subst; cbn beta iota match in * )
  end.

Lemma held_some c e : held c e = true → claim_owner e = Some (cl_owner c) ∧ claim_epoch e = cl_epoch c.
Proof. unfold held. intros H. bool_to_prop. auto. Qed.

Lemma is_none_true {A} (o : option A) : is_none o = true ↔ o = None.
Proof. by destruct o. Qed.

Ltac facts := bool_to_prop; repeat match goal with H : is_none _ = true |- _ => apply is_none_true in H end.

(** The same row read twice. *)
Ltac same_row := match goal with
  | H1 : ?m !! ?i = Some ?x, H2 : ?m !! ?i = Some ?y |- _ => rewrite H1 in H2; injection H2 as ?; subst
  end.

Section Jsonb.
Context (jsonb_eq : Value → Value → bool).
Implicit Types (e : Execution) (d : Db).

Definition exec (c : Call) (d : Db) : Reply * Db :=
  let now := at_ c in
  match op c with
  | OSubmit n => answer (λ _, RDone) (submit now (finds c) n d)
  | OStart s => answer started (start_or_reuse jsonb_eq now (finds c) s d)
  | OClaim t i o l s p => answer issued (claim now t i o l s p d)
  | ORenew k l => answer when (renew now k l d)
  | ORenewEffect k l => answer when (renew_effect_lease now k l d)
  | OResume r => answer issued (resume jsonb_eq now r d)
  | OAppend k v => answer when (append_event now k v d)
  | OAppendOutcome k v => answer when (append_effect_outcome now k v d)
  | OTransition k t => answer when_some (transition now k t d)
  | OFailSubmission t i v r => answer when_some (fail_submission now t i v r d)
  | ODeny t i a r x => answer when (deny_waiting_approval jsonb_eq now t i a r x d)
  | OCancel t s u i => answer when_some (request_cancellation now t s u i d)
  | OCancelOperator t i o => answer when_some (request_cancellation_for_operator now t i o d)
  | OReconcile t s u i g => answer when_some (reconcile_abandoned now t s u i g d)
  | OInterrupt k s u => answer when_some (interrupt_claimed now k s u d)
  | OBindLocator o l g x => answer (λ _, RDone) (bind_source_locator now (finds c) o l g x d)
  | ORetain m o s g r => answer (λ _, RDone) (retain_source m now (finds c) o s g r d)
  | OAcquireSlot s l => answer when (acquire_detached_slot now s l d)
  | OReleaseSlot s => answer when (release_detached_slot s d)
  | ORenewSlot s l => answer when (renew_detached_slot now s l d)
  end.

Definition run (h : list Call) (d : Db) : Db := foldl (λ d c, (exec c d).2) d h.

(** The execution a call may create, and the claim it is made under. *)
Definition creates (c : Call) : option Uuid :=
  match op c with
  | OSubmit n => Some (ne_id n)
  | OStart s => Some (ne_id (se_execution s))
  | _ => None
  end.

Definition under (c : Call) : option ExecutionClaim :=
  match op c with
  | ORenew k _ | ORenewEffect k _ | OAppend k _ | OAppendOutcome k _ | OTransition k _ | OInterrupt k _ _ => Some k
  | _ => None
  end.

(** ** The changes a call makes *)

(** What an UPDATE makes of the state of a row. *)
Inductive edit (now : time) (e : Execution) : State → Prop :=
  | edit_claim owner lease src snapshot : status e = Submitted → claim_owner e = None →
      edit now e (set_claim (Some owner) (claim_epoch e + 1) (Some (now + lease_seconds lease))
        (set_outcome Running (terminal_reason_code e) (completed_at e)
          (set_program (Some src) (Some snapshot) (sdk_contract_version e) (runner_contract_version e) e)))
  | edit_lease c t : held c e = true → completed_at e = None →
      edit now e (set_claim (claim_owner e) (claim_epoch e) (Some t) e)
  | edit_resume r : resumable jsonb_eq now r e = true → edit now e (resumed now r e)
  | edit_transition c t : held c e = true → completed_at e = None →
      tn_to t = Cancelled ∨ cancellation_requested_at e = None → edit now e (transitioned now t e)
  | edit_fail reason : status e = Submitted → claim_owner e = None → completed_at e = None →
      edit now e (set_claim None (claim_epoch e) None (set_outcome Failed (Some reason) (Some now) e))
  | edit_deny : status e = WaitingForApproval → claim_owner e = None → completed_at e = None →
      cancellation_requested_at e = None →
      edit now e (set_outcome Failed (Some "approval_denied") (Some now) e)
  | edit_cancel reason : completed_at e = None → edit now e (cancelled now reason e e)
  | edit_reconcile grace reason l : completed_at e = None → abandoned now grace e = true →
      edit now e (reconciled now reason e l e).

(** Rows as they are created. *)
Definition fresh (e : Execution) : Prop :=
  completed_at e = None ∧ cancellation_requested_at e = None ∧ 0 <= claim_epoch e
  ∧ (is_some (claim_owner e) = true → status e = Running).

(** [born] is the id of the execution the call may create. *)
Inductive mstep (born : option Uuid) (now : time) : Db → Db → Prop :=
  | ms_side d d' : tenants d' = tenants d → executions d' = executions d → events d' = events d →
      next_event d' = next_event d → mstep born now d d'
  | ms_purge u d d' : purge_expired_state now u d = Ok (tt, d') → mstep born now d d'
  | ms_create (e : Execution) vs d d1 d' : born = Some (ex_id e) → insert_execution e d = Ok (tt, d1) → fresh e → ex_submitted_at e = now →
      record_all now (ex_id e) (ex_tenant_id e) vs d1 = Ok (tt, d') → vs ≠ [] → mstep born now d d'
  | ms_edit id (e : Execution) s vs d d' : executions d !! id = Some e → edit now e s →
      row_ok (with_state (λ _, touch now s) e) = true →
      record_all now id (ex_tenant_id e) vs (with_executions (<[id := with_state (λ _, touch now s) e]> (executions d)) d)
        = Ok (tt, d') →
      (status s ≠ status e → vs ≠ []) → mstep born now d d'
  | ms_journal id (e : Execution) v d d' : executions d !! id = Some e → completed_at e = None →
      record_all now id (ex_tenant_id e) [v] d = Ok (tt, d') → mstep born now d d'.

Lemma submit_steps now u n d r d' : submit now u n d = (r, d') → rtc (mstep (Some (ne_id n)) now) d d'.
Proof.
  unfold submit. intros H. inv_tx; [|done].
  eapply rtc_l; [by eapply ms_purge|]. apply rtc_once. eapply ms_create; [|done| | |done|done]; [done| |done].
  by unfold fresh.
Qed.

(** One UPDATE with its events. *)
Ltac edited := apply rtc_once; eapply ms_edit; [eassumption| |eassumption| |];
  [|cbn [ex_tenant_id with_state] in *; first [eassumption|match goal with H : ex_tenant_id _ = _ |- _ => rewrite H; eassumption end]|try done].

Lemma claim_steps b now t i o l s p d r d' : claim now t i o l s p d = (r, d') → rtc (mstep b now) d d'.
Proof.
  unfold claim, started_events. intros H. inv_tx; try done. edited. bool_to_prop.
  constructor; [done|]. by destruct (claim_owner _).
Qed.

Lemma renew_steps b now c l d r d' : renew now c l d = (r, d') → rtc (mstep b now) d d'.
Proof.
  unfold renew, renewed. intros H. inv_tx; try done. facts.
  apply rtc_once; eapply (ms_edit _ _ _ _ _ []); [eassumption| |eassumption| |done]; [|reflexivity].
  by eapply edit_lease.
Qed.

Lemma renew_effect_steps b now c l d r d' : renew_effect_lease now c l d = (r, d') → rtc (mstep b now) d d'.
Proof.
  unfold renew_effect_lease, renewed. intros H. inv_tx; try done. facts.
  apply rtc_once; eapply (ms_edit _ _ _ _ _ []); [eassumption| |eassumption| |done]; [|reflexivity].
  by eapply edit_lease.
Qed.

Lemma resume_steps b now q d r d' : resume jsonb_eq now q d = (r, d') → rtc (mstep b now) d d'.
Proof. unfold resume. intros H. inv_tx; try done. edited. by constructor. Qed.

Lemma transition_steps b now c t d r d' : transition now c t d = (r, d') → rtc (mstep b now) d d'.
Proof.
  unfold transition, transition_claimed. intros H. inv_tx; try done. edited. facts. econstructor; [done|done|].
  by match goal with H : _ || _ = true |- _ => apply orb_true_iff in H as [?%bool_decide_eq_true|?%is_none_true]; auto end.
Qed.

Lemma fail_steps b now t i v q d r d' : fail_submission now t i v q d = (r, d') → rtc (mstep b now) d d'.
Proof.
  unfold fail_submission. intros H. inv_tx; try done. edited. facts. by constructor.
Qed.

Lemma deny_steps b now t i a q x d r d' :
  deny_waiting_approval jsonb_eq now t i a q x d = (r, d') → rtc (mstep b now) d d'.
Proof.
  unfold deny_waiting_approval. intros H. inv_tx; try done. edited. facts. by constructor.
Qed.

Lemma append_if_steps b now (p : Execution → bool) c v d r d' :
  (∀ e : Execution, p e = true → completed_at e = None) → append_if now p c v d = (r, d') → rtc (mstep b now) d d'.
Proof.
  unfold append_if, owns. intros Hp H. inv_tx; [|done].
  destruct (executions _ !! cl_execution_id c) as [e|] eqn:He; [|by inv_tx].
  destruct (bool_decide _ && _ && _) eqn:Hb; inv_tx; [|done]. bool_to_prop.
  apply rtc_once. eapply ms_journal; [done|auto|].
  by match goal with H : ex_tenant_id _ = _ |- _ => rewrite H end.
Qed.

Lemma optional_event (b : bool) now id tenant v d d' :
  (if b then tx_ret tt else insert_event now id tenant v) d = Ok (tt, d') →
  record_all now id tenant (if b then [] else [v]) d = Ok (tt, d').
Proof. destruct b; [done|apply record_one]. Qed.

Lemma cancelled_status now q (e : Execution) : status (cancelled now q e e) ≠ status e → status (cancelled now q e e) = Cancelled.
Proof. unfold cancelled. by destruct (unclaimed _ _). Qed.

Lemma cancel_steps b now t i w q v d r d' : cancel_scoped now t i w q v d = (r, d') → rtc (mstep b now) d d'.
Proof.
  unfold cancel_scoped, find_scoped. intros H. inv_tx; [|done].
  destruct (executions _ !! i) as [e|] eqn:He; cbn [mbind option_bind] in *; [|by inv_tx].
  destruct (bool_decide _ && _) eqn:Hb; [|by inv_tx].
  destruct (is_terminal (status e)) eqn:Ht; inv_tx; try done. same_row.
  match goal with H : (if bool_decide ?s then _ else _) _ = _ |- _ =>
    destruct (bool_decide s) eqn:Hs; inv_tx;
    match goal with H0 : (if is_some _ then _ else _) _ = _ |- _ => apply optional_event in H0 end; inv_tx
  end; edited; [by facts; constructor| |by facts; constructor|].
  - intros _. by destruct (is_some (cancellation_requested_at _)).
  - intros Hne%cancelled_status. bool_to_prop. done.
Qed.

Lemma reconcile_steps b now t s u i g q d r d' :
  reconcile_abandoned_in now t s u i g q d = Ok (r, d') → rtc (mstep b now) d d'.
Proof.
  unfold reconcile_abandoned_in. destruct (executions d !! i) as [e|] eqn:He; intros H; inv_tx; try done; [|congruence].
  same_row. edited. facts. by econstructor.
Qed.

Lemma interrupt_steps b now c s u d r d' : interrupt_claimed now c s u d = (r, d') → rtc (mstep b now) d d'.
Proof.
  unfold interrupt_claimed. intros H. inv_tx; try done.
  match goal with H : reconcile_abandoned_in _ _ _ _ _ _ _ _ = _ |- _ => apply (reconcile_steps b) in H as Hr end.
  eapply rtc_l; [|done]. facts.
  eapply (ms_edit _ _ _ _ _ []); [eassumption| |eassumption|reflexivity|done]. by eapply edit_lease.
Qed.

(** Locators, sources and slots are beside the executions. *)
Lemma bind_row_side now o l g x d d' : bind_source_locator_row now o l g x d = Ok (tt, d') →
  tenants d' = tenants d ∧ executions d' = executions d ∧ events d' = events d ∧ next_event d' = next_event d.
Proof. unfold bind_source_locator_row. by repeat (case_match; try done); intros [= <-]. Qed.

Lemma bind_tx_side now n l d d' : bind_source_locator_tx now n l d = Ok (tt, d') →
  tenants d' = tenants d ∧ executions d' = executions d ∧ events d' = events d ∧ next_event d' = next_event d.
Proof. destruct l; [apply bind_row_side|by intros [= <-]]. Qed.

Lemma bind_tx_step b now n l d d' : bind_source_locator_tx now n l d = Ok (tt, d') → mstep b now d d'.
Proof. intros (? & ? & ? & ?)%bind_tx_side. by apply ms_side. Qed.

Lemma insert_event_side now i t v d d' d2 : insert_event now i t v d = Ok (tt, d') → executions d2 = executions d →
  events d2 = events d → next_event d2 = next_event d → ∃ d2', insert_event now i t v d2 = Ok (tt, d2')
    ∧ executions d2' = executions d' ∧ events d2' = events d' ∧ next_event d2' = next_event d' ∧ tenants d2' = tenants d2
    ∧ tenants d' = tenants d.
Proof.
  unfold insert_event. intros H Hx Hv Hn. rewrite Hx. repeat (case_match; try done). injection H as <-.
  eexists. split; [done|]. cbn. by rewrite Hx, Hv, Hn.
Qed.

Lemma record_all_side now i t vs d d' d2 : record_all now i t vs d = Ok (tt, d') → executions d2 = executions d →
  events d2 = events d → next_event d2 = next_event d → tenants d2 = tenants d →
  ∃ d2', record_all now i t vs d2 = Ok (tt, d2')
    ∧ tenants d' = tenants d2' ∧ executions d' = executions d2' ∧ events d' = events d2' ∧ next_event d' = next_event d2'.
Proof.
  revert d d2. induction vs as [|v vs IH]; intros d d2 H Hx Hv Hn Ht.
  - injection H as <-. exists d2. done.
  - cbn in H. apply tx_bind_inv in H as ([] & d1 & H1 & H2).
    destruct (insert_event_side _ _ _ _ _ _ d2 H1) as (d3 & H3 & ? & ? & ? & ? & ?); try done.
    destruct (IH d1 d3 H2) as (d4 & Hrec & ?); try congruence. exists d4. split; [|done].
    cbn. unfold tx_bind. by rewrite H3.
Qed.

(** The locator of a start is bound between the row and its events. *)
Lemma start_new_steps now s d r d' : start_new now s d = Ok (r, d') → rtc (mstep (Some (ne_id (se_execution s))) now) d d'.
Proof.
  unfold start_new, started_events. intros H. inv_tx.
  match goal with H1 : insert_execution _ d = Ok (tt, ?d1), H2 : bind_source_locator_tx _ _ _ ?d1 = _,
    H3 : record_all _ _ _ _ _ = _ |- _ =>
    apply bind_tx_side in H2 as (? & ? & ? & ?);
    destruct (record_all_side _ _ _ _ _ _ d1 H3) as (d3 & Hrec & ? & ? & ? & ?); try done;
    eapply rtc_l; [eapply (ms_create _ _ _ _ _ _ _ eq_refl H1); [| |exact Hrec|]|]
  end; [|done|done|apply rtc_once; by apply ms_side].
  unfold fresh. cbn. split_and!; done.
Qed.

Lemma start_steps now u s d r d' : start_or_reuse jsonb_eq now u s d = (r, d') → rtc (mstep (Some (ne_id (se_execution s))) now) d d'.
Proof.
  unfold start_or_reuse. intros H. inv_tx; [|done].
  eapply rtc_l; [by eapply ms_purge|].
  destruct (newest _) as [latest|]; destruct (se_repeat_after s) as [after|]; cbn beta iota in H.
  - destruct (bool_decide _).
    + destruct (is_terminal _); [by eapply start_new_steps|by inv_tx].
    + inv_tx. destruct (newest _); [destruct (is_terminal _)|]; inv_tx; [|done..].
      apply rtc_once. by eapply bind_tx_step.
  - inv_tx. apply rtc_once. by eapply bind_tx_step.
  - by inv_tx.
  - by eapply start_new_steps.
Qed.

Lemma append_steps b now c v d r d' : append_event now c v d = (r, d') → rtc (mstep b now) d d'.
Proof. unfold append_event. apply append_if_steps. intros e H. by facts. Qed.

Lemma append_outcome_steps b now c v d r d' : append_effect_outcome now c v d = (r, d') → rtc (mstep b now) d d'.
Proof. unfold append_effect_outcome. apply append_if_steps. intros e H. by facts. Qed.

Lemma reconcile_abandoned_steps b now t s u i g d r d' :
  reconcile_abandoned now t s u i g d = (r, d') → rtc (mstep b now) d d'.
Proof. unfold reconcile_abandoned. intros H. inv_tx; [by eapply reconcile_steps|done]. Qed.

Lemma bind_steps b now u o l g x d r d' : bind_source_locator now u o l g x d = (r, d') → rtc (mstep b now) d d'.
Proof.
  unfold bind_source_locator. intros H. inv_tx; [|done]. eapply rtc_l; [by eapply ms_purge|].
  match goal with H : bind_source_locator_row _ _ _ _ _ _ = _ |- _ => apply bind_row_side in H as (? & ? & ? & ?) end.
  apply rtc_once. by apply ms_side.
Qed.

Lemma retain_steps b m now u o s g x d r d' : retain_source m now u o s g x d = (r, d') → rtc (mstep b now) d d'.
Proof.
  unfold retain_source. intros H. inv_tx; [|done]. eapply rtc_l; [by eapply ms_purge|].
  destruct (_ || _ || _ || _); [done|]. destruct (negb _); [done|]. injection H as <- <-.
  apply rtc_once. by apply ms_side.
Qed.

Lemma slot_steps b now s l d r d' :
  acquire_detached_slot now s l d = (r, d') ∨ release_detached_slot s d = (r, d') ∨ renew_detached_slot now s l d = (r, d') →
  rtc (mstep b now) d d'.
Proof.
  unfold acquire_detached_slot, release_detached_slot, renew_detached_slot.
  intros [H|[H|H]]; repeat (case_match; simplify_eq; try done); apply rtc_once; by apply ms_side.
Qed.

Lemma exec_steps c d r d' : exec c d = (r, d') → rtc (mstep (creates c) (at_ c)) d d'.
Proof.
  unfold exec, answer, creates. destruct (op c); intros [= _ Hd].
  all: match type of Hd with (?f).2 = _ => destruct f as [rr dd] eqn:He; cbn in Hd; subst end.
  all: eauto using submit_steps, start_steps, claim_steps, renew_steps, renew_effect_steps, resume_steps, transition_steps,
    fail_steps, deny_steps, cancel_steps, interrupt_steps, append_steps, append_outcome_steps, reconcile_abandoned_steps,
    bind_steps, retain_steps.
  all: eapply slot_steps; eauto.
  Unshelve. exact 0.
Qed.

(** ** What the changes preserve *)

(** A row is stored under its id, satisfies the CHECKs, and an unfinished row whose
    cancellation was requested is claimed or waits to be resumed. *)
Definition row_wf (id : Uuid) (e : Execution) : Prop :=
  ex_id e = id ∧ row_ok e = true
  ∧ (is_some (cancellation_requested_at e) = true → completed_at e = None →
     is_some (claim_owner e) = true ∨ status e = WaitingForResume).

(** The journal speaks of rows that exist, in the order of its ids. *)
Record wf (d : Db) : Prop := {
  wf_rows : map_Forall row_wf (executions d);
  wf_events : Forall (λ v, ∃ e, executions d !! vt_execution_id v = Some e ∧ ex_tenant_id e = vt_tenant_id v) (events d);
  wf_order : Sorted (λ v w, vt_id v < vt_id w) (events d);
  wf_next : Forall (λ v, vt_id v < next_event d) (events d);
}.

Lemma insert_event_inv now id tenant v d d' : insert_event now id tenant v d = Ok (tt, d') →
  ∃ ev e, d' = with_events (events d ++ [ev]) (next_event d + 1) d ∧ executions d !! id = Some e ∧ ex_tenant_id e = tenant
    ∧ vt_execution_id ev = id ∧ vt_tenant_id ev = tenant ∧ vt_id ev = next_event d.
Proof.
  unfold insert_event. destruct (executions d !! id) as [e|] eqn:He; [|done].
  destruct (_ && _) eqn:Hb; [|done]. intros [= <-]. bool_to_prop. eexists _, e. split; [reflexivity|]. by split_and!.
Qed.

(** ** Edits, column by column *)

Lemma row_ok_terminal e : row_ok e = true → is_terminal (status e) = is_some (completed_at e).
Proof. unfold row_ok. intros H. bool_to_prop. by apply eqb_prop. Qed.

Lemma nonterminal_unfinished id e : row_wf id e → is_terminal (status e) = false → completed_at e = None.
Proof. intros (_ & Hok & _) Ht. apply row_ok_terminal in Hok. rewrite Ht in Hok. by destruct (completed_at e). Qed.

(** An edit applies to unfinished rows only. *)
Lemma edit_unfinished now id e s : row_wf id e → edit now e s → completed_at e = None.
Proof.
  intros Hwf. inversion 1 as [? ? ? ? Hs| |r Hr| | | | |]; subst; try done.
  - eapply nonterminal_unfinished; [done|by rewrite Hs].
  - unfold resumable in Hr. by facts.
Qed.

(** It never lowers the epoch, and raises it only where it writes a new owner. *)
Lemma edit_epoch now e s : edit now e s → claim_epoch e <= claim_epoch s.
Proof.
  inversion 1; subst; cbn; try lia. unfold cancelled. destruct (unclaimed _ _); cbn; lia.
Qed.

(** After a cancellation request an edit keeps the request and the epoch, and finishes the
    row as 'cancelled' or 'expired' if at all. *)
Lemma edit_requested now id e s t : row_wf id e → edit now e s → cancellation_requested_at e = Some t →
  cancellation_requested_at s = Some t ∧ cancellation_reason_code s = cancellation_reason_code e
  ∧ claim_epoch s = claim_epoch e ∧ (completed_at s = None ∨ status s = Cancelled ∨ status s = Expired).
Proof.
  intros Hwf He Ht. pose proof (edit_unfinished _ _ _ _ Hwf He) as Hu. destruct Hwf as (_ & _ & Hc).
  rewrite Ht in Hc. specialize (Hc eq_refl Hu).
  inversion He as [? ? ? ? Hs Ho| |r Hr|c tr Hh Hd [Hto|Hto]|? Hs Ho|? ? ? Hn| |]; subst; cbn; try congruence.
  - rewrite Hs, Ho in Hc. by destruct Hc.
  - split_and!; auto.
  - unfold resumable in Hr. facts. congruence.
  - rewrite Hto. split_and!; auto.
  - rewrite Hs, Ho in Hc. by destruct Hc.
  - unfold cancelled. rewrite Ht. destruct (unclaimed _ _); cbn; split_and!; auto.
  - unfold reconciled. destruct (can_resume _ _); cbn; split_and!; auto.
Qed.

Lemma unclaimed_false now e : unclaimed now e = false → is_some (claim_owner e) = true.
Proof. unfold unclaimed, is_none. intros H. bool_to_prop. done. Qed.

Lemma edit_row_wf now id e s : row_wf id e → edit now e s → row_ok (with_state (λ _, touch now s) e) = true →
  row_wf id (with_state (λ _, touch now s) e).
Proof.
  intros Hwf He Hok. pose proof (edit_unfinished _ _ _ _ Hwf He) as Hu. destruct Hwf as (Hid & Hrow & Hc).
  split; [done|]. split; [done|]. clear Hok.
  inversion He as [| | |c tr _ _ Hto| | |reason _|]; subst; cbn in *; intros Hq Hf; try (by auto); try done.
  - destruct Hto as [Hto|Hto]; [by rewrite Hto in Hf|by rewrite Hto in Hq].
  - unfold cancelled in *. destruct (unclaimed now e) eqn:Hn; cbn in *; [done|left; by eapply unclaimed_false].
  - destruct (can_resume _ _); cbn in *; [by right|done].
Qed.

(** ** Steps *)

Definition journal (id : Uuid) (d : Db) : list ExecutionEvent := filter (λ v, vt_execution_id v = id) (events d).

Lemma record_all_executions now id tenant vs d d' : record_all now id tenant vs d = Ok (tt, d') →
  executions d' = executions d.
Proof.
  revert d. induction vs as [|v vs IH]; intros d; cbn; [by intros [= <-]|].
  intros ([] & d1 & (ev & e & -> & _)%insert_event_inv & H2)%tx_bind_inv. by apply IH in H2.
Qed.

Lemma record_all_journal now id tenant vs d d' : record_all now id tenant vs d = Ok (tt, d') →
  ∃ evs, events d' = events d ++ evs ∧ length evs = length vs ∧ Forall (λ v, vt_execution_id v = id) evs.
Proof.
  revert d. induction vs as [|v vs IH]; intros d; cbn.
  - intros [= <-]. exists []. by rewrite app_nil_r.
  - intros ([] & d1 & (ev & e & -> & _ & _ & Hid & _)%insert_event_inv & H2)%tx_bind_inv.
    apply IH in H2 as (evs & Hev & Hlen & Hall). cbn in Hev. exists (ev :: evs).
    rewrite Hev, <- app_assoc. split; [done|]. split; [cbn; lia|by constructor].
Qed.

Lemma insert_execution_inv e d d' : insert_execution e d = Ok (tt, d') →
  executions d !! ex_id e = None ∧ row_ok e = true ∧ d' = with_executions (<[ex_id e := e]> (executions d)) d.
Proof.
  unfold insert_execution. destruct (executions d !! ex_id e); [done|].
  destruct (_ && _) eqn:Hb; [|done]. intros [= <-]. by bool_to_prop.
Qed.

Lemma sweep_batch_lookup {K V} `{Countable K} (p : V → bool) (l : list K) (m : gmap K V) k :
  sweep_batch p l m !! k = m !! k ∨ (sweep_batch p l m !! k = None ∧ ∃ v, m !! k = Some v ∧ p v = true).
Proof.
  unfold sweep_batch. set (b := take _ _).
  assert (Hb : ∀ k, k ∈ b → ∃ v, m !! k = Some v ∧ p v = true).
  { intros k' Hk. apply elem_of_take in Hk as (i & Hi & _). apply list_elem_of_lookup_2 in Hi.
    apply list_elem_of_filter in Hi as [Hp _]. destruct (m !! k'); cbn in Hp; naive_solver. }
  clearbody b. induction b as [|k' b IH]; [by left|]. cbn.
  destruct (decide (k' = k)) as [->|Hne].
  - right. rewrite lookup_delete_eq. split; [done|]. apply Hb. by left.
  - rewrite lookup_delete_ne by done. apply IH. intros k2 Hk2. apply Hb. by right.
Qed.

(** A purge deletes rows whose retention is over and that are finished or have no live claim. *)
Lemma purge_row now u d d' id : purge_expired_state now u d = Ok (tt, d') →
  executions d' !! id = executions d !! id
  ∨ (executions d' !! id = None ∧ ∃ e, executions d !! id = Some e ∧ retention_over now e = true
       ∧ (is_some (completed_at e) = true ∨ unclaimed now e = true)).
Proof.
  intros [= <-]. cbn [executions with_slots with_sources with_locators with_events with_executions].
  match goal with |- context [sweep_batch ?q ?l (sweep_batch ?p ?k ?m)] =>
    destruct (sweep_batch_lookup p k m id) as [H1|(H1 & e & He & Hp)];
    destruct (sweep_batch_lookup q l (sweep_batch p k m) id) as [H2|(H2 & e' & He' & Hp')] end.
  - left. congruence.
  - right. split; [done|]. exists e'. bool_to_prop. split; [congruence|]. auto.
  - right. rewrite H2. split; [done|]. exists e. bool_to_prop. auto.
  - congruence.
Qed.

(** What one step makes of a row. *)
Definition deletable (now : time) (e : Execution) : Prop :=
  retention_over now e = true ∧ (is_some (completed_at e) = true ∨ unclaimed now e = true).

Definition fate (now : time) (e : Execution) (o : option Execution) : Prop :=
  o = Some e ∨ (o = None ∧ deletable now e) ∨ ∃ s, o = Some (with_state (λ _, touch now s) e) ∧ edit now e s
        ∧ row_ok (with_state (λ _, touch now s) e) = true.

Lemma mstep_row b now d d' id e : mstep b now d d' → executions d !! id = Some e → fate now e (executions d' !! id).
Proof.
  intros Hs He. destruct Hs as [d d' _ Hx _ _|u d d' Hp|e0 vs d d1 d' Hb Hi _ _ Hr _|id0 e0 s vs d d' He0 Hed Hok Hr _|id0 e0 v d d' He0 _ Hr].
  - left. by rewrite Hx.
  - destruct (purge_row _ _ _ _ id Hp) as [H|(H & e' & He' & Hd)]; [left; by rewrite H|].
    right; left. simplify_eq. done.
  - apply record_all_executions in Hr. apply insert_execution_inv in Hi as (Hn & _ & ->). left. rewrite Hr. cbn.
    rewrite lookup_insert_ne; [done|congruence].
  - apply record_all_executions in Hr. rewrite Hr. cbn. destruct (decide (id0 = id)) as [->|Hne].
    + rewrite lookup_insert_eq. simplify_eq. right; right. eauto.
    + rewrite lookup_insert_ne by done. by left.
  - apply record_all_executions in Hr. left. by rewrite Hr.
Qed.

Definition born_row (b : option Uuid) (now : time) (id : Uuid) (e : Execution) : Prop :=
  b = Some id ∧ ex_id e = id ∧ fresh e ∧ ex_submitted_at e = now ∧ row_ok e = true.

Lemma mstep_new b now d d' id e : mstep b now d d' → executions d !! id = None → executions d' !! id = Some e →
  born_row b now id e.
Proof.
  intros Hs Hn He. destruct Hs as [d d' _ Hx _ _|u d d' Hp|e0 vs d d1 d' Hb Hi Hf Hsub Hr _|id0 e0 s vs d d' He0 Hed _ Hr _|id0 e0 v d d' He0 _ Hr].
  - congruence.
  - destruct (purge_row _ _ _ _ id Hp) as [H|(H & e' & He' & Hd)]; congruence.
  - apply record_all_executions in Hr. apply insert_execution_inv in Hi as (Hn' & Hok & ->). rewrite Hr in He. cbn in He.
    apply lookup_insert_Some in He as [[<- <-]|[_ He]]; [done|congruence].
  - apply record_all_executions in Hr. rewrite Hr in He. cbn in He.
    apply lookup_insert_Some in He as [[<- _]|[_ He]]; congruence.
  - apply record_all_executions in Hr. congruence.
Qed.

Lemma mstep_rows_wf b now d d' : mstep b now d d' → map_Forall row_wf (executions d) → map_Forall row_wf (executions d').
Proof.
  intros Hs Hwf id e' He'. destruct (executions d !! id) as [e|] eqn:He.
  - pose proof (Hwf _ _ He) as Hw. destruct (mstep_row _ _ _ _ _ _ Hs He) as [H|[[H _]|(s & H & Hed & Hok)]].
    + congruence.
    + congruence.
    + rewrite H in He'. injection He' as <-.
      by eapply edit_row_wf.
  - destruct (mstep_new _ _ _ _ _ _ Hs He He') as (_ & Hid & Hf & _ & Hok). destruct Hf as (_ & Hq & _).
    split; [done|]. split; [done|]. by rewrite Hq.
Qed.

(** The journal. *)
Lemma record_all_wf now id tenant vs d d' : record_all now id tenant vs d = Ok (tt, d') → wf d → wf d'.
Proof.
  revert d. induction vs as [|v vs IH]; intros d; cbn; [by intros [= <-]|].
  intros ([] & d1 & (ev & e & -> & He & Ht & Hid & Htn & Hv)%insert_event_inv & H2)%tx_bind_inv Hwf.
  apply (IH _ H2). destruct Hwf as [Hr Hev Ho Hn]. split; cbn; [done| | |].
  - apply Forall_app. split; [done|]. constructor; [|done]. exists e. by rewrite Hid, Htn.
  - apply Sorted_StronglySorted in Ho; [|intros ???; lia]. apply StronglySorted_Sorted.
    apply StronglySorted_app_2; [|done|by repeat constructor].
    intros x1 x2 H1 ->%list_elem_of_singleton. rewrite Hv. by eapply Forall_forall in Hn.
  - apply Forall_app. split; [|constructor; [lia|done]]. eapply Forall_impl; [done|]. cbn. lia.
Qed.

Lemma wf_with_rows d m : wf d → map_Forall row_wf m →
  (∀ v e, v ∈ events d → executions d !! vt_execution_id v = Some e →
     ∃ e', m !! vt_execution_id v = Some e' ∧ ex_tenant_id e' = ex_tenant_id e) → wf (with_executions m d).
Proof.
  intros [Hr Hev Ho Hn] Hm Hk. split; try done. cbn. apply Forall_forall. intros v Hin.
  rewrite Forall_forall in Hev. destruct (Hev v Hin) as (e & He & Ht). destruct (Hk v e Hin He) as (e' & ? & ?).
  exists e'. split; [done|congruence].
Qed.

Lemma Forall_sublist {A} (P : A → Prop) l1 l2 : Forall P l2 → l1 `sublist_of` l2 → Forall P l1.
Proof. rewrite !Forall_forall. intros H Hs x Hx. apply H. by eapply elem_of_sublist. Qed.

Lemma purge_wf now u d d' : purge_expired_state now u d = Ok (tt, d') → wf d → wf d'.
Proof.
  intros Hp Hwf. pose proof (mstep_rows_wf None now d d' ltac:(by eapply ms_purge) (wf_rows _ Hwf)) as Hrows.
  assert (Hkeep : ∀ v, v ∈ events d' → v ∈ events d ∧ is_Some (executions d' !! vt_execution_id v)).
  { injection Hp as <-. intros v [? ?]%list_elem_of_filter. done. }
  pose proof (λ id, purge_row now u d d' id Hp) as Hrow.
  assert (Hsub : sublist (events d') (events d) ∧ next_event d' = next_event d).
  { injection Hp as <-. split; [apply sublist_filter|done]. }
  destruct Hsub as [Hsub Hnext], Hwf as [Hr Hev Ho Hn]. split; [done|..].
  - apply Forall_forall. intros v Hv. apply Hkeep in Hv as [Hin [e' He']]. rewrite Forall_forall in Hev.
    destruct (Hev v Hin) as (e & He & Ht). destruct (Hrow (vt_execution_id v)) as [H|[H _]]; [|congruence].
    exists e. by rewrite H.
  - clear -Ho Hsub. apply Sorted_StronglySorted in Ho; [|intros ???; lia]. apply StronglySorted_Sorted.
    revert Ho. induction Hsub as [|x l1 l2 Hs IH|x l1 l2 Hs IH]; [done|..]; intros [Ho Hx]%StronglySorted_inv; [|auto].
    constructor; [auto|]. by eapply Forall_sublist.
  - rewrite Hnext. by eapply Forall_sublist.
Qed.

Lemma mstep_wf b now d d' : mstep b now d d' → wf d → wf d'.
Proof.
  intros Hs Hwf. pose proof (mstep_rows_wf _ _ _ _ Hs (wf_rows _ Hwf)) as Hrows.
  destruct Hs as [d d' _ Hx Hv Hn|u d d' Hp|e0 vs d d1 d' Hb Hi Hf Hsub Hr _|id0 e0 s vs d d' He0 Hed Hok Hr _|id0 e0 v d d' He0 _ Hr].
  - destruct Hwf. split; [done|..]; rewrite ?Hv, ?Hx, ?Hn; done.
  - by eapply purge_wf.
  - rewrite (record_all_executions _ _ _ _ _ _ Hr) in Hrows. eapply record_all_wf; [done|].
    apply insert_execution_inv in Hi as (Hn & _ & ->). apply wf_with_rows; [done|done|].
    intros v e _ He. exists e. rewrite lookup_insert_ne; [done|congruence].
  - rewrite (record_all_executions _ _ _ _ _ _ Hr) in Hrows. eapply record_all_wf; [done|].
    apply wf_with_rows; [done|done|]. intros v e _ He. destruct (decide (id0 = vt_execution_id v)) as [->|Hne].
    + rewrite lookup_insert_eq. simplify_eq. eauto.
    + rewrite lookup_insert_ne by done. eauto.
  - by eapply record_all_wf.
Qed.

(** ** Histories *)

Lemma exec_preserves (P : Db → Prop) c d :
  (∀ d d', P d → mstep (creates c) (at_ c) d d' → P d') → P d → P (exec c d).2.
Proof.
  intros Hstep Hd. destruct (exec c d) as [r d'] eqn:He. apply exec_steps in He. cbn.
  induction He as [|d1 d2 d3 Hs _ IH]; eauto.
Qed.

Lemma run_preserves (P : Db → Prop) h d :
  (∀ c d d', c ∈ h → P d → mstep (creates c) (at_ c) d d' → P d') → P d → P (run h d).
Proof.
  revert d. induction h as [|c h IH]; intros d Hstep Hd; [done|]. cbn. apply IH.
  - intros c' d1 d2 Hc. apply Hstep. by right.
  - apply exec_preserves; [|done]. intros d1 d2. apply Hstep. by left.
Qed.

Lemma call_wf c d : wf d → wf (exec c d).2.
Proof. apply exec_preserves. intros d1 d2 H Hs. by eapply mstep_wf. Qed.

Lemma fresh_wf ts : wf (fresh_db ts).
Proof. split; cbn; [apply map_Forall_empty|constructor..]. Qed.

Lemma history_wf h d : wf d → wf (run h d).
Proof. apply run_preserves. intros c d1 d2 _ H Hs. by eapply mstep_wf. Qed.

End Jsonb.
End ExecutionRuns.

(** * Code-mode executions: a concrete history

    One program run by alice: started, interrupted, resumed by a second worker,
    cancelled. The witnesses evaluate the store on it. *)

Module ExecutionDemo.
Import HashChain(Uuid) Json.Json OauthStore(timestamptz) ExecutionTypes.ExecutionTypes ExecutionStore.ExecutionStore
  ExecutionRuns.

(** [jsonb] values that are equal as written are equal. *)
Definition demo_eq : Value → Value → bool := beq.

Lemma demo_sym a b : demo_eq a b = true → demo_eq b a = true.
Proof. unfold demo_eq. by rewrite !beq_spec. Qed.

Lemma demo_trans a b c : demo_eq a b = true → demo_eq b c = true → demo_eq a c = true.
Proof. unfold demo_eq. rewrite !beq_spec. congruence. Qed.

Definition sec (n : Z) : time := n * nanos_per_sec.

Definition nobody : Unlocked := {| ul_locators := []; ul_sources := []; ul_completed := []; ul_abandoned := []; ul_slots := [] |}.

Definition digest64 : string := "0123456789abcdef0123456789abcdef0123456789abcdef0123456789abcdef".

Definition demo_new (id : Uuid) : NewExecution := {|
  ne_id := id; ne_tenant_id := "acme"; ne_principal_sub := "alice"; ne_principal_issuer := "https://idp"; ne_source := None;
  ne_source_digest := digest64; ne_program_input := None; ne_execution_profile := Object [("resumable", Bool true)];
  ne_sdk_contract_version := 1; ne_runner_contract_version := 1; ne_retention_until := sec 3600 |}.

Definition demo_start (id : Uuid) (repeat_after : option Uuid) : StartExecution := {|
  se_execution := demo_new id; se_dedupe_key := "key"; se_source_locator := Some digest64; se_repeat_after := repeat_after;
  se_owner := 70%N; se_lease := sec 60; se_source := "return 1"; se_tool_snapshot := Array [] |}.

Definition demo_resume (owner : Uuid) : ResumeExecution := {|
  rx_tenant_id := "acme"; rx_principal_sub := "alice"; rx_principal_issuer := "https://idp"; rx_id := 1%N; rx_owner := owner;
  rx_lease := sec 60; rx_expected_status := WaitingForResume; rx_resume_context := Object [("checkpoint", Null)];
  rx_expected_claim_epoch := 1; rx_expected_resume_context := Some (Object [("checkpoint", Null)]);
  rx_expected_source_digest := digest64; rx_expected_tool_snapshot := Array []; rx_expected_sdk_contract_version := 1;
  rx_expected_runner_contract_version := 1; rx_next_sdk_contract_version := 1; rx_next_runner_contract_version := 1 |}.

Definition first_claim : ExecutionClaim := {| cl_execution_id := 1%N; cl_tenant_id := "acme"; cl_owner := 70%N; cl_epoch := 1 |}.
Definition second_claim : ExecutionClaim := {| cl_execution_id := 1%N; cl_tenant_id := "acme"; cl_owner := 80%N; cl_epoch := 2 |}.

Definition finish (to : ExecutionStatus) (k : ExecutionEventKind) : ExecutionTransition := {|
  tn_from := [Running]; tn_to := to; tn_event := plain k empty_object; tn_terminal_reason_code := Some "done";
  tn_result_metadata := None; tn_result_payload := Some (Number "1"); tn_resume_context := None |}.

Definition at_sec (n : Z) (o : Op) : Call := {| at_ := sec n; finds := nobody; op := o |}.

Definition start_call : Call := at_sec 100 (OStart (demo_start 1%N None)).
Definition reconcile_call : Call := at_sec 200 (OReconcile "acme" "alice" "https://idp" 1%N (sec 30)).
Definition resume_call : Call := at_sec 210 (OResume (demo_resume 80%N)).
Definition cancel_call (n : Z) : Call := at_sec n (OCancel "acme" "alice" "https://idp" 1%N).
Definition succeed_call (n : Z) (c : ExecutionClaim) : Call := at_sec n (OTransition c (finish Succeeded EvSucceeded)).
Definition call_started : NewExecutionEvent := plain EvConnectorCallStarted (Object [("side_effects", Bool true)]).

Definition demo_db : Db := fresh_db {["acme"]}.
Definition drun (h : list Call) : Db := run demo_eq h demo_db.

Definition row_status (id : Uuid) (d : Db) : option ExecutionStatus := (λ e : Execution, status e) <$> executions d !! id.

(** The runs of the demonstration. *)
Example demo_statuses :
  row_status 1%N (drun [start_call]) = Some Running
  ∧ row_status 1%N (drun [start_call; reconcile_call]) = Some WaitingForResume
  ∧ row_status 1%N (drun [start_call; reconcile_call; resume_call]) = Some Running
  ∧ row_status 1%N (drun [start_call; reconcile_call; resume_call; succeed_call 220 second_claim]) = Some Succeeded
  ∧ row_status 1%N (drun [start_call; cancel_call 110]) = Some Running
  ∧ row_status 1%N (drun [start_call; cancel_call 110; cancel_call 170]) = Some Cancelled.
Proof. vm_compute. split_and!; reflexivity. Qed.

End ExecutionDemo.
