(* ===== verification/ExecutionHistory.v ===== *)
(** * Code-mode executions: theorems about histories

    - [history_keeps_rows_well_formed]: the invariant.
    - [completed_run_is_final]: a finished execution never changes again; only
      retention deletes it.
    - [superseded_claim_is_fenced]: when a later claim has been issued, every call
      under an earlier one is refused and changes nothing.
    - [cancelled_run_never_resumes]: after a cancellation request no call starts
      work on the execution again, and the only final statuses are 'cancelled' and
      'expired'.
    - [status_change_is_journaled]: the journal only grows, and a change of status
      writes to it in the same transaction. *)

From S2P Require Import Prelude RustStr HashChain Json OauthStore ExecutionTypes ExecutionStore ExecutionRuns.
From stdpp Require Import relations.
Local Open Scope Z_scope.

Module ExecutionHistory.
Import HashChain(Uuid) Json.Json OauthStore(timestamptz) ExecutionTypes.ExecutionTypes ExecutionStore.ExecutionStore
  ExecutionRuns.ExecutionRuns ExecutionRuns.ExecutionDemo.

Section Jsonb.
Context (jsonb_eq : Value → Value → bool).
Implicit Types (e : Execution) (d : Db).
Local Notation exec := (exec jsonb_eq).
Local Notation run := (run jsonb_eq).
Local Notation mstep := (mstep jsonb_eq).

(** Every history keeps the database well formed: each execution is stored under its
    id and satisfies the table's CHECKs (an owner exactly with a lease, a completion time
    exactly with a terminal status, a reason with every failure), a requested cancellation
    is never pending on a row nobody works on, and every event of the journal belongs to an
    execution of the same tenant, in the order of the event ids. *)
Theorem history_keeps_rows_well_formed h d : wf d → wf (run h d).
Proof. apply history_wf. Qed.

(** Some call of the history comes after the execution's retention. *)
Definition outlived (e : Execution) (h : list Call) : Prop := ∃ c, c ∈ h ∧ ex_retention_until e <= at_ c.

(** A finished execution is final: whatever calls follow, its row stays exactly as it
    was until retention deletes it, and no call before [retention_until] does. *)
Theorem completed_run_is_final h d id (e : Execution) :
  wf d → executions d !! id = Some e → is_terminal (status e) = true →
  executions (run h d) !! id = Some e ∨ outlived e h.
Proof.
  intros Hwf He Ht. destruct (decide (Exists (λ c, ex_retention_until e <= at_ c) h)) as [Hx|Hx].
  { right. by apply Exists_exists in Hx. }
  left. cut (wf (run h d) ∧ executions (run h d) !! id = Some e); [by intros []|].
  apply run_preserves; [|done]. intros c d1 d2 Hc [Hw H1] Hs. split; [by eapply mstep_wf|].
  pose proof (wf_rows _ Hw _ _ H1) as Hrow.
  destruct (mstep_row _ _ _ _ _ _ _ Hs H1) as [H|[[_ [Hr _]]|(s & _ & Hed & _)]]; [done|..].
  - destruct Hx. apply Exists_exists. exists c. split; [done|]. unfold retention_over in Hr. by bool_to_prop.
  - apply (edit_unfinished _ _ id) in Hed; [|done]. destruct Hrow as (_ & Hok & _). apply row_ok_terminal in Hok.
    rewrite Ht, Hed in Hok. done.
Qed.

(** *** Claims *)

(** The call is turned away and leaves no trace. *)
Definition refused (c : Call) (d : Db) : Prop := exec c d = (RRefused, d).

(** No row of [id] has an epoch below [n]. *)
Definition epoch_at_least (id : Uuid) (n : Z) (d : Db) : Prop :=
  ∀ e : Execution, executions d !! id = Some e → n <= claim_epoch e.

Definition has_epoch (id : Uuid) (n : Z) (d : Db) : Prop := ∃ e : Execution, executions d !! id = Some e ∧ claim_epoch e = n.

Lemma has_epoch_at_least id n d : has_epoch id n d → epoch_at_least id n d.
Proof. intros (e & He & Hn) e' He'. rewrite He in He'. injection He' as <-. lia. Qed.

Lemma mstep_epoch b now d d' id n : b ≠ Some id → mstep b now d d' → epoch_at_least id n d → epoch_at_least id n d'.
Proof.
  intros Hb Hs Hn e' He'. destruct (executions d !! id) as [e|] eqn:He.
  - specialize (Hn e He). destruct (mstep_row _ _ _ _ _ _ _ Hs He) as [H|[[H _]|(s & H & Hed & _)]].
    + rewrite H in He'. by injection He' as <-.
    + congruence.
    + rewrite H in He'. injection He' as <-. apply edit_epoch in Hed. cbn. lia.
  - destruct (mstep_new _ _ _ _ _ _ _ Hs He He') as [? _]. done.
Qed.

Lemma run_epoch h d id n : (∀ c, c ∈ h → creates c ≠ Some id) → epoch_at_least id n d → epoch_at_least id n (run h d).
Proof. intros Hc. apply run_preserves. intros c d1 d2 Hin H Hs. eapply mstep_epoch; eauto. Qed.

(** An UPDATE that takes a claim writes the next epoch. *)
Lemma taken_epoch now id e s vs d d' tenant n : executions d !! id = Some e → claim_epoch s = claim_epoch e + 1 →
  record_all now id tenant vs (with_executions (<[id := with_state (λ _, touch now s) e]> (executions d)) d) = Ok (tt, d') →
  n = claim_epoch e + 1 →
  has_epoch id n d' ∧ ∀ m, epoch_at_least id m d → m < n.
Proof.
  intros He Hs Hr ->. apply record_all_executions in Hr. split.
  - eexists. rewrite Hr. cbn. rewrite lookup_insert_eq. split; [done|]. cbn. lia.
  - intros m Hm. specialize (Hm e He). lia.
Qed.

Lemma claim_issued now t i o l s p d e k d' : claim now t i o l s p d = (Ok (Some (e, k)), d') →
  has_epoch (cl_execution_id k) (cl_epoch k) d' ∧ ∀ m, epoch_at_least (cl_execution_id k) m d → m < cl_epoch k.
Proof.
  unfold claim, started_events. intros H. inv_tx; try done.
  match goal with H : Ok (Some _) = Ok (Some _) |- _ => injection H as ? ?; subst end.
  eapply taken_epoch; [eassumption| |eassumption|]; done.
Qed.

Lemma resume_issued now q d e k d' : resume jsonb_eq now q d = (Ok (Some (e, k)), d') →
  has_epoch (cl_execution_id k) (cl_epoch k) d' ∧ ∀ m, epoch_at_least (cl_execution_id k) m d → m < cl_epoch k.
Proof.
  unfold resume. intros H. inv_tx; try done.
  match goal with H : Ok (Some _) = Ok (Some _) |- _ => injection H as ? ?; subst end.
  eapply taken_epoch; [eassumption| |eassumption|]; done.
Qed.

Lemma start_new_issued now s d r d' : start_new now s d = Ok (r, d') →
  ∃ e, r = Claimed e (claim_of e (se_owner s)) ∧ ex_id e = ne_id (se_execution s) ∧ executions d' !! ex_id e = Some e
    ∧ claim_epoch e = 1 ∧ claim_owner e = Some (se_owner s).
Proof.
  unfold start_new, started_events. intros H. inv_tx. eexists. split; [reflexivity|]. split; [done|]. cbn.
  match goal with H1 : insert_execution _ d = _, H2 : bind_source_locator_tx _ _ _ _ = _, H3 : record_all _ _ _ _ _ = _ |- _ =>
    apply record_all_executions in H3; apply bind_tx_side in H2 as (_ & H2 & _); apply insert_execution_inv in H1 as (_ & _ & ->);
    rewrite H3, H2 end.
  cbn. by rewrite lookup_insert_eq.
Qed.

Lemma start_issued now u s d e k d' : start_or_reuse jsonb_eq now u s d = (Ok (Claimed e k), d') →
  cl_execution_id k = ne_id (se_execution s) ∧ has_epoch (cl_execution_id k) (cl_epoch k) d'.
Proof.
  unfold start_or_reuse. intros H. inv_tx; simplify_eq.
  assert (Hnew : start_new now s x2 = Ok (Claimed e k, d')).
  { destruct (newest _) as [latest|]; destruct (se_repeat_after s) as [after|]; cbn beta iota in *; inv_tx; try done.
    destruct (bool_decide _); [destruct (is_terminal _)|]; inv_tx; try done.
    destruct (newest _); [destruct (is_terminal _)|]; inv_tx; done. }
  apply start_new_issued in Hnew as (e' & [= <- ->] & Hid & He & Hep & _). cbn. split; [done|].
  exists e. split; [done|]. lia.
Qed.

(** The claim a call issues is the one its row carries, above every earlier epoch. *)
Lemma issued_claim c d k d' : exec c d = (RIssued k, d') →
  has_epoch (cl_execution_id k) (cl_epoch k) d'
  ∧ (creates c ≠ Some (cl_execution_id k) → ∀ n, epoch_at_least (cl_execution_id k) n d → n < cl_epoch k).
Proof.
  unfold exec, answer, creates. destruct (op c) as [n|s|t i o l s p| | |q| | | | | | | | | | | | | |]; intros [= Hr Hd].
  all: match type of Hd with (?f).2 = _ => destruct f as [rr dd] eqn:He; cbn in Hd, Hr; subst dd end.
  all: destruct rr as [rr|]; try done; try (by destruct rr).
  - destruct rr; try done. injection Hr as ->. apply start_issued in He as [Hid ?]. split; [done|]. by intros []; rewrite Hid.
  - destruct rr as [[e k']|]; [|done]. injection Hr as ->. apply claim_issued in He as [? ?]. split; [done|by intros _].
  - destruct rr as [[e k']|]; [|done]. injection Hr as ->. apply resume_issued in He as [? ?]. split; [done|by intros _].
Qed.

(** Without the fence a call under a claim is refused. *)
Lemma fenced c k d : under c = Some k → (∀ e, executions d !! cl_execution_id k = Some e → held k e = false) →
  refused c d.
Proof.
  unfold refused, under, exec. destruct (op c); intros [= ->] Hk.
  all: unfold renew, renew_effect_lease, append_event, append_effect_outcome, append_if, transition, transition_claimed,
    interrupt_claimed, owns, commit, tx_bind, tx_read, update_execution.
  all: destruct (executions d !! cl_execution_id k) as [e|] eqn:He; [|done].
  all: rewrite (Hk e eq_refl), ?andb_false_l, ?andb_false_r; done.
Qed.

(** C5. A claim is fenced once it is superseded: when the store has issued a later claim on
    the same execution, every call under the earlier claim, however delayed, is refused and
    changes nothing, for the rest of the history. (Execution ids are fresh: none is created
    twice.) *)
Theorem superseded_claim_is_fenced c1 k1 d0 d1 h1 c2 k2 d2 h2 c :
  exec c1 d0 = (RIssued k1, d1) → exec c2 (run h1 d1) = (RIssued k2, d2) →
  cl_execution_id k2 = cl_execution_id k1 →
  (∀ c, c ∈ h1 ++ c2 :: h2 → creates c ≠ Some (cl_execution_id k1)) →
  under c = Some k1 → refused c (run h2 d2).
Proof.
  intros H1 H2 Hid Hc Hu. apply issued_claim in H1 as [H1%has_epoch_at_least _]. apply issued_claim in H2 as [H2%has_epoch_at_least Hlt].
  apply (run_epoch h1) in H1; [|intros; apply Hc; set_solver]. rewrite Hid in H2, Hlt.
  specialize (Hlt ltac:(apply Hc; set_solver) _ H1).
  apply (run_epoch h2) in H2; [|intros; apply Hc; set_solver].
  apply (fenced c k1); [done|]. intros e He. specialize (H2 e He).
  unfold held. apply andb_false_iff. right. apply Z.eqb_neq. lia.
Qed.

(** *** Cancellation *)

(** What a cancellation request fixes of a row. *)
Definition bound_to_cancel (e : Execution) (e' : Execution) : Prop :=
  cancellation_requested_at e' = cancellation_requested_at e ∧ cancellation_reason_code e' = cancellation_reason_code e
  ∧ claim_epoch e' = claim_epoch e ∧ (completed_at e' = None ∨ status e' = Cancelled ∨ status e' = Expired).

Lemma run_cancelled h d id e t : wf d → executions d !! id = Some e → cancellation_requested_at e = Some t →
  completed_at e = None → (∀ c, c ∈ h → creates c ≠ Some id) →
  ∀ e', executions (run h d) !! id = Some e' → bound_to_cancel e e'.
Proof.
  intros Hwf He Ht Hu Hc. cut (wf (run h d) ∧ ∀ e', executions (run h d) !! id = Some e' → bound_to_cancel e e'); [by intros []|].
  apply run_preserves.
  - intros c d1 d2 Hin [Hw H1] Hs. split; [by eapply mstep_wf|]. intros e2 He2.
    destruct (executions d1 !! id) as [e1|] eqn:He1; [|by destruct (mstep_new _ _ _ _ _ _ _ Hs He1 He2) as [? _]; destruct (Hc c)].
    specialize (H1 e1 eq_refl). destruct (mstep_row _ _ _ _ _ _ _ Hs He1) as [H|[[H _]|(s & H & Hed & _)]].
    + rewrite He2 in H. by injection H as ->.
    + congruence.
    + rewrite He2 in H. injection H as ->. destruct H1 as (Hr & Hq & Hep & _). rewrite Ht in Hr.
      destruct (edit_requested _ _ id _ _ _ (wf_rows _ Hw _ _ He1) Hed Hr) as (? & ? & ? & ?).
      unfold bound_to_cancel. cbn. split_and!; congruence || done.
  - split; [done|]. intros e'. rewrite He. intros [= <-]. unfold bound_to_cancel. auto.
Qed.

(** C14. A requested cancellation sticks. From the request on, whatever calls follow: the row
    keeps the time and the reason of the first request; no claim on the execution is issued
    again, so no worker resumes it; no ordinary event (the start of a connector call) enters
    its journal; and it ends, if it ends, as 'cancelled' or 'expired', never as succeeded or
    failed. *)
Theorem cancelled_run_never_resumes h d id e t c :
  wf d → executions d !! id = Some e → cancellation_requested_at e = Some t → completed_at e = None →
  (∀ x, x ∈ h ++ [c] → creates x ≠ Some id) →
  (∀ e', executions (run h d) !! id = Some e' → bound_to_cancel e e')
  ∧ (∀ k d', exec c (run h d) = (RIssued k, d') → cl_execution_id k ≠ id)
  ∧ (∀ k v, op c = OAppend k v → cl_execution_id k = id → refused c (run h d)).
Proof.
  intros Hwf He Ht Hu Hc. assert (Hc' : ∀ c, c ∈ h → creates c ≠ Some id) by (intros; apply Hc; set_solver).
  pose proof (run_cancelled h d id e t Hwf He Ht Hu Hc') as Hb. split; [done|]. split.
  - intros k d' Hi <-. destruct (issued_claim _ _ _ _ Hi) as [(e2 & He2 & Hep) Hlt].
    pose proof (run_cancelled (h ++ [c]) d _ e t Hwf He Ht Hu Hc e2) as Hb2. unfold run in Hb2. rewrite foldl_app in Hb2.
    cbn in Hb2. fold (run h d) in Hb2. rewrite Hi in Hb2. destruct (Hb2 He2) as (_ & _ & Hep2 & _).
    assert (claim_epoch e < cl_epoch k); [|lia]. apply Hlt; [apply Hc; set_solver|].
    intros e1 He1. destruct (Hb e1 He1) as (_ & _ & H & _). lia.
  - intros k v Hop Hk. unfold refused, exec. rewrite Hop. unfold append_event, append_if, owns, commit, tx_bind, tx_read.
    rewrite Hk. destruct (executions (run h d) !! id) as [e1|] eqn:He1; [|done].
    destruct (Hb e1 eq_refl) as (Hr & _). rewrite Hr, Ht. cbn. by rewrite !andb_false_r.
Qed.

(** *** The journal *)

Lemma journal_app id d d' evs id0 : events d' = events d ++ evs → Forall (λ v, vt_execution_id v = id0) evs →
  journal id d' = journal id d ++ (if decide (id0 = id) then evs else []).
Proof.
  intros Hev Hall. unfold journal. rewrite Hev, list.filter_app. f_equal. clear -Hall.
  induction Hall as [|v evs Hv _ IH]; [by destruct (decide _)|]. rewrite filter_cons, IH, Hv. by repeat case_decide.
Qed.

Lemma purge_journal now u d d' id : purge_expired_state now u d = Ok (tt, d') → is_Some (executions d' !! id) →
  journal id d' = journal id d.
Proof.
  intros [= <-]. cbn [executions with_slots with_sources with_locators with_events with_executions].
  set (x := sweep_batch _ _ _). intros Hx. unfold journal. cbn [events with_slots with_sources with_locators with_events].
  unfold cascade. rewrite list_filter_filter. apply list_filter_iff. intros v. split; [by intros []|]. by intros <-.
Qed.

(** What the journal of [id] says when its row was [e0] and its journal [j] before. *)
Definition journaled (id : Uuid) (j : list ExecutionEvent) (e0 : Execution) (d : Db) : Prop :=
  ∀ e, executions d !! id = Some e → ∃ new, journal id d = j ++ new ∧ (status e ≠ status e0 → new ≠ []).

Lemma mstep_journaled b now d d' id j e0 : b ≠ Some id → mstep b now d d' → journaled id j e0 d → journaled id j e0 d'.
Proof.
  intros Hb Hs Hj e' He'. destruct (executions d !! id) as [e|] eqn:He;
    [|by destruct (mstep_new _ _ _ _ _ _ _ Hs He He') as [? _]].
  destruct (Hj e He) as (new & Hn & Hst).
  destruct Hs as [d d' _ Hx Hv _|u d d' Hp|e1 vs d d1 d' Hb' Hi _ _ Hr _|id1 e1 s vs d d' He1 Hed Hok Hr Hne|id1 e1 v d d' He1 _ Hr].
  - exists new. unfold journal. rewrite Hv. split; [done|]. rewrite Hx, He in He'. by injection He' as <-.
  - exists new. rewrite (purge_journal _ _ _ _ _ Hp) by eauto. split; [done|].
    destruct (purge_row _ _ _ _ id Hp) as [H|[H _]]; [|congruence]. rewrite H, He in He'. by injection He' as <-.
  - pose proof (record_all_executions _ _ _ _ _ _ Hr) as Hx. apply record_all_journal in Hr as (evs & Hev & _ & Hall).
    apply insert_execution_inv in Hi as (_ & _ & ->). exists new. rewrite (journal_app _ _ _ _ _ Hev Hall).
    rewrite decide_False by congruence. rewrite app_nil_r. split; [done|].
    rewrite Hx in He'. cbn in He'. rewrite lookup_insert_ne, He in He' by congruence. by injection He' as <-.
  - pose proof (record_all_executions _ _ _ _ _ _ Hr) as Hx. apply record_all_journal in Hr as (evs & Hev & Hlen & Hall).
    rewrite (journal_app _ _ _ _ _ Hev Hall). rewrite Hx in He'. cbn in He'. case_decide as Hid.
    + subst id1. rewrite lookup_insert_eq in He'. injection He' as <-. rewrite He in He1. injection He1 as <-.
      exists (new ++ evs). unfold journal in *. cbn. rewrite Hn, <- app_assoc. split; [done|].
      intros Hch [-> ->]%app_nil. destruct (decide (status s = status e)) as [Heq|Hd].
      * apply Hst; [|done]. congruence.
      * apply (Hne Hd). by destruct vs.
    + rewrite lookup_insert_ne, He in He' by done. injection He' as <-. exists new. rewrite app_nil_r. done.
  - pose proof (record_all_executions _ _ _ _ _ _ Hr) as Hx. apply record_all_journal in Hr as (evs & Hev & _ & Hall).
    rewrite (journal_app _ _ _ _ _ Hev Hall), Hn. eexists. rewrite <- app_assoc. split; [done|].
    rewrite Hx, He in He'. injection He' as <-. intros Hd [-> _]%app_nil. by apply Hst.
Qed.

(** The journal is append-only and complete: as long as an execution exists, its events
    stay, in their order, and whenever its status is not what it was, events have been added
    since (a history of one call: in the very transaction that changed it). *)
Theorem status_change_is_journaled h d id e e' :
  (∀ c, c ∈ h → creates c ≠ Some id) → executions d !! id = Some e → executions (run h d) !! id = Some e' →
  ∃ new, journal id (run h d) = journal id d ++ new ∧ (status e' ≠ status e → new ≠ []).
Proof.
  intros Hc He He'. cut (journaled id (journal id d) e (run h d)); [by intros H; apply H|].
  apply run_preserves; [intros c d1 d2 Hin H Hs; eapply mstep_journaled; eauto|].
  intros e0 He0. rewrite He in He0. injection He0 as <-. exists []. by rewrite app_nil_r.
Qed.

End Jsonb.

(** ** Witnesses *)

Lemma drun_wf h : wf (drun h).
Proof. apply history_wf, fresh_wf. Qed.

(** The row a computation finds. *)
Ltac found := vm_compute; reflexivity.

Definition row_of (id : Uuid) (d : Db) : Execution :=
  default (new_row 0 (demo_new id) None (submitted_state 0 (demo_new id))) (executions d !! id).

Lemma history_keeps_rows_well_formed_witness :
  wf demo_db ∧ wf (run demo_eq [start_call; reconcile_call; resume_call; succeed_call 220 second_claim] demo_db).
Proof. split; [apply fresh_wf|]. apply history_keeps_rows_well_formed, fresh_wf. Defined.

Lemma completed_run_is_final_witness :
  let d := drun [start_call; succeed_call 120 first_claim] in
  let h := [cancel_call 130; succeed_call 140 first_claim; reconcile_call] in
  executions (run demo_eq h d) !! 1%N = Some (row_of 1%N d) ∨ outlived (row_of 1%N d) h.
Proof. intros d h. apply completed_run_is_final; [apply drun_wf|found..]. Defined.

Lemma superseded_claim_is_fenced_witness :
  let d := drun [start_call; reconcile_call; resume_call] in let d' := run demo_eq [cancel_call 215] d in
  refused demo_eq (succeed_call 220 first_claim) d'.
Proof.
  intros d. refine (superseded_claim_is_fenced demo_eq start_call first_claim demo_db (drun [start_call]) [reconcile_call]
    resume_call second_claim d [cancel_call 215] (succeed_call 220 first_claim) _ _ eq_refl _ eq_refl); [found..|].
  intros c Hc. repeat (apply elem_of_cons in Hc as [->|Hc]; [done|]). by apply not_elem_of_nil in Hc.
Defined.

Lemma cancelled_run_never_resumes_witness :
  let d := drun [start_call; cancel_call 110] in let d' := run demo_eq [reconcile_call] d in
  (∀ e', executions d' !! 1%N = Some e' → bound_to_cancel (row_of 1%N d) e')
  ∧ refused demo_eq (at_sec 215 (OAppend first_claim call_started)) d'.
Proof.
  intros d d'. set (c := at_sec 215 _).
  destruct (cancelled_run_never_resumes demo_eq [reconcile_call] d 1%N (row_of 1%N d) (sec 110) c) as (Hrow & _ & Happ);
    [apply drun_wf|found|found|found| |split; [exact Hrow|by eapply Happ]].
  intros x Hx. repeat (apply elem_of_cons in Hx as [->|Hx]; [done|]). by apply not_elem_of_nil in Hx.
Defined.

Lemma status_change_is_journaled_witness :
  let d := drun [start_call] in let h := [reconcile_call] in
  ∃ new, journal 1%N (run demo_eq h d) = journal 1%N d ++ new ∧ new ≠ [].
Proof.
  intros d h. destruct (status_change_is_journaled demo_eq h d 1%N (row_of 1%N d) (row_of 1%N (run demo_eq h d))) as (new & Hj & Hn);
    [|found..|exists new; split; [exact Hj|apply Hn; vm_compute; discriminate]].
  intros x Hx. apply list_elem_of_singleton in Hx as ->. done.
Defined.

End ExecutionHistory.
