(* ===== verification/ExecutionStarts.v ===== *)
(** * Code-mode executions: starts

    What the store promises to callers that race or retry: retry-equivalent starts
    converge on one unfinished execution. [ordered] is the invariant behind it: of
    two retained executions of one identity the older is finished. The theorem
    assumes calls at increasing times, and that [jsonb] equality is symmetric and
    transitive. *)

From S2P Require Import Prelude RustStr HashChain Json OauthStore ExecutionTypes ExecutionStore ExecutionRuns.
From stdpp Require Import relations.
From Stdlib Require Import Sorted.
Local Open Scope Z_scope.

Module ExecutionStarts.
Import HashChain(Uuid) Json.Json OauthStore(timestamptz) ExecutionTypes.ExecutionTypes ExecutionStore.ExecutionStore
  ExecutionRuns.ExecutionRuns ExecutionRuns.ExecutionDemo.

(** Calls at increasing times after [t], and the time of the last of them. *)
Fixpoint ticking (t : time) (h : list Call) : Prop :=
  match h with [] => True | c :: h => t < at_ c ∧ ticking (at_ c) h end.

Definition last_time (t : time) (h : list Call) : time := foldl (λ _ c, at_ c) t h.

Section Jsonb.
Context (jsonb_eq : Value → Value → bool).
Implicit Types (e : Execution) (d : Db).

(** ** The newest row *)

Lemma newest_cons x l : newest (x :: l) =
  match newest l with Some b => if later x b then Some x else Some b | None => Some x end.
Proof. cbn. unfold newest. by destruct (foldr _ _ _). Qed.

Lemma newest_in l e : newest l = Some e → e ∈ l.
Proof.
  revert e. induction l as [|x l IH]; [done|]. intros e. rewrite newest_cons.
  destruct (newest l) as [b|]; [|intros H; injection H as <-; by left].
  destruct (later x b); intros H; injection H as <-; [by left|right; auto].
Qed.

Lemma newest_none l : newest l = None → l = [].
Proof. destruct l as [|x l]; [done|]. rewrite newest_cons. by destruct (newest l) as [b|]; [destruct (later x b)|]. Qed.

Lemma newest_max l e x : newest l = Some e → x ∈ l → later x e = false.
Proof.
  revert e. induction l as [|y l IH]; intros e H Hin; [by apply not_elem_of_nil in Hin|]. rewrite newest_cons in H.
  destruct (newest l) as [b|] eqn:Hn.
  - apply elem_of_cons in Hin as [->|Hin].
    + destruct (later y b) eqn:Hl; injection H as <-; [|done].
      unfold later. rewrite Z.ltb_irrefl, N.ltb_irrefl. by rewrite andb_false_r.
    + specialize (IH b eq_refl Hin). destruct (later y b) eqn:Hl; injection H as <-; [|done].
      revert IH Hl. unfold later. rewrite !orb_false_iff, !orb_true_iff, !andb_false_iff, !andb_true_iff.
      rewrite !Z.ltb_lt, !Z.ltb_ge, !Z.eqb_eq, !Z.eqb_neq, !N.ltb_lt, !N.ltb_ge. lia.
  - apply newest_none in Hn as ->. injection H as <-. apply list_elem_of_singleton in Hin as ->.
    unfold later. rewrite Z.ltb_irrefl, N.ltb_irrefl. by rewrite andb_false_r.
Qed.

Lemma later_total e1 e2 : later e1 e2 = false → ex_id e1 ≠ ex_id e2 → later e2 e1 = true.
Proof.
  unfold later. rewrite orb_false_iff, orb_true_iff, andb_false_iff, andb_true_iff.
  rewrite !Z.ltb_lt, !Z.ltb_ge, !Z.eqb_eq, !Z.eqb_neq, !N.ltb_lt, !N.ltb_ge. lia.
Qed.

Lemma elem_of_matching p d e : map_Forall row_wf (executions d) →
  e ∈ matching p d ↔ executions d !! ex_id e = Some e ∧ p e = true.
Proof.
  intros Hwf. unfold matching. rewrite list_elem_of_filter, list_elem_of_fmap. split.
  - intros [Hp ([id e'] & -> & Hin%elem_of_map_to_list)]. cbn in *. destruct (Hwf _ _ Hin) as (Hid & _). by rewrite Hid.
  - intros [He Hp]. split; [done|]. exists (ex_id e, e). split; [done|]. by apply elem_of_map_to_list.
Qed.

(** ** Starts *)

(** A row of the retry identity, retained or not. *)
Definition alike (r : RetryEquivalence) (e : Execution) : bool :=
  bool_decide (ex_tenant_id e = re_tenant_id r) && owned_by (re_principal_sub r) (re_principal_issuer r) e
  && bool_decide (ex_start_dedupe_key e = Some (re_dedupe_key r))
  && bool_decide (ex_source_digest e = re_source_digest r)
  && jsonb_eq (ex_execution_profile e) (re_execution_profile r).

Lemma equivalent_alike r now e : equivalent jsonb_eq r now e = alike r e && (now <? ex_retention_until e).
Proof. done. Qed.

(** The rows of [d'] that [d] had, with what an UPDATE leaves alone. *)
Definition kept (d : Db) (e' : Execution) : Prop :=
  ∃ e s, executions d !! ex_id e = Some e ∧ e' = with_state (λ _, s) e ∧ (completed_at e ≠ None → completed_at e' ≠ None).

Lemma mstep_kept b now d d' id e' : wf d → mstep jsonb_eq b now d d' → executions d' !! id = Some e' →
  kept d e' ∨ born_row b now id e'.
Proof.
  intros Hwf Hs He'. destruct (executions d !! id) as [e|] eqn:He; [left|right; by eapply mstep_new].
  pose proof (wf_rows _ Hwf _ _ He) as Hrow. pose proof Hrow as (Hid & _).
  destruct (mstep_row _ _ _ _ _ _ _ Hs He) as [H|[[H _]|(s & H & Hed & _)]].
  - exists e, (ex_state e). rewrite He' in H. injection H as ->. rewrite Hid. split; [done|]. split; [by destruct e|done].
  - congruence.
  - exists e, (touch now s). rewrite He' in H. injection H as ->. rewrite Hid. split; [done|]. split; [done|].
    intros Hc. by apply (edit_unfinished _ _ id) in Hed.
Qed.

(** Of two retained executions of one identity the older is finished. *)
Definition ordered (d : Db) : Prop := ∀ r e1 e2,
  executions d !! ex_id e1 = Some e1 → executions d !! ex_id e2 = Some e2 → ex_id e1 ≠ ex_id e2 →
  alike r e1 = true → alike r e2 = true → later e1 e2 = true →
  completed_at e2 ≠ None ∨ ex_retention_until e2 <= ex_submitted_at e1.

Definition submitted_by (t : time) (d : Db) : Prop :=
  ∀ e, executions d !! ex_id e = Some e → ex_submitted_at e <= t.

Record starts_ok (t : time) (d : Db) : Prop := {
  so_wf : wf d;
  so_ordered : ordered d;
  so_clock : submitted_by t d;
}.

Lemma kept_ok t d d' : starts_ok t d → wf d' → (∀ e', executions d' !! ex_id e' = Some e' → kept d e') → starts_ok t d'.
Proof.
  intros [_ Ho Hc] Hwf Hk. split; [done|..].
  - intros r e1 e2 H1 H2 Hne Ha1 Ha2 Hl. apply Hk in H1 as (x1 & s1 & H1 & -> & _). apply Hk in H2 as (x2 & s2 & H2 & -> & Hx).
    destruct (Ho r x1 x2 H1 H2) as [?|?]; auto.
  - intros e He. apply Hk in He as (x & s & H & -> & _). exact (Hc x H).
Qed.

Lemma msteps_ok now t d d' : rtc (mstep jsonb_eq None now) d d' → starts_ok t d → starts_ok t d'.
Proof.
  induction 1 as [|d1 d2 d3 Hs _ IH]; [done|]. intros Hok. apply IH. apply (kept_ok t d1); [done|by eapply mstep_wf; [|apply Hok]|].
  intros e' He'. by destruct (mstep_kept _ _ _ _ _ _ (so_wf _ _ Hok) Hs He') as [?|[? _]].
Qed.

(** A new row of an identity whose other retained rows are finished. *)
Lemma new_row_ok now t d d' e : starts_ok t d → t < now → wf d' →
  executions d' = <[ex_id e := e]> (executions d) → executions d !! ex_id e = None → ex_submitted_at e = now →
  (∀ r e2, executions d !! ex_id e2 = Some e2 → alike r e = true → alike r e2 = true →
     completed_at e2 ≠ None ∨ ex_retention_until e2 <= now) →
  starts_ok now d'.
Proof.
  intros [_ Ho Hc] Ht Hwf Hx Hn Hsub Hr. split; [done|..].
  - intros r e1 e2 H1 H2 Hne Ha1 Ha2 Hl. rewrite Hx in H1, H2.
    apply lookup_insert_Some in H1 as [[_ <-]|[_ H1]]; apply lookup_insert_Some in H2 as [[_ <-]|[_ H2]].
    + done.
    + rewrite Hsub. eauto.
    + specialize (Hc e1 H1). unfold later in Hl. rewrite Hsub in Hl. apply orb_true_iff in Hl as [Hl|Hl]; bool_to_prop; lia.
    + eauto.
  - intros e1 H1. rewrite Hx in H1. apply lookup_insert_Some in H1 as [[_ <-]|[_ H1]]; [lia|]. specialize (Hc e1 H1). lia.
Qed.

Lemma starts_ok_later t t' d : starts_ok t d → t <= t' → starts_ok t' d.
Proof. intros [Hw Ho Hc] Ht. split; [done..|]. intros e He. specialize (Hc e He). lia. Qed.

Lemma start_cases now u s d r d' : start_or_reuse jsonb_eq now u s d = (r, d') →
  d' = d ∨ ∃ d1, purge_expired_state now u d = Ok (tt, d1)
    ∧ (mstep jsonb_eq None now d1 d' ∨ (∃ r, start_new now s d1 = Ok (r, d'))
         ∧ ∀ latest, newest (matching (equivalent jsonb_eq (identity_of s) now) d1) = Some latest →
             is_terminal (status latest) = true).
Proof.
  unfold start_or_reuse. intros H. inv_tx; [|by left]. right. eexists. split; [done|].
  destruct (newest _) as [latest|]; destruct (se_repeat_after s) as [after|]; cbn beta iota in *.
  - destruct (bool_decide _); [destruct (is_terminal _) eqn:Ht|]; inv_tx.
    + right. split; [by eexists|]. by intros ? [= <-].
    + left. by apply ms_side.
    + destruct (newest _); [destruct (is_terminal _)|]; inv_tx; left; try (by apply ms_side). by eapply bind_tx_step.
  - inv_tx. left. by eapply bind_tx_step.
  - inv_tx. left. by apply ms_side.
  - right. split; [by eexists|done].
Qed.

Lemma start_new_rows now s d r d' : start_new now s d = Ok (r, d') →
  let row := new_row now (se_execution s) (Some (se_dedupe_key s)) (started_state now s) in
  executions d !! ex_id row = None ∧ executions d' = <[ex_id row := row]> (executions d).
Proof.
  unfold start_new, started_events. intros H. inv_tx.
  match goal with H1 : insert_execution _ d = _, H2 : bind_source_locator_tx _ _ _ _ = _, H3 : record_all _ _ _ _ _ = _ |- _ =>
    apply record_all_executions in H3; apply bind_tx_side in H2 as (_ & H2 & _); apply insert_execution_inv in H1 as (? & _ & ->);
    rewrite H3, H2 end.
  done.
Qed.

Hypothesis jsonb_sym : ∀ a b, jsonb_eq a b = true → jsonb_eq b a = true.
Hypothesis jsonb_trans : ∀ a b c, jsonb_eq a b = true → jsonb_eq b c = true → jsonb_eq a c = true.

(** An identity a new row belongs to is, up to [jsonb] equality, the identity of its start. *)
Lemma alike_start now s r e2 :
  alike r (new_row now (se_execution s) (Some (se_dedupe_key s)) (started_state now s)) = true → alike r e2 = true →
  alike (identity_of s) e2 = true.
Proof.
  unfold alike, owned_by. cbn. intros H1 H2. bool_to_prop. simplify_eq.
  repeat (apply andb_true_iff; split); try (by apply bool_decide_eq_true; congruence).
  eapply jsonb_trans; [done|]. by apply jsonb_sym.
Qed.

Lemma start_ok now t u s d r d' : start_or_reuse jsonb_eq now u s d = (r, d') → starts_ok t d → t < now → starts_ok now d'.
Proof.
  intros H Hok Ht. assert (Hw' : wf d').
  { apply start_steps in H. clear -H Hok. pose proof (so_wf _ _ Hok) as Hwf. clear Hok.
    induction H; [done|]. apply IHrtc. by eapply mstep_wf. }
  apply start_cases in H as [->|(d1 & Hp & Hc)]; [by apply (starts_ok_later t); [|lia]|].
  assert (Hok1 : starts_ok t d1) by (apply (msteps_ok now t d); [by apply rtc_once; eapply ms_purge|done]).
  destruct Hc as [Hs|[[r' Hnew] Hlatest]].
  { apply (starts_ok_later t); [|lia]. by apply (msteps_ok now t d1); [apply rtc_once|]. }
  apply start_new_rows in Hnew as [Hn Hx]. eapply new_row_ok; [exact Hok1|exact Ht|done|exact Hx|done|done|].
  intros r0 e2 He2 Ha Ha2. pose proof (alike_start _ _ _ _ Ha Ha2) as Hs2.
  destruct (Z.le_gt_cases (ex_retention_until e2) now) as [?|Hret]; [by right|]. left.
  pose proof (wf_rows _ (so_wf _ _ Hok1)) as Hrows.
  assert (Hin : e2 ∈ matching (equivalent jsonb_eq (identity_of s) now) d1).
  { apply elem_of_matching; [done|]. split; [done|]. rewrite equivalent_alike, Hs2. by apply Z.ltb_lt. }
  destruct (newest _) as [latest|] eqn:Hnw; [|apply newest_none in Hnw; rewrite Hnw in Hin; by apply not_elem_of_nil in Hin].
  pose proof (newest_max _ _ _ Hnw Hin) as Hmax. apply newest_in in Hnw. apply elem_of_matching in Hnw as [Hl Heq]; [|done].
  specialize (Hlatest latest eq_refl). destruct (Hrows _ _ Hl) as (_ & Hrok & _). apply row_ok_terminal in Hrok.
  destruct (decide (ex_id e2 = ex_id latest)) as [Hid|Hid].
  { rewrite Hid in He2. rewrite He2 in Hl. injection Hl as ->. by destruct (completed_at latest); [|rewrite Hlatest in Hrok]. }
  rewrite equivalent_alike in Heq. bool_to_prop.
  destruct (so_ordered _ _ Hok1 (identity_of s) latest e2) as [?|?]; auto; [by apply later_total|].
  pose proof (so_clock _ _ Hok1 _ Hl). lia.
Qed.

Lemma submit_ok now t u n d r d' : submit now u n d = (r, d') → starts_ok t d → t < now → starts_ok now d'.
Proof.
  intros H Hok Ht. assert (Hw' : wf d').
  { apply (submit_steps jsonb_eq) in H. clear -H Hok. pose proof (so_wf _ _ Hok) as Hwf. clear Hok.
    induction H; [done|]. apply IHrtc. by eapply mstep_wf. }
  unfold submit in H. inv_tx; [|by apply (starts_ok_later t); [|lia]].
  match goal with H1 : purge_expired_state _ _ _ = Ok (tt, ?d1), H2 : insert_execution _ _ = _, H3 : record_all _ _ _ _ _ = _ |- _ =>
    assert (Hok1 : starts_ok t d1) by (apply (msteps_ok now t d); [by apply rtc_once; eapply ms_purge|done]);
    apply record_all_executions in H3; apply insert_execution_inv in H2 as (Hn & _ & ->); cbn [executions with_executions] in H3
  end.
  eapply new_row_ok; [exact Hok1|exact Ht|done|done|done|done|].
  intros r0 e2 _ Ha. unfold alike in Ha. bool_to_prop. done.
Qed.

Lemma call_ok c t d : starts_ok t d → t < at_ c → starts_ok (at_ c) (exec jsonb_eq c d).2.
Proof.
  intros Hok Ht. destruct (exec jsonb_eq c d) as [r d'] eqn:He. cbn. pose proof (exec_steps _ _ _ _ _ He) as Hs.
  destruct (creates c) eqn:Hc; [|by apply (starts_ok_later t); [by eapply msteps_ok|lia]].
  unfold creates in Hc. unfold exec, answer in He. destruct (op c) as [n|s| | | | | | | | | | | | | | | | | |]; try done; injection He as _ Hd.
  - destruct (submit _ _ _ _) as [r1 d1] eqn:H1. cbn in Hd. subst. by eapply submit_ok.
  - destruct (start_or_reuse _ _ _ _ _) as [r1 d1] eqn:H1. cbn in Hd. subst. by eapply start_ok.
Qed.

Lemma history_ok h t d : ticking t h → starts_ok t d → starts_ok (last_time t h) (run jsonb_eq h d).
Proof.
  revert t d. induction h as [|c h IH]; intros t d Hh Hok; [done|]. destruct Hh as [Ht Hh].
  apply (IH (at_ c)); [done|]. by apply (call_ok c t).
Qed.

Lemma fresh_ok ts t : starts_ok t (fresh_db ts).
Proof.
  split; [split|..]; cbn; [apply map_Forall_empty|constructor..| |]; [intros ? ? ? H|intros ? H]; cbn in H; by rewrite lookup_empty in H.
Qed.

(** C16. Retry-equivalent starts converge. In every history of calls at increasing times, at
    most one execution of a retry identity (tenant, principal, key, source digest and
    profile) that is still retained is unfinished: a repeated start finds the run that is
    under way instead of executing the program a second time, and an explicit repeat starts
    a new run only when the latest one has finished. *)
Theorem retry_equivalent_starts_converge ts t h r now e1 e2 :
  ticking t h → last_time t h <= now →
  let d := run jsonb_eq h (fresh_db ts) in
  executions d !! ex_id e1 = Some e1 → executions d !! ex_id e2 = Some e2 →
  equivalent jsonb_eq r now e1 = true → equivalent jsonb_eq r now e2 = true →
  completed_at e1 = None → completed_at e2 = None → e1 = e2.
Proof.
  intros Hh Hnow d H1 H2 Hq1 Hq2 Hc1 Hc2. pose proof (history_ok h t _ Hh (fresh_ok ts t)) as [_ Ho Hc]. fold d in Ho, Hc.
  destruct (decide (ex_id e1 = ex_id e2)) as [Hid|Hid]; [rewrite Hid in H1; congruence|].
  rewrite equivalent_alike in Hq1, Hq2. bool_to_prop.
  destruct (later e1 e2) eqn:Hl.
  - pose proof (Hc _ H1). destruct (Ho r e1 e2) as [?|?]; auto; [done|lia].
  - pose proof (Hc _ H2). destruct (Ho r e2 e1) as [?|?]; auto; [by apply later_total|done|lia].
Qed.

End Jsonb.

(** Two racing starts, then an explicit repeat after the first run has finished. *)
Definition racing : list Call :=
  [start_call; at_sec 101 (OStart (demo_start 2%N None)); succeed_call 120 first_claim;
   at_sec 130 (OStart (demo_start 3%N (Some 1%N))); at_sec 131 (OStart (demo_start 4%N (Some 1%N)))].

Definition demo_identity : RetryEquivalence := identity_of (demo_start 1%N None).

Example racing_rows : (fst <$> map_to_list (executions (drun racing))) ≡ₚ [1%N; 3%N].
Proof. vm_compute. apply (bool_decide_unpack _). vm_compute. exact I. Qed.

Lemma retry_equivalent_starts_converge_witness :
  ∃ e : Execution, executions (drun racing) !! 3%N = Some e ∧ completed_at e = None
    ∧ ∀ e' : Execution, executions (drun racing) !! ex_id e' = Some e' → equivalent demo_eq demo_identity (sec 140) e' = true →
        completed_at e' = None → e = e'.
Proof.
  destruct (executions (drun racing) !! 3%N) as [e|] eqn:He; [|by vm_compute in He].
  exists e. assert (Hf : ex_id e = 3%N ∧ completed_at e = None ∧ equivalent demo_eq demo_identity (sec 140) e = true).
  { revert He. vm_compute. intros [= <-]. done. }
  destruct Hf as (Hid & Hc & Hq). split; [done|]. split; [done|]. intros e' He' Hq' Hc'.
  refine (retry_equivalent_starts_converge demo_eq demo_sym demo_trans {["acme"]} 0 racing demo_identity (sec 140) e e'
    _ _ _ He' Hq Hq' Hc Hc').
  - clear. vm_compute. repeat split.
  - vm_compute. discriminate.
  - rewrite Hid. exact He.
Defined.

End ExecutionStarts.
