(* ===== verification/ExecutionBudgets.v ===== *)
(** * Code-mode executions: locators and slots

    The tables beside the executions. Only four calls write source locators, after
    a purge; only the slot calls write slots. Over any history, a live locator keeps
    its digest, the live locators of an owner and of a tenant stay within
    [MAX_SOURCE_LOCATORS_PER_OWNER] and [MAX_SOURCE_LOCATORS_PER_TENANT], and a
    detached slot is not taken from a holder whose lease runs. *)

From S2P Require Import Prelude RustStr HashChain Json OauthStore ExecutionTypes ExecutionStore ExecutionRuns ExecutionStarts.
From stdpp Require Import relations.
Local Open Scope Z_scope.

Module ExecutionBudgets.
Import HashChain(Uuid) Json.Json OauthStore(timestamptz) ExecutionTypes.ExecutionTypes ExecutionStore.ExecutionStore
  ExecutionRuns.ExecutionRuns ExecutionRuns.ExecutionDemo ExecutionStarts.ExecutionStarts.

(** ** Transactions on executions alone *)

Definition beside (d d' : Db) : Prop :=
  tenants d' = tenants d ∧ locators d' = locators d ∧ sources d' = sources d ∧ slots d' = slots d.

Lemma beside_trans d1 d2 d3 : beside d1 d2 → beside d2 d3 → beside d1 d3.
Proof. unfold beside. intros (? & ? & ? & ?) (? & ? & ? & ?). split_and!; congruence. Qed.

Definition frame {A} (t : Tx A) : Prop := ∀ d a d', t d = Ok (a, d') → beside d d'.

Lemma frame_ret {A} (a : A) : frame (tx_ret a).
Proof. by intros d b d' [-> ->]%tx_ret_inv. Qed.

Lemma frame_read {A} (f : Db → A) : frame (tx_read f).
Proof. by intros d b d' [= <- <-]. Qed.

Lemma frame_bind {A B} (t : Tx A) (f : A → Tx B) : frame t → (∀ a, frame (f a)) → frame (tx_bind t f).
Proof. intros Ht Hf d b d2 (a & d1 & H1 & H2)%tx_bind_inv. eapply beside_trans; [by eapply Ht|by eapply Hf]. Qed.

Lemma frame_update now tenant id p f : frame (update_execution now tenant id p f).
Proof. by intros d a d' [[-> ->]|(e & _ & _ & _ & _ & _ & ->)]%update_inv. Qed.

Lemma frame_event now id tenant v : frame (insert_event now id tenant v).
Proof. by intros d [] d' (ev & e & -> & _)%insert_event_inv. Qed.

Ltac frame_step := intros; first
  [ apply frame_ret | apply frame_read | apply frame_update | apply frame_event | apply frame_bind
  | match goal with |- frame (match ?x with _ => _ end) => destruct x end
  | match goal with |- frame (if ?x then _ else _) => destruct x end ].

Lemma frame_reconcile now t s u i g q : frame (reconcile_abandoned_in now t s u i g q).
Proof.
  intros d a d'. unfold reconcile_abandoned_in. generalize (executions d !! i). intros o. revert a d'.
  match goal with |- ∀ a d', ?t d = _ → _ => enough (frame t) as H by (intros a d'; apply H) end. repeat frame_step.
Qed.

Lemma commit_frame {A} (t : Tx A) d r d' : frame t → commit t d = (r, d') → beside d d'.
Proof. intros Ht [(a & H & _)|(x & _ & ->)]%commit_inv; [by eapply Ht|done]. Qed.

(** The calls that write executions and their journal only. *)
Definition quiet (o : Op) : bool :=
  match o with
  | OSubmit _ | OStart _ | OBindLocator _ _ _ _ | ORetain _ _ _ _ _ | OAcquireSlot _ _ | OReleaseSlot _ | ORenewSlot _ _ => false
  | _ => true
  end.

Section Jsonb.
Context (jsonb_eq : Value → Value → bool).
Implicit Types (e : Execution) (d : Db).

Lemma quiet_beside c d : quiet (op c) = true → beside d (exec jsonb_eq c d).2.
Proof.
  unfold exec, answer. destruct (op c); intros Hq; try done; cbn [snd].
  all: match goal with |- beside _ (?f).2 => destruct f as [rr dd] eqn:He; cbn [snd] end.
  all: eapply commit_frame; [|exact He]; unfold started_events, transition_claimed, transition;
    repeat (intros; first [apply frame_reconcile|frame_step]).
Qed.

(** ** Source locators *)

Notation Locators := (gmap (SourceArtifactOwner * string) SourceLocator).

(** A purge, then at most one binding. *)
Inductive rebinds (now : time) (m : Locators) : Locators → Prop :=
  | rb_sweep m' : m' ⊆ m → (∀ k r, m !! k = Some r → now < sl_expires_at r → m' !! k = Some r) → rebinds now m m'
  | rb_bind m1 owner l g x d1 d2 : m1 ⊆ m → (∀ k r, m !! k = Some r → now < sl_expires_at r → m1 !! k = Some r) →
      locators d1 = m1 → bind_source_locator_row now owner l g x d1 = Ok (tt, d2) → rebinds now m (locators d2).

Lemma rebinds_refl now m : rebinds now m m.
Proof. by apply rb_sweep. Qed.

Lemma sweep_subseteq {K V} `{Countable K} (p : V → bool) (l : list K) (m : gmap K V) : sweep_batch p l m ⊆ m.
Proof.
  apply map_subseteq_spec. intros k v Hk. destruct (sweep_batch_lookup p l m k) as [Hs|[Hs _]]; congruence.
Qed.

Lemma purge_locators now u d d' : purge_expired_state now u d = Ok (tt, d') →
  locators d' ⊆ locators d ∧ (∀ k r, locators d !! k = Some r → now < sl_expires_at r → locators d' !! k = Some r).
Proof.
  intros [= <-]. cbn [locators with_slots with_sources with_locators]. split; [apply sweep_subseteq|].
  intros k r Hk Hr. match goal with |- sweep_batch ?p ?l ?m !! k = _ => destruct (sweep_batch_lookup p l m k) as [H|(_ & v & Hv & Hp)] end;
    [by rewrite H|]. rewrite Hk in Hv. injection Hv as <-. bool_to_prop. lia.
Qed.

Lemma purge_only now u d d' : purge_expired_state now u d = Ok (tt, d') → rebinds now (locators d) (locators d').
Proof. intros [? ?]%purge_locators. by apply rb_sweep. Qed.

Lemma purge_then_bind now u n l d d1 d2 : purge_expired_state now u d = Ok (tt, d1) →
  ∀ d0, locators d0 = locators d1 → bind_source_locator_tx now n l d0 = Ok (tt, d2) →
  rebinds now (locators d) (locators d2).
Proof.
  intros [H1 H2]%purge_locators d0 Hd Hb. destruct l as [l|]; cbn in Hb.
  - by eapply (rb_bind _ _ _ _ _ _ _ d0).
  - injection Hb as <-. rewrite Hd. by apply rb_sweep.
Qed.

Lemma record_all_beside now id tenant vs d d' : record_all now id tenant vs d = Ok (tt, d') → beside d d'.
Proof.
  revert d. induction vs as [|v vs IH]; intros d; cbn; [by intros [= <-]|].
  intros ([] & d1 & H1 & H2)%tx_bind_inv. eapply beside_trans; [by eapply frame_event|by apply IH].
Qed.

Lemma start_new_rebinds now u s d d1 r d' : purge_expired_state now u d = Ok (tt, d1) → start_new now s d1 = Ok (r, d') →
  rebinds now (locators d) (locators d').
Proof.
  unfold start_new, started_events. intros Hp H. inv_tx.
  match goal with H2 : insert_execution _ _ = _, H3 : bind_source_locator_tx _ _ _ _ = _, H4 : record_all _ _ _ _ _ = _ |- _ =>
    apply record_all_beside in H4 as (_ & -> & _); apply insert_execution_inv in H2 as (_ & _ & ->);
    eapply (purge_then_bind _ _ _ _ _ _ _ Hp); [|exact H3]; done end.
Qed.

Lemma start_rebinds now u s d r d' : start_or_reuse jsonb_eq now u s d = (r, d') → rebinds now (locators d) (locators d').
Proof.
  unfold start_or_reuse. intros H. inv_tx; [|apply rebinds_refl].
  match goal with H : purge_expired_state _ _ _ = _ |- _ => rename H into Hp end.
  destruct (newest _) as [latest|]; destruct (se_repeat_after s) as [after|]; cbn beta iota in *.
  - destruct (bool_decide _); [destruct (is_terminal _)|]; inv_tx;
      [by eapply start_new_rebinds|by eapply purge_only|].
    destruct (newest _); [destruct (is_terminal _)|]; inv_tx; try (by eapply purge_only). by eapply purge_then_bind.
  - inv_tx. by eapply purge_then_bind.
  - inv_tx. by eapply purge_only.
  - by eapply start_new_rebinds.
Qed.

Lemma exec_rebinds c d : rebinds (at_ c) (locators d) (locators (exec jsonb_eq c d).2).
Proof.
  destruct (quiet (op c)) eqn:Hq; [by destruct (quiet_beside c d Hq) as (_ & -> & _); apply rebinds_refl|].
  unfold exec, answer. destruct (op c); try done; clear Hq; cbn [snd].
  all: match goal with |- rebinds _ _ (locators (?f).2) => destruct f as [rr dd] eqn:He; cbn [snd] end.
  - unfold submit in He. inv_tx; [|apply rebinds_refl].
    match goal with H1 : purge_expired_state _ _ _ = _, H2 : insert_execution _ _ = _, H3 : record_all _ _ _ _ _ = _ |- _ =>
      apply insert_execution_inv in H2 as (_ & _ & ->); apply record_all_beside in H3 as (_ & -> & _); exact (purge_only _ _ _ _ H1) end.
  - by eapply start_rebinds.
  - unfold bind_source_locator in He. inv_tx; [|apply rebinds_refl].
    match goal with H1 : purge_expired_state _ _ _ = _ |- _ => apply purge_locators in H1 as [? ?] end. by eapply rb_bind.
  - unfold retain_source in He. inv_tx; [|apply rebinds_refl].
    destruct (_ || _ || _ || _); [done|]. destruct (negb _); [done|]. injection He as <- <-.
    match goal with H1 : purge_expired_state _ _ _ = _ |- _ => exact (purge_only _ _ _ _ H1) end.
  - unfold acquire_detached_slot in He. by repeat (case_match; simplify_eq; try apply rebinds_refl).
  - unfold release_detached_slot in He. by case_match; simplify_eq; apply rebinds_refl.
  - unfold renew_detached_slot in He. by case_match; simplify_eq; apply rebinds_refl.
Qed.

(** The counts a binding is checked against: the live rows other than its own. *)
Lemma bind_row_inv now owner l g x d d' : bind_source_locator_row now owner l g x d = Ok (tt, d') →
  live_locators now (λ k, negb (bool_decide (k = (owner, l)))) (so_tenant_id owner) (locators d) + 1 <= MAX_SOURCE_LOCATORS_PER_TENANT
  ∧ live_locators now (λ k, bool_decide (k.1 = owner) && negb (bool_decide (k.2 = l))) (so_tenant_id owner) (locators d) + 1
      <= MAX_SOURCE_LOCATORS_PER_OWNER
  ∧ ∃ row, locators d' = <[(owner, l) := row]> (locators d) ∧ sl_source_digest row = g
      ∧ ∀ r, locators d !! (owner, l) = Some r → sl_source_digest r = g ∧ sl_expires_at r <= sl_expires_at row.
Proof.
  unfold bind_source_locator_row. set (t := live_locators _ _ _ _). set (o := live_locators _ _ _ _).
  destruct (_ || _) eqn:Hb; [done|]. destruct (negb _); [done|]. apply orb_false_iff in Hb as [Ht Ho].
  unfold saturating_add, i64_max, MAX_SOURCE_LOCATORS_PER_TENANT, MAX_SOURCE_LOCATORS_PER_OWNER in *. bool_to_prop.
  intros H. split; [lia|]. split; [lia|]. destruct (locators d !! (owner, l)) as [r|].
  - destruct (bool_decide _) eqn:Hd; [|done]. injection H as <-. bool_to_prop. eexists. split; [done|]. split; [done|].
    intros r' [= <-]. split; [done|]. cbn. lia.
  - injection H as <-. eexists. by split.
Qed.

(** A locator is never rebound: while it is live, every history keeps its row with the
    digest it was bound to, and its expiry only moves forward; a call that would bind it to
    another digest is refused. *)
Theorem live_locator_keeps_its_digest h d k r :
  locators d !! k = Some r → (∀ c, c ∈ h → at_ c < sl_expires_at r) →
  ∃ r', locators (run jsonb_eq h d) !! k = Some r' ∧ sl_source_digest r' = sl_source_digest r ∧ sl_expires_at r <= sl_expires_at r'.
Proof.
  revert d r. induction h as [|c h IH]; intros d r Hk Hc; [by exists r|]. cbn.
  assert (∃ r', locators (exec jsonb_eq c d).2 !! k = Some r' ∧ sl_source_digest r' = sl_source_digest r
            ∧ sl_expires_at r <= sl_expires_at r') as (r1 & H1 & Hd & Hx).
  { destruct (exec_rebinds c d) as [m' _ Hkeep|m1 owner l g x d1 d2 _ Hkeep Hd1 Hb].
    - exists r. split; [|done]. apply Hkeep; [done|]. apply Hc. by left.
    - specialize (Hkeep k r Hk ltac:(apply Hc; by left)). rewrite <- Hd1 in Hkeep.
      apply bind_row_inv in Hb as (_ & _ & row & -> & Hg & Hr). destruct (decide ((owner, l) = k)) as [<-|Hne].
      + rewrite lookup_insert_eq. exists row. destruct (Hr r Hkeep) as [? ?]. split; [done|]. split; [congruence|done].
      + rewrite lookup_insert_ne by done. by exists r. }
  destruct (IH _ r1 H1) as (r2 & H2 & Hd2 & Hx2).
  { intros c' Hc'. specialize (Hc c' ltac:(by right)). lia. }
  exists r2. split; [done|]. split; [congruence|lia].
Qed.

(** ** Budgets *)

Definition within_budget (now : time) (m : Locators) : Prop :=
  (∀ owner, live_locators now (λ k, bool_decide (k.1 = owner)) (so_tenant_id owner) m <= MAX_SOURCE_LOCATORS_PER_OWNER)
  ∧ (∀ tenant, live_locators now (λ _, true) tenant m <= MAX_SOURCE_LOCATORS_PER_TENANT).

(** Fewer rows are live later, and in a smaller table. *)
Lemma live_mono now now' p tenant m m' : now <= now' → m' ⊆ m → live_locators now' p tenant m' <= live_locators now p tenant m.
Proof.
  intros Hn Hm. unfold live_locators. apply inj_le. apply map_subseteq_size. apply map_subseteq_spec.
  intros k r [Hk Hp]%map_lookup_filter_Some. apply map_lookup_filter_Some. split; [by eapply lookup_weaken|].
  cbn in *. bool_to_prop. repeat (apply andb_true_iff; split); [by apply bool_decide_eq_true|apply Z.ltb_lt; lia|done].
Qed.

Lemma within_budget_mono now now' m m' : now <= now' → m' ⊆ m → within_budget now m → within_budget now' m'.
Proof.
  intros Hn Hm [Ho Ht]. split; [intros owner|intros tenant]; (etrans; [by apply live_mono|]); [apply Ho|apply Ht].
Qed.

(** A binding adds at most its own row to what it counted. *)
Lemma live_insert now p q tenant k row m : (∀ k', k' ≠ k → p k' = true → q k' = true) →
  live_locators now p tenant (<[k := row]> m) <= live_locators now q tenant m + 1.
Proof.
  intros Hpq. unfold live_locators.
  set (f := filter _ (<[k := row]> m)). set (g := filter _ m).
  assert (Hsub : f ⊆ <[k := row]> g).
  { apply map_subseteq_spec. intros k' r [Hk Hp]%map_lookup_filter_Some. destruct (decide (k = k')) as [<-|Hne].
    - rewrite lookup_insert_eq in Hk. by rewrite lookup_insert_eq.
    - rewrite lookup_insert_ne in Hk |- * by done. apply map_lookup_filter_Some. split; [done|]. cbn in *. bool_to_prop.
      repeat (apply andb_true_iff; split); [by apply bool_decide_eq_true|by apply Z.ltb_lt|by apply Hpq]. }
  apply map_subseteq_size in Hsub. rewrite map_size_insert in Hsub. destruct (g !! k); unfold id in Hsub; lia.
Qed.

Lemma live_insert_other now p tenant k row m : tenant ≠ so_tenant_id k.1 ∨ p k = false →
  live_locators now p tenant (<[k := row]> m) <= live_locators now p tenant m.
Proof.
  intros Hk. unfold live_locators. apply inj_le, map_subseteq_size. rewrite map_filter_insert_False; [|cbn; intros H; bool_to_prop; destruct Hk; congruence].
  apply map_filter_subseteq_mono. apply delete_subseteq.
Qed.

Lemma rebinds_budget now m m' : rebinds now m m' → within_budget now m → within_budget now m'.
Proof.
  intros [m1 Hs _|m1 owner l g x d1 d2 Hs _ Hd1 Hb] Hw; [by eapply within_budget_mono|].
  apply bind_row_inv in Hb as (Ht & Ho & row & -> & _). rewrite Hd1 in *.
  assert (Hw1 : within_budget now m1) by (by eapply within_budget_mono). clear Hw Hs. destruct Hw1 as [Hown Hten]. split.
  - intros o. destruct (decide (o = owner)) as [->|Hne].
    + etrans; [|exact Ho]. apply live_insert. intros k Hk Hp. bool_to_prop. apply andb_true_iff. split; [by apply bool_decide_eq_true|].
      apply negb_true_iff, bool_decide_eq_false. intros <-. apply Hk. by destruct k; cbn in *; subst.
    + etrans; [apply live_insert_other|apply Hown]. right. apply bool_decide_eq_false. cbn. congruence.
  - intros tenant. destruct (decide (tenant = so_tenant_id owner)) as [->|Hne].
    + etrans; [|exact Ht]. apply live_insert. intros k Hk _. by apply negb_true_iff, bool_decide_eq_false.
    + etrans; [apply live_insert_other|apply Hten]. by left.
Qed.

(** Live source locators stay within their budget: at every point of a history of calls at
    increasing times an owner has at most 256 and a tenant at most 4096 of them, also for
    locators bound by starts and for rebinding an expired one. *)
Theorem live_locators_within_budget ts t h now :
  ticking t h → last_time t h <= now → within_budget now (locators (run jsonb_eq h (fresh_db ts))).
Proof.
  intros Hh Hnow. cut (within_budget (last_time t h) (locators (run jsonb_eq h (fresh_db ts)))).
  { intros Hw. by eapply within_budget_mono. }
  assert (H0 : within_budget t (locators (fresh_db ts))).
  { split; intros x; unfold live_locators; cbn [locators fresh_db]; rewrite map_filter_empty, map_size_empty; done. }
  clear Hnow. revert Hh H0. generalize (fresh_db ts). revert t. induction h as [|c h IH]; intros t d Hh H0; [done|].
  destruct Hh as [Ht Hh]. apply (IH (at_ c)); [done|]. eapply rebinds_budget; [apply exec_rebinds|].
  eapply within_budget_mono; [|done|exact H0]. lia.
Qed.

(** ** Detached slots *)

(** The slot a call acts on. *)
Definition slot_of (o : Op) : option DetachedExecutionSlot :=
  match o with OAcquireSlot s _ | OReleaseSlot s | ORenewSlot s _ => Some s | _ => None end.

Definition keeps_slots (now : time) (d d' : Db) : Prop :=
  ∀ p r, slots d !! p = Some r → now < sr_lease_expires_at r → slots d' !! p = Some r.

Lemma keeps_same now d d' : slots d' = slots d → keeps_slots now d d'.
Proof. intros Hs p r Hp _. by rewrite Hs. Qed.

Lemma purge_slots now u d d' d2 : purge_expired_state now u d = Ok (tt, d') → slots d2 = slots d' → keeps_slots now d d2.
Proof.
  intros Hp Hs p r Hr Hlt. rewrite Hs. injection Hp as <-. cbn [slots with_slots].
  match goal with |- sweep_batch ?q ?l ?m !! p = _ => destruct (sweep_batch_lookup q l m p) as [H|(_ & v & Hv & Hq)] end;
    [by rewrite H|]. rewrite Hr in Hv. injection Hv as <-. bool_to_prop. unfold nanos_per_sec in Hq. lia.
Qed.

Lemma bind_row_slots now o l g x d d' : bind_source_locator_row now o l g x d = Ok (tt, d') → slots d' = slots d.
Proof. unfold bind_source_locator_row. by repeat (case_match; try done); intros [= <-]. Qed.

Lemma bind_tx_slots now n l d d' : bind_source_locator_tx now n l d = Ok (tt, d') → slots d' = slots d.
Proof. destruct l; [apply bind_row_slots|by intros [= <-]]. Qed.

Lemma start_new_slots now s d r d' : start_new now s d = Ok (r, d') → slots d' = slots d.
Proof.
  unfold start_new, started_events. intros H. inv_tx.
  match goal with H2 : insert_execution _ _ = _, H3 : bind_source_locator_tx _ _ _ _ = _, H4 : record_all _ _ _ _ _ = _ |- _ =>
    apply record_all_beside in H4 as (_ & _ & _ & ->); apply bind_tx_slots in H3 as ->; by apply insert_execution_inv in H2 as (_ & _ & ->) end.
Qed.

Lemma start_slots now u s d r d' : start_or_reuse jsonb_eq now u s d = (r, d') → keeps_slots now d d'.
Proof.
  unfold start_or_reuse. intros H. inv_tx; [|by apply keeps_same].
  match goal with H : purge_expired_state _ _ _ = _ |- _ => eapply purge_slots; [exact H|clear H] end.
  destruct (newest _) as [latest|]; destruct (se_repeat_after s) as [after|]; cbn beta iota in *.
  - destruct (bool_decide _); [destruct (is_terminal _)|]; inv_tx; [by eapply start_new_slots|done|].
    destruct (newest _); [destruct (is_terminal _)|]; inv_tx; try done. by eapply bind_tx_slots.
  - inv_tx. by eapply bind_tx_slots.
  - by inv_tx.
  - by eapply start_new_slots.
Qed.

Lemma exec_slots c d : slot_of (op c) = None → keeps_slots (at_ c) d (exec jsonb_eq c d).2.
Proof.
  intros Hs. destruct (quiet (op c)) eqn:Hq; [by destruct (quiet_beside c d Hq) as (_ & _ & _ & ?); apply keeps_same|].
  unfold exec, answer. destruct (op c); try done; clear Hq Hs; cbn [snd].
  all: match goal with |- keeps_slots _ _ (?f).2 => destruct f as [rr dd] eqn:He; cbn [snd] end.
  - unfold submit in He. inv_tx; [|by apply keeps_same].
    match goal with H1 : purge_expired_state _ _ _ = _, H2 : insert_execution _ _ = _, H3 : record_all _ _ _ _ _ = _ |- _ =>
      apply insert_execution_inv in H2 as (_ & _ & ->); apply record_all_beside in H3 as (_ & _ & _ & H3);
      exact (purge_slots _ _ _ _ _ H1 H3) end.
  - by eapply start_slots.
  - unfold bind_source_locator in He. inv_tx; [|by apply keeps_same]. by eapply purge_slots, bind_row_slots.
  - unfold retain_source in He. inv_tx; [|by apply keeps_same].
    destruct (_ || _ || _ || _); [done|]. destruct (negb _); [done|]. injection He as <- <-. by eapply purge_slots.
Qed.

(** A call on a slot leaves the live row of another holder alone. *)
Lemma exec_other_slot c d s p r : slot_of (op c) = Some s → slots d !! p = Some r → at_ c < sr_lease_expires_at r →
  ¬ (ds_principal s = p ∧ ds_holder s = sr_holder r) → slots (exec jsonb_eq c d).2 !! p = Some r.
Proof.
  intros Hs Hp Hlt Hne. unfold exec, answer. destruct (op c) as [| | | | | | | | | | | | | | | | |s' l|s'|s' l]; try done;
    injection Hs as ->; cbn [snd].
  all: unfold acquire_detached_slot, release_detached_slot, renew_detached_slot, holds_slot.
  all: destruct (decide (ds_principal s = p)) as [<-|Hd].
  all: repeat (case_match; cbn [snd slots with_slots]; try done); simplify_eq; bool_to_prop.
  all: rewrite ?lookup_insert_ne, ?lookup_delete_ne by done; try done.
  all: exfalso; apply Hne; split; [done|].
  all: try match goal with H : _ || _ = true |- _ => apply orb_true_iff in H as [H|H]; bool_to_prop; [lia|] end; by symmetry.
Qed.

(** A detached slot is exclusive: from an acquisition until its lease runs out, whatever
    other calls are made, no other holder acquires the slot of that principal, unless the
    holder itself has released it or changed its lease. *)
Theorem detached_slot_is_exclusive c1 s1 lease d d1 h c s2 lease2 :
  op c1 = OAcquireSlot s1 lease → exec jsonb_eq c1 d = (RDone, d1) →
  (∀ x, x ∈ h ++ [c] → at_ x < at_ c1 + lease_seconds lease) →
  (∀ x s, x ∈ h → slot_of (op x) = Some s → ¬ (ds_principal s = ds_principal s1 ∧ ds_holder s = ds_holder s1)) →
  op c = OAcquireSlot s2 lease2 → ds_principal s2 = ds_principal s1 → ds_holder s2 ≠ ds_holder s1 →
  (exec jsonb_eq c (run jsonb_eq h d1)).1 ≠ RDone ∧ (exec jsonb_eq c (run jsonb_eq h d1)).2 = run jsonb_eq h d1.
Proof.
  intros Hop H1 Ht Hother Hop2 Hp Hh. set (row := {| sr_holder := ds_holder s1; sr_lease_expires_at := at_ c1 + lease_seconds lease |}).
  assert (Hrow : slots d1 !! ds_principal s1 = Some row).
  { unfold exec in H1. rewrite Hop in H1. unfold acquire_detached_slot in H1.
    destruct (negb _); [done|]. destruct (slots d !! _) as [r|]; [destruct (_ || _); [|done]|];
      injection H1 as <-; cbn [slots with_slots]; apply lookup_insert_eq. }
  assert (Hend : slots (run jsonb_eq h d1) !! ds_principal s1 = Some row).
  { clear H1. assert (Hth : ∀ x, x ∈ h → at_ x < at_ c1 + lease_seconds lease) by (intros; apply Ht; set_solver). clear Ht.
    revert d1 Hrow. induction h as [|x h IH]; intros d1 Hrow; [done|]. cbn. apply IH; [set_solver|set_solver|].
    assert (Hx : at_ x < sr_lease_expires_at row) by (apply Hth; by left).
    destruct (slot_of (op x)) as [s|] eqn:Hs; [|by apply exec_slots].
    apply (exec_other_slot x d1 s); [done..|]. apply (Hother x s); [by left|done]. }
  specialize (Ht c ltac:(set_solver)). unfold exec. rewrite Hop2. unfold acquire_detached_slot.
  destruct (negb _); [done|]. rewrite Hp, Hend. cbn [sr_holder sr_lease_expires_at row].
  rewrite (proj2 (Z.leb_gt _ _)) by lia. rewrite bool_decide_eq_false_2 by congruence. done.
Qed.

End Jsonb.

(** ** Witnesses *)

Definition alice : SourceArtifactOwner := {| so_tenant_id := "acme"; so_principal_sub := "alice"; so_principal_issuer := "https://idp" |}.

Definition other_digest : string := "ffffffffffffffffffffffffffffffffffffffffffffffffffffffffffffffff".

Definition rebind : Call := at_sec 150 (OBindLocator alice digest64 other_digest (sec 7200)).
Definition extend : Call := at_sec 160 (OBindLocator alice digest64 digest64 (sec 7200)).

Lemma live_locator_keeps_its_digest_witness :
  ∃ r, locators (run demo_eq [rebind; extend] (drun [start_call])) !! (alice, digest64) = Some r ∧ sl_source_digest r = digest64.
Proof.
  destruct (live_locator_keeps_its_digest demo_eq [rebind; extend] (drun [start_call]) (alice, digest64)
    {| sl_source_digest := digest64; sl_expires_at := sec 3600 |}) as (r & Hr & Hd & _);
    [vm_compute; reflexivity| |exists r; split; [exact Hr|exact Hd]].
  intros c Hc. repeat (apply elem_of_cons in Hc as [->|Hc]; [done|]). by apply not_elem_of_nil in Hc.
Defined.

Lemma live_locators_within_budget_witness :
  within_budget (sec 160) (locators (run demo_eq [start_call; rebind; extend] demo_db)).
Proof. apply (live_locators_within_budget demo_eq {["acme"]} 0); [vm_compute; done|vm_compute; discriminate]. Defined.

Definition slot_for (holder : Uuid) : DetachedExecutionSlot := {| ds_principal := alice; ds_holder := holder |}.
Definition take_slot (n : Z) (holder : Uuid) : Call := at_sec n (OAcquireSlot (slot_for holder) (sec 60)).

Lemma detached_slot_is_exclusive_witness :
  let d := run demo_eq [start_call] (exec demo_eq (take_slot 90 5%N) demo_db).2 in
  (exec demo_eq (take_slot 120 6%N) d).1 ≠ RDone ∧ (exec demo_eq (take_slot 120 6%N) d).2 = d.
Proof.
  refine (detached_slot_is_exclusive demo_eq (take_slot 90 5%N) (slot_for 5%N) (sec 60) demo_db
    (exec demo_eq (take_slot 90 5%N) demo_db).2 [start_call] (take_slot 120 6%N) (slot_for 6%N) (sec 60)
    eq_refl _ _ _ eq_refl eq_refl _).
  - vm_compute. reflexivity.
  - intros x Hx. repeat (apply elem_of_cons in Hx as [->|Hx]; [done|]). by apply not_elem_of_nil in Hx.
  - intros x s Hx Hs. apply list_elem_of_singleton in Hx as ->. done.
  - done.
Defined.

End ExecutionBudgets.
