(* ===== verification/ExecutionAbandon.v ===== *)
(** * Code-mode executions: abandonment

    A worker that dies leaves its execution behind. The status reader's test
    [may_be_abandoned], the sweeper's query behind [list_abandoned] and the guard of
    [reconcile_abandoned] are three formulations of one condition; reconciliation
    settles every execution that satisfies it, and does so once. *)

From S2P Require Import Prelude RustStr HashChain Json OauthStore ExecutionTypes ExecutionStore ExecutionRuns.
Local Open Scope Z_scope.

Module ExecutionAbandon.
Import HashChain(Uuid) Json.Json OauthStore(timestamptz) ExecutionTypes.ExecutionTypes ExecutionStore.ExecutionStore
  ExecutionRuns.ExecutionRuns ExecutionRuns.ExecutionDemo.

Implicit Types (e : Execution) (d : Db).

(** The reader's test and the store's guard agree: for a grace of whole seconds, a status
    record says that an execution may be abandoned exactly when the row is unfinished and
    satisfies the condition under which [reconcile_abandoned] rewrites it. *)
Theorem may_be_abandoned_agrees now n e :
  1 <= n <= i64_max → may_be_abandoned now (n * nanos_per_sec) e = is_none (completed_at e) && abandoned now (n * nanos_per_sec) e.
Proof.
  intros Hn. unfold may_be_abandoned, abandoned. destruct (completed_at e) as [t|]; [done|]. cbn [is_some is_none negb andb].
  assert (Hl : lease_seconds (n * nanos_per_sec) = n * nanos_per_sec).
  { unfold lease_seconds. rewrite Z.div_mul by done. by rewrite Z.max_l, Z.min_l by lia. }
  rewrite Hl. destruct (status e) eqn:Hs; rewrite ?(bool_decide_eq_true_2 (_ = _)), ?(bool_decide_eq_true_2 (_ ∈ _)) by set_solver;
    repeat (rewrite bool_decide_eq_false_2 by set_solver); cbn [andb orb]; rewrite ?orb_false_r, ?orb_false_l; try done.
  f_equal. apply eq_true_iff_eq. rewrite !Z.leb_le. lia.
Qed.

(** The row reconciliation writes satisfies the CHECKs. *)
Lemma reconciled_row_ok now q id e l : row_wf id e → row_ok (with_state (λ s, touch now (reconciled now q e l s)) e) = true.
Proof.
  intros (_ & Hok & _). unfold row_ok in *. bool_to_prop. unfold reconciled, with_state. cbn.
  destruct (can_resume now e); cbn; repeat (apply andb_true_iff; split); try done; 
    first [by apply Z.leb_le|by apply negb_true_iff, bool_decide_eq_false].
Qed.

(** The row reconciliation leaves is not abandoned while it is retained. *)
Lemma reconciled_not_abandoned now q e l now' grace :
  now' < ex_retention_until e → let e' := with_state (λ s, touch now (reconciled now q e l s)) e in
  is_none (completed_at e') && abandoned now' grace e' = false.
Proof.
  intros Hr e'. unfold e', reconciled, abandoned, with_state. destruct (can_resume now e); [|done]. cbn.
  rewrite bool_decide_eq_false_2 by done. rewrite bool_decide_eq_false_2 by done. cbn. unfold retention_over. cbn.
  rewrite (proj2 (Z.leb_gt _ _)) by lia. by rewrite andb_false_r.
Qed.

(** ** What reconciliation promises, on the columns *)

(** Nobody works on the execution any more: it was never claimed within the grace, the lease
    of its worker ran out, or it waited longer than its retention. *)
Inductive left_behind (now : time) (grace : duration) e : Prop :=
  | never_claimed : status e = Submitted → claim_owner e = None →
      ex_submitted_at e <= now - lease_seconds grace → left_behind now grace e
  | lease_ran_out o t : status e = Running → claim_owner e = Some o → claim_expires_at e = Some t → t <= now →
      left_behind now grace e
  | wait_outlived : status e = WaitingForApproval ∨ status e = WaitingForResume → claim_owner e = None →
      ex_retention_until e <= now → left_behind now grace e.

(** The program can be run again: its profile allows it, source and tools are kept, and the
    retention is not over. *)
Definition resumable (now : time) e : Prop :=
  says_true "resumable" (ex_execution_profile e) = true ∧ is_Some (source e) ∧ is_Some (tool_snapshot e) ∧
  now < ex_retention_until e.

(** The journal shows the start of a side-effecting call of this execution and neither the
    success nor the failure of the same attempt. *)
Definition in_doubt e (l : list ExecutionEvent) : Prop :=
  ∃ v, v ∈ l ∧ vt_tenant_id v = ex_tenant_id e ∧ vt_execution_id v = ex_id e ∧
    vt_kind v = "connector_call_started" ∧ says_true "side_effects" (vt_detail v) = true ∧
    ∀ w, w ∈ l → vt_tenant_id w = vt_tenant_id v → vt_execution_id w = vt_execution_id v →
      vt_call_id w = vt_call_id v → vt_attempt w = vt_attempt v →
      vt_kind w ≠ "connector_call_succeeded" ∧ vt_kind w ≠ "connector_call_failed".

(** Why an execution that cannot go on is finished. *)
Inductive expires_because (now : time) e (l : list ExecutionEvent) : string → Prop :=
  | because_retention : ex_retention_until e <= now → expires_because now e l "retention_expired"
  | because_unclaimed : now < ex_retention_until e → status e = Submitted →
      expires_because now e l "worker_never_claimed"
  | because_in_doubt : now < ex_retention_until e → status e = Running → in_doubt e l →
      expires_because now e l "effect_outcome_unknown"
  | because_lapsed : now < ex_retention_until e → status e = Running → ¬ in_doubt e l →
      expires_because now e l "worker_lease_expired".

(** The columns reconciliation leaves alone. *)
Record same_run e e' : Prop := {
  sr_id : ex_id e' = ex_id e;
  sr_tenant : ex_tenant_id e' = ex_tenant_id e;
  sr_owner : ex_principal_sub e' = ex_principal_sub e ∧ ex_principal_issuer e' = ex_principal_issuer e;
  sr_program : ex_source_digest e' = ex_source_digest e ∧ ex_program_input e' = ex_program_input e ∧
    ex_execution_profile e' = ex_execution_profile e ∧ source e' = source e ∧ tool_snapshot e' = tool_snapshot e ∧
    sdk_contract_version e' = sdk_contract_version e ∧ runner_contract_version e' = runner_contract_version e;
  sr_times : ex_submitted_at e' = ex_submitted_at e ∧ ex_retention_until e' = ex_retention_until e;
  sr_dedupe : ex_start_dedupe_key e' = ex_start_dedupe_key e;
  sr_results : result_metadata e' = result_metadata e ∧ result_payload e' = result_payload e;
  sr_cancel : cancellation_requested_at e' = cancellation_requested_at e ∧
    cancellation_reason_code e' = cancellation_reason_code e;
  sr_epoch : claim_epoch e' = claim_epoch e;
}.

(** The row and the event written at [now]: waiting to be resumed, or finished with the reason. *)
Inductive settles (now : time) e (l : list ExecutionEvent) e' : string → string → Prop :=
  | settles_waiting : resumable now e → status e' = WaitingForResume → terminal_reason_code e' = None →
      completed_at e' = None → resume_context e' = Some (default (Object [("checkpoint", Null)]) (resume_context e)) →
      settles now e l e' "waiting_for_resume" "worker_interrupted"
  | settles_expired reason : ¬ resumable now e → expires_because now e l reason → status e' = Expired →
      terminal_reason_code e' = Some reason → completed_at e' = Some now → resume_context e' = resume_context e →
      settles now e l e' "expired" reason.

Lemma left_behind_abandoned now grace e : left_behind now grace e → abandoned now grace e = true.
Proof.
  unfold abandoned. intros [-> -> ?|o t -> -> -> ?|Hs -> ?].
  - rewrite bool_decide_eq_true_2 by done. cbn. by rewrite (proj2 (Z.leb_le _ _)).
  - rewrite (bool_decide_eq_true_2 (Running = Running)) by done. cbn [is_some expired]. rewrite (proj2 (Z.leb_le t now)) by done.
    apply orb_true_iff. left. apply orb_true_r.
  - unfold retention_over. rewrite (proj2 (Z.leb_le (ex_retention_until e) now)) by done.
    rewrite (bool_decide_eq_true_2 (_ ∈ _)) by set_solver. apply orb_true_r.
Qed.

Lemma can_resume_iff now e : can_resume now e = true ↔ resumable now e.
Proof.
  unfold can_resume, resumable. rewrite !andb_true_iff, Z.ltb_lt. unfold is_some.
  destruct (source e), (tool_snapshot e); split; try (by intros [[[]]]); try (by intros (_ & [] & [] & _)); naive_solver.
Qed.

Lemma outcome_of_iff v w :
  is_outcome_of v w = true ↔
  vt_tenant_id w = vt_tenant_id v ∧ vt_execution_id w = vt_execution_id v ∧ vt_call_id w = vt_call_id v ∧
  vt_attempt w = vt_attempt v ∧ (vt_kind w = "connector_call_succeeded" ∨ vt_kind w = "connector_call_failed").
Proof.
  unfold is_outcome_of. rewrite !andb_true_iff, !bool_decide_eq_true. rewrite !elem_of_cons, elem_of_nil. tauto.
Qed.

Lemma outcome_unknown_iff e l : outcome_unknown e l = true ↔ in_doubt e l.
Proof.
  unfold outcome_unknown, in_doubt. rewrite existsb_exists. apply base.exist_proper. intros v.
  rewrite !andb_true_iff, !bool_decide_eq_true, negb_true_iff, <- list_elem_of_In.
  assert (existsb (is_outcome_of v) l = false ↔ ∀ w, w ∈ l → is_outcome_of v w ≠ true) as ->.
  { rewrite <- not_true_iff_false, existsb_exists. setoid_rewrite <- list_elem_of_In. naive_solver. }
  setoid_rewrite outcome_of_iff. split; [intros (Hin & (((? & ?) & ?) & ?) & Hno)|intros (? & ? & ? & ? & ? & Hno)];
    split_and!; try done.
  - intros w Hw ? ? ? ?. split; intros Hk; apply (Hno w Hw); split_and!; auto.
  - intros w Hw (? & ? & ? & ? & Hk). destruct (Hno w Hw) as [? ?]; try done. by destruct Hk.
Qed.

Lemma lapsed_reason_because now grace e l :
  left_behind now grace e → expires_because now e l (lapsed_reason_of now "worker_lease_expired" e l).
Proof.
  intros Hl. unfold lapsed_reason_of, retention_over. destruct (Z.leb_spec (ex_retention_until e) now) as [Hr|Hr];
    [by constructor|].
  destruct Hl as [Hs _ _|o t Hs _ _ _|_ _ ?]; [..|lia]; rewrite Hs.
  - rewrite bool_decide_eq_true_2 by done. by constructor.
  - rewrite bool_decide_eq_false_2 by done. pose proof (outcome_unknown_iff e l) as Hi.
    destruct (outcome_unknown e l); constructor; try done; [by apply Hi|]. by intros ?%Hi.
Qed.

(** The row of a reconciliation. *)
Definition settled (now : time) (e : Execution) (l : list ExecutionEvent) : Execution :=
  with_state (λ s, touch now (reconciled now "worker_lease_expired" e l s)) e.

Lemma settled_same_run now e l : same_run e (settled now e l).
Proof. unfold settled, reconciled. split; destruct (can_resume now e); done. Qed.

Lemma settled_settles now grace e l :
  left_behind now grace e →
  ∃ reason, settles now e l (settled now e l)
    (if bool_decide (status (settled now e l) = WaitingForResume) then "waiting_for_resume" else "expired") reason ∧
    (if bool_decide (status (settled now e l) = WaitingForResume) then "worker_interrupted"
     else default "" (terminal_reason_code (settled now e l))) = reason.
Proof.
  intros Hl. pose proof (can_resume_iff now e) as Hc. unfold settled, reconciled.
  destruct (can_resume now e); cbn; eexists; (split; [|reflexivity]).
  - apply settles_waiting; try done. by apply Hc.
  - apply settles_expired; try done; [by intros ?%Hc|]. by eapply lapsed_reason_because.
Qed.

Lemma reconcile_runs now sub issuer grace id e d :
  wf d → executions d !! id = Some e → owned_by sub issuer e = true → completed_at e = None → left_behind now grace e →
  ∃ kind reason, settles now e (events d) (settled now e (events d)) kind reason ∧
    reconcile_abandoned now (ex_tenant_id e) sub issuer id grace d =
    (Ok (Some (settled now e (events d))),
     with_events (events d ++ [{| vt_id := next_event d; vt_execution_id := id; vt_tenant_id := ex_tenant_id e;
        vt_kind := kind; vt_step_number := None; vt_call_id := None; vt_attempt := None;
        vt_detail := Object [("reason_code", Str reason)]; vt_created_at := now |}]) (next_event d + 1)
       (with_executions (<[id := settled now e (events d)]> (executions d)) d)).
Proof.
  intros Hwf He Ho Hc Hl. pose proof (left_behind_abandoned _ _ _ Hl) as Ha.
  destruct (settled_settles now grace e (events d) Hl) as (reason & Hset & Hreason).
  pose proof (reconciled_row_ok now "worker_lease_expired" id e (events d) (wf_rows _ Hwf _ _ He)) as Hok.
  eexists _, reason. split; [exact Hset|].
  unfold reconcile_abandoned, reconcile_abandoned_in, commit, tx_bind, update_execution. rewrite He.
  rewrite bool_decide_eq_true_2 by done. rewrite Ho, Hc, Ha. cbn [andb is_none is_some negb]. rewrite Hok.
  fold (settled now e (events d)) in *. unfold insert_event. cbn [executions with_executions]. rewrite lookup_insert_eq.
  rewrite (bool_decide_eq_true_2 (ex_tenant_id _ = _)) by done. cbn [andb]. rewrite Hreason.
  by case_bool_decide.
Qed.

(** C27. Reconciliation settles an execution that was left behind, always and once. On a
    well-formed unfinished row that nobody claimed within the grace, whose worker's lease ran
    out, or whose wait outlived its retention, the transaction commits and changes that row
    and the journal only: the row loses its claim and is stamped now. If its profile, source
    and tools allow it within the retention, it waits to be resumed, its checkpoint kept or
    set to null; otherwise it is finished now as 'expired', because its retention is over,
    because no worker ever claimed it, because the journal shows a side-effecting call whose
    outcome is unknown, or because the lease lapsed, in this order. The program, results,
    cancellation and epoch columns stay. One event with that kind and reason is appended.
    Reconciling again changes nothing, for a finished row ever after and for a waiting one
    while it is retained. *)
Theorem reconcile_settles_abandoned now sub issuer grace id e d :
  wf d → executions d !! id = Some e → owned_by sub issuer e = true → completed_at e = None → left_behind now grace e →
  ∃ e' kind reason d', reconcile_abandoned now (ex_tenant_id e) sub issuer id grace d = (Ok (Some e'), d')
    ∧ same_run e e' ∧ claim_owner e' = None ∧ claim_expires_at e' = None ∧ updated_at e' = now
    ∧ settles now e (events d) e' kind reason
    ∧ d' = with_events (events d ++ [{| vt_id := next_event d; vt_execution_id := id; vt_tenant_id := ex_tenant_id e;
             vt_kind := kind; vt_step_number := None; vt_call_id := None; vt_attempt := None;
             vt_detail := Object [("reason_code", Str reason)]; vt_created_at := now |}]) (next_event d + 1)
            (with_executions (<[id := e']> (executions d)) d)
    ∧ (∀ now' grace', is_Some (completed_at e') ∨ now' < ex_retention_until e →
         reconcile_abandoned now' (ex_tenant_id e) sub issuer id grace' d' = (Ok (Some e'), d')).
Proof.
  intros Hwf He Ho Hc Hl. destruct (reconcile_runs now sub issuer grace id e d) as (kind & reason & Hset & Hrun); try done.
  eexists _, kind, reason, _. split; [exact Hrun|]. split; [apply settled_same_run|]. split; [done|]. split; [done|].
  split; [done|]. split; [exact Hset|]. split; [done|]. clear Hrun.
  set (e' := settled now e (events d)) in *. intros now' grace' Hr.
  assert (Hn : is_none (completed_at e') && abandoned now' grace' e' = false).
  { destruct Hr as [[t Ht]|Hr]; [by rewrite Ht|]. by apply reconciled_not_abandoned. }
  unfold reconcile_abandoned, reconcile_abandoned_in, commit, tx_bind, update_execution.
  cbn [executions with_events with_executions]. rewrite lookup_insert_eq. rewrite <- andb_assoc, Hn, !andb_false_r.
  unfold tx_read, find_scoped. cbn [executions with_events with_executions]. rewrite lookup_insert_eq. cbn [mbind option_bind].
  rewrite bool_decide_eq_true_2 by done. cbn [in_scope andb]. change (owned_by sub issuer e') with (owned_by sub issuer e). by rewrite Ho.
Qed.

(** ** Witnesses *)

Definition demo_row : Execution := new_row (sec 100) (demo_new 1%N) (Some "key") (started_state (sec 100) (demo_start 1%N None)).

Lemma may_be_abandoned_agrees_witness :
  may_be_abandoned (sec 200) (30 * nanos_per_sec) demo_row
    = is_none (completed_at demo_row) && abandoned (sec 200) (30 * nanos_per_sec) demo_row.
Proof. apply may_be_abandoned_agrees. vm_compute. split; discriminate. Defined.

Lemma reconcile_settles_abandoned_witness :
  ∃ e' d', reconcile_abandoned (sec 200) "acme" "alice" "https://idp" 1%N (sec 30) (drun [start_call]) = (Ok (Some e'), d')
    ∧ status e' = WaitingForResume.
Proof.
  destruct (reconcile_settles_abandoned (sec 200) "alice" "https://idp" (sec 30) 1%N demo_row (drun [start_call]))
    as (e' & kind & reason & d' & Hrun & _ & _ & _ & _ & Hs & _).
  - apply history_wf, fresh_wf.
  - vm_compute. reflexivity.
  - vm_compute. reflexivity.
  - vm_compute. reflexivity.
  - eapply lease_ran_out; [vm_compute; reflexivity..|]. vm_compute. discriminate.
  - exists e', d'. split; [exact Hrun|]. destruct Hs as [_ Hs _ _ _|r Hno]; [exact Hs|].
    destruct Hno. split_and!; [vm_compute; reflexivity|vm_compute; eauto|vm_compute; eauto|vm_compute; reflexivity].
Defined.

End ExecutionAbandon.
