(* ===== verification/ExecutionPaging.v ===== *)
(** * Code-mode executions: the paged listing

    [list_executions] of [waygate-server/src/mcp_codemode.rs]: the owner's
    executions in flight, a page at a time, the position carried by a text cursor.
    A client that follows the cursors gets the whole listing, each execution once
    ([cursors_enumerate_the_listing]), because the cursor text is decoded exactly
    ([cursor_round_trip]) and the listing is strictly ordered. *)

From S2P Require Import Prelude RustStr HashChain Json OauthStore AgentRuntime ExecutionTypes ExecutionStore ExecutionRuns ExecutionStarts ExecutionQueries.
From stdpp Require Import sorting pretty.
From Stdlib Require Import Ascii.
Local Open Scope Z_scope.

Module ExecutionPaging.
Import HashChain(Uuid) Json.Json OauthStore(timestamptz) AgentRuntime(split_dot, split_once_dot) ExecutionTypes.ExecutionTypes
  ExecutionStore.ExecutionStore ExecutionRuns.ExecutionRuns ExecutionRuns.ExecutionDemo ExecutionStarts.ExecutionStarts
  ExecutionQueries.ExecutionQueries.

Implicit Types (e : Execution) (d : Db).

(** ** Numbers *)

(** [i128::from_str] *)
Fixpoint parse_digits (acc : N) (l : bytes) : option N :=
  match l with
  | [] => Some acc
  | a :: l => if is_ascii_digit a then parse_digits (10 * acc + (byte_val a - 48)) l else None
  end.

Definition parse_unsigned (l : bytes) : option Z := match l with [] => None | _ => Z.of_N <$> parse_digits 0 l end.

Definition i128_range (z : Z) : bool := (- 2 ^ 127 <=? z) && (z <? 2 ^ 127).

Definition parse_i128 (s : string) : option Z :=
  z ← match as_bytes s with
      | a :: l => if bool_decide (a = "-"%char) then Z.opp <$> parse_unsigned l
                  else if bool_decide (a = "+"%char) then parse_unsigned l
                  else parse_unsigned (a :: l)
      | [] => None
      end;
  if i128_range z then Some z else None.

(** [OffsetDateTime::from_unix_timestamp_nanos]: years -9999 to 9999. *)
Definition from_unix_timestamp_nanos (z : Z) : option time :=
  if (-377705116800 * nanos_per_sec <=? z) && (z <? 253402300800 * nanos_per_sec) then Some z else None.

(** ** The cursor *)

Definition execution_list_cursor (entry : InFlightExecution) : string :=
  pretty (if_submitted_at entry) +:+ "." +:+ uuid_text (if_id entry).

Inductive ListError := LimitNotPositive | CursorTooLong | InvalidCursor | ExecutionUnavailable.

Definition DEFAULT_EXECUTION_LIST_LIMIT : nat := 50.
Definition MAX_EXECUTION_LIST_CURSOR_LENGTH : nat := 80.

Definition validate_execution_list_params (limit : option nat) (cursor : option string) : result unit ListError :=
  if bool_decide (limit = Some 0%nat) then Err LimitNotPositive
  else match cursor with
       | Some c => if (MAX_EXECUTION_LIST_CURSOR_LENGTH <? length (as_bytes c))%nat then Err CursorTooLong else Ok tt
       | None => Ok tt
       end.

(** [Uuid::parse_str] *)
Section Paging.
Context (parse_uuid : string → option Uuid).

Definition parse_execution_list_cursor (cursor : string) : result (time * Uuid) ListError :=
  match split_once_dot cursor with
  | None => Err InvalidCursor
  | Some (nanos, id) =>
      match parse_i128 nanos ≫= from_unix_timestamp_nanos with
      | None => Err InvalidCursor
      | Some t => match parse_uuid id with None => Err InvalidCursor | Some i => Ok (t, i) end
      end
  end.

Context (jsonb_eq : Value → Value → bool) (owner_digest : string → string → Value → string).

(** The page and the cursor of the next one, on a gateway with durable continuation
    and an execution store (without either the endpoint answers that it is
    unavailable, before or after the parameters are read). *)
Definition list_executions (now : time) (owner : OwnedInFlight) (limit : option nat) (cursor : option string) (d : Db)
  : result (list InFlightExecution * option string) ListError :=
  match validate_execution_list_params limit cursor with
  | Err x => Err x
  | Ok _ =>
      match match cursor with None => Ok None | Some c => match parse_execution_list_cursor c with Ok b => Ok (Some b) | Err x => Err x end end with
      | Err x => Err x
      | Ok before =>
          let limit := default DEFAULT_EXECUTION_LIST_LIMIT limit in
          match list_owned_in_flight jsonb_eq owner_digest now owner before (S limit) d with
          | Err _ => Err ExecutionUnavailable
          | Ok executions =>
              if (limit <? length executions)%nat
              then let executions := take (length executions - 1) executions in
                   Ok (executions, execution_list_cursor <$> last executions)
              else Ok (executions, None)
          end
      end
  end.

(** A client that asks for page after page. *)
Fixpoint follow (fuel : nat) (now : time) (owner : OwnedInFlight) (limit : option nat) (cursor : option string) (d : Db)
  : result (list InFlightExecution) (option ListError) :=
  match fuel with
  | O => Err None
  | S fuel =>
      match list_executions now owner limit cursor d with
      | Err x => Err (Some x)
      | Ok (page, None) => Ok page
      | Ok (page, Some c) =>
          match follow fuel now owner limit (Some c) d with Ok rest => Ok (page ++ rest) | Err x => Err x end
      end
  end.

End Paging.

(** ** Decoding *)

Lemma digit_char n : (n < 10)%N → is_ascii_digit (pretty_N_char n) = true ∧ (byte_val (pretty_N_char n) - 48 = n)%N.
Proof.
  intros Hn. assert (n = 0 ∨ n = 1 ∨ n = 2 ∨ n = 3 ∨ n = 4 ∨ n = 5 ∨ n = 6 ∨ n = 7 ∨ n = 8 ∨ n = 9)%N as H by lia.
  by repeat destruct H as [->|H]; [..|subst n].
Qed.

Lemma parse_digits_go x s : parse_digits 0 (as_bytes (pretty_N_go x s)) = parse_digits x (as_bytes s).
Proof.
  revert s. induction (N.lt_wf_0 x) as [x _ IH]; intros s. destruct (decide (x = 0)%N) as [->|Hx]; [done|].
  rewrite pretty_N_go_step by lia. rewrite IH by (apply N.div_lt; lia).
  change (as_bytes (String (pretty_N_char (x `mod` 10)) s)) with (pretty_N_char (x `mod` 10) :: as_bytes s). cbn [parse_digits].
  destruct (digit_char (x `mod` 10)) as [-> ->]; [by apply N.mod_lt|]. f_equal. symmetry. by apply N.div_mod.
Qed.

Lemma parse_digits_pretty (x : N) : parse_digits 0 (as_bytes (pretty x)) = Some x.
Proof. unfold pretty, pretty_N. case_decide as Hx; [by subst|]. by rewrite parse_digits_go. Qed.

Lemma pretty_N_nonempty (x : N) : ∃ a l, as_bytes (pretty x) = a :: l ∧ is_ascii_digit a = true.
Proof.
  pose proof (parse_digits_pretty x) as H. destruct (as_bytes (pretty x)) as [|a l] eqn:Hb.
  - exfalso. injection H as <-. by vm_compute in Hb.
  - exists a, l. split; [done|]. cbn in H. by destruct (is_ascii_digit a).
Qed.

Lemma parse_unsigned_pretty (x : N) : parse_unsigned (as_bytes (pretty x)) = Some (Z.of_N x).
Proof.
  unfold parse_unsigned. destruct (pretty_N_nonempty x) as (a & l & Hb & _). rewrite Hb, <- Hb, parse_digits_pretty. done.
Qed.

Lemma parse_i128_pretty (z : Z) : i128_range z = true → parse_i128 (pretty z) = Some z.
Proof.
  intros Hr. unfold parse_i128. destruct z as [|p|p]; [done|..].
  - change (pretty (Zpos p)) with (pretty (Npos p)). destruct (pretty_N_nonempty (Npos p)) as (a & l & Hb & Hd).
    rewrite Hb. rewrite !bool_decide_eq_false_2 by (intros ->; done). rewrite <- Hb, parse_unsigned_pretty. cbn. by rewrite Hr.
  - change (pretty (Zneg p)) with ("-" +:+ pretty (Npos p)). rewrite as_bytes_app.
    change (as_bytes "-") with ["-"%char]. cbn [app]. rewrite bool_decide_eq_true_2 by done.
    rewrite parse_unsigned_pretty. change (i128_range (Z.opp (Z.of_N (Npos p)))) with (i128_range (Zneg p)) in *.
    unfold fmap, option_fmap, option_map, mbind, option_bind. change (Z.opp (Z.of_N (Npos p))) with (Zneg p). by rewrite Hr.
Qed.

(** ** Splitting *)

Lemma split_dot_app x y : "."%char ∉ x → split_dot (x ++ "."%char :: y) = Some (x, y).
Proof.
  induction x as [|a x IH]; intros Hx; [done|]. cbn. rewrite bool_decide_eq_false_2 by set_solver.
  by rewrite IH by set_solver.
Qed.

Lemma pretty_N_go_plain x s a : a ∈ as_bytes (pretty_N_go x s) → is_ascii_digit a = true ∨ a ∈ as_bytes s.
Proof.
  revert s. induction (N.lt_wf_0 x) as [x _ IH]; intros s. destruct (decide (x = 0)%N) as [->|Hx]; [by right|].
  rewrite pretty_N_go_step by lia. intros [?|Hin]%IH; [by left| |apply N.div_lt; lia].
  change (as_bytes (String (pretty_N_char (x `mod` 10)) s)) with (pretty_N_char (x `mod` 10) :: as_bytes s) in Hin.
  apply elem_of_cons in Hin as [->|?]; [left|by right]. apply digit_char. by apply N.mod_lt.
Qed.

Lemma pretty_no_dot (z : Z) : "."%char ∉ as_bytes (pretty z).
Proof.
  assert (Hp : ∀ x : N, "."%char ∉ as_bytes (pretty x)).
  { intros x. unfold pretty, pretty_N. case_decide; [set_solver|]. intros [?|?]%pretty_N_go_plain; [done|set_solver]. }
  destruct z as [|p|p]; [apply (Hp 0%N)|apply (Hp (Npos p))|].
  change (pretty (Zneg p)) with ("-" +:+ pretty (Npos p)). rewrite as_bytes_app. intros [H|H]%elem_of_app; [set_solver|].
  by apply (Hp (Npos p)).
Qed.

Lemma split_cursor (z : Z) s : split_once_dot (pretty z +:+ "." +:+ s) = Some (pretty z, s).
Proof.
  unfold split_once_dot. rewrite !as_bytes_app. change (as_bytes ".") with ["."%char]. cbn [app].
  rewrite split_dot_app by apply pretty_no_dot. by rewrite !of_as_bytes.
Qed.

(** ** Lengths *)

Lemma pretty_N_go_length k : ∀ x s, (x < 10 ^ N.of_nat k)%N → (length (as_bytes (pretty_N_go x s)) <= k + length (as_bytes s))%nat.
Proof.
  induction k as [|k IH]; intros x s Hx.
  - assert (x = 0)%N as -> by (cbn in Hx; lia). done.
  - destruct (decide (x = 0)%N) as [->|Hne]; [rewrite pretty_N_go_0; lia|]. rewrite pretty_N_go_step by lia.
    etrans; [apply IH|].
    + apply N.Div0.div_lt_upper_bound. rewrite Nat2N.inj_succ, N.pow_succ_r' in Hx. lia.
    + change (as_bytes (String (pretty_N_char (x `mod` 10)) s)) with (pretty_N_char (x `mod` 10) :: as_bytes s). cbn [length]. lia.
Qed.

Lemma pretty_length (z : Z) : - 10 ^ 21 < z < 10 ^ 21 → (length (as_bytes (pretty z)) <= 22)%nat.
Proof.
  assert (Hp : ∀ x : N, (x < 10 ^ 21)%N → (length (as_bytes (pretty x)) <= 21)%nat).
  { intros x Hx. unfold pretty, pretty_N. case_decide; [cbn; lia|]. etrans; [by apply (pretty_N_go_length 21)|]. cbn. lia. }
  intros Hz. destruct z as [|p|p]; [cbn; lia|..].
  - change (pretty (Zpos p)) with (pretty (Npos p)). etrans; [apply Hp|]; lia.
  - change (pretty (Zneg p)) with ("-" +:+ pretty (Npos p)). rewrite as_bytes_app, length_app. 
    change (length (as_bytes "-")) with 1%nat. enough (length (as_bytes (pretty (N.pos p))) <= 21)%nat by lia. apply Hp. lia.
Qed.

Lemma hex_digits_length c n : length (hex_digits c n) = c.
Proof. revert n. induction c as [|c IH]; intros n; [done|]. cbn. rewrite length_app, IH. cbn. lia. Qed.

Lemma uuid_text_bytes u : as_bytes (uuid_text u) =
  let l := hex_digits 32 u in
  take 8 l ++ "-"%char :: take 4 (drop 8 l) ++ "-"%char :: take 4 (drop 12 l) ++ "-"%char :: take 4 (drop 16 l)
    ++ "-"%char :: drop 20 l.
Proof.
  unfold uuid_text. rewrite !as_bytes_app, !as_of_bytes. cbn [app].
  rewrite (take_ge (drop 20 _)) by (rewrite length_drop, hex_digits_length; lia). done.
Qed.

Lemma uuid_text_length u : length (as_bytes (uuid_text u)) = 36%nat.
Proof.
  rewrite uuid_text_bytes. cbv zeta. repeat (rewrite length_app || rewrite length_take || rewrite length_drop || cbn [length]).
  rewrite hex_digits_length. lia.
Qed.

(** ** Order *)

#[global] Instance newest_first_trans : Transitive newest_first.
Proof.
  intros a b c. unfold newest_first, later. rewrite !orb_false_iff, !andb_false_iff, !Z.ltb_ge, !Z.eqb_neq, !N.ltb_ge. lia.
Qed.

#[global] Instance newest_first_total : Total newest_first.
Proof.
  intros a b. unfold newest_first, later. rewrite !orb_false_iff, !andb_false_iff, !Z.ltb_ge, !Z.eqb_neq, !N.ltb_ge. lia.
Qed.

Lemma elem_of_scan p d e : wf d → e ∈ scan newest_first p d ↔ executions d !! ex_id e = Some e ∧ p e = true.
Proof. intros Hwf. unfold scan. rewrite merge_sort_Permutation. apply elem_of_matching, wf_rows, Hwf. Qed.

Lemma scan_sorted p d : StronglySorted newest_first (scan newest_first p d).
Proof. apply StronglySorted_merge_sort; apply _. Qed.

Lemma newest_first_antisym d e1 e2 : executions d !! ex_id e1 = Some e1 → executions d !! ex_id e2 = Some e2 →
  newest_first e1 e2 → newest_first e2 e1 → e1 = e2.
Proof.
  intros H1 H2. unfold newest_first, later. rewrite !orb_false_iff, !andb_false_iff, !Z.ltb_ge, !Z.eqb_neq, !N.ltb_ge. intros Ha Hb.
  assert (Hid : ex_id e1 = ex_id e2) by lia. rewrite Hid in H1. congruence.
Qed.

(** A narrower scan is a filter of the wider one. *)
Lemma scan_filter p q d : wf d → scan newest_first (λ e, p e && q e) d = filter (λ e, q e = true) (scan newest_first p d).
Proof.
  intros Hwf. apply (StronglySorted_unique_strong newest_first).
  - intros x y Hx Hy. apply (elem_of_scan _ _ _ Hwf) in Hx as [Hx _]. apply list_elem_of_filter in Hy as [_ Hy].
    apply (elem_of_scan _ _ _ Hwf) in Hy as [Hy _]. by apply (newest_first_antisym d).
  - apply scan_sorted.
  - apply sorted_filter, scan_sorted.
  - unfold scan, matching. rewrite !merge_sort_Permutation. rewrite list_filter_filter.
    apply reflexive_eq, list_filter_iff. intros e. rewrite andb_true_iff. tauto.
Qed.

Lemma scan_nodup p d : wf d → NoDup (scan newest_first p d).
Proof.
  intros Hwf. unfold scan. rewrite merge_sort_Permutation. unfold matching. apply NoDup_filter, (NoDup_fmap_1 ex_id).
  rewrite <- list_fmap_compose. rewrite (list_fmap_ext _ fst); [apply NoDup_fst_map_to_list|].
  intros i [id e] Hi. apply list_elem_of_lookup_2, elem_of_map_to_list in Hi. by destruct (wf_rows _ Hwf _ _ Hi) as [? _].
Qed.

Definition cursor_of (e : Execution) : time * Uuid := (ex_submitted_at e, ex_id e).

Lemma before_later x y : before_cursor (Some (cursor_of x)) y = later x y.
Proof. unfold before_cursor, cursor_of, later. f_equal. f_equal. apply Z.eqb_sym. Qed.

Lemma later_irrefl e : later e e = false.
Proof. unfold later. by rewrite Z.ltb_irrefl, N.ltb_irrefl, andb_false_r. Qed.

(** The rows after the last one of a page. *)
Lemma rows_after p d pre x suf : wf d → scan newest_first p d = pre ++ x :: suf →
  filter (λ e, before_cursor (Some (cursor_of x)) e = true) (scan newest_first p d) = suf.
Proof.
  intros Hwf HL. pose proof (scan_sorted p d) as Hs. pose proof (scan_nodup p d Hwf) as Hn.
  assert (Hrow : ∀ e, e ∈ pre ++ x :: suf → executions d !! ex_id e = Some e).
  { intros e He. rewrite <- HL in He. by apply (elem_of_scan _ _ _ Hwf) in He as [? _]. }
  rewrite HL in Hs, Hn |- *. rewrite list.filter_app, filter_cons.
  apply StronglySorted_app in Hs as (Hpre & _ & Hsuf). apply StronglySorted_cons in Hsuf as [Hsuf _].
  apply NoDup_app in Hn as (_ & Hd & Hn). apply NoDup_cons in Hn as [Hx Hn].
  rewrite decide_False by (rewrite before_later, later_irrefl; done).
  rewrite filter_none, filter_all; [done|..]; intros y Hy; rewrite before_later.
  - apply later_total; [by rewrite Forall_forall in Hsuf; apply Hsuf|]. intros Hid. 
    assert (Hxy : y = x); [|subst; done]. pose proof (Hrow x ltac:(set_solver)) as H1. pose proof (Hrow y ltac:(set_solver)) as H2.
    rewrite Hid in H2. congruence.
  - specialize (Hpre y x Hy ltac:(set_solver)). unfold newest_first in Hpre. by rewrite Hpre.
Qed.

(** ** Paging *)

Section Complete.
Context (parse_uuid : string → option Uuid).
Hypothesis parse_uuid_text : ∀ u, (u < 2 ^ 128)%N → parse_uuid (uuid_text u) = Some u.
Context (jsonb_eq : Value → Value → bool) (owner_digest : string → string → Value → string).

(** An id of 128 bits and a time of the years the store accepts. *)
Definition representable (e : Execution) : Prop :=
  (ex_id e < 2 ^ 128)%N ∧ from_unix_timestamp_nanos (ex_submitted_at e) = Some (ex_submitted_at e).

#[global] Instance representable_dec e : Decision (representable e).
Proof. unfold representable. apply _. Defined.

Lemma cursor_round_trip e : representable e →
  parse_execution_list_cursor parse_uuid (execution_list_cursor (in_flight e)) = Ok (cursor_of e)
  ∧ (length (as_bytes (execution_list_cursor (in_flight e))) <= MAX_EXECUTION_LIST_CURSOR_LENGTH)%nat.
Proof.
  intros [Hid Ht]. unfold execution_list_cursor, in_flight. cbn [if_submitted_at if_id]. 
  assert (Hr : -377705116800 * nanos_per_sec <= ex_submitted_at e < 253402300800 * nanos_per_sec).
  { unfold from_unix_timestamp_nanos in Ht. destruct (_ && _) eqn:Hb; [|done]. by bool_to_prop. }
  unfold nanos_per_sec in Hr. split.
  - unfold parse_execution_list_cursor. rewrite split_cursor, parse_i128_pretty; [cbn [mbind option_bind]; rewrite Ht, parse_uuid_text by done; done|].
    unfold i128_range. apply andb_true_iff. rewrite Z.leb_le, Z.ltb_lt. lia.
  - rewrite !as_bytes_app, !length_app, uuid_text_length. pose proof (pretty_length (ex_submitted_at e) ltac:(lia)).
    unfold MAX_EXECUTION_LIST_CURSOR_LENGTH. change (length (as_bytes ".")) with 1%nat. lia.
Qed.

Context (now : time) (owner : OwnedInFlight) (d : Db) (limit : nat).
Hypothesis d_wf : wf d.
Hypothesis limit_positive : (0 < limit)%nat.

Definition listing : list Execution := scan newest_first (owned jsonb_eq owner_digest now owner) d.

Hypothesis listing_representable : Forall representable listing.

(** A cursor text and the position it stands for. *)
Definition decodes (c : option string) (b : option (time * Uuid)) : Prop :=
  match c with
  | None => b = None
  | Some t => ∃ k, b = Some k ∧ parse_execution_list_cursor parse_uuid t = Ok k
      ∧ (length (as_bytes t) <= MAX_EXECUTION_LIST_CURSOR_LENGTH)%nat
  end.

(** The page at a position, and whether another one follows. *)
Lemma page_at c b rest : decodes c b → filter (λ e, before_cursor b e = true) listing = rest →
  list_executions parse_uuid jsonb_eq owner_digest now owner (Some limit) c d =
    Ok (in_flight <$> take limit rest,
        if (limit <? length rest)%nat then execution_list_cursor <$> last (in_flight <$> take limit rest) else None).
Proof.
  intros Hc Hrest. unfold list_executions, validate_execution_list_params. rewrite bool_decide_eq_false_2 by (intros [= ->]; lia).
  change (default DEFAULT_EXECUTION_LIST_LIMIT (Some limit)) with limit.
  assert (Hpage : owned_rows jsonb_eq owner_digest now owner b (S limit) d = take (S limit) rest).
  { unfold owned_rows. rewrite scan_filter by done. by rewrite <- Hrest. }
  transitivity (let executions := in_flight <$> take (S limit) rest in
    if (limit <? length executions)%nat
    then Ok (E := ListError) (take (length executions - 1) executions, execution_list_cursor <$> last (take (length executions - 1) executions))
    else Ok (executions, None)).
  { unfold decodes in Hc. destruct c as [t|].
    - destruct Hc as (k & -> & Hp & Hl). rewrite (proj2 (Nat.ltb_ge _ _)) by done. rewrite Hp.
      unfold list_owned_in_flight. by rewrite Hpage.
    - subst b. unfold list_owned_in_flight. by rewrite Hpage. }
  cbv zeta. rewrite length_fmap, length_take. destruct (Nat.ltb_spec limit (length rest)).
  - rewrite (proj2 (Nat.ltb_lt _ _)) by lia. rewrite fmap_take, take_take.
    replace (Nat.min (Nat.min (S limit) (length rest) - 1) (S limit)) with limit by lia. by rewrite fmap_take.
  - rewrite (proj2 (Nat.ltb_ge _ _)) by lia. by rewrite !take_ge by lia.
Qed.

Lemma follow_from fuel : ∀ c b pre rest, decodes c b → listing = pre ++ rest →
  filter (λ e, before_cursor b e = true) listing = rest → (length rest < fuel)%nat →
  follow parse_uuid jsonb_eq owner_digest fuel now owner (Some limit) c d = Ok (in_flight <$> rest).
Proof.
  induction fuel as [|fuel IH]; intros c b pre rest Hc Hl Hrest Hf; [lia|]. cbn [follow]. rewrite (page_at c b rest) by done.
  destruct (Nat.ltb_spec limit (length rest)) as [Hlt|Hge]; [|by rewrite take_ge by lia].
  destruct (last (take limit rest)) as [x|] eqn:Hlast; [|apply last_None in Hlast; apply (f_equal length) in Hlast;
    rewrite length_take in Hlast; cbn in Hlast; lia].
  rewrite fmap_last, Hlast. cbn [fmap option_fmap option_map]. apply last_Some in Hlast as [init Hinit].
  assert (Hx : listing = (pre ++ init) ++ x :: drop limit rest).
  { rewrite Hl, <- app_assoc. f_equal. rewrite <- (take_drop limit rest) at 1. by rewrite Hinit, <- app_assoc. }
  destruct (cursor_round_trip x) as [Hp Hlen].
  { rewrite Hx in listing_representable. apply Forall_app in listing_representable as [_ H]. by apply Forall_cons in H as [? _]. }
  rewrite (IH _ (Some (cursor_of x)) ((pre ++ init) ++ [x]) (drop limit rest)).
  - by rewrite <- fmap_app, take_drop.
  - unfold decodes. exists (cursor_of x). split_and!; [done|exact Hp|exact Hlen].
  - rewrite Hx. symmetry. by rewrite <- (app_assoc (pre ++ init)).
  - by eapply rows_after.
  - rewrite length_drop. lia.
Qed.

(** C33. Following the cursors enumerates the listing: a client that starts without a cursor and
    passes each [next_cursor] back unchanged receives, page by page and for any page size,
    exactly the executions in flight it owns under its confinement, newest first and each
    once. The decimal time and the id in the cursor text decode to the position they were
    written for, within the cursor's length limit. *)
Theorem cursors_enumerate_the_listing :
  follow parse_uuid jsonb_eq owner_digest (S (length listing)) now owner (Some limit) None d = Ok (in_flight <$> listing)
  ∧ NoDup listing
  ∧ ∀ e, e ∈ listing ↔ executions d !! ex_id e = Some e ∧ owned jsonb_eq owner_digest now owner e = true.
Proof.
  split; [|split; [by apply scan_nodup|intros e; by apply elem_of_scan]].
  apply (follow_from _ None None []); [done|done| |lia]. by apply filter_all.
Qed.

End Complete.

(** ** A concrete parser and listing *)

Definition hex_value (a : ascii) : N := if is_ascii_digit a then byte_val a - 48 else byte_val a - 87.

(** The hyphenated form. *)
Definition parse_hyphenated (s : string) : option Uuid :=
  let l := filter (λ a, a ≠ "-"%char) (as_bytes s) in
  if (length l =? 32)%nat && forallb is_lower_hex l then Some (foldl (λ n a, 16 * n + hex_value a)%N 0%N l) else None.

Lemma hex_digit_value n : (n < 16)%N → is_lower_hex (hex_digit n) = true ∧ hex_value (hex_digit n) = n ∧ hex_digit n ≠ "-"%char.
Proof.
  intros Hn. assert (n = 0 ∨ n = 1 ∨ n = 2 ∨ n = 3 ∨ n = 4 ∨ n = 5 ∨ n = 6 ∨ n = 7 ∨ n = 8 ∨ n = 9 ∨ n = 10 ∨ n = 11 ∨ n = 12
    ∨ n = 13 ∨ n = 14 ∨ n = 15)%N as H by lia.
  by repeat destruct H as [->|H]; [..|subst n].
Qed.

Lemma hex_digits_hex c n : Forall (λ a, is_lower_hex a = true ∧ a ≠ "-"%char) (hex_digits c n).
Proof.
  revert n. induction c as [|c IH]; intros n; [constructor|]. cbn. apply Forall_app. split; [done|]. constructor; [|done].
  destruct (hex_digit_value (n `mod` 16)) as (? & _ & ?); [by apply N.mod_lt|done].
Qed.

Lemma hex_digits_value c n : foldl (λ n a, 16 * n + hex_value a)%N 0%N (hex_digits c n) = (n `mod` 16 ^ N.of_nat c)%N.
Proof.
  revert n. induction c as [|c IH]; intros n; [cbn; by rewrite N.mod_1_r|]. cbn [hex_digits]. rewrite foldl_app, IH. cbn [foldl].
  destruct (hex_digit_value (n `mod` 16)) as (_ & -> & _); [by apply N.mod_lt|].
  rewrite Nat2N.inj_succ, N.pow_succ_r'. rewrite N.Div0.mod_mul_r. lia.
Qed.

Lemma uuid_text_digits u : filter (λ a, a ≠ "-"%char) (as_bytes (uuid_text u)) = hex_digits 32 u.
Proof.
  rewrite uuid_text_bytes. cbv zeta. pose proof (hex_digits_hex 32 u) as Hall. set (l := hex_digits 32 u) in *.
  assert (Hk : ∀ k, Forall (λ a, a ≠ "-"%char) k → filter (λ a, a ≠ "-"%char) k = k) by (intros k Hall'; apply filter_all; by apply Forall_forall).
  assert (Hl : Forall (λ a, a ≠ "-"%char) l) by (eapply Forall_impl; [done|]; by intros ? []).
  repeat (rewrite list.filter_app || rewrite filter_cons_False by (intros H; by apply H)).
  rewrite !Hk by eauto using Forall_take, Forall_drop.
  transitivity (take 8 l ++ drop 8 l); [|by rewrite take_drop]. f_equal.
Qed.

Lemma parse_hyphenated_text u : (u < 2 ^ 128)%N → parse_hyphenated (uuid_text u) = Some u.
Proof.
  intros Hu. unfold parse_hyphenated. rewrite uuid_text_digits, hex_digits_length. cbn [Nat.eqb andb].
  assert (forallb is_lower_hex (hex_digits 32 u) = true) as ->.
  { apply forallb_forall. intros a Ha. pose proof (hex_digits_hex 32 u) as H. rewrite Forall_forall in H.
    apply H. by apply list_elem_of_In. }
  rewrite hex_digits_value. f_equal. apply N.mod_small. done.
Qed.

Definition alice_scope : OwnedInFlight := {|
  of_tenant_id := "acme"; of_principal_sub := "alice"; of_principal_issuer := "https://idp"; of_profile_confinement := Null |}.

Definition plain_digest (sub issuer : string) (v : Value) : string := sub +:+ issuer.

(** Three submissions of alice, two in the same microsecond. *)
Definition submitted_by_alice (n : Z) (id : Uuid) : Call :=
  at_sec n (OSubmit {| ne_id := id; ne_tenant_id := "acme"; ne_principal_sub := "alice"; ne_principal_issuer := "https://idp";
    ne_source := None; ne_source_digest := digest64; ne_program_input := None;
    ne_execution_profile := Object [("profile_confinement", Null)]; ne_sdk_contract_version := 1;
    ne_runner_contract_version := 1; ne_retention_until := sec 3600 |}).

Definition three : Db := drun [submitted_by_alice 10 1%N; submitted_by_alice 10 2%N; submitted_by_alice 20 3%N].

Lemma cursors_enumerate_the_listing_witness :
  ∃ l, follow parse_hyphenated demo_eq plain_digest 4 (sec 30) alice_scope (Some 2%nat) None three = Ok l
    ∧ (if_id <$> l) = [3%N; 2%N; 1%N].
Proof.
  destruct (cursors_enumerate_the_listing parse_hyphenated parse_hyphenated_text demo_eq plain_digest (sec 30) alice_scope three 2)
    as [Hf _]; [apply history_wf, fresh_wf|lia| |exists (in_flight <$> listing demo_eq plain_digest (sec 30) alice_scope three)].
  - apply (bool_decide_unpack _). vm_compute. exact I.
  - split; [exact Hf|vm_compute; reflexivity].
Defined.

End ExecutionPaging.
