(* ===== verification/ApiKeys.v ===== *)
(** * API keys: tokens, profiles and tables

    The waygate-apikeys crate without its validator: the [mcpgw_] token format
    (token.rs), mint profiles (profiles.rs) and the [api_keys], [api_key_usage] and
    [api_key_profiles] tables (store.rs, profiles.rs). A statement or transaction is
    one step on the tables; [now] is its [now()]. The random bytes, their base64url
    encoding and the password hash are parameters. Listings ([list],
    [list_for_tenant], [usage_since]) are left out. *)

From S2P Require Import Prelude RustStr HashChain Json OauthStore ExecutionTypes.
From Stdlib Require Import Ascii.
Local Open Scope Z_scope.

Module ApiKeys.
Import HashChain(Uuid) Json.Json OauthStore(timestamptz, strings_json, json_to_str_vec) ExecutionTypes(uuid_text, i64_max).

(** ** Tokens *)

Definition TOKEN_LITERAL : string := "mcpgw_".
Definition KEY_PREFIX_LEN : nat := 8.
Definition SECRET_LEN : nat := 43.

Inductive TokenError := BadLiteral | BadLength (n : nat) | BadChars | Hash (msg : string).

Record ParsedToken := { pt_prefix : string; pt_secret_remainder : string }.

Definition base64url_char (a : ascii) : bool :=
  is_ascii_alphanumeric a || bool_decide (a = "-"%char) || bool_decide (a = "_"%char).

Definition is_base64url (s : string) : bool := forallb base64url_char (as_bytes s).

(** [str::split_at] of an ASCII string *)
Definition split_at (n : nat) (s : string) : string * string :=
  (of_bytes (take n (as_bytes s)), of_bytes (drop n (as_bytes s))).

Definition parse (token : string) : result ParsedToken TokenError :=
  match strip_prefix TOKEN_LITERAL token with
  | None => Err BadLiteral
  | Some rest =>
      if negb (length (as_bytes rest) =? SECRET_LEN)%nat then Err (BadLength (length (as_bytes rest)))
      else if negb (is_base64url rest) then Err BadChars
      else let '(prefix, remainder) := split_at KEY_PREFIX_LEN rest in
           Ok {| pt_prefix := prefix; pt_secret_remainder := remainder |}
  end.

Record MintedKey := { mk_display : string; mk_key_prefix : string; mk_key_hash : string }.

(** [secret] is the encoding of 32 random bytes, [hashed] what the hash gives for the rest of it. *)
Definition mint (secret : string) (hash_secret : string → result string string) : result MintedKey TokenError :=
  let '(prefix, remainder) := split_at KEY_PREFIX_LEN secret in
  match hash_secret remainder with
  | Err e => Err (Hash ("argon2 hash failed: " +:+ e))
  | Ok h => Ok {| mk_display := TOKEN_LITERAL +:+ secret; mk_key_prefix := prefix; mk_key_hash := h |}
  end.

(** ** Profiles *)

Record Profile := {
  pr_id : Uuid;
  pr_tenant_id : string;
  pr_name : string;
  pr_description : option string;
  pr_max_ttl_seconds : Z;
  pr_allowed_scopes : list string;
  pr_allowed_servers : option (list string);
  pr_allowed_tools : option (list string);
  pr_requires_reason : bool;
  pr_requires_owner : bool;
  pr_created_at : time;
  pr_updated_at : time;
}.

Inductive MintViolation :=
  | ScopeNotAllowed (profile scope : string)
  | TtlExceedsMax (profile : string) (max_seconds : Z)
  | OwnerRequired (profile : string)
  | ReasonRequired (profile : string).

Definition blank (o : option string) : bool := match o with Some s => is_empty (trim s) | None => true end.

(** [max_ttl_seconds as u64]: the column is positive. *)
Definition validate_mint (p : Profile) (scopes : list string) (requested_ttl : option duration) (owner reason : option string)
  : result unit MintViolation :=
  match find_first (λ s, negb (bool_decide (s ∈ pr_allowed_scopes p))) scopes with
  | Some s => Err (ScopeNotAllowed (pr_name p) s)
  | None =>
      let max := (pr_max_ttl_seconds p mod 2 ^ 64) * nanos_per_sec in
      let too_long := match requested_ttl with None => true | Some ttl => max <? ttl end in
      if too_long then Err (TtlExceedsMax (pr_name p) (pr_max_ttl_seconds p))
      else if pr_requires_owner p && blank owner then Err (OwnerRequired (pr_name p))
      else if pr_requires_reason p && blank reason then Err (ReasonRequired (pr_name p))
      else Ok tt
  end.

(** ** Tables *)

Record ApiKeyRow := {
  id : Uuid;
  key_prefix : string;
  key_hash : string;
  name : string;
  key_sub : string;
  tenant_id : string;
  key_email : option string;
  key_groups : list string;
  key_scopes : list string;
  created_by : string;
  created_at : time;
  last_used_at : option time;
  expires_at : option time;
  revoked_at : option time;
  key_profile_id : option Uuid;
  owner : option string;
  reason : option string;
  rotation_due_at : option time;
}.

(** The columns an UPDATE changes; the grants are JSON arrays. *)
Record Mutable := {
  rw_name : string;
  rw_groups : Value;
  rw_scopes : Value;
  rw_last_used_at : option time;
  rw_revoked_at : option time;
  rw_profile_id : option Uuid;
}.

Record ApiKeyRowRaw := {
  rw_id : Uuid;
  rw_key_prefix : string;
  rw_key_hash : string;
  rw_sub : string;
  rw_tenant_id : string;
  rw_email : option string;
  rw_created_by : string;
  rw_created_at : time;
  rw_expires_at : option time;
  rw_owner : option string;
  rw_reason : option string;
  rw_rotation_due_at : option time;
  rw_state :> Mutable;
}.

Definition row_of_raw (r : ApiKeyRowRaw) : ApiKeyRow := {|
  id := rw_id r; key_prefix := rw_key_prefix r; key_hash := rw_key_hash r; name := rw_name r; key_sub := rw_sub r;
  tenant_id := rw_tenant_id r; key_email := rw_email r; key_groups := json_to_str_vec (rw_groups r);
  key_scopes := json_to_str_vec (rw_scopes r); created_by := rw_created_by r; created_at := rw_created_at r;
  last_used_at := rw_last_used_at r; expires_at := rw_expires_at r; revoked_at := rw_revoked_at r;
  key_profile_id := rw_profile_id r; owner := rw_owner r; reason := rw_reason r; rotation_due_at := rw_rotation_due_at r |}.

(** The row an INSERT writes. *)
Definition raw_of_row (r : ApiKeyRow) : ApiKeyRowRaw := {|
  rw_id := id r; rw_key_prefix := key_prefix r; rw_key_hash := key_hash r; rw_sub := key_sub r; rw_tenant_id := tenant_id r;
  rw_email := key_email r; rw_created_by := created_by r; rw_created_at := timestamptz (created_at r);
  rw_expires_at := timestamptz <$> expires_at r; rw_owner := owner r; rw_reason := reason r;
  rw_rotation_due_at := timestamptz <$> rotation_due_at r;
  rw_state := {| rw_name := name r; rw_groups := strings_json (key_groups r); rw_scopes := strings_json (key_scopes r);
    rw_last_used_at := timestamptz <$> last_used_at r; rw_revoked_at := timestamptz <$> revoked_at r;
    rw_profile_id := key_profile_id r |} |}.

Definition with_mutable (f : Mutable → Mutable) (r : ApiKeyRowRaw) : ApiKeyRowRaw := {|
  rw_id := rw_id r; rw_key_prefix := rw_key_prefix r; rw_key_hash := rw_key_hash r; rw_sub := rw_sub r;
  rw_tenant_id := rw_tenant_id r; rw_email := rw_email r; rw_created_by := rw_created_by r; rw_created_at := rw_created_at r;
  rw_expires_at := rw_expires_at r; rw_owner := rw_owner r; rw_reason := rw_reason r;
  rw_rotation_due_at := rw_rotation_due_at r; rw_state := f (rw_state r) |}.

Definition set_name (n : string) (m : Mutable) : Mutable := {|
  rw_name := n; rw_groups := rw_groups m; rw_scopes := rw_scopes m; rw_last_used_at := rw_last_used_at m;
  rw_revoked_at := rw_revoked_at m; rw_profile_id := rw_profile_id m |}.

Definition set_revoked (t : time) (m : Mutable) : Mutable := {|
  rw_name := rw_name m; rw_groups := rw_groups m; rw_scopes := rw_scopes m; rw_last_used_at := rw_last_used_at m;
  rw_revoked_at := Some t; rw_profile_id := rw_profile_id m |}.

Definition set_grants (scopes groups : Value) (m : Mutable) : Mutable := {|
  rw_name := rw_name m; rw_groups := groups; rw_scopes := scopes; rw_last_used_at := rw_last_used_at m;
  rw_revoked_at := rw_revoked_at m; rw_profile_id := rw_profile_id m |}.

Definition set_last_used (t : time) (m : Mutable) : Mutable := {|
  rw_name := rw_name m; rw_groups := rw_groups m; rw_scopes := rw_scopes m; rw_last_used_at := Some t;
  rw_revoked_at := rw_revoked_at m; rw_profile_id := rw_profile_id m |}.

(** [ON DELETE SET NULL] *)
Definition clear_profiles (gone : gmap Uuid Profile) (m : Mutable) : Mutable := {|
  rw_name := rw_name m; rw_groups := rw_groups m; rw_scopes := rw_scopes m; rw_last_used_at := rw_last_used_at m;
  rw_revoked_at := rw_revoked_at m;
  rw_profile_id := p ← rw_profile_id m; if bool_decide (is_Some (gone !! p)) then None else Some p |}.

Record UsageRow := { us_request_count : Z; us_tenant_id : string }.

(** A row of [scopes]; [None] as tenant is a global scope. *)
Record ScopeRow := {
  sc_tenant_id : option string;
  sc_name : string;
  sc_source : string;
  sc_description : option string;
  sc_updated_at : time;
}.

(** A row of [scim_groups], as far as the catalogue reads it. *)
Record GroupRow := {
  gr_tenant_id : string;
  gr_display_name : string;
  gr_source : string;
  gr_updated_at : time;
}.

(** [user_groups]: tenant, group, and whether the user is not deleted. *)
Record Db := {
  keys : gmap Uuid ApiKeyRowRaw;
  usage : gmap (Uuid * time) UsageRow;
  profiles : gmap Uuid Profile;
  scope_rows : gmap Uuid ScopeRow;
  group_rows : gmap Uuid GroupRow;
  gateway_roles : list (string * list string);
  user_groups : list (string * Uuid * bool);
  group_role_mappings : list (string * Uuid);
}.

Definition with_keys (m : gmap Uuid ApiKeyRowRaw) (d : Db) : Db := {|
  keys := m; usage := usage d; profiles := profiles d; scope_rows := scope_rows d; group_rows := group_rows d;
  gateway_roles := gateway_roles d; user_groups := user_groups d; group_role_mappings := group_role_mappings d |}.

Definition with_usage (m : gmap (Uuid * time) UsageRow) (d : Db) : Db := {|
  keys := keys d; usage := m; profiles := profiles d; scope_rows := scope_rows d; group_rows := group_rows d;
  gateway_roles := gateway_roles d; user_groups := user_groups d; group_role_mappings := group_role_mappings d |}.

Definition with_profiles (m : gmap Uuid Profile) (d : Db) : Db := {|
  keys := keys d; usage := usage d; profiles := m; scope_rows := scope_rows d; group_rows := group_rows d;
  gateway_roles := gateway_roles d; user_groups := user_groups d; group_role_mappings := group_role_mappings d |}.

Definition with_scopes (m : gmap Uuid ScopeRow) (d : Db) : Db := {|
  keys := keys d; usage := usage d; profiles := profiles d; scope_rows := m; group_rows := group_rows d;
  gateway_roles := gateway_roles d; user_groups := user_groups d; group_role_mappings := group_role_mappings d |}.
(** The rows that refer to a deleted group go with it. *)
Definition with_groups (m : gmap Uuid GroupRow) (d : Db) : Db := {|
  keys := keys d; usage := usage d; profiles := profiles d; scope_rows := scope_rows d; group_rows := m;
  gateway_roles := gateway_roles d; user_groups := filter (λ r, is_Some (m !! r.1.2)) (user_groups d);
  group_role_mappings := filter (λ r, is_Some (m !! r.2)) (group_role_mappings d) |}.

Inductive StoreError := Sqlx | UnknownScopes (l : list string) | UnknownGroups (l : list string).

(** ** Keys *)

(** [revoked_at IS NULL AND (expires_at IS NULL OR expires_at > now())] *)
Definition live (now : time) (r : ApiKeyRowRaw) : bool :=
  bool_decide (rw_revoked_at r = None) && match rw_expires_at r with None => true | Some t => now <? t end.

Definition lookup_by_prefix (now : time) (prefix : string) (d : Db) : list ApiKeyRow :=
  row_of_raw <$> filter (λ r : ApiKeyRowRaw, rw_key_prefix r = prefix ∧ live now r = true) (snd <$> map_to_list (keys d)).

(** [EXISTS (SELECT 1 FROM scopes s WHERE s.name = n AND (s.tenant_id IS NULL OR s.tenant_id = $1))] *)
Definition visible_to (tenant n : string) (s : ScopeRow) : bool :=
  bool_decide (sc_name s = n) && match sc_tenant_id s with None => true | Some t => bool_decide (t = tenant) end.

Definition known_scope (d : Db) (tenant n : string) : bool := existsb (visible_to tenant n) (snd <$> map_to_list (scope_rows d)).

Definition known_group (d : Db) (tenant n : string) : bool :=
  existsb (λ g, bool_decide (gr_tenant_id g = tenant) && bool_decide (gr_display_name g = n)) (snd <$> map_to_list (group_rows d)).

Definition unknown_scopes (d : Db) (tenant : string) (names : list string) : list string :=
  filter (λ n, known_scope d tenant n = false) names.

Definition unknown_groups (d : Db) (tenant : string) (names : list string) : list string :=
  filter (λ n, known_group d tenant n = false) names.

Definition lock_and_validate_catalog (tenant : string) (scopes groups : list string) (enforce_scopes enforce_groups : bool)
    (d : Db) : result unit StoreError :=
  match (if enforce_scopes then unknown_scopes d tenant scopes else []) with
  | (_ :: _) as unknown => Err (UnknownScopes unknown)
  | [] =>
      match (if enforce_groups then unknown_groups d tenant groups else []) with
      | (_ :: _) as unknown => Err (UnknownGroups unknown)
      | [] => Ok tt
      end
  end.

(** Then the INSERT: the primary key and the reference to the profile. *)
Definition insert_catalog_checked (row : ApiKeyRow) (enforce_scopes enforce_groups : bool) (d : Db) : result unit StoreError * Db :=
  match lock_and_validate_catalog (tenant_id row) (key_scopes row) (key_groups row) enforce_scopes enforce_groups d with
  | Err e => (Err e, d)
  | Ok _ =>
      match keys d !! id row with
      | Some _ => (Err Sqlx, d)
      | None =>
          if match key_profile_id row with Some p => bool_decide (is_Some (profiles d !! p)) | None => true end
          then (Ok tt, with_keys (<[id row := raw_of_row row]> (keys d)) d) else (Err Sqlx, d)
      end
  end.

Definition insert (row : ApiKeyRow) (d : Db) : result unit StoreError * Db := insert_catalog_checked row false false d.

Definition find_by_id (i : Uuid) (d : Db) : option ApiKeyRow := row_of_raw <$> keys d !! i.

(** UPDATE of the row [i] where [p]; the rows affected. *)
Definition update_key (i : Uuid) (p : ApiKeyRowRaw → bool) (f : Mutable → Mutable) (d : Db) : bool * Db :=
  match keys d !! i with
  | Some r => if p r then (true, with_keys (<[i := with_mutable f r]> (keys d)) d) else (false, d)
  | None => (false, d)
  end.

Definition rename (i : Uuid) (n : string) (d : Db) : bool * Db := update_key i (λ _, true) (set_name n) d.

Definition unrevoked (r : ApiKeyRowRaw) : bool := bool_decide (rw_revoked_at r = None).

Definition revoke (now : time) (i : Uuid) (d : Db) : bool * Db := update_key i unrevoked (set_revoked now) d.

Definition revoke_all_for_tenant (now : time) (tenant : string) (d : Db) : Z * Db :=
  let hit (r : ApiKeyRowRaw) := bool_decide (rw_tenant_id r = tenant) && unrevoked r in
  (Z.of_nat (size (filter (λ kv : Uuid * ApiKeyRowRaw, hit kv.2 = true) (keys d))),
   with_keys ((λ r : ApiKeyRowRaw, if hit r then with_mutable (set_revoked now) r else r) <$> keys d) d).

Definition update_grants_catalog_checked (i : Uuid) (tenant : string) (scopes groups : list string)
    (enforce_scopes enforce_groups : bool) (d : Db) : result bool StoreError * Db :=
  match lock_and_validate_catalog tenant scopes groups enforce_scopes enforce_groups d with
  | Err e => (Err e, d)
  | Ok _ => let '(b, d') := update_key i (λ r, bool_decide (rw_tenant_id r = tenant) && unrevoked r)
                              (set_grants (strings_json scopes) (strings_json groups)) d in (Ok b, d')
  end.

Definition update_grants (i : Uuid) (tenant : string) (scopes groups : list string) (d : Db) : result bool StoreError * Db :=
  update_grants_catalog_checked i tenant scopes groups false false d.

(** [revoked_at < now() - retain OR expires_at < now() - retain], for a [retain] that
    leaves a timestamp of the database; the usage rows go with the key. *)
Definition sweep_expired (now : time) (retain : duration) (d : Db) : Z * Db :=
  let cutoff := now - Z.min (retain / nanos_per_sec) i64_max * nanos_per_sec in
  let before o := match o with Some t => t <? cutoff | None => false end in
  let m := filter (λ kv : Uuid * ApiKeyRowRaw, before (rw_revoked_at kv.2) || before (rw_expires_at kv.2) = false) (keys d) in
  (Z.of_nat (size (keys d)) - Z.of_nat (size m),
   with_usage (filter (λ kv, is_Some (m !! kv.1.1)) (usage d)) (with_keys m d)).

(** ** Usage *)

Definition nanos_per_hour : Z := 3600 * nanos_per_sec.
Definition hour_bucket (t : time) : time := t - t mod nanos_per_hour.

Definition add_usage (i : Uuid) (bucket : time) (count : Z) (now : time) (d : Db) : Db :=
  let d := (update_key i (λ _, true) (set_last_used (timestamptz now)) d).2 in
  match keys d !! i with
  | None => d
  | Some r =>
      let row := match usage d !! (i, timestamptz bucket) with
                 | Some u => {| us_request_count := us_request_count u + count; us_tenant_id := us_tenant_id u |}
                 | None => {| us_request_count := count; us_tenant_id := rw_tenant_id r |}
                 end in
      with_usage (<[(i, timestamptz bucket) := row]> (usage d)) d
  end.

Definition touch_usage (i : Uuid) (now : time) (d : Db) : Db := add_usage i (hour_bucket now) 1 now d.

(** ** The profile table *)

Inductive ProfileStoreError := PSqlx | PConflict | InvalidShape | Blocked (live_refs : Z).

(** [id] is the fresh identifier; the checks of the row come before its unique index. *)
Definition create_profile (now : time) (id : Uuid) (tenant name : string) (description : option string) (max_ttl_seconds : Z)
    (allowed_scopes : list string) (allowed_servers allowed_tools : option (list string)) (requires_reason requires_owner : bool)
    (d : Db) : result Profile ProfileStoreError * Db :=
  let p := {| pr_id := id; pr_tenant_id := tenant; pr_name := name; pr_description := description;
    pr_max_ttl_seconds := max_ttl_seconds; pr_allowed_scopes := allowed_scopes; pr_allowed_servers := allowed_servers;
    pr_allowed_tools := allowed_tools; pr_requires_reason := requires_reason; pr_requires_owner := requires_owner;
    pr_created_at := timestamptz now; pr_updated_at := timestamptz now |} in
  if (max_ttl_seconds <=? 0) || bool_decide (allowed_scopes = []) then (Err InvalidShape, d)
  else if bool_decide (is_Some (profiles d !! id))
          || existsb (λ q, bool_decide (pr_tenant_id q = tenant) && bool_decide (pr_name q = name))
               (snd <$> map_to_list (profiles d)) then (Err PConflict, d)
  else (Ok p, with_profiles (<[id := p]> (profiles d)) d).

Definition get_profile (tenant : string) (i : Uuid) (d : Db) : option Profile :=
  p ← profiles d !! i; if bool_decide (pr_tenant_id p = tenant) then Some p else None.

(** The trigger [api_key_profiles_block_delete_if_referenced]. *)
Definition live_refs (now : time) (p : Profile) (d : Db) : Z :=
  Z.of_nat (size (filter (λ kv : Uuid * ApiKeyRowRaw, bool_decide (rw_profile_id kv.2 = Some (pr_id p))
                                && bool_decide (rw_tenant_id kv.2 = pr_tenant_id p) && live now kv.2 = true) (keys d))).

(** DELETE of one profile. *)
Definition delete_where (now : time) (tenant : string) (i : Uuid) (q : Profile → bool) (d : Db)
  : result bool ProfileStoreError * Db :=
  match get_profile tenant i d with
  | None => (Ok false, d)
  | Some p =>
      if negb (q p) then (Ok false, d)
      else if 0 <? live_refs now p d then (Err (Blocked (live_refs now p d)), d)
      else (Ok true, with_keys (with_mutable (clear_profiles {[i := p]}) <$> keys d) (with_profiles (delete i (profiles d)) d))
  end.

Definition delete_profile (now : time) (tenant : string) (i : Uuid) (d : Db) : result bool ProfileStoreError * Db :=
  delete_where now tenant i (λ _, true) d.

Definition delete_if_updated_at (now : time) (tenant : string) (i : Uuid) (expected : time) (d : Db)
  : result bool ProfileStoreError * Db :=
  delete_where now tenant i (λ p, pr_updated_at p =? expected) d.

(** Every row of the statement passes the trigger, or none is deleted. *)
Definition delete_all_for_tenant (now : time) (tenant : string) (d : Db) : result Z ProfileStoreError * Db :=
  let gone := filter (λ kv, pr_tenant_id kv.2 = tenant) (profiles d) in
  if bool_decide (map_Forall (λ _ p, live_refs now p d <= 0) gone)
  then (Ok (Z.of_nat (size gone)),
        with_keys (with_mutable (clear_profiles gone) <$> keys d)
          (with_profiles (filter (λ kv, pr_tenant_id kv.2 ≠ tenant) (profiles d)) d))
  else (Err PSqlx, d).

End ApiKeys.

(** * API keys: an example

    A token, its key bound to a profile, and the tables that hold them. The secret's
    hash is the secret with a mark. *)

Module ApiKeyDemo.
Import HashChain(Uuid) ApiKeys.

Definition demo_hash (s : string) : result string string := Ok ("argon2:" +:+ s).
Definition demo_verify (s h : string) : result bool string :=
  match strip_prefix "argon2:" h with Some s' => Ok (bool_decide (s' = s)) | None => Err "unparseable" end.

Definition demo_secret : string := "abcdefgh0123456789ABCDEFGHIJKLMNOPQRSTUVW-_".
Definition demo_token : string := TOKEN_LITERAL +:+ demo_secret.
Definition demo_remainder : string := "0123456789ABCDEFGHIJKLMNOPQRSTUVW-_".
Definition demo_header : string := "Bearer " +:+ demo_token.

Definition demo_profile : Profile := {|
  pr_id := 7%N; pr_tenant_id := "acme"; pr_name := "developer"; pr_description := None; pr_max_ttl_seconds := 3600;
  pr_allowed_scopes := ["mcp:read"]; pr_allowed_servers := Some ["files"]; pr_allowed_tools := None;
  pr_requires_reason := false; pr_requires_owner := true; pr_created_at := 0; pr_updated_at := 0 |}.

Definition demo_row : ApiKeyRow := {|
  id := 1%N; key_prefix := "abcdefgh"; key_hash := "argon2:" +:+ demo_remainder; name := "ci"; key_sub := "svc-ci";
  tenant_id := "acme"; key_email := None; key_groups := []; key_scopes := ["mcp:read"]; created_by := "admin"; created_at := 0;
  last_used_at := None; expires_at := Some (3600 * nanos_per_sec); revoked_at := None; key_profile_id := Some 7%N;
  owner := Some "team"; reason := None; rotation_due_at := None |}.

Definition demo_tables : Db := {|
  keys := ∅; usage := ∅; profiles := {[7%N := demo_profile]};
  scope_rows := {[20%N := {| sc_tenant_id := Some "acme"; sc_name := "mcp:read"; sc_source := "local"; sc_description := None;
                             sc_updated_at := 0 |}]};
  group_rows := ∅; gateway_roles := []; user_groups := []; group_role_mappings := [] |}.

(** After the mint. *)
Definition demo_db : Db := (insert_catalog_checked demo_row true true demo_tables).2.

End ApiKeyDemo.
