(* ===== verification/ApiKeyCatalog.v ===== *)
(** * API keys: the scope and group catalogues

    The writers of the [scopes] table (scope_store.rs) and of the local rows of
    [scim_groups] (group_store.rs): creation, the policy reconcile, the guarded
    deletion of a local entry and the purge of a tenant. The counts a deletion checks
    are those of the keys, roles, users and mappings at that moment. *)

From S2P Require Import Prelude RustStr HashChain Json OauthStore ApiKeys.
Local Open Scope Z_scope.

Module ApiKeyCatalog.
Import HashChain(Uuid) OauthStore(timestamptz, json_to_str_vec) ApiKeys.ApiKeys.

Implicit Types (d : Db).

Definition LOCAL : string := "local".

(** ** References *)

(** Unrevoked keys of the tenant whose JSON array of scopes (of groups) has the name. *)
Definition keys_with (column : Mutable → Json.Json.Value) (tenant n : string) (d : Db) : Z :=
  Z.of_nat (size (filter (λ kv : Uuid * ApiKeyRowRaw,
    rw_tenant_id kv.2 = tenant ∧ unrevoked kv.2 = true ∧ n ∈ json_to_str_vec (column (rw_state kv.2))) (keys d))).

Definition role_refs (tenant n : string) (d : Db) : Z :=
  Z.of_nat (length (filter (λ r, r.1 = tenant ∧ n ∈ r.2) (gateway_roles d))).

Definition user_members (tenant : string) (i : Uuid) (d : Db) : Z :=
  Z.of_nat (length (filter (λ r, r.1.1 = tenant ∧ r.1.2 = i ∧ r.2 = true) (user_groups d))).

Definition role_mappings (tenant : string) (i : Uuid) (d : Db) : Z :=
  Z.of_nat (length (filter (λ r, r.1 = tenant ∧ r.2 = i) (group_role_mappings d))).

(** ** Scopes *)

Inductive ScopeStoreError :=
  | ScSqlx
  | ScConflict (n : string)
  | ScNotFound (i : Uuid)
  | ScNotLocal (i : Uuid)
  | ScChanged (i : Uuid)
  | ScInUse (key_refs role_refs : Z).

Record LocalScopeDeleteTarget := {
  sdt_id : Uuid;
  sdt_name : string;
  sdt_updated_at : time;
  sdt_key_refs : Z;
  sdt_role_refs : Z;
}.

Definition scope_row (now : time) (tenant : option string) (n source : string) (description : option string) : ScopeRow := {|
  sc_tenant_id := tenant; sc_name := n; sc_source := source; sc_description := description; sc_updated_at := timestamptz now |}.

Definition delete_all_scopes_for_tenant (tenant : string) (d : Db) : Z * Db :=
  let m := filter (λ kv, sc_tenant_id kv.2 ≠ Some tenant) (scope_rows d) in
  (Z.of_nat (size (scope_rows d)) - Z.of_nat (size m), with_scopes m d).

(** One name of the INSERT; [ON CONFLICT DO NOTHING] on the row's id and on the global name. *)
Definition upsert_policy_scope (now : time) (id : Uuid) (n : string) (m : gmap Uuid ScopeRow) : gmap Uuid ScopeRow :=
  if bool_decide (is_Some (m !! id))
     || existsb (λ s, bool_decide (sc_tenant_id s = None) && bool_decide (sc_name s = n)) (snd <$> map_to_list m)
  then m else <[id := scope_row now None n "policy" None]> m.

(** [ids] are the identifiers the rows would get. *)
Definition upsert_policy_scopes (now : time) (ids : list Uuid) (names : list string) (d : Db) : Z * Db :=
  let m := foldl (λ m x, upsert_policy_scope now x.1 x.2 m) (scope_rows d) (zip ids names) in
  (Z.of_nat (size m) - Z.of_nat (size (scope_rows d)), with_scopes m d).

Definition create_local_scope (now : time) (id : Uuid) (tenant n : string) (description : option string) (d : Db)
  : result unit ScopeStoreError * Db :=
  if known_scope d tenant n || bool_decide (is_Some (scope_rows d !! id)) then (Err (ScConflict n), d)
  else (Ok tt, with_scopes (<[id := scope_row now (Some tenant) n LOCAL description]> (scope_rows d)) d).

(** [WHERE id = $2 AND (tenant_id IS NULL OR tenant_id = $1)], then the check that the row is the tenant's own. *)
Definition own_scope (tenant : string) (i : Uuid) (d : Db) : result ScopeRow ScopeStoreError :=
  match scope_rows d !! i with
  | None => Err (ScNotFound i)
  | Some s =>
      if match sc_tenant_id s with None => false | Some t => negb (bool_decide (t = tenant)) end then Err (ScNotFound i)
      else if negb (bool_decide (sc_tenant_id s = Some tenant)) || negb (bool_decide (sc_source s = LOCAL)) then Err (ScNotLocal i)
      else Ok s
  end.

Definition get_local_scope_delete_target (tenant : string) (i : Uuid) (d : Db) : result LocalScopeDeleteTarget ScopeStoreError :=
  match own_scope tenant i d with
  | Err e => Err e
  | Ok s => Ok {| sdt_id := i; sdt_name := sc_name s; sdt_updated_at := sc_updated_at s;
                  sdt_key_refs := keys_with rw_scopes tenant (sc_name s) d; sdt_role_refs := role_refs tenant (sc_name s) d |}
  end.

Definition delete_local_scope_if_unchanged (tenant : string) (i : Uuid) (expected_name : string) (expected_updated_at : time)
    (d : Db) : result unit ScopeStoreError * Db :=
  match own_scope tenant i d with
  | Err e => (Err e, d)
  | Ok s =>
      if negb (bool_decide (sc_name s = expected_name)) || negb (sc_updated_at s =? expected_updated_at) then (Err (ScChanged i), d)
      else
        let key_refs := keys_with rw_scopes tenant expected_name d in
        let role_refs := role_refs tenant expected_name d in
        if negb (key_refs =? 0) || negb (role_refs =? 0) then (Err (ScInUse key_refs role_refs), d)
        else (Ok tt, with_scopes (delete i (scope_rows d)) d)
  end.

(** ** Groups *)

Inductive GroupStoreError :=
  | GrSqlx
  | GrConflict (n : string)
  | GrNotFound (i : Uuid)
  | GrNotLocal (i : Uuid)
  | GrChanged (i : Uuid)
  | GrInUse (user_members key_members role_mappings : Z).

Record LocalGroupDeleteTarget := {
  gdt_id : Uuid;
  gdt_display_name : string;
  gdt_updated_at : time;
  gdt_user_member_count : Z;
  gdt_key_member_count : Z;
  gdt_role_mapping_count : Z;
}.

Definition delete_all_local_for_tenant (tenant : string) (d : Db) : Z * Db :=
  let m := filter (λ kv, ¬ (gr_tenant_id kv.2 = tenant ∧ gr_source kv.2 = LOCAL)) (group_rows d) in
  (Z.of_nat (size (group_rows d)) - Z.of_nat (size m), with_groups m d).

(** [UNIQUE (tenant_id, display_name)] *)
Definition create_local_group (now : time) (id : Uuid) (tenant n : string) (d : Db) : result unit GroupStoreError * Db :=
  if known_group d tenant n || bool_decide (is_Some (group_rows d !! id)) then (Err (GrConflict n), d)
  else (Ok tt, with_groups (<[id := {| gr_tenant_id := tenant; gr_display_name := n; gr_source := LOCAL;
                                       gr_updated_at := timestamptz now |}]> (group_rows d)) d).

Definition own_group (tenant : string) (i : Uuid) (d : Db) : result GroupRow GroupStoreError :=
  match group_rows d !! i with
  | None => Err (GrNotFound i)
  | Some g =>
      if negb (bool_decide (gr_tenant_id g = tenant)) then Err (GrNotFound i)
      else if negb (bool_decide (gr_source g = LOCAL)) then Err (GrNotLocal i)
      else Ok g
  end.

Definition get_local_group_delete_target (tenant : string) (i : Uuid) (d : Db) : result LocalGroupDeleteTarget GroupStoreError :=
  match own_group tenant i d with
  | Err e => Err e
  | Ok g => Ok {| gdt_id := i; gdt_display_name := gr_display_name g; gdt_updated_at := gr_updated_at g;
                  gdt_user_member_count := user_members tenant i d;
                  gdt_key_member_count := keys_with rw_groups tenant (gr_display_name g) d;
                  gdt_role_mapping_count := role_mappings tenant i d |}
  end.

Definition delete_local_group_if_unchanged (tenant : string) (i : Uuid) (expected_display_name : string)
    (expected_updated_at : time) (d : Db) : result unit GroupStoreError * Db :=
  match own_group tenant i d with
  | Err e => (Err e, d)
  | Ok g =>
      if negb (bool_decide (gr_display_name g = expected_display_name)) || negb (gr_updated_at g =? expected_updated_at)
      then (Err (GrChanged i), d)
      else
        let users := user_members tenant i d in
        let key_members := keys_with rw_groups tenant expected_display_name d in
        let mappings := role_mappings tenant i d in
        if negb (users =? 0) || negb (key_members =? 0) || negb (mappings =? 0) then (Err (GrInUse users key_members mappings), d)
        else (Ok tt, with_groups (delete i (group_rows d)) d)
  end.

End ApiKeyCatalog.
