(* ===== verification/ApiKeyRuns.v ===== *)
(** * API keys: histories of the tables

    A history is the sequence of the transactions the database committed, each at its
    time; a call that failed is not in it. Tables other crates write (roles, SCIM
    groups and their members) change in any way between two transactions. *)

From S2P Require Import Prelude RustStr HashChain Json OauthStore ApiKeys ApiKeyCatalog.
Local Open Scope Z_scope.

Module ApiKeyRuns.
Import HashChain(Uuid) Json.Json OauthStore(timestamptz, strings_json, json_to_str_vec, strings_json_back) ApiKeys.ApiKeys
  ApiKeys.ApiKeyDemo ApiKeyCatalog.ApiKeyCatalog.

Implicit Types (d : Db) (r : ApiKeyRowRaw).

(** ** Histories *)

Inductive Op :=
  | OInsert (row : ApiKeyRow) (enforce_scopes enforce_groups : bool)
  | ORename (i : Uuid) (n : string)
  | ORevoke (i : Uuid)
  | ORevokeTenant (tenant : string)
  | OUpdateGrants (i : Uuid) (tenant : string) (scopes groups : list string) (enforce_scopes enforce_groups : bool)
  | OAddUsage (i : Uuid) (bucket : time) (count : Z) (at_time : time)
  | OSweep (retain : duration)
  | OCreateProfile (id : Uuid) (tenant name : string) (description : option string) (max_ttl_seconds : Z)
      (scopes : list string) (servers tools : option (list string)) (requires_reason requires_owner : bool)
  | ODeleteProfile (tenant : string) (i : Uuid)
  | ODeleteProfileIf (tenant : string) (i : Uuid) (expected : time)
  | ODeleteProfiles (tenant : string)
  | ODeleteScopes (tenant : string)
  | OUpsertScopes (ids : list Uuid) (names : list string)
  | OCreateScope (id : Uuid) (tenant n : string) (description : option string)
  | ODeleteScope (tenant : string) (i : Uuid) (n : string) (expected : time)
  | ODeleteGroups (tenant : string)
  | OCreateGroup (id : Uuid) (tenant n : string)
  | ODeleteGroup (tenant : string) (i : Uuid) (n : string) (expected : time)
  | OOthers (groups : gmap Uuid GroupRow) (roles : list (string * list string)) (members : list (string * Uuid * bool))
      (mappings : list (string * Uuid)).

Definition exec (now : time) (o : Op) (d : Db) : Db :=
  match o with
  | OInsert row es eg => (insert_catalog_checked row es eg d).2
  | ORename i n => (rename i n d).2
  | ORevoke i => (revoke now i d).2
  | ORevokeTenant t => (revoke_all_for_tenant now t d).2
  | OUpdateGrants i t sc gr es eg => (update_grants_catalog_checked i t sc gr es eg d).2
  | OAddUsage i b c t => add_usage i b c t d
  | OSweep retain => (sweep_expired now retain d).2
  | OCreateProfile id t n desc ttl sc sv tl rr ro => (create_profile now id t n desc ttl sc sv tl rr ro d).2
  | ODeleteProfile t i => (delete_profile now t i d).2
  | ODeleteProfileIf t i u => (delete_if_updated_at now t i u d).2
  | ODeleteProfiles t => (delete_all_for_tenant now t d).2
  | ODeleteScopes t => (delete_all_scopes_for_tenant t d).2
  | OUpsertScopes ids names => (upsert_policy_scopes now ids names d).2
  | OCreateScope id t n desc => (create_local_scope now id t n desc d).2
  | ODeleteScope t i n u => (delete_local_scope_if_unchanged t i n u d).2
  | ODeleteGroups t => (delete_all_local_for_tenant t d).2
  | OCreateGroup id t n => (create_local_group now id t n d).2
  | ODeleteGroup t i n u => (delete_local_group_if_unchanged t i n u d).2
  | OOthers g ro m mp => {| keys := keys d; usage := usage d; profiles := profiles d; scope_rows := scope_rows d; group_rows := g;
                            gateway_roles := ro; user_groups := m; group_role_mappings := mp |}
  end.

Definition history : Type := list (time * Op).

Fixpoint run (h : history) (d : Db) : Db :=
  match h with
  | [] => d
  | x :: h => run h (exec x.1 x.2 d)
  end.

(** The transactions commit between [from] and [until], in order of time. *)
Fixpoint timed (from until : time) (h : history) : Prop :=
  match h with
  | [] => from <= until
  | x :: h => from <= x.1 ∧ timed x.1 until h
  end.

Lemma timed_within from until h : timed from until h → from <= until.
Proof. revert from. induction h as [|x h IH]; cbn; [done|]. intros from [H1 H2%IH]. lia. Qed.

(** ** What a transaction does to one key *)

(** The only ways a transaction changes a row. *)
Inductive modified (now : time) (o : Op) d r : ApiKeyRowRaw → Prop :=
  | mod_same : modified now o d r r
  | mod_name n : modified now o d r (with_mutable (set_name n) r)
  | mod_revoked t : modified now o d r (with_mutable (set_revoked t) r)
  | mod_used t : modified now o d r (with_mutable (set_last_used t) r)
  | mod_grants i sc gr es eg : o = OUpdateGrants i (rw_tenant_id r) sc gr es eg →
      lock_and_validate_catalog (rw_tenant_id r) sc gr es eg d = Ok tt →
      modified now o d r (with_mutable (set_grants (strings_json sc) (strings_json gr)) r)
  | mod_profile gone : (∀ p prof, gone !! p = Some prof → profiles d !! p = Some prof ∧ live_refs now prof d <= 0) →
      modified now o d r (with_mutable (clear_profiles gone) r).

Definition inserted (o : Op) d (i : Uuid) (r : ApiKeyRowRaw) : Prop :=
  ∃ row es eg, o = OInsert row es eg ∧ id row = i ∧ keys d !! i = None ∧ r = raw_of_row row ∧
    lock_and_validate_catalog (tenant_id row) (key_scopes row) (key_groups row) es eg d = Ok tt ∧
    (∀ p, key_profile_id row = Some p → is_Some (profiles d !! p)).

Lemma update_key_lookup i p f d j r' : keys (update_key i p f d).2 !! j = Some r' →
  keys d !! j = Some r' ∨ ∃ r, j = i ∧ keys d !! j = Some r ∧ p r = true ∧ r' = with_mutable f r.
Proof.
  unfold update_key. destruct (keys d !! i) as [r|] eqn:Hr; [|by left]. destruct (p r) eqn:Hp; [|by left]. cbn [snd keys with_keys].
  intros [[<- <-]|[_ H]]%lookup_insert_Some; [right; by exists r|by left].
Qed.

Lemma delete_where_lookup now o t i q d j r' : keys (delete_where now t i q d).2 !! j = Some r' →
  ∃ r, keys d !! j = Some r ∧ modified now o d r r'.
Proof.
  unfold delete_where, get_profile. destruct (profiles d !! i) as [p|] eqn:Hp; cbn; [|eauto using mod_same].
  case_bool_decide; cbn; [|eauto using mod_same]. destruct (q p); cbn; [|eauto using mod_same].
  destruct (Z.ltb_spec 0 (live_refs now p d)) as [|Hl]; cbn; [eauto using mod_same|].
  rewrite lookup_fmap, fmap_Some. intros (r & Hr & ->). exists r. split; [done|]. apply mod_profile.
  intros p' prof [<- <-]%lookup_singleton_Some. done.
Qed.

Lemma insert_lookup row es eg d j r' : keys (insert_catalog_checked row es eg d).2 !! j = Some r' →
  keys d !! j = Some r' ∨ inserted (OInsert row es eg) d j r'.
Proof.
  unfold insert_catalog_checked.
  destruct (lock_and_validate_catalog _ _ _ _ _ d) as [[]|] eqn:Hl; [|by left]. destruct (keys d !! id row) eqn:Hk; [by left|].
  destruct (match key_profile_id row with Some _ => _ | None => _ end) eqn:Hp; [|by left]. cbn [snd keys with_keys].
  intros [[<- <-]|[_ H]]%lookup_insert_Some; [|by left]. right. exists row, es, eg. split_and!; [done..|].
  intros p Hp'. rewrite Hp' in Hp. by apply bool_decide_eq_true in Hp.
Qed.

(** A row after a transaction is new, or a row from before with one of the changes. *)
Lemma key_step now o d i r' : keys (exec now o d) !! i = Some r' →
  inserted o d i r' ∨ ∃ r, keys d !! i = Some r ∧ modified now o d r r'.
Proof.
  intros H. destruct o; cbn [exec] in H.
  1: { apply insert_lookup in H as [H|H]; eauto using mod_same. }
  all: right.
  - apply update_key_lookup in H as [H|(r & -> & H & _ & ->)]; eauto using mod_same, mod_name.
  - apply update_key_lookup in H as [H|(r & -> & H & _ & ->)]; eauto using mod_same, mod_revoked.
  - cbn in H. rewrite lookup_fmap, fmap_Some in H. destruct H as (r & Hr & ->). exists r. split; [done|].
    destruct (_ && _); eauto using mod_same, mod_revoked.
  - unfold update_grants_catalog_checked in H. destruct (lock_and_validate_catalog _ _ _ _ _ d) as [[]|] eqn:Hl; [|eauto using mod_same].
    destruct (update_key _ _ _ d) as [b d'] eqn:Hu. cbn in H.
    assert (keys (update_key i0 (λ r, bool_decide (rw_tenant_id r = tenant) && unrevoked r)
      (set_grants (strings_json scopes) (strings_json groups)) d).2 !! i = Some r') as Hk by by rewrite Hu.
    apply update_key_lookup in Hk as [Hk|(r & -> & Hk & Hp & ->)]; [eauto using mod_same|]. exists r. split; [done|].
    apply andb_prop in Hp as [Ht%bool_decide_eq_true _]. subst tenant. by eapply mod_grants.
  - unfold add_usage in H. set (d1 := (update_key _ _ _ d).2) in H.
    assert (keys d1 !! i = Some r') as Hk by (destruct (keys d1 !! i0); [by destruct (usage d1 !! _)|done]).
    apply update_key_lookup in Hk as [Hk|(r & -> & Hk & _ & ->)]; eauto using mod_same, mod_used.
  - cbn in H. apply map_lookup_filter_Some in H as [H _]. eauto using mod_same.
  - unfold create_profile in H. by repeat destruct (_ || _); eauto using mod_same.
  - by eapply delete_where_lookup.
  - by eapply delete_where_lookup.
  - unfold delete_all_for_tenant in H. case_bool_decide as Hg; [|eauto using mod_same]. cbn in H.
    rewrite lookup_fmap, fmap_Some in H. destruct H as (r & Hr & ->). exists r. split; [done|]. apply mod_profile.
    intros p prof Hp. pose proof (Hg p prof Hp). by apply map_lookup_filter_Some in Hp as [Hp _].
  - eauto using mod_same.
  - eauto using mod_same.
  - unfold create_local_scope in H. destruct (_ || _); eauto using mod_same.
  - unfold delete_local_scope_if_unchanged in H. destruct (own_scope tenant i0 d); [|eauto using mod_same].
    by repeat destruct (_ || _); eauto using mod_same.
  - eauto using mod_same.
  - unfold create_local_group in H. destruct (_ || _); eauto using mod_same.
  - unfold delete_local_group_if_unchanged in H. destruct (own_group tenant i0 d); [|eauto using mod_same].
    by repeat destruct (_ || _); eauto using mod_same.
  - eauto using mod_same.
Qed.

(** The columns no transaction changes. *)
Lemma modified_same now o d r r' : modified now o d r r' →
  rw_tenant_id r' = rw_tenant_id r ∧ rw_expires_at r' = rw_expires_at r ∧ rw_key_prefix r' = rw_key_prefix r ∧
  rw_key_hash r' = rw_key_hash r ∧ rw_sub r' = rw_sub r.
Proof. by destruct 1. Qed.

(** Revocation is final. *)
Lemma modified_unrevoked now o d r r' : modified now o d r r' → unrevoked r' = true → unrevoked r = true.
Proof. by destruct 1. Qed.

Lemma live_earlier now o d r r' t t' : modified now o d r r' → t <= t' → live t' r' = true → live t r = true.
Proof.
  intros Hm Ht. unfold live. intros [Hr He]%andb_prop. apply andb_true_intro. split; [by apply (modified_unrevoked _ _ _ _ _ Hm)|].
  apply modified_same in Hm as (_ & He' & _). rewrite He' in He. destruct (rw_expires_at r); [|done].
  apply Z.ltb_lt in He. apply Z.ltb_lt. lia.
Qed.

Lemma timed_weaken from from' until h : from' <= from → timed from until h → timed from' until h.
Proof. destruct h; cbn; [lia|]. intros ? [??]. split; [lia|done]. Qed.

(** ** The scope catalogue *)

Lemma known_scope_true d t n : known_scope d t n = true ↔ ∃ i s, scope_rows d !! i = Some s ∧ visible_to t n s = true.
Proof.
  unfold known_scope. rewrite existsb_exists. split.
  - intros (s & Hs & Hv). apply list_elem_of_In, list_elem_of_fmap in Hs as ([i s'] & -> & Hs%elem_of_map_to_list). eauto.
  - intros (i & s & Hs & Hv). exists s. split; [|done]. apply list_elem_of_In, list_elem_of_fmap. exists (i, s).
    by rewrite elem_of_map_to_list.
Qed.

Lemma own_scope_Ok t i d s : own_scope t i d = Ok s → scope_rows d !! i = Some s ∧ sc_tenant_id s = Some t.
Proof.
  unfold own_scope. destruct (scope_rows d !! i) as [s'|]; [|done].
  destruct (match sc_tenant_id s' with None => false | Some _ => _ end); [done|]. case_bool_decide as Ht; cbn; [|done]. destruct (negb _); cbn; [done|].
  by intros [= <-].
Qed.

Lemma upsert_keeps now l m i (s : ScopeRow) : m !! i = Some s →
  foldl (λ m x, upsert_policy_scope now x.1 x.2 m) m l !! i = Some s.
Proof.
  revert m. induction l as [|x l IH]; intros m Hm; cbn; [done|]. apply IH. unfold upsert_policy_scope.
  destruct (bool_decide (is_Some (m !! x.1))) eqn:Hx; cbn; [done|]. apply bool_decide_eq_false in Hx.
  destruct (existsb _ _); [done|]. apply lookup_insert_Some. right. split; [|done]. intros <-. eauto.
Qed.

Lemma update_key_others i p f d :
  scope_rows (update_key i p f d).2 = scope_rows d ∧ profiles (update_key i p f d).2 = profiles d.
Proof. unfold update_key. destruct (keys d !! i); [|done]. by destruct (p _). Qed.

Lemma add_usage_others i b c t d : scope_rows (add_usage i b c t d) = scope_rows d ∧ profiles (add_usage i b c t d) = profiles d.
Proof.
  unfold add_usage. destruct (update_key_others i (λ _, true) (set_last_used (timestamptz t)) d) as [H1 H2].
  by destruct (keys _ !! i).
Qed.

(** How a row leaves the catalogue. *)
Lemma scope_step now o d i s : scope_rows d !! i = Some s →
  scope_rows (exec now o d) !! i = Some s ∨ (∃ t, o = ODeleteScopes t ∧ sc_tenant_id s = Some t) ∨
  (∃ t u, o = ODeleteScope t i (sc_name s) u ∧ sc_tenant_id s = Some t ∧ keys_with rw_scopes t (sc_name s) d = 0).
Proof.
  intros Hs. destruct o; cbn [exec]; try (by left).
  - left. unfold insert_catalog_checked. destruct (lock_and_validate_catalog _ _ _ _ _ d); [|done]. destruct (keys d !! _); [done|].
    by destruct (match key_profile_id row with Some _ => _ | None => _ end).
  - left. unfold rename. by rewrite (proj1 (update_key_others _ _ _ _)).
  - left. unfold revoke. by rewrite (proj1 (update_key_others _ _ _ _)).
  - left. unfold update_grants_catalog_checked. destruct (lock_and_validate_catalog _ _ _ _ _ d); [|done].
    unfold update_key. destruct (keys d !! i0); [|done]. by destruct (_ && _).
  - left. by rewrite (proj1 (add_usage_others _ _ _ _ _)).
  - left. unfold create_profile. by repeat destruct (_ || _).
  - left. unfold delete_profile, delete_where. destruct (get_profile _ _ _); [|done]. cbn. by destruct (_ <? _).
  - left. unfold delete_if_updated_at, delete_where. destruct (get_profile _ _ _); [|done]. destruct (negb _); [done|]. by destruct (_ <? _).
  - left. unfold delete_all_for_tenant. by case_bool_decide.
  - destruct (decide (sc_tenant_id s = Some tenant)); [by eauto|]. left. cbn. by apply map_lookup_filter_Some.
  - left. by apply upsert_keeps.
  - left. unfold create_local_scope. destruct (known_scope _ _ _); cbn; [done|]. case_bool_decide as Hi; [done|]. cbn.
    apply lookup_insert_Some. right. split; [|done]. intros ->. eauto.
  - unfold delete_local_scope_if_unchanged. destruct (own_scope tenant i0 d) as [s'|] eqn:Ho; [|by left].
    apply own_scope_Ok in Ho as [Ho Ht]. case_bool_decide as Hn; cbn; [|by left]. destruct (negb _); [by left|].
    destruct (Z.eqb_spec (keys_with rw_scopes tenant n d) 0) as [Hk|]; cbn; [|by left]. destruct (negb _); [by left|]. cbn.
    destruct (decide (i = i0)) as [->|Hi]; [|left; by rewrite lookup_delete_ne].
    assert (s' = s) as -> by congruence. right; right. subst n. eauto.
  - left. unfold create_local_group. by destruct (_ || _).
  - left. unfold delete_local_group_if_unchanged. destruct (own_group _ _ _); [|done]. by repeat destruct (_ || _).
Qed.

(** Every scope an unrevoked key of the tenant carries is in the tenant's view of the catalogue. *)
Definition catalogued (t : string) d : Prop :=
  ∀ i r n, keys d !! i = Some r → rw_tenant_id r = t → unrevoked r = true → n ∈ json_to_str_vec (rw_scopes r) →
    known_scope d t n = true.

(** Mints and grant edits of the tenant check scopes, and the tenant is not purged. *)
Definition enforced (t : string) (o : Op) : bool :=
  match o with
  | OInsert row es _ => negb (bool_decide (tenant_id row = t)) || es
  | OUpdateGrants _ t' _ _ es _ => negb (bool_decide (t' = t)) || es
  | ODeleteScopes t' => negb (bool_decide (t' = t))
  | _ => true
  end.

Lemma checked_scopes t sc gr eg d : lock_and_validate_catalog t sc gr true eg d = Ok tt → ∀ n, n ∈ sc → known_scope d t n = true.
Proof.
  unfold lock_and_validate_catalog. destruct (unknown_scopes d t sc) as [|x l] eqn:Hu; [|done]. intros _ n Hn.
  destruct (known_scope d t n) eqn:Hk; [done|]. assert (n ∈ unknown_scopes d t sc) as H by by apply list_elem_of_filter.
  rewrite Hu in H. by apply not_elem_of_nil in H.
Qed.

(** Where the carried scopes come from: the row before, or a check in the same transaction. *)
Lemma scopes_checked now o d t i r' : catalogued t d → enforced t o = true → keys (exec now o d) !! i = Some r' →
  rw_tenant_id r' = t → unrevoked r' = true → ∀ n, n ∈ json_to_str_vec (rw_scopes r') → known_scope d t n = true.
Proof.
  intros Hc He Hk Ht Hu n Hn. apply key_step in Hk as [(row & es & eg & -> & <- & _ & -> & Hl & _)|(r & Hr & Hm)].
  - cbn in Ht. subst t. cbn in He. rewrite bool_decide_true in He by done. cbn in He. subst es. cbn -[json_to_str_vec] in Hn.
    rewrite strings_json_back in Hn. eauto using checked_scopes.
  - pose proof (modified_same _ _ _ _ _ Hm) as (Ht' & _). rewrite Ht' in Ht.
    pose proof (modified_unrevoked _ _ _ _ _ Hm Hu) as Hu'. destruct Hm as [| | | |i0 sc gr es eg -> Hl|gone Hg]; try by eapply Hc.
    subst t. cbn in He. rewrite bool_decide_true in He by done. cbn in He. subst es. cbn -[json_to_str_vec] in Hn.
    rewrite strings_json_back in Hn. eauto using checked_scopes.
Qed.

Lemma keys_with_zero column t n d i r : keys_with column t n d = 0 → keys d !! i = Some r → rw_tenant_id r = t →
  unrevoked r = true → n ∉ json_to_str_vec (column (rw_state r)).
Proof.
  intros Hz Hr Ht Hu Hn. assert (filter (λ kv : Uuid * ApiKeyRowRaw, rw_tenant_id kv.2 = t ∧ unrevoked kv.2 = true ∧
    n ∈ json_to_str_vec (column (rw_state kv.2))) (keys d) = ∅) as He by (apply map_size_empty_iff; unfold keys_with in Hz; lia).
  assert (filter (λ kv : Uuid * ApiKeyRowRaw, rw_tenant_id kv.2 = t ∧ unrevoked kv.2 = true ∧
    n ∈ json_to_str_vec (column (rw_state kv.2))) (keys d) !! i = Some r) as H by by apply map_lookup_filter_Some.
  by rewrite He in H.
Qed.

Lemma catalogued_step now o d t : catalogued t d → enforced t o = true → catalogued t (exec now o d).
Proof.
  intros Hc He i r' n Hk Ht Hu Hn. pose proof (scopes_checked _ _ _ _ _ _ Hc He Hk Ht Hu n Hn) as Hknown.
  apply known_scope_true in Hknown as (j & s & Hs & Hv). apply known_scope_true. exists j, s. split; [|done].
  unfold visible_to in Hv. apply andb_prop in Hv as [Hn'%bool_decide_eq_true Hv].
  destruct (scope_step now o d j s Hs) as [H|[(t' & -> & Hs')|(t' & u & -> & Hs' & Hz)]]; [done| |]; exfalso.
  - rewrite Hs' in Hv. apply bool_decide_eq_true in Hv. cbn in He. by rewrite bool_decide_true in He by done.
  - rewrite Hs' in Hv. apply bool_decide_eq_true in Hv. subst t' n.
    apply key_step in Hk as [(row & ? & ? & [=] & _)|(r & Hr & Hm)]. pose proof (modified_same _ _ _ _ _ Hm) as (Ht' & _).
    rewrite Ht' in Ht. pose proof (modified_unrevoked _ _ _ _ _ Hm Hu) as Hu'.
    assert (rw_scopes r' = rw_scopes r) as Heq by (by destruct Hm). rewrite Heq in Hn.
    by apply (keys_with_zero _ _ _ _ _ _ Hz Hr Ht Hu').
Qed.

(** A tenant whose mints and grant edits check the scope catalogue, and whose local scopes are
    not purged, never has an unrevoked key that carries a scope outside the catalogue: the guarded
    deletion of a local scope leaves the scopes of live keys alone. *)
Theorem granted_scopes_stay_known t d h :
  catalogued t d → Forall (λ x, enforced t x.2 = true) h → catalogued t (run h d).
Proof.
  revert d. induction h as [|x h IH]; intros d Hd; cbn; [done|]. intros [Hx Hh]%Forall_cons. by apply IH; [apply catalogued_step|].
Qed.

(** ** Profiles *)

(** The key is minted under the profile, of its own tenant. *)
Definition bound (i : Uuid) (prof : Profile) d r : Prop :=
  keys d !! i = Some r ∧ rw_profile_id r = Some (pr_id prof) ∧ profiles d !! pr_id prof = Some prof ∧
  pr_tenant_id prof = rw_tenant_id r.

Definition mints (i : Uuid) (o : Op) : bool := match o with OInsert row _ _ => bool_decide (id row = i) | _ => false end.

Lemma live_refs_pos now i prof d r : bound i prof d r → live now r = true → 0 < live_refs now prof d.
Proof.
  intros (Hr & Hp & _ & Ht) Hl. unfold live_refs. set (m := filter _ (keys d)).
  assert (m !! i = Some r) as Hi.
  { apply map_lookup_filter_Some. split; [done|]. cbn. rewrite !bool_decide_true by done. by rewrite Hl. }
  destruct (decide (size m = 0%nat)) as [Hz%map_size_empty_iff|]; [by rewrite Hz in Hi|lia].
Qed.

Lemma delete_where_profile now t i q d prof : profiles d !! pr_id prof = Some prof →
  profiles (delete_where now t i q d).2 !! pr_id prof = Some prof ∨ live_refs now prof d <= 0.
Proof.
  intros Hp. unfold delete_where, get_profile. destruct (profiles d !! i) as [p|] eqn:Hi; cbn; [|by left].
  case_bool_decide; cbn; [|by left]. destruct (negb _); cbn; [by left|]. destruct (Z.ltb_spec 0 (live_refs now p d)); cbn; [by left|].
  destruct (decide (i = pr_id prof)) as [->|]; [|left; by rewrite lookup_delete_ne]. right. by assert (p = prof) as -> by congruence.
Qed.

(** A profile leaves the table only when no live key of its tenant refers to it. *)
Lemma profile_step now o d prof : profiles d !! pr_id prof = Some prof →
  profiles (exec now o d) !! pr_id prof = Some prof ∨ live_refs now prof d <= 0.
Proof.
  intros Hp. destruct o; cbn [exec]; try (by left).
  - left. unfold insert_catalog_checked. destruct (lock_and_validate_catalog _ _ _ _ _ d); [|done]. destruct (keys d !! _); [done|].
    by destruct (match key_profile_id row with Some _ => _ | None => _ end).
  - left. unfold rename. by rewrite (proj2 (update_key_others _ _ _ _)).
  - left. unfold revoke. by rewrite (proj2 (update_key_others _ _ _ _)).
  - left. unfold update_grants_catalog_checked. destruct (lock_and_validate_catalog _ _ _ _ _ d); [|done].
    unfold update_key. destruct (keys d !! i); [|done]. by destruct (_ && _).
  - left. by rewrite (proj2 (add_usage_others _ _ _ _ _)).
  - left. unfold create_profile. destruct (_ || _); [done|]. case_bool_decide as Hi; cbn; [done|]. destruct (existsb _ _); [done|]. cbn.
    apply lookup_insert_Some. right. split; [|done]. intros ->. eauto.
  - by apply delete_where_profile.
  - by apply delete_where_profile.
  - unfold delete_all_for_tenant. case_bool_decide as Hg; [|by left]. destruct (decide (pr_tenant_id prof = tenant)) as [Ht|Ht].
    + right. apply (Hg (pr_id prof)). by apply map_lookup_filter_Some.
    + left. cbn. by apply map_lookup_filter_Some.
  - left. unfold create_local_scope. by destruct (_ || _).
  - left. unfold delete_local_scope_if_unchanged. destruct (own_scope _ _ _); [|done]. by repeat destruct (_ || _).
  - left. unfold create_local_group. by destruct (_ || _).
  - left. unfold delete_local_group_if_unchanged. destruct (own_group _ _ _); [|done]. by repeat destruct (_ || _).
Qed.

Lemma bound_step now o d i prof r r' t : bound i prof d r → keys (exec now o d) !! i = Some r' → now <= t → live t r' = true →
  bound i prof (exec now o d) r'.
Proof.
  intros Hb Hr' Ht Hl. pose proof Hb as (Hr & Hp & Hprof & Hten).
  apply key_step in Hr' as Hk. destruct Hk as [(? & ? & ? & _ & _ & Hn & _)|(r0 & Hr0 & Hm)]; [congruence|].
  assert (r0 = r) as -> by congruence. pose proof (live_earlier _ _ _ _ _ _ _ Hm Ht Hl) as Hl0.
  pose proof (live_refs_pos _ _ _ _ _ Hb Hl0) as Hpos. destruct (profile_step now o d prof Hprof) as [Hkept|?]; [|lia].
  pose proof (modified_same _ _ _ _ _ Hm) as (Hten' & _). split_and!; [done| |done|congruence].
  destruct Hm as [| | | | |gone Hg]; try done. cbn. rewrite Hp. cbn. case_bool_decide as Hin; [|done]. destruct Hin as [q Hq].
  destruct (Hg _ _ Hq) as [Hq' Hle]. rewrite Hprof in Hq'. injection Hq' as <-. lia.
Qed.

Lemma absent_stays now o d i : mints i o = false → keys d !! i = None → keys (exec now o d) !! i = None.
Proof.
  intros Hi Hn. destruct (keys (exec now o d) !! i) as [r'|] eqn:Hk; [|done].
  apply key_step in Hk as [(row & ? & ? & -> & <- & _)|(r & Hr & _)]; [|congruence]. cbn in Hi. by apply bool_decide_eq_false in Hi.
Qed.

Lemma absent_run h d i : Forall (λ x, mints i x.2 = false) h → keys d !! i = None → keys (run h d) !! i = None.
Proof. revert d. induction h; intros d; cbn; [done|]. intros [??]%Forall_cons ?. eauto using absent_stays. Qed.

(** A row alive at the end was alive all along. *)
Lemma present_before h d i from until r' : timed from until h → Forall (λ x, mints i x.2 = false) h → keys (run h d) !! i = Some r' →
  live until r' = true → ∃ r, keys d !! i = Some r ∧ live from r = true.
Proof.
  revert d from. induction h as [|[now o] h IH]; intros d from Ht Hm Hk Hl.
  - exists r'. split; [done|]. apply (live_earlier from (ORevoke i) d r' r' from until); [apply mod_same|done|done].
  - apply Forall_cons in Hm as [Hm1 Hm2]. destruct Ht as [Hnow Ht].
    destruct (IH _ _ Ht Hm2 Hk Hl) as (r1 & Hr1 & Hl1). apply key_step in Hr1 as [(row & ? & ? & Ho & Hid & _)|(r & Hr & Hmod)].
    + cbn in Ho, Hm1. subst o. cbn in Hm1. by apply bool_decide_eq_false in Hm1.
    + exists r. split; [done|]. by eapply live_earlier.
Qed.

(** C23. A key minted under a profile of its tenant keeps the profile for as long as it is live,
    whatever the administrators do meanwhile: the deletion of a profile, of all profiles of a tenant
    or of an outdated version never strips the restrictions of a live key. *)
Theorem live_key_keeps_its_profile i prof d r h from until r' :
  bound i prof d r → timed from until h → Forall (λ x, mints i x.2 = false) h →
  keys (run h d) !! i = Some r' → live until r' = true → bound i prof (run h d) r'.
Proof.
  revert d r from. induction h as [|[now o] h IH]; intros d r from Hb Ht Hm Hk Hl.
  - destruct Hb as (Hr & Hb). cbn in Hk. assert (r' = r) as -> by congruence. by split.
  - apply Forall_cons in Hm as [Hm1 Hm2]. destruct Ht as [Hnow Ht].
    destruct (present_before _ _ _ _ _ _ Ht Hm2 Hk Hl) as (r1 & Hr1 & Hl1). cbn in Hk.
    refine (IH _ r1 now _ Ht Hm2 Hk Hl). by eapply bound_step.
Qed.

(** ** Examples *)

(** The only scope of the catalogue is granted, then its deletion is tried. *)
Definition demo_catalogue_history : history :=
  [(1, OInsert demo_row true true); (2, ODeleteScope "acme" 20%N "mcp:read" 0); (3, OUpdateGrants 1%N "acme" ["mcp:admin"] [] true true)].

Lemma granted_scopes_stay_known_witness :
  catalogued "acme" (run demo_catalogue_history demo_tables) ∧
  known_scope (run demo_catalogue_history demo_tables) "acme" "mcp:read" = true.
Proof.
  split; [|vm_compute; reflexivity]. apply (granted_scopes_stay_known "acme" demo_tables demo_catalogue_history).
  - intros i r n H. vm_compute in H. discriminate H.
  - repeat constructor.
Defined.

(** The profile of a live key survives every attempt to delete it. *)
Definition demo_profile_history : history :=
  [(1, ODeleteProfile "acme" 7%N); (2, ODeleteProfileIf "acme" 7%N 0); (3, ODeleteProfiles "acme"); (4, ORename 1%N "build")].

Definition demo_renamed : ApiKeyRowRaw := with_mutable (set_name "build") (raw_of_row demo_row).

Lemma live_key_keeps_its_profile_witness : bound 1%N demo_profile (run demo_profile_history demo_db) demo_renamed.
Proof.
  apply (live_key_keeps_its_profile 1%N demo_profile demo_db (raw_of_row demo_row) demo_profile_history 0 10 demo_renamed).
  - split_and!; vm_compute; reflexivity.
  - cbn. lia.
  - repeat constructor.
  - vm_compute. reflexivity.
  - vm_compute. reflexivity.
Defined.

(** The trigger counts the keys of the profile's own tenant only: a key of another tenant bound to
    the profile is live and loses it. *)
Definition foreign_row : ApiKeyRow := {|
  id := 2%N; key_prefix := "abcdefgh"; key_hash := "argon2:x"; name := "ci"; key_sub := "svc-ci"; tenant_id := "globex";
  key_email := None; key_groups := []; key_scopes := ["mcp:read"]; created_by := "admin"; created_at := 0; last_used_at := None;
  expires_at := None; revoked_at := None; key_profile_id := Some 7%N; owner := None; reason := None; rotation_due_at := None |}.

Lemma foreign_profile_is_stripped :
  let d := run [(1, OInsert foreign_row false false); (2, ODeleteProfile "acme" 7%N)] demo_tables in
  ∃ r, keys d !! 2%N = Some r ∧ live 3 r = true ∧ rw_profile_id r = None.
Proof. eexists. split_and!; vm_compute; reflexivity. Qed.

End ApiKeyRuns.
