(* ===== verification/ApiKeyAuth.v ===== *)
(** * API keys: the header validator

    [validate_header] of validator.rs as a program that calls out: the moka cache of
    validated principals, the semaphore that bounds cold lookups, the key and profile
    tables, the blocking worker that hashes, the wall clock and the usage counters.
    [verify_secret] is the password hash's check; an answer of [Panicked] or
    [Cancelled] is what joining the worker can give. The text of an infrastructure
    error is its cause. *)

From S2P Require Import Prelude RustStr HashChain Json Facts Interact OauthStore ExecutionTypes ApiKeys ApiKeyRuns.
Local Open Scope Z_scope.

Module ApiKeyAuth.
Import HashChain(Uuid) Json.Json Facts.Facts Interact.Interact ExecutionTypes(uuid_text) ApiKeys.ApiKeys ApiKeyRuns.ApiKeyRuns.

(** ** Data *)

Record ValidatorConfig := { cache_ttl : duration; cache_capacity : N; issuer_label : string }.

Definition default_config : ValidatorConfig :=
  {| cache_ttl := 60 * nanos_per_sec; cache_capacity := 4096; issuer_label := "api-key" |}.

Definition MAX_CONCURRENT_VERIFICATIONS : nat := 4.

Record CachedEntry := { ce_principal : Principal Value; ce_expires_at : option time; ce_key_id : Uuid }.

Inductive Cause :=
  | CapacityExhausted
  | StoreFailed (e : StoreError)
  | VerificationInterrupted
  | ProfileFailed (e : ProfileStoreError)
  | HashFailed (msg : string).

(** The variants of [ValidationError] the validator returns. *)
Inductive ValidationError := Malformed | Infra (c : Cause).

Inductive Joined := Finished | Panicked | Cancelled.

(** ** Calls *)

(** The last two are not the validator's: a transaction of an administrator or of the
    usage flush, and the flush of the cache. *)
Inductive Seam :=
  | CacheGet (token : string)
  | CacheInvalidate (token : string)
  | CacheInsert (token : string) (e : CachedEntry)
  | Now
  | TouchUsage (i : Uuid)
  | TryAcquire
  | Release
  | LookupByPrefix (prefix : string)
  | JoinWorker
  | GetProfile (tenant : string) (i : Uuid)
  | Transact (o : Op)
  | InvalidateAll.

#[global] Instance seam_effect : Effect Seam := λ s,
  match s with
  | CacheGet _ => option CachedEntry
  | CacheInvalidate _ | CacheInsert _ _ | TouchUsage _ | Release | Transact _ | InvalidateAll => unit
  | Now => time
  | TryAcquire => bool
  | LookupByPrefix _ => result (list ApiKeyRow) StoreError
  | JoinWorker => Joined
  | GetProfile _ _ => result (option Profile) ProfileStoreError
  end.

Notation "'let!' x ':=' s 'in' k" := (Call s (λ x, k))
  (at level 10, x pattern, s at level 100, k at level 200) : waygate_scope.

(** ** The validator *)

Section Validator.
Context (verify_secret : string → string → result bool string) (cfg : ValidatorConfig) (profile_store : bool).

(** An empty list is checked against a dummy hash for its time only. *)
Fixpoint verify_rows (rows : list ApiKeyRow) (secret : string) : option ApiKeyRow :=
  match rows with
  | [] => None
  | row :: rows => match verify_secret secret (key_hash row) with Ok true => Some row | _ => verify_rows rows secret end
  end.

Definition entry_expired (now : time) (e : CachedEntry) : bool :=
  match ce_expires_at e with Some exp => exp <=? now | None => false end.

Definition restrictions_of (p : Profile) : ApiKeyProfileRestrictions := {|
  profile_id := uuid_text (pr_id p); profile_name := pr_name p; allowed_servers := pr_allowed_servers p;
  allowed_tools := pr_allowed_tools p |}.

Definition resolve_profile_restrictions (tenant : string) (profile : option Uuid)
  : prog Seam (result (option ApiKeyProfileRestrictions) ProfileStoreError) :=
  if negb profile_store then Ret (Ok None)
  else match profile with
       | None => Ret (Ok None)
       | Some i =>
           let! r := GetProfile tenant i in
           match r with
           | Ok (Some p) => Ret (Ok (Some (restrictions_of p)))
           | Ok None => Ret (Ok None)
           | Err e => Ret (Err e)
           end
       end.

Definition principal_of (row : ApiKeyRow) (restrictions : option ApiKeyProfileRestrictions) : Principal Value := {|
  sub := key_sub row; email := key_email row; groups := key_groups row; issuer := issuer_label cfg; scopes := key_scopes row;
  tenant := match tenant_parse (tenant_id row) with Ok t => t | Err _ => DEFAULT_TENANT end;
  auth_method := ApiKey; raw_token := None; scim := None; enrichment_blocked := None; roles := [];
  api_key_profile_restrictions := restrictions |}.

Definition entry_of (row : ApiKeyRow) (restrictions : option ApiKeyProfileRestrictions) : CachedEntry := {|
  ce_principal := principal_of row restrictions; ce_expires_at := expires_at row; ce_key_id := id row |}.

(** [None] is an unwinding panic. The permit is dropped on every way out. The caller
    waits for the answer: dropping the future half way is not modelled. *)
Definition lookup_and_verify (parsed : ParsedToken) : prog Seam (option (result (option CachedEntry) ValidationError)) :=
  let! admitted := TryAcquire in
  if negb admitted then Ret (Some (Err (Infra CapacityExhausted)))
  else
    let! looked := LookupByPrefix (pt_prefix parsed) in
    match looked with
    | Err e => let! _ := Release in Ret (Some (Err (Infra (StoreFailed e))))
    | Ok rows =>
        let! joined := JoinWorker in
        match joined with
        | Panicked => let! _ := Release in Ret None
        | Cancelled => let! _ := Release in Ret (Some (Err (Infra VerificationInterrupted)))
        | Finished =>
            match verify_rows rows (pt_secret_remainder parsed) with
            | None => let! _ := Release in Ret (Some (Ok None))
            | Some row =>
                pbind (resolve_profile_restrictions (tenant_id row) (key_profile_id row)) (λ resolved,
                  match resolved with
                  | Err e => let! _ := Release in Ret (Some (Err (Infra (ProfileFailed e))))
                  | Ok restrictions =>
                      let entry := entry_of row restrictions in
                      let! now := Now in
                      let! _ := Release in
                      Ret (Some (Ok (if negb (entry_expired now entry) then Some entry else None)))
                  end)
            end
        end
    end.

Definition bearer (header : string) : option string :=
  match strip_prefix "Bearer " header with Some t => Some t | None => strip_prefix "bearer " header end.

Definition token_error (e : TokenError) : ValidationError :=
  match e with
  | BadLiteral | BadLength _ | BadChars => Malformed
  | Hash msg => Infra (HashFailed msg)
  end.

Definition validate_header (header : string) : prog Seam (option (result (Principal Value) ValidationError)) :=
  match bearer header with
  | None => Ret (Some (Err Malformed))
  | Some token =>
      if negb (starts_with TOKEN_LITERAL token) then Ret (Some (Err Malformed))
      else
        let! cached := CacheGet token in
        match cached with
        | Some entry =>
            let! now := Now in
            if entry_expired now entry then let! _ := CacheInvalidate token in Ret (Some (Err Malformed))
            else let! _ := TouchUsage (ce_key_id entry) in Ret (Some (Ok (ce_principal entry)))
        | None =>
            match parse token with
            | Err e => Ret (Some (Err (token_error e)))
            | Ok parsed =>
                pbind (lookup_and_verify parsed) (λ r,
                  match r with
                  | None => Ret None
                  | Some (Err e) => Ret (Some (Err e))
                  | Some (Ok (Some entry)) =>
                      let! _ := TouchUsage (ce_key_id entry) in
                      let! _ := CacheInsert token entry in
                      Ret (Some (Ok (ce_principal entry)))
                  | Some (Ok None) => Ret (Some (Err Malformed))
                  end)
            end
        end
  end.

End Validator.

End ApiKeyAuth.
