(* ===== verification/ApiKeyHistory.v ===== *)
(** * API keys: concurrent validations

    Validations, administrators' transactions and cache flushes run concurrently over
    one database, one cache and one semaphore. A call of the store is served at the
    current time or fails; an entry of the cache may be evicted at any time, is gone
    [cache_ttl] after its insertion and at a flush; the other answers are free. Every
    accepted key was read live by the validation itself, or by one whose cache entry is
    younger than [cache_ttl]. *)

From S2P Require Import Prelude RustStr HashChain Json Facts Interact OauthStore ExecutionTypes ApiKeys ApiKeyRuns ApiKeyAuth.
Local Open Scope Z_scope.

Module ApiKeyHistory.
Import HashChain(Uuid) Json.Json Facts.Facts Interact.Interact OauthStore(json_to_str_vec) ExecutionTypes(uuid_text) ApiKeys.ApiKeys ApiKeys.ApiKeyDemo ApiKeyRuns.ApiKeyRuns
  ApiKeyAuth.ApiKeyAuth.

Section History.
Context (verify_secret : string → string → result bool string) (cfg : ValidatorConfig) (profile_store : bool).

Notation validate := (validate_header verify_secret cfg profile_store).
Notation entry := (entry_of cfg).

(** ** Histories *)

Inductive Request :=
  | Validate (header : string)
  | Administer (o : Op)
  | Flush.

Definition acts (r : Request) : prog Seam (option (result (Principal Value) ValidationError)) :=
  match r with
  | Validate header => validate header
  | Administer o => let! _ := Transact o in Ret None
  | Flush => let! _ := InvalidateAll in Ret None
  end.

Record World := { clock : time; db : Db; cache : gmap string (CachedEntry * time); in_use : nat }.

Definition with_cache (m : gmap string (CachedEntry * time)) (w : World) : World :=
  {| clock := clock w; db := db w; cache := m; in_use := in_use w |}.
Definition with_db (d : Db) (w : World) : World :=
  {| clock := clock w; db := d; cache := cache w; in_use := in_use w |}.
Definition with_permits (n : nat) (w : World) : World :=
  {| clock := clock w; db := db w; cache := cache w; in_use := n |}.
Definition at_clock (t : time) (w : World) : World :=
  {| clock := t; db := db w; cache := cache w; in_use := in_use w |}.

(** One call of a thread: its answer and the world after it. *)
Definition answers (w : World) (s : Seam) : answer s → World → Prop :=
  match s return answer s → World → Prop with
  | CacheGet token => λ x w', w' = w ∧
      (x = None ∨ ∃ e t, cache w !! token = Some (e, t) ∧ clock w < t + cache_ttl cfg ∧ x = Some e)
  | CacheInvalidate token => λ _ w', w' = with_cache (delete token (cache w)) w
  | CacheInsert token e => λ _ w', w' = with_cache (<[token := (e, clock w)]> (cache w)) w
  | Now => λ x w', x = clock w ∧ w' = w
  | TouchUsage _ => λ _ w', w' = w
  | TryAcquire => λ x w',
      if bool_decide (in_use w < MAX_CONCURRENT_VERIFICATIONS)%nat then x = true ∧ w' = with_permits (S (in_use w)) w else x = false ∧ w' = w
  | Release => λ _ w', w' = with_permits (pred (in_use w)) w
  | LookupByPrefix prefix => λ x w', w' = w ∧
      ((∃ e, x = Err e) ∨ ∃ rows, x = Ok rows ∧ rows ≡ₚ lookup_by_prefix (clock w) prefix (db w))
  | JoinWorker => λ _ w', w' = w
  | GetProfile t i => λ x w', w' = w ∧ ((∃ e, x = Err e) ∨ x = Ok (get_profile t i (db w)))
  | Transact o => λ _ w', w' = w ∨ w' = with_db (exec (clock w) o (db w)) w
  | InvalidateAll => λ _ w', w' = with_cache ∅ w
  end.

(** The calls of all threads in the order they were served, each with the world that served it. *)
Definition calls : Type := list (World * (nat * event Seam)).

Inductive runs_to (w : World) : calls → World → Prop :=
  | runs_nil : runs_to w [] w
  | runs_tick h w1 t : runs_to w h w1 → clock w1 <= t → runs_to w h (at_clock t w1)
  | runs_event h w1 i s x w2 : runs_to w h w1 → answers w1 s x w2 → runs_to w (h ++ [(w1, (i, Event s x))]) w2.

Definition thread (i : nat) (h : calls) : list (event Seam) := of_thread i (snd <$> h).

(** The threads of a history are these requests, finished or not. *)
Definition serves (threads : list Request) (h : calls) : Prop :=
  ∀ c, c ∈ h → ∃ r, threads !! c.2.1 = Some r ∧ partial (acts r) (thread c.2.1 h).

Lemma answers_event w (e e' : event Seam) w' : e = e' → answers w (ev_call e) (ev_answer e) w' → answers w (ev_call e') (ev_answer e') w'.
Proof. by intros ->. Qed.

(** A call is served by its world. *)
Lemma served w0 h w : runs_to w0 h w → ∀ w1 i s x, (w1, (i, Event s x)) ∈ h → ∃ w2, answers w1 s x w2.
Proof.
  induction 1 as [|h w t Hr IH Ht|h w j s' x' w' Hr IH Ha]; intros w1 i s x Hin; [by apply not_elem_of_nil in Hin|by eapply IH|].
  apply elem_of_app in Hin as [Hin|Hin]; [by eapply IH|]. apply list_elem_of_singleton in Hin.
  apply pair_equal_spec in Hin as [-> Hin]. apply pair_equal_spec in Hin as [_ Hin].
  exists w'. by apply (answers_event w _ _ w' (eq_sym Hin)).
Qed.

Lemma answers_clock w s x w' : answers w s x w' → clock w' = clock w.
Proof.
  destruct s; cbn; intros Ha; try (by destruct Ha; subst); try (by subst w'). case_bool_decide; destruct Ha; by subst.
Qed.

Lemma clock_advances w0 h w : runs_to w0 h w → clock w0 <= clock w ∧ ∀ c, c ∈ h → clock w0 <= clock c.1 <= clock w.
Proof.
  induction 1 as [|h w t Hr [IH1 IH2] Ht|h w i s x w' Hr [IH1 IH2] Ha%answers_clock].
  - split; [lia|]. intros c Hc. by apply not_elem_of_nil in Hc.
  - cbn. split; [lia|]. intros c Hc%IH2. lia.
  - rewrite Ha. split; [done|]. intros c [Hc%IH2| ->%list_elem_of_singleton]%elem_of_app; [lia|cbn; lia].
Qed.

Lemma elem_of_thread_calls i e h : e ∈ thread i h → ∃ w, (w, (i, e)) ∈ h.
Proof. unfold thread. rewrite elem_of_thread, list_elem_of_fmap. intros ([w c] & -> & H). eauto. Qed.

Lemma thread_app i h1 h2 : thread i (h1 ++ h2) = thread i h1 ++ thread i h2.
Proof. unfold thread. by rewrite fmap_app, of_thread_app. Qed.

Lemma calls_of_thread w i e h : (w, (i, e)) ∈ h → e ∈ thread i h.
Proof. intros H. apply elem_of_thread, list_elem_of_fmap. by exists (w, (i, e)). Qed.

(** ** The cache *)

(** An entry was put there by a call of the history, at the entry's time. *)
Lemma cache_inserted w0 h w : cache w0 = ∅ → runs_to w0 h w → ∀ tok e t, cache w !! tok = Some (e, t) →
  ∃ j w1, (w1, (j, Event (CacheInsert tok e) tt)) ∈ h ∧ clock w1 = t.
Proof.
  intros H0. induction 1 as [|h w t0 Hr IH Ht|h w i s x w' Hr IH Ha]; intros tok e t Hc.
  - by rewrite H0 in Hc.
  - by apply IH.
  - assert (∀ tok e t, cache w !! tok = Some (e, t) → ∃ j w1,
      (w1, (j, Event (CacheInsert tok e) tt)) ∈ h ++ [(w, (i, Event s x))] ∧ clock w1 = t) as IH'.
    { intros tok' e' t' (j & w1 & ? & ?)%IH. exists j, w1. split; [|done]. apply elem_of_app. by left. }
    destruct s; cbn in Ha; try (by destruct Ha; subst; apply IH'); try (by subst w'; apply IH').
    + subst w'. cbn in Hc. apply lookup_delete_Some in Hc as [_ Hc]. by apply IH'.
    + subst w'. cbn in Hc. apply lookup_insert_Some in Hc as [[<- [= <- <-]]|[_ Hc]]; [|by apply IH'].
      destruct x. exists i, w. split; [|done]. apply elem_of_app. right. by apply list_elem_of_singleton.
    + case_bool_decide; destruct Ha; subst; by apply IH'.
Qed.

(** ** What one validation does *)

(** The restrictions the principal gets, from the calls [t] made so far. *)
Definition resolved (t : list (event Seam)) (row : ApiKeyRow) (restr : option ApiKeyProfileRestrictions) : Prop :=
  match (if profile_store then key_profile_id row else None) with
  | None => restr = None
  | Some p => ∃ o, Event (GetProfile (tenant_id row) p) (Ok o) ∈ t ∧ restr = option_map restrictions_of o
  end.

(** The validation looked the token's key up, checked its secret, resolved its profile and found it unexpired. *)
Definition vetted (tok : string) (t : list (event Seam)) (e : CachedEntry) : Prop :=
  ∃ parsed rows row restr now, parse tok = Ok parsed ∧
    Event (LookupByPrefix (pt_prefix parsed)) (Ok rows) ∈ t ∧
    verify_rows verify_secret rows (pt_secret_remainder parsed) = Some row ∧
    resolved t row restr ∧ Event Now now ∈ t ∧ e = entry row restr ∧ entry_expired now e = false.

Ltac here := repeat (rewrite elem_of_app || rewrite elem_of_cons); tauto.

Lemma resolved_app t t' row restr : resolved t row restr → resolved (t ++ t') row restr.
Proof. unfold resolved. destruct (if profile_store then _ else _); [|done]. intros (o & Ho & ->). exists o. split; [here|done]. Qed.

Lemma vetted_app tok t t' e : vetted tok t e → vetted tok (t ++ t') e.
Proof.
  intros (parsed & rows & row & restr & now & ? & ? & ? & ? & ? & ? & ?). exists parsed, rows, row, restr, now.
  split_and!; [done|here|done|by apply resolved_app|here|done|done].
Qed.

(** What a guard asks for: an entry is inserted only when the key is vetted. *)
Definition inserts_vetted (header : string) (t : list (event Seam)) (s : Seam) : Prop :=
  match s with CacheInsert tok e => bearer header = Some tok ∧ vetted tok t e | _ => True end.

Lemma lookup_guards header parsed tok
    (f : option (result (option CachedEntry) ValidationError) → prog Seam (option (result (Principal Value) ValidationError))) h : parse tok = Ok parsed → bearer header = Some tok →
  (∀ r h', match r with Some (Ok (Some e)) => vetted tok h' e | _ => True end → guards (f r) (inserts_vetted header) h') →
  guards (pbind (lookup_and_verify verify_secret cfg profile_store parsed) f) (inserts_vetted header) h.
Proof.
  intros Hp Hb Hf. unfold lookup_and_verify. cbn [guards pbind]. split; [done|]. intros [|]; cbn [negb guards pbind]; [|by apply Hf].
  split; [done|]. intros [rows|e]; cbn [guards pbind]; [|split; [done|]; intros []; by apply Hf].
  split; [done|]. intros [| |]; cbn [guards pbind]; [|split; [done|]; intros []; by apply Hf..].
  destruct (verify_rows verify_secret rows (pt_secret_remainder parsed)) as [row|] eqn:Hv; cbn [guards pbind];
    [|split; [done|]; intros []; by apply Hf].
  assert (∀ restr h', Event (LookupByPrefix (pt_prefix parsed)) (Ok rows) ∈ h' → resolved h' row restr →
    guards (Call Now (λ now, Call Release (λ _, f (Some (Ok (if negb (entry_expired now (entry row restr)) then Some (entry row restr)
      else None)))))) (inserts_vetted header) h') as Hlast.
  { intros restr h' Hl Hres. cbn [guards]. split; [done|]. intros now. split; [done|]. intros []. apply Hf.
    destruct (entry_expired now (entry row restr)) eqn:He; cbn [negb]; [done|]. exists parsed, rows, row, restr, now.
    split_and!; [done|here|done|by do 2 apply resolved_app|here|done|done]. }
  unfold resolve_profile_restrictions, resolved in *. destruct profile_store; cbn [negb pbind]; [|apply Hlast; [here|done]].
  destruct (key_profile_id row) as [p|]; cbn [pbind]; [|apply Hlast; [here|done]].
  cbn [guards]. split; [done|]. intros [[o|]|e]; cbn [pbind].
  - apply Hlast; [here|]. exists (Some o). split; [here|done].
  - apply Hlast; [here|]. exists None. split; [here|done].
  - cbn [guards pbind]. split; [done|]. intros []. by apply Hf.
Qed.

Lemma validate_guards header : guards (validate header) (inserts_vetted header) [].
Proof.
  unfold validate_header. destruct (bearer header) as [tok|] eqn:Hb; [|done]. destruct (negb _); [done|]. cbn [guards].
  split; [done|]. intros [e|].
  - cbn [guards]. split; [done|]. intros now. destruct (entry_expired now e); cbn [guards]; split; try done.
  - destruct (parse tok) as [parsed|] eqn:Hp; [|done]. apply (lookup_guards _ _ tok); [done..|].
    intros [[[e|]|]|] h' Hv; cbn [guards]; try done. split; [done|]. intros []. split; [|done]. split; [done|]. by apply vetted_app.
Qed.

(** How a principal is accepted: from the cache, or after vetting. *)
Definition accepts (header : string) (t : list (event Seam)) (p : Principal Value) : Prop :=
  ∃ tok e, bearer header = Some tok ∧ p = ce_principal e ∧
    ((Event (CacheGet tok) (Some e) ∈ t ∧ ∃ now, Event Now now ∈ t ∧ entry_expired now e = false) ∨ vetted tok t e).

Lemma lookup_wp parsed tok h : parse tok = Ok parsed →
  wp (lookup_and_verify verify_secret cfg profile_store parsed) (λ t r, ∀ e, r = Some (Ok (Some e)) → vetted tok (h ++ t) e).
Proof.
  intros Hp. unfold lookup_and_verify. cbn [wp]. intros [|]; cbn [negb wp]; [|done].
  intros [rows|e]; cbn [wp]; [|done]. intros [| |]; cbn [wp]; [|done..].
  destruct (verify_rows verify_secret rows (pt_secret_remainder parsed)) as [row|] eqn:Hv; cbn [wp]; [|done]. apply wp_bind.
  assert (∀ restr (t1 t2 : list (event Seam)), t2 = h ++ Event TryAcquire true :: Event (LookupByPrefix (pt_prefix parsed)) (Ok rows)
      :: Event JoinWorker Finished :: t1 → resolved t2 row restr →
    ∀ now e, (if negb (entry_expired now (entry row restr)) then Some (entry row restr) else None) = Some e →
    vetted tok (t2 ++ [Event Now now; Event Release tt]) e) as Hlast.
  { intros restr t1 t2 -> Hres now e. destruct (entry_expired now (entry row restr)) eqn:He; cbn [negb]; [done|]. intros [= <-].
    exists parsed, rows, row, restr, now. split_and!; [done|here|done|by apply resolved_app|here|done|done]. }
  assert (∀ restr (t1 : list (event Seam)), resolved (h ++ Event TryAcquire true :: Event (LookupByPrefix (pt_prefix parsed)) (Ok rows)
      :: Event JoinWorker Finished :: t1) row restr →
    wp (Call Now (λ now, Call Release (λ _, Ret (Some (Ok (if negb (entry_expired now (entry row restr)) then Some (entry row restr) else None))
      : option (result (option CachedEntry) ValidationError)))))
    (λ t2 r, ∀ e, r = Some (Ok (Some e)) → vetted tok (h ++ Event TryAcquire true ::
      Event (LookupByPrefix (pt_prefix parsed)) (Ok rows) :: Event JoinWorker Finished :: t1 ++ t2) e)) as Hwp.
  { intros restr t1 Hres. cbn [wp]. intros now [] e Hr. injection Hr as Hr.
    specialize (Hlast restr t1 _ eq_refl Hres now e Hr). by rewrite <- app_assoc in Hlast. }
  unfold resolve_profile_restrictions, resolved in *. destruct profile_store; cbn [negb wp app]; [|by apply (Hwp None [])].
  destruct (key_profile_id row) as [p|]; cbn [wp app]; [|by apply (Hwp None [])].
  intros [[o|]|e]; cbn [wp app]; [| |done].
  - apply (Hwp _ [Event (GetProfile (tenant_id row) p) (Ok (Some o))]). exists (Some o). split; [here|done].
  - apply (Hwp _ [Event (GetProfile (tenant_id row) p) (Ok None)]). exists None. split; [here|done].
Qed.

Lemma validate_wp header : wp (validate header) (λ t r, ∀ p, r = Some (Ok p) → accepts header t p).
Proof.
  unfold validate_header. destruct (bearer header) as [tok|] eqn:Hb; [|done]. destruct (negb _); [done|]. cbn [wp]. intros [e|].
  - cbn [wp]. intros now. destruct (entry_expired now e) eqn:He; cbn [wp]; intros [] p [=]. exists tok, e.
    split_and!; [done..|]. left. split; [here|]. exists now. split; [here|done].
  - destruct (parse tok) as [parsed|] eqn:Hp; [|done]. apply wp_bind.
    eapply wp_mono; [|exact (lookup_wp parsed tok [Event (CacheGet tok) None] Hp)].
    intros t r Hr. destruct r as [[[e|]|]|]; cbn [wp]; try done. intros [] [] p [= <-]. exists tok, e. split_and!; [done..|].
    right. specialize (Hr e eq_refl). rewrite app_comm_cons. by apply vetted_app.
Qed.

(** ** Where an accepted principal comes from *)

(** Thread [j] read the live key [raw] of the token, checked its secret and resolved its profile. *)
Definition genuine (h : calls) (j : nat) (tok : string) (e : CachedEntry) (k : Uuid) (w : World) : Prop :=
  ∃ parsed rows raw restr, parse tok = Ok parsed ∧
    (w, (j, Event (LookupByPrefix (pt_prefix parsed)) (Ok rows))) ∈ h ∧
    keys (db w) !! k = Some raw ∧ rw_key_prefix raw = pt_prefix parsed ∧ live (clock w) raw = true ∧
    verify_secret (pt_secret_remainder parsed) (rw_key_hash raw) = Ok true ∧ e = entry (row_of_raw raw) restr ∧
    match (if profile_store then rw_profile_id raw else None) with
    | None => restr = None
    | Some p => ∃ c, c ∈ h ∧ c.2.1 = j ∧ restr = option_map restrictions_of (get_profile (rw_tenant_id raw) p (db c.1))
    end.

Lemma verify_rows_Some rows secret row : verify_rows verify_secret rows secret = Some row →
  row ∈ rows ∧ verify_secret secret (key_hash row) = Ok true.
Proof.
  induction rows as [|r rows IH]; cbn; [done|]. destruct (verify_secret secret (key_hash r)) as [[]|] eqn:Hv;
    [intros [= <-]; split; [left|done]|intros [? ?]%IH; split; [by right|done]..].
Qed.

Lemma vetted_genuine w0 h w j tok e : runs_to w0 h w → vetted tok (thread j h) e → ∃ k w1, genuine h j tok e k w1.
Proof.
  intros Hr (parsed & rows & row & restr & now & Hp & Hl & Hv & Hres & _ & -> & _).
  apply elem_of_thread_calls in Hl as (w1 & Hl). destruct (served _ _ _ Hr _ _ _ _ Hl) as (w2 & _ & [(? & [=])|(rows' & [= <-] & Hperm)]).
  apply verify_rows_Some in Hv as [Hin Hv]. rewrite Hperm in Hin. apply list_elem_of_fmap in Hin as (raw & -> & Hin).
  apply list_elem_of_filter in Hin as [[Hpre Hlive] Hin]. apply list_elem_of_fmap in Hin as ([k raw'] & -> & Hk%elem_of_map_to_list).
  exists k, w1, parsed, rows, raw', restr. split_and!; try done. revert Hres. unfold resolved. cbn.
  destruct (if profile_store then _ else _) as [p|]; [|done]. intros (o & Ho & ->).
  apply elem_of_thread_calls in Ho as (w3 & Ho). destruct (served _ _ _ Hr _ _ _ _ Ho) as (w4 & _ & [(? & [=])|[= ->]]).
  by exists (w3, (j, Event (GetProfile (rw_tenant_id raw') p) (Ok (get_profile (rw_tenant_id raw') p (db w3))))).
Qed.

Lemma reached w0 h w : runs_to w0 h w → ∀ c, c ∈ h → ∃ h1 h2, h = h1 ++ c :: h2 ∧ runs_to w0 h1 c.1.
Proof.
  induction 1 as [|h w t Hr IH Ht|h w i s x w' Hr IH Ha]; intros c Hc; [by apply not_elem_of_nil in Hc|by apply IH|].
  apply elem_of_app in Hc as [(h1 & h2 & -> & ?)%IH| ->%list_elem_of_singleton].
  - exists h1, (h2 ++ [(w, (i, Event s x))]). by rewrite <- app_assoc.
  - by exists h, [].
Qed.

(** Only a vetted key is put into the cache. *)
Lemma insert_vetted threads h w j tok e : serves threads h → (w, (j, Event (CacheInsert tok e) tt)) ∈ h → vetted tok (thread j h) e.
Proof.
  intros Hs Hin. destruct (Hs _ Hin) as (r & _ & Hp). cbn in Hp. apply calls_of_thread in Hin.
  apply list_elem_of_split in Hin as (t & b & Ht). rewrite Ht in *. destruct r as [header|o|].
  - destruct (guards_sound _ _ [] t _ _ b (validate_guards header) Hp) as [_ Hv]. by apply vetted_app.
  - cbn in Hp. destruct t as [|e' t]; cbn in Hp; apply partial_call_inv in Hp as (x & Hx & Hp).
    + apply (f_equal ev_call) in Hx. discriminate Hx.
    + apply partial_ret_inv in Hp. by destruct t.
  - cbn in Hp. destruct t as [|e' t]; cbn in Hp; apply partial_call_inv in Hp as (x & Hx & Hp).
    + apply (f_equal ev_call) in Hx. discriminate Hx.
    + apply partial_ret_inv in Hp. by destruct t.
Qed.

(** The validation [i] answers for thread [j]: itself, or through an entry [j] cached less than [cache_ttl] before. *)
Definition fresh (h : calls) (i j : nat) (tok : string) (e : CachedEntry) : Prop :=
  j = i ∨ ∃ w1 w2, (w1, (j, Event (CacheInsert tok e) tt)) ∈ h ∧ (w2, (i, Event (CacheGet tok) (Some e))) ∈ h ∧
    clock w1 <= clock w2 < clock w1 + cache_ttl cfg.

Lemma entry_unexpired now e : entry_expired now e = false → ∀ exp, ce_expires_at e = Some exp → now < exp.
Proof. unfold entry_expired. intros H exp He. rewrite He in H. apply Z.leb_gt in H. lia. Qed.

Lemma accepted w0 h w threads i header p : cache w0 = ∅ → runs_to w0 h w → serves threads h →
  runs (validate header) (thread i h) (Some (Ok p)) →
  ∃ tok e j k w1, bearer header = Some tok ∧ p = ce_principal e ∧ genuine h j tok e k w1 ∧ fresh h i j tok e ∧
    ∃ now, Event Now now ∈ thread i h ∧ ∀ exp, ce_expires_at e = Some exp → now < exp.
Proof.
  intros H0 Hr Hs Hruns. pose proof (validate_wp header) as Hwp. rewrite wp_runs in Hwp.
  destruct (Hwp _ _ Hruns p eq_refl) as (tok & e & Hb & Hp & [[Hget Hnow]|Hv]).
  - apply elem_of_thread_calls in Hget as (w2 & Hget). destruct (served _ _ _ Hr _ _ _ _ Hget) as (_ & _ & [[=]|(e' & t & Hc & Ht & [= <-])]).
    destruct (reached _ _ _ Hr _ Hget) as (h1 & h2 & Hh & Hr1). cbn in Hr1.
    destruct (cache_inserted _ _ _ H0 Hr1 _ _ _ Hc) as (j & w1 & Hin & <-).
    assert ((w1, (j, Event (CacheInsert tok e) tt)) ∈ h) as Hin' by (rewrite Hh; apply elem_of_app; by left).
    destruct (vetted_genuine _ _ _ _ _ _ Hr (insert_vetted _ _ _ _ _ _ Hs Hin')) as (k & w3 & Hg).
    exists tok, e, j, k, w3. split_and!; [done..| |destruct Hnow as (now & ? & ?); eauto using entry_unexpired]. right. exists w1, w2. split_and!; [done..| |done].
    apply clock_advances in Hr1 as [_ Hr1]. specialize (Hr1 _ Hin). cbn in Hr1. lia.
  - destruct (vetted_genuine _ _ _ _ _ _ Hr Hv) as (k & w1 & Hg). exists tok, e, i, k, w1. split_and!; [done..|by left|].
    destruct Hv as (? & ? & ? & ? & now & _ & _ & _ & _ & Hnow & _ & He). eauto using entry_unexpired.
Qed.

(** The principal carries the identity and the grants of the row. *)
Definition speaks_for (raw : ApiKeyRowRaw) (p : Principal Value) : Prop :=
  sub p = rw_sub raw ∧ email p = rw_email raw ∧ scopes p = json_to_str_vec (rw_scopes raw) ∧ groups p = json_to_str_vec (rw_groups raw) ∧
  tenant p = match tenant_parse (rw_tenant_id raw) with Ok t => t | Err _ => DEFAULT_TENANT end ∧
  issuer p = issuer_label cfg ∧ auth_method p = ApiKey ∧ roles p = [] ∧ scim p = None.

(** The principal carries the restrictions of the profile the row is bound to, as the profile table had
    it when thread [j] read it; none if the row is bound to none, if no profile store is wired, or if
    the table had no such profile. *)
Definition restricted_by (h : calls) (j : nat) (raw : ApiKeyRowRaw) (p : Principal Value) : Prop :=
  match rw_profile_id raw with
  | None => api_key_profile_restrictions p = None
  | Some q =>
      if profile_store then
        ∃ c, c ∈ h ∧ c.2.1 = j ∧
          match get_profile (rw_tenant_id raw) q (db c.1) with
          | Some o => ∃ r, api_key_profile_restrictions p = Some r ∧ profile_id r = uuid_text (pr_id o) ∧ profile_name r = pr_name o ∧
                      allowed_servers r = pr_allowed_servers o ∧ allowed_tools r = pr_allowed_tools o
          | None => api_key_profile_restrictions p = None
          end
      else api_key_profile_restrictions p = None
  end.

Lemma genuine_row h j tok e k w : genuine h j tok e k w → ∃ parsed rows raw, parse tok = Ok parsed ∧
  (w, (j, Event (LookupByPrefix (pt_prefix parsed)) (Ok rows))) ∈ h ∧ keys (db w) !! k = Some raw ∧
  rw_key_prefix raw = pt_prefix parsed ∧ rw_revoked_at raw = None ∧ (∀ exp, rw_expires_at raw = Some exp → clock w < exp) ∧
  verify_secret (pt_secret_remainder parsed) (rw_key_hash raw) = Ok true ∧ ce_expires_at e = rw_expires_at raw ∧
  speaks_for raw (ce_principal e) ∧ restricted_by h j raw (ce_principal e).
Proof.
  intros (parsed & rows & raw & restr & Hp & Hl & Hk & Hpre & Hlive & Hv & -> & Hr). exists parsed, rows, raw.
  unfold live in Hlive. apply andb_true_iff in Hlive as [Hrev Hexp]. apply bool_decide_eq_true in Hrev.
  split_and!; try done.
  - intros exp He. rewrite He in Hexp. by apply Z.ltb_lt in Hexp.
  - unfold restricted_by. destruct (rw_profile_id raw) as [q|]; [|by destruct profile_store; subst restr].
    destruct profile_store; [|by subst restr]. destruct Hr as (c & Hc & Hj & ->). exists c. do 2 (split; [done|]).
    destruct (get_profile _ _ _) as [o|]; [|done]. by eexists.
Qed.

(** C6. A principal is accepted only for a key that was live when it was read: unrevoked, before its expiry,
    of the presented prefix, with a stored hash that accepts the presented secret. The read is the request's
    own or of a validation that cached it less than [cache_ttl] before, and the row's expiry is still ahead
    when the request is answered. The principal has the row's subject, email, scopes, groups and tenant, and
    the restrictions of the profile the row is bound to as the profile table had it; it has none when the
    row is bound to none, when no profile store is wired, or when the table had no such profile. A failing
    profile read never yields a principal. *)
Theorem accepted_key_is_genuine w0 h w threads i header p :
  cache w0 = ∅ → runs_to w0 h w → serves threads h → runs (validate header) (thread i h) (Some (Ok p)) →
  ∃ tok parsed j k w1 rows raw e now, bearer header = Some tok ∧ parse tok = Ok parsed ∧
    (w1, (j, Event (LookupByPrefix (pt_prefix parsed)) (Ok rows))) ∈ h ∧ keys (db w1) !! k = Some raw ∧
    rw_key_prefix raw = pt_prefix parsed ∧ rw_revoked_at raw = None ∧ (∀ exp, rw_expires_at raw = Some exp → clock w1 < exp) ∧
    verify_secret (pt_secret_remainder parsed) (rw_key_hash raw) = Ok true ∧
    p = ce_principal e ∧ fresh h i j tok e ∧
    Event Now now ∈ thread i h ∧ (∀ exp, rw_expires_at raw = Some exp → now < exp) ∧
    speaks_for raw p ∧ restricted_by h j raw p.
Proof.
  intros H0 Hr Hs Hv. destruct (accepted _ _ _ _ _ _ _ H0 Hr Hs Hv) as (tok & e & j & k & w1 & Hb & -> & Hg & Hf & now & Hnow & Hexp).
  apply genuine_row in Hg as (parsed & rows & raw & ? & ? & ? & ? & ? & ? & ? & He & ? & ?). rewrite He in Hexp.
  exists tok, parsed, j, k, w1, rows, raw, e, now. split_and!; done.
Qed.

(** ** Revocation *)

Definition dead (k : Uuid) (d : Db) : Prop := ∀ raw, keys d !! k = Some raw → unrevoked raw = false.

Definition minted_by (k : Uuid) (s : Seam) : bool := match s with Transact o => mints k o | _ => false end.

Lemma dead_exec k now o d : dead k d → mints k o = false → dead k (exec now o d).
Proof.
  intros Hd Hm raw Hk. apply key_step in Hk as [(row & ? & ? & -> & <- & _)|(r & Hr & Hmod)].
  - cbn in Hm. by apply bool_decide_eq_false in Hm.
  - destruct (unrevoked raw) eqn:Hu; [|done]. apply (modified_unrevoked _ _ _ _ _ Hmod) in Hu. by rewrite (Hd _ Hr) in Hu.
Qed.

Lemma dead_stays k w0 h w : runs_to w0 h w → (∀ c, c ∈ h → minted_by k (ev_call c.2.2) = false) → dead k (db w0) → dead k (db w).
Proof.
  induction 1 as [|h w t Hr IH Ht|h w i s x w' Hr IH Ha]; intros Hm Hd; [done|by apply IH|].
  assert (dead k (db w)) as Hw by (apply IH; [intros c Hc; apply Hm, elem_of_app; by left|done]).
  assert (minted_by k s = false) as Hs.
  { apply (Hm (w, (i, Event s x))), elem_of_app. right. by apply list_elem_of_singleton. }
  destruct s; cbn in Ha; try (by destruct Ha; subst); try (by subst w').
  - case_bool_decide; destruct Ha; by subst.
  - destruct Ha as [->| ->]; [done|]. by apply dead_exec.
Qed.

(** At the cut no validation is between its lookup and its end. *)
Definition quiet (h1 h2 : calls) : Prop :=
  ∀ j pre x, Event (LookupByPrefix pre) x ∈ thread j h1 → thread j h2 = [].

Lemma lookup_after_cut w0 h1 wr h2 w i j tok e k w1 : runs_to w0 h1 wr → runs_to wr h2 w → quiet h1 h2 → thread i h1 = [] →
  (∀ c, c ∈ h2 → c.2.1 = i → clock wr + cache_ttl cfg <= clock c.1) →
  genuine (h1 ++ h2) j tok e k w1 → fresh (h1 ++ h2) i j tok e → ∃ c, c ∈ h2 ∧ c.1 = w1.
Proof.
  intros Hr1 Hr2 Hq Hi Hlate (parsed & rows & raw & restr & _ & Hl & _) Hf. apply elem_of_app in Hl as [Hl|Hl]; [|eauto].
  exfalso. apply calls_of_thread in Hl as Hl'. pose proof (Hq _ _ _ Hl') as Hj. destruct Hf as [->|(wi & wg & Hin & Hget & [_ Hlt])].
  - rewrite Hi in Hl'. by apply not_elem_of_nil in Hl'.
  - apply elem_of_app in Hin as [Hin|Hin]; [|apply calls_of_thread in Hin; rewrite Hj in Hin; by apply not_elem_of_nil in Hin].
    apply elem_of_app in Hget as [Hget|Hget]; [apply calls_of_thread in Hget; rewrite Hi in Hget; by apply not_elem_of_nil in Hget|].
    apply clock_advances in Hr1 as [_ Hr1]. specialize (Hr1 _ Hin). specialize (Hlate _ Hget eq_refl). cbn in *. lia.
Qed.

Lemma runs_trans w0 h1 w1 h2 w2 : runs_to w0 h1 w1 → runs_to w1 h2 w2 → runs_to w0 (h1 ++ h2) w2.
Proof. intros H1. induction 1; [by rewrite app_nil_r|by apply runs_tick|]. rewrite app_assoc. by eapply runs_event. Qed.

Definition quietb (h1 h2 : calls) : bool :=
  forallb (λ c, match ev_call c.2.2 with
                | LookupByPrefix _ => match thread c.2.1 h2 with [] => true | _ => false end
                | _ => true
                end) h1.

Lemma quietb_quiet h1 h2 : quietb h1 h2 = true → quiet h1 h2.
Proof.
  unfold quietb. rewrite forallb_forall. intros H j pre x Hin. apply elem_of_thread_calls in Hin as (w & Hin).
  specialize (H _ (proj1 (list_elem_of_In _ _) Hin)). cbn in H. by destruct (thread j h2).
Qed.

(** C17. A revoked or deleted key stops working [cache_ttl] after the revocation: when no validation is in
    flight at the revocation, a request that starts at least [cache_ttl] later is accepted only for
    another key, one that is live. *)
Theorem revoked_key_is_refused w0 h1 wr h2 w threads i header p k :
  cache w0 = ∅ → runs_to w0 h1 wr → runs_to wr h2 w → serves threads (h1 ++ h2) →
  dead k (db wr) → (∀ c, c ∈ h2 → minted_by k (ev_call c.2.2) = false) → quiet h1 h2 → thread i h1 = [] →
  (∀ c, c ∈ h2 → c.2.1 = i → clock wr + cache_ttl cfg <= clock c.1) →
  runs (validate header) (thread i (h1 ++ h2)) (Some (Ok p)) →
  ∃ tok e j k' w1, bearer header = Some tok ∧ p = ce_principal e ∧ genuine (h1 ++ h2) j tok e k' w1 ∧ k' ≠ k.
Proof.
  intros H0 Hr1 Hr2 Hs Hd Hm Hq Hi Hlate Hruns.
  destruct (accepted _ _ _ _ _ _ _ H0 (runs_trans _ _ _ _ _ Hr1 Hr2) Hs Hruns) as (tok & e & j & k' & w1 & Hb & Hp & Hg & Hf & _).
  exists tok, e, j, k', w1. split_and!; [done..|]. intros ->.
  destruct (lookup_after_cut _ _ _ _ _ _ _ _ _ _ _ Hr1 Hr2 Hq Hi Hlate Hg Hf) as (c & Hc & <-).
  destruct (reached _ _ _ Hr2 _ Hc) as (g1 & g2 & -> & Hg1).
  assert (dead k (db c.1)) as Hdead by (eapply dead_stays; [done|intros c' Hc'; apply Hm, elem_of_app; by left|done]).
  destruct Hg as (_ & _ & raw & _ & _ & _ & Hk & _ & Hlive & _). apply Hdead in Hk. unfold live in Hlive. apply andb_prop in Hlive as [Hu _].
  unfold unrevoked in Hk. congruence.
Qed.

(** ** A world that works *)

(** The answers when nothing fails and nothing is evicted. *)
Definition serve (s : Seam) (w : World) : answer s * World :=
  match s return answer s * World with
  | CacheGet token =>
      (match cache w !! token with Some (e, t) => if clock w <? t + cache_ttl cfg then Some e else None | None => None end, w)
  | CacheInvalidate token => (tt, with_cache (delete token (cache w)) w)
  | CacheInsert token e => (tt, with_cache (<[token := (e, clock w)]> (cache w)) w)
  | Now => (clock w, w)
  | TouchUsage _ => (tt, w)
  | TryAcquire =>
      if bool_decide (in_use w < MAX_CONCURRENT_VERIFICATIONS)%nat then (true, with_permits (S (in_use w)) w) else (false, w)
  | Release => (tt, with_permits (pred (in_use w)) w)
  | LookupByPrefix prefix => (Ok (lookup_by_prefix (clock w) prefix (db w)), w)
  | JoinWorker => (Finished, w)
  | GetProfile t i => (Ok (get_profile t i (db w)), w)
  | Transact o => (tt, with_db (exec (clock w) o (db w)) w)
  | InvalidateAll => (tt, with_cache ∅ w)
  end.

Lemma serve_answers s w : answers w s (serve s w).1 (serve s w).2.
Proof.
  destruct s; cbn; try done.
  - split; [done|]. destruct (cache w !! token) as [[e t]|]; [|by left]. destruct (Z.ltb_spec (clock w) (t + cache_ttl cfg)); [|by left].
    right. eauto.
  - case_bool_decide; done.
  - split; [done|]. right. eauto.
  - split; [done|]. by right.
  - by right.
Qed.

(** Threads scheduled call by call, with the clock set in between. *)
Inductive Move := Tick (t : time) | Go (i : nat).

Fixpoint play (l : list Move) (ps : list (prog Seam (option (result (Principal Value) ValidationError)))) (w : World)
  : calls * list (prog Seam (option (result (Principal Value) ValidationError))) * World :=
  match l with
  | [] => ([], ps, w)
  | Tick t :: l => play l ps (at_clock (Z.max t (clock w)) w)
  | Go i :: l =>
      match ps !! i with
      | Some (Call s k) =>
          let '(x, w') := serve s w in
          let '(h, ps', w'') := play l (<[i := k x]> ps) w' in
          ((w, (i, Event s x)) :: h, ps', w'')
      | _ => play l ps w
      end
  end.

Lemma play_runs l ps w : runs_to w (play l ps w).1.1 (play l ps w).2.
Proof.
  revert ps w. induction l as [|[t|i] l IH]; intros ps w; cbn [play].
  - constructor.
  - apply (runs_trans w [] (at_clock (Z.max t (clock w)) w)); [|apply IH]. apply (runs_tick w [] w); [constructor|lia].
  - destruct (ps !! i) as [[a|s k]|]; [apply IH| |apply IH].
    pose proof (serve_answers s w) as Ha. destruct (serve s w) as [x w']. specialize (IH (<[i := k x]> ps) w').
    destruct (play l _ w') as [[h ps'] w'']. cbn in *.
    apply (runs_trans w [(w, (i, Event s x))] w'); [|done]. apply (runs_event w [] w); [constructor|done].
Qed.

Lemma play_app l1 l2 ps w : play (l1 ++ l2) ps w =
  let '(h1, ps1, w1) := play l1 ps w in let '(h2, ps2, w2) := play l2 ps1 w1 in (h1 ++ h2, ps2, w2).
Proof.
  revert ps w. induction l1 as [|[t|i] l1 IH]; intros ps w; cbn [play app].
  - by destruct (play l2 ps w) as [[? ?] ?].
  - apply IH.
  - destruct (ps !! i) as [[a|s k]|]; [apply IH| |apply IH]. destruct (serve s w) as [x w']. rewrite IH.
    destruct (play l1 _ w') as [[h1 ps1] w1]. by destruct (play l2 ps1 w1) as [[h2 ps2] w2].
Qed.

(** What is left of each thread's program. *)
Lemma play_reaches l ps w i p : ps !! i = Some p →
  ∃ p', (play l ps w).1.2 !! i = Some p' ∧ reaches p (thread i (play l ps w).1.1) p'.
Proof.
  revert ps w p. induction l as [|[t|j] l IH]; intros ps w p Hp; cbn [play].
  - exists p. split; [done|constructor].
  - by apply IH.
  - destruct (ps !! j) as [[a|s k]|] eqn:Hj; [by apply IH| |by apply IH]. destruct (serve s w) as [x w'].
    destruct (decide (j = i)) as [->|Hji].
    + assert (p = Call s k) as -> by congruence. destruct (IH (<[i := k x]> ps) w' (k x)) as (p' & Hp' & Hr).
      { apply list_lookup_insert_eq. by apply lookup_lt_is_Some; eauto. }
      destruct (play l _ w') as [[h ps'] w'']. cbn in *. exists p'. split; [done|]. unfold thread in *. cbn. rewrite Nat.eqb_refl.
      by constructor.
    + destruct (IH (<[j := k x]> ps) w' p) as (p' & Hp' & Hr); [by rewrite list_lookup_insert_ne|].
      destruct (play l _ w') as [[h ps'] w'']. cbn in *. exists p'. split; [done|]. unfold thread in *. cbn.
      by rewrite (proj2 (Nat.eqb_neq i j)) by done.
Qed.

Lemma play_threads l ps w c : c ∈ (play l ps w).1.1 → is_Some (ps !! c.2.1).
Proof.
  revert ps w. induction l as [|[t|j] l IH]; intros ps w; cbn [play]; [intros H; by apply not_elem_of_nil in H|apply IH|].
  destruct (ps !! j) as [[a|s k]|] eqn:Hj; [apply IH| |apply IH]. destruct (serve s w) as [x w'].
  specialize (IH (<[j := k x]> ps) w'). destruct (play l _ w') as [[h ps'] w'']. cbn in *.
  intros [->|Hc]%elem_of_cons; cbn; [eauto|]. apply IH in Hc. apply lookup_lt_is_Some. apply lookup_lt_is_Some in Hc.
  by rewrite length_insert in Hc.
Qed.

Lemma play_serves l threads w : serves threads (play l (acts <$> threads) w).1.1.
Proof.
  intros c Hc. apply play_threads in Hc as [p Hp]. rewrite list_lookup_fmap in Hp. destruct (threads !! c.2.1) as [r|] eqn:Hr; [|done].
  exists r. split; [done|]. destruct (play_reaches l (acts <$> threads) w c.2.1 (acts r)) as (p' & _ & H);
    [by rewrite list_lookup_fmap, Hr|]. by eapply reaches_partial.
Qed.

Lemma play_result l threads w i header r : threads !! i = Some (Validate header) →
  (play l (acts <$> threads) w).1.2 !! i = Some (Ret r) → runs (validate header) (thread i (play l (acts <$> threads) w).1.1) r.
Proof.
  intros Hi Hr. destruct (play_reaches l (acts <$> threads) w i (validate header)) as (p' & Hp' & H); [by rewrite list_lookup_fmap, Hi|].
  rewrite Hr in Hp'. injection Hp' as <-. by apply reaches_ret.
Qed.

End History.

(** ** Examples *)

Definition demo_world : World := {| clock := 1; db := demo_db; cache := ∅; in_use := 0 |}.

Definition demo_principal : Principal Value := principal_of default_config (row_of_raw (raw_of_row demo_row)) (Some (restrictions_of demo_profile)).

(** The first request goes to the tables, the second is answered from the cache. *)
Definition two_requests : list Request := [Validate demo_header; Validate demo_header].
Definition cold (i : nat) : list Move := replicate 9 (Go i).
Definition warm (i : nat) : list Move := replicate 3 (Go i).

Notation demo_acts := (acts demo_verify default_config true).
Notation demo_play := (play default_config).

Lemma accepted_key_is_genuine_witness :
  let h := (demo_play (cold 0 ++ warm 1) (demo_acts <$> two_requests) demo_world).1.1 in
  ∃ tok parsed j k w1 rows (raw : ApiKeyRowRaw) e now, bearer demo_header = Some tok ∧ parse tok = Ok parsed ∧
    (w1, (j, Event (LookupByPrefix (pt_prefix parsed)) (Ok rows))) ∈ h ∧ keys (db w1) !! k = Some raw ∧
    rw_key_prefix raw = pt_prefix parsed ∧ rw_revoked_at raw = None ∧ (∀ exp, rw_expires_at raw = Some exp → clock w1 < exp) ∧
    demo_verify (pt_secret_remainder parsed) (rw_key_hash raw) = Ok true ∧
    demo_principal = ce_principal e ∧ fresh default_config h 1 j tok e ∧
    Event Now now ∈ thread 1 h ∧ (∀ exp, rw_expires_at raw = Some exp → now < exp) ∧
    speaks_for default_config raw demo_principal ∧ restricted_by true h j raw demo_principal.
Proof.
  intros h. eapply (accepted_key_is_genuine demo_verify default_config true demo_world h _ two_requests).
  - reflexivity.
  - apply play_runs.
  - apply play_serves.
  - apply play_result; [reflexivity|]. vm_compute. reflexivity.
Defined.

(** The key is validated, revoked, and presented again after the cache's time to live; another key of the
    same tenant, minted meanwhile, is accepted. *)
Definition other_row : ApiKeyRow := {|
  id := 2%N; key_prefix := "ijklmnop"; key_hash := "argon2:" +:+ demo_remainder; name := "ci"; key_sub := "svc-ci";
  tenant_id := "acme"; key_email := None; key_groups := []; key_scopes := ["mcp:read"]; created_by := "admin"; created_at := 0;
  last_used_at := None; expires_at := None; revoked_at := None; key_profile_id := None; owner := None; reason := None;
  rotation_due_at := None |}.
Definition other_header : string := "Bearer mcpgw_ijklmnop" +:+ demo_remainder.

Definition revocation : list Request :=
  [Validate demo_header; Administer (ORevoke 1%N); Validate demo_header; Administer (OInsert other_row false false); Validate other_header].

Definition before_cut : calls * list (prog Seam (option (result (Principal Value) ValidationError))) * World :=
  demo_play (cold 0 ++ [Tick 2; Go 1]) (demo_acts <$> revocation) demo_world.
Definition after_cut : calls * list (prog Seam (option (result (Principal Value) ValidationError))) * World :=
  demo_play ([Tick (3 + 60 * nanos_per_sec)] ++ cold 2 ++ [Go 3] ++ cold 4) before_cut.1.2 before_cut.2.

Lemma whole_run : before_cut.1.1 ++ after_cut.1.1 =
  (demo_play ((cold 0 ++ [Tick 2; Go 1]) ++ [Tick (3 + 60 * nanos_per_sec)] ++ cold 2 ++ [Go 3] ++ cold 4) (demo_acts <$> revocation)
    demo_world).1.1.
Proof.
  rewrite (play_app default_config (cold 0 ++ [Tick 2; Go 1])). fold before_cut. unfold after_cut.
  destruct before_cut as [[h1 ps1] w1]. cbn [fst snd]. by destruct (demo_play _ ps1 w1) as [[h2 ps2] w2].
Qed.

Lemma revoked_key_is_refused_witness :
  ∃ tok e j k' w1, bearer other_header = Some tok ∧
    principal_of default_config (row_of_raw (raw_of_row other_row)) None = ce_principal e ∧
    genuine demo_verify default_config true (before_cut.1.1 ++ after_cut.1.1) j tok e k' w1 ∧ k' ≠ 1%N.
Proof.
  refine (revoked_key_is_refused demo_verify default_config true demo_world before_cut.1.1 before_cut.2 after_cut.1.1 after_cut.2
    revocation 4 other_header _ 1%N _ _ _ _ _ _ _ _ _ _).
  - reflexivity.
  - apply play_runs.
  - apply play_runs.
  - rewrite whole_run. apply play_serves.
  - intros raw H. vm_compute in H. injection H as <-. reflexivity.
  - intros c Hc. assert (forallb (λ c, negb (minted_by 1%N (ev_call c.2.2))) after_cut.1.1 = true) as Hf by (vm_compute; reflexivity).
    rewrite forallb_forall in Hf. specialize (Hf c (proj1 (list_elem_of_In _ _) Hc)). by apply negb_true_iff.
  - apply quietb_quiet. vm_compute. reflexivity.
  - vm_compute. reflexivity.
  - intros c Hc Hi. assert (forallb (λ c, clock before_cut.2 + cache_ttl default_config <=? clock c.1) after_cut.1.1 = true) as Hf
      by (vm_compute; reflexivity).
    rewrite forallb_forall in Hf. specialize (Hf c (proj1 (list_elem_of_In _ _) Hc)). by apply Z.leb_le.
  - rewrite whole_run. apply play_result; [reflexivity|]. vm_compute. reflexivity.
Defined.

(** A validation that read the key before its revocation caches it afterwards: at 100 seconds the key is put
    into the cache, and at 159 seconds it is still accepted, more than two minutes after it was revoked. *)
Definition race : list Request := [Validate demo_header; Administer (ORevoke 1%N); Validate demo_header].
Definition race_moves : list Move :=
  replicate 3 (Go 0) ++ [Tick 2; Go 1; Tick (100 * nanos_per_sec)] ++ replicate 6 (Go 0) ++ [Tick (159 * nanos_per_sec)] ++ warm 2.

Lemma inflight_validation_outlives_revocation :
  (demo_play race_moves (demo_acts <$> race) demo_world).1.2 !! 2%nat = Some (Ret (Some (Ok demo_principal))) ∧
  dead 1%N (db (demo_play race_moves (demo_acts <$> race) demo_world).2).
Proof.
  split; [vm_compute; reflexivity|]. intros raw H. vm_compute in H. injection H as <-. reflexivity.
Qed.

(** The key is revoked and its profile deleted while a validation is between the two reads: the principal
    is accepted and cached without restrictions, after the flush that follows the deletion. *)
Definition lost_profile : list Request :=
  [Validate demo_header; Administer (ORevoke 1%N); Administer (ODeleteProfile "acme" 7%N); Flush; Validate demo_header].
Definition lost_profile_moves : list Move := replicate 4 (Go 0) ++ [Go 1; Go 2; Go 3] ++ replicate 5 (Go 0) ++ warm 4.

Lemma inflight_validation_loses_restrictions :
  ∃ p, (demo_play lost_profile_moves (demo_acts <$> lost_profile) demo_world).1.2 !! 4%nat = Some (Ret (Some (Ok p))) ∧
    rw_profile_id (raw_of_row demo_row) = Some 7%N ∧ api_key_profile_restrictions p = None.
Proof. eexists. split_and!; vm_compute; reflexivity. Qed.

End ApiKeyHistory.
