(* ===== verification/ApiKeyUsage.v ===== *)
(** * API keys: usage accounting

    Requests are counted in memory per key and hour and written by flush tasks
    (validator.rs). A request, a task that wakes and a write that ends are the steps;
    they interleave freely. No request is lost or counted twice before its write, and
    a key and hour has one writer at most. *)

From S2P Require Import Prelude RustStr HashChain OauthStore ApiKeys.
Local Open Scope Z_scope.

Module ApiKeyUsage.
Import HashChain(Uuid) OauthStore(timestamptz) ApiKeys.ApiKeys ApiKeys.ApiKeyDemo.

(** ** The map *)

Record UsageDelta := { ud_count : Z; ud_last_used_at : time }.

Notation Bucket := (Uuid * time)%type.

Definition accrue_usage (pending : gmap Bucket UsageDelta) (key : Bucket) (now : time) : bool * gmap Bucket UsageDelta :=
  match pending !! key with
  | Some delta =>
      (false, <[key := {| ud_count := ud_count delta + 1; ud_last_used_at := Z.max (ud_last_used_at delta) now |}]> pending)
  | None => (true, <[key := {| ud_count := 1; ud_last_used_at := now |}]> pending)
  end.

Definition take_for_flush (pending : gmap Bucket UsageDelta) (key : Bucket) : option (Z * time) * gmap Bucket UsageDelta :=
  match pending !! key with
  | None => (None, pending)
  | Some delta =>
      if ud_count delta =? 0 then (None, delete key pending)
      else (Some (ud_count delta, ud_last_used_at delta),
            <[key := {| ud_count := 0; ud_last_used_at := ud_last_used_at delta |}]> pending)
  end.

(** ** The flush tasks *)

Inductive Phase := Sleeping | Writing (count : Z) (last_used_at : time).

(** A write that ended: what it carried, and whether it succeeded. *)
Record Write := { wr_key : Bucket; wr_count : Z; wr_last_used_at : time; wr_ok : bool }.

Record State := { pending : gmap Bucket UsageDelta; tasks : gmap nat (Bucket * Phase); writes : list Write; tables : Db }.

Inductive Act :=
  | Touch (i : Uuid) (now : time) (task : nat)
  | Wake (task : nat)
  | EndWrite (task : nat) (ok : bool).

(** [task] names the task the call would start. *)
Definition spawn_touch_usage (i : Uuid) (now : time) (task : nat) (s : State) : State :=
  let key := (i, hour_bucket now) in
  let '(first, m) := accrue_usage (pending s) key now in
  {| pending := m; tasks := if first then <[task := (key, Sleeping)]> (tasks s) else tasks s; writes := writes s; tables := tables s |}.

(** The loop of a task: after the sleep it takes what has accrued, or ends. *)
Definition wake (task : nat) (s : State) : State :=
  match tasks s !! task with
  | Some (key, Sleeping) =>
      let '(taken, m) := take_for_flush (pending s) key in
      {| pending := m; writes := writes s; tables := tables s;
         tasks := match taken with
                  | None => delete task (tasks s)
                  | Some (count, last) => <[task := (key, Writing count last)]> (tasks s)
                  end |}
  | _ => s
  end.

(** [add_usage] returns; a failed write drops its counts, and the task sleeps again. *)
Definition end_write (task : nat) (ok : bool) (s : State) : State :=
  match tasks s !! task with
  | Some (key, Writing count last) =>
      {| pending := pending s; tasks := <[task := (key, Sleeping)]> (tasks s);
         writes := writes s ++ [{| wr_key := key; wr_count := count; wr_last_used_at := last; wr_ok := ok |}];
         tables := if ok then add_usage key.1 key.2 count last (tables s) else tables s |}
  | _ => s
  end.

Definition act (a : Act) (s : State) : State :=
  match a with
  | Touch i now task => spawn_touch_usage i now task s
  | Wake task => wake task s
  | EndWrite task ok => end_write task ok s
  end.

Fixpoint run (h : list Act) (s : State) : State := match h with [] => s | a :: h => run h (act a s) end.

(** A new task has a name of its own. *)
Definition fresh_task (s : State) (a : Act) : Prop := match a with Touch _ _ task => tasks s !! task = None | _ => True end.

Fixpoint well_named (s : State) (h : list Act) : Prop :=
  match h with [] => True | a :: h => fresh_task s a ∧ well_named (act a s) h end.

(** ** Accounting *)

Definition counts_for (key : Bucket) (a : Act) : bool :=
  match a with Touch i now _ => bool_decide ((i, hour_bucket now) = key) | _ => false end.

Fixpoint touches (key : Bucket) (h : list Act) : Z :=
  match h with [] => 0 | a :: h => (if counts_for key a then 1 else 0) + touches key h end.

Definition sum_of (f : Write → bool) (l : list Write) : Z := foldr (λ x n, (if f x then wr_count x else 0) + n) 0 l.

Definition written (key : Bucket) (l : list Write) : Z := sum_of (λ x, bool_decide (wr_key x = key)) l.

(** What the successful writes stored in a row of the usage table. *)
Definition stored (row : Bucket) (l : list Write) : Z :=
  sum_of (λ x, wr_ok x && bool_decide (((wr_key x).1, timestamptz (wr_key x).2) = row)) l.

Definition row_count (row : Bucket) (d : Db) : Z := match usage d !! row with Some u => us_request_count u | None => 0 end.

Definition in_flight (p : Phase) : Z := match p with Sleeping => 0 | Writing count _ => count end.

(** [n] requests of the key are accounted for: all written, or the rest with its one task. *)
Definition accounted (key : Bucket) (n : Z) (s : State) : Prop :=
  (pending s !! key = None ∧ (∀ t p, tasks s !! t ≠ Some (key, p)) ∧ n = written key (writes s)) ∨
  (∃ delta t p, pending s !! key = Some delta ∧ 0 <= ud_count delta ∧ tasks s !! t = Some (key, p) ∧
     (∀ t' p', tasks s !! t' = Some (key, p') → t' = t) ∧
     n = written key (writes s) + in_flight p + ud_count delta).

Lemma sum_of_app f l1 l2 : sum_of f (l1 ++ l2) = sum_of f l1 + sum_of f l2.
Proof. unfold sum_of. induction l1 as [|x l1 IH]; cbn; [done|]. rewrite IH. lia. Qed.

(** What does not touch the key's entry, its task and its writes. *)
Lemma accounted_frame key n s s' : pending s' !! key = pending s !! key → written key (writes s') = written key (writes s) →
  (∀ t p, tasks s' !! t = Some (key, p) ↔ tasks s !! t = Some (key, p)) → accounted key n s → accounted key n s'.
Proof.
  intros Hp Hw Ht [(H1 & H2 & ->)|(delta & t & p & H1 & H2 & H3 & H4 & ->)]; [left|right; exists delta, t, p]; rewrite Hp, Hw; split_and!; try done.
  - intros t p H%Ht. by eapply H2.
  - by apply Ht.
  - intros t' p' H%Ht. by eapply H4.
Qed.

Lemma other_task (m : gmap nat (Bucket * Phase)) k key t x t' p :
  (∀ p, m !! t ≠ Some (key, p)) → k ≠ key → <[t := (k, x)]> m !! t' = Some (key, p) ↔ m !! t' = Some (key, p).
Proof.
  intros Hm Hk. rewrite lookup_insert_Some. split; [intros [[_ [=]]|[_ ?]]; done|]. intros H. right. split; [|done].
  intros ->. by apply Hm in H.
Qed.

Lemma touch_accounted key n s i now task : accounted key n s → tasks s !! task = None →
  accounted key (n + if bool_decide ((i, hour_bucket now) = key) then 1 else 0) (spawn_touch_usage i now task s).
Proof.
  intros Ha Hf. unfold spawn_touch_usage, accrue_usage. destruct (decide ((i, hour_bucket now) = key)) as [<-|Hne].
  - rewrite bool_decide_true by done. destruct Ha as [(Hp & Ht & ->)|(delta & t & p & Hp & H0 & Ht & Hu & ->)]; rewrite Hp; right.
    + eexists _, task, Sleeping. split_and!; [cbn [pending tasks]; by rewrite lookup_insert_eq|cbn; lia|cbn [pending tasks]; by rewrite lookup_insert_eq| |cbn [writes in_flight ud_count]; lia].
      intros t' p'; cbn [tasks]; intros [[<- _]|[_ H]]%lookup_insert_Some; [done|]. by apply Ht in H.
    + eexists _, t, p. split_and!; [cbn [pending tasks]; by rewrite lookup_insert_eq|cbn; lia|done|done|cbn [writes ud_count]; lia].
  - rewrite bool_decide_false, Z.add_0_r by done. destruct (pending s !! (i, hour_bucket now));
      (apply (accounted_frame key n s); [cbn [pending tasks]; by rewrite lookup_insert_ne|done|intros t p; cbn [tasks]; try done|done]).
    apply other_task; [|done]. intros p'. by rewrite Hf.
Qed.

Lemma wake_accounted key n s task : accounted key n s → accounted key n (wake task s).
Proof.
  intros Ha. unfold wake. destruct (tasks s !! task) as [[k [|]]|] eqn:Hk; [|done..]. unfold take_for_flush.
  destruct (decide (k = key)) as [->|Hne].
  - destruct Ha as [(Hp & Ht & ->)|(delta & t & p & Hp & H0 & Ht & Hu & ->)]; [by apply Ht in Hk|].
    pose proof (Hu _ _ Hk) as ->. rewrite Ht in Hk. injection Hk as ->. rewrite Hp. destruct (Z.eqb_spec (ud_count delta) 0) as [Hz|Hz].
    + left. cbn [pending tasks writes in_flight]. split_and!; [by rewrite lookup_delete_eq| |cbn; lia].
      intros t' p' [Hn H]%lookup_delete_Some. apply Hu in H. done.
    + right. eexists _, t, _. split_and!; [cbn [pending tasks]; by rewrite lookup_insert_eq|cbn; lia|cbn [pending tasks]; by rewrite lookup_insert_eq| |
        cbn [writes in_flight ud_count]; lia].
      intros t' p'; cbn [tasks]; intros [[<- _]|[_ H]]%lookup_insert_Some; [done|]. by eapply Hu.
  - assert (∀ p, tasks s !! task ≠ Some (key, p)) as Hn by (intros p; rewrite Hk; congruence).
    destruct (pending s !! k) as [delta'|]; [destruct (ud_count delta' =? 0)|];
      (apply (accounted_frame key n s); [cbn [pending tasks]; by rewrite ?lookup_delete_ne, ?lookup_insert_ne|done|intros t p; cbn [tasks]; try by apply other_task|done]);
      rewrite lookup_delete_Some; split; [by intros [_ ?]| |by intros [_ ?]|]; intros H; (split; [|done]); intros ->; by apply Hn in H.
Qed.

Lemma end_write_accounted key n s task ok : accounted key n s → accounted key n (end_write task ok s).
Proof.
  intros Ha. unfold end_write. destruct (tasks s !! task) as [[k [|count last]]|] eqn:Hk; [done| |done].
  destruct (decide (k = key)) as [->|Hne].
  - destruct Ha as [(Hp & Ht & ->)|(delta & t & p & Hp & H0 & Ht & Hu & ->)]; [by apply Ht in Hk|].
    pose proof (Hu _ _ Hk) as ->. rewrite Ht in Hk. injection Hk as ->. right. exists delta, t, Sleeping.
    split_and!; [done|done|cbn [pending tasks]; by rewrite lookup_insert_eq| |].
    + intros t' p'; cbn [tasks]; intros [[<- _]|[_ H]]%lookup_insert_Some; [done|]. by eapply Hu.
    + cbn [writes in_flight]. unfold written. rewrite sum_of_app. unfold sum_of at 3. cbn [foldr wr_key wr_count].
      rewrite bool_decide_true by done. lia.
  - apply (accounted_frame key n s); [done| | |done].
    + cbn [writes]. unfold written. rewrite sum_of_app. unfold sum_of at 2. cbn [foldr wr_key]. rewrite bool_decide_false by done. lia.
    + intros t p. cbn. apply other_task; [|done]. intros p'. rewrite Hk. congruence.
Qed.

(** ** The usage table *)

Lemma update_keeps_keys i f d k : is_Some (keys d !! k) → is_Some (keys (update_key i (λ _, true) f d).2 !! k).
Proof.
  unfold update_key. destruct (keys d !! i); [|done]. cbn. intros H. destruct (decide (i = k)) as [->|]; [by rewrite lookup_insert_eq|].
  by rewrite lookup_insert_ne.
Qed.

Lemma update_keeps_usage i p f d : usage (update_key i p f d).2 = usage d.
Proof. unfold update_key. destruct (keys d !! i); [|done]. by destruct (p _). Qed.

Lemma add_usage_keeps_keys i b c t d k : is_Some (keys d !! k) → is_Some (keys (add_usage i b c t d) !! k).
Proof. intros H. unfold add_usage. destruct (keys _ !! i); cbn [keys with_usage]; by apply update_keeps_keys. Qed.

Lemma add_usage_count i b c t d (row : Bucket) : is_Some (keys d !! row.1) →
  row_count row (add_usage i b c t d) = row_count row d + if bool_decide ((i, timestamptz b) = row) then c else 0.
Proof.
  intros Hk. unfold add_usage. set (d1 := (update_key _ _ _ d).2).
  assert (row_count row d1 = row_count row d) as Hr by (unfold row_count, d1; by rewrite update_keeps_usage).
  destruct (keys d1 !! i) as [r|] eqn:Hi.
  - unfold row_count in *. cbn [usage with_usage]. destruct (decide ((i, timestamptz b) = row)) as [<-|Hne].
    + rewrite lookup_insert_eq, bool_decide_true by done. destruct (usage d1 !! _); cbn; lia.
    + rewrite lookup_insert_ne, bool_decide_false by done. lia.
  - rewrite bool_decide_false; [lia|]. intros <-. cbn in Hk. apply (update_keeps_keys i (set_last_used (timestamptz t))) in Hk.
    unfold d1 in Hi. rewrite Hi in Hk. by destruct Hk.
Qed.

(** What the table holds for the keys that exist. *)
Definition tallied (d0 : Db) (s : State) : Prop :=
  ∀ row : Bucket, is_Some (keys d0 !! row.1) →
    is_Some (keys (tables s) !! row.1) ∧ row_count row (tables s) = row_count row d0 + stored row (writes s).

Lemma act_tallied d0 a s : tallied d0 s → tallied d0 (act a s).
Proof.
  intros H row Hk. specialize (H row Hk). destruct a as [i now task|task|task ok]; cbn [act].
  - unfold spawn_touch_usage, accrue_usage. by destruct (pending s !! _).
  - unfold wake. destruct (tasks s !! task) as [[k []]|]; [|done..]. destruct (take_for_flush _ _). done.
  - unfold end_write. destruct (tasks s !! task) as [[k [|count last]]|]; [done| |done]. cbn [tables writes]. destruct H as [H1 H2].
    unfold stored. rewrite sum_of_app. unfold sum_of at 2. cbn [foldr wr_ok wr_key wr_count]. fold (stored row (writes s)).
    destruct ok; cbn [andb]; [|split; [done|lia]]. split; [by apply add_usage_keeps_keys|]. rewrite add_usage_count by done. lia.
Qed.

Lemma act_accounted key n a s : accounted key n s → fresh_task s a →
  accounted key (n + if counts_for key a then 1 else 0) (act a s).
Proof.
  intros Ha Hf. destruct a as [i now task|task|task ok]; cbn [act counts_for]; rewrite ?Z.add_0_r.
  - by apply touch_accounted.
  - by apply wake_accounted.
  - by apply end_write_accounted.
Qed.

Lemma run_accounted key h n s : accounted key n s → well_named s h → accounted key (n + touches key h) (run h s).
Proof.
  revert n s. induction h as [|a h IH]; intros n s Ha; cbn; [by rewrite Z.add_0_r|]. intros [Hf Hh]. rewrite Z.add_assoc.
  apply IH; [by apply act_accounted|done].
Qed.

Lemma run_tallied d0 h s : tallied d0 s → tallied d0 (run h s).
Proof. revert s. induction h as [|a h IH]; intros s; cbn; [done|]. intros H. by apply IH, act_tallied. Qed.

Definition idle (d : Db) : State := {| pending := ∅; tasks := ∅; writes := []; tables := d |}.

(** However requests, wake-ups and writes interleave, every request of a key and hour is in exactly
    one place: in a finished write, in the write in flight or still pending, and the pending entry has exactly
    one flush task. The usage table holds what the successful writes carried, for every key that exists. *)
Theorem usage_is_conserved key h d : well_named (idle d) h →
  accounted key (touches key h) (run h (idle d)) ∧ tallied d (run h (idle d)).
Proof.
  intros Hh. split.
  - apply (run_accounted key h 0); [|done]. left. split_and!; [done| |done]. intros t p H. done.
  - apply run_tallied. intros row Hk. split; [done|]. cbn. lia.
Qed.

(** ** Examples *)

(** Three requests in one hour and one in the next; a failed write, and a write still in flight. *)
Definition demo_acts : list Act :=
  [Touch 1%N 10 0; Touch 1%N 20 1; Wake 0; Touch 1%N 30 1; Touch 1%N (nanos_per_hour + 5) 2; EndWrite 0 true; Wake 0; EndWrite 0 false;
   Wake 2].

Lemma usage_is_conserved_witness :
  (accounted (1%N, 0) 3 (run demo_acts (idle demo_db)) ∧ tallied demo_db (run demo_acts (idle demo_db))) ∧
  row_count (1%N, 0) (tables (run demo_acts (idle demo_db))) = 2.
Proof.
  split; [|vm_compute; reflexivity].
  apply (usage_is_conserved (1%N, 0) demo_acts demo_db). cbn. repeat split.
Defined.

(** Two hours of one key have two writers: the write of the older hour may end last, and
    [last_used_at] goes back to it. *)
Lemma last_used_at_goes_back :
  ∃ r : ApiKeyRowRaw, keys (tables (run
    [Touch 1%N (nanos_per_hour - 1000) 0; Touch 1%N (nanos_per_hour + 1000) 1; Wake 0; Wake 1; EndWrite 1 true; EndWrite 0 true]
    (idle demo_db))) !! 1%N = Some r ∧ rw_last_used_at r = Some (nanos_per_hour - 1000).
Proof. eexists. split; vm_compute; reflexivity. Qed.

End ApiKeyUsage.
