(* ===== verification/ApiKeyMint.v ===== *)
(** * API keys: from mint to acceptance

    What the mint hands out is parsed back into the prefix and secret it stored, and
    the validator accepts it as long as the key is live and its stores answer. *)

From S2P Require Import Prelude RustStr HashChain Json Facts Interact OauthStore ApiKeys ApiKeyRuns ApiKeyAuth ApiKeyHistory.
Local Open Scope Z_scope.

Module ApiKeyMint.
Import HashChain(Uuid) Json.Json Facts.Facts Interact.Interact ApiKeys.ApiKeys ApiKeys.ApiKeyDemo ApiKeyRuns.ApiKeyRuns
  ApiKeyAuth.ApiKeyAuth ApiKeyHistory.ApiKeyHistory.

(** ** Tokens *)

(** What [URL_SAFE_NO_PAD] gives for 32 bytes. *)
Definition encoded (secret : string) : Prop := length (as_bytes secret) = SECRET_LEN ∧ is_base64url secret = true.

Lemma parse_display secret : encoded secret →
  parse (TOKEN_LITERAL +:+ secret) =
    Ok {| pt_prefix := (split_at KEY_PREFIX_LEN secret).1; pt_secret_remainder := (split_at KEY_PREFIX_LEN secret).2 |}.
Proof.
  intros [Hl Hc]. unfold parse. rewrite (proj2 (strip_prefix_Some _ _ secret) eq_refl). rewrite Hl, Nat.eqb_refl. cbn [negb].
  by rewrite Hc.
Qed.

(** The parts of a token are the token. *)
Lemma parse_exact token p : parse token = Ok p → token = TOKEN_LITERAL +:+ pt_prefix p +:+ pt_secret_remainder p ∧
  length (as_bytes (pt_prefix p)) = KEY_PREFIX_LEN ∧ length (as_bytes (pt_secret_remainder p)) = (SECRET_LEN - KEY_PREFIX_LEN)%nat.
Proof.
  unfold parse. destruct (strip_prefix TOKEN_LITERAL token) as [rest|] eqn:Hs; [|done]. apply strip_prefix_Some in Hs as ->.
  destruct (Nat.eqb_spec (length (as_bytes rest)) SECRET_LEN) as [Hl|]; cbn [negb]; [|done]. destruct (is_base64url rest); cbn [negb]; [|done].
  intros [= <-]. cbn [pt_prefix pt_secret_remainder]. split_and!.
  - f_equal. apply as_bytes_inj. rewrite as_bytes_app, !as_of_bytes. by rewrite take_drop.
  - rewrite as_of_bytes, length_take, Hl. done.
  - rewrite as_of_bytes, length_drop, Hl. done.
Qed.

(** ** Acceptance *)

Section Accept.
Context (verify_secret : string → string → result bool string) (hash_secret : string → result string string) (cfg : ValidatorConfig).

(** argon2id: a hash verifies against the secret it was made from. *)
Hypothesis verify_hash : ∀ s h, hash_secret s = Ok h → verify_secret s h = Ok true.

(** The key's row as the mint handler inserts it. *)
Definition carries (row : ApiKeyRow) (m : MintedKey) : Prop := key_prefix row = mk_key_prefix m ∧ key_hash row = mk_key_hash m.

(** The validator's answer in a world whose stores answer. *)
Definition validated (header : string) (w : World) : option (result (Principal Value) ValidationError) * World :=
  let '(a, _, w') := interp (serve cfg) (validate_header verify_secret cfg true header) w in (a, w').

(** The restrictions of the profile the key is bound to. *)
Definition bound_restrictions (row : ApiKeyRow) (d : Db) : option ApiKeyProfileRestrictions :=
  match key_profile_id row with Some i => option_map restrictions_of (get_profile (tenant_id row) i d) | None => None end.

Lemma verify_rows_unique rows secret row : row ∈ rows → verify_secret secret (key_hash row) = Ok true →
  (∀ r, r ∈ rows → verify_secret secret (key_hash r) = Ok true → r = row) → verify_rows verify_secret rows secret = Some row.
Proof.
  intros Hin Hv Hu. induction rows as [|r rows IH]; [by apply not_elem_of_nil in Hin|]. cbn.
  destruct (verify_secret secret (key_hash r)) as [[]|] eqn:Hr; [f_equal; apply Hu; [left|done]| |];
    (apply IH; [|intros r' Hr'; apply Hu; by right]; apply elem_of_cons in Hin as [->|]; [congruence|done]).
Qed.

(** The key that is found is [row], when it is the one live key the secret opens. *)
Definition opens_only (w : World) (prefix secret : string) (i : Uuid) (row : ApiKeyRowRaw) : Prop :=
  keys (db w) !! i = Some row ∧ rw_key_prefix row = prefix ∧ live (clock w) row = true ∧ verify_secret secret (rw_key_hash row) = Ok true ∧
  ∀ j r, keys (db w) !! j = Some r → rw_key_prefix r = prefix → live (clock w) r = true → verify_secret secret (rw_key_hash r) = Ok true → j = i.

Lemma lookup_finds w prefix secret i row : opens_only w prefix secret i row →
  verify_rows verify_secret (lookup_by_prefix (clock w) prefix (db w)) secret = Some (row_of_raw row).
Proof.
  intros (Hk & Hp & Hl & Hv & Hu). apply verify_rows_unique; [|done|].
  - apply list_elem_of_fmap. exists row. split; [done|]. apply list_elem_of_filter. split; [done|]. apply list_elem_of_fmap.
    exists (i, row). by rewrite elem_of_map_to_list.
  - intros r Hr Hvr. apply list_elem_of_fmap in Hr as (raw & -> & [[Hp' Hl'] Hr]%list_elem_of_filter).
    apply list_elem_of_fmap in Hr as ([j raw'] & -> & Hr%elem_of_map_to_list). cbn in *. pose proof (Hu _ _ Hr Hp' Hl' Hvr) as ->. congruence.
Qed.

Lemma live_unexpired t (r : ApiKeyRowRaw) restr : live t r = true → entry_expired t (entry_of cfg (row_of_raw r) restr) = false.
Proof.
  intros [_ Hl]%andb_prop. unfold entry_expired, entry_of, row_of_raw. cbn. destruct (rw_expires_at r) as [x|]; [|done].
  apply Z.ltb_lt in Hl. apply Z.leb_gt. lia.
Qed.

Lemma interp_bind {A B} (p : prog Seam A) (f : A → prog Seam B) w :
  interp (serve cfg) (pbind p f) w =
    let '(a, t1, w1) := interp (serve cfg) p w in let '(b, t2, w2) := interp (serve cfg) (f a) w1 in (b, t1 ++ t2, w2).
Proof.
  revert w. induction p as [a|s k IH]; intros w; cbn [pbind interp].
  - by destruct (interp _ (f a) w) as [[b t] w2].
  - destruct (serve cfg s w) as [x w']. rewrite IH. destruct (interp _ (k x) w') as [[a t1] w1].
    by destruct (interp _ (f a) w1) as [[b t2] w2].
Qed.

Lemma resolve_serves row w : ∃ t, interp (serve cfg) (resolve_profile_restrictions true (tenant_id row) (key_profile_id row)) w =
  (Ok (bound_restrictions row (db w)), t, w).
Proof.
  unfold resolve_profile_restrictions, bound_restrictions. cbn [negb]. destruct (key_profile_id row) as [i|]; [|by eexists].
  cbn [interp serve]. destruct (get_profile (tenant_id row) i (db w)); cbn [interp option_map]; by eexists.
Qed.

Lemma cold_lookup w parsed i row : (in_use w < MAX_CONCURRENT_VERIFICATIONS)%nat →
  opens_only w (pt_prefix parsed) (pt_secret_remainder parsed) i row →
  ∃ t, interp (serve cfg) (lookup_and_verify verify_secret cfg true parsed) w =
    (Some (Ok (Some (entry_of cfg (row_of_raw row) (bound_restrictions (row_of_raw row) (db w))))), t, w).
Proof.
  intros Hu Ho. unfold lookup_and_verify. cbn [interp serve]. rewrite bool_decide_true by done. cbn [negb interp serve].
  rewrite (lookup_finds w _ _ i row) by done. rewrite interp_bind.
  destruct (resolve_serves (row_of_raw row) (with_permits (S (in_use w)) w)) as [t ->]. cbn [interp serve].
  rewrite live_unexpired by apply Ho. cbn [negb]. eexists. f_equal. by destruct w.
Qed.

Lemma validate_cold header tok parsed w i row : bearer header = Some tok → parse tok = Ok parsed → cache w !! tok = None →
  (in_use w < MAX_CONCURRENT_VERIFICATIONS)%nat → opens_only w (pt_prefix parsed) (pt_secret_remainder parsed) i row →
  let e := entry_of cfg (row_of_raw row) (bound_restrictions (row_of_raw row) (db w)) in
  validated header w = (Some (Ok (ce_principal e)), with_cache (<[tok := (e, clock w)]> (cache w)) w).
Proof.
  intros Hb Hp Hc Hu Ho e. unfold validated, validate_header. rewrite Hb.
  assert (starts_with TOKEN_LITERAL tok = true) as Hs.
  { apply parse_exact in Hp as [-> _]. apply bool_decide_eq_true. eexists. by apply strip_prefix_Some. }
  rewrite Hs. cbn [negb interp serve]. rewrite Hc, Hp, interp_bind. destruct (cold_lookup w parsed i row Hu Ho) as [t ->]. done.
Qed.

(** An inserted row is the only one under its id. *)
Lemma inserted_key row es eg d d' : insert_catalog_checked row es eg d = (Ok tt, d') →
  keys d' = <[id row := raw_of_row row]> (keys d) ∧ keys d !! id row = None.
Proof.
  unfold insert_catalog_checked. destruct (lock_and_validate_catalog _ _ _ _ _ d); [|done]. destruct (keys d !! id row); [done|].
  destruct (match key_profile_id row with Some _ => _ | None => _ end); [|done]. by intros [= <-].
Qed.

(** C30. A freshly minted key works: when the minted prefix and hash are inserted, the key is live and no
    other live key opens with the same secret, then the validator, with a free permit and stores that answer,
    accepts the token shown at the mint, for the key's own identity and its profile's restrictions, and caches it. *)
Theorem minted_key_is_accepted secret m row es eg d d' w :
  encoded secret → mint secret hash_secret = Ok m → carries row m →
  insert_catalog_checked row es eg d = (Ok tt, d') → db w = d' → live (clock w) (raw_of_row row) = true →
  cache w !! mk_display m = None → (in_use w < MAX_CONCURRENT_VERIFICATIONS)%nat →
  (∀ j r, keys d !! j = Some r → rw_key_prefix r = mk_key_prefix m → live (clock w) r = true →
     verify_secret (split_at KEY_PREFIX_LEN secret).2 (rw_key_hash r) ≠ Ok true) →
  let stored := row_of_raw (raw_of_row row) in
  let e := entry_of cfg stored (bound_restrictions stored (db w)) in
  validated ("Bearer " +:+ mk_display m) w = (Some (Ok (ce_principal e)), with_cache (<[mk_display m := (e, clock w)]> (cache w)) w).
Proof.
  intros He Hm [Hp Hh] Hins Hdb Hl Hc Hu Hother. unfold mint in Hm. destruct (split_at KEY_PREFIX_LEN secret) as [pre rem] eqn:Hsplit.
  destruct (hash_secret rem) as [h|] eqn:Hhash; [|done]. injection Hm as <-. cbn in Hp, Hh, Hc, Hother |- *.
  pose proof (parse_display secret He) as Hparse. rewrite Hsplit in Hparse. cbn in Hparse.
  apply inserted_key in Hins as [Hkeys Hnew].
  eapply (validate_cold _ _ _ w (id row)); [|exact Hparse|done|done|].
  - unfold bearer. by rewrite (proj2 (strip_prefix_Some "Bearer " _ (TOKEN_LITERAL +:+ secret)) eq_refl).
  - cbn. unfold opens_only. rewrite Hdb, Hkeys. split_and!; [apply lookup_insert_eq|done|done|cbn; rewrite Hh; by apply verify_hash|].
    intros j r [[<- _]|[_ Hj]]%lookup_insert_Some Hjp Hjl Hjv; [done|]. by destruct (Hother j r Hj Hjp Hjl).
Qed.

End Accept.

Definition demo_minted : MintedKey :=
  {| mk_display := demo_token; mk_key_prefix := "abcdefgh"; mk_key_hash := "argon2:" +:+ demo_remainder |}.

Lemma demo_verify_hash s h : demo_hash s = Ok h → demo_verify s h = Ok true.
Proof.
  intros [= <-]. unfold demo_verify. rewrite (proj2 (strip_prefix_Some "argon2:" _ s) eq_refl). by rewrite bool_decide_true.
Qed.

Lemma minted_key_is_accepted_witness :
  (validated demo_verify default_config demo_header demo_world).1 = Some (Ok demo_principal).
Proof.
  assert (demo_header = "Bearer " +:+ mk_display demo_minted) as -> by reflexivity.
  rewrite (minted_key_is_accepted demo_verify demo_hash default_config demo_verify_hash demo_secret demo_minted demo_row true true demo_tables
    demo_db demo_world).
  - vm_compute. reflexivity.
  - split; vm_compute; reflexivity.
  - vm_compute. reflexivity.
  - split; vm_compute; reflexivity.
  - vm_compute. reflexivity.
  - reflexivity.
  - vm_compute. reflexivity.
  - vm_compute. reflexivity.
  - apply (bool_decide_unpack _). vm_compute. exact I.
  - intros j r H. vm_compute in H. discriminate H.
Defined.

End ApiKeyMint.
