(* ===== verification/ApiKeyCapacity.v ===== *)
(** * API keys: bounded cold work

    A validation that misses the cache takes one of [MAX_CONCURRENT_VERIFICATIONS]
    permits before it touches a table or a worker and returns it on every way out, an
    error or a panic included, so no more validations than that work at a time. *)

From S2P Require Import Prelude RustStr HashChain Json Facts Interact ApiKeys ApiKeyRuns ApiKeyAuth ApiKeyHistory.
Local Open Scope Z_scope.

Module ApiKeyCapacity.
Import HashChain(Uuid) Json.Json Facts.Facts Interact.Interact ApiKeys.ApiKeys ApiKeys.ApiKeyDemo ApiKeyRuns.ApiKeyRuns
  ApiKeyAuth.ApiKeyAuth ApiKeyHistory.ApiKeyHistory.

(** ** Permits of a thread *)

(** What a call does to the thread's permits. *)
Definition taken (e : event Seam) : Z :=
  match ev_call e as s return answer s → Z with
  | TryAcquire => λ x, if (x : bool) then 1 else 0
  | Release => λ _, -1
  | _ => λ _, 0
  end (ev_answer e).

Fixpoint held (t : list (event Seam)) : Z := match t with [] => 0 | e :: t => taken e + held t end.

(** Calls that need a permit. *)
Definition cold_call (s : Seam) : bool :=
  match s with LookupByPrefix _ | JoinWorker | GetProfile _ _ => true | _ => false end.

(** A permit is acquired with none in hand, released and worked with when there is one. *)
Definition permitted (n : Z) (s : Seam) : Prop :=
  match s with
  | TryAcquire => n = 0
  | Release => n = 1
  | _ => cold_call s = true → n = 1
  end.

(** Every call of the program is permitted, and it ends with no permit; [n] is in hand. *)
Fixpoint balanced {A} (n : Z) (p : prog Seam A) : Prop :=
  match p with
  | Ret _ => n = 0
  | Call s k => permitted n s ∧ ∀ x, balanced (n + taken (Event s x)) (k x)
  end.

Lemma balanced_bind {A B} (p : prog Seam A) (f : A → prog Seam B) n : balanced n p → (∀ a, balanced 0 (f a)) → balanced n (pbind p f).
Proof. revert n. induction p as [a|s k IH]; intros n; cbn; [by intros -> ?|]. intros [Hp Hk] Hf. split; [done|]. eauto. Qed.

Lemma lookup_balanced vs cfg ps parsed : balanced 0 (lookup_and_verify vs cfg ps parsed).
Proof.
  unfold lookup_and_verify. cbn [balanced]. split; [done|]. intros [|]; cbn [negb balanced taken ev_call ev_answer]; [|done].
  split; [done|]. intros [rows|e]; cbn [balanced taken ev_call ev_answer]; [|by repeat split].
  split; [done|]. intros [| |]; cbn [balanced taken ev_call ev_answer]; [|by repeat split..].
  destruct (verify_rows vs rows _) as [row|]; cbn [balanced taken ev_call ev_answer]; [|by repeat split].
  unfold resolve_profile_restrictions. destruct ps; cbn [negb pbind balanced taken ev_call ev_answer]; [|by repeat split].
  destruct (key_profile_id row); cbn [pbind balanced taken ev_call ev_answer]; [|by repeat split].
  split; [done|]. intros [[|]|]; cbn [pbind balanced taken ev_call ev_answer]; by repeat split.
Qed.

Lemma acts_balanced vs cfg ps r : balanced 0 (acts vs cfg ps r).
Proof.
  destruct r as [header|o|]; [|by repeat split..]. cbn [acts]. unfold validate_header. destruct (bearer header) as [tok|]; [|done].
  destruct (negb _); [done|]. cbn [balanced]. split; [done|]. intros [e|]; cbn [taken ev_call ev_answer].
  - cbn [balanced]. split; [done|]. intros now. destruct (entry_expired now e); by repeat split.
  - destruct (parse tok); [|done]. apply (balanced_bind _ _ 0); [apply lookup_balanced|]. intros [[[e|]|]|]; by repeat split.
Qed.

(** ** What a thread holds *)

Lemma held_app t1 t2 : held (t1 ++ t2) = held t1 + held t2.
Proof. induction t1 as [|e t1 IH]; cbn; [done|]. rewrite IH. lia. Qed.

(** In the middle of a run. *)
Lemma balanced_partial {A} (p : prog Seam A) n t : balanced n p → partial p t → 0 <= n <= 1 → 0 <= n + held t <= 1.
Proof.
  intros Hb Hp. revert n Hb. induction Hp as [p|s k x t Hp IH]; intros n Hb Hn; cbn; [lia|]. destruct Hb as [Hs Hk].
  rewrite Z.add_assoc. apply IH; [apply Hk|]. destruct s; cbn in *; try lia. by destruct x; lia.
Qed.

Lemma balanced_permitted {A} (p : prog Seam A) n t s x b : balanced n p → partial p (t ++ Event s x :: b) → permitted (n + held t) s.
Proof.
  revert n p. induction t as [|e t IH]; intros n p Hb Hp; cbn in Hp; destruct p as [a|s' k];
    [by apply partial_ret_inv in Hp| |by apply partial_ret_inv in Hp|]; apply partial_call_inv in Hp as (y & Hy & Hp); destruct Hb as [Hs Hk].
  - apply (f_equal ev_call) in Hy. cbn in Hy. subst s'. cbn. by rewrite Z.add_0_r.
  - subst e. cbn. rewrite Z.add_assoc. eapply IH; [apply Hk|done].
Qed.

Lemma balanced_ends {A} (p : prog Seam A) n t a : balanced n p → runs p t a → n + held t = 0.
Proof.
  intros Hb Hr. revert n Hb. induction Hr as [a|s k x t a Hr IH]; intros n Hb; cbn in *; [lia|]. destruct Hb as [_ Hk].
  rewrite Z.add_assoc. apply IH, Hk.
Qed.

(** ** All threads together *)

Section Capacity.
Context (verify_secret : string → string → result bool string) (cfg : ValidatorConfig) (profile_store : bool).

Notation serves := (serves verify_secret cfg profile_store).
Notation runs_to := (runs_to cfg).

Definition total (n : nat) (h : calls) : Z := foldr Z.add 0 ((λ i, held (thread i h)) <$> seq 0 n).

Lemma sum_update (f g : nat → Z) (j : nat) (x : Z) a n : g j = f j + x → (∀ i, i ≠ j → g i = f i) →
  foldr Z.add 0 (g <$> seq a n) = foldr Z.add 0 (f <$> seq a n) + if bool_decide (a ≤ j < a + n)%nat then x else 0.
Proof.
  intros Hj Hne. revert a. induction n as [|n IH]; intros a; cbn [seq fmap list_fmap foldr].
  - rewrite bool_decide_false by lia. lia.
  - change (list_fmap ?f ?l) with (f <$> l) in *. rewrite IH. destruct (decide (a = j)) as [->|Ha].
    + rewrite Hj, bool_decide_false, bool_decide_true by lia. lia.
    + rewrite (Hne a Ha). destruct (decide (a < j < a + S n)%nat).
      * rewrite !bool_decide_true by lia. lia.
      * rewrite !bool_decide_false by lia. lia.
Qed.

Lemma total_snoc n h w j e : (j < n)%nat → total n (h ++ [(w, (j, e))]) = total n h + taken e.
Proof.
  intros Hj. unfold total. rewrite (sum_update (λ i, held (thread i h)) _ j (taken e)), bool_decide_true; [done|lia| |].
  - rewrite thread_app, held_app. unfold thread at 2. cbn. rewrite Nat.eqb_refl. cbn. lia.
  - intros i Hi. rewrite thread_app, held_app. unfold thread at 2. cbn. rewrite (proj2 (Nat.eqb_neq i j)) by done. cbn. lia.
Qed.

Lemma total_bound n h i : (∀ i, 0 <= held (thread i h)) → (i < n)%nat → held (thread i h) <= total n h.
Proof.
  intros Hpos Hi. unfold total. assert (i ∈ seq 0 n) as Hin by (apply elem_of_seq; lia). revert Hin. generalize (seq 0 n) as l.
  induction l as [|k l IH]; [by intros H%not_elem_of_nil|]. cbn. change (list_fmap ?f ?l) with (f <$> l).
  assert (0 <= foldr Z.add 0 ((λ i, held (thread i h)) <$> l)) as Hnn.
  { clear IH. induction l as [|m l IHl]; cbn; [lia|]. change (list_fmap ?f ?l) with (f <$> l). specialize (Hpos m). lia. }
  intros [->|Hin%IH]%elem_of_cons; [lia|]. specialize (Hpos k). lia.
Qed.

Lemma serves_before threads h1 h2 : serves threads (h1 ++ h2) → serves threads h1.
Proof.
  intros H c Hc. destruct (H c) as (r & Hr & Hp); [apply elem_of_app; by left|]. exists r. split; [done|].
  rewrite thread_app in Hp. by eapply partial_prefix.
Qed.

Lemma not_elem_of_thread i h : (∀ w e, (w, (i, e)) ∉ h) → thread i h = [].
Proof.
  intros H. destruct (thread i h) as [|e t] eqn:Ht; [done|]. destruct (elem_of_thread_calls i e h) as (w & Hw); [rewrite Ht; left|].
  by apply H in Hw.
Qed.

(** A thread has one permit or none. *)
Lemma held_range threads h i : serves threads h → 0 <= held (thread i h) <= 1.
Proof.
  intros Hs. destruct (thread i h) as [|e t] eqn:Ht; [cbn; lia|]. rewrite <- Ht.
  destruct (elem_of_thread_calls i e h) as (w & Hw); [rewrite Ht; left|]. destruct (Hs _ Hw) as (r & _ & Hp).
  apply (balanced_partial _ 0 _ (acts_balanced _ _ _ _) Hp). lia.
Qed.

Lemma held_permitted threads h w i s x h2 : serves threads (h ++ (w, (i, Event s x)) :: h2) → permitted (held (thread i h)) s.
Proof.
  intros Hs. destruct (Hs (w, (i, Event s x))) as (r & _ & Hp); [apply elem_of_app; right; left|]. rewrite thread_app in Hp.
  unfold thread at 2 in Hp. cbn in Hp. rewrite Nat.eqb_refl in Hp. by apply (balanced_permitted _ 0 _ _ _ _ (acts_balanced _ _ _ _) Hp).
Qed.

Lemma permits_counted threads w0 h w : in_use w0 = 0%nat → runs_to w0 h w → serves threads h →
  Z.of_nat (in_use w) = total (length threads) h ∧ (in_use w ≤ MAX_CONCURRENT_VERIFICATIONS)%nat.
Proof.
  intros H0. induction 1 as [|h w t Hr IH Ht|h w i s x w' Hr IH Ha]; intros Hs.
  - rewrite H0. split; [|unfold MAX_CONCURRENT_VERIFICATIONS; lia]. unfold total. induction (seq 0 (length threads)); cbn in *; lia.
  - by apply IH.
  - destruct (IH (serves_before _ _ _ Hs)) as [IH1 IH2].
    assert (i < length threads)%nat as Hi.
    { destruct (Hs (w, (i, Event s x))) as (r & Hr' & _); [apply elem_of_app; right; by apply list_elem_of_singleton|].
      cbn in Hr'. by eapply lookup_lt_Some. }
    rewrite total_snoc by done. pose proof (held_permitted _ _ _ _ _ _ _ Hs) as Hp.
    pose proof (total_bound (length threads) h i (λ j, proj1 (held_range _ _ j (serves_before _ _ _ Hs))) Hi) as Hb.
    destruct s; cbn in Ha, Hp |- *; try (subst w'; cbn; lia); try (destruct Ha; subst w'; cbn; lia).
    case_bool_decide; destruct Ha as [-> ->]; cbn; unfold MAX_CONCURRENT_VERIFICATIONS in *; lia.
Qed.

(** The threads that hold a permit. *)
Definition working (n : nat) (h : calls) : list nat := filter (λ i, held (thread i h) = 1) (seq 0 n).

Lemma working_count threads h : serves threads h → Z.of_nat (length (working (length threads) h)) = total (length threads) h.
Proof.
  intros Hs. unfold working, total. induction (seq 0 (length threads)) as [|i l IH]; [done|].
  rewrite filter_cons, fmap_cons. cbn [foldr]. rewrite <- IH. pose proof (held_range threads h i Hs) as Hi.
  case_decide as Hd; cbn [length]; lia.
Qed.

(** C29. At most [MAX_CONCURRENT_VERIFICATIONS] validations do cold work at a time, whatever fails: the
    validations that hold a permit are as many as the semaphore has given out, each lookup, hash and profile
    read is made by one of them, and a validation that ended, accepted, refused or unwound, holds none. *)
Theorem cold_work_is_bounded threads w0 h w :
  in_use w0 = 0%nat → runs_to w0 h w → serves threads h →
  length (working (length threads) h) = in_use w ∧ (in_use w ≤ MAX_CONCURRENT_VERIFICATIONS)%nat ∧
  (∀ h1 w1 i s x h2, h = h1 ++ (w1, (i, Event s x)) :: h2 → cold_call s = true → i ∈ working (length threads) h1) ∧
  (∀ i header r, runs (validate_header verify_secret cfg profile_store header) (thread i h) r → i ∉ working (length threads) h).
Proof.
  intros H0 Hr Hs. destruct (permits_counted _ _ _ _ H0 Hr Hs) as [Hc Hm]. pose proof (working_count _ _ Hs) as Hw. split_and!.
  - lia.
  - done.
  - intros h1 w1 i s x h2 -> Hcold. apply list_elem_of_filter. pose proof (held_permitted _ _ _ _ _ _ _ Hs) as Hp. split.
    + destruct s; cbn in Hcold, Hp; try done; by apply Hp.
    + destruct (Hs (w1, (i, Event s x))) as (r & Hr' & _); [apply elem_of_app; right; left|]. apply elem_of_seq. cbn in Hr'.
      apply lookup_lt_Some in Hr'. lia.
  - intros i header r Hruns [Hh _]%list_elem_of_filter.
    pose proof (balanced_ends _ 0 _ _ (acts_balanced verify_secret cfg profile_store (Validate header)) Hruns). lia.
Qed.

End Capacity.

(** One validation has looked its key up, another is about to. *)
Lemma cold_work_is_bounded_witness :
  let h := (play default_config (replicate 3 (Go 0) ++ replicate 2 (Go 1)) (acts demo_verify default_config true <$> two_requests) demo_world).1.1 in
  length (working 2 h) = 2%nat ∧ (2 ≤ MAX_CONCURRENT_VERIFICATIONS)%nat.
Proof.
  destruct (cold_work_is_bounded demo_verify default_config true two_requests demo_world
    (play default_config (replicate 3 (Go 0) ++ replicate 2 (Go 1)) (acts demo_verify default_config true <$> two_requests) demo_world).1.1
    (play default_config (replicate 3 (Go 0) ++ replicate 2 (Go 1)) (acts demo_verify default_config true <$> two_requests) demo_world).2)
    as (H1 & H2 & _).
  - reflexivity.
  - apply play_runs.
  - apply play_serves.
  - split; [exact H1|exact H2].
Defined.

End ApiKeyCapacity.
