(* ===== verification/Rbac.v ===== *)
(** * Roles, SCIM identities and tenants: the tables

    The store of waygate-rbac: roles, their direct assignments and the mappings of SCIM
    groups to roles, with the constraints and triggers of their tables; the resolution
    of a subject's roles; the tenant registry of waygate-tenants. Users, groups and
    memberships are written by the SCIM endpoints, which are not modelled: they change
    in any way that keeps the tables' own constraints. Listings are left out. *)

From S2P Require Import Prelude RustStr HashChain Json OauthStore AgentRuntime.
From stdpp Require Import sorting.
Local Open Scope Z_scope.

Module Rbac.
Import HashChain(Uuid) Json.Json OauthStore(timestamptz) AgentRuntime(dedup, elem_of_dedup).

(** ** Rows *)

Record Role := {
  ro_id : Uuid;
  ro_tenant_id : string;
  ro_name : string;
  ro_description : option string;
  ro_scopes : list string;
  ro_created_at : time;
  ro_updated_at : time;
}.

Record RoleAssignment := {
  ra_id : Uuid;
  ra_tenant_id : string;
  ra_role_id : Uuid;
  ra_subject_sub : string;
  ra_created_at : time;
}.

Record GroupRoleMapping := {
  gm_tenant_id : string;
  gm_group_id : Uuid;
  gm_role_id : Uuid;
  gm_created_at : time;
}.

Record ResolvedRoles := { role_names : list string; granted_scopes : list string }.

Definition no_roles : ResolvedRoles := {| role_names := []; granted_scopes := [] |}.

Definition resolved_is_empty (r : ResolvedRoles) : bool := bool_decide (role_names r = []) && bool_decide (granted_scopes r = []).

Inductive RbacError := RbSqlx | RbConflict | RbInvalidReference.

Record ScimUser := {
  su_tenant_id : string;
  su_external_id : option string;
  su_user_name : string;
  su_active : bool;
  su_attrs : Value;
  su_deleted_at : option time;
}.

Record ScimGroup := { sg_tenant_id : string; sg_display_name : string; sg_source : string }.

Record Tenant := {
  te_id : string;
  te_display_name : string;
  te_status : string;
  te_created_at : time;
  te_updated_at : time;
}.

(** A membership is keyed by user and group and carries its tenant; a mapping is keyed by
    tenant, group and role. *)
Record Directory := {
  tenants : gmap string Tenant;
  users : gmap Uuid ScimUser;
  scim_groups : gmap Uuid ScimGroup;
  members : gmap (Uuid * Uuid) string;
  roles_table : gmap Uuid Role;
  assignments : gmap Uuid RoleAssignment;
  mappings : gmap (string * Uuid * Uuid) time;
}.

Definition with_roles (m : gmap Uuid Role) (d : Directory) : Directory := {|
  tenants := tenants d; users := users d; scim_groups := scim_groups d; members := members d; roles_table := m;
  assignments := assignments d; mappings := mappings d |}.

Definition with_assignments (m : gmap Uuid RoleAssignment) (d : Directory) : Directory := {|
  tenants := tenants d; users := users d; scim_groups := scim_groups d; members := members d; roles_table := roles_table d;
  assignments := m; mappings := mappings d |}.

Definition with_mappings (m : gmap (string * Uuid * Uuid) time) (d : Directory) : Directory := {|
  tenants := tenants d; users := users d; scim_groups := scim_groups d; members := members d; roles_table := roles_table d;
  assignments := assignments d; mappings := m |}.

Definition with_tenants (m : gmap string Tenant) (d : Directory) : Directory := {|
  tenants := m; users := users d; scim_groups := scim_groups d; members := members d; roles_table := roles_table d;
  assignments := assignments d; mappings := mappings d |}.

(** ** Resolution *)

(** A [BTreeSet] read back in order. *)
Definition btree (l : list string) : list string := dedup (merge_sort str_le l).

(** [user_name = $2 OR external_id = $2], not deleted. *)
Definition user_is (tenant sub : string) (u : ScimUser) : bool :=
  bool_decide (su_tenant_id u = tenant) && bool_decide (su_deleted_at u = None)
  && (bool_decide (su_user_name u = sub) || bool_decide (su_external_id u = Some sub)).

(** The EXISTS clause: the subject is a current member of the group. *)
Definition is_member (d : Directory) (tenant sub : string) (group : Uuid) : bool :=
  existsb (λ x, bool_decide (x.1.2 = group) && bool_decide (x.2 = tenant)
                && match users d !! x.1.1 with Some u => user_is tenant sub u | None => false end) (map_to_list (members d)).

(** The role is assigned to the subject, or mapped from one of the groups it is a member of. *)
Definition holds_role (d : Directory) (tenant sub : string) (group_ids : list Uuid) (r : Role) : bool :=
  bool_decide (ro_tenant_id r = tenant)
  && (existsb (λ a, bool_decide (ra_role_id a = ro_id r) && bool_decide (ra_tenant_id a = tenant) && bool_decide (ra_subject_sub a = sub))
        (snd <$> map_to_list (assignments d))
      || existsb (λ m, bool_decide (m.1.2 = ro_id r) && bool_decide (m.1.1.1 = tenant) && bool_decide (m.1.1.2 ∈ group_ids)
                       && is_member d tenant sub m.1.1.2) (map_to_list (mappings d))).

Definition resolve_for_subject (tenant sub : string) (group_ids : list Uuid) (d : Directory) : ResolvedRoles :=
  let rows := filter (λ r, holds_role d tenant sub group_ids r = true) (snd <$> map_to_list (roles_table d)) in
  {| role_names := btree (ro_name <$> rows); granted_scopes := btree (mjoin (ro_scopes <$> rows)) |}.

(** ** Roles *)

Definition name_taken (tenant n : string) (except : option Uuid) (d : Directory) : bool :=
  existsb (λ r, bool_decide (ro_tenant_id r.2 = tenant) && bool_decide (ro_name r.2 = n) && negb (bool_decide (except = Some r.1)))
    (map_to_list (roles_table d)).

(** [id] is the fresh identifier. *)
Definition create_role (now : time) (id : Uuid) (tenant n : string) (description : option string) (scopes : list string) (d : Directory)
  : result Role RbacError * Directory :=
  if bool_decide (is_Some (roles_table d !! id)) || name_taken tenant n None d then (Err RbConflict, d)
  else let r := {| ro_id := id; ro_tenant_id := tenant; ro_name := n; ro_description := description; ro_scopes := scopes;
                   ro_created_at := timestamptz now; ro_updated_at := timestamptz now |} in
       (Ok r, with_roles (<[id := r]> (roles_table d)) d).

Definition get_role (tenant : string) (i : Uuid) (d : Directory) : option Role :=
  r ← roles_table d !! i; if bool_decide (ro_tenant_id r = tenant) then Some r else None.

(** The trigger sets [updated_at]. *)
Definition update_role (now : time) (tenant : string) (i : Uuid) (n : string) (description : option string) (scopes : list string)
    (d : Directory) : result (option Role) RbacError * Directory :=
  match get_role tenant i d with
  | None => (Ok None, d)
  | Some r =>
      if name_taken tenant n (Some i) d then (Err RbConflict, d)
      else let r := {| ro_id := ro_id r; ro_tenant_id := ro_tenant_id r; ro_name := n; ro_description := description; ro_scopes := scopes;
                       ro_created_at := ro_created_at r; ro_updated_at := timestamptz now |} in
           (Ok (Some r), with_roles (<[i := r]> (roles_table d)) d)
  end.

(** DELETE of roles; their assignments and mappings go with them. *)
Definition drop_roles (gone : Uuid → Role → bool) (d : Directory) : Directory :=
  let kept := filter (λ r, gone r.1 r.2 = false) (roles_table d) in
  with_mappings (filter (λ m, is_Some (kept !! m.1.2)) (mappings d))
    (with_assignments (filter (λ a, is_Some (kept !! ra_role_id a.2)) (assignments d)) (with_roles kept d)).

Definition delete_role (tenant : string) (i : Uuid) (d : Directory) : bool * Directory :=
  match get_role tenant i d with
  | None => (false, d)
  | Some _ => (true, drop_roles (λ j r, bool_decide (j = i) && bool_decide (ro_tenant_id r = tenant)) d)
  end.

Definition delete_all_roles_for_tenant (tenant : string) (d : Directory) : Z * Directory :=
  let d' := drop_roles (λ _ r, bool_decide (ro_tenant_id r = tenant)) d in
  (Z.of_nat (size (roles_table d)) - Z.of_nat (size (roles_table d')), d').

(** ** Assignments *)

Definition assigned (tenant : string) (role : Uuid) (sub : string) (d : Directory) : bool :=
  existsb (λ a, bool_decide (ra_tenant_id a = tenant) && bool_decide (ra_role_id a = role) && bool_decide (ra_subject_sub a = sub))
    (snd <$> map_to_list (assignments d)).

Definition insert_assignment (now : time) (id : Uuid) (tenant : string) (role : Uuid) (sub : string) (d : Directory)
  : result RoleAssignment RbacError * Directory :=
  if bool_decide (is_Some (assignments d !! id)) || assigned tenant role sub d then (Err RbConflict, d)
  else let a := {| ra_id := id; ra_tenant_id := tenant; ra_role_id := role; ra_subject_sub := sub; ra_created_at := timestamptz now |} in
       (Ok a, with_assignments (<[id := a]> (assignments d)) d).

(** The trigger refuses a role of another tenant, and one that does not exist. *)
Definition create_assignment (now : time) (id : Uuid) (tenant : string) (role : Uuid) (sub : string) (d : Directory)
  : result RoleAssignment RbacError * Directory :=
  match get_role tenant role d with
  | None => (Err RbInvalidReference, d)
  | Some _ => insert_assignment now id tenant role sub d
  end.

(** The reviewed version of the role, if it is still the current one. *)
Definition reviewed_role (tenant : string) (role : Uuid) (expected : time) (d : Directory) : option Role :=
  r ← get_role tenant role d; if ro_updated_at r =? expected then Some r else None.

Definition create_assignment_if_role_version (now : time) (id : Uuid) (tenant : string) (role : Uuid) (sub : string) (expected : time)
    (d : Directory) : result (option RoleAssignment) RbacError * Directory :=
  match reviewed_role tenant role expected d with
  | None => (Ok None, d)
  | Some _ => match insert_assignment now id tenant role sub d with
              | (Ok a, d') => (Ok (Some a), d')
              | (Err e, d') => (Err e, d')
              end
  end.

Definition get_assignment (tenant : string) (i : Uuid) (d : Directory) : option RoleAssignment :=
  a ← assignments d !! i; if bool_decide (ra_tenant_id a = tenant) then Some a else None.

Definition delete_assignment (tenant : string) (i : Uuid) (d : Directory) : bool * Directory :=
  match get_assignment tenant i d with
  | None => (false, d)
  | Some _ => (true, with_assignments (delete i (assignments d)) d)
  end.

Definition delete_assignment_if_role_version (tenant : string) (i role : Uuid) (expected : time) (d : Directory)
  : option RoleAssignment * Directory :=
  match reviewed_role tenant role expected d, get_assignment tenant i d with
  | Some _, Some a => if bool_decide (ra_role_id a = role) then (Some a, with_assignments (delete i (assignments d)) d) else (None, d)
  | _, _ => (None, d)
  end.

(** ** Group mappings *)

Definition insert_mapping (now : time) (tenant : string) (group role : Uuid) (d : Directory) : result GroupRoleMapping RbacError * Directory :=
  match mappings d !! (tenant, group, role) with
  | Some _ => (Err RbConflict, d)
  | None => (Ok {| gm_tenant_id := tenant; gm_group_id := group; gm_role_id := role; gm_created_at := timestamptz now |},
             with_mappings (<[(tenant, group, role) := timestamptz now]> (mappings d)) d)
  end.

(** The trigger refuses a role or a group that is missing or of another tenant. *)
Definition create_group_mapping (now : time) (tenant : string) (group role : Uuid) (d : Directory)
  : result GroupRoleMapping RbacError * Directory :=
  match get_role tenant role d, scim_groups d !! group with
  | Some _, Some g => if bool_decide (sg_tenant_id g = tenant) then insert_mapping now tenant group role d else (Err RbInvalidReference, d)
  | _, _ => (Err RbInvalidReference, d)
  end.

Definition create_group_mapping_if_role_version (now : time) (tenant : string) (group role : Uuid) (expected : time) (d : Directory)
  : result (option GroupRoleMapping) RbacError * Directory :=
  match reviewed_role tenant role expected d, scim_groups d !! group with
  | Some _, Some g =>
      if bool_decide (sg_tenant_id g = tenant) && bool_decide (sg_source g = "scim") then
        match insert_mapping now tenant group role d with
        | (Ok m, d') => (Ok (Some m), d')
        | (Err e, d') => (Err e, d')
        end
      else (Ok None, d)
  | _, _ => (Ok None, d)
  end.

Definition delete_group_mapping (tenant : string) (group role : Uuid) (d : Directory) : bool * Directory :=
  match mappings d !! (tenant, group, role) with
  | None => (false, d)
  | Some _ => (true, with_mappings (delete (tenant, group, role) (mappings d)) d)
  end.

Definition delete_group_mapping_if_versions (tenant : string) (group role : Uuid) (expected_mapping expected_role : time) (d : Directory)
  : option GroupRoleMapping * Directory :=
  match reviewed_role tenant role expected_role d, mappings d !! (tenant, group, role) with
  | Some _, Some t =>
      if t =? expected_mapping
      then (Some {| gm_tenant_id := tenant; gm_group_id := group; gm_role_id := role; gm_created_at := t |},
            with_mappings (delete (tenant, group, role) (mappings d)) d)
      else (None, d)
  | _, _ => (None, d)
  end.

(** ** Tenants *)

Inductive TenantStatus := Active | Suspended.

Definition status_as_str (s : TenantStatus) : string := match s with Active => "active" | Suspended => "suspended" end.

Inductive TenantError := TeSqlx | TeConflict (msg : string) | TeInvalidStatus.

Definition create_tenant (now : time) (id display_name : string) (status : TenantStatus) (d : Directory) : result Tenant TenantError * Directory :=
  match tenants d !! id with
  | Some _ => (Err (TeConflict ("tenant `" +:+ id +:+ "` already exists")), d)
  | None =>
      let t := {| te_id := id; te_display_name := display_name; te_status := status_as_str status; te_created_at := timestamptz now;
                  te_updated_at := timestamptz now |} in
      (Ok t, with_tenants (<[id := t]> (tenants d)) d)
  end.

Definition update_tenant (now : time) (id : string) (display_name : option string) (status : option TenantStatus) (d : Directory)
  : option Tenant * Directory :=
  match tenants d !! id with
  | None => (None, d)
  | Some t =>
      let t := {| te_id := te_id t; te_display_name := default (te_display_name t) display_name;
                  te_status := match status with Some s => status_as_str s | None => te_status t end; te_created_at := te_created_at t;
                  te_updated_at := timestamptz now |} in
      (Some t, with_tenants (<[id := t]> (tenants d)) d)
  end.

(** The rows of other tables that refer to the tenant are not part of the model. *)
Definition delete_tenant (id : string) (d : Directory) : bool * Directory :=
  (bool_decide (is_Some (tenants d !! id)), with_tenants (delete id (tenants d)) d).

End Rbac.
