(* ===== verification/RbacRuns.v ===== *)
(** * Roles: histories of the tables

    Transactions of the role store and of the tenant registry, and changes of the SCIM
    tables, in the order they commit. Assignments and mappings always refer to a role
    of their tenant, and a grant guarded by a role version is a grant of the role that
    was reviewed. *)

From S2P Require Import Prelude RustStr HashChain Json OauthStore AgentRuntime Rbac.
From stdpp Require Import sorting.
Local Open Scope Z_scope.

Module RbacRuns.
Import HashChain(Uuid) Json.Json OauthStore(timestamptz) AgentRuntime(dedup, elem_of_dedup) Rbac.Rbac.

Implicit Types (d : Directory).

(** ** Histories *)

Inductive Op :=
  | OCreateRole (id : Uuid) (tenant n : string) (description : option string) (scopes : list string)
  | OUpdateRole (tenant : string) (i : Uuid) (n : string) (description : option string) (scopes : list string)
  | ODeleteRole (tenant : string) (i : Uuid)
  | ODeleteRoles (tenant : string)
  | OAssign (id : Uuid) (tenant : string) (role : Uuid) (sub : string)
  | OAssignIf (id : Uuid) (tenant : string) (role : Uuid) (sub : string) (expected : time)
  | OUnassign (tenant : string) (i : Uuid)
  | OUnassignIf (tenant : string) (i role : Uuid) (expected : time)
  | OMap (tenant : string) (group role : Uuid)
  | OMapIf (tenant : string) (group role : Uuid) (expected : time)
  | OUnmap (tenant : string) (group role : Uuid)
  | OUnmapIf (tenant : string) (group role : Uuid) (expected_mapping expected_role : time)
  | OCreateTenant (id display_name : string) (status : TenantStatus)
  | OUpdateTenant (id : string) (display_name : option string) (status : option TenantStatus)
  | ODeleteTenant (id : string)
  | OScim (u : gmap Uuid ScimUser) (g : gmap Uuid ScimGroup) (m : gmap (Uuid * Uuid) string).

(** A change of the SCIM tables; the mappings of a group that is gone, or moved to another tenant, go with it. *)
Definition scim_write (u : gmap Uuid ScimUser) (g : gmap Uuid ScimGroup) (m : gmap (Uuid * Uuid) string) (d : Directory) : Directory := {|
  tenants := tenants d; users := u; scim_groups := g; members := m; roles_table := roles_table d; assignments := assignments d;
  mappings := filter (λ x, (sg_tenant_id <$> g !! x.1.1.2) = Some x.1.1.1) (mappings d) |}.

Definition exec (now : time) (o : Op) (d : Directory) : Directory :=
  match o with
  | OCreateRole id t n desc sc => (create_role now id t n desc sc d).2
  | OUpdateRole t i n desc sc => (update_role now t i n desc sc d).2
  | ODeleteRole t i => (delete_role t i d).2
  | ODeleteRoles t => (delete_all_roles_for_tenant t d).2
  | OAssign id t r s => (create_assignment now id t r s d).2
  | OAssignIf id t r s v => (create_assignment_if_role_version now id t r s v d).2
  | OUnassign t i => (delete_assignment t i d).2
  | OUnassignIf t i r v => (delete_assignment_if_role_version t i r v d).2
  | OMap t g r => (create_group_mapping now t g r d).2
  | OMapIf t g r v => (create_group_mapping_if_role_version now t g r v d).2
  | OUnmap t g r => (delete_group_mapping t g r d).2
  | OUnmapIf t g r vm v => (delete_group_mapping_if_versions t g r vm v d).2
  | OCreateTenant id n s => (create_tenant now id n s d).2
  | OUpdateTenant id n s => (update_tenant now id n s d).2
  | ODeleteTenant id => (delete_tenant id d).2
  | OScim u g m => scim_write u g m d
  end.

Fixpoint run (h : list (time * Op)) (d : Directory) : Directory := match h with [] => d | x :: h => run h (exec x.1 x.2 d) end.

(** ** Roles *)

(** What a transaction does to a role: nothing, or it writes a row with the time of the transaction. *)
Lemma role_step now o d i r' : roles_table (exec now o d) !! i = Some r' →
  roles_table d !! i = Some r' ∨ ro_updated_at r' = timestamptz now.
Proof.
  destruct o; cbn [exec]; try (by left).
  - unfold create_role. destruct (_ || _); [by left|]. cbn. intros [[_ <-]|[_ H]]%lookup_insert_Some; [by right|by left].
  - unfold update_role. destruct (get_role _ _ _) as [r|]; [|by left]. destruct (name_taken _ _ _ _); [by left|]. cbn.
    intros [[_ <-]|[_ H]]%lookup_insert_Some; [by right|by left].
  - unfold delete_role. destruct (get_role _ _ _); [|by left]. cbn. intros [H _]%map_lookup_filter_Some. by left.
  - cbn. intros [H _]%map_lookup_filter_Some. by left.
  - unfold create_assignment, insert_assignment. destruct (get_role _ _ _); [|by left]. destruct (_ || _); by left.
  - unfold create_assignment_if_role_version, insert_assignment. destruct (reviewed_role _ _ _ _); [|by left]. destruct (_ || _); by left.
  - unfold delete_assignment. destruct (get_assignment _ _ _); by left.
  - unfold delete_assignment_if_role_version. destruct (reviewed_role _ _ _ _); [|by left]. destruct (get_assignment _ _ _); [|by left].
    case_bool_decide; by left.
  - unfold create_group_mapping, insert_mapping. destruct (get_role _ _ _); [|by left]. destruct (scim_groups d !! group); [|by left].
    case_bool_decide; [|by left]. destruct (mappings d !! _); by left.
  - unfold create_group_mapping_if_role_version, insert_mapping. destruct (reviewed_role _ _ _ _); [|by left].
    destruct (scim_groups d !! group); [|by left]. destruct (_ && _); [|by left]. destruct (mappings d !! _); by left.
  - unfold delete_group_mapping. destruct (mappings d !! _); by left.
  - unfold delete_group_mapping_if_versions. destruct (reviewed_role _ _ _ _); [|by left]. destruct (mappings d !! _); [|by left].
    destruct (_ =? _); by left.
  - unfold create_tenant. destruct (tenants d !! id); by left.
  - unfold update_tenant. destruct (tenants d !! id); by left.
Qed.

(** The transactions commit after [from], each a microsecond at least after the one before. *)
Fixpoint ticking (from : time) (h : list (time * Op)) : Prop :=
  match h with [] => True | x :: h => from < timestamptz x.1 ∧ ticking (timestamptz x.1) h end.

(** A role that still has its version is the same row. *)
Lemma version_pins h d i r r' from : roles_table (run h d) !! i = Some r' → roles_table d !! i = Some r → ro_updated_at r <= from →
  ticking from h → ro_updated_at r' = ro_updated_at r → r' = r.
Proof.
  intros Hr' Hr Hv Ht Heq. assert (∀ h d from, roles_table (run h d) !! i = Some r' → ticking from h → ro_updated_at r' <= from →
    roles_table d !! i = Some r') as Hback.
  { clear. intros h. induction h as [|[now o] h IH]; intros d from; cbn; [done|]. intros H [Hnow Ht] Hv.
    apply IH with (from := timestamptz now) in H; [|done|lia]. apply role_step in H as [H|H]; [done|lia]. }
  specialize (Hback h d from Hr' Ht). rewrite Hr in Hback. assert (Some r = Some r') as [= <-] by (apply Hback; lia). done.
Qed.

Lemma reviewed_role_Some t i v d r : reviewed_role t i v d = Some r → roles_table d !! i = Some r ∧ ro_tenant_id r = t ∧ ro_updated_at r = v.
Proof.
  unfold reviewed_role, get_role. destruct (roles_table d !! i) as [r0|]; cbn; [|done]. case_bool_decide; cbn; [|done].
  destruct (Z.eqb_spec (ro_updated_at r0) v); [|done]. by intros [= <-].
Qed.

(** ** References *)

(** Every assignment and mapping refers to a role of its own tenant. *)
Definition referential d : Prop :=
  (∀ i a, assignments d !! i = Some a → ∃ r, roles_table d !! ra_role_id a = Some r ∧ ro_tenant_id r = ra_tenant_id a) ∧
  (∀ k t, mappings d !! k = Some t → ∃ r, roles_table d !! k.2 = Some r ∧ ro_tenant_id r = k.1.1) ∧
  (∀ i r, roles_table d !! i = Some r → ro_id r = i).

Lemma get_role_Some t i d r : get_role t i d = Some r → roles_table d !! i = Some r ∧ ro_tenant_id r = t.
Proof. unfold get_role. destruct (roles_table d !! i); cbn; [|done]. case_bool_decide; [|done]. by intros [= <-]. Qed.

Lemma insert_assignment_referential now id t i s d r : referential d → roles_table d !! i = Some r → ro_tenant_id r = t →
  referential (insert_assignment now id t i s d).2.
Proof.
  intros (Ha & Hm & Hi) Hr Ht. unfold insert_assignment. destruct (_ || _); [done|]. split_and!; [|done..]. cbn.
  intros j a [[_ <-]|[_ H]]%lookup_insert_Some; [by exists r|by eapply Ha].
Qed.

Lemma insert_mapping_referential now t g i d r : referential d → roles_table d !! i = Some r → ro_tenant_id r = t →
  referential (insert_mapping now t g i d).2.
Proof.
  intros (Ha & Hm & Hi) Hr Ht. unfold insert_mapping. destruct (mappings d !! _); [done|]. split_and!; [done| |done]. cbn.
  intros k v [[<- _]|[_ H]]%lookup_insert_Some; [by exists r|by eapply Hm].
Qed.

Lemma drop_roles_referential gone d : referential d → referential (drop_roles gone d).
Proof.
  intros (Ha & Hm & Hi). split_and!; cbn.
  - intros i a [H [r Hr]]%map_lookup_filter_Some. exists r. split; [done|]. cbn in Hr. apply map_lookup_filter_Some in Hr as [Hr _].
    destruct (Ha _ _ H) as (r' & Hr' & <-). congruence.
  - intros k t [H [r Hr]]%map_lookup_filter_Some. exists r. split; [done|]. cbn in Hr. apply map_lookup_filter_Some in Hr as [Hr _].
    destruct (Hm _ _ H) as (r' & Hr' & <-). congruence.
  - intros i r [H _]%map_lookup_filter_Some. eauto.
Qed.

(** A change of the roles table that keeps ids and tenants keeps the references. *)
Lemma with_roles_referential m d : referential d → (∀ i r, roles_table d !! i = Some r → ∃ r', m !! i = Some r' ∧ ro_tenant_id r' = ro_tenant_id r) →
  (∀ i r, m !! i = Some r → ro_id r = i) → referential (with_roles m d).
Proof.
  intros (Ha & Hm & _) Hk Hid. split_and!; cbn; [| |done].
  - intros i a (r & Hr & Ht)%Ha. destruct (Hk _ _ Hr) as (r' & ? & ?). exists r'. split; [done|congruence].
  - intros k t (r & Hr & Ht)%Hm. destruct (Hk _ _ Hr) as (r' & ? & ?). exists r'. split; [done|congruence].
Qed.

Lemma fewer_assignments m d : referential d → m ⊆ assignments d → referential (with_assignments m d).
Proof. intros (Ha & Hm & Hi) Hsub. split_and!; [|done..]. cbn. intros i a H. eapply Ha. by eapply lookup_weaken. Qed.

Lemma fewer_mappings m d : referential d → m ⊆ mappings d → referential (with_mappings m d).
Proof. intros (Ha & Hm & Hi) Hsub. split_and!; [done| |done]. cbn. intros k t H. eapply Hm. by eapply lookup_weaken. Qed.

Lemma referential_step now o d : referential d → referential (exec now o d).
Proof.
  intros Hd. pose proof Hd as (Ha & Hm & Hi). destruct o; cbn [exec].
  - unfold create_role. case_bool_decide as Hid; cbn; [done|]. destruct (name_taken _ _ _ _); [done|]. apply with_roles_referential; [done| |].
    + intros j r Hr. exists r. split; [|done]. cbn. rewrite lookup_insert_ne; [done|]. intros ->. eauto.
    + intros j r [[<- <-]|[_ H]]%lookup_insert_Some; eauto.
  - unfold update_role. destruct (get_role tenant i d) as [r|] eqn:Hr; [|done]. apply get_role_Some in Hr as [Hr Ht].
    destruct (name_taken _ _ _ _); [done|]. apply with_roles_referential; [done| |].
    + intros j r0 Hj. destruct (decide (i = j)) as [<-|Hne]; [|exists r0; cbn; by rewrite lookup_insert_ne].
      eexists. cbn. rewrite lookup_insert_eq. split; [done|]. cbn. congruence.
    + intros j r0 [[<- <-]|[_ H]]%lookup_insert_Some; cbn; eauto.
  - unfold delete_role. destruct (get_role tenant i d); [|done]. by apply drop_roles_referential.
  - by apply drop_roles_referential.
  - unfold create_assignment. destruct (get_role tenant role d) as [r|] eqn:Hr; [|done]. apply get_role_Some in Hr as [Hr Ht].
    by eapply insert_assignment_referential.
  - unfold create_assignment_if_role_version. destruct (reviewed_role tenant role expected d) as [r|] eqn:Hr; [|done].
    apply reviewed_role_Some in Hr as (Hr & Ht & _). pose proof (insert_assignment_referential now id tenant role sub d r Hd Hr Ht) as H.
    by destruct (insert_assignment now id tenant role sub d) as [[] ?].
  - unfold delete_assignment. destruct (get_assignment _ _ _); [|done]. apply fewer_assignments; [done|]. apply delete_subseteq.
  - unfold delete_assignment_if_role_version. destruct (reviewed_role _ _ _ _); [|done]. destruct (get_assignment _ _ _); [|done].
    case_bool_decide; [|done]. apply fewer_assignments; [done|]. apply delete_subseteq.
  - unfold create_group_mapping. destruct (get_role tenant role d) as [r|] eqn:Hr; [|done]. apply get_role_Some in Hr as [Hr Ht].
    destruct (scim_groups d !! group); [|done]. case_bool_decide; [|done]. by eapply insert_mapping_referential.
  - unfold create_group_mapping_if_role_version. destruct (reviewed_role tenant role expected d) as [r|] eqn:Hr; [|done].
    apply reviewed_role_Some in Hr as (Hr & Ht & _). destruct (scim_groups d !! group); [|done]. destruct (_ && _); [|done].
    pose proof (insert_mapping_referential now tenant group role d r Hd Hr Ht) as H. by destruct (insert_mapping now tenant group role d) as [[] ?].
  - unfold delete_group_mapping. destruct (mappings d !! _); [|done]. apply fewer_mappings; [done|]. apply delete_subseteq.
  - unfold delete_group_mapping_if_versions. destruct (reviewed_role _ _ _ _); [|done]. destruct (mappings d !! _); [|done].
    destruct (_ =? _); [|done]. apply fewer_mappings; [done|]. apply delete_subseteq.
  - unfold create_tenant. by destruct (tenants d !! id).
  - unfold update_tenant. by destruct (tenants d !! id).
  - done.
  - split_and!; [done| |done]. cbn. intros k t [H _]%map_lookup_filter_Some. by eapply Hm.
Qed.

Lemma referential_run h d : referential d → referential (run h d).
Proof. revert d. induction h as [|x h IH]; intros d Hd; cbn; [done|]. by apply IH, referential_step. Qed.

(** ** What a subject is granted *)

Lemma elem_of_btree x l : x ∈ btree l ↔ x ∈ l.
Proof. unfold btree. by rewrite elem_of_dedup, merge_sort_Permutation. Qed.

Lemma existsb_map {K V} `{Countable K} (f : K * V → bool) (m : gmap K V) :
  existsb f (map_to_list m) = true ↔ ∃ k v, m !! k = Some v ∧ f (k, v) = true.
Proof.
  rewrite existsb_exists. split.
  - intros ([k v] & Hin & Hf). apply list_elem_of_In, elem_of_map_to_list in Hin. eauto.
  - intros (k & v & Hk & Hf). exists (k, v). by rewrite <- list_elem_of_In, elem_of_map_to_list.
Qed.

Definition directly (d : Directory) (t s : string) (r : Role) : Prop :=
  ∃ i a, assignments d !! i = Some a ∧ ra_role_id a = ro_id r ∧ ra_tenant_id a = t ∧ ra_subject_sub a = s.

Definition through_group (d : Directory) (t s : string) (ids : list Uuid) (r : Role) : Prop :=
  ∃ g v, mappings d !! (t, g, ro_id r) = Some v ∧ g ∈ ids ∧ is_member d t s g = true.

Lemma holds_role_true d t s ids r : holds_role d t s ids r = true ↔ ro_tenant_id r = t ∧ (directly d t s r ∨ through_group d t s ids r).
Proof.
  unfold holds_role. rewrite andb_true_iff, bool_decide_eq_true, orb_true_iff, existsb_map, existsb_exists.
  apply and_iff_compat_l, Morphisms_Prop.or_iff_morphism.
  - split.
    + intros (a & Hin & Hf). apply list_elem_of_In, list_elem_of_fmap in Hin as ([i a'] & -> & Hin%elem_of_map_to_list).
      rewrite !andb_true_iff, !bool_decide_eq_true in Hf. destruct Hf as [[? ?] ?]. by exists i, a'.
    + intros (i & a & Hi & ? & ? & ?). exists a. rewrite <- list_elem_of_In, list_elem_of_fmap. split; [exists (i, a); by rewrite elem_of_map_to_list|].
      by rewrite !andb_true_iff, !bool_decide_eq_true.
  - split.
    + intros ([[t' g] i] & v & Hk & Hf). cbn in Hf. rewrite !andb_true_iff, !bool_decide_eq_true in Hf. destruct Hf as [[[-> ->] ?] ?].
      by exists g, v.
    + intros (g & v & Hk & ? & ?). exists (t, g, ro_id r), v. cbn. by rewrite !andb_true_iff, !bool_decide_eq_true.
Qed.

Lemma elem_of_granted t s ids d x : x ∈ granted_scopes (resolve_for_subject t s ids d) ↔
  ∃ i r, roles_table d !! i = Some r ∧ ro_tenant_id r = t ∧ x ∈ ro_scopes r ∧ (directly d t s r ∨ through_group d t s ids r).
Proof.
  cbn. rewrite elem_of_btree, list_elem_of_join. split.
  - intros (l & Hx & Hl). apply list_elem_of_fmap in Hl as (r & -> & [Hh Hr]%list_elem_of_filter).
    apply holds_role_true in Hh as [Ht Hh]. apply list_elem_of_fmap in Hr as ([i r'] & -> & Hr%elem_of_map_to_list). eauto 10.
  - intros (i & r & Hr & Ht & Hx & Hh). exists (ro_scopes r). split; [done|]. apply list_elem_of_fmap. exists r. split; [done|].
    apply list_elem_of_filter. split; [by apply holds_role_true|]. apply list_elem_of_fmap. exists (i, r). by rewrite elem_of_map_to_list.
Qed.

(** Another assignment. *)
Lemma directly_insert d i a t s r : assignments d !! i = None →
  directly (with_assignments (<[i := a]> (assignments d)) d) t s r ↔
  directly d t s r ∨ (ra_role_id a = ro_id r ∧ ra_tenant_id a = t ∧ ra_subject_sub a = s).
Proof.
  intros Hn. split.
  - intros (j & b & Hj & ? & ? & ?). cbn in Hj. apply lookup_insert_Some in Hj as [[<- <-]|[_ Hj]]; [by right|left]. by exists j, b.
  - intros [(j & b & Hj & ?)|?].
    + exists j, b. split; [|done]. cbn. rewrite lookup_insert_ne; [done|]. intros ->. congruence.
    + exists i, a. split; [cbn; by rewrite lookup_insert_eq|done].
Qed.

Lemma insert_assignment_Ok now id t i s d a d' : insert_assignment now id t i s d = (Ok a, d') →
  assignments d !! id = None ∧ d' = with_assignments (<[id := a]> (assignments d)) d ∧ ra_role_id a = i ∧ ra_tenant_id a = t ∧ ra_subject_sub a = s.
Proof.
  unfold insert_assignment. case_bool_decide as Hid; cbn; [done|]. destruct (assigned _ _ _ _); [done|]. intros [= <- <-].
  split_and!; try done. destruct (assignments d !! id); [|done]. destruct Hid; eauto.
Qed.

(** C24. A grant guarded by a role version grants what was reviewed: if the guarded assignment succeeds
    after any history of the tables, the role is still the row that was reviewed, and the subject's scopes
    become its scopes from before together with exactly the reviewed role's scopes. *)
Theorem reviewed_grant_is_exact d h t i r from now id s a d' :
  referential d → roles_table d !! i = Some r → ro_updated_at r <= from → ticking from h →
  create_assignment_if_role_version now id t i s (ro_updated_at r) (run h d) = (Ok (Some a), d') →
  roles_table d' !! i = Some r ∧
  ∀ ids x, x ∈ granted_scopes (resolve_for_subject t s ids d') ↔
    x ∈ granted_scopes (resolve_for_subject t s ids (run h d)) ∨ x ∈ ro_scopes r.
Proof.
  intros Href Hr Hv Ht Hc. unfold create_assignment_if_role_version in Hc.
  destruct (reviewed_role t i _ (run h d)) as [r'|] eqn:Hrev; [|done]. apply reviewed_role_Some in Hrev as (Hr' & Hten & Hver).
  pose proof (version_pins _ _ _ _ _ _ Hr' Hr Hv Ht Hver) as ->.
  destruct (insert_assignment now id t i s (run h d)) as [[a'|] d1] eqn:Hi; [|done]. injection Hc as -> ->.
  apply insert_assignment_Ok in Hi as (Hn & -> & Hai & Hat & Has). destruct (referential_run h d Href) as (_ & _ & Hids). split; [done|].
  intros ids x. rewrite !elem_of_granted. cbn [roles_table with_assignments]. split.
  - intros (j & q & Hq & Hqt & Hx & [Hd|Hg]); [|left; exists j, q; eauto 10].
    rewrite directly_insert in Hd by done. destruct Hd as [Hd|(Hqi & _)]; [left; exists j, q; eauto|].
    right. rewrite (Hids _ _ Hq) in Hqi. assert (q = r) as -> by congruence. done.
  - intros [(j & q & Hq & Hqt & Hx & [Hd|Hg])|Hx].
    + exists j, q. split_and!; [done..|]. left. apply directly_insert; [done|]. by left.
    + exists j, q. split_and!; [done..|]. by right.
    + exists i, r. split_and!; [done..|]. left. apply directly_insert; [done|]. right. by rewrite (Hids _ _ Hr').
Qed.

(** ** A reviewed grant *)

Definition empty_directory : Directory := {|
  tenants := ∅; users := ∅; scim_groups := ∅; members := ∅; roles_table := ∅; assignments := ∅; mappings := ∅ |}.

Definition demo_directory : Directory :=
  run [(1000, OCreateRole 1%N "acme" "reader" None ["mcp:read"]); (2000, OAssign 7%N "acme" 1%N "ann")] empty_directory.

Definition demo_history : list (time * Op) :=
  [(3000, OCreateRole 2%N "acme" "writer" None ["mcp:invoke"]); (4000, OUnassign "acme" 7%N)].

Definition demo_role : Role := {|
  ro_id := 1%N; ro_tenant_id := "acme"; ro_name := "reader"; ro_description := None; ro_scopes := ["mcp:read"]; ro_created_at := 1000;
  ro_updated_at := 1000 |}.

Lemma empty_referential : referential empty_directory.
Proof. split_and!; cbn; intros ? ? H; by rewrite lookup_empty in H. Qed.

Lemma reviewed_grant_is_exact_witness :
  let d' := (create_assignment_if_role_version 5000 8%N "acme" 1%N "bob" 1000 (run demo_history demo_directory)).2 in
  roles_table d' !! 1%N = Some demo_role ∧
  ∀ ids x, x ∈ granted_scopes (resolve_for_subject "acme" "bob" ids d') ↔
    x ∈ granted_scopes (resolve_for_subject "acme" "bob" ids (run demo_history demo_directory)) ∨ x ∈ ["mcp:read"].
Proof.
  cbv zeta. refine (reviewed_grant_is_exact demo_directory demo_history "acme" 1%N demo_role 1000 5000 8%N "bob"
    {| ra_id := 8%N; ra_tenant_id := "acme"; ra_role_id := 1%N; ra_subject_sub := "bob"; ra_created_at := 5000 |} _ _ _ _ _ _).
  - apply referential_run, empty_referential.
  - by vm_compute.
  - cbn. lia.
  - by vm_compute.
  - by vm_compute.
Defined.

(** The same grant, after the role was given another scope. *)
Example stale_review_grants_nothing :
  create_assignment_if_role_version 5000 8%N "acme" 1%N "bob" 1000
    (run [(3000, OUpdateRole "acme" 1%N "reader" None ["mcp:read"; "mcp:admin"])] demo_directory)
  = (Ok None, run [(3000, OUpdateRole "acme" 1%N "reader" None ["mcp:read"; "mcp:admin"])] demo_directory).
Proof. by vm_compute. Qed.

End RbacRuns.
