(* ===== verification/BearerAuth.v ===== *)
(** * The bearer layer

    [bearer_middleware] (waygate-oidc/src/middleware.rs) and the enrichers the server
    chains behind it: the tenant gate (waygate-tenants/src/enforce.rs), the SCIM
    resolver (waygate-scim/src/enricher.rs) and the role resolver
    (waygate-rbac/src/lib.rs), as one program over the validators, the three caches,
    the queries and the handler. [display] prints a validation error and [parse_uuid]
    is [Uuid::parse_str]. *)

From S2P Require Import Prelude RustStr HashChain Json Facts Interact OauthToken ExecutionTypes ChainVerify Rbac RbacRuns.
From stdpp Require Import sorting pretty.
Local Open Scope Z_scope.

Module BearerAuth.
Import HashChain(Uuid) Json.Json Facts.Facts Interact.Interact OauthToken(scim_blocks_request) ExecutionTypes(uuid_text) Rbac.Rbac.

(** ** Data *)

Inductive AuthMode := Enforce | Disabled.

Inductive AuthAttemptOutcome := MissingHeader | Rejected | InfraUnavailable.

Inductive JwksError := UnknownKid (kid : string) | JwksUnavailable (msg : string).

Inductive ValidationError :=
  | Missing
  | Malformed
  | MissingKid
  | Jwt (msg : string)
  | Jwks (e : JwksError)
  | MissingScope (s : string)
  | AmbiguousResourceAudience (n : nat)
  | Infra (msg : string).

Definition is_client_error (e : ValidationError) : bool :=
  match e with
  | Missing | Malformed | MissingKid | Jwt _ | MissingScope _ | AmbiguousResourceAudience _ => true
  | Jwks (UnknownKid _) => true
  | Jwks _ => false
  | Infra _ => false
  end.

Inductive TenantLookup := TActive | TSuspended | TMissing.

Record UserRow := { ur_id : Uuid; ur_external_id : option string; ur_user_name : string; ur_active : bool; ur_attrs : Value }.

Record ResolvedPrincipal := {
  rp_user_id : Uuid;
  rp_user_name : string;
  rp_external_id : option string;
  rp_active : bool;
  rp_attrs : Value;
  rp_groups : list (Uuid * string);
}.

Inductive ScimResolveError := ScimStore | ScimAmbiguous (rows : list Uuid).

Inductive CachedResolution := Hit (r : ResolvedPrincipal) | Miss | Blocked (reason : string).

Inductive Response :=
  | Handled
  | Unauthorized (detail : string)
  | Forbidden (reason detail : string)
  | Unavailable
  | Panicking.

(** ** Calls *)

Inductive Seam :=
  | ValidateHeader (i : nat) (header : string)
  | TenantCacheGet (tenant : string)
  | TenantCacheInsert (tenant : string) (l : TenantLookup)
  | TenantStatusOf (tenant : string)
  | ScimCacheGet (tenant sub : string)
  | ScimCacheInsert (tenant sub : string) (r : CachedResolution)
  | FindUsers (tenant sub : string)
  | FindTombstone (tenant sub : string)
  | GroupsOf (tenant : string) (user : Uuid)
  | RolesCacheGet (tenant sub : string) (groups : list Uuid)
  | RolesCacheInsert (tenant sub : string) (groups : list Uuid) (r : ResolvedRoles)
  | ResolveForSubject (tenant sub : string) (groups : list Uuid)
  | RecordAttempt (o : AuthAttemptOutcome) (reason : string)
  | RunNext (p : Principal Value).

#[global] Instance seam_effect : Effect Seam := λ s,
  match s with
  | ValidateHeader _ _ => result (Principal Value) ValidationError
  | TenantCacheGet _ => option TenantLookup
  | TenantStatusOf _ => result (option string) unit
  | ScimCacheGet _ _ => option CachedResolution
  | FindUsers _ _ => result (list UserRow) unit
  | FindTombstone _ _ => result (option UserRow) unit
  | GroupsOf _ _ => result (list (Uuid * string)) unit
  | RolesCacheGet _ _ _ => option ResolvedRoles
  | ResolveForSubject _ _ _ => result ResolvedRoles RbacError
  | TenantCacheInsert _ _ | ScimCacheInsert _ _ _ | RolesCacheInsert _ _ _ _ | RecordAttempt _ _ | RunNext _ => unit
  end.

Notation "'let!' x ':=' s 'in' k" := (Call s (λ x, k))
  (at level 10, x pattern, s at level 100, k at level 200) : waygate_scope.

(** ** Principals *)

Definition with_blocked (reason : string) (p : Principal Value) : Principal Value := {|
  sub := sub p; email := email p; groups := groups p; issuer := issuer p; scopes := scopes p; tenant := tenant p;
  auth_method := auth_method p; raw_token := raw_token p; scim := scim p; enrichment_blocked := Some reason; roles := roles p;
  api_key_profile_restrictions := api_key_profile_restrictions p |}.

Definition with_scim (s : ScimPrincipalAttrs Value) (p : Principal Value) : Principal Value := {|
  sub := sub p; email := email p; groups := groups p; issuer := issuer p; scopes := scopes p; tenant := tenant p;
  auth_method := auth_method p; raw_token := raw_token p; scim := Some s; enrichment_blocked := enrichment_blocked p; roles := roles p;
  api_key_profile_restrictions := api_key_profile_restrictions p |}.

Definition with_grants (sc ro : list string) (p : Principal Value) : Principal Value := {|
  sub := sub p; email := email p; groups := groups p; issuer := issuer p; scopes := sc; tenant := tenant p;
  auth_method := auth_method p; raw_token := raw_token p; scim := scim p; enrichment_blocked := enrichment_blocked p; roles := ro;
  api_key_profile_restrictions := api_key_profile_restrictions p |}.

Definition blocked (p : Principal Value) : bool := match enrichment_blocked p with Some _ => true | None => false end.

(** ** The tenant gate *)

(** [PgTenantResolver::resolve] *)
Definition tenant_of_status (status : option string) : TenantLookup :=
  match status with
  | None => TMissing
  | Some s => if bool_decide (s = "active") then TActive else TSuspended
  end.

Definition tenant_lookup (t : string) : prog Seam TenantLookup :=
  let! hit := TenantCacheGet t in
  match hit with
  | Some l => Ret l
  | None =>
      let! status := TenantStatusOf t in
      match status with
      | Ok s => let l := tenant_of_status s in let! _ := TenantCacheInsert t l in Ret l
      | Err _ => Ret TActive
      end
  end.

Definition tenant_enrich (p : Principal Value) : prog Seam (Principal Value) :=
  if blocked p then Ret p
  else pbind (tenant_lookup (tenant p)) (λ l,
         Ret match l with
             | TActive => p
             | TSuspended => with_blocked "tenant_suspended" p
             | TMissing => with_blocked "tenant_not_found" p
             end).

(** ** The SCIM resolver *)

Definition resolve_tombstone (t s : string) : prog Seam (result (option ResolvedPrincipal) ScimResolveError) :=
  let! tomb := FindTombstone t s in
  match tomb with
  | Err _ => Ret (Err ScimStore)
  | Ok None => Ret (Ok None)
  | Ok (Some row) => Ret (Ok (Some {| rp_user_id := ur_id row; rp_user_name := ur_user_name row; rp_external_id := ur_external_id row;
                                      rp_active := false; rp_attrs := Object []; rp_groups := [] |}))
  end.

Definition scim_resolve (t s : string) : prog Seam (result (option ResolvedPrincipal) ScimResolveError) :=
  let! candidates := FindUsers t s in
  match candidates with
  | Err _ => Ret (Err ScimStore)
  | Ok [] => resolve_tombstone t s
  | Ok [row] =>
      let! groups := GroupsOf t (ur_id row) in
      match groups with
      | Err _ => Ret (Err ScimStore)
      | Ok gs => Ret (Ok (Some {| rp_user_id := ur_id row; rp_user_name := ur_user_name row; rp_external_id := ur_external_id row;
                                  rp_active := ur_active row; rp_attrs := ur_attrs row; rp_groups := gs |}))
      end
  | Ok rows => Ret (Err (ScimAmbiguous (ur_id <$> rows)))
  end.

Definition scim_lookup (t s : string) : prog Seam CachedResolution :=
  let! hit := ScimCacheGet t s in
  match hit with
  | Some r => Ret r
  | None =>
      pbind (scim_resolve t s) (λ r,
        match r with
        | Ok (Some r) => let! _ := ScimCacheInsert t s (Hit r) in Ret (Hit r)
        | Ok None => let! _ := ScimCacheInsert t s Miss in Ret Miss
        | Err (ScimAmbiguous rows) =>
            let reason := "scim_ambiguous_match:" +:+ pretty (length rows) in
            let! _ := ScimCacheInsert t s (Blocked reason) in Ret (Blocked reason)
        | Err ScimStore => Ret Miss
        end)
  end.

Definition scim_attrs (r : ResolvedPrincipal) : ScimPrincipalAttrs Value := {|
  sp_user_id := uuid_text (rp_user_id r); sp_user_name := rp_user_name r; sp_external_id := rp_external_id r; sp_active := rp_active r;
  sp_attrs := rp_attrs r; sp_groups := (λ g, {| group_id := uuid_text g.1; display_name := g.2 |}) <$> rp_groups r |}.

Definition scim_enrich (p : Principal Value) : prog Seam (Principal Value) :=
  if match scim p with Some _ => true | None => false end || blocked p then Ret p
  else pbind (scim_lookup (tenant p) (sub p)) (λ e,
         Ret match e with
             | Hit r => with_scim (scim_attrs r) p
             | Miss => p
             | Blocked reason => with_blocked reason p
             end).

(** ** The role resolver *)

Definition CONTROL_PLANE_SCOPES : list string := ["mcp:admin"; "mcp:propose"; "scim:write"].

Definition contains_control_plane_scope (r : ResolvedRoles) : bool :=
  existsb (λ s, bool_decide (s ∈ CONTROL_PLANE_SCOPES)) (granted_scopes r).

(** Sorted, without repetitions. *)
Definition key_groups (ids : list Uuid) : list Uuid := ChainVerify.dedup (merge_sort N.le ids).

Definition rbac_resolve (t s : string) (ids : list Uuid) : prog Seam ResolvedRoles :=
  let fetch : prog Seam ResolvedRoles :=
    let! resolved := ResolveForSubject t s ids in
    match resolved with
    | Ok r => if negb (contains_control_plane_scope r) then let! _ := RolesCacheInsert t s (key_groups ids) r in Ret r else Ret r
    | Err _ => Ret no_roles
    end in
  let! hit := RolesCacheGet t s (key_groups ids) in
  match hit with
  | Some r => if negb (contains_control_plane_scope r) then Ret r else fetch
  | None => fetch
  end.

Section Layer.
Context (parse_uuid : string → option Uuid) (display : ValidationError → string).

Definition scim_group_ids (p : Principal Value) : list Uuid :=
  match scim p with Some s => omap (λ g, parse_uuid (group_id g)) (sp_groups s) | None => [] end.

Definition rbac_enrich (p : Principal Value) : prog Seam (Principal Value) :=
  if blocked p then Ret p
  else pbind (rbac_resolve (tenant p) (sub p) (scim_group_ids p)) (λ r,
         Ret (if resolved_is_empty r then p
              else with_grants (btree (scopes p ++ granted_scopes r)) (btree (roles p ++ role_names r)) p)).

(** [ChainedEnricher] *)
Fixpoint chained_enrich (stages : list (Principal Value → prog Seam (Principal Value))) (p : Principal Value) : prog Seam (Principal Value) :=
  match stages with
  | [] => Ret p
  | stage :: stages => pbind (stage p) (chained_enrich stages)
  end.

(** The order the server wires. *)
Definition principal_enricher : Principal Value → prog Seam (Principal Value) :=
  chained_enrich [tenant_enrich; scim_enrich; rbac_enrich].

(** ** The middleware *)

Record BearerLayer := { mode : AuthMode; validators : nat; has_recorder : bool; has_enricher : bool }.

Definition record_attempt (l : BearerLayer) (o : AuthAttemptOutcome) (reason : string) (k : prog Seam Response) : prog Seam Response :=
  if has_recorder l then let! _ := RecordAttempt o reason in k else k.

Definition enrichment_blocked_detail (reason : string) : string :=
  if bool_decide (reason = "scim_inactive") then "principal is provisioned via SCIM but marked active=false"
  else if bool_decide (reason = "scim_ambiguous_match") then
    "principal's `sub` matches multiple SCIM rows by external_id and user_name; operator must reconcile"
  else if bool_decide (reason = "tenant_not_found") then
    "principal's `tenant` claim does not match any row in the canonical tenants registry — operator must provision via POST /api/v1/admin/tenants"
  else if bool_decide (reason = "tenant_suspended") then
    "principal's tenant exists but is currently suspended (status='suspended'); operator must reactivate via PATCH /api/v1/admin/tenants/{id}"
  else "principal blocked by enrichment layer".

Definition dev_principal : Principal Value := {|
  sub := "dev@local"; email := Some "dev@local"; groups := ["mcp-admins"]; issuer := "local-dev";
  scopes := ["mcp:invoke"; "mcp:read"; "mcp:admin"; "mcp:propose"; "scim:read"; "scim:write"]; tenant := DEFAULT_TENANT;
  auth_method := Oauth; raw_token := None; scim := None; enrichment_blocked := None; roles := []; api_key_profile_restrictions := None |}.

(** After a validator accepted. *)
Definition admit_principal (l : BearerLayer) (p : Principal Value) : prog Seam Response :=
  pbind (if has_enricher l then principal_enricher p else Ret p) (λ p,
    if scim_blocks_request p then
      let reason := default "scim_inactive" (enrichment_blocked p) in
      record_attempt l Rejected reason (Ret (Forbidden reason (enrichment_blocked_detail reason)))
    else let! _ := RunNext p in Ret Handled).

(** The validators from the [i]th on; the last errors seen so far. *)
Fixpoint try_validators (l : BearerLayer) (header : string) (n i : nat) (client infra : option ValidationError) : prog Seam Response :=
  match n with
  | S n =>
      let! r := ValidateHeader i header in
      match r with
      | Ok p => admit_principal l p
      | Err e => if is_client_error e then try_validators l header n (S i) (Some e) infra
                 else try_validators l header n (S i) client (Some e)
      end
  | O =>
      match infra with
      | Some e => record_attempt l InfraUnavailable (display e) (Ret Unavailable)
      | None =>
          let detail := match client with Some e => display e | None => "no validator accepted the token" end in
          record_attempt l Rejected detail (Ret (Unauthorized detail))
      end
  end.

(** The Authorization header: absent, present but not text, or text. *)
Definition bearer_middleware (l : BearerLayer) (header : option (option string)) : prog Seam Response :=
  match mode l with
  | Disabled => let! _ := RunNext dev_principal in Ret Handled
  | Enforce =>
      if (validators l =? 0)%nat then Ret Panicking
      else match header with
           | None => record_attempt l MissingHeader "missing Authorization header" (Ret (Unauthorized "missing Authorization header"))
           | Some None => record_attempt l Rejected "Authorization header is not valid UTF-8" (Ret (Unauthorized "Authorization header is not valid UTF-8"))
           | Some (Some h) => try_validators l h (validators l) 0 None None
           end
  end.

End Layer.

(** ** What a trace shows *)

(** The validators asked, with their answers. *)
Definition verdict_of (e : event Seam) : option (nat * string * result (Principal Value) ValidationError) :=
  match ev_call e as s return answer s → option (nat * string * result (Principal Value) ValidationError) with
  | ValidateHeader i h => λ r, Some (i, h, r)
  | _ => λ _, None
  end (ev_answer e).

(** The principal handed to the handler. *)
Definition handed_of (e : event Seam) : option (Principal Value) := match ev_call e with RunNext p => Some p | _ => None end.

(** The role tables read. *)
Definition role_read_of (e : event Seam) : option (string * string * list Uuid * ResolvedRoles) :=
  match ev_call e as s return answer s → option (string * string * list Uuid * ResolvedRoles) with
  | ResolveForSubject te s g => λ r, match (r : result ResolvedRoles RbacError) with Ok r => Some (te, s, g, r) | Err _ => None end
  | _ => λ _, None
  end (ev_answer e).

(** What the gate heard of a tenant. *)
Inductive TenantAnswer := Cached (r : TenantLookup) | Registered (status : option string) | Unread.

Definition tenant_answer_of (e : event Seam) : option (string * TenantAnswer) :=
  match ev_call e as s return answer s → option (string * TenantAnswer) with
  | TenantCacheGet te => λ r, match (r : option TenantLookup) with Some r => Some (te, Cached r) | None => None end
  | TenantStatusOf te => λ r, Some (te, match (r : result (option string) unit) with Ok s => Registered s | Err _ => Unread end)
  | _ => λ _, None
  end (ev_answer e).

(** The audit hook. *)
Definition attempt_of (e : event Seam) : option AuthAttemptOutcome := match ev_call e with RecordAttempt o _ => Some o | _ => None end.

Notation verdicts := (omap verdict_of).
Notation handed := (omap handed_of).
Notation role_reads := (omap role_read_of).
Notation tenant_answers := (omap tenant_answer_of).
Notation attempts := (omap attempt_of).

End BearerAuth.

(** * The bearer layer on tables

    The queries of the enrichers answered from the tables of [Rbac], with empty caches,
    and requests run end to end. [find_users], [find_tombstone], [groups_of] and
    [status_of] are the SQL of waygate-scim/src/enricher.rs and
    waygate-tenants/src/enforce.rs; where it leaves an order open, the tables' own is
    taken. *)

Module BearerDemo.
Import HashChain(Uuid) Json.Json Facts.Facts Interact.Interact ExecutionTypes(uuid_text) Rbac.Rbac RbacRuns.RbacRuns BearerAuth.

(** ** The queries *)

Definition user_row (x : Uuid * ScimUser) : UserRow := {|
  ur_id := x.1; ur_external_id := su_external_id x.2; ur_user_name := su_user_name x.2; ur_active := su_active x.2; ur_attrs := su_attrs x.2 |}.

Definition user_matches (t s : string) (u : ScimUser) : bool :=
  bool_decide (su_tenant_id u = t) && (bool_decide (su_external_id u = Some s) || bool_decide (su_user_name u = s)).

Definition find_users (t s : string) (d : Directory) : list UserRow :=
  take 2 (user_row <$> filter (λ x, (user_matches t s x.2 && bool_decide (su_deleted_at x.2 = None)) = true) (map_to_list (users d))).

(** The one deleted last. *)
Definition later (best : option (Uuid * ScimUser)) (x : Uuid * ScimUser) : option (Uuid * ScimUser) :=
  match su_deleted_at x.2, best with
  | None, _ => best
  | Some _, None => Some x
  | Some a, Some y => if default 0 (su_deleted_at y.2) <? a then Some x else best
  end.

Definition find_tombstone (t s : string) (d : Directory) : option UserRow :=
  user_row <$> fold_left later (filter (λ x, user_matches t s x.2 = true) (map_to_list (users d))) None.

Definition named_le (x y : Uuid * string) : Prop := str_le x.2 y.2.

#[local] Instance named_le_dec x y : Decision (named_le x y) := _.

Definition groups_of (t : string) (user : Uuid) (d : Directory) : list (Uuid * string) :=
  merge_sort named_le (omap (λ m, if bool_decide (m.1.1 = user) && bool_decide (m.2 = t)
                                  then (λ g, (m.1.2, sg_display_name g)) <$> scim_groups d !! m.1.2 else None) (map_to_list (members d))).

Definition status_of (t : string) (d : Directory) : option string := te_status <$> tenants d !! t.

(** ** A world *)

Record World := { w_tables : Directory; w_scim_cache : option CachedResolution; w_groups_fail : bool; w_validators : nat → result (Principal Value) ValidationError }.

Definition serve (w : World) (e : Seam) (u : unit) : answer e * unit :=
  match e as e return answer e * unit with
  | ValidateHeader i _ => (w_validators w i, u)
  | TenantCacheGet _ => (None, u)
  | TenantStatusOf t => (Ok (status_of t (w_tables w)), u)
  | ScimCacheGet _ _ => (w_scim_cache w, u)
  | FindUsers t s => (Ok (find_users t s (w_tables w)), u)
  | FindTombstone t s => (Ok (find_tombstone t s (w_tables w)), u)
  | GroupsOf t i => (if w_groups_fail w then Err tt else Ok (groups_of t i (w_tables w)), u)
  | RolesCacheGet _ _ _ => (None, u)
  | ResolveForSubject t s g => (Ok (resolve_for_subject t s g (w_tables w)), u)
  | TenantCacheInsert _ _ | ScimCacheInsert _ _ _ | RolesCacheInsert _ _ _ _ | RecordAttempt _ _ | RunNext _ => (tt, u)
  end.

Definition demo_layer : BearerLayer := {| mode := Enforce; validators := 2; has_recorder := true; has_enricher := true |}.

Definition parse_uuid (s : string) : option Uuid := if bool_decide (s = uuid_text 5%N) then Some 5%N else None.

Definition display (e : ValidationError) : string := match e with Malformed => "malformed" | _ => "rejected" end.

Definition request (w : World) (header : option (option string)) : Response * list (event Seam) * unit :=
  interp (serve w) (bearer_middleware parse_uuid display demo_layer header) tt.

(** ** A tenant with a user, a group and an administrator role *)

Definition ann : ScimUser := {|
  su_tenant_id := "acme"; su_external_id := Some "ext-1"; su_user_name := "ann"; su_active := true; su_attrs := Object []; su_deleted_at := None |}.

Definition office : Directory :=
  run [(1000, OCreateTenant "acme" "Acme" Active);
       (2000, OScim {[1%N := ann]} {[5%N := {| sg_tenant_id := "acme"; sg_display_name := "ops"; sg_source := "scim" |}]} {[(1%N, 5%N) := "acme"]});
       (3000, OCreateRole 9%N "acme" "operator" None ["mcp:admin"]); (4000, OMap "acme" 5%N 9%N)] empty_directory.

Definition ann_principal : Principal Value := {|
  sub := "ann"; email := None; groups := []; issuer := "https://idp"; scopes := ["mcp:read"]; tenant := "acme"; auth_method := Oauth;
  raw_token := None; scim := None; enrichment_blocked := None; roles := []; api_key_profile_restrictions := None |}.

(** The first validator does not know the token, the second does. *)
Definition office_world (d : Directory) (cache : option CachedResolution) (groups_fail : bool) : World := {|
  w_tables := d; w_scim_cache := cache; w_groups_fail := groups_fail;
  w_validators := λ i, match i with O => Err Malformed | _ => Ok ann_principal end |}.

Definition header : option (option string) := Some (Some "Bearer t").

Definition ann_run := request (office_world office None false) header.

Definition ann_admitted : Principal Value := default dev_principal (head (omap handed_of ann_run.1.2)).

Example ann_is_admin : ann_run.1.1 = Handled ∧ scopes ann_admitted = ["mcp:admin"; "mcp:read"] ∧ roles ann_admitted = ["operator"].
Proof. by vm_compute. Qed.

Lemma ann_runs : runs (bearer_middleware parse_uuid display demo_layer header) ann_run.1.2 ann_run.1.1.
Proof. apply (interp_runs (serve (office_world office None false)) _ tt _ _ tt). by vm_compute. Qed.

Lemma ann_handed : omap handed_of ann_run.1.2 = [ann_admitted].
Proof. by vm_compute. Qed.

(** ** What enrichment does on these tables *)

(** Out of the group, an old entry of the SCIM cache notwithstanding. *)
Example stale_membership_grants_nothing :
  let gone := run [(5000, OScim (users office) (scim_groups office) ∅)] office in
  let stale := Hit {| rp_user_id := 1%N; rp_user_name := "ann"; rp_external_id := None; rp_active := true; rp_attrs := Object [];
                      rp_groups := [(5%N, "ops")] |} in
  scopes <$> omap handed_of (request (office_world gone (Some stale) false) header).1.2 = [["mcp:read"]].
Proof. by vm_compute. Qed.

(** A deleted user is refused, and so is a suspended tenant. *)
Example deprovisioned_user_is_refused :
  let u := {| su_tenant_id := "acme"; su_external_id := Some "ext-1"; su_user_name := "ann"; su_active := true; su_attrs := Object [];
              su_deleted_at := Some 5 |} in
  (request (office_world (run [(5000, OScim {[1%N := u]} ∅ ∅)] office) None false) header).1.1
  = Forbidden "scim_inactive" "principal is provisioned via SCIM but marked active=false".
Proof. by vm_compute. Qed.

Example suspended_tenant_is_refused :
  ∃ detail, (request (office_world (run [(5000, OUpdateTenant "acme" None (Some Suspended))] office) None false) header).1.1
  = Forbidden "tenant_suspended" detail.
Proof. eexists. by vm_compute. Qed.

(** Two rows match: the answer has the general detail, the one written for this reason being kept for a
    reason without the count. *)
Example ambiguous_match_has_no_detail :
  let bob := {| su_tenant_id := "acme"; su_external_id := Some "ann"; su_user_name := "bob"; su_active := true; su_attrs := Object [];
                su_deleted_at := None |} in
  (request (office_world (run [(5000, OScim {[1%N := ann; 2%N := bob]} ∅ ∅)] office) None false) header).1.1
  = Forbidden "scim_ambiguous_match:2" "principal blocked by enrichment layer".
Proof. by vm_compute. Qed.

(** An inactive user whose row was read, but not its groups. *)
Example inactive_user_admitted_without_groups :
  let off := {| su_tenant_id := "acme"; su_external_id := None; su_user_name := "ann"; su_active := false; su_attrs := Object [];
                su_deleted_at := None |} in
  let d := run [(5000, OScim {[1%N := off]} ∅ ∅)] office in
  (request (office_world d None true) header).1.1 = Handled ∧
  (request (office_world d None false) header).1.1 = Forbidden "scim_inactive" "principal is provisioned via SCIM but marked active=false".
Proof. by vm_compute. Qed.

End BearerDemo.
