(* ===== verification/BearerSpec.v ===== *)
(** * The bearer layer: what reaches a handler

    For every answer of the validators, the caches and the queries: which principal the
    handler is given, which validator vouched for it, what cleared its tenant, where a
    control-plane scope comes from, and when a request is refused. *)

From S2P Require Import Prelude RustStr HashChain Json Facts Interact OauthToken Rbac RbacRuns BearerAuth.
Local Open Scope Z_scope.

Module BearerSpec.
Import HashChain(Uuid) Json.Json Facts.Facts Interact.Interact OauthToken(scim_blocks_request) Rbac.Rbac RbacRuns.RbacRuns BearerAuth.BearerAuth.

Implicit Types (p q : Principal Value) (t : list (event Seam)) (l : BearerLayer).

(** ** Enrichment *)

(** The parts of a principal that enrichment never touches. *)
Definition same_identity p q : Prop :=
  sub p = sub q ∧ email p = email q ∧ groups p = groups q ∧ issuer p = issuer q ∧ tenant p = tenant q ∧ auth_method p = auth_method q ∧
  raw_token p = raw_token q ∧ api_key_profile_restrictions p = api_key_profile_restrictions q.

(** Active in the cache or in the registry, or the registry could not be read. *)
Definition tenant_cleared (te : string) t : Prop :=
  ∃ a, (te, a) ∈ tenant_answers t ∧ (a = Cached TActive ∨ a = Registered (Some "active") ∨ a = Unread).

(** What the directory said of a subject that is let through: the cached row or the row read is active, or
    there is neither a row nor a tombstone; or a query failed, the groups of the row among them. *)
Definition user_cleared (te s : string) t : Prop :=
  (∃ r, Event (ScimCacheGet te s) (Some (Hit r)) ∈ t ∧ rp_active r = true) ∨
  Event (ScimCacheGet te s) (Some Miss) ∈ t ∨
  (∃ row, Event (FindUsers te s) (Ok [row]) ∈ t ∧ (ur_active row = true ∨ Event (GroupsOf te (ur_id row)) (Err tt) ∈ t)) ∨
  (Event (FindUsers te s) (Ok []) ∈ t ∧ (Event (FindTombstone te s) (Ok None) ∈ t ∨ Event (FindTombstone te s) (Err tt) ∈ t)) ∨
  Event (FindUsers te s) (Err tt) ∈ t.

(** A principal that came with directory attributes keeps them. *)
Definition directory_cleared p t : Prop :=
  match scim p with Some a => sp_active a = true | None => user_cleared (tenant p) (sub p) t end.

Lemma directory_cleared_sub p t t' : t ⊆ t' → directory_cleared p t → directory_cleared p t'.
Proof.
  intros Hsub. unfold directory_cleared. destruct (scim p); [done|]. unfold user_cleared. set_unfold in Hsub. naive_solver.
Qed.

Definition quiet t : Prop := verdicts t = [] ∧ handed t = [] ∧ attempts t = [].

Lemma quiet_app t1 t2 : quiet t1 → quiet t2 → quiet (t1 ++ t2).
Proof. intros (H1 & H2 & H3) (H4 & H5 & H6). unfold quiet. by rewrite !omap_app, H1, H2, H3, H4, H5, H6. Qed.

Ltac settled := intros; split; [done|]; split; [done|]; eauto 10.
Ltac here := repeat (first [apply list_elem_of_here | apply list_elem_of_further]).

Lemma tenant_enrich_wp p : wp (tenant_enrich p) (λ t q, quiet t ∧ role_reads t = [] ∧
  ((∃ reason, q = with_blocked reason p) ∨ q = p ∧ (blocked p = false → tenant_cleared (tenant p) t))).
Proof.
  unfold tenant_enrich, tenant_cleared. destruct (blocked p); cbn; [split_and!; [done..|]; right; by split|]. intros [hit|]; cbn.
  - split_and!; [done..|]. destruct hit; eauto. right. split; [done|]. intros _. eexists. split; [by left|]. by left.
  - intros [s|[]]; cbn.
    + intros u. split_and!; [done..|]. destruct (tenant_of_status s) eqn:Hs; eauto. right. split; [done|]. intros _. eexists. cbn.
      split; [by left|]. right. left. destruct s as [s|]; [|done]. unfold tenant_of_status in Hs. case_bool_decide; [by subst|done].
    + split_and!; [done..|]. right. split; [done|]. intros _. eexists. split; [by left|]. by right; right.
Qed.

Lemma scim_enrich_wp p : wp (scim_enrich p) (λ t q, quiet t ∧ role_reads t = [] ∧
  ((∃ reason, q = with_blocked reason p) ∨ q = p ∨ ∃ s, q = with_scim s p) ∧
  (scim_blocks_request q = false → directory_cleared p t)).
Proof.
  unfold scim_enrich, directory_cleared, user_cleared, scim_blocks_request, blocked.
  destruct (scim p) as [a|] eqn:Hs; cbn -[scim_attrs].
  { settled. split; [eauto|]. rewrite Hs. destruct (enrichment_blocked p); [done|]. by destruct (sp_active a). }
  destruct (enrichment_blocked p) eqn:Hb; cbn -[scim_attrs]; [settled; split; [eauto|]; by rewrite Hb|].
  intros [[r| |reason]|]; cbn -[scim_attrs].
  - settled. split; [eauto|]. rewrite Hb. cbn. intros Ha. left. exists r. split; [here|by destruct (rp_active r)].
  - settled. split; [eauto|]. intros _. right. left. here.
  - settled. split; [eauto|]. done.
  - intros [[|row [|row' rows]]|[]]; cbn -[scim_attrs].
    + intros [[row|]|[]]; cbn -[scim_attrs]; settled; (split; [by eauto|]); [by rewrite Hb| |]; intros _; right; right; right; left;
        (split; [here|]); [left|right]; here.
    + intros [gs|[]]; cbn -[scim_attrs]; settled; (split; [by eauto|]); [rewrite Hb; cbn; intros Ha|intros _]; right; right; left; exists row;
        (split; [here|]); [left; by destruct (ur_active row)|right; here].
    + settled. split; [eauto|]. done.
    + settled. split; [eauto|]. intros _. do 4 right. here.
Qed.

Section Spec.
Context (parse_uuid : string → option Uuid) (display : ValidationError → string).

(** What the roles add: the role tables were read in this run, if the grant has a control-plane scope. *)
Definition grant_of p q t : Prop :=
  q = p ∨ ∃ r, q = with_grants (btree (scopes p ++ granted_scopes r)) (btree (roles p ++ role_names r)) p ∧
    (contains_control_plane_scope r = true → (tenant p, sub p, scim_group_ids parse_uuid p, r) ∈ role_reads t).

Lemma rbac_enrich_wp p : wp (rbac_enrich parse_uuid p) (λ t q, quiet t ∧ grant_of p q t).
Proof.
  assert (∀ r t, (contains_control_plane_scope r = true → (tenant p, sub p, scim_group_ids parse_uuid p, r) ∈ role_reads t) →
    grant_of p (if resolved_is_empty r then p else with_grants (btree (scopes p ++ granted_scopes r)) (btree (roles p ++ role_names r)) p) t)
    as Hgrant.
  { intros r t H. destruct (resolved_is_empty r); [by left|right; by exists r]. }
  unfold rbac_enrich. destruct (blocked p); cbn -[resolved_is_empty]; [split; [done|by left]|].
  intros [hit|]; cbn -[resolved_is_empty no_roles]; [destruct (contains_control_plane_scope hit) eqn:Hc; cbn -[resolved_is_empty no_roles]|].
  1, 3: intros [r|e]; cbn -[resolved_is_empty no_roles]; [|split; [done|]; by apply Hgrant];
    destruct (contains_control_plane_scope r); cbn -[resolved_is_empty no_roles]; [|intros u]; (split; [done|]); apply Hgrant; intros _; by left.
  split; [done|]. apply Hgrant. congruence.
Qed.

(** The three enrichers in a row. *)
Definition enriched p q t : Prop :=
  same_identity p q ∧
  (blocked q = false → tenant_cleared (tenant p) t) ∧
  (scim_blocks_request q = false → directory_cleared p t) ∧
  ∀ x, x ∈ scopes q → x ∈ scopes p ∨
    ∃ ids r, x ∈ granted_scopes r ∧ (x ∈ CONTROL_PLANE_SCOPES → (tenant p, sub p, ids, r) ∈ role_reads t).

Lemma elem_of_control_plane r x : x ∈ granted_scopes r → x ∈ CONTROL_PLANE_SCOPES → contains_control_plane_scope r = true.
Proof. intros Hr Hx. apply existsb_exists. exists x. split; [by apply list_elem_of_In|by apply bool_decide_eq_true]. Qed.

Lemma principal_enricher_wp p : wp (principal_enricher parse_uuid p) (λ t q, quiet t ∧ enriched p q t).
Proof.
  unfold principal_enricher. cbn [chained_enrich]. apply wp_bind. eapply wp_mono; [|apply tenant_enrich_wp].
  intros t1 p1 (Hq1 & _ & H1). apply wp_bind. eapply wp_mono; [|apply scim_enrich_wp].
  intros t2 p2 (Hq2 & _ & H2 & D2). apply wp_bind. eapply wp_mono; [|apply rbac_enrich_wp].
  intros t3 p3 (Hq3 & H3). cbn [wp]. rewrite app_nil_r. split; [by repeat apply quiet_app|].
  assert (same_identity p p2 ∧ scopes p2 = scopes p) as [Hid Hsc].
  { destruct H1 as [[? ->]|[-> _]], H2 as [[? ->]|[->|[? ->]]]; done. }
  assert (blocked p2 = false → tenant_cleared (tenant p) t1) as Hb.
  { destruct H1 as [[? ->]|[-> H1]], H2 as [[? ->]|[->|[? ->]]]; done. }
  assert (scim_blocks_request p2 = false → directory_cleared p t2) as Hd.
  { intros H. specialize (D2 H). destruct H1 as [[? ->]|[-> _]]; done. }
  assert (same_identity p2 p3 ∧ blocked p3 = blocked p2 ∧ scim_blocks_request p3 = scim_blocks_request p2) as (Hid' & Hb' & Hs')
    by (destruct H3 as [->|(r & -> & _)]; done).
  split_and!.
  - unfold same_identity in *. intuition congruence.
  - rewrite Hb'. intros H. destruct (Hb H) as (a & Ha & Hok). exists a. by rewrite omap_app, elem_of_app; auto.
  - rewrite Hs'. intros H. eapply directory_cleared_sub; [|by apply Hd]. set_solver.
  - intros x Hx. destruct H3 as [->|(r & -> & Hr)]; [left; by rewrite <- Hsc|]. cbn in Hx. rewrite elem_of_btree, elem_of_app in Hx.
    destruct Hx as [Hx|Hx]; [left; by rewrite <- Hsc|right]. exists (scim_group_ids parse_uuid p2), r. split; [done|]. intros Hcp.
    destruct Hid as (-> & _ & _ & _ & -> & _). rewrite !omap_app, !elem_of_app. right. right.
    eauto using elem_of_control_plane.
Qed.

(** More calls show no less. *)
Lemma elem_of_shown {A} (f : event Seam → option A) t t' x : t ⊆ t' → x ∈ omap f t → x ∈ omap f t'.
Proof. intros Hsub (e & He & Hf)%list_elem_of_omap. apply list_elem_of_omap. eauto. Qed.

Lemma enriched_sub p q t t' : t ⊆ t' → enriched p q t → enriched p q t'.
Proof.
  intros Hsub (Hid & Hb & Hd & Hs). split_and!; [done| |eauto using directory_cleared_sub|].
  - intros H. destruct (Hb H) as (a & Ha & Hok). exists a. eauto using elem_of_shown.
  - intros x Hx. destruct (Hs x Hx) as [|(ids & r & Hr & Hin)]; [by left|right]. exists ids, r. eauto using elem_of_shown.
Qed.

(** ** The middleware *)

(** What the audit hook is told of a response; [named] is whether there was a header. *)
Definition outcome_of (named : bool) (r : Response) : list AuthAttemptOutcome :=
  match r with
  | Handled | Panicking => []
  | Unauthorized _ => [if named then Rejected else MissingHeader]
  | Forbidden _ _ => [Rejected]
  | Unavailable => [InfraUnavailable]
  end.

Definition told l (named : bool) (r : Response) : list AuthAttemptOutcome := if has_recorder l then outcome_of named r else [].

(** A token was accepted as [p]: the handler runs with the enriched principal, or the request is forbidden. *)
Definition settled_as l p (t : list (event Seam)) (r : Response) : Prop :=
  (∃ q, r = Handled ∧ handed t = [q] ∧ scim_blocks_request q = false ∧ (has_enricher l = true → enriched p q t)) ∨
  (∃ reason detail, r = Forbidden reason detail ∧ handed t = []).

Lemma record_attempt_wp l o reason r (P : list (event Seam) → Response → Prop) :
  (∀ t, verdicts t = [] → handed t = [] → attempts t = (if has_recorder l then [o] else []) → P t r) →
  wp (record_attempt l o reason (Ret r)) P.
Proof. intros H. unfold record_attempt. destruct (has_recorder l); cbn; [intros u|]; by apply H. Qed.

Lemma admit_principal_wp l p : wp (admit_principal parse_uuid l p) (λ t r, verdicts t = [] ∧ attempts t = told l true r ∧ settled_as l p t r).
Proof.
  unfold admit_principal. apply wp_bind. eapply (wp_mono _ (λ t q, quiet t ∧ (has_enricher l = true → enriched p q t))).
  2: { destruct (has_enricher l); [|done]. eapply wp_mono; [|apply principal_enricher_wp]. naive_solver. }
  intros t q ((Hv & Hh & Ha) & He). destruct (scim_blocks_request q) eqn:Hb.
  - apply record_attempt_wp. intros t' Hv' Hh' Ha'. rewrite !omap_app, Hv, Hv', Ha, Ha'. split_and!; [done..|].
    right. eexists _, _. split; [done|]. by rewrite omap_app, Hh, Hh'.
  - cbn [wp]. intros u. rewrite !omap_app, Hv, Ha. split_and!; [done|unfold told; by destruct (has_recorder l)|].
    left. exists q. split_and!; [done|by rewrite omap_app, Hh|done|]. intros He'.
    eapply enriched_sub; [|by apply He]. set_solver.
Qed.

(** The validators from the [i]th on, all refusing. *)
Definition refusals (h : string) (i : nat) (es : list ValidationError) : list (nat * string * result (Principal Value) ValidationError) :=
  imap (λ j e, ((i + j)%nat, h, Err e)) es.

Lemma refusals_cons h i e es : refusals h i (e :: es) = (i, h, Err e) :: refusals h (S i) es.
Proof. unfold refusals. cbn. f_equal; [by rewrite Nat.add_0_r|]. apply imap_ext. intros j x _. cbn. by rewrite Nat.add_succ_r. Qed.

(** The answer when every validator refused: 503 if some could not decide, and otherwise 401 with the last refusal. *)
Definition chain_refusal (client : option ValidationError) (es : list ValidationError) : Response :=
  if forallb is_client_error es
  then Unauthorized (match last es with
                     | Some e => display e
                     | None => match client with Some e => display e | None => "no validator accepted the token" end
                     end)
  else Unavailable.

Lemma chain_refusal_cons client e es : is_client_error e = true → chain_refusal client (e :: es) = chain_refusal (Some e) es.
Proof. intros He. unfold chain_refusal. cbn [forallb]. rewrite He, last_cons. cbn. by destruct (last es). Qed.

Lemma settled_as_cons l p h i x t r : settled_as l p t r → settled_as l p (Event (ValidateHeader i h) x :: t) r.
Proof.
  intros [(q & -> & Hh & Hb & He)|(reason & detail & -> & Hh)]; [left|right; by eauto].
  exists q. split_and!; [done..|]. intros H. eapply enriched_sub; [|by apply He]. set_solver.
Qed.

(** The run of the chain: the accepting validator is asked after the others refused, and settles the
    request; or all refuse. *)
Definition chain_outcome l (h : string) (n i : nat) (all_refused : list ValidationError → Response) t (r : Response) : Prop :=
  attempts t = told l true r ∧
  ((∃ es p0, (length es < n)%nat ∧ verdicts t = refusals h i es ++ [((i + length es)%nat, h, Ok p0)] ∧ settled_as l p0 t r) ∨
   (∃ es, length es = n ∧ verdicts t = refusals h i es ∧ handed t = [] ∧ r = all_refused es)).

(** One more refusal in front. *)
Lemma chain_outcome_cons l h n i e f g t r : (∀ es, f es = g (e :: es)) → chain_outcome l h n (S i) f t r →
  chain_outcome l h (S n) i g (Event (ValidateHeader i h) (Err e) :: t) r.
Proof.
  intros Hfg [Ha [(es & p0 & Hlen & Hv & Hs)|(es & Hlen & Hv & Hh & ->)]]; (split; [done|]); [left|right].
  - exists (e :: es), p0. split_and!; [cbn; lia| |by apply settled_as_cons].
    rewrite refusals_cons. cbn [length]. rewrite Nat.add_succ_r. cbn. by f_equal.
  - exists (e :: es). split_and!; [cbn; lia| |done|done]. rewrite refusals_cons. cbn. by f_equal.
Qed.

Lemma try_validators_wp l h n : ∀ i client infra,
  wp (try_validators parse_uuid display l h n i client infra)
     (chain_outcome l h n i (λ es, if infra then Unavailable else chain_refusal client es)).
Proof.
  induction n as [|n IH]; intros i client infra; cbn [try_validators wp].
  - destruct infra as [e|]; apply record_attempt_wp; intros t Hv Hh Ha; (split; [done|]); right; by exists [].
  - intros [p0|e]; cbn [wp].
    + eapply wp_mono; [|apply admit_principal_wp]. intros t r (Hv & Ha & Hs). split; [done|]. left. exists [], p0.
      split_and!; [cbn; lia| |by apply settled_as_cons]. cbn. rewrite Nat.add_0_r. by f_equal.
    + destruct (is_client_error e) eqn:He; (eapply wp_mono; [|apply IH]); intros t r; apply chain_outcome_cons; intros es.
      * destruct infra; [done|]. by rewrite chain_refusal_cons.
      * destruct infra; [done|]. unfold chain_refusal. cbn. by rewrite He.
Qed.

(** With a header, the middleware is its chain. *)
Lemma enforced_chain l h t r : mode l = Enforce → validators l ≠ 0%nat →
  runs (bearer_middleware parse_uuid display l (Some (Some h))) t r →
  chain_outcome l h (validators l) 0 (chain_refusal None) t r.
Proof.
  intros Hm Hn Hr. unfold bearer_middleware in Hr. rewrite Hm in Hr. apply Nat.eqb_neq in Hn. rewrite Hn in Hr.
  pose proof (try_validators_wp l h (validators l) 0 None None) as Hwp. rewrite wp_runs in Hwp. by apply Hwp.
Qed.

(** Nothing is handed to the handler without one. *)
Lemma handed_has_header l header t r p : mode l = Enforce → runs (bearer_middleware parse_uuid display l header) t r → p ∈ handed t →
  ∃ h, header = Some (Some h) ∧ validators l ≠ 0%nat.
Proof.
  intros Hm Hr Hp. unfold bearer_middleware in Hr. rewrite Hm in Hr. destruct (Nat.eqb_spec (validators l) 0) as [|Hn].
  { apply runs_ret_inv in Hr as [-> _]. by apply not_elem_of_nil in Hp. }
  destruct header as [[h|]|]; [by eauto| |]; exfalso; revert t r Hr Hp; apply (wp_runs _ (λ t _, p ∈ handed t → False)), record_attempt_wp;
    intros t _ -> _ Hp; by apply not_elem_of_nil in Hp.
Qed.

(** The accepting validator of a request that reached the handler. *)
Lemma handed_is_accepted l header t r p : mode l = Enforce → has_enricher l = true →
  runs (bearer_middleware parse_uuid display l header) t r → p ∈ handed t →
  ∃ h es p0, header = Some (Some h) ∧ (length es < validators l)%nat ∧ verdicts t = refusals h 0 es ++ [(length es, h, Ok p0)] ∧
    handed t = [p] ∧ scim_blocks_request p = false ∧ enriched p0 p t.
Proof.
  intros Hm He Hr Hp. destruct (handed_has_header _ _ _ _ _ Hm Hr Hp) as (h & -> & Hn).
  destruct (enforced_chain _ _ _ _ Hm Hn Hr) as [_ [(es & p0 & Hlen & Hv & Hs)|(es & _ & _ & Hh & _)]].
  2: { rewrite Hh in Hp. by apply not_elem_of_nil in Hp. }
  destruct Hs as [(q & _ & Hq & Hb & Hq')|(reason & detail & _ & Hh)]; rewrite ?Hq, ?Hh in Hp.
  2: { by apply not_elem_of_nil in Hp. }
  apply list_elem_of_singleton in Hp as ->. exists h, es, p0. rewrite Hq. eauto 10.
Qed.

(** C7. Under enforcement, with the enrichers wired, the handler runs at most once, with a principal some
    validator vouched for: the validators before it all refused the header; the identity, the tenant and the
    key's restrictions are the ones it answered; nothing blocked the principal and its directory attributes
    are not inactive. Its tenant was active in the cache or in the registry, or the registry could not be
    read. Its user was active in the cache or in the row read, or the directory or its cache had neither a row nor a
    tombstone for the subject, or one of the directory's queries failed, the one for the row's groups among
    them: a deactivated user is let through only then. *)
Theorem handler_gets_cleared_principal l header t r p : mode l = Enforce → has_enricher l = true →
  runs (bearer_middleware parse_uuid display l header) t r → p ∈ handed t →
  ∃ h es p0, header = Some (Some h) ∧ (length es < validators l)%nat ∧ verdicts t = refusals h 0 es ++ [(length es, h, Ok p0)] ∧
    handed t = [p] ∧ same_identity p0 p ∧ scim_blocks_request p = false ∧ tenant_cleared (tenant p0) t ∧
    directory_cleared p0 t.
Proof.
  intros Hm He Hr Hp. destruct (handed_is_accepted _ _ _ _ _ Hm He Hr Hp) as (h & es & p0 & Hh & Hlen & Hv & Hq & Hb & Hid & Hc & Hd & _).
  exists h, es, p0. split_and!; [done..| |by apply Hd]. apply Hc. unfold scim_blocks_request in Hb. unfold blocked. by destruct (enrichment_blocked p).
Qed.

(** C8. Caches never lend control-plane authority: a control-plane scope of the handler's principal that
    the validator did not put there is held, in the role tables as read during this very request, by a role
    of the tenant that is assigned to the subject or mapped from a group the subject is a member of in
    those same tables. [current] are the states of the tables during the request; the caches may hold
    anything. *)
Theorem protected_scopes_are_current l header t r p i h p0 x (current : Directory → Prop) :
  mode l = Enforce → has_enricher l = true →
  runs (bearer_middleware parse_uuid display l header) t r → p ∈ handed t → (i, h, Ok p0) ∈ verdicts t →
  (∀ te s g ro, (te, s, g, ro) ∈ role_reads t → ∃ d, current d ∧ ro = resolve_for_subject te s g d) →
  x ∈ CONTROL_PLANE_SCOPES → x ∈ scopes p → x ∉ scopes p0 →
  ∃ d k role, current d ∧ roles_table d !! k = Some role ∧ ro_tenant_id role = tenant p0 ∧ x ∈ ro_scopes role ∧
    (directly d (tenant p0) (sub p0) role ∨
     ∃ g v, mappings d !! (tenant p0, g, ro_id role) = Some v ∧ is_member d (tenant p0) (sub p0) g = true).
Proof.
  intros Hm He Hr Hp Hi Hcur Hcp Hx Hx0. destruct (handed_is_accepted _ _ _ _ _ Hm He Hr Hp) as (h' & es & p1 & _ & _ & Hv & _ & _ & _ & _ & _ & Hs).
  assert (p1 = p0) as ->.
  { rewrite Hv in Hi. apply elem_of_app in Hi as [(j & e & Hj & _)%elem_of_lookup_imap_1|Hi%list_elem_of_singleton]; congruence. }
  destruct (Hs x Hx) as [|(ids & ro & Hro & Hin)]; [done|]. destruct (Hcur _ _ _ _ (Hin Hcp)) as (d & Hd & ->).
  apply elem_of_granted in Hro as (k & role & Hk & Hte & Hxr & Hh). exists d, k, role. split_and!; [done..|].
  destruct Hh as [Hh|(g & v & Hg & _ & Hmem)]; [by left|right; by exists g, v].
Qed.

(** C28. A refusal is the chain's verdict, and it is recorded: with a header present, either some validator
    accepts after the others refused, or every validator is asked once in order and the answer is 503 exactly
    when one of them could not decide, and 401 with the last refusal otherwise; the audit hook hears of every
    answer but the handler's. *)
Theorem refusal_is_the_chains_verdict l h t r : mode l = Enforce → validators l ≠ 0%nat →
  runs (bearer_middleware parse_uuid display l (Some (Some h))) t r →
  attempts t = told l true r ∧
  ((∃ es p0, (length es < validators l)%nat ∧ verdicts t = refusals h 0 es ++ [(length es, h, Ok p0)] ∧
      (r = Handled ∨ ∃ reason detail, r = Forbidden reason detail ∧ handed t = [])) ∨
   (∃ es, length es = validators l ∧ verdicts t = refusals h 0 es ∧ handed t = [] ∧
      r = (if forallb is_client_error es then Unauthorized (from_option display "" (last es)) else Unavailable))).
Proof.
  intros Hm Hn Hr. destruct (enforced_chain _ _ _ _ Hm Hn Hr) as [Ha [(es & p0 & Hlen & Hv & Hs)|(es & Hlen & Hv & Hh & ->)]];
    (split; [done|]); [left|right].
  - exists es, p0. split_and!; [done..|]. destruct Hs as [(q & -> & _)|(reason & detail & -> & Hh)]; eauto.
  - exists es. split_and!; [done..|]. unfold chain_refusal. destruct (forallb _ _); [|done].
    destruct (last es) as [e|] eqn:Hl; [done|]. apply last_None in Hl as ->. by destruct Hn.
Qed.

End Spec.

(** ** Ann's request *)

Import BearerAuth.BearerDemo.

Lemma handler_gets_cleared_principal_witness :
  ∃ h es p0, header = Some (Some h) ∧ (length es < 2)%nat ∧ verdicts ann_run.1.2 = refusals h 0 es ++ [(length es, h, Ok p0)] ∧
    handed ann_run.1.2 = [ann_admitted] ∧ same_identity p0 ann_admitted ∧ scim_blocks_request ann_admitted = false ∧
    tenant_cleared (tenant p0) ann_run.1.2 ∧ directory_cleared p0 ann_run.1.2.
Proof.
  apply (handler_gets_cleared_principal parse_uuid display demo_layer header ann_run.1.2 ann_run.1.1 ann_admitted); [done|done|apply ann_runs|].
  rewrite ann_handed. by apply list_elem_of_singleton.
Defined.

Lemma protected_scopes_are_current_witness :
  ∃ d k role, d = office ∧ roles_table d !! k = Some role ∧ ro_tenant_id role = "acme" ∧ "mcp:admin" ∈ ro_scopes role ∧
    (directly d "acme" "ann" role ∨ ∃ g v, mappings d !! ("acme", g, ro_id role) = Some v ∧ is_member d "acme" "ann" g = true).
Proof.
  apply (protected_scopes_are_current parse_uuid display demo_layer header ann_run.1.2 ann_run.1.1 ann_admitted 1%nat "Bearer t" ann_principal
    "mcp:admin" (λ d, d = office)); [done|done|apply ann_runs| | | | | |].
  - rewrite ann_handed. by apply list_elem_of_singleton.
  - assert (verdicts ann_run.1.2 = [(0%nat, "Bearer t", Err Malformed); (1%nat, "Bearer t", Ok ann_principal)]) as -> by (by vm_compute). right. by left.
  - assert (role_reads ann_run.1.2 = [("acme", "ann", [5%N], resolve_for_subject "acme" "ann" [5%N] office)]) as -> by (by vm_compute).
    intros te s g ro Hin. apply list_elem_of_singleton in Hin as [= -> -> -> ->]. by exists office.
  - by left.
  - assert (scopes ann_admitted = ["mcp:admin"; "mcp:read"]) as -> by (by vm_compute). by left.
  - cbn. intros Hin%list_elem_of_singleton. done.
Defined.

(** Both validators refuse, one because it could not decide. *)
Definition down_world : World := {|
  w_tables := office; w_scim_cache := None; w_groups_fail := false;
  w_validators := λ i, match i with O => Err (Infra "no key set") | _ => Err Malformed end |}.

Lemma refusal_is_the_chains_verdict_witness :
  let t := (request down_world header).1.2 in
  attempts t = [InfraUnavailable] ∧
  ((∃ es p0, (length es < 2)%nat ∧ verdicts t = refusals "Bearer t" 0 es ++ [(length es, "Bearer t", Ok p0)] ∧
      (Unavailable = Handled ∨ ∃ reason detail, Unavailable = Forbidden reason detail ∧ handed t = [])) ∨
   (∃ es, length es = 2%nat ∧ verdicts t = refusals "Bearer t" 0 es ∧ handed t = [] ∧
      Unavailable = (if forallb is_client_error es then Unauthorized (from_option display "" (last es)) else Unavailable))).
Proof.
  apply (refusal_is_the_chains_verdict parse_uuid display demo_layer "Bearer t" _ Unavailable); [done|done|].
  apply (interp_runs (serve down_world) _ tt _ _ tt). by vm_compute.
Defined.

End BearerSpec.
